(* ===== verification/_CoqProject ===== *)
-Q . S2P
Prelude.v
Kernel.v
Leds.v
Keys.v
Buttons.v
Lcd.v
TouchDrv.v
UsbMouse.v
RamBlock.v
At24.v
Dma.v
Flash.v
CharNet.v
TsFilters.v
TsText.v
TsLinear.v
TsInput.v
TsConfig.v
TsChain.v
TsRaw.v
Jffs2Rtime.v
Jffs2Rubin.v
Jffs2Compr.v
Crc32.v
Rbtree.v
Jffs2Frag.v
Jffs2Node.v
Jffs2File.v
Jffs2Write.v
Jffs2Io.v
Jffs2Dir.v
Jffs2Version.v
Jffs2Mount.v
Jffs2Inode.v
Jffs2Remount.v
Jffs2Space.v
Jffs2Books.v
Jffs2Account.v
Jffs2Obsolete.v
Jffs2Erase.v
Jffs2Reserve.v
Jffs2Room.v
Jffs2Allocator.v
Jffs2Gc.v
Jffs2States.v
Jffs2Collect.v
