(* ===== verification/Prelude.v ===== *)
(** * my_drv: a verification of the mini2440 driver collection

    The repository is a course in Linux device drivers for an S3C2440 board: a directory per driver,
    each a small C module over the kernel and the registers of the SoC, with the touch screen library
    tslib beside the touch driver and the flash file system JFFS2 (in mtd-utils) beside the NAND driver.
    This library models the last stage of every driver, the core, the filters and the plugins of tslib,
    and of JFFS2 the compressors, everything on the way of a file's bytes between the caller's buffer and
    the flash, the directories, the reading of an inode from its nodes at the next mount, and the space of
    the flash with its erase blocks, and proves what they promise.

    ** How the program is modelled

    - A driver function is a program [prog S A] of Kernel.v: [S] is the Record of the static variables
      of the file, [A] the C return type.  Kernel functions, registers and user memory are calls; a
      [world] answers them from the whole history of calls, so that a theorem over every world holds
      for every kernel and every hardware.  Documented behaviour that is needed is a named hypothesis
      on the world ([holds_writes]: a register keeps what is written; [io_maps]; [eeprom_bus];
      [serves_resources]), with a concrete world in a witness.
    - [run] executes a program to its end; dereferencing NULL is [Oops].  Where interrupts matter,
      [istep] is the interleaved semantics: between two steps of a program any of the handlers may
      run, [wait_event_interruptible] sleeps until its condition holds or a signal comes.  [outline]
      is the proof method for it: assertions that every handler keeps.
    - Integers are [Z] with the wrap-around of the C type written out ([u32], [s32], [u8]); C strings
      are lists of character codes; arrays are lists with an out of range store as a fault.
    - tslib is user space code without interleaving: its functions are pure functions that answer
      [None] where the code faults.  A loop that is not structural has fuel, and a theorem that the
      fuel is enough: [parse_loop] (length + 2, [parse_loop_total]), [variance_loop] (3 turns per
      sample, [variance_loop_total]), [config_loop] (one turn per character at most), [find_end] and
      [walk] (the nodes of the heap), [read_node] (one per node of the chain), [drain] (one read more
      than there are events).

    - JFFS2 has objects that refer to each other.  Its functions are programs of the state monad [SM]
      of this file over a Record with the heaps (nodes of a red-black tree, fragments, full nodes, raw
      references by address); reading a freed or NULL pointer, a BUG and a store out of a buffer are
      [fault].  [wp m s Q] says that [m] returns from [s], without fault, in [Q]; its rules are the
      proof method.  What the environment decides is data of the state: the answers of the
      allocator ([memory]), the answers of [jffs2_reserve_space] ([space]); the flash is any instance
      of the class [Mtd], and of [Lawful] where its behaviour matters; a compressor is any that is
      [Sound].  Loops have fuel that the proofs of [wp] show to be enough: the size of the tree and
      two ([fueled], [loop_on_tree]), the bytes of the range ([read_range], [write_range]), the
      length of the buffers (compression), 17 for the bits of a rubin interval.

    ** The files

    - Prelude.v: C operators, machine widths, bit lemmas, the hint databases [drv], [bits], [shifts].
    - Kernel.v: calls, programs, the two semantics, [outline], register files, stepping tactics.
    - Leds.v: first_drv/first_drv.c ([FirstDrv]) and 9th_bus_drv_dev ([LedPlatform]: led_dev.c and
      led_drv.c).  What open and write do to GPBCON and GPBDAT; the platform driver probed with the
      resources of led_dev.c does what first_drv does.
    - Keys.v: second_drv, third_drv, forth_drv and fifth_drv.  Under every interleaving with the key
      interrupts: reads hand out the code of the latest event, the blocking read waits, [poll] keeps
      its promise; and where the drivers lose or ignore something.
    - Buttons.v: 8th_buttons/buttons.c.  Ten milliseconds of debouncing give one report.
    - Lcd.v: 10th_lcd/lcd.c and its variants, one [lcd_init] over the constants of each file.  The
      panel timing, the window the controller scans, the palette, the power-off.
    - TouchDrv.v: 11th_ts/s3c_ts.c.  A specification ([spec_play]: frames of press and release) and
      the refinement of the three handlers for every sequence of interrupts.
    - UsbMouse.v: 12th_usbmouse_as_key.  The key events follow the buttons.
    - RamBlock.v: 13th_ramblock/ramblock.c refines a map from sectors to blocks.
    - At24.v: 19th_i2c_drv/at24cxx.c.  Write then read over a bus with an EEPROM; result codes.
    - Dma.v: 22th_dma/dma.c.  The channel is a handler of the interleaved semantics that moves, unit by unit, what
      the registers the driver wrote say ([write_reg] keeps them), from the physical addresses they hold.
    - Flash.v: 14th_nand/s3c_nand.c and 15th_nor/s3c_nor.c.  Bus cycles, chip select, probing,
      partition tables.
    - CharNet.v: 20th_chrdev_another/hello.c and 16th_virt_net/virt_net.c.
    - TsFilters.v: tslib/plugins pthres.c, variance.c and dejitter.c.  The type class [Source] is the
      [read] operation one module of the chain offers to the next, [SourceOk] its contract (it does
      not fault and stores as many samples as it answers); each plugin is an instance over any
      upstream and discharges the contract.  The in-place loops equal list functions ([pthres_filter],
      the [Window] of dejitter), noise is rejected, smoothing stays in the neighbourhood of the pen.
    - TsText.v: C string functions, src/ts_parse_vars.c, and the parameters of the plugins.
    - TsLinear.v: plugins/linear.c with its calibration file (written by tests/ts_calibrate.c) and
      plugins/linear-h2200.c.  Affine map, round trip of the file, fixed point without overflow.
    - TsInput.v: plugins/input-raw.c, and the composition with TouchDrv.v: from the interrupts of the
      panel to the samples of a client.
    - TsConfig.v: src/ts_open.c, ts_attach.c, ts_load_module.c, ts_config.c.  Modules are nodes of a
      heap; what a configuration file builds; when attaching a raw module breaks the chain.
    - TsChain.v: src/ts_read.c through the heap, shown to be the composition of the plugin models for
      the chain of etc/ts.conf.
    - TsRaw.v: the raw plugins for six other panels and [getxy] of tests/testutils.c.
    - The JFFS2 files model 14th_nand/mtd-utils-05.07.23/fs/jffs2.  Jffs2Rtime.v and Jffs2Rubin.v:
      compr_rtime.c, compr_rubin.c, pushpull.h; decompression inverts compression.  Jffs2Compr.v:
      compr.c, the registry of compressors with the class [Sound] as its contract.  Crc32.v: crc32.c
      and crc32.h as the remainder of a polynomial division; bursts are detected.
    - Rbtree.v: rbtree.c and include/linux/rbtree-24.h on a heap with parent pointers.  A tree with a
      hole in it ([piece]s that own disjoint nodes) is what the loops keep; insertion, erasure,
      replacement and the walks keep a red-black tree with the same nodes in the same order.
    - Jffs2Frag.v: the fragment tree of a file (nodelist.c, readinode.c).  The fragments in order are
      a list that tiles the file; adding a node lays its range over it, a node whose last byte is
      covered is marked obsolete, truncation cuts the list.
    - Jffs2Node.v: the layout of a raw inode on the flash and the functions of read.c, write.c and
      writev.c.  Jffs2File.v: what a file holds, and reading a range of it.  Jffs2Write.v: writing a
      range.  Jffs2Io.v: what both promise together, and a flash and a file to run them on.
    - Jffs2Dir.v: the entries of a directory (nodelist.c, dir.c, write.c).  The list of entries as a map
      from names ([listing]), the journal of the entries written ([replay]), and the operations on names
      over a world of directories whose entries all lie on the flash ([world]): link, unlink, rmdir and
      rename change the names they say and no others, and an error leaves every name.
    - Jffs2Version.v: the tree of data nodes by version (nodelist.c), and how readinode.c eats it from the
      left without rebalancing.  Jffs2Mount.v: readinode.c and the rest of nodelist.c, what becomes of the
      nodes of an inode one after the other ([inv]).  Jffs2Inode.v: the map of the file while it is built
      in the order of the versions ([mapped]), and what is in memory then ([mounted], [mounted_dir]).
      Jffs2Remount.v: what was written is found again.
    - The space of the flash (nodemgmt.c, erase.c, the checks of debug.c and debug.h, the books and the checks of a
      write in write.c, the reserves in build.c).  Jffs2Space.v: the Record of the superblock ([Space.sb]) and every
      operation, with the debug checks compiled in (the one before a write included), so that a book that does not
      balance, or a write to flash that is not blank, is a [fault].
      Jffs2Books.v: the invariant [inv] — sizes, sums, places, counters, chains, and blank flash where the next
      nodes go — under the classes [Geometric] of flashes and [Erasable] of what the driver does to their bytes (an
      erase takes effect with its callback), and that the checks pass under it.  Jffs2Account.v: how the invariant survives a
      change of sizes and of lists, and the callbacks of the driver.  Jffs2Obsolete.v: the chains, merging,
      [jffs2_mark_node_obsolete].  Jffs2Erase.v: erasing, with [burden] as the measure of what is left to do.
      Jffs2Reserve.v: reservations, with [supply].  Jffs2Room.v: the node that is entered in the room.
      Jffs2Allocator.v: all users in any order ([Users.reaches]), and a flash to run them on.  Fuel there: the
      chain of an inode is walked at most twice ([chain_fuel]), an erase run has three turns per
      misfortune of the environment and two per block ([erase_fuel]), a reservation as many and three per
      erasable block ([reserve_fuel]).
      What the environment refuses or fails is a finite list in the state, after which it gives: the theorems of
      termination measure by it.  Where memory is refused for good, the loop of the erase does not end
      ([erase_loop_refused]).
    - The garbage collector (gc.c) over that state.  Jffs2Gc.v: [Gc.jffs2_garbage_collect_pass] with the choice of the block,
      the search for the node in it and the copy; what the collector relies on ([collectable] of Jffs2Books.v) and
      how each of the other functions leaves it alone ([undisturbed] of Jffs2Reserve.v, [marks] of
      Jffs2Obsolete.v).  Jffs2States.v: none of them changes the state of an inode.  Jffs2Collect.v: passes among the
      calls of the writers ([turns]) keep the books, and a pass returns or comes to [jffs2_garbage_collect_live] with
      the node it was to move ([target]); a node moves whole, with its bytes; and the double free of a copy that fails.  Fuel: one turn of [check_loop] per inode number.

    ** What is not modelled, and why

    The kernel itself, [dlopen], the file system and the C library's I/O are parameters.  Of evdev
    only whole events are read (short reads do not happen there).  The addresses [malloc] returns and
    its failures in tslib's [mod_init]s are left out, as are debug output and the floating point least
    squares of ts_calibrate.c.  The earlier stages of each driver (the numbered directories) are
    snapshots of the modelled files; the small user test programs and tslib's drawing tests print and
    draw.  Of mtd-utils the scan at mount is not modelled, nor are the link counts of build.c, the wrappers
    that make new inodes, the write buffer of NAND, the user tools and the older file systems.  A pass of the
    collector is a parameter of [Space.jffs2_reserve_space], as the files are ordered the other way round.  What
    a pass does with an inode that is fetched ([jffs2_garbage_collect_live]) reads and writes the contents of
    the inode and is a parameter, of which nothing is taken: the theorems end where it is called.  So is
    [jffs2_do_crccheck_inode], which is not called where no node is unchecked.  The models of the bytes
    (Jffs2Node.v, Jffs2Dir.v) take the answers of [jffs2_reserve_space] from the environment and keep marks
    on raw references as a log; Jffs2Space.v is the other side of that boundary, without the meaning of the
    nodes' contents.  The models of the bytes are those of CONFIG_JFFS2_FS_DEBUG 0: the checks it adds to [jffs2_write_dnode],
    [jffs2_write_dirent], [jffs2_read_dnode] and [jffs2_add_full_dnode_to_inode] are in Jffs2Space.v only, and only
    those of the write.  There one task runs at a time: the locks are not modelled, and the driver's callbacks come where
    [erase_completion_lock] is released.  [rb_first] is the kernel's: a parameter with the hypothesis
    that it answers the first node of a tree.  zlib is a third-party package.

    ** What would come next

    [jffs2_garbage_collect_live] over the contents of an inode and the state of Jffs2Space.v together; that
    [jffs2_reserve_space] ends with the passes of the collector; scan.c and build.c, so that the invariant
    of Jffs2Books.v is established at mount. *)

From Stdlib Require Export ZArith Lia Bool.
From stdpp Require Export base tactics numbers list gmap strings relations.

#[global] Open Scope Z_scope.

(** ** C bit operators

    The C operators on [unsigned long] and [int] values, written on [Z].  Results are brought back
    to the machine width by [u32], [u8] or [s32] where the C type does it. *)

Declare Scope c_scope.
Delimit Scope c_scope with C.
Infix "&&&" := Z.land (at level 40, left associativity) : c_scope.
Infix "|||" := Z.lor (at level 50, left associativity) : c_scope.
Infix "<<<" := Z.shiftl (at level 38, left associativity) : c_scope.
Infix ">>>" := Z.shiftr (at level 38, left associativity) : c_scope.
Notation "~~~ x" := (Z.lnot x) (at level 30, right associativity) : c_scope.
#[global] Open Scope c_scope.

(** A 32-bit unsigned value, an 8-bit unsigned value, a 32-bit two's complement value. *)
Definition u32 (z : Z) : Z := z mod 2 ^ 32.
Definition u8 (z : Z) : Z := z mod 2 ^ 8.
Definition s32 (z : Z) : Z := (z + 2 ^ 31) mod 2 ^ 32 - 2 ^ 31.

Lemma u32_range z : 0 <= u32 z < 2 ^ 32.
Proof. apply Z.mod_pos_bound. lia. Qed.

Lemma u8_range z : 0 <= u8 z < 2 ^ 8.
Proof. apply Z.mod_pos_bound. lia. Qed.

Lemma s32_range z : - 2 ^ 31 <= s32 z < 2 ^ 31.
Proof. unfold s32. pose proof (Z.mod_pos_bound (z + 2 ^ 31) (2 ^ 32)). lia. Qed.

Lemma u32_small z : 0 <= z < 2 ^ 32 → u32 z = z.
Proof. apply Z.mod_small. Qed.

Lemma u8_small z : 0 <= z < 2 ^ 8 → u8 z = z.
Proof. apply Z.mod_small. Qed.

Lemma s32_small z : - 2 ^ 31 <= z < 2 ^ 31 → s32 z = z.
Proof. intros. unfold s32. rewrite Z.mod_small; lia. Qed.

Lemma u32_idemp z : u32 (u32 z) = u32 z.
Proof. apply u32_small, u32_range. Qed.

Lemma testbit_u32 z i : 0 <= i < 32 → Z.testbit (u32 z) i = Z.testbit z i.
Proof. intros. unfold u32. apply Z.mod_pow2_bits_low. lia. Qed.

Lemma testbit_u32_high z i : 32 <= i → Z.testbit (u32 z) i = false.
Proof. intros. unfold u32. apply Z.mod_pow2_bits_high. lia. Qed.

Lemma testbit_u8 z i : 0 <= i < 8 → Z.testbit (u8 z) i = Z.testbit z i.
Proof. intros. unfold u8. apply Z.mod_pow2_bits_low. lia. Qed.

Lemma testbit_above n p i : 0 <= n < 2 ^ p → 0 <= p <= i → Z.testbit n i = false.
Proof. intros. rewrite <- (Z.mod_small n (2 ^ p)) by lia. apply Z.mod_pow2_bits_high. lia. Qed.

Create HintDb drv.
Create Rewrite HintDb drv.
#[export] Hint Resolve u32_range u8_range s32_range : drv.
#[export] Hint Rewrite u32_idemp : drv.

(** [bits] pushes [Z.testbit] through the bitwise operators, [shifts] through shifts as well. *)
Create Rewrite HintDb bits.
Create Rewrite HintDb shifts.
#[export] Hint Rewrite Z.land_spec Z.lor_spec Z.lxor_spec Z.testbit_0_l : bits.
#[export] Hint Rewrite Z.lnot_spec using lia : bits.
#[export] Hint Rewrite Z.shiftl_spec Z.shiftr_spec using lia : shifts.
#[export] Hint Rewrite testbit_u32 testbit_u8 using lia : bits.

(** A field of [n] ones starting at bit [a]. *)
Lemma testbit_field n a i :
  0 <= n → 0 <= a → Z.testbit (Z.ones n <<< a) i = (a <=? i) && (i <? a + n).
Proof.
  intros Hn Ha. destruct (decide (0 <= i)).
  - rewrite Z.shiftl_spec by lia. destruct (Z.leb_spec a i); simpl.
    + rewrite Z.testbit_ones_nonneg by lia. apply eq_iff_eq_true. rewrite !Z.ltb_lt. lia.
    + apply Z.testbit_neg_r. lia.
  - rewrite Z.testbit_neg_r by lia. destruct (Z.leb_spec a i); [lia|done].
Qed.

#[export] Hint Rewrite testbit_field using lia : bits.

(** Splitting on the comparisons and equality tests left in a goal. *)
Ltac zcases :=
  repeat match goal with
         | |- context [?a <=? ?b] => destruct (Z.leb_spec a b); try lia
         | |- context [?a <? ?b] => destruct (Z.ltb_spec a b); try lia
         | |- context [?a =? ?b] => destruct (Z.eqb_spec a b); try lia
         end.

(** [bits_cases i] splits a bit index known to lie in a constant range into its values. *)
Ltac bits_cases i :=
  match goal with
  | H : ?a <= i < ?b |- _ =>
      let H' := fresh in
      assert (i = a ∨ a + 1 <= i < b) as [->|H'] by lia; [|clear H; simpl in H'; try lia; bits_cases i]
  end.

(** Two 32-bit values with the same 32 bits are equal. *)
Lemma bits32_eq a b :
  0 <= a < 2 ^ 32 → 0 <= b < 2 ^ 32 →
  (∀ i, 0 <= i < 32 → Z.testbit a i = Z.testbit b i) → a = b.
Proof.
  intros Ha Hb Hbits. apply Z.bits_inj'. intros i Hi.
  destruct (decide (i < 32)).
  - apply Hbits. lia.
  - rewrite !(testbit_above _ 32) by lia. done.
Qed.

Lemma land_range a b n : 0 <= n → 0 <= a < 2 ^ n → 0 <= a &&& b < 2 ^ n.
Proof.
  intros Hn Ha. assert (0 <= a &&& b) by (apply Z.land_nonneg; lia).
  split; [done|].
  destruct (decide (a &&& b = 0)) as [->|]; [lia|].
  apply Z.log2_lt_pow2; [lia|].
  destruct (decide (a = 0)) as [->|]; [by rewrite Z.land_0_l in *|].
  destruct (Z.lt_ge_cases (Z.log2 (a &&& b)) n) as [|Hge]; [done|].
  assert (Z.testbit (a &&& b) (Z.log2 (a &&& b)) = true) as Hb by (apply Z.bit_log2; lia).
  rewrite Z.land_spec, (testbit_above a n) in Hb by lia. done.
Qed.

Lemma lor_range a b n :
  0 <= n → 0 <= a < 2 ^ n → 0 <= b < 2 ^ n → 0 <= a ||| b < 2 ^ n.
Proof.
  intros Hn Ha Hb. assert (0 <= a ||| b) by (apply Z.lor_nonneg; lia).
  split; [done|].
  destruct (decide (a ||| b = 0)) as [->|]; [lia|].
  apply Z.log2_lt_pow2; [lia|].
  destruct (Z.lt_ge_cases (Z.log2 (a ||| b)) n) as [|Hge]; [done|].
  assert (Z.testbit (a ||| b) (Z.log2 (a ||| b)) = true) as Hl by (apply Z.bit_log2; lia).
  rewrite Z.lor_spec, (testbit_above a n), (testbit_above b n) in Hl by lia. done.
Qed.

Lemma lxor_range a b n :
  0 <= n → 0 <= a < 2 ^ n → 0 <= b < 2 ^ n → 0 <= Z.lxor a b < 2 ^ n.
Proof.
  intros Hn Ha Hb. assert (0 <= Z.lxor a b) by (apply Z.lxor_nonneg; lia).
  split; [done|]. destruct (decide (Z.lxor a b = 0)) as [->|]; [lia|].
  apply Z.log2_lt_pow2; [lia|].
  destruct (Z.lt_ge_cases (Z.log2 (Z.lxor a b)) n) as [|Hge]; [done|].
  assert (Z.testbit (Z.lxor a b) (Z.log2 (Z.lxor a b)) = true) as Hl by (apply Z.bit_log2; lia).
  rewrite Z.lxor_spec, (testbit_above a n), (testbit_above b n) in Hl by lia. done.
Qed.

(** [e ? 1 : 0] of C. *)
Definition c_bool (b : bool) : Z := if b then 1 else 0.
(** An [int] used as a condition. *)
Definition truthy (z : Z) : bool := negb (z =? 0).

Lemma truthy_spec z : truthy z = true ↔ z ≠ 0.
Proof. unfold truthy. rewrite negb_true_iff, Z.eqb_neq. done. Qed.

Lemma truthy_false z : truthy z = false → z = 0.
Proof. unfold truthy. by rewrite negb_false_iff, Z.eqb_eq. Qed.

(** A single-bit test [v & (1<<i)] used as a condition reads bit [i]. *)
Lemma truthy_land_bit v i : 0 <= i → truthy (v &&& (1 <<< i)) = Z.testbit v i.
Proof.
  intros Hi. unfold truthy. rewrite Z.shiftl_1_l.
  destruct (Z.testbit v i) eqn:Hb.
  - rewrite negb_true_iff, Z.eqb_neq. intros H0.
    assert (Z.testbit (v &&& 2 ^ i) i = true) as Ht
      by (rewrite Z.land_spec, Hb, Z.pow2_bits_true; done).
    by rewrite H0, Z.testbit_0_l in Ht.
  - rewrite negb_false_iff, Z.eqb_eq. apply Z.bits_inj'. intros j Hj.
    rewrite Z.land_spec, Z.testbit_0_l.
    destruct (decide (i = j)) as [<-|]; [by rewrite Hb|].
    rewrite Z.pow2_bits_false by done. apply andb_false_r.
Qed.

(** ** C arrays

    An element read or stored by an [int] index: [None] outside the array. *)

Definition aget {A} (l : list A) (i : Z) : option A := if 0 <=? i then l !! Z.to_nat i else None.
Definition aset {A} (l : list A) (i : Z) (v : A) : option (list A) :=
  if (0 <=? i) && (i <? Z.of_nat (length l)) then Some (<[Z.to_nat i := v]> l) else None.

Lemma aget_nat {A} (l : list A) (n : nat) : aget l (Z.of_nat n) = l !! n.
Proof. unfold aget. zcases. by rewrite Nat2Z.id. Qed.
Lemma aget_Some {A} (l : list A) i : 0 <= i < Z.of_nat (length l) → ∃ v, aget l i = Some v.
Proof. intros Hi. unfold aget. zcases. apply lookup_lt_is_Some_2. lia. Qed.
Lemma aget_bound {A} (l : list A) i v : aget l i = Some v → 0 <= i < Z.of_nat (length l).
Proof. unfold aget. destruct (Z.leb_spec 0 i); [|done]. intros Hl%lookup_lt_Some. lia. Qed.
Lemma aget_app {A} (l l' : list A) i v : aget l i = Some v → aget (l ++ l') i = Some v.
Proof. unfold aget. destruct (0 <=? i); [|done]. apply lookup_app_l_Some. Qed.
Lemma aget_take {A} (l : list A) n i : i < Z.of_nat n → aget (take n l) i = aget l i.
Proof. intros Hi. unfold aget. zcases; [|done]. apply lookup_take_lt. lia. Qed.
Lemma aset_nat {A} (l : list A) (n : nat) v : (n < length l)%nat → aset l (Z.of_nat n) v = Some (<[n := v]> l).
Proof. intros Hn. unfold aset. zcases. by rewrite Nat2Z.id. Qed.
Lemma aset_Some {A} (l : list A) i v : 0 <= i < Z.of_nat (length l) → aset l i v = Some (<[Z.to_nat i := v]> l).
Proof. intros Hi. unfold aset. zcases; done. Qed.
Lemma aget_lookup {A} (l : list A) i v : aget l i = Some v → l !! Z.to_nat i = Some v.
Proof. unfold aget. by destruct (0 <=? i). Qed.
Lemma aget_nth {A} (l : list A) i v d : aget l i = Some v → nth (Z.to_nat i) l d = v.
Proof. intros Hv%aget_lookup. by rewrite nth_lookup, Hv. Qed.
Lemma take_aget_S {A} (l : list A) i v :
  aget l i = Some v → take (Z.to_nat (i + 1)) l = take (Z.to_nat i) l ++ [v].
Proof.
  intros Hv. pose proof (aget_bound _ _ _ Hv) as Hi. apply aget_lookup in Hv.
  replace (Z.to_nat (i + 1)) with (S (Z.to_nat i)) by lia. by apply take_S_r.
Qed.

(** Widths of sixteen bits. *)
Definition u16 (z : Z) : Z := z mod 2 ^ 16.
Definition s16 (z : Z) : Z := (z + 2 ^ 15) mod 2 ^ 16 - 2 ^ 15.
Lemma s16_small z : - 2 ^ 15 <= z < 2 ^ 15 → s16 z = z.
Proof. intros. unfold s16. rewrite Z.mod_small; lia. Qed.

(** A bind whose first part is known, for terms too large to be reduced. *)
Lemma obind_some {A B} (f : A → option B) a : mbind f (Some a) = f a.
Proof. done. Qed.

(** ** Programs over a store

    State passing with failure: [None] is a fault (a NULL or dangling dereference, [BUG()]).  [wp] is
    total correctness: the program does not fault and its answer and store satisfy [Q]. *)

Definition SM (S A : Type) : Type := S → option (A * S).
#[export] Instance SM_ret S : MRet (SM S) := λ A a s, Some (a, s).
#[export] Instance SM_bind S : MBind (SM S) := λ A B k m s, match m s with Some (a, s') => k a s' | None => None end.
Definition fault {S A} : SM S A := λ _, None.

Definition wp {S A} (m : SM S A) (s : S) (Q : A → S → Prop) : Prop :=
  match m s with Some (a, s') => Q a s' | None => False end.
Lemma wp_ret {S A} (a : A) (s : S) (Q : A → S → Prop) : Q a s → wp (mret a) s Q.
Proof. done. Qed.
Lemma wp_bind {S A B} (m : SM S A) (k : A → SM S B) s Q : wp m s (λ a s', wp (k a) s' Q) → wp (m ≫= k) s Q.
Proof. unfold wp, mbind, SM_bind. destruct (m s) as [[a s']|]; auto. Qed.
Lemma wp_mono {S A} (m : SM S A) s (Q Q' : A → S → Prop) : (∀ a s', Q a s' → Q' a s') → wp m s Q → wp m s Q'.
Proof. unfold wp. destruct (m s) as [[a s']|]; auto. Qed.
Lemma wp_inv {S A} (m : SM S A) s Q : wp m s Q → ∃ a s', m s = Some (a, s') ∧ Q a s'.
Proof. unfold wp. destruct (m s) as [[a s']|]; [|done]. eauto. Qed.
