(* ===== verification/Kernel.v ===== *)
(** * Kernel: driver code as programs over kernel calls

    A driver function is a [prog S A]: [S] is the record of the module's static variables, [A] the
    C return type.  Everything that is not in the repository (the kernel functions, the memory
    mapped registers of the SoC, user memory) is reached through [Call]; the answer is supplied by
    a [world], which may look at the whole history.  A theorem that quantifies over the world holds
    for every kernel and every hardware behaviour; a theorem about a documented behaviour says so
    in a hypothesis on the world.

    Histories are kept newest event first. *)

From S2P Require Import Prelude.

(** One message of [i2c_transfer]; a read message has an empty buffer here. *)
Record i2c_msg := I2cMsg { m_addr : Z; m_flags : Z; m_len : Z; m_buf : list Z }.

(** The kernel functions and hardware accesses the drivers make, with the arguments that matter.
    Pointers are addresses, 0 is NULL.  [Readl]/[Writel] are accesses through a pointer returned by
    [ioremap]; [Setf], [Setfn] and [Deref] are accesses to a field of a kernel object. *)
Inductive kcall :=
(* character devices and device classes *)
| Register_chrdev (major : Z) (name fops : string)
| Unregister_chrdev (major : Z) (name : string)
| Class_create (name : string)
| Class_destroy (cls : Z)
| Class_device_create (cls major minor : Z) (name : string)
| Class_device_unregister (dev : Z)
| Class_device_destroy (cls major minor : Z)
| Register_chrdev_region (major minor count : Z) (name : string)
| Alloc_chrdev_region (minor count : Z) (name : string)
| Unregister_chrdev_region (major minor count : Z)
| Cdev_init (cdev fops : string)
| Cdev_add (cdev : string) (major minor count : Z)
| Cdev_del (cdev : string)
(* memory and registers *)
| Ioremap (phys size : Z)
| Iounmap (p : Z)
| Readl (p : Z)
| Writel (p v : Z)
| Deref (p : Z)
| Setf (p : Z) (field : string) (v : Z)
| Setfn (p : Z) (field fn : string)
| Kzalloc (size : Z)
| Kfree (p : Z)
| Dma_alloc_writecombine (size : Z)
| Dma_free_writecombine (size p phys : Z)
(* user memory *)
| Copy_from_user (n : Z)
| Copy_to_user (bytes : list Z)
(* interrupts, waiting, signals *)
| Request_irq (irq : Z) (handler flags name : string) (dev : Z)
| Free_irq (irq dev : Z)
| Wake_up_interruptible (queue : string)
| Poll_wait (queue : string)
| Kill_fasync (queue sig : string)
| Fasync_helper (fd on : Z) (queue : string)
| Gpio_getpin (pin : Z)
| Printk (fmt : string) (args : list Z)
(* input core *)
| Input_allocate_device
| Input_free_device (p : Z)
| Input_register_device (p : Z)
| Input_unregister_device (p : Z)
| Set_bit (bit : Z) (bitmap : string) (p : Z)
| Input_set_abs_params (p axis min max : Z)
| Input_event (p type code value : Z)
| Input_sync (p : Z)
(* timers and clocks *)
| Init_timer (t : string)
| Add_timer (t : string)
| Mod_timer (t : string) (expires : Z)
| Del_timer (t : string)
| Jiffies
| Clk_get (name : string)
| Clk_enable (clk : Z)
(* platform bus *)
| Platform_driver_register (name : string)
| Platform_driver_unregister (name : string)
| Platform_device_register (name : string)
| Platform_device_unregister (name : string)
| Platform_get_resource (dev type num : Z)
(* frame buffer *)
| Framebuffer_alloc
| Framebuffer_release (p : Z)
| Register_framebuffer (p : Z)
| Unregister_framebuffer (p : Z)
(* block layer *)
| Register_blkdev (major : Z) (name : string)
| Unregister_blkdev (major : Z) (name : string)
| Alloc_disk (minors : Z)
| Put_disk (p : Z)
| Add_disk (p : Z)
| Del_gendisk (p : Z)
| Blk_init_queue (fn lock : string)
| Blk_cleanup_queue (q : Z)
| Set_capacity (p sectors : Z)
| Elv_next_request (q : Z)
| End_request (req uptodate : Z) (buffer : list Z)
(* usb *)
| Usb_register (name : string)
| Usb_deregister (name : string)
| Usb_rcvintpipe (dev ep : Z)
| Usb_buffer_alloc (dev size : Z)
| Usb_buffer_free (dev size p phys : Z)
| Usb_alloc_urb
| Usb_fill_int_urb (urb dev pipe buf len : Z) (complete : string) (interval : Z)
| Usb_submit_urb (urb : Z)
| Usb_kill_urb (urb : Z)
| Usb_free_urb (urb : Z)
(* mtd *)
| Nand_scan (mtd maxchips : Z)
| Do_map_probe (name : string) (map : Z)
| Simple_map_init (map : Z)
| Add_mtd_partitions (mtd nparts : Z)
| Del_mtd_partitions (mtd : Z)
(* network *)
| Alloc_netdev (size : Z) (name : string)
| Register_netdev (p : Z)
| Unregister_netdev (p : Z)
| Free_netdev (p : Z)
(* i2c *)
| I2c_transfer (adapter : Z) (msgs : list i2c_msg)
| I2c_attach_client (p : Z)
| I2c_detach_client (p : Z)
| I2c_get_clientdata (p : Z)
| I2c_probe (adapter : Z) (detect : string)
| I2c_add_driver (name : string)
| I2c_del_driver (name : string).

(** The answer of a call: a C return value, and the bytes or words it stored through pointer
    arguments (what [copy_from_user] copied, what an i2c read message received, ...). *)
Record ans := Ans { rv : Z; dat : list Z }.

Definition event : Type := kcall * ans.
Definition trace : Type := list event.
Definition world : Type := trace → kcall → ans.

(** Errno and flag values of the kernel headers. *)
Definition EIO := 5.
Definition EAGAIN := 11.
Definition ENOMEM := 12.
Definition EBUSY := 16.
Definition EINVAL := 22.
Definition ERESTARTSYS := 512.

(** [IS_ERR] and [PTR_ERR] of a pointer answer. *)
Definition is_err (p : Z) : bool := 2 ^ 32 - 4095 <=? u32 p.
Definition ptr_err (p : Z) : Z := s32 p.

(** ** Programs

    [Call c k] makes the call [c s], where [s] is the state at that moment (a pointer argument to a
    static variable is read by the callee), and goes on with its answer.  [Get] and [Upd] read and
    update the static variables atomically; [Wait] is [wait_event_interruptible]; [Oops] is a NULL
    dereference or another memory fault. *)

Inductive prog (S A : Type) : Type :=
| Ret (a : A)
| Call (c : S → kcall) (k : ans → prog S A)
| Get (k : S → prog S A)
| Upd (f : S → S) (k : prog S A)
| Wait (cond : S → bool) (k : Z → prog S A)
| Oops.
Arguments Ret {S A} a.
Arguments Call {S A} c k.
Arguments Get {S A} k.
Arguments Upd {S A} f k.
Arguments Wait {S A} cond k.
Arguments Oops {S A}.

Fixpoint prog_bind {S A B} (f : A → prog S B) (m : prog S A) : prog S B :=
  match m with
  | Ret a => f a
  | Call c k => Call c (λ r, prog_bind f (k r))
  | Get k => Get (λ s, prog_bind f (k s))
  | Upd g k => Upd g (prog_bind f k)
  | Wait c k => Wait c (λ r, prog_bind f (k r))
  | Oops => Oops
  end.

#[export] Instance prog_ret S : MRet (prog S) := @Ret S.
#[export] Instance prog_mbind S : MBind (prog S) := @prog_bind S.

Section Primitives.
Context {S : Type}.

(** A kernel call used for its return value, for its effect, for both results. *)
Definition call (c : kcall) : prog S Z := Call (λ _, c) (λ r, Ret (rv r)).
Definition call_at (c : S → kcall) : prog S Z := Call c (λ r, Ret (rv r)).
Definition call_ (c : kcall) : prog S unit := Call (λ _, c) (λ _, Ret ()).
Definition calld (c : kcall) : prog S ans := Call (λ _, c) Ret.

(** Reading and atomically updating the static variables. *)
Definition load {X} (f : S → X) : prog S X := Get (λ s, Ret (f s)).
Definition store (f : S → S) : prog S unit := Upd f (Ret ()).

(** [*p] and [*p = v] on a [volatile unsigned long *]. *)
Definition readl (p : Z) : prog S Z :=
  if p =? 0 then Oops else Call (λ _, Readl p) (λ r, Ret (u32 (rv r))).
Definition writel (p v : Z) : prog S unit :=
  if p =? 0 then Oops else Call (λ _, Writel p (u32 v)) (λ _, Ret ()).

(** [*p &= ~mask] and [*p |= mask]: a volatile read followed by a volatile write. *)
Definition clear_bits (p mask : Z) : prog S unit :=
  v ← readl p; writel p (v &&& ~~~ mask).
Definition set_bits (p mask : Z) : prog S unit :=
  v ← readl p; writel p (v ||| mask).

(** [base->field] on a mapped register structure, the field [off] bytes into it. *)
Definition readf (base off : Z) : prog S Z :=
  if base =? 0 then Oops else Call (λ _, Readl (base + off)) (λ r, Ret (u32 (rv r))).
Definition writef (base off v : Z) : prog S unit :=
  if base =? 0 then Oops else Call (λ _, Writel (base + off) (u32 v)) (λ _, Ret ()).

(** Field accesses of kernel objects. *)
Definition deref (p : Z) : prog S unit :=
  if p =? 0 then Oops else Call (λ _, Deref p) (λ _, Ret ()).
Definition setf (p : Z) (field : string) (v : Z) : prog S unit :=
  if p =? 0 then Oops else Call (λ _, Setf p field v) (λ _, Ret ()).
Definition setfn (p : Z) (field fn : string) : prog S unit :=
  if p =? 0 then Oops else Call (λ _, Setfn p field fn) (λ _, Ret ()).

(** [wait_event_interruptible(queue, cond)]: 0, or [-ERESTARTSYS] after a signal. *)
Definition wait_event_interruptible (cond : S → bool) : prog S Z := Wait cond Ret.
End Primitives.

(** [for] over a list of indices: the calls in order. *)
Fixpoint for_each {S X} (l : list X) (f : X → prog S unit) : prog S unit :=
  match l with
  | [] => Ret ()
  | x :: l => f x ≫= λ _, for_each l f
  end.

(** ** Sequential runs: no interrupt between two calls of the program *)

Inductive outcome (S A : Type) : Type :=
| Done (a : A)
| Asleep (p : prog S A)
| Crashed.
Arguments Done {S A} a.
Arguments Asleep {S A} p.
Arguments Crashed {S A}.

Fixpoint run {S A} (w : world) (p : prog S A) (s : S) (h : trace) : outcome S A * S * trace :=
  match p with
  | Ret a => (Done a, s, h)
  | Call c k => run w (k (w h (c s))) s ((c s, w h (c s)) :: h)
  | Get k => run w (k s) s h
  | Upd f k => run w k (f s) h
  | Wait cond k => if cond s then run w (k 0) s h else (Asleep p, s, h)
  | Oops => (Crashed, s, h)
  end.

Lemma run_bind {S A B} w (m : prog S A) (f : A → prog S B) s h :
  run w (m ≫= f) s h =
  match run w m s h with
  | (Done a, s', h') => run w (f a) s' h'
  | (Asleep p, s', h') => (Asleep (p ≫= f), s', h')
  | (Crashed, s', h') => (Crashed, s', h')
  end.
Proof.
  revert s h. induction m as [a|c k IH|k IH|g k IH|cond k IH|]; intros s h; simpl.
  - done.
  - apply IH.
  - apply IH.
  - apply IH.
  - destruct (cond s); [apply IH|done].
  - done.
Qed.

(** A run only adds events to the history. *)
Lemma run_extends {S A} w (p : prog S A) s h o s' h' :
  run w p s h = (o, s', h') → ∃ new, h' = new ++ h.
Proof.
  revert s h. induction p as [a|c k IH|k IH|g k IH|cond k IH|]; intros s h Hr; simpl in Hr.
  - simplify_eq. by exists [].
  - destruct (IH _ _ _ Hr) as [new ->]. exists (new ++ [(c s, w h (c s))]). by rewrite <- app_assoc.
  - eauto.
  - eauto.
  - case_match; [eauto|]. simplify_eq. by exists [].
  - simplify_eq. by exists [].
Qed.

(** ** Interleaved runs

    One thread executes [p]; between any two of its steps an interrupt or timer handler may run to
    completion.  A sleeping thread goes on when its condition holds or, if [signals] is set, when a
    signal arrives. *)

Definition conf (S A : Type) : Type := prog S A * S * trace.

Inductive istep {S A} (signals : bool) (handlers : list (prog S unit)) :
    conf S A → conf S A → Prop :=
| is_call c k r s h : istep signals handlers (Call c k, s, h) (k r, s, (c s, r) :: h)
| is_get k s h : istep signals handlers (Get k, s, h) (k s, s, h)
| is_upd f k s h : istep signals handlers (Upd f k, s, h) (k, f s, h)
| is_wake cond k s h : cond s = true → istep signals handlers (Wait cond k, s, h) (k 0, s, h)
| is_signal cond k s h :
    signals = true → cond s = false →
    istep signals handlers (Wait cond k, s, h) (k (- ERESTARTSYS), s, h)
| is_irq p i w s h s' h' :
    i ∈ handlers → run w i s h = (Done (), s', h') → istep signals handlers (p, s, h) (p, s', h').

Abbreviation isteps signals handlers := (rtc (istep signals handlers)).

(** Rule induction over interleavings: an invariant that every step preserves. *)
Lemma isteps_invariant {S A} signals handlers (I : conf S A → Prop) c c' :
  (∀ a b, I a → istep signals handlers a b → I b) → isteps signals handlers c c' → I c → I c'.
Proof. intros Hstep Hs. induction Hs as [|x y z Hxy _ IH]; eauto. Qed.

(** A sequential run that is not stopped is one of the interleavings. *)
Lemma run_isteps {S A} signals handlers w (p : prog S A) s h a s' h' :
  run w p s h = (Done a, s', h') → isteps signals handlers (p, s, h) (Ret a, s', h').
Proof.
  revert s h. induction p as [b|c k IH|k IH|g k IH|cond k IH|]; intros s h Hr; simpl in Hr.
  - simplify_eq. apply rtc_refl.
  - eapply rtc_l; [apply is_call|]. by eapply IH.
  - eapply rtc_l; [apply is_get|]. by eapply IH.
  - eapply rtc_l; [apply is_upd|]. by eapply IH.
  - case_match; [|done]. eapply rtc_l; [by apply is_wake|]. by eapply IH.
  - done.
Qed.

Lemma run_isteps_asleep {S A} signals handlers w (p : prog S A) s h p' s' h' :
  run w p s h = (Asleep p', s', h') → isteps signals handlers (p, s, h) (p', s', h').
Proof.
  revert s h. induction p as [b|c k IH|k IH|g k IH|cond k IH|]; intros s h Hr; simpl in Hr.
  - done.
  - eapply rtc_l; [apply is_call|]. by eapply IH.
  - eapply rtc_l; [apply is_get|]. by eapply IH.
  - eapply rtc_l; [apply is_upd|]. by eapply IH.
  - case_match; [|simplify_eq; apply rtc_refl]. eapply rtc_l; [by apply is_wake|]. by eapply IH.
  - done.
Qed.

(** An interrupt handler used as a step of the environment; its return code is dropped. *)
Definition as_handler {S} (p : prog S Z) : prog S unit := p ≫= λ _, mret ().

(** ** Proof outlines for interleaved runs

    [outline P p Q]: program [p] can be annotated with assertions, starting from [P], such that each
    assertion is stable under the handlers, each step of [p] leads from one assertion to the next and
    [Q a] holds when [p] returns [a].  Where [p] is asleep at a [Wait], [asleep] holds.  An outlined
    program does not reach [Oops]; code behind assertions that cannot hold needs no outline. *)

Definition may_sleep {S : Type} (s : S) (cond : S → bool) : Prop := True.
Definition never_sleeps {S : Type} (s : S) (cond : S → bool) : Prop := False.

Section Outline.
Context {S : Type} (signals : bool) (asleep : S → (S → bool) → Prop) (handlers : list (prog S unit)).

Definition stable (P : S → trace → Prop) : Prop :=
  ∀ i w s h s' h', i ∈ handlers → P s h → run w i s h = (Done (), s', h') → P s' h'.

Inductive outline {A} : (S → trace → Prop) → prog S A → (A → S → trace → Prop) → Prop :=
| o_ret P a Q : (∀ s h, P s h → Q a s h) → outline P (Ret a) Q
| o_call P P' c k Q :
    (∀ s h r, P s h → P' r s ((c s, r) :: h)) → (∀ r, stable (P' r)) →
    (∀ r, outline (P' r) (k r) Q) → outline P (Call c k) Q
| o_get P P' k Q :
    (∀ s h, P s h → P' s s h) → (∀ s, stable (P' s)) →
    (∀ s, outline (P' s) (k s) Q) → outline P (Get k) Q
| o_upd P P' f k Q :
    (∀ s h, P s h → P' (f s) h) → stable P' → outline P' k Q → outline P (Upd f k) Q
| o_wait P P' cond k Q :
    (∀ s h, P s h → cond s = false → asleep s cond) →
    (∀ s h, P s h → cond s = true → P' 0 s h) →
    (∀ s h, signals = true → P s h → cond s = false → P' (- ERESTARTSYS) s h) →
    (∀ z, stable (P' z)) → (∀ z, outline (P' z) (k z) Q) → outline P (Wait cond k) Q
| o_absurd P p Q : (∀ s h, P s h → False) → outline P p Q.

Lemma outline_pre {A} (P P' : S → trace → Prop) (p : prog S A) Q :
  (∀ s h, P s h → P' s h) → outline P' p Q → outline P p Q.
Proof.
  intros HP Ho. destruct Ho as [P' a Q H|P' P'' c k Q H Hs Ho|P' P'' k Q H Hs Ho|P' P'' f k Q H Hs Ho
    |P' P'' cond k Q Hn H Hg Hs Ho|P' p Q H].
  - apply o_ret. eauto.
  - apply (o_call _ P''); eauto.
  - apply (o_get _ P''); eauto.
  - apply (o_upd _ P''); eauto.
  - apply (o_wait _ P''); eauto.
  - apply o_absurd. eauto.
Qed.

Lemma outline_post {A} (P : S → trace → Prop) (p : prog S A) (Q Q' : A → S → trace → Prop) :
  (∀ a s h, Q a s h → Q' a s h) → outline P p Q → outline P p Q'.
Proof.
  intros HQ Ho. induction Ho as [P' a Q H|P' P'' c k Q H Hs Ho IH|P' P'' k Q H Hs Ho IH
    |P' P'' f k Q H Hs Ho IH|P' P'' cond k Q Hn H Hg Hs Ho IH|P' p Q H].
  - apply o_ret. eauto.
  - apply (o_call _ P''); eauto.
  - apply (o_get _ P''); eauto.
  - apply (o_upd _ P''); eauto.
  - apply (o_wait _ P''); eauto.
  - by apply o_absurd.
Qed.

Lemma outline_bind {A B} P (m : prog S A) (f : A → prog S B) R Q :
  outline P m R → (∀ a, outline (R a) (f a) Q) → outline P (m ≫= f) Q.
Proof.
  intros Ho Hf. induction Ho as [P' a R H|P' P'' c k R H Hs Ho IH|P' P'' k R H Hs Ho IH
    |P' P'' f' k R H Hs Ho IH|P' P'' cond k R Hn H Hg Hs Ho IH|P' p R H]; cbn.
  - by eapply outline_pre, Hf.
  - apply (o_call _ P''); eauto.
  - apply (o_get _ P''); eauto.
  - apply (o_upd _ P''); eauto.
  - apply (o_wait _ P''); eauto.
  - by apply o_absurd.
Qed.

(** An invariant used as the assertion at every point. *)
Fixpoint keeps {A} (J : S → trace → Prop) (p : prog S A) : Prop :=
  match p with
  | Ret _ => True
  | Call c k => (∀ s h r, J s h → J s ((c s, r) :: h)) ∧ ∀ r, keeps J (k r)
  | Get k => ∀ s, keeps J (k s)
  | Upd f k => (∀ s h, J s h → J (f s) h) ∧ keeps J k
  | Wait _ k => ∀ z, keeps J (k z)
  | Oops => False
  end.

Lemma keeps_outline {A} J (p : prog S A) :
  (∀ s cond, asleep s cond) → stable J → keeps J p → outline J p (λ _, J).
Proof.
  intros Hn HJ. induction p; simpl; intros Hk.
  - by constructor.
  - destruct Hk. eapply (o_call _ (λ _, J)); eauto.
  - eapply (o_get _ (λ _, J)); eauto.
  - destruct Hk. eapply (o_upd _ J); eauto.
  - eapply (o_wait _ (λ _, J)); eauto.
  - done.
Qed.

Lemma keeps_bind {A B} J (m : prog S A) (f : A → prog S B) :
  keeps J m → (∀ a, keeps J (f a)) → keeps J (m ≫= f).
Proof. clear asleep. intros Hm Hf. induction m as [| |k IH| | |]; cbn in *; naive_solver. Qed.

(** Soundness: every reachable configuration satisfies an assertion of an outline of what is left
    of the program. *)
Lemma outline_sound {A} P (p p' : prog S A) Q s h s' h' :
  outline P p Q → stable P → P s h → isteps signals handlers (p, s, h) (p', s', h') →
  ∃ P', outline P' p' Q ∧ stable P' ∧ P' s' h'.
Proof.
  intros Ho Hst HP Hs.
  pose (I := λ c : conf S A, ∃ P', outline P' c.1.1 Q ∧ stable P' ∧ P' c.1.2 c.2).
  change (I (p', s', h')). eapply isteps_invariant; [|exact Hs|by exists P].
  clear. intros a b (P & Ho & Hst & HP) Hstep.
  destruct Hstep as [c k r s h|k s h|f k s h|cond k s h Hc|cond k s h Hg Hc|p i w s h s' h' Hi Hr];
    simpl in *; unfold I; simpl.
  - inversion Ho as [|? P' ? ? ? H Hs Hk| | | |? ? ? HF]; subst; [|by destruct (HF _ _ HP)]. exists (P' r). eauto.
  - inversion Ho as [| |? P' ? ? H Hs Hk| | |? ? ? HF]; subst; [|by destruct (HF _ _ HP)]. exists (P' s). eauto.
  - inversion Ho as [| | |? P' ? ? ? H Hs Hk| |? ? ? HF]; subst; [|by destruct (HF _ _ HP)]. exists P'. eauto.
  - inversion Ho as [| | | |? P' ? ? ? Hn H ? Hs Hk|? ? ? HF]; subst; [|by destruct (HF _ _ HP)]. exists (P' 0). eauto.
  - inversion Ho as [| | | |? P' ? ? ? Hn ? H Hs Hk|? ? ? HF]; subst; [|by destruct (HF _ _ HP)]. exists (P' (- ERESTARTSYS)). eauto.
  - exists P. eauto.
Qed.

Lemma outline_returns {A} P (p : prog S A) Q a s h s' h' :
  outline P p Q → stable P → P s h → isteps signals handlers (p, s, h) (Ret a, s', h') →
  Q a s' h'.
Proof.
  intros Ho Hst HP Hs. destruct (outline_sound _ _ _ _ _ _ _ _ Ho Hst HP Hs) as (P' & Ho' & _ & HP').
  inversion Ho' as [| | | | |? ? ? HF]; subst; [eauto|by destruct (HF _ _ HP')].
Qed.

Lemma outline_asleep {A} P (p : prog S A) Q cond k s h s' h' :
  outline P p Q → stable P → P s h → isteps signals handlers (p, s, h) (Wait cond k, s', h') →
  cond s' = false → asleep s' cond.
Proof.
  intros Ho Hst HP Hs.
  destruct (outline_sound _ _ _ _ _ _ _ _ Ho Hst HP Hs) as (P' & Ho' & _ & HP').
  inversion Ho' as [| | | |? P'' ? ? ? Hn ? ? ? ?|? ? ? HF]; subst; [eauto|by destruct (HF _ _ HP')].
Qed.

Lemma outline_faultless {A} P (p : prog S A) Q s h s' h' :
  outline P p Q → stable P → P s h → ¬ isteps signals handlers (p, s, h) (Oops, s', h').
Proof.
  intros Ho Hst HP Hs. destruct (outline_sound _ _ _ _ _ _ _ _ Ho Hst HP Hs) as (P' & Ho' & _ & HP').
  inversion Ho' as [| | | | |? ? ? HF]; subst. by destruct (HF _ _ HP').
Qed.

(** The invariant rule: what every handler and every step of the thread keeps holds throughout. *)
Lemma keeps_isteps {A} J (p p' : prog S A) s h s' h' :
  stable J → keeps J p → J s h → isteps signals handlers (p, s, h) (p', s', h') → J s' h'.
Proof.
  clear asleep. intros Hst Hk HJ Hs.
  pose (I := λ c : conf S A, keeps J c.1.1 ∧ J c.1.2 c.2).
  assert (I (p', s', h')) as [_ ?]; [|done].
  eapply isteps_invariant; [|exact Hs|done].
  clear -Hst. intros a b [Hk HJ] Hstep. destruct Hstep; unfold I; simpl in *; naive_solver.
Qed.
End Outline.

(** Unfolding [keeps] along a program; [tac] proves the steps. *)
Ltac keeps_steps tac :=
  repeat lazymatch goal with
         | |- keeps _ (if ?b then _ else _) => destruct b
         | |- context [if ?b then _ else _] => destruct b
         | |- keeps _ _ => progress cbn
         | |- True => exact I
         | |- _ ∧ _ => split
         | |- ∀ _, _ => intro
         | |- _ => tac
         end.

(** Operations called one after the other, with their results. *)
Fixpoint session {S} (ops : list (prog S Z)) : prog S (list Z) :=
  match ops with
  | [] => mret []
  | p :: ops => r ← p; rs ← session ops; mret (r :: rs)
  end.

Lemma keeps_session {S} (J : S → trace → Prop) ops :
  Forall (keeps J) ops → keeps J (session ops).
Proof.
  induction 1 as [|p ops Hp _ IH]; simpl; [done|].
  apply keeps_bind; [done|]. intros r. apply keeps_bind; [done|]. done.
Qed.

(** ** Observations of a history *)

(** The calls, oldest first. *)
Definition calls (h : trace) : list kcall := reverse (h.*1).

(** The values written to a register, oldest first; the latest one. *)
Definition writes_to (p : Z) (h : trace) : list Z :=
  reverse (omap (λ e, match e.1 with Writel q v => if q =? p then Some v else None | _ => None end) h).
Fixpoint last_write (p : Z) (h : trace) : option Z :=
  match h with
  | [] => None
  | (Writel q v, _) :: h => if q =? p then Some v else last_write p h
  | _ :: h => last_write p h
  end.

(** How many calls of a history satisfy a test. *)
Fixpoint count (f : kcall → bool) (h : trace) : nat :=
  match h with
  | [] => 0
  | (c, _) :: h => (if f c then 1 else 0) + count f h
  end.

Lemma count_app f h1 h2 : count f (h1 ++ h2) = (count f h1 + count f h2)%nat.
Proof. induction h1 as [|[c r] h1 IH]; simpl; [done|]. rewrite IH. lia. Qed.

(** The addresses given to [kfree] and not allocated again, and whether a history accesses one. *)
Fixpoint freed (h : trace) : list Z :=
  match h with
  | [] => []
  | (Kfree p, _) :: h => p :: freed h
  | (Kzalloc _, a) :: h => List.filter (λ p, negb (p =? rv a)) (freed h)
  | _ :: h => freed h
  end.
Fixpoint uses_freed (h : trace) : bool :=
  match h with
  | [] => false
  | (Deref p, _) :: h | (Setf p _ _, _) :: h | (Setfn p _ _, _) :: h =>
      existsb (Z.eqb p) (freed h) || uses_freed h
  | _ :: h => uses_freed h
  end.

(** Registers that keep what was written to them: a read answers the latest write, or the reset
    value [init]. *)
Definition holds_writes (w : world) (init : Z → Z) : Prop :=
  ∀ h p, rv (w h (Readl p)) = default (init p) (last_write p h).

(** The tactic that runs a concrete program symbolically. *)
Ltac run_step :=
  match goal with
  | |- context [run _ (_ ≫= _) _ _] => rewrite run_bind
  | |- context [?p =? 0] => rewrite (proj2 (Z.eqb_neq p 0)) by (assumption || lia)
  end.

(** ** Register files

    The value of register [p] after history [h], for registers that hold what was written. *)
Definition reg (init : Z → Z) (p : Z) (h : trace) : Z := u32 (default (init p) (last_write p h)).

Lemma reg_range init p h : 0 <= reg init p h < 2 ^ 32.
Proof. apply u32_range. Qed.

Lemma reg_write init p v a h : reg init p ((Writel p v, a) :: h) = u32 v.
Proof. unfold reg. simpl. by rewrite Z.eqb_refl. Qed.

Lemma reg_write_ne init p q v a h :
  q ≠ p → reg init q ((Writel p v, a) :: h) = reg init q h.
Proof. intros. unfold reg. simpl. by rewrite (proj2 (Z.eqb_neq p q)) by done. Qed.

Lemma u32_land a b : 0 <= a < 2 ^ 32 → u32 (a &&& b) = a &&& u32 b.
Proof.
  intros Ha. apply bits32_eq; [apply u32_range|by apply land_range; lia|].
  intros i Hi. by autorewrite with bits.
Qed.

Lemma u32_lor a b : 0 <= a < 2 ^ 32 → u32 (a ||| b) = a ||| u32 b.
Proof.
  intros Ha. apply bits32_eq; [apply u32_range|apply lor_range; [lia|lia|apply u32_range]|].
  intros i Hi. by autorewrite with bits.
Qed.

Section RegisterFile.
Context {S : Type} (w : world) (init : Z → Z) (Hw : holds_writes w init).

Lemma run_readl p (s : S) h :
  p ≠ 0 → run w (readl p) s h = (Done (reg init p h), s, (Readl p, w h (Readl p)) :: h).
Proof.
  intros Hp. unfold readl. rewrite (proj2 (Z.eqb_neq p 0)) by done. simpl.
  rewrite Hw. done.
Qed.

Lemma run_writel p v (s : S) h :
  p ≠ 0 → ∃ a, run w (writel p v) s h = (Done (), s, (Writel p (u32 v), a) :: h).
Proof. intros Hp. unfold writel. rewrite (proj2 (Z.eqb_neq p 0)) by done. simpl. eauto. Qed.

(** [*p &= ~mask] and [*p |= mask] change register [p] only. *)
Lemma run_clear_bits p m (s : S) h :
  p ≠ 0 → ∃ h', run w (clear_bits p m) s h = (Done (), s, h')
    ∧ reg init p h' = reg init p h &&& u32 (~~~ m)
    ∧ ∀ q, q ≠ p → reg init q h' = reg init q h.
Proof.
  intros Hp. unfold clear_bits. rewrite run_bind, run_readl by done.
  edestruct (run_writel p) as [a ->]; [done|]. eexists. split; [done|]. split.
  - rewrite reg_write, u32_idemp, u32_land by apply reg_range. done.
  - intros q Hq. by rewrite reg_write_ne.
Qed.

Lemma run_set_bits p m (s : S) h :
  p ≠ 0 → ∃ h', run w (set_bits p m) s h = (Done (), s, h')
    ∧ reg init p h' = reg init p h ||| u32 m
    ∧ ∀ q, q ≠ p → reg init q h' = reg init q h.
Proof.
  intros Hp. unfold set_bits. rewrite run_bind, run_readl by done.
  edestruct (run_writel p) as [a ->]; [done|]. eexists. split; [done|]. split.
  - rewrite reg_write, u32_idemp, u32_lor by apply reg_range. done.
  - intros q Hq. by rewrite reg_write_ne.
Qed.
End RegisterFile.

(** ** Stepping through straight-line register code

    One lemma per primitive says what the run does and how the register file changes; [reg_steps]
    applies them in turn, leaving one hypothesis per step that [regs_at] rewrites with. *)

Section Stepping.
Context {S : Type} (w : world) (init : Z → Z) (Hw : holds_writes w init).

Lemma step_call c (s : S) h :
  (∀ p v, c ≠ Writel p v) →
  ∃ h', run w (call c) s h = (Done (rv (w h c)), s, h') ∧ ∀ q, reg init q h' = reg init q h.
Proof.
  intros Hc. simpl. eexists. split; [done|]. intros q. unfold reg. destruct c; try done.
  by destruct (Hc p v).
Qed.

Lemma run_load {X} (f : S → X) (s : S) h : run w (load f) s h = (Done (f s), s, h).
Proof. done. Qed.
Lemma run_store (f : S → S) (s : S) h : run w (store f) s h = (Done (), f s, h).
Proof. done. Qed.

Lemma step_calld c (s : S) h :
  (∀ p v, c ≠ Writel p v) →
  ∃ h', run w (calld c) s h = (Done (w h c), s, h') ∧ ∀ q, reg init q h' = reg init q h.
Proof.
  intros Hc. simpl. eexists. split; [done|]. intros q. unfold reg. destruct c; try done.
  by destruct (Hc p v).
Qed.

Lemma step_call_ c (s : S) h :
  (∀ p v, c ≠ Writel p v) →
  ∃ h', run w (call_ c) s h = (Done (), s, h') ∧ ∀ q, reg init q h' = reg init q h.
Proof.
  intros Hc. simpl. eexists. split; [done|]. intros q. unfold reg. destruct c; try done.
  by destruct (Hc p v).
Qed.

Lemma step_writel p v (s : S) h :
  p ≠ 0 → ∃ h', run w (writel p v) s h = (Done (), s, h')
    ∧ ∀ q, reg init q h' = if q =? p then u32 v else reg init q h.
Proof.
  intros Hp. destruct (run_writel w p v s h Hp) as [a ->]. eexists. split; [done|].
  intros q. destruct (Z.eqb_spec q p) as [->|]; [by rewrite reg_write, u32_idemp|by rewrite reg_write_ne].
Qed.

Lemma step_readl p (s : S) h :
  p ≠ 0 → ∃ h', run w (readl p) s h = (Done (reg init p h), s, h') ∧ ∀ q, reg init q h' = reg init q h.
Proof. intros Hp. rewrite (run_readl w init Hw) by done. eauto. Qed.

Lemma step_set_bits p m (s : S) h :
  p ≠ 0 → ∃ h', run w (set_bits p m) s h = (Done (), s, h')
    ∧ ∀ q, reg init q h' = if q =? p then reg init p h ||| u32 m else reg init q h.
Proof.
  intros Hp. destruct (run_set_bits w init Hw p m s h Hp) as (h' & -> & Hr & Hq). eexists.
  split; [done|]. intros q. destruct (Z.eqb_spec q p) as [->|]; eauto.
Qed.

Lemma step_clear_bits p m (s : S) h :
  p ≠ 0 → ∃ h', run w (clear_bits p m) s h = (Done (), s, h')
    ∧ ∀ q, reg init q h' = if q =? p then reg init p h &&& u32 (~~~ m) else reg init q h.
Proof.
  intros Hp. destruct (run_clear_bits w init Hw p m s h Hp) as (h' & -> & Hr & Hq). eexists.
  split; [done|]. intros q. destruct (Z.eqb_spec q p) as [->|]; eauto.
Qed.

Lemma step_writef b off v (s : S) h :
  b ≠ 0 → ∃ h', run w (writef b off v) s h = (Done (), s, h')
    ∧ ∀ q, reg init q h' = if q =? b + off then u32 v else reg init q h.
Proof.
  intros Hb. unfold writef. rewrite (proj2 (Z.eqb_neq b 0)) by done. eexists. split; [reflexivity|].
  intros q. destruct (Z.eqb_spec q (b + off)) as [->|]; [by rewrite reg_write, u32_idemp|by rewrite reg_write_ne].
Qed.

Lemma step_readf b off (s : S) h :
  b ≠ 0 → ∃ h', run w (readf b off) s h = (Done (reg init (b + off) h), s, h')
    ∧ ∀ q, reg init q h' = reg init q h.
Proof.
  intros Hb. unfold readf. rewrite (proj2 (Z.eqb_neq b 0)) by done. simpl. rewrite Hw. eauto.
Qed.

Lemma step_deref p (s : S) h :
  p ≠ 0 → ∃ h', run w (deref p) s h = (Done (), s, h') ∧ ∀ q, reg init q h' = reg init q h.
Proof. intros Hp. unfold deref. rewrite (proj2 (Z.eqb_neq p 0)) by done. eexists. split; reflexivity. Qed.

Lemma step_setf p f v (s : S) h :
  p ≠ 0 → ∃ h', run w (setf p f v) s h = (Done (), s, h') ∧ ∀ q, reg init q h' = reg init q h.
Proof. intros Hp. unfold setf. rewrite (proj2 (Z.eqb_neq p 0)) by done. eexists. split; reflexivity. Qed.
Lemma step_setfn p f v (s : S) h :
  p ≠ 0 → ∃ h', run w (setfn p f v) s h = (Done (), s, h') ∧ ∀ q, reg init q h' = reg init q h.
Proof. intros Hp. unfold setfn. rewrite (proj2 (Z.eqb_neq p 0)) by done. eexists. split; reflexivity. Qed.
End Stepping.

(** [nonnull] proves that a pointer is not NULL. *)
Ltac nonnull := simpl; try assumption; try lia; try congruence.
Ltac reg_step w init Hw :=
  let h' := fresh "h" in let H := fresh "Hreg" in
  rewrite ?run_bind;
  lazymatch goal with
  | |- context [run w (call ?c) ?s ?h] =>
      destruct (step_call w init c s h ltac:(done)) as (h' & -> & H)
  | |- context [run w (calld ?c) ?s ?h] =>
      destruct (step_calld w init c s h ltac:(done)) as (h' & -> & H)
  | |- context [run w (call_ ?c) ?s ?h] =>
      destruct (step_call_ w init c s h ltac:(done)) as (h' & -> & H)
  | |- context [run w (writel ?p ?v) ?s ?h] =>
      destruct (step_writel w init p v s h ltac:(nonnull)) as (h' & -> & H)
  | |- context [run w (readl ?p) ?s ?h] =>
      destruct (step_readl w init Hw p s h ltac:(nonnull)) as (h' & -> & H)
  | |- context [run w (set_bits ?p ?m) ?s ?h] =>
      destruct (step_set_bits w init Hw p m s h ltac:(nonnull)) as (h' & -> & H)
  | |- context [run w (clear_bits ?p ?m) ?s ?h] =>
      destruct (step_clear_bits w init Hw p m s h ltac:(nonnull)) as (h' & -> & H)
  | |- context [run w (writef ?b ?o ?v) ?s ?h] =>
      destruct (step_writef w init b o v s h ltac:(nonnull)) as (h' & -> & H)
  | |- context [run w (readf ?b ?o) ?s ?h] =>
      destruct (step_readf w init Hw b o s h ltac:(nonnull)) as (h' & -> & H)
  | |- context [run w (deref ?p) ?s ?h] =>
      destruct (step_deref w init p s h ltac:(nonnull)) as (h' & -> & H)
  | |- context [run w (setf ?p ?f ?v) ?s ?h] =>
      destruct (step_setf w init p f v s h ltac:(nonnull)) as (h' & -> & H)
  | |- context [run w (setfn ?p ?f ?v) ?s ?h] =>
      destruct (step_setfn w init p f v s h ltac:(nonnull)) as (h' & -> & H)
  | |- context [run w (load ?f) ?s ?h] =>
      rewrite (run_load w f s h)
  | |- context [run w (store ?f) ?s ?h] =>
      rewrite (run_store w f s h)
  end; cbv beta iota.

(** The same for programs whose history matters: every call adds its event, with an answer that is
    not analysed. *)
Section PlainSteps.
Context {S : Type} (w : world).
Lemma plain_call c (s : S) h : ∃ a, run w (call c) s h = (Done (rv a), s, (c, a) :: h).
Proof. by eexists. Qed.
Lemma plain_calld c (s : S) h : ∃ a, run w (calld c) s h = (Done a, s, (c, a) :: h).
Proof. by eexists. Qed.
Lemma plain_call_ c (s : S) h : ∃ a, run w (call_ c) s h = (Done (), s, (c, a) :: h).
Proof. by eexists. Qed.
End PlainSteps.
Ltac plain_step w :=
  let a := fresh "a" in
  rewrite ?run_bind;
  lazymatch goal with
  | |- context [run w (call ?c) ?s ?h] => destruct (plain_call w c s h) as [a ->]
  | |- context [run w (calld ?c) ?s ?h] => destruct (plain_calld w c s h) as [a ->]
  | |- context [run w (call_ ?c) ?s ?h] => destruct (plain_call_ w c s h) as [a ->]
  | |- context [run w (store ?f) ?s ?h] => rewrite (run_store w f s h)
  | |- context [run w (load ?f) ?s ?h] => rewrite (run_load w f s h)
  end; cbv beta iota.

(** Rewriting a register of a later history to the history before. *)
Ltac reg_chain :=
  repeat match goal with
         | H : ∀ q, reg _ q ?h = @?f q |- context [reg _ _ ?h] => rewrite !H
         end.

(** ** Mapped register windows

    [ioremap] of the windows [wins] (physical address and size) succeeds and gives disjoint virtual
    ranges that do not contain NULL. *)
Definition io_maps (w : world) (virt : Z → Z) (wins : list (Z * Z)) : Prop :=
  (∀ h p n, (p, n) ∈ wins → rv (w h (Ioremap p n)) = virt p)
  ∧ (∀ p n, (p, n) ∈ wins → 0 < virt p)
  ∧ (∀ p n q m, (p, n) ∈ wins → (q, m) ∈ wins → p ≠ q → virt p + n <= virt q ∨ virt q + m <= virt p).

(** A bit field of a register. *)
Definition field (v lo n : Z) : Z := (v >>> lo) &&& Z.ones n.

(** A world whose registers hold their writes and start at [init], whose pin levels come from
    [pins], whose pointer-valued calls answer distinct addresses and whose other calls succeed: the
    concrete environment of the witnesses. *)
Definition demo_world (init pins : Z → Z) (user : list Z) : world := λ h c,
  match c with
  | Readl p => Ans (default (init p) (last_write p h)) []
  | Gpio_getpin pin => Ans (pins pin) []
  | Copy_from_user _ => Ans 0 user
  | Register_chrdev _ _ _ | Register_blkdev _ _ | Alloc_chrdev_region _ _ _ => Ans 252 []
  | Class_create _ | Class_device_create _ _ _ _ | Ioremap _ _ | Kzalloc _
  | Dma_alloc_writecombine _ | Input_allocate_device | Clk_get _ | Framebuffer_alloc
  | Alloc_disk _ | Blk_init_queue _ _ | Usb_buffer_alloc _ _ | Usb_alloc_urb
  | Usb_rcvintpipe _ _ | Do_map_probe _ _ | Alloc_netdev _ _ =>
      Ans (3221225472 + 4096 * Z.of_nat (length h)) [805306368]
  | I2c_transfer _ msgs => Ans (Z.of_nat (length msgs)) user
  | _ => Ans 0 []
  end.

Lemma demo_world_holds_writes init pins user : holds_writes (demo_world init pins user) init.
Proof. done. Qed.

(** The same with [ioremap] at a fixed distance from the physical address. *)
Definition mapped_world (init pins : Z → Z) (user : list Z) : world := λ h c,
  match c with
  | Ioremap p _ => Ans (p + 0xa0000000) []
  | _ => demo_world init pins user h c
  end.

Lemma mapped_world_holds_writes init pins user : holds_writes (mapped_world init pins user) init.
Proof. done. Qed.

(** Physical windows that do not overlap. *)
Definition disjoint_windows (wins : list (Z * Z)) : bool :=
  forallb (λ x, (0 <=? x.1) && forallb (λ y,
    (x.1 =? y.1) || (x.1 + x.2 <=? y.1) || (y.1 + y.2 <=? x.1)) wins) wins.

Lemma mapped_world_io_maps init pins user wins :
  disjoint_windows wins = true →
  io_maps (mapped_world init pins user) (λ p, p + 0xa0000000) wins.
Proof.
  intros Hd. unfold disjoint_windows in Hd. rewrite forallb_forall in Hd.
  split_and!; [done| |].
  - intros p n Hin%list_elem_of_In. specialize (Hd _ Hin). simpl in Hd.
    apply andb_true_iff in Hd as [Hd _]. lia.
  - intros p n q m Hp%list_elem_of_In Hq%list_elem_of_In Hne. specialize (Hd _ Hp).
    apply andb_true_iff in Hd as [_ Hd]. rewrite forallb_forall in Hd. specialize (Hd _ Hq).
    simpl in Hd. lia.
Qed.
