(* ===== verification/Leds.v ===== *)
(** * Leds: the LED drivers

    [FirstDrv] is first_drv/first_drv.c, a character device that drives the four LEDs on GPB5..8.
    [LedPlatform] is 9th_bus_drv_dev: led_dev.c describes one LED as platform resources, led_drv.c
    drives whatever pin the resources name. *)

From S2P Require Import Prelude Kernel.

(** [copy_from_user(&x, buf, count)] into a local object of [n] bytes: [old] is what the object held
    before (it is not initialised), a longer copy overruns the stack. *)
Definition overlay (count : Z) (old : list Z) (r : ans) : list Z :=
  let bs := take (Z.to_nat (count - rv r)) (dat r) in bs ++ drop (length bs) old.
Definition copy_into {S} (n count : Z) (old : list Z) : prog S (list Z) :=
  if n <? count then Oops
  else r ← calld (Copy_from_user count); mret (overlay count old r).

(** The little endian [int] of four bytes. *)
Definition le_int (bs : list Z) : Z :=
  s32 (foldr (λ b acc, u8 b + 256 * acc) 0 bs).

Module FirstDrv.
Record st := St { gpbcon : Z; gpbdat : Z; major : Z; cls : Z; cls_dev : Z }.
Definition st0 : st := St 0 0 0 0 0.

Definition first_drv_open : prog st Z :=
  con ← load gpbcon;
  clear_bits con (0x3 <<< (5*2) ||| 0x3 <<< (6*2) ||| 0x3 <<< (7*2) ||| 0x3 <<< (8*2));;
  set_bits con (0x1 <<< (5*2) ||| 0x1 <<< (6*2) ||| 0x1 <<< (7*2) ||| 0x1 <<< (8*2));;
  mret 0.

Definition first_drv_write (junk : list Z) (count : Z) : prog st Z :=
  bs ← copy_into 4 count junk;
  let val := le_int bs in
  d ← load gpbdat;
  (if val =? 1
   then clear_bits d (1 <<< 5 ||| 1 <<< 6 ||| 1 <<< 7 ||| 1 <<< 8)
   else set_bits d (1 <<< 5 ||| 1 <<< 6 ||| 1 <<< 7 ||| 1 <<< 8));;
  mret 0.

Definition first_drv_init : prog st Z :=
  m ← call (Register_chrdev 0 "first_drv" "first_drv_fops");
  store (λ s, St (gpbcon s) (gpbdat s) m (cls s) (cls_dev s));;
  c ← call (Class_create "firstdrv");
  store (λ s, St (gpbcon s) (gpbdat s) (major s) c (cls_dev s));;
  d ← call (Class_device_create c m 0 "xxx");
  store (λ s, St (gpbcon s) (gpbdat s) (major s) (cls s) d);;
  con ← call (Ioremap 0x56000010 4);
  store (λ s, St con (con + 4) (major s) (cls s) (cls_dev s));;
  mret 0.

Definition first_drv_exit : prog st unit :=
  s ← load id;
  call_ (Unregister_chrdev (major s) "first_drv");;
  call_ (Class_device_unregister (cls_dev s));;
  call_ (Class_destroy (cls s));;
  call_ (Iounmap (gpbcon s)).
End FirstDrv.

Module LedPlatform.
Definition IORESOURCE_MEM := 0x200.
Definition IORESOURCE_IRQ := 0x400.

Record resource := Resource { r_start : Z; r_end : Z; r_flags : Z }.

(** led_dev.c *)
Definition led_resource : list resource :=
  [Resource 0x56000010 (0x56000010 + 4) IORESOURCE_MEM; Resource 8 8 IORESOURCE_IRQ].

Definition led_dev_init : prog unit Z :=
  call_ (Platform_device_register "myled");; mret 0.
Definition led_dev_exit : prog unit unit :=
  call_ (Platform_device_unregister "myled").

(** led_drv.c *)
Record st := St { major : Z; gpio_con : Z; gpio_dat : Z; pin : Z; led_class : Z; led_class_device : Z }.
Definition st0 : st := St 0 0 0 0 0 0.

Definition led_open : prog st Z :=
  s ← load id;
  clear_bits (gpio_con s) (0x3 <<< (pin s * 2));;
  set_bits (gpio_con s) (0x1 <<< (pin s * 2));;
  mret 0.

Definition led_write (junk : list Z) (count : Z) : prog st Z :=
  bs ← copy_into 4 count junk;
  let val := le_int bs in
  s ← load id;
  (if val =? 1 then clear_bits (gpio_dat s) (1 <<< pin s)
   else set_bits (gpio_dat s) (1 <<< pin s));;
  mret 0.

(** [platform_get_resource] answers a pointer to the resource; NULL is dereferenced. *)
Definition get_resource (dev type num : Z) : prog st (Z * Z) :=
  r ← calld (Platform_get_resource dev type num);
  deref (rv r);;
  mret (nth 0 (dat r) 0, nth 1 (dat r) 0).

Definition led_probe (dev : Z) : prog st Z :=
  call_ (Printk "led_probe is being called\n" []);;
  mem ← get_resource dev IORESOURCE_MEM 0;
  con ← call (Ioremap (fst mem) (snd mem - fst mem));
  store (λ s, St (major s) con (con + 4) (pin s) (led_class s) (led_class_device s));;
  irq ← get_resource dev IORESOURCE_IRQ 0;
  store (λ s, St (major s) (gpio_con s) (gpio_dat s) (fst irq) (led_class s) (led_class_device s));;
  m ← call (Register_chrdev 0 "myled" "led_fops");
  store (λ s, St m (gpio_con s) (gpio_dat s) (pin s) (led_class s) (led_class_device s));;
  c ← call (Class_create "myled");
  store (λ s, St (major s) (gpio_con s) (gpio_dat s) (pin s) c (led_class_device s));;
  d ← call (Class_device_create c m 0 "led");
  store (λ s, St (major s) (gpio_con s) (gpio_dat s) (pin s) (led_class s) d);;
  mret 0.

Definition led_remove : prog st Z :=
  call_ (Printk "led_remove is being called\n" []);;
  s ← load id;
  call_ (Class_device_destroy (led_class s) (major s) 0);;
  call_ (Class_destroy (led_class s));;
  call_ (Unregister_chrdev (major s) "myled");;
  call_ (Iounmap (gpio_con s));;
  mret 0.

Definition led_drv_init : prog st Z :=
  call_ (Platform_driver_register "myled");; mret 0.
Definition led_drv_exit : prog st unit :=
  call_ (Platform_driver_unregister "myled").
End LedPlatform.

(** ** GPIO pin functions

    [GPxCON] holds two bits per pin: 00 is input, 01 is output. *)
Definition pin_mode (v k : Z) : Z := (v >>> (2 * k)) &&& 3.

Lemma pin_mode_bits v k :
  0 <= k → pin_mode v k = Z.b2z (Z.testbit v (2 * k)) + 2 * Z.b2z (Z.testbit v (2 * k + 1)).
Proof.
  intros Hk. unfold pin_mode.
  assert (∀ a, a &&& 3 = Z.b2z (Z.testbit a 0) + 2 * Z.b2z (Z.testbit a 1)) as H.
  { intros a. change 3 with (Z.ones 2). rewrite Z.land_ones by lia.
    rewrite (Z.testbit_spec' a 0), (Z.testbit_spec' a 1) by lia.
    change (2 ^ 0) with 1. change (2 ^ 1) with 2. change (2 ^ 2) with 4. rewrite Z.div_1_r.
    Z.div_mod_to_equations. lia. }
  rewrite H, !Z.shiftr_spec by lia. do 3 f_equal; f_equal; lia.
Qed.

(** Setting the function of pin [p] to output: clear its field, then set its low bit. *)
Definition as_output (r p : Z) : Z :=
  r &&& u32 (~~~ (0x3 <<< (p * 2))) ||| u32 (0x1 <<< (p * 2)).

Lemma testbit_as_output r p i :
  0 <= p < 16 → 0 <= i < 32 →
  Z.testbit (as_output r p) i =
    if (2 * p <=? i) && (i <? 2 * p + 2) then i =? 2 * p else Z.testbit r i.
Proof.
  intros Hp Hi. unfold as_output. change 0x3 with (Z.ones 2). change 0x1 with (Z.ones 1).
  autorewrite with bits.
  zcases; simpl; rewrite ?andb_true_r, ?andb_false_r, ?orb_false_r; done.
Qed.

Lemma as_output_range r p : 0 <= r < 2 ^ 32 → 0 <= as_output r p < 2 ^ 32.
Proof. intros. apply lor_range; [lia|by apply land_range|apply u32_range]. Qed.

Lemma pin_mode_as_output r p k :
  0 <= p < 16 → 0 <= k < 16 → pin_mode (as_output r p) k = if k =? p then 1 else pin_mode r k.
Proof.
  intros Hp Hk. rewrite !pin_mode_bits, !testbit_as_output by lia. zcases; simpl; lia.
Qed.

(** The masks of first_drv.c are those of the four pins together. *)
Lemma first_drv_masks r :
  0 <= r < 2 ^ 32 →
  r &&& u32 (~~~ (0x3 <<< (5*2) ||| 0x3 <<< (6*2) ||| 0x3 <<< (7*2) ||| 0x3 <<< (8*2)))
    ||| u32 (0x1 <<< (5*2) ||| 0x1 <<< (6*2) ||| 0x1 <<< (7*2) ||| 0x1 <<< (8*2))
  = as_output (as_output (as_output (as_output r 5) 6) 7) 8.
Proof.
  intros Hr. apply bits32_eq.
  - apply lor_range; [lia|by apply land_range|apply u32_range].
  - by do 4 apply as_output_range.
  - intros i Hi. change 0x3 with (Z.ones 2). change 0x1 with (Z.ones 1).
    rewrite !testbit_as_output by lia. autorewrite with bits.
    zcases; simpl; rewrite ?andb_true_r, ?andb_false_r, ?orb_false_r; done.
Qed.

(** ** Opening and writing *)

Lemma run_copy_into {S} w n count old (s : S) h :
  count <= n →
  run w (copy_into n count old) s h =
    (Done (overlay count old (w h (Copy_from_user count))), s,
     (Copy_from_user count, w h (Copy_from_user count)) :: h).
Proof. intros. unfold copy_into. by destruct (Z.ltb_spec n count); [lia|]. Qed.

(** Clearing or setting the bits of a mask. *)
Lemma testbit_clear_mask r m i :
  0 <= i < 32 → Z.testbit (r &&& u32 (~~~ m)) i = Z.testbit r i && negb (Z.testbit m i).
Proof. intros. by autorewrite with bits. Qed.
Lemma testbit_set_mask r m i :
  0 <= i < 32 → Z.testbit (r ||| u32 m) i = Z.testbit r i || Z.testbit m i.
Proof. intros. by autorewrite with bits. Qed.

Lemma testbit_led_mask i :
  0 <= i < 32 →
  Z.testbit (1 <<< 5 ||| 1 <<< 6 ||| 1 <<< 7 ||| 1 <<< 8) i = (5 <=? i) && (i <=? 8).
Proof. intros. change 1 with (Z.ones 1). autorewrite with bits. zcases; done. Qed.

Section Leds.
Context (w : world) (init : Z → Z) (Hw : holds_writes w init).

(** The run of first_drv_open: register GPBCON gets the four pins as outputs, one at a time. *)
Lemma run_first_drv_open s h :
  FirstDrv.gpbcon s ≠ 0 →
  ∃ h', run w FirstDrv.first_drv_open s h = (Done 0, s, h')
    ∧ reg init (FirstDrv.gpbcon s) h'
      = as_output (as_output (as_output (as_output (reg init (FirstDrv.gpbcon s) h) 5) 6) 7) 8
    ∧ ∀ q, q ≠ FirstDrv.gpbcon s → reg init q h' = reg init q h.
Proof.
  intros Hp. unfold FirstDrv.first_drv_open. rewrite run_bind. simpl (run w (load _) s h).
  cbv iota beta. rewrite run_bind.
  edestruct (run_clear_bits (S:=FirstDrv.st) w init Hw) as (h1 & -> & Hr1 & Hq1); [done|].
  rewrite run_bind.
  edestruct (run_set_bits (S:=FirstDrv.st) w init Hw) as (h2 & -> & Hr2 & Hq2); [done|].
  eexists. split; [reflexivity|]. split.
  - rewrite Hr2, Hr1. apply first_drv_masks, reg_range.
  - intros q Hq. by rewrite Hq2, Hq1.
Qed.

Lemma run_led_open s h :
  LedPlatform.gpio_con s ≠ 0 →
  ∃ h', run w LedPlatform.led_open s h = (Done 0, s, h')
    ∧ reg init (LedPlatform.gpio_con s) h'
      = as_output (reg init (LedPlatform.gpio_con s) h) (LedPlatform.pin s)
    ∧ ∀ q, q ≠ LedPlatform.gpio_con s → reg init q h' = reg init q h.
Proof.
  intros Hp. unfold LedPlatform.led_open. rewrite run_bind. simpl (run w (load _) s h).
  cbv iota beta. rewrite run_bind. unfold id.
  edestruct (run_clear_bits (S:=LedPlatform.st) w init Hw) as (h1 & -> & Hr1 & Hq1); [done|].
  rewrite run_bind.
  edestruct (run_set_bits (S:=LedPlatform.st) w init Hw) as (h2 & -> & Hr2 & Hq2); [done|].
  eexists. split; [reflexivity|]. split.
  - by rewrite Hr2, Hr1.
  - intros q Hq. by rewrite Hq2, Hq1.
Qed.
End Leds.

(** Opening first_drv makes GPB5..8 outputs and leaves the function of every other pin, and
    every other register, as it was. *)
Theorem first_drv_open_outputs w init s h :
  holds_writes w init → FirstDrv.gpbcon s ≠ 0 →
  ∃ h', run w FirstDrv.first_drv_open s h = (Done 0, s, h')
    ∧ (∀ k, 0 <= k < 16 →
         pin_mode (reg init (FirstDrv.gpbcon s) h') k =
           if (5 <=? k) && (k <=? 8) then 1 else pin_mode (reg init (FirstDrv.gpbcon s) h) k)
    ∧ (∀ q, q ≠ FirstDrv.gpbcon s → reg init q h' = reg init q h).
Proof.
  intros Hw Hp. destruct (run_first_drv_open w init Hw s h Hp) as (h' & Hr & Hv & Hq).
  exists h'. split; [done|]. split; [|done].
  intros k Hk. rewrite Hv, !pin_mode_as_output by lia. zcases; done.
Qed.

Lemma first_drv_open_outputs_witness :
  let w := demo_world (λ _, 0x2a955) (λ _, 0) [] in
  let s := FirstDrv.St 0xf0000010 0xf0000014 252 1 2 in
  ∃ h', run w FirstDrv.first_drv_open s [] = (Done 0, s, h')
    ∧ (∀ k, 0 <= k < 16 →
         pin_mode (reg (λ _, 0x2a955) 0xf0000010 h') k =
           if (5 <=? k) && (k <=? 8) then 1 else pin_mode (reg (λ _, 0x2a955) 0xf0000010 []) k)
    ∧ (∀ q, q ≠ 0xf0000010 → reg (λ _, 0x2a955) q h' = reg (λ _, 0x2a955) q []).
Proof. apply (first_drv_open_outputs _ (λ _, 0x2a955) (FirstDrv.St 0xf0000010 0xf0000014 252 1 2)); done. Defined.

(** A write of at most four bytes to first_drv drives the four LEDs together: the value is
    the user's bytes laid over the uninitialised local [val] (so the local's garbage decides when
    the copy fails); 1 clears GPB5..8 (lit), anything else sets them; no other bit and no other
    register changes; the call answers 0 whatever was written. *)
Theorem first_drv_write_leds w init junk count s h :
  holds_writes w init → FirstDrv.gpbdat s ≠ 0 → count <= 4 →
  ∃ h', run w (FirstDrv.first_drv_write junk count) s h = (Done 0, s, h')
    ∧ let lit := le_int (overlay count junk (w h (Copy_from_user count))) =? 1 in
      (∀ i, 0 <= i < 32 →
         Z.testbit (reg init (FirstDrv.gpbdat s) h') i =
           if (5 <=? i) && (i <=? 8) then negb lit
           else Z.testbit (reg init (FirstDrv.gpbdat s) h) i)
      ∧ (∀ q, q ≠ FirstDrv.gpbdat s → reg init q h' = reg init q h).
Proof.
  intros Hw Hp Hc. unfold FirstDrv.first_drv_write. rewrite run_bind, run_copy_into by done.
  set (h1 := (Copy_from_user count, _) :: h).
  rewrite run_bind. simpl (run w (load _) s h1). cbv iota beta. rewrite run_bind.
  destruct (le_int _ =? 1).
  - edestruct (run_clear_bits (S:=FirstDrv.st) w init Hw) as (h2 & -> & Hr & Hq); [done|].
    exists h2. split; [done|]. split; [|intros q Hne; by rewrite Hq].
    intros i Hi. rewrite Hr, testbit_clear_mask, testbit_led_mask by done.
    change (reg init (FirstDrv.gpbdat s) h1) with (reg init (FirstDrv.gpbdat s) h).
    destruct ((5 <=? i) && (i <=? 8)); simpl; by rewrite ?andb_false_r, ?andb_true_r.
  - edestruct (run_set_bits (S:=FirstDrv.st) w init Hw) as (h2 & -> & Hr & Hq); [done|].
    exists h2. split; [done|]. split; [|intros q Hne; by rewrite Hq].
    intros i Hi. rewrite Hr, testbit_set_mask, testbit_led_mask by done.
    change (reg init (FirstDrv.gpbdat s) h1) with (reg init (FirstDrv.gpbdat s) h).
    destruct ((5 <=? i) && (i <=? 8)); simpl; by rewrite ?orb_false_r, ?orb_true_r.
Qed.

Lemma first_drv_write_leds_witness :
  let w := demo_world (λ _, 0xffff) (λ _, 0) [1; 0; 0; 0] in
  let s := FirstDrv.St 0xf0000010 0xf0000014 252 1 2 in
  ∃ h', run w (FirstDrv.first_drv_write [0; 0; 0; 0] 4) s [] = (Done 0, s, h')
    ∧ let lit := le_int (overlay 4 [0; 0; 0; 0] (w [] (Copy_from_user 4))) =? 1 in
      (∀ i, 0 <= i < 32 →
         Z.testbit (reg (λ _, 0xffff) 0xf0000014 h') i =
           if (5 <=? i) && (i <=? 8) then negb lit else Z.testbit (reg (λ _, 0xffff) 0xf0000014 []) i)
      ∧ (∀ q, q ≠ 0xf0000014 → reg (λ _, 0xffff) q h' = reg (λ _, 0xffff) q []).
Proof.
  apply (first_drv_write_leds _ (λ _, 0xffff) [0; 0; 0; 0] 4 (FirstDrv.St 0xf0000010 0xf0000014 252 1 2) []); done.
Defined.

(** Opening through the platform driver, once per pin. *)
Fixpoint led_open_pins (w : world) (con : Z) (pins : list Z) (h : trace) : option trace :=
  match pins with
  | [] => Some h
  | k :: pins =>
      match run w LedPlatform.led_open (LedPlatform.St 0 con (con + 4) k 0 0) h with
      | (Done 0, _, h') => led_open_pins w con pins h'
      | _ => None
      end
  end.

(** What [platform_get_resource] documents: the [num]-th resource of the type. *)
Definition serves_resources (w : world) (rs : list LedPlatform.resource) : Prop :=
  ∀ h dev type num,
    match filter (λ r, LedPlatform.r_flags r = type) rs !! Z.to_nat num with
    | Some r => rv (w h (Platform_get_resource dev type num)) ≠ 0
                ∧ dat (w h (Platform_get_resource dev type num))
                  = [LedPlatform.r_start r; LedPlatform.r_end r]
    | None => rv (w h (Platform_get_resource dev type num)) = 0
    end.

Lemma run_get_resource {w rs} dev type num r s h :
  serves_resources w rs →
  filter (λ r, LedPlatform.r_flags r = type) rs !! Z.to_nat num = Some r →
  ∃ h', run w (LedPlatform.get_resource dev type num) s h =
          (Done (LedPlatform.r_start r, LedPlatform.r_end r), s, h')
        ∧ ∀ init q, reg init q h' = reg init q h.
Proof.
  intros Hw Hr. specialize (Hw h dev type num). rewrite Hr in Hw. destruct Hw as [Hp Hd].
  unfold LedPlatform.get_resource. rewrite run_bind. simpl.
  unfold deref. rewrite (proj2 (Z.eqb_neq _ 0)) by done. simpl. rewrite Hd. eauto.
Qed.

(** The bus/driver split refines the monolithic driver.  Probing against the resources of
    led_dev.c maps GPBCON and selects pin 8, and opening the platform driver for the pins 5, 6, 7
    and 8 in turn leaves GPBCON exactly as one open of first_drv does. *)
Theorem led_platform_refines_first_drv w init con dev h :
  holds_writes w init → serves_resources w LedPlatform.led_resource → con ≠ 0 →
  (∃ s h', run w (LedPlatform.led_probe dev) LedPlatform.st0 h = (Done 0, s, h')
     ∧ (∃ h0, LedPlatform.gpio_con s = rv (w h0 (Ioremap 0x56000010 4)))
     ∧ LedPlatform.gpio_dat s = LedPlatform.gpio_con s + 4 ∧ LedPlatform.pin s = 8
     ∧ ∀ q, reg init q h' = reg init q h)
  ∧ ∃ h1 h2, run w FirstDrv.first_drv_open (FirstDrv.St con (con + 4) 0 0 0) h
               = (Done 0, FirstDrv.St con (con + 4) 0 0 0, h1)
     ∧ led_open_pins w con [5; 6; 7; 8] h = Some h2
     ∧ ∀ q, reg init q h2 = reg init q h1.
Proof.
  intros Hw Hs Hcon. split.
  - unfold LedPlatform.led_probe. rewrite run_bind. simpl (run w (call_ _) _ _). cbv iota beta.
    rewrite run_bind.
    edestruct (run_get_resource (w:=w) (rs:=LedPlatform.led_resource) dev LedPlatform.IORESOURCE_MEM 0) as (h1 & -> & H1); [done|reflexivity|].
    cbv iota beta. rewrite run_bind. simpl (run w (call _) _ _). cbv iota beta.
    rewrite run_bind. simpl (run w (store _) _ _). cbv iota beta. rewrite run_bind.
    edestruct (run_get_resource (w:=w) (rs:=LedPlatform.led_resource) dev LedPlatform.IORESOURCE_IRQ 0) as (h2 & -> & H2); [done|reflexivity|].
    simpl. do 2 eexists. split; [done|]. simpl. split; [by eexists|]. split; [done|].
    split; [done|]. intros q. unfold reg in *. simpl. rewrite H2. simpl. by rewrite H1.
  - destruct (run_first_drv_open w init Hw (FirstDrv.St con (con + 4) 0 0 0) h) as (h1 & H1 & Hr1 & Hq1);
      [done|].
    exists h1. cbn [led_open_pins].
    edestruct (run_led_open w init Hw (LedPlatform.St 0 con (con + 4) 5 0 0) h) as (h5 & -> & Hr5 & Hq5); [done|]. cbv beta iota.
    edestruct (run_led_open w init Hw (LedPlatform.St 0 con (con + 4) 6 0 0) h5) as (h6 & -> & Hr6 & Hq6); [done|]. cbv beta iota.
    edestruct (run_led_open w init Hw (LedPlatform.St 0 con (con + 4) 7 0 0) h6) as (h7 & -> & Hr7 & Hq7); [done|]. cbv beta iota.
    edestruct (run_led_open w init Hw (LedPlatform.St 0 con (con + 4) 8 0 0) h7) as (h8 & -> & Hr8 & Hq8); [done|]. cbv beta iota.
    exists h8. split; [exact H1|]. split; [done|]. simpl in *. intros q. destruct (decide (q = con)) as [->|Hne].
    + by rewrite Hr8, Hr7, Hr6, Hr5, Hr1.
    + by rewrite Hq8, Hq7, Hq6, Hq5, Hq1.
Qed.

(** A bus that serves [rs], for the witness. *)
Definition bus_world (rs : list LedPlatform.resource) (w : world) : world := λ h c,
  match c with
  | Platform_get_resource dev type num =>
      match filter (λ r, LedPlatform.r_flags r = type) rs !! Z.to_nat num with
      | Some r => Ans 0xc0800000 [LedPlatform.r_start r; LedPlatform.r_end r]
      | None => Ans 0 []
      end
  | _ => w h c
  end.

Lemma bus_world_serves rs w : serves_resources (bus_world rs w) rs.
Proof. intros h dev type num. simpl. by destruct (_ !! _). Qed.

Lemma led_platform_refines_first_drv_witness :
  let w := bus_world LedPlatform.led_resource (demo_world (λ _, 0x2a955) (λ _, 0) []) in
  (∃ s h', run w (LedPlatform.led_probe 1) LedPlatform.st0 [] = (Done 0, s, h')
     ∧ (∃ h0, LedPlatform.gpio_con s = rv (w h0 (Ioremap 0x56000010 4)))
     ∧ LedPlatform.gpio_dat s = LedPlatform.gpio_con s + 4 ∧ LedPlatform.pin s = 8
     ∧ ∀ q, reg (λ _, 0x2a955) q h' = reg (λ _, 0x2a955) q [])
  ∧ ∃ h1 h2, run w FirstDrv.first_drv_open (FirstDrv.St 4096 (4096 + 4) 0 0 0) []
               = (Done 0, FirstDrv.St 4096 (4096 + 4) 0 0 0, h1)
     ∧ led_open_pins w 4096 [5; 6; 7; 8] [] = Some h2
     ∧ ∀ q, reg (λ _, 0x2a955) q h2 = reg (λ _, 0x2a955) q h1.
Proof.
  intros w. apply (led_platform_refines_first_drv w (λ _, 0x2a955) 4096 1 []).
  - done.
  - apply bus_world_serves.
  - done.
Defined.
