(* ===== verification/Keys.v ===== *)
(** * Keys: the four key drivers on GPG0, 3, 5, 6, 7 and 11

    [SecondDrv] polls the pin levels; [ThirdDrv] adds interrupts and a blocking read, [ForthDrv]
    adds [poll], [FifthDrv] replaces the waiting by [SIGIO].  The interrupt driven drivers share the
    module [KeyPins]: the static variables, the pin table and the handler and read bodies that the
    three files repeat. *)

From S2P Require Import Prelude Kernel.

Module SecondDrv.
Record st := St { gpgcon : Z; gpgdat : Z; major : Z; cls : Z; cls_dev : Z }.
Definition st0 : st := St 0 0 0 0 0.

Definition second_drv_open : prog st Z :=
  con ← load gpgcon;
  clear_bits con (0x3 <<< (0*2) ||| 0x3 <<< (3*2) ||| 0x3 <<< (5*2)
                  ||| (0x3 <<< (6*2) ||| (0x3 <<< (7*2) ||| (0x3 <<< (11*2)))));;
  mret 0.

Definition second_drv_read (size : Z) : prog st Z :=
  if negb (size =? 6) then mret (- EINVAL)
  else
    p ← load gpgdat;
    regval ← readl p;
    let key_vals :=
      [ c_bool (truthy (regval &&& (1 <<< 0))); c_bool (truthy (regval &&& (1 <<< 3)));
        c_bool (truthy (regval &&& (1 <<< 5))); c_bool (truthy (regval &&& (1 <<< 6)));
        c_bool (truthy (regval &&& (1 <<< 7))); c_bool (truthy (regval &&& (1 <<< 11))) ] in
    r ← call (Copy_to_user key_vals);
    if r =? 0 then mret 0 else mret 6.

Definition second_drv_init : prog st Z :=
  m ← call (Register_chrdev 0 "second_drv" "second_drv_fops");
  store (λ s, St (gpgcon s) (gpgdat s) m (cls s) (cls_dev s));;
  c ← call (Class_create "second_drv");
  store (λ s, St (gpgcon s) (gpgdat s) (major s) c (cls_dev s));;
  d ← call (Class_device_create c m 0 "buttons");
  store (λ s, St (gpgcon s) (gpgdat s) (major s) (cls s) d);;
  con ← call (Ioremap 0x56000060 16);
  store (λ s, St con (con + 4) (major s) (cls s) (cls_dev s));;
  mret 0.

Definition second_drv_exit : prog st unit :=
  s ← load id;
  call_ (Unregister_chrdev (major s) "second_drv");;
  call_ (Class_device_unregister (cls_dev s));;
  call_ (Class_destroy (cls s));;
  call_ (Iounmap (gpgcon s)).
End SecondDrv.

Module KeyPins.
(** [S3C2410_GPGn] and [IRQ_EINTn] of the kernel headers. *)
Definition S3C2410_GPG (n : Z) : Z := 32 * 6 + n.
Definition IRQ_EINT (n : Z) : Z := n + 44.

Record pin_desc := PinDesc { pin : Z; desc_key : Z }.

Definition pindesc : list pin_desc :=
  [PinDesc (S3C2410_GPG 0) 0x01; PinDesc (S3C2410_GPG 3) 0x02; PinDesc (S3C2410_GPG 5) 0x03;
   PinDesc (S3C2410_GPG 6) 0x04; PinDesc (S3C2410_GPG 7) 0x05; PinDesc (S3C2410_GPG 11) 0x06].

Record st := St { ev_press : Z; key_val : Z; major : Z; cls : Z; cls_dev : Z }.
Definition st0 : st := St 0 0 0 0 0.
Definition set_ev_press (v : Z) (s : st) : st := St v (key_val s) (major s) (cls s) (cls_dev s).
Definition set_key_val (v : Z) (s : st) : st := St (ev_press s) v (major s) (cls s) (cls_dev s).
Definition set_device (m c d : Z) (s : st) : st := St (ev_press s) (key_val s) m c d.

(** The first half of the three handlers: sample the pin of [dev_id = &pindesc[i]] and set
    [key_val], an [unsigned char]. *)
Definition sample_key (i : nat) : prog st unit :=
  match pindesc !! i with
  | None => Oops
  | Some pd =>
      pinVal ← call (Gpio_getpin (pin pd));
      if truthy pinVal then store (set_key_val (u8 (0x80 ||| desc_key pd)))
      else store (set_key_val (u8 (desc_key pd)))
  end.

Definition request_irqs (handler : string) : prog st unit :=
  call_ (Request_irq (IRQ_EINT 8) handler "IRQT_BOTHEDGE" "k1" 0);;
  call_ (Request_irq (IRQ_EINT 11) handler "IRQT_BOTHEDGE" "k2" 1);;
  call_ (Request_irq (IRQ_EINT 13) handler "IRQT_BOTHEDGE" "k3" 2);;
  call_ (Request_irq (IRQ_EINT 14) handler "IRQT_BOTHEDGE" "k4" 3);;
  call_ (Request_irq (IRQ_EINT 15) handler "IRQT_BOTHEDGE" "k5" 4);;
  call_ (Request_irq (IRQ_EINT 19) handler "IRQT_BOTHEDGE" "k6" 5).

Definition free_irqs : prog st unit :=
  call_ (Free_irq (IRQ_EINT 8) 0);;
  call_ (Free_irq (IRQ_EINT 11) 1);;
  call_ (Free_irq (IRQ_EINT 13) 2);;
  call_ (Free_irq (IRQ_EINT 14) 3);;
  call_ (Free_irq (IRQ_EINT 15) 4);;
  call_ (Free_irq (IRQ_EINT 19) 5).

Definition init_device (name : string) : prog st Z :=
  m ← call (Register_chrdev 0 name (name +:+ "_fops"));
  store (λ s, set_device m (cls s) (cls_dev s) s);;
  c ← call (Class_create name);
  store (λ s, set_device (major s) c (cls_dev s) s);;
  d ← call (Class_device_create c m 0 "buttons");
  store (λ s, set_device (major s) (cls s) d s);;
  mret 0.

Definition exit_device (name : string) : prog st unit :=
  s ← load id;
  call_ (Unregister_chrdev (major s) name);;
  call_ (Class_device_unregister (cls_dev s));;
  call_ (Class_destroy (cls s)).

(** [mask |= POLLIN | POLLRDNORM] *)
Definition POLLIN := 0x0001.
Definition POLLRDNORM := 0x0040.
End KeyPins.

Module ThirdDrv.
Import KeyPins.

Definition third_irq_handle (i : nat) : prog st Z :=
  sample_key i;;
  store (set_ev_press 1);;
  call_ (Wake_up_interruptible "third_waitqueue");;
  mret 1.

Definition third_drv_open : prog st Z := request_irqs "third_irq_handle";; mret 0.

Definition third_drv_read (size : Z) : prog st Z :=
  if negb (size =? 1) then mret (- EINVAL)
  else
    wait_event_interruptible (λ s, truthy (ev_press s));;
    r ← call_at (λ s, Copy_to_user [key_val s]);
    if truthy r then mret (- EINVAL)
    else store (set_ev_press 0);; mret 1.

Definition third_drv_release : prog st Z := free_irqs;; mret 0.
Definition third_drv_init : prog st Z := init_device "third_drv".
Definition third_drv_exit : prog st unit := exit_device "third_drv".
End ThirdDrv.

Module ForthDrv.
Import KeyPins.

Definition forth_irq_handle (i : nat) : prog st Z :=
  sample_key i;;
  store (set_ev_press 1);;
  call_ (Wake_up_interruptible "forth_waitqueue");;
  mret 1.

Definition forth_drv_open : prog st Z := request_irqs "forth_irq_handle";; mret 0.

Definition forth_drv_read (size : Z) : prog st Z :=
  if negb (size =? 1) then mret (- EINVAL)
  else
    wait_event_interruptible (λ s, truthy (ev_press s));;
    r ← call_at (λ s, Copy_to_user [key_val s]);
    if truthy r then mret (- EINVAL)
    else store (set_ev_press 0);; mret 1.

Definition forth_drv_release : prog st Z := free_irqs;; mret 0.

Definition forth_drv_poll : prog st Z :=
  call_ (Printk "driver poll is being call\n" []);;
  call_ (Poll_wait "forth_waitqueue");;
  ev ← load ev_press;
  if truthy ev then mret (0 ||| (POLLIN ||| POLLRDNORM)) else mret 0.

Definition forth_drv_init : prog st Z := init_device "forth_drv".
Definition forth_drv_exit : prog st unit := exit_device "forth_drv".
End ForthDrv.

Module FifthDrv.
Import KeyPins.

Definition fifth_irq_handle (i : nat) : prog st Z :=
  sample_key i;;
  call_ (Kill_fasync "fifth_async_queue" "SIGIO");;
  mret 1.

Definition fifth_drv_open : prog st Z := request_irqs "fifth_irq_handle";; mret 0.

Definition fifth_drv_read (size : Z) : prog st Z :=
  if negb (size =? 1) then mret (- EINVAL)
  else
    r ← call_at (λ s, Copy_to_user [key_val s]);
    if truthy r then mret (- EINVAL) else mret 1.

Definition fifth_drv_release : prog st Z :=
  call_ (Printk "driver release being called\n" []);; free_irqs;; mret 0.

Definition fifth_drv_poll : prog st Z :=
  call_ (Printk "driver poll is being call\n" []);;
  call_ (Poll_wait "fifth_waitqueue");;
  ev ← load ev_press;
  if truthy ev then mret (0 ||| (POLLIN ||| POLLRDNORM)) else mret 0.

Definition fifth_drv_fasync (fd on : Z) : prog st Z :=
  call_ (Printk "driver fasync is being called\n" []);;
  r ← call (Fasync_helper fd on "fifth_async_queue");
  if 0 <=? r then mret 0 else mret (- EIO).

Definition fifth_drv_init : prog st Z := init_device "fifth_drv".
Definition fifth_drv_exit : prog st unit := exit_device "fifth_drv".
End FifthDrv.

(** ** The polled driver *)

(** The six pins in the order of the answer. *)
Definition key_pins : list Z := [0; 3; 5; 6; 7; 11].

(** second_drv_read answers -EINVAL for a size other than 6.  For size 6 it samples GPGDAT
    once and hands out the levels of the six pins in order; its return value is inverted: 0 when
    all six bytes reached the user, 6 when some did not. *)
Theorem second_drv_read_levels w size s h :
  SecondDrv.gpgdat s ≠ 0 →
  let v := u32 (rv (w h (Readl (SecondDrv.gpgdat s)))) in
  let h1 := (Readl (SecondDrv.gpgdat s), w h (Readl (SecondDrv.gpgdat s))) :: h in
  let levels := (λ k, c_bool (Z.testbit v k)) <$> key_pins in
  let copied := w h1 (Copy_to_user levels) in
  run w (SecondDrv.second_drv_read size) s h =
    if size =? 6
    then (Done (if rv copied =? 0 then 0 else 6), s, (Copy_to_user levels, copied) :: h1)
    else (Done (- EINVAL), s, h).
Proof.
  intros Hp v h1 levels copied. unfold SecondDrv.second_drv_read.
  destruct (size =? 6); simpl; [|done].
  unfold readl. rewrite (proj2 (Z.eqb_neq _ 0)) by done. simpl.
  rewrite !truthy_land_bit by lia. fold v.
  change (Copy_to_user _) with (Copy_to_user levels). fold h1 copied.
  by destruct (rv copied =? 0).
Qed.

Lemma second_drv_read_levels_witness :
  let w := demo_world (λ _, 0xfffff796) (λ _, 0) [] in
  run w (SecondDrv.second_drv_read 6) (SecondDrv.St 4096 4100 0 0 0) [] =
    (Done 0, SecondDrv.St 4096 4100 0 0 0,
     [(Copy_to_user [0; 0; 0; 0; 1; 0], Ans 0 []); (Readl 4100, Ans 0xfffff796 [])]).
Proof.
  intros w. pose proof (second_drv_read_levels w 6 (SecondDrv.St 4096 4100 0 0 0) []) as H.
  apply H. simpl. lia.
Defined.

(** ** The interrupt driven drivers under every interleaving *)

(** What the three drivers offer to the kernel: the operations of their [file_operations] and the
    interrupt handler of each key. *)
Record key_driver := KeyDriver {
  kd_op : prog KeyPins.st Z → Prop;
  kd_irq : nat → prog KeyPins.st Z }.

Inductive third_op : prog KeyPins.st Z → Prop :=
| third_open : third_op ThirdDrv.third_drv_open
| third_read size : third_op (ThirdDrv.third_drv_read size)
| third_release : third_op ThirdDrv.third_drv_release.

Inductive forth_op : prog KeyPins.st Z → Prop :=
| forth_open : forth_op ForthDrv.forth_drv_open
| forth_read size : forth_op (ForthDrv.forth_drv_read size)
| forth_poll : forth_op ForthDrv.forth_drv_poll
| forth_release : forth_op ForthDrv.forth_drv_release.

Inductive fifth_op : prog KeyPins.st Z → Prop :=
| fifth_open : fifth_op FifthDrv.fifth_drv_open
| fifth_read size : fifth_op (FifthDrv.fifth_drv_read size)
| fifth_poll : fifth_op FifthDrv.fifth_drv_poll
| fifth_fasync fd on : fifth_op (FifthDrv.fifth_drv_fasync fd on)
| fifth_release : fifth_op FifthDrv.fifth_drv_release.

Definition third : key_driver := KeyDriver third_op ThirdDrv.third_irq_handle.
Definition forth : key_driver := KeyDriver forth_op ForthDrv.forth_irq_handle.
Definition fifth : key_driver := KeyDriver fifth_op FifthDrv.fifth_irq_handle.
Definition key_drivers : list key_driver := [third; forth; fifth].

(** One handler per entry of [pindesc]. *)
Definition key_handlers (d : key_driver) : list (prog KeyPins.st unit) :=
  (λ i, as_handler (kd_irq d i)) <$> seq 0 6.
#[local] Arguments key_handlers : simpl never.

(** The code of a pin at a level: the key number when pressed (low), with bit 7 when released. *)
Definition key_code (pin level : Z) : option Z :=
  pd ← List.find (λ pd, KeyPins.pin pd =? pin) KeyPins.pindesc;
  Some (if level =? 0 then KeyPins.desc_key pd else 0x80 + KeyPins.desc_key pd).

(** The code of the latest key event of a history. *)
Fixpoint last_key (h : trace) : option Z :=
  match h with
  | [] => None
  | (Gpio_getpin pin, r) :: _ => key_code pin (rv r)
  | _ :: h => last_key h
  end.

Definition key_codes : list Z := [1; 2; 3; 4; 5; 6; 0x81; 0x82; 0x83; 0x84; 0x85; 0x86].

Definition is_key_event (c : kcall) : bool := match c with Gpio_getpin _ => true | _ => false end.
Definition is_sigio (c : kcall) : bool := match c with Kill_fasync _ _ => true | _ => false end.

(** Every byte handed to a reader was the code of the latest key event at that moment. *)
Fixpoint deliveries_fresh (h : trace) : Prop :=
  match h with
  | [] => True
  | (Copy_to_user l, _) :: h => l = [default 0 (last_key h)] ∧ deliveries_fresh h
  | _ :: h => deliveries_fresh h
  end.

Lemma deliveries_fresh_app h1 l r h2 :
  deliveries_fresh (h1 ++ (Copy_to_user l, r) :: h2) → l = [default 0 (last_key h2)].
Proof.
  induction h1 as [|[c a] h1 IH]; simpl; [by intros [-> _]|].
  destruct c; try exact IH. intros [_ H]. by apply IH.
Qed.

(** What a run of a handler does: one key event for the entry [i] of the table. *)
Lemma run_sample_key w i s h :
  (i < 6)%nat →
  ∃ pin r k, key_code pin (rv r) = Some k ∧ k ∈ key_codes ∧
    run w (KeyPins.sample_key i) s h = (Done (), KeyPins.set_key_val k s, (Gpio_getpin pin, r) :: h).
Proof.
  intros Hi. unfold KeyPins.sample_key.
  destruct (KeyPins.pindesc !! i) as [pd|] eqn:Hpd; [|apply lookup_ge_None in Hpd; simpl in Hpd; lia].
  set (r := w h (Gpio_getpin (KeyPins.pin pd))).
  exists (KeyPins.pin pd), r, (if rv r =? 0 then KeyPins.desc_key pd else 0x80 + KeyPins.desc_key pd).
  simpl. fold r. unfold truthy, key_code.
  do 6 (destruct i as [|i]; [inversion Hpd; subst pd; destruct (rv r =? 0);
    (split; [reflexivity|split; [unfold key_codes; set_solver|reflexivity]])|]).
  lia.
Qed.

(** The invariant of the three drivers. *)
Definition key_inv (s : KeyPins.st) (h : trace) : Prop :=
  KeyPins.key_val s = default 0 (last_key h) ∧ deliveries_fresh h
  ∧ (KeyPins.key_val s = 0 ∨ KeyPins.key_val s ∈ key_codes).

Lemma key_handlers_elem d i : i ∈ key_handlers d → ∃ n, (n < 6)%nat ∧ i = as_handler (kd_irq d n).
Proof.
  unfold key_handlers. rewrite list_elem_of_fmap. intros (n & -> & Hn).
  exists n. apply elem_of_seq in Hn. split; [lia|done].
Qed.

Lemma key_handler_elem d n : (n < 6)%nat → as_handler (kd_irq d n) ∈ key_handlers d.
Proof.
  intros Hn. unfold key_handlers. apply list_elem_of_fmap. exists n.
  split; [done|]. apply elem_of_seq. lia.
Qed.

(** A handler run: one key event with its code stored, then a wake-up or a signal. *)
Definition irq_effect (tail : kcall) (ev : Z) (s : KeyPins.st) (h : trace) (s' : KeyPins.st) (h' : trace) : Prop :=
  ∃ pin r a k, key_code pin (rv r) = Some k ∧ k ∈ key_codes
    ∧ s' = KeyPins.set_ev_press ev (KeyPins.set_key_val k s)
    ∧ h' = (tail, a) :: (Gpio_getpin pin, r) :: h.

Lemma run_third_irq w n s h s' h' :
  (n < 6)%nat → run w (as_handler (ThirdDrv.third_irq_handle n)) s h = (Done (), s', h') →
  irq_effect (Wake_up_interruptible "third_waitqueue") 1 s h s' h'.
Proof.
  intros Hn. destruct (run_sample_key w n s h Hn) as (pin & r & k & Hk & Hc & Hr).
  unfold as_handler, ThirdDrv.third_irq_handle. rewrite !run_bind, Hr. simpl.
  intros ?; simplify_eq. by exists pin, r, (w ((Gpio_getpin pin, r) :: h) (Wake_up_interruptible "third_waitqueue")), k.
Qed.

Lemma run_forth_irq w n s h s' h' :
  (n < 6)%nat → run w (as_handler (ForthDrv.forth_irq_handle n)) s h = (Done (), s', h') →
  irq_effect (Wake_up_interruptible "forth_waitqueue") 1 s h s' h'.
Proof.
  intros Hn. destruct (run_sample_key w n s h Hn) as (pin & r & k & Hk & Hc & Hr).
  unfold as_handler, ForthDrv.forth_irq_handle. rewrite !run_bind, Hr. simpl.
  intros ?; simplify_eq. by exists pin, r, (w ((Gpio_getpin pin, r) :: h) (Wake_up_interruptible "forth_waitqueue")), k.
Qed.

Lemma run_fifth_irq w n s h s' h' :
  (n < 6)%nat → run w (as_handler (FifthDrv.fifth_irq_handle n)) s h = (Done (), s', h') →
  irq_effect (Kill_fasync "fifth_async_queue" "SIGIO") (KeyPins.ev_press s) s h s' h'.
Proof.
  intros Hn. destruct (run_sample_key w n s h Hn) as (pin & r & k & Hk & Hc & Hr).
  unfold as_handler, FifthDrv.fifth_irq_handle. rewrite !run_bind, Hr. simpl.
  intros ?; simplify_eq. by exists pin, r, (w ((Gpio_getpin pin, r) :: h) (Kill_fasync "fifth_async_queue" "SIGIO")), k.
Qed.

Lemma irq_effect_inv tail ev s h s' h' :
  (∀ l, tail ≠ Copy_to_user l) → (∀ p, tail ≠ Gpio_getpin p) →
  irq_effect tail ev s h s' h' → key_inv s h → key_inv s' h'.
Proof.
  intros Ht Hg (pin & r & a & k & Hk & Hc & -> & ->) (HV & HD & HC).
  assert (last_key ((tail, a) :: (Gpio_getpin pin, r) :: h) = Some k) as Hl
    by (destruct tail; try exact Hk; by destruct (Hg pin0)).
  assert (deliveries_fresh ((tail, a) :: (Gpio_getpin pin, r) :: h))
    by (destruct tail; try exact HD; by destruct (Ht bytes)).
  unfold key_inv. rewrite Hl. simpl. auto.
Qed.

Lemma key_inv_stable d : d ∈ key_drivers → stable (key_handlers d) key_inv.
Proof.
  intros Hd i w s h s' h' Hi HJ Hr.
  apply key_handlers_elem in Hi as (n & Hn & ->).
  unfold key_drivers in Hd. rewrite !elem_of_cons, elem_of_nil in Hd.
  destruct Hd as [->|[->|[->|[]]]].
  - apply run_third_irq in Hr; [|done]. by eapply irq_effect_inv in Hr.
  - apply run_forth_irq in Hr; [|done]. by eapply irq_effect_inv in Hr.
  - apply run_fifth_irq in Hr; [|done]. by eapply irq_effect_inv in Hr.
Qed.

(** The steps of the file operations keep the invariant. *)
Lemma key_inv_call c r s h :
  (∀ l, c = Copy_to_user l → l = [KeyPins.key_val s]) → (∀ p, c ≠ Gpio_getpin p) →
  key_inv s h → key_inv s ((c, r) :: h).
Proof.
  intros Hc Hg (HV & HD & HC).
  assert (last_key ((c, r) :: h) = last_key h) as Hl by (destruct c; try done; by destruct (Hg pin)).
  assert (deliveries_fresh ((c, r) :: h)).
  { destruct c; try exact HD. simpl. rewrite (Hc _ eq_refl), HV. done. }
  unfold key_inv. by rewrite Hl.
Qed.

Ltac keep_key := keeps_steps ltac:(first
  [ assumption
  | apply key_inv_call; [(intros ? [= <-]; reflexivity) || (intros ??; discriminate)|discriminate|assumption]
  | (unfold key_inv in *; simpl in *; assumption) ]).

Lemma key_ops_keep d p : d ∈ key_drivers → kd_op d p → keeps key_inv p.
Proof.
  unfold key_drivers. rewrite !elem_of_cons, elem_of_nil. intros [->|[->|[->|[]]]] Hp.
  - destruct Hp; unfold ThirdDrv.third_drv_read; keep_key.
  - destruct Hp; unfold ForthDrv.forth_drv_read; keep_key.
  - destruct Hp; unfold FifthDrv.fifth_drv_read; keep_key.
Qed.

(** [C4] Whatever file operations a process performs on one of the three drivers, and wherever the
    key interrupts fall between its steps: every byte handed out by a read is the code of the
    latest key event at that moment (0 when there was none), and the driver's key value is always
    0 or one of the twelve key codes. *)
Theorem key_reads_latest d ops signals p s h :
  d ∈ key_drivers → Forall (kd_op d) ops →
  isteps signals (key_handlers d) (session ops, KeyPins.st0, []) (p, s, h) →
  (∀ h1 l r h2, h = h1 ++ (Copy_to_user l, r) :: h2 → l = [default 0 (last_key h2)])
  ∧ (KeyPins.key_val s = 0 ∨ KeyPins.key_val s ∈ key_codes).
Proof.
  intros Hd Hops Hs.
  assert (key_inv s h) as (HV & HD & HC).
  { refine (keeps_isteps signals (key_handlers d) _ _ _ _ _ _ _ _ _ _ Hs).
    - by apply key_inv_stable.
    - apply keeps_session. eapply Forall_impl; [exact Hops|]. intros. by eapply key_ops_keep.
    - unfold key_inv. simpl. auto. }
  split; [|done]. intros h1 l r h2 ->. by apply deliveries_fresh_app in HD.
Qed.

(** A key press on K1 (pin low) and a read of the character device. *)
Definition press_world : world := demo_world (λ _, 0) (λ _, 0) [].

Lemma third_press s h :
  istep false (key_handlers third) (ThirdDrv.third_drv_read 1, s, h)
    (ThirdDrv.third_drv_read 1, KeyPins.set_ev_press 1 (KeyPins.set_key_val 1 s),
     (Wake_up_interruptible "third_waitqueue", Ans 0 []) :: (Gpio_getpin 192, Ans 0 []) :: h).
Proof.
  eapply (is_irq _ _ _ (as_handler (ThirdDrv.third_irq_handle 0)) press_world).
  - apply (key_handler_elem third 0). lia.
  - done.
Qed.

Lemma key_reads_latest_witness :
  ∃ p s h,
    (isteps false (key_handlers third)
       (session [ThirdDrv.third_drv_open; ThirdDrv.third_drv_read 1], KeyPins.st0, []) (p, s, h))
    ∧ (∀ h1 l r h2, h = h1 ++ (Copy_to_user l, r) :: h2 → l = [default 0 (last_key h2)])
    ∧ (KeyPins.key_val s = 0 ∨ KeyPins.key_val s ∈ key_codes).
Proof.
  assert (∃ s h, isteps false (key_handlers third)
            (session [ThirdDrv.third_drv_open; ThirdDrv.third_drv_read 1], KeyPins.st0, [])
            (Ret [0; 1], s, h)) as (s & h & Hs).
  { do 2 eexists. do 6 (eapply rtc_l; [apply (is_call false _ _ _ (Ans 0 []))|]; cbn).
    eapply rtc_l.
    { eapply (is_irq _ _ _ (as_handler (ThirdDrv.third_irq_handle 0)) press_world).
      - apply (key_handler_elem third 0). lia.
      - reflexivity. }
    eapply rtc_l; [by apply is_wake|]. cbn.
    eapply rtc_l; [apply (is_call false _ _ _ (Ans 0 []))|]. cbn.
    eapply rtc_l; [apply is_upd|]. cbn. apply rtc_refl. }
  exists (Ret [0; 1]), s, h. split; [done|].
  apply (key_reads_latest third [ThirdDrv.third_drv_open; ThirdDrv.third_drv_read 1] false (Ret [0; 1])).
  - unfold key_drivers. set_solver.
  - repeat constructor.
  - done.
Defined.

(** The events added since a point of the history. *)
Definition key_since (h0 h : trace) : Prop := ∃ new, h = new ++ h0 ∧ (0 < count is_key_event new)%nat.
Definition quiet_since (h0 h : trace) : Prop := ∃ new, h = new ++ h0.

Lemma quiet_since_cons h0 h e : quiet_since h0 h → quiet_since h0 (e :: h).
Proof. intros [new ->]. by exists (e :: new). Qed.

Lemma key_since_cons h0 h e : key_since h0 h → key_since h0 (e :: h).
Proof. intros (new & -> & Hn). exists (e :: new). split; [done|]. destruct e as [c r]. simpl. lia. Qed.

(** The state of a reader: no event yet, or a key event since the read began. *)
Definition reader_inv (h0 : trace) (s : KeyPins.st) (h : trace) : Prop :=
  quiet_since h0 h ∧ (KeyPins.ev_press s = 0 ∨ key_since h0 h).

Lemma irq_effect_key_since tail ev h0 s h s' h' :
  quiet_since h0 h → irq_effect tail ev s h s' h' → quiet_since h0 h' ∧ key_since h0 h'.
Proof.
  intros [new ->] (pin & r & a & k & _ & _ & -> & ->). split.
  - do 2 apply quiet_since_cons. by exists new.
  - exists ((tail, a) :: (Gpio_getpin pin, r) :: new). split; [done|]. simpl. lia.
Qed.

Lemma third_handler_effect i w s h s' h' :
  i ∈ key_handlers third → run w i s h = (Done (), s', h') →
  irq_effect (Wake_up_interruptible "third_waitqueue") 1 s h s' h'.
Proof. intros Hi Hr. apply key_handlers_elem in Hi as (n & Hn & ->). by eapply run_third_irq. Qed.

Lemma forth_handler_effect i w s h s' h' :
  i ∈ key_handlers forth → run w i s h = (Done (), s', h') →
  irq_effect (Wake_up_interruptible "forth_waitqueue") 1 s h s' h'.
Proof. intros Hi Hr. apply key_handlers_elem in Hi as (n & Hn & ->). by eapply run_forth_irq. Qed.

Lemma fifth_handler_effect i w s h s' h' :
  i ∈ key_handlers fifth → run w i s h = (Done (), s', h') →
  irq_effect (Kill_fasync "fifth_async_queue" "SIGIO") (KeyPins.ev_press s) s h s' h'.
Proof. intros Hi Hr. apply key_handlers_elem in Hi as (n & Hn & ->). by eapply run_fifth_irq. Qed.

Lemma reader_inv_stable h0 : stable (key_handlers third) (reader_inv h0).
Proof.
  intros i w s h s' h' Hi [Hq _] Hr. eapply third_handler_effect in Hr; [|done].
  eapply irq_effect_key_since in Hr as [? ?]; [|done]. split; auto.
Qed.

Lemma key_since_stable h0 : stable (key_handlers third) (λ _, key_since h0).
Proof.
  intros i w s h s' h' Hi (new & -> & Hn) Hr. eapply third_handler_effect in Hr; [|done].
  eapply (irq_effect_key_since _ _ h0) in Hr as [? ?]; [done|by exists new].
Qed.

(** The blocking read blocks.  Started with no event pending and without signals, under every
    interleaving with the key interrupts, third_drv_read returns only after a key event that came
    after its start; without interrupts it never returns. *)
Theorem third_drv_read_waits size s h r s' h' :
  size = 1 → KeyPins.ev_press s = 0 →
  isteps false (key_handlers third) (ThirdDrv.third_drv_read size, s, h) (Ret r, s', h') →
  key_since h h'.
Proof.
  intros -> He Hs.
  refine (outline_returns false may_sleep _ (reader_inv h) _ (λ _ _ h', key_since h h') _ _ _ _ _ _ _ _ Hs).
  - cbn. eapply (o_wait _ _ _ _ (λ _ _, key_since h)).
    + done.
    + intros s0 h0 [_ [Hev|Hk]] Hc; [|done]. by rewrite Hev in Hc.
    + done.
    + intros _. apply key_since_stable.
    + intros _. eapply (o_call _ _ _ _ (λ _ _, key_since h)).
      * intros s0 h0 r0 Hk. by apply key_since_cons.
      * intros _. apply key_since_stable.
      * intros a. destruct (truthy (rv a)); cbn.
        -- by apply o_ret.
        -- eapply (o_upd _ _ _ _ (λ _, key_since h)); [done|apply key_since_stable|by apply o_ret].
  - apply reader_inv_stable.
  - split; [by exists []|by left].
Qed.

Lemma third_drv_read_waits_witness :
  ∃ s' h', isteps false (key_handlers third) (ThirdDrv.third_drv_read 1, KeyPins.st0, []) (Ret 1, s', h')
    ∧ key_since [] h'.
Proof.
  assert (∃ s' h', isteps false (key_handlers third) (ThirdDrv.third_drv_read 1, KeyPins.st0, [])
            (Ret 1, s', h')) as (s' & h' & Hs).
  { do 2 eexists. eapply rtc_l; [apply third_press|].
    eapply rtc_l; [by apply is_wake|]. cbn.
    eapply rtc_l; [apply (is_call false _ _ _ (Ans 0 []))|]. cbn.
    eapply rtc_l; [apply is_upd|]. cbn. apply rtc_refl. }
  exists s', h'. split; [done|]. by apply (third_drv_read_waits 1 KeyPins.st0 [] 1 s' h').
Defined.

(** The release of K1 (pin high). *)
Lemma third_release_irq p s h :
  istep false (key_handlers third) (p, s, h)
    (p, KeyPins.set_ev_press 1 (KeyPins.set_key_val 0x81 s),
     (Wake_up_interruptible "third_waitqueue", Ans 0 []) :: (Gpio_getpin 192, Ans 1 []) :: h)
  (A := Z).
Proof.
  eapply (is_irq _ _ _ (as_handler (ThirdDrv.third_irq_handle 0)) (demo_world (λ _, 0) (λ _, 1) [])).
  - apply (key_handler_elem third 0). lia.
  - done.
Qed.

(** Clearing [ev_press] after the copy loses events.  There is an interleaving in which the
    key is pressed, the read delivers the press, the key is released between the copy and the
    clearing of [ev_press], and the read returns 1 with no event pending although the release was
    never delivered; a following read is asleep. *)
Theorem third_drv_read_loses_event :
  ∃ s h, isteps false (key_handlers third)
           (ThirdDrv.third_drv_read 1, KeyPins.st0, []) (Ret 1, s, h)
    ∧ last_key h = Some 0x81
    ∧ (∀ l r, (Copy_to_user l, r) ∈ h → l = [1])
    ∧ ∀ w, ∃ p, run w (ThirdDrv.third_drv_read 1) s h = (Asleep p, s, h).
Proof.
  do 2 eexists. split_and!.
  - eapply rtc_l; [apply third_press|].
    eapply rtc_l; [by apply is_wake|]. cbn.
    eapply rtc_l; [apply (is_call false _ _ _ (Ans 0 []))|]. cbn.
    eapply rtc_l; [apply third_release_irq|].
    eapply rtc_l; [apply is_upd|]. cbn. apply rtc_refl.
  - done.
  - intros l r. rewrite !elem_of_cons, elem_of_nil. naive_solver.
  - intros w. eexists. done.
Qed.

(** third_drv_read ignores the result of [wait_event_interruptible]: a signal that ends the
    wait while no event is pending makes it deliver the stale key value and answer 1. *)
Theorem third_drv_read_ignores_signal s h :
  KeyPins.ev_press s = 0 →
  isteps true [] (ThirdDrv.third_drv_read 1, s, h)
    (Ret 1, KeyPins.set_ev_press 0 s, (Copy_to_user [KeyPins.key_val s], Ans 0 []) :: h).
Proof.
  intros He. eapply rtc_l; [apply is_signal; [done|by rewrite He]|]. cbn.
  eapply rtc_l; [apply (is_call true _ _ _ (Ans 0 []))|]. cbn.
  eapply rtc_l; [apply is_upd|]. cbn. apply rtc_refl.
Qed.

Lemma third_drv_read_ignores_signal_witness :
  isteps true [] (ThirdDrv.third_drv_read 1, KeyPins.st0, [])
    (Ret 1, KeyPins.set_ev_press 0 KeyPins.st0, [(Copy_to_user [0], Ans 0 [])]).
Proof. apply (third_drv_read_ignores_signal KeyPins.st0 []). done. Defined.

(** A process that polls and reads when the driver says it is readable. *)
Definition poll_then_read : prog KeyPins.st Z :=
  mask ← ForthDrv.forth_drv_poll;
  if truthy mask then ForthDrv.forth_drv_read 1 else mret 0.

Definition pending (s : KeyPins.st) (_ : trace) : Prop := KeyPins.ev_press s ≠ 0.

Lemma pending_stable : stable (key_handlers forth) pending.
Proof.
  intros i w s h s' h' Hi _ Hr. eapply forth_handler_effect in Hr; [|done].
  destruct Hr as (pin & r & a & k & _ & _ & -> & _). unfold pending. simpl. lia.
Qed.

Lemma true_stable hs : stable hs (λ (_ : KeyPins.st) _, True).
Proof. done. Qed.
#[local] Hint Resolve pending_stable true_stable : drv.

(** [poll] is a promise: once forth_drv_poll has reported POLLIN|POLLRDNORM (it reports it
    exactly when an event is pending), the read that follows never sleeps, whatever interrupts and
    signals arrive in between. *)
Theorem forth_poll_then_read_awake signals s h cond k s' h' :
  isteps signals (key_handlers forth) (poll_then_read, s, h) (Wait cond k, s', h') → cond s' = true.
Proof.
  intros Hs. apply not_false_is_true. intros Hc.
  refine (outline_asleep signals never_sleeps _ (λ _ _, True) _ (λ _ _ _, True) _ _ _ _ _ _ _ _ _ Hs Hc);
    [|done|done].
  unfold poll_then_read. cbn.
  eapply (o_call _ _ _ _ (λ _ _ _, True)); [done|auto with drv|intros _].
  eapply (o_call _ _ _ _ (λ _ _ _, True)); [done|auto with drv|intros _].
  eapply (o_get _ _ _ _ (λ s1 s2 _, KeyPins.ev_press s1 ≠ 0 → KeyPins.ev_press s2 ≠ 0)); [done| |].
  { intros s1 i w s2 h2 s3 h3 Hi _ Hr _.
    apply forth_handler_effect in Hr as (pin & r & a & k' & _ & _ & -> & _); [|done]. simpl. lia. }
  intros s1. unfold truthy. destruct (Z.eqb_spec (KeyPins.ev_press s1) 0) as [|Hne]; cbn.
  { by apply o_ret. }
  eapply outline_pre with (P' := pending); [unfold pending; auto|].
  eapply (o_wait _ _ _ _ (λ _ _ _, True)); try done.
  - unfold pending. intros s2 _ Hp Hcs. unfold truthy in Hcs. apply negb_false_iff, Z.eqb_eq in Hcs. done.
  - intros _. eapply (o_call _ _ _ _ (λ _ _ _, True)); [done|auto with drv|].
    intros a. destruct (negb (rv a =? 0)); cbn; [by apply o_ret|].
    eapply (o_upd _ _ _ _ (λ _ _, True)); [done|auto with drv|by apply o_ret].
Qed.

Lemma forth_poll_then_read_awake_witness :
  ∃ cond k s' h', isteps false (key_handlers forth)
      (poll_then_read, KeyPins.set_ev_press 1 KeyPins.st0, []) (Wait cond k, s', h') ∧ cond s' = true.
Proof.
  assert (∃ cond k s' h', isteps false (key_handlers forth)
      (poll_then_read, KeyPins.set_ev_press 1 KeyPins.st0, []) (Wait cond k, s', h'))
    as (cond & k & s' & h' & Hs).
  { do 4 eexists. unfold poll_then_read. cbn.
    do 2 (eapply rtc_l; [apply (is_call false _ _ _ (Ans 0 []))|]; cbn).
    eapply rtc_l; [apply is_get|]. cbn. apply rtc_refl. }
  exists cond, k, s', h'. split; [done|].
  by apply (forth_poll_then_read_awake false (KeyPins.set_ev_press 1 KeyPins.st0) [] cond k s' h').
Defined.

(** The invariant of fifth_drv: no event is ever recorded, one SIGIO per key event. *)
Definition fifth_inv (s : KeyPins.st) (h : trace) : Prop :=
  KeyPins.ev_press s = 0 ∧ count is_sigio h = count is_key_event h.

Lemma fifth_inv_stable : stable (key_handlers fifth) fifth_inv.
Proof.
  intros i w s h s' h' Hi [He Hc] Hr.
  apply fifth_handler_effect in Hr as (pin & r & a & k & _ & _ & -> & ->); [|done].
  split; simpl; lia.
Qed.

Lemma fifth_ops_keep p : fifth_op p → keeps fifth_inv p.
Proof.
  intros Hp; destruct Hp; unfold FifthDrv.fifth_drv_read;
    keeps_steps ltac:(first [assumption | by (unfold fifth_inv in *; simpl in *) ]).
Qed.

(** fifth_drv never waits, so nothing sets [ev_press]: after any operations and interrupts the
    driver has sent exactly one SIGIO per key event, and its poll reports "not readable" even when
    a key value is waiting to be read. *)
Theorem fifth_poll_never_readable ops signals r s h :
  Forall fifth_op ops →
  isteps signals (key_handlers fifth)
    (session ops ≫= λ _, FifthDrv.fifth_drv_poll, KeyPins.st0, []) (Ret r, s, h) →
  r = 0 ∧ count is_sigio h = count is_key_event h.
Proof.
  intros Hops Hs.
  refine (outline_returns signals may_sleep _ fifth_inv _
            (λ r s h, r = 0 ∧ count is_sigio h = count is_key_event h) _ _ _ _ _ _ _ _ Hs);
    [|apply fifth_inv_stable|done].
  eapply outline_bind with (R := λ _, fifth_inv).
  { apply keeps_outline; [done|apply fifth_inv_stable|].
    apply keeps_session. eapply Forall_impl; [exact Hops|]. apply fifth_ops_keep. }
  intros _. cbn.
  do 2 (eapply (o_call _ _ _ _ (λ _, fifth_inv));
    [intros s0 h0 a Hi; by (unfold fifth_inv in *; simpl in *)|intros; apply fifth_inv_stable|intros _]).
  eapply (o_get _ _ _ _ (λ s1 s2 h2, KeyPins.ev_press s1 = 0 ∧ fifth_inv s2 h2)).
  - intros s0 h0 Hi. split; [apply Hi|done].
  - intros s1 i w s2 h2 s3 h3 Hi [He HJ] Hr. split; [done|]. by eapply fifth_inv_stable.
  - intros s1. destruct (truthy (KeyPins.ev_press s1)) eqn:Ht.
    + apply o_ret. intros s2 h2 [He _]. by rewrite He in Ht.
    + apply o_ret. intros s2 h2 [_ [_ Hc]]. done.
Qed.

Lemma fifth_poll_never_readable_witness :
  ∃ s h, isteps false (key_handlers fifth)
      (session [FifthDrv.fifth_drv_fasync 3 1] ≫= λ _, FifthDrv.fifth_drv_poll, KeyPins.st0, [])
      (Ret 0, s, h)
    ∧ (0 = 0 ∧ count is_sigio h = count is_key_event h).
Proof.
  assert (∃ s h, isteps false (key_handlers fifth)
      (session [FifthDrv.fifth_drv_fasync 3 1] ≫= λ _, FifthDrv.fifth_drv_poll, KeyPins.st0, [])
      (Ret 0, s, h)) as (s & h & Hs).
  { do 2 eexists.
    do 4 (eapply rtc_l; [apply (is_call false _ _ _ (Ans 0 []))|]; cbn).
    eapply rtc_l.
    { eapply (is_irq _ _ _ (as_handler (FifthDrv.fifth_irq_handle 2)) press_world).
      - apply (key_handler_elem fifth 2). lia.
      - reflexivity. }
    eapply rtc_l; [apply is_get|]. cbn. apply rtc_refl. }
  exists s, h. split; [done|].
  apply (fifth_poll_never_readable [FifthDrv.fifth_drv_fasync 3 1] false 0 s h); [repeat constructor|done].
Defined.
