(* ===== verification/Buttons.v ===== *)
(** * Buttons: the input-core key driver with a debounce timer (8th_buttons/buttons.c)

    An interrupt only remembers the key and restarts a 10 ms timer; the timer function samples the
    pin and reports the key.  The theorem is about the driver in its environment: interrupts at given
    times, and a kernel timer that fires once at the latest expiry it was given. *)

From S2P Require Import Prelude Kernel.

Module Buttons.
(** Values of linux/input.h and of the S3C2440 headers. *)
Definition EV_KEY := 0x01.
Definition EV_REP := 0x14.
Definition KEY_ENTER := 28.
Definition KEY_A := 30.
Definition KEY_S := 31.
Definition KEY_L := 38.
Definition KEY_C := 46.
Definition KEY_T := 20.
Definition S3C2410_GPG (n : Z) : Z := 32 * 6 + n.
Definition IRQ_EINT (n : Z) : Z := n + 44.

Record pin_desc := PinDesc { irq : Z; name : string; pin : Z; key_val : Z }.

Definition pindesc : list pin_desc :=
  [PinDesc (IRQ_EINT 8) "K1" (S3C2410_GPG 0) KEY_L;
   PinDesc (IRQ_EINT 11) "K2" (S3C2410_GPG 3) KEY_S;
   PinDesc (IRQ_EINT 13) "K3" (S3C2410_GPG 5) KEY_ENTER;
   PinDesc (IRQ_EINT 14) "K4" (S3C2410_GPG 6) KEY_C;
   PinDesc (IRQ_EINT 15) "K5" (S3C2410_GPG 7) KEY_A;
   PinDesc (IRQ_EINT 19) "K6" (S3C2410_GPG 11) KEY_T].

(** [irq_pd] is NULL or the address of an entry of [pindesc], kept as its index. *)
Record st := St { buttons_input_dev : Z; irq_pd : option nat }.
Definition st0 : st := St 0 None.
Definition set_dev (d : Z) (s : st) : st := St d (irq_pd s).
Definition set_pd (i : nat) (s : st) : st := St (buttons_input_dev s) (Some i).

Section Buttons.
Context (HZ : Z).

Definition buttons_irq (i : nat) : prog st Z :=
  store (set_pd i);;
  j ← call Jiffies;
  call_ (Mod_timer "buttons_timer" (u32 (j + HZ / 100)));;
  mret 1.

Definition buttons_timer_function : prog st unit :=
  pd ← load irq_pd;
  match pd with
  | None => mret ()
  | Some i =>
      match pindesc !! i with
      | None => Oops
      | Some pd =>
          pinval ← call (Gpio_getpin (pin pd));
          dev ← load buttons_input_dev;
          if truthy pinval
          then call_ (Input_event dev EV_KEY (key_val pd) 0);; call_ (Input_sync dev)
          else call_ (Input_event dev EV_KEY (key_val pd) 1);; call_ (Input_sync dev)
      end
  end.

(** [for (i = 0; i < 6; i++) if (request_irq(...)) return -EAGAIN;] *)
Fixpoint request_all (i : nat) (pds : list pin_desc) : prog st Z :=
  match pds with
  | [] => mret 0
  | pd :: pds =>
      r ← call (Request_irq (irq pd) "buttons_irq" "IRQT_BOTHEDGE" (name pd) (Z.of_nat i));
      if truthy r then mret (- EAGAIN) else request_all (S i) pds
  end.

Definition buttons_init : prog st Z :=
  d ← call Input_allocate_device;
  store (set_dev d);;
  if d =? 0 then mret (- ENOMEM)
  else
    call_ (Set_bit EV_KEY "evbit" d);;
    call_ (Set_bit EV_REP "evbit" d);;
    call_ (Set_bit KEY_L "keybit" d);;
    call_ (Set_bit KEY_S "keybit" d);;
    call_ (Set_bit KEY_C "keybit" d);;
    call_ (Set_bit KEY_A "keybit" d);;
    call_ (Set_bit KEY_T "keybit" d);;
    call_ (Set_bit KEY_ENTER "keybit" d);;
    call_ (Input_register_device d);;
    call_ (Init_timer "buttons_timer");;
    call_ (Add_timer "buttons_timer");;
    request_all 0 pindesc.

Definition buttons_exit : prog st unit :=
  for_each (imap (λ i pd, (i, pd)) pindesc) (λ '(i, pd), call_ (Free_irq (irq pd) (Z.of_nat i)));;
  call_ (Del_timer "buttons_timer");;
  d ← load buttons_input_dev;
  call_ (Input_unregister_device d);;
  call_ (Input_free_device d).
End Buttons.
End Buttons.

(** ** The environment: time and the kernel timer *)

Section Debounce.
Import Buttons.
Context (HZ : Z) (level : Z → Z → Z).

(** The world at time [t]: jiffies is [t], the pins have the levels of that time. *)
Definition at_time (t : Z) : world := λ _ c,
  match c with
  | Jiffies => Ans t []
  | Gpio_getpin p => Ans (level t p) []
  | _ => Ans 0 []
  end.

(** [mod_timer] replaces the pending expiry. *)
Fixpoint armed (h : trace) : option Z :=
  match h with
  | [] => None
  | (Mod_timer _ e, _) :: _ => Some e
  | _ :: h => armed h
  end.

Record env := Env { e_st : st; e_trace : trace; e_timer : option Z }.

(** One key interrupt at time [t]; the timer is (re)armed by what the handler asked for. *)
Definition irq_at (t : Z) (i : nat) (e : env) : env :=
  match run (at_time t) (buttons_irq HZ i) (e_st e) (e_trace e) with
  | (_, s', h') => Env s' h' (armed h')
  end.

(** The timer fires at its expiry and is then not pending. *)
Definition fire_at (t : Z) (e : env) : env :=
  match run (at_time t) buttons_timer_function (e_st e) (e_trace e) with
  | (_, s', h') => Env s' h' None
  end.

(** A schedule of interrupts: a timer that is due before the next interrupt fires first, and the
    one that is left fires at the end. *)
Fixpoint play (evs : list (Z * nat)) (e : env) : env :=
  match evs with
  | [] => match e_timer e with Some x => fire_at x e | None => e end
  | (t, i) :: evs =>
      play evs (irq_at t i
        match e_timer e with
        | Some x => if x <=? t then fire_at x e else e
        | None => e
        end)
  end.

(** The key reports of a history, oldest first. *)
Definition reports (h : trace) : list (Z * Z) :=
  reverse (omap (λ e, match e.1 with Input_event _ _ c v => Some (c, v) | _ => None end) h).

(** Interrupts close together: each comes before the timer the previous one armed. *)
Fixpoint burst (t0 : Z) (evs : list (Z * nat)) : Prop :=
  match evs with
  | [] => True
  | (t, i) :: evs => t0 <= t < t0 + HZ / 100 ∧ (i < 6)%nat ∧ burst t evs
  end.
End Debounce.

Section DebounceProofs.
Import Buttons.
Context (HZ : Z) (level : Z → Z → Z).
Abbreviation delay := (HZ / 100).

Lemma irq_at_spec t i e :
  0 <= t → t + delay < 2 ^ 32 → 0 <= delay →
  let e' := irq_at HZ level t i e in
  irq_pd (e_st e') = Some i ∧ e_timer e' = Some (t + delay)
  ∧ reports (e_trace e') = reports (e_trace e).
Proof.
  intros Ht Hb Hd. unfold irq_at. cbn -[Z.add Z.div u32]. rewrite u32_small by lia. done.
Qed.

Lemma fire_at_spec t i pd e :
  irq_pd (e_st e) = Some i → pindesc !! i = Some pd →
  let e' := fire_at level t e in
  reports (e_trace e') =
    reports (e_trace e) ++ [(key_val pd, if level t (pin pd) =? 0 then 1 else 0)]
  ∧ e_timer e' = None ∧ irq_pd (e_st e') = Some i.
Proof.
  intros Hi Hpd. unfold fire_at, buttons_timer_function. cbn -[reports]. rewrite Hi, Hpd.
  cbn -[reports]. unfold truthy. destruct (level t (pin pd) =? 0); cbn -[reports];
    (split_and!; [|done|done]); unfold reports; cbn -[reverse]; by rewrite reverse_cons.
Qed.

Lemma last_default {A} (l : list A) z d d' : List.last (z :: l) d = List.last (z :: l) d'.
Proof. revert z. induction l as [|y l IH]; intros z; [done|apply (IH y)]. Qed.

Lemma play_burst evs t i e :
  0 <= t → (i < 6)%nat → 0 < delay → burst HZ t evs →
  Forall (λ ev, ev.1 + delay < 2 ^ 32) ((t, i) :: evs) →
  match e_timer e with Some x => t < x | None => True end →
  let tn := (List.last ((t, i) :: evs) (t, i)).1 in
  let n := (List.last ((t, i) :: evs) (t, i)).2 in
  ∃ pd, pindesc !! n = Some pd
    ∧ reports (e_trace (play HZ level ((t, i) :: evs) e)) =
        reports (e_trace e) ++ [(key_val pd, if level (tn + delay) (pin pd) =? 0 then 1 else 0)]
    ∧ e_timer (play HZ level ((t, i) :: evs) e) = None.
Proof.
  revert t i e. induction evs as [|[t' i'] evs IH]; intros t i e Ht Hi Hd Hb Hf He.
  - apply Forall_cons in Hf as [Hf _]. cbn in Hf. cbn [play List.last fst snd].
    assert (match e_timer e with Some x => if x <=? t then fire_at level x e else e | None => e end = e)
      as ->. { destruct (e_timer e); [|done]. by zcases. }
    destruct (irq_at_spec t i e Ht Hf ltac:(lia)) as (Hpd & -> & Hr).
    destruct (pindesc !! i) as [pd|] eqn:Hl; [|apply lookup_ge_None in Hl; simpl in Hl; lia].
    exists pd. split; [done|].
    destruct (fire_at_spec (t + delay) i pd _ Hpd Hl) as (H1 & H2 & _). by rewrite H1, H2, Hr.
  - destruct Hb as (Hb1 & Hi' & Hb). inversion Hf as [|? ? Hf1 Hf2]; subst. simpl in Hf1.
    cbn [play]. assert (match e_timer e with Some x => if x <=? t then fire_at level x e else e | None => e end = e)
      as ->. { destruct (e_timer e); [|done]. by zcases. }
    destruct (irq_at_spec t i e Ht Hf1 ltac:(lia)) as (Hpd & Htm & Hr).
    destruct (IH t' i' (irq_at HZ level t i e)) as (pd & Hp1 & Hp2 & Hp3); try done; try lia.
    { rewrite Htm. lia. }
    exists pd. rewrite <- Hr.
    by rewrite (last_default evs (t', i') (t', i') (t, i)) in Hp1, Hp2.
Qed.
End DebounceProofs.

(** [C40] Debouncing.  A burst of key interrupts, each arriving before the 10 ms timer of the previous
    one expires, produces exactly one report however the contacts bounce: that of the key of the
    last interrupt, with the level its pin has one full delay after that interrupt (0 is pressed,
    reported as 1), and leaves no timer pending. *)
Theorem debounce_one_report HZ level t i evs e :
  let delay := HZ / 100 in
  0 <= t → (i < 6)%nat → 0 < delay → e_timer e = None →
  burst HZ t evs → Forall (λ ev, ev.1 + delay < 2 ^ 32) ((t, i) :: evs) →
  ∃ tn n pd, List.last ((t, i) :: evs) (t, i) = (tn, n) ∧ Buttons.pindesc !! n = Some pd
    ∧ reports (e_trace (play HZ level ((t, i) :: evs) e)) =
        reports (e_trace e)
          ++ [(Buttons.key_val pd, if level (tn + delay) (Buttons.pin pd) =? 0 then 1 else 0)]
    ∧ e_timer (play HZ level ((t, i) :: evs) e) = None.
Proof.
  intros delay Ht Hi Hd He Hb Hf.
  destruct (play_burst HZ level evs t i e) as (pd & H1 & H2 & H3); try done.
  { by rewrite He. }
  exists (List.last ((t, i) :: evs) (t, i)).1, (List.last ((t, i) :: evs) (t, i)).2, pd.
  split_and!; try done. apply surjective_pairing.
Qed.

(** Three bounces of K1 and one of K2 within 10 ms, [HZ] = 200, at 5 ms per jiffy; K2 is held down. *)
Lemma debounce_one_report_witness :
  let level := λ _ p, if p =? Buttons.S3C2410_GPG 3 then 0 else 1 in
  let e := Env Buttons.st0 [] None in
  ∃ tn n pd, List.last [(1000, 0%nat); (1001, 0%nat); (1001, 0%nat); (1002, 1%nat)] (1000, 0%nat) = (tn, n)
    ∧ Buttons.pindesc !! n = Some pd
    ∧ reports (e_trace (play 200 level [(1000, 0%nat); (1001, 0%nat); (1001, 0%nat); (1002, 1%nat)] e)) =
        [] ++ [(Buttons.key_val pd, if level (tn + 200 / 100) (Buttons.pin pd) =? 0 then 1 else 0)]
    ∧ e_timer (play 200 level [(1000, 0%nat); (1001, 0%nat); (1001, 0%nat); (1002, 1%nat)] e) = None.
Proof.
  intros level e.
  apply (debounce_one_report 200 level 1000 0 [(1001, 0%nat); (1001, 0%nat); (1002, 1%nat)] e);
    try done; try lia.
  - simpl. repeat split; lia.
  - repeat constructor.
Defined.
