(* ===== verification/Lcd.v ===== *)
(** * Lcd: the frame buffer driver (10th_lcd/lcd.c and its four variants)

    The five files have one text with different constants: [board] collects what differs, in the
    order of the code, and [lcd_init] is the common body.  [board_main] is 10th_lcd/lcd.c. *)

From S2P Require Import Prelude Kernel.

Module Lcd.
Definition FB_TYPE_PACKED_PIXELS := 0.
Definition FB_VISUAL_TRUECOLOR := 2.
Definition FB_ACTIVATE_NOW := 0.

(** Byte offsets in [struct lcd_regs]. *)
Definition lcdcon1 := 0.
Definition lcdcon2 := 4.
Definition lcdcon3 := 8.
Definition lcdcon4 := 12.
Definition lcdcon5 := 16.
Definition lcdsaddr1 := 20.
Definition lcdsaddr2 := 24.
Definition lcdsaddr3 := 28.
Definition sizeof_lcd_regs := 104.

Record fb_bitfield := Bitfield { offset : Z; length : Z }.
Record fb_info := FbInfo {
  fix_id : string; smem_len : Z; fix_type : Z; visual : Z; line_length : Z;
  xres : Z; yres : Z; xres_virtual : Z; yres_virtual : Z; bits_per_pixel : Z;
  red : fb_bitfield; green : fb_bitfield; blue : fb_bitfield; activate : Z;
  screen_size : Z; smem_start : Z; screen_base : Z }.

Record st := St {
  s3c_lcd : Z; info : fb_info;
  gpbcon : Z; gpbdat : Z; gpccon : Z; gpdcon : Z; gpgcon : Z; lcd_regs : Z;
  pseudo_palette : list Z }.

Definition info0 : fb_info :=
  FbInfo "" 0 0 0 0 0 0 0 0 0 (Bitfield 0 0) (Bitfield 0 0) (Bitfield 0 0) 0 0 0 0.
Definition st0 : st := St 0 info0 0 0 0 0 0 0 (replicate 16 0).

Definition set_lcd p s := St p (info s) (gpbcon s) (gpbdat s) (gpccon s) (gpdcon s) (gpgcon s) (lcd_regs s) (pseudo_palette s).
Definition set_info i s := St (s3c_lcd s) i (gpbcon s) (gpbdat s) (gpccon s) (gpdcon s) (gpgcon s) (lcd_regs s) (pseudo_palette s).
Definition set_gpb p s := St (s3c_lcd s) (info s) p (p + 4) (gpccon s) (gpdcon s) (gpgcon s) (lcd_regs s) (pseudo_palette s).
Definition set_gpc p s := St (s3c_lcd s) (info s) (gpbcon s) (gpbdat s) p (gpdcon s) (gpgcon s) (lcd_regs s) (pseudo_palette s).
Definition set_gpd p s := St (s3c_lcd s) (info s) (gpbcon s) (gpbdat s) (gpccon s) p (gpgcon s) (lcd_regs s) (pseudo_palette s).
Definition set_gpg p s := St (s3c_lcd s) (info s) (gpbcon s) (gpbdat s) (gpccon s) (gpdcon s) p (lcd_regs s) (pseudo_palette s).
Definition set_regs p s := St (s3c_lcd s) (info s) (gpbcon s) (gpbdat s) (gpccon s) (gpdcon s) (gpgcon s) p (pseudo_palette s).
Definition set_palette l s := St (s3c_lcd s) (info s) (gpbcon s) (gpbdat s) (gpccon s) (gpdcon s) (gpgcon s) (lcd_regs s) l.
Definition set_mem start base (i : fb_info) : fb_info :=
  FbInfo (fix_id i) (smem_len i) (fix_type i) (visual i) (line_length i) (xres i) (yres i)
    (xres_virtual i) (yres_virtual i) (bits_per_pixel i) (red i) (green i) (blue i) (activate i)
    (screen_size i) start base.

(** ** Colours *)

(** [unsigned int] arithmetic; the callers have [length <= 16]. *)
Definition chan_to_field (chan : Z) (bf : fb_bitfield) : Z :=
  u32 (((chan &&& 0xffff) >>> (16 - length bf)) <<< offset bf).

(** A store past the end of [pseudo_palette] is a fault of the program. *)
Definition s3c_lcdfb_setcolreg (regno r g b transp : Z) : prog st Z :=
  if 16 <? regno then mret 1
  else
    i ← load info;
    let val := chan_to_field r (red i) ||| chan_to_field g (green i) ||| chan_to_field b (blue i) in
    pal ← load pseudo_palette;
    if Z.of_nat (List.length pal) <=? regno then Oops
    else store (set_palette (<[Z.to_nat regno := val]> pal));; mret 0.

(** ** Set-up *)

(** [base->field = v], [|= m] and [&= ~m]. *)
Inductive regop :=
| Assign (base : st → Z) (off v : Z)
| OrIn (base : st → Z) (off m : Z)
| AndNot (base : st → Z) (off m : Z).

Definition do_op (o : regop) : prog st unit :=
  match o with
  | Assign base off v => p ← load base; writef p off v
  | OrIn base off m => p ← load base; v ← readf p off; writef p off (v ||| m)
  | AndNot base off m => p ← load base; v ← readf p off; writef p off (v &&& ~~~ m)
  end.

(** The constants of one file: the fixed and variable screen information, the pin functions, the
    panel timing, and the window of the controller from the buffer's address and length. *)
Record board := Board {
  b_info : fb_info; b_pins : list regop; b_timing : list regop; b_window : Z → Z → list regop }.

Definition lcd_init (b : board) : prog st Z :=
  fb ← call Framebuffer_alloc;
  store (set_lcd fb);;
  if fb =? 0 then Oops
  else
    store (set_info (b_info b));;
    p ← call (Ioremap 0x56000010 8); store (set_gpb p);;
    p ← call (Ioremap 0x56000020 4); store (set_gpc p);;
    p ← call (Ioremap 0x56000030 4); store (set_gpd p);;
    p ← call (Ioremap 0x56000060 4); store (set_gpg p);;
    for_each (b_pins b) do_op;;
    p ← call (Ioremap 0x4D000000 sizeof_lcd_regs); store (set_regs p);;
    for_each (b_timing b) do_op;;
    i ← load info;
    m ← calld (Dma_alloc_writecombine (smem_len i));
    store (set_info (set_mem (u32 (nth 0 (dat m) 0)) (rv m) i));;
    i ← load info;
    for_each (b_window b (smem_start i) (smem_len i)) do_op;;
    do_op (OrIn lcd_regs lcdcon1 (1 <<< 0));;
    do_op (OrIn lcd_regs lcdcon5 (1 <<< 3));;
    call_ (Register_framebuffer fb);;
    mret 0.

Definition lcd_exit : prog st unit :=
  s ← load id;
  call_ (Unregister_framebuffer (s3c_lcd s));;
  do_op (AndNot lcd_regs lcdcon1 (1 <<< 0));;
  do_op (AndNot lcd_regs lcdcon1 (1 <<< 3));;
  deref (s3c_lcd s);;
  call_ (Dma_free_writecombine (smem_len (info s)) (screen_base (info s)) (smem_start (info s)));;
  call_ (Iounmap (lcd_regs s));;
  call_ (Iounmap (gpbcon s));;
  call_ (Iounmap (gpccon s));;
  call_ (Iounmap (gpdcon s));;
  call_ (Iounmap (gpgcon s));;
  call_ (Framebuffer_release (s3c_lcd s)).

(** ** The five files *)

Definition rgb565 (len line size : Z) : fb_info :=
  FbInfo "mylcd" len FB_TYPE_PACKED_PIXELS FB_VISUAL_TRUECOLOR line 240 320 240 320 16
    (Bitfield 11 5) (Bitfield 5 6) (Bitfield 0 5) FB_ACTIVATE_NOW size 0 0.
Definition rgb888 (len line size : Z) : fb_info :=
  FbInfo "mylcd" len FB_TYPE_PACKED_PIXELS FB_VISUAL_TRUECOLOR line 240 320 240 320 16
    (Bitfield 16 8) (Bitfield 8 8) (Bitfield 0 8) FB_ACTIVATE_NOW size 0 0.

(** [lcdsaddr1..3] from the allocated buffer, and the fixed addresses of the main file. *)
Definition window_of_buffer (start len : Z) : list regop :=
  [Assign lcd_regs lcdsaddr1 ((start >>> 1) &&& ~~~ (3 <<< 30));
   Assign lcd_regs lcdsaddr2 ((u32 (start + len) >>> 1) &&& 0x1fffff);
   Assign lcd_regs lcdsaddr3 (320 * 32 / 16)].
Definition window_fixed (start len : Z) : list regop :=
  [Assign lcd_regs lcdsaddr1 0x19c60000;
   Assign lcd_regs lcdsaddr2 0x19c72c00;
   Assign lcd_regs lcdsaddr3 0x000000f0].

(** 10th_lcd/lcd.c *)
Definition board_main : board := Board
  (rgb565 (320*240*16/8) (240*16/8) 0)
  [AndNot gpccon 0 0xffc003cc; OrIn gpccon 0 0xaa955699;
   AndNot gpdcon 0 0xffc0fff0; OrIn gpdcon 0 0xaa95aaa1; OrIn gpgcon 0 (3 <<< (4*2))]
  [Assign lcd_regs lcdcon1 0x00000878; Assign lcd_regs lcdcon2 0x004fc109;
   Assign lcd_regs lcdcon3 0x00c8ef00; Assign lcd_regs lcdcon4 0x00000004;
   Assign lcd_regs lcdcon5 0x00000f41]
  window_fixed.

(** 10th_lcd/16bpp/lcd.c *)
Definition board_16bpp : board := Board
  (rgb565 (320*240*16/8) (240*16/8) 0)
  [Assign gpccon 0 0xaaaaaaaa; Assign gpdcon 0 0xaaaaaaaa; OrIn gpgcon 0 (3 <<< 8)]
  [Assign lcd_regs lcdcon1 (8 <<< 8 ||| 3 <<< 5 ||| 0x0c <<< 1);
   Assign lcd_regs lcdcon2 (0 <<< 24 ||| 319 <<< 14 ||| 4 <<< 6 ||| 9 <<< 0);
   Assign lcd_regs lcdcon3 (25 <<< 19 ||| 239 <<< 8 ||| 0 <<< 0);
   Assign lcd_regs lcdcon4 (4 <<< 0);
   Assign lcd_regs lcdcon5 (1 <<< 11 ||| 1 <<< 10 ||| 1 <<< 9 ||| 1 <<< 8 ||| 1 <<< 6 ||| 1 <<< 0)]
  window_of_buffer.

(** 10th_lcd/24bpp/lcd.c *)
Definition board_24bpp : board := Board
  (rgb888 (320*240*32/8) (240*32/8) (320*240*32/8))
  [Assign gpccon 0 0xaaaaaaaa; Assign gpdcon 0 0xaaaaaaaa; OrIn gpgcon 0 (3 <<< 8)]
  [Assign lcd_regs lcdcon1 (8 <<< 8 ||| 3 <<< 5 ||| 0x0d <<< 1);
   Assign lcd_regs lcdcon2 (0 <<< 24 ||| 319 <<< 14 ||| 4 <<< 6 ||| 9 <<< 0);
   Assign lcd_regs lcdcon3 (25 <<< 19 ||| 239 <<< 8 ||| 0 <<< 0);
   Assign lcd_regs lcdcon4 (4 <<< 0);
   Assign lcd_regs lcdcon5 (0 <<< 11 ||| 1 <<< 10 ||| 1 <<< 9 ||| 1 <<< 8 ||| 1 <<< 6 ||| 1 <<< 0)]
  window_of_buffer.

(** 10th_lcd/nice/lcd.c: the branch that is compiled is that of the 24bpp file. *)
Definition board_nice : board := Board
  (rgb888 (320*240*32/8) (240*32/8) (320*240*32/8))
  [Assign gpccon 0 0xaaaaaaaa; Assign gpdcon 0 0xaaaaaaaa; OrIn gpgcon 0 (3 <<< 8)]
  [Assign lcd_regs lcdcon1 (8 <<< 8 ||| 3 <<< 5 ||| 0x0d <<< 1);
   Assign lcd_regs lcdcon2 (0 <<< 24 ||| 319 <<< 14 ||| 4 <<< 6 ||| 9 <<< 0);
   Assign lcd_regs lcdcon3 (25 <<< 19 ||| 239 <<< 8 ||| 0 <<< 0);
   Assign lcd_regs lcdcon4 (4 <<< 0);
   Assign lcd_regs lcdcon5 (0 <<< 11 ||| 1 <<< 10 ||| 1 <<< 9 ||| 1 <<< 8 ||| 1 <<< 6 ||| 1 <<< 0)]
  window_of_buffer.

(** 10th_lcd/wds/lcd.c *)
Definition board_wds : board := Board
  (rgb565 (320*240*16/8) (240*16/8) (320*240*32/8))
  [Assign gpccon 0 0xaaaaaaaa; Assign gpdcon 0 0xaaaaaaaa; OrIn gpgcon 0 (3 <<< 8)]
  [Assign lcd_regs lcdcon1 0x00000878; Assign lcd_regs lcdcon2 0x004fc109;
   Assign lcd_regs lcdcon3 0x00c8ef00; Assign lcd_regs lcdcon4 0x00000004;
   Assign lcd_regs lcdcon5 0x00000f41]
  window_of_buffer.

Definition boards : list board := [board_main; board_16bpp; board_24bpp; board_nice; board_wds].

(** What [ioremap] is asked for. *)
Definition windows : list (Z * Z) :=
  [(0x56000010, 8); (0x56000020, 4); (0x56000030, 4); (0x56000060, 4); (0x4D000000, sizeof_lcd_regs)].
End Lcd.

(** ** Register scripts *)

Section Ops.
Import Lcd.
Context (w : world) (init : Z → Z) (Hw : holds_writes w init).

Definition op_base (o : regop) (s : st) : Z :=
  match o with Assign base _ _ | OrIn base _ _ | AndNot base _ _ => base s end.
Definition op_addr (o : regop) (s : st) : Z :=
  match o with Assign _ off _ | OrIn _ off _ | AndNot _ off _ => op_base o s + off end.
Definition op_value (o : regop) (old : Z) : Z :=
  match o with
  | Assign _ _ v => u32 v
  | OrIn _ _ m => old ||| u32 m
  | AndNot _ _ m => old &&& u32 (~~~ m)
  end.

(** The register file after a script. *)
Fixpoint ops_regs (ops : list regop) (s : st) (R : Z → Z) : Z → Z :=
  match ops with
  | [] => R
  | o :: ops => ops_regs ops s (λ q, if q =? op_addr o s then op_value o (R q) else R q)
  end.

Lemma ops_regs_ext ops s R R' q :
  (∀ q, R q = R' q) → ops_regs ops s R q = ops_regs ops s R' q.
Proof. revert R R'. induction ops; simpl; intros R R' HR; [done|]. apply IHops. intros q'. by rewrite HR. Qed.

Lemma step_do_op o s h :
  op_base o s ≠ 0 →
  ∃ h', run w (do_op o) s h = (Done (), s, h')
    ∧ ∀ q, reg init q h' = if q =? op_addr o s then op_value o (reg init q h) else reg init q h.
Proof.
  destruct o as [base off v|base off m|base off m]; simpl; intros Hb; do 3 try reg_step w init Hw.
  - eexists. split; [done|]. done.
  - eexists. split; [done|]. intros q. rewrite Hreg0, !Hreg. zcases. subst q.
    apply u32_lor, reg_range.
  - eexists. split; [done|]. intros q. rewrite Hreg0, !Hreg. zcases. subst q.
    apply u32_land, reg_range.
Qed.

Lemma step_ops ops s h :
  Forall (λ o, op_base o s ≠ 0) ops →
  ∃ h', run w (for_each ops do_op) s h = (Done (), s, h')
    ∧ ∀ q, reg init q h' = ops_regs ops s (λ q, reg init q h) q.
Proof.
  intros Hf. revert h. induction Hf as [|o ops Ho Hf IH]; intros h; simpl; [eauto|].
  rewrite run_bind. destruct (step_do_op o s h Ho) as (h1 & -> & H1).
  destruct (IH h1) as (h2 & H2 & H3). rewrite H2. exists h2. split; [done|].
  intros q. rewrite H3. by apply ops_regs_ext.
Qed.
End Ops.

Section Init.
Import Lcd.
Context (w : world) (init virt : Z → Z) (Hw : holds_writes w init) (Hm : io_maps w virt windows).
Context (Hfb : ∀ h, rv (w h Framebuffer_alloc) ≠ 0).

(** The static variables when the pins, the timing and the window are programmed. *)
Definition st_pins (fb : Z) (b : board) : st :=
  St fb (b_info b) (virt 0x56000010) (virt 0x56000010 + 4) (virt 0x56000020) (virt 0x56000030)
    (virt 0x56000060) 0 (replicate 16 0).
Definition st_timing (fb : Z) (b : board) : st := set_regs (virt 0x4D000000) (st_pins fb b).
Definition st_window (fb start base : Z) (b : board) : st :=
  set_info (set_mem start base (b_info b)) (st_timing fb b).

Definition switch_on : list regop := [OrIn lcd_regs lcdcon1 (1 <<< 0); OrIn lcd_regs lcdcon5 (1 <<< 3)].

Lemma windows_nonnull : Forall (λ x, virt x.1 ≠ 0) windows.
Proof. apply Forall_forall. intros [p n] Hin. pose proof (proj1 (proj2 Hm) p n Hin). simpl. lia. Qed.

Lemma ioremap_answer h p n : (p, n) ∈ windows → rv (w h (Ioremap p n)) = virt p.
Proof. apply Hm. Qed.

Lemma board_ops_mapped b fb start base len :
  b ∈ boards →
  Forall (λ o, op_base o (st_pins fb b) ≠ 0) (b_pins b)
  ∧ Forall (λ o, op_base o (st_timing fb b) ≠ 0) (b_timing b)
  ∧ Forall (λ o, op_base o (st_window fb start base b) ≠ 0) (b_window b start len).
Proof.
  pose proof windows_nonnull as Hn. unfold windows in Hn. rewrite !Forall_cons in Hn. simpl in Hn.
  intros Hb. unfold boards in Hb. set_unfold in Hb.
  destruct Hb as [->|[->|[->|[->|[->|[]]]]]]; simpl;
    unfold window_fixed, window_of_buffer; rewrite ?Forall_cons, ?Forall_nil; simpl; tauto.
Qed.

Lemma run_lcd_init b h :
  b ∈ boards →
  ∃ h' hm fb, let m := w hm (Dma_alloc_writecombine (smem_len (b_info b))) in
    let start := u32 (nth 0 (dat m) 0) in
    let s := st_window fb start (rv m) b in
    run w (lcd_init b) st0 h = (Done 0, s, h') ∧ fb ≠ 0
    ∧ ∀ q, reg init q h' =
        ops_regs switch_on s (ops_regs (b_window b start (smem_len (b_info b))) s
          (ops_regs (b_timing b) (st_timing fb b)
            (ops_regs (b_pins b) (st_pins fb b) (λ q, reg init q h)))) q.
Proof.
  intros Hb. unfold lcd_init.
  pose proof (proj1 Hm) as Hio.
  reg_step w init Hw. set (fb := rv (w h Framebuffer_alloc)).
  assert (fb ≠ 0) as Hfb' by apply Hfb.
  reg_step w init Hw. rewrite (proj2 (Z.eqb_neq fb 0)) by done.
  do 9 reg_step w init Hw. rewrite !Hio by (unfold windows; set_solver).
  rewrite run_bind.
  destruct (step_ops w init Hw (b_pins b) (st_pins fb b) h4) as (h5 & H5 & R5);
    [by eapply (board_ops_mapped b fb 0 0 0)|].
  change (set_gpg _ _) with (st_pins fb b). rewrite H5. cbv beta iota. clear H5.
  reg_step w init Hw. rewrite Hio by (unfold windows; set_solver). reg_step w init Hw.
  rewrite run_bind.
  destruct (step_ops w init Hw (b_timing b) (st_timing fb b) h6) as (h7 & H7 & R7);
    [by eapply (board_ops_mapped b fb 0 0 0)|].
  change (set_regs _ _) with (st_timing fb b). rewrite H7. cbv beta iota. clear H7.
  reg_step w init Hw. change (info (st_timing fb b)) with (b_info b).
  reg_step w init Hw.
  set (m := w h7 (Dma_alloc_writecombine (smem_len (b_info b)))).
  set (start := u32 (nth 0 (dat m) 0)).
  do 2 reg_step w init Hw.
  change (set_info _ (st_timing fb b)) with (st_window fb start (rv m) b).
  change (smem_start _) with start. change (smem_len (info _)) with (smem_len (b_info b)).
  rewrite run_bind.
  destruct (step_ops w init Hw (b_window b start (smem_len (b_info b))) (st_window fb start (rv m) b) h8)
    as (h9 & H9 & R9); [by eapply board_ops_mapped|].
  rewrite H9. cbv beta iota. clear H9.
  assert (virt 0x4D000000 ≠ 0) as Hl.
  { pose proof windows_nonnull as Hn. unfold windows in Hn. rewrite !Forall_cons in Hn. simpl in Hn. tauto. }
  rewrite run_bind.
  destruct (step_do_op w init Hw (OrIn lcd_regs lcdcon1 (1 <<< 0)) (st_window fb start (rv m) b) h9 Hl)
    as (h10 & H10 & R10). rewrite H10. cbv beta iota. clear H10.
  rewrite run_bind.
  destruct (step_do_op w init Hw (OrIn lcd_regs lcdcon5 (1 <<< 3)) (st_window fb start (rv m) b) h10 Hl)
    as (h11 & H11 & R11). rewrite H11. cbv beta iota. clear H11.
  reg_step w init Hw.
  eexists _, h7, fb. split; [reflexivity|]. split; [done|].
  intros q. rewrite Hreg6, R11, !R10, !R9. cbn [switch_on ops_regs].
  assert (∀ q, ops_regs (b_window b start (smem_len (b_info b))) (st_window fb start (rv m) b) (λ q, reg init q h8) q
    = ops_regs (b_window b start (smem_len (b_info b))) (st_window fb start (rv m) b)
       (ops_regs (b_timing b) (st_timing fb b) (ops_regs (b_pins b) (st_pins fb b) (λ q, reg init q h))) q) as E.
  { intros q'. apply ops_regs_ext. intros q1. rewrite Hreg5, R7. apply ops_regs_ext. intros q2.
    rewrite Hreg4, R5. apply ops_regs_ext. intros q3. by rewrite Hreg3, Hreg2, Hreg1, Hreg0, Hreg. }
  by rewrite !E.
Qed.
End Init.

(** ** What the controller is left with *)

(** BPPMODE of LCDCON1 for a TFT panel, as bytes of buffer per pixel. *)
Definition bppmode_bytes (m : Z) : Z := if m =? 12 then 2 else if m =? 13 then 4 else 0.

(** The timing registers [R] (by offset) drive a TFT panel of the size and pixel width that the
    screen information promises, with the video output and the panel power on. *)
Definition panel_on (i : Lcd.fb_info) (R : Z → Z) : Prop :=
  field (R Lcd.lcdcon1) 0 1 = 1 ∧ field (R Lcd.lcdcon1) 5 2 = 3
  ∧ bppmode_bytes (field (R Lcd.lcdcon1) 1 4) = Lcd.line_length i / Lcd.xres i
  ∧ field (R Lcd.lcdcon2) 14 10 + 1 = Lcd.yres i
  ∧ field (R Lcd.lcdcon3) 8 11 + 1 = Lcd.xres i
  ∧ Lcd.line_length i * Lcd.yres i = Lcd.smem_len i
  ∧ Z.testbit (R Lcd.lcdcon5) 3 = true.

(** The script seen from inside the controller's window: registers by offset. *)
Definition op_off (o : Lcd.regop) : Z :=
  match o with Lcd.Assign _ off _ | Lcd.OrIn _ off _ | Lcd.AndNot _ off _ => off end.
Fixpoint offs_regs (ops : list Lcd.regop) (r : Z → Z) : Z → Z :=
  match ops with
  | [] => r
  | o :: ops => offs_regs ops (λ q, if q =? op_off o then op_value o (r q) else r q)
  end.

Lemma offs_regs_at ops r r' q : r q = r' q → offs_regs ops r q = offs_regs ops r' q.
Proof. revert r r'. induction ops; simpl; intros r r' H; [done|]. apply IHops. by rewrite H. Qed.

Lemma offs_regs_app ops1 ops2 r q : offs_regs (ops1 ++ ops2) r q = offs_regs ops2 (offs_regs ops1 r) q.
Proof. revert r. induction ops1; simpl; auto. Qed.

Lemma ops_regs_inside ops s L R r off :
  Forall (λ o, op_base o s = L) ops → R (L + off) = r off →
  ops_regs ops s R (L + off) = offs_regs ops r off.
Proof.
  intros Hf. revert R r. induction Hf as [|o ops Ho Hf IH]; intros R r HR; simpl; [done|].
  apply IH. rewrite HR.
  assert (op_addr o s = L + op_off o) as -> by (destruct o; simpl in *; by rewrite Ho).
  zcases; done.
Qed.

Lemma ops_regs_outside ops s R q :
  Forall (λ o, op_addr o s ≠ q) ops → ops_regs ops s R q = R q.
Proof.
  intros Hf. revert R. induction Hf as [|o ops Ho Hf IH]; intros R; simpl; [done|].
  rewrite IH. zcases; congruence.
Qed.

Section Panel.
Import Lcd.
Context (w : world) (init virt : Z → Z) (Hw : holds_writes w init) (Hm : io_maps w virt windows).
Context (Hfb : ∀ h, rv (w h Framebuffer_alloc) ≠ 0).

Lemma lcd_window_apart p n off :
  (p, n) ∈ windows → p ≠ 0x4D000000 → 0 < n → 0 <= off < sizeof_lcd_regs →
  virt p + 0 ≠ virt 0x4D000000 + off.
Proof.
  intros Hp Hne Hn Ho.
  destruct (proj2 (proj2 Hm) p n 0x4D000000 sizeof_lcd_regs); try done; try lia.
  unfold windows. set_solver.
Qed.

Lemma board_ops_inside b fb start base off :
  b ∈ boards → 0 <= off < sizeof_lcd_regs →
  Forall (λ o, op_addr o (st_pins virt fb b) ≠ virt 0x4D000000 + off) (b_pins b)
  ∧ Forall (λ o, op_base o (st_timing virt fb b) = virt 0x4D000000) (b_timing b)
  ∧ Forall (λ o, op_base o (st_window virt fb start base b) = virt 0x4D000000)
      (b_window b start (smem_len (b_info b))).
Proof.
  intros Hb Ho.
  pose proof (lcd_window_apart 0x56000020 4 off ltac:(unfold windows; set_solver) ltac:(done) ltac:(done) Ho).
  pose proof (lcd_window_apart 0x56000030 4 off ltac:(unfold windows; set_solver) ltac:(done) ltac:(done) Ho).
  pose proof (lcd_window_apart 0x56000060 4 off ltac:(unfold windows; set_solver) ltac:(done) ltac:(done) Ho).
  unfold boards in Hb. set_unfold in Hb.
  destruct Hb as [->|[->|[->|[->|[->|[]]]]]]; split_and!; by repeat constructor.
Qed.

Lemma ops_miss_gpg ops s :
  Forall (λ o, op_base o s = virt 0x4D000000) ops →
  Forall (λ o, 0 <= op_off o < sizeof_lcd_regs) ops →
  Forall (λ o, op_addr o s ≠ virt 0x56000060) ops.
Proof.
  rewrite !Forall_forall. intros Hb Ho o Hin.
  pose proof (lcd_window_apart 0x56000060 4 (op_off o) ltac:(unfold windows; set_solver)
    ltac:(done) ltac:(done) (Ho o Hin)).
  assert (op_addr o s = op_base o s + op_off o) as -> by (by destruct o).
  rewrite (Hb o Hin). lia.
Qed.

Lemma board_offs b start len :
  b ∈ boards →
  Forall (λ o, 0 <= op_off o < sizeof_lcd_regs) (b_timing b)
  ∧ Forall (λ o, 0 <= op_off o < sizeof_lcd_regs) (b_window b start len).
Proof.
  intros Hb. unfold boards in Hb. set_unfold in Hb.
  destruct Hb as [->|[->|[->|[->|[->|[]]]]]]; split; by repeat constructor.
Qed.

(** The pin scripts add GPG4's two function bits. *)
Lemma pins_gpg b fb R :
  b ∈ boards →
  ops_regs (b_pins b) (st_pins virt fb b) R (virt 0x56000060) = R (virt 0x56000060) ||| 0x300.
Proof.
  intros Hb.
  destruct (proj2 (proj2 Hm) 0x56000020 4 0x56000060 4) as [HC|HC];
    [unfold windows; set_solver..|done| |];
  (destruct (proj2 (proj2 Hm) 0x56000030 4 0x56000060 4) as [HD|HD];
    [unfold windows; set_solver..|done| |];
  unfold boards in Hb; set_unfold in Hb;
  destruct Hb as [->|[->|[->|[->|[->|[]]]]]]; cbn -[Z.eqb Z.lor Z.land Z.add u32]; zcases; done).
Qed.

(** After [lcd_init] the controller's registers are those of the script alone; GPGCON gets pin 4. *)
Lemma lcd_init_regs b h :
  b ∈ boards →
  ∃ s h', run w (lcd_init b) st0 h = (Done 0, s, h')
    ∧ (∃ base, info s = set_mem (smem_start (info s)) base (b_info b))
    ∧ (∃ h0, smem_start (info s) = u32 (nth 0 (dat (w h0 (Dma_alloc_writecombine (smem_len (b_info b))))) 0))
    ∧ (∀ off, 0 <= off < sizeof_lcd_regs →
        reg init (virt 0x4D000000 + off) h' =
          offs_regs (b_timing b ++ b_window b (smem_start (info s)) (smem_len (b_info b)) ++ switch_on)
            (λ o, reg init (virt 0x4D000000 + o) h) off)
    ∧ reg init (virt 0x56000060) h' = reg init (virt 0x56000060) h ||| 0x300
    ∧ lcd_regs s = virt 0x4D000000 ∧ gpgcon s = virt 0x56000060 ∧ s3c_lcd s ≠ 0.
Proof.
  intros Hb. destruct (run_lcd_init w init virt Hw Hm Hfb b h Hb) as (h' & hm & fb & Hr & Hnz & Hq).
  eexists _, h'. split; [exact Hr|]. split; [by eexists|]. split; [by eexists|].
  split; [|split; [|done]].
  - intros off Ho. rewrite Hq. cbn [st_window info set_info set_mem smem_start].
    destruct (board_ops_inside b fb (u32 (nth 0 (dat (w hm (Dma_alloc_writecombine (smem_len (b_info b))))) 0)) (rv (w hm (Dma_alloc_writecombine (smem_len (b_info b))))) off Hb Ho) as (Hp & Ht & Hwin).
    rewrite !offs_regs_app.
    repeat (apply ops_regs_inside; [done || by repeat constructor|]). by apply ops_regs_outside.
  - rewrite Hq.
    destruct (board_ops_inside b fb (u32 (nth 0 (dat (w hm (Dma_alloc_writecombine (smem_len (b_info b))))) 0)) (rv (w hm (Dma_alloc_writecombine (smem_len (b_info b))))) 0 Hb ltac:(done)) as (_ & Ht & Hwin).
    rewrite (ops_regs_outside switch_on), (ops_regs_outside (b_window _ _ _)),
      (ops_regs_outside (b_timing _)); [by apply pins_gpg| | |].
    + apply ops_miss_gpg; [exact Ht|]. by apply (board_offs b 0 0 Hb).
    + apply ops_miss_gpg; [exact Hwin|]. by apply (board_offs b _ _ Hb).
    + apply ops_miss_gpg; by repeat constructor.
Qed.
End Panel.

(** [C37] Whatever the registers held before, each of the five drivers brings the controller up
    for the panel its screen information describes: TFT mode, the resolution in the vertical and
    horizontal timing, as many bytes per pixel as a line has room for, the buffer exactly one
    screen, video output and panel power on; GPG4 gets the LCD_PWREN function and the other pins of
    port G keep theirs. *)
Theorem lcd_init_panel w init virt b h :
  holds_writes w init → io_maps w virt Lcd.windows → (∀ h, rv (w h Framebuffer_alloc) ≠ 0) →
  b ∈ Lcd.boards →
  ∃ s h', run w (Lcd.lcd_init b) Lcd.st0 h = (Done 0, s, h')
    ∧ Lcd.lcd_regs s = virt 0x4D000000
    ∧ panel_on (Lcd.b_info b) (λ off, reg init (Lcd.lcd_regs s + off) h')
    ∧ reg init (Lcd.gpgcon s) h' = reg init (Lcd.gpgcon s) h ||| 0x300.
Proof.
  intros Hw Hm Hfb Hb.
  destruct (lcd_init_regs w init virt Hw Hm Hfb b h Hb) as (s & h' & Hr & Hi & _ & Hq & Hg & HL & HG & _).
  exists s, h'. split; [done|]. split; [done|]. rewrite HG. split; [|done].
  unfold panel_on. rewrite HL, !Hq by done.
  unfold Lcd.boards in Hb. set_unfold in Hb.
  destruct Hb as [->|[->|[->|[->|[->|[]]]]]]; vm_compute; auto 10.
Qed.

Lemma lcd_init_panel_witness :
  let w := mapped_world (λ _, 0) (λ _, 0) [] in
  let virt := λ p, p + 0xa0000000 in
  ∃ s h', run w (Lcd.lcd_init Lcd.board_24bpp) Lcd.st0 [] = (Done 0, s, h')
    ∧ Lcd.lcd_regs s = virt 0x4D000000
    ∧ panel_on (Lcd.b_info Lcd.board_24bpp) (λ off, reg (λ _, 0) (Lcd.lcd_regs s + off) h')
    ∧ reg (λ _, 0) (Lcd.gpgcon s) h' = reg (λ _, 0) (Lcd.gpgcon s) [] ||| 0x300.
Proof.
  intros w virt. apply (lcd_init_panel w (λ _, 0) virt Lcd.board_24bpp []).
  - done.
  - by apply mapped_world_io_maps.
  - intros h. simpl. lia.
  - unfold Lcd.boards. set_solver.
Defined.

(** The bytes a user of the frame buffer device may access: [screen_size], or the whole buffer
    when that is 0. *)
Definition visible_size (i : Lcd.fb_info) : Z :=
  if Lcd.screen_size i =? 0 then Lcd.smem_len i else Lcd.screen_size i.

Lemma saddr1_value start :
  0 <= start < 2 ^ 31 → Z.even start = true → 2 * u32 ((start >>> 1) &&& ~~~ (3 <<< 30)) = start.
Proof.
  intros Hs He. apply Z.even_spec in He as [k ->].
  assert ((2 * k) >>> 1 = k) as -> by (rewrite Z.shiftr_div_pow2 by lia; Z.div_mod_to_equations; lia).
  assert (k &&& ~~~ (3 <<< 30) = k) as ->; [|rewrite u32_small; lia].
  apply Z.bits_inj'. intros i Hi. rewrite Z.land_spec, Z.lnot_spec by done.
  destruct (decide (i < 30)).
  - rewrite Z.shiftl_spec_low by done. apply andb_true_r.
  - by rewrite (testbit_above k 30) by lia.
Qed.

Lemma saddr2_value a : 0 <= a < 2 ^ 32 → u32 ((u32 a >>> 1) &&& 0x1fffff) = (a / 2) mod 2 ^ 21.
Proof.
  intros Ha. rewrite (u32_small a) by done. change 0x1fffff with (Z.ones 21).
  rewrite Z.land_ones, Z.shiftr_div_pow2 by lia. change (2 ^ 1) with 2.
  pose proof (Z.mod_pos_bound (a / 2) (2 ^ 21)). apply u32_small. lia.
Qed.

(** [C39] What the controller scans.  For a buffer at an even physical address that ends below 2^31:
    except in the main file, the window (the first address, and the low 21 bits of the half word
    address of the end, all that LCDSADDR2 holds) is the allocated buffer; the main file's two fixed
    addresses are right exactly when the allocator happens to return the physical address 0x338c0000.  The page width (in half words) is that of a line only in the main
    file.  The wds file (the fifth) lets user space access more bytes than it allocates. *)
Theorem lcd_scans_buffer w init virt n b h :
  holds_writes w init → io_maps w virt Lcd.windows → (∀ h, rv (w h Framebuffer_alloc) ≠ 0) →
  Lcd.boards !! n = Some b →
  ∃ s h', run w (Lcd.lcd_init b) Lcd.st0 h = (Done 0, s, h')
    ∧ let start := Lcd.smem_start (Lcd.info s) in let len := Lcd.smem_len (Lcd.info s) in
      let R off := reg init (Lcd.lcd_regs s + off) h' in
      (0 <= start → start + len < 2 ^ 31 → Z.even start = true →
         (2 * R Lcd.lcdsaddr1 = start ∧ R Lcd.lcdsaddr2 mod 2 ^ 21 = ((start + len) / 2) mod 2 ^ 21
            ↔ (n = 0%nat → start = 0x338c0000))
         ∧ (2 * R Lcd.lcdsaddr1 = start ↔ (n = 0%nat → start = 0x338c0000)))
      ∧ (field (R Lcd.lcdsaddr3) 0 11 = Lcd.line_length (Lcd.info s) / 2 ↔ n = 0%nat)
      ∧ (visible_size (Lcd.info s) <= len ↔ n ≠ 4%nat).
Proof.
  intros Hw Hm Hfb Hn.
  destruct (lcd_init_regs w init virt Hw Hm Hfb b h) as (s & h' & Hr & [base Hi] & _ & Hq & _ & HL & _).
  { by eapply list_elem_of_lookup_2. }
  exists s, h'. split; [done|]. cbv zeta. rewrite HL, !Hq by done. clear Hq Hr.
  rewrite Hi. unfold visible_size. cbn [Lcd.set_mem Lcd.smem_start Lcd.smem_len Lcd.line_length Lcd.screen_size].
  set (start := Lcd.smem_start _). clearbody start.
  destruct n as [|[|[|[|[|n]]]]]; try discriminate Hn; injection Hn as <-;
    cbn [Lcd.board_main Lcd.board_16bpp Lcd.board_24bpp Lcd.board_nice Lcd.board_wds Lcd.b_timing
      Lcd.b_window Lcd.b_info Lcd.window_of_buffer Lcd.window_fixed offs_regs app op_off op_value
      Lcd.switch_on switch_on Lcd.rgb565 Lcd.rgb888 Lcd.smem_len Lcd.line_length Lcd.screen_size];
    cbv [Lcd.lcdcon1 Lcd.lcdcon5 Lcd.lcdsaddr1 Lcd.lcdsaddr2 Lcd.lcdsaddr3 Z.eqb Pos.eqb];
    change (320 * 240 * 16 / 8) with 153600; change (320 * 240 * 32 / 8) with 307200;
    (split; [intros Hs Hl He; rewrite ?saddr1_value, ?saddr2_value by (try done; lia);
      rewrite ?Z.mod_mod by done; split|]).
  1,2: change (u32 432406528) with 432406528; split; [first [intros [<- _] _|intros <- _]; lia|intros H; rewrite H by done; done].
  2,3,5,6,8,9,11,12: done.
  all: vm_compute; split; split; intros; try done; congruence.
Qed.

Lemma lcd_scans_buffer_witness :
  let w := mapped_world (λ _, 0) (λ _, 0) [] in
  let virt := λ p, p + 0xa0000000 in
  ∃ s h', run w (Lcd.lcd_init Lcd.board_wds) Lcd.st0 [] = (Done 0, s, h')
    ∧ let start := Lcd.smem_start (Lcd.info s) in let len := Lcd.smem_len (Lcd.info s) in
      let R off := reg (λ _, 0) (Lcd.lcd_regs s + off) h' in
      (0 <= start → start + len < 2 ^ 31 → Z.even start = true →
         (2 * R Lcd.lcdsaddr1 = start ∧ R Lcd.lcdsaddr2 mod 2 ^ 21 = ((start + len) / 2) mod 2 ^ 21
            ↔ (4%nat = 0%nat → start = 0x338c0000))
         ∧ (2 * R Lcd.lcdsaddr1 = start ↔ (4%nat = 0%nat → start = 0x338c0000)))
      ∧ (field (R Lcd.lcdsaddr3) 0 11 = Lcd.line_length (Lcd.info s) / 2 ↔ 4%nat = 0%nat)
      ∧ (visible_size (Lcd.info s) <= len ↔ 4%nat ≠ 4%nat).
Proof.
  intros w virt. apply (lcd_scans_buffer w (λ _, 0) virt 4 Lcd.board_wds []).
  - done.
  - by apply mapped_world_io_maps.
  - intros h. simpl. lia.
  - done.
Defined.

(** Removing the driver turns the video output off but leaves the panel powered: LCD_PWREN is
    bit 3 of LCDCON5, and [lcd_exit] clears bit 3 of LCDCON1 (part of the pixel format) instead. *)
Theorem lcd_exit_keeps_power w init virt b h :
  holds_writes w init → io_maps w virt Lcd.windows → (∀ h, rv (w h Framebuffer_alloc) ≠ 0) →
  b ∈ Lcd.boards →
  ∃ s h', run w (Lcd.lcd_init b;; Lcd.lcd_exit) Lcd.st0 h = (Done (), s, h')
    ∧ let R off := reg init (Lcd.lcd_regs s + off) h' in
      field (R Lcd.lcdcon1) 0 1 = 0 ∧ Z.testbit (R Lcd.lcdcon1) 3 = false
      ∧ Z.testbit (R Lcd.lcdcon5) 3 = true.
Proof.
  intros Hw Hm Hfb Hb.
  destruct (lcd_init_regs w init virt Hw Hm Hfb b h Hb) as (s & h' & Hr & _ & _ & Hq & _ & HL & _ & Hfb').
  assert (Lcd.lcd_regs s ≠ 0) as HLn.
  { rewrite HL. pose proof (proj1 (proj2 Hm) 0x4D000000 Lcd.sizeof_lcd_regs ltac:(unfold Lcd.windows; set_solver)). lia. }
  rewrite run_bind, Hr. cbv beta iota. unfold Lcd.lcd_exit.
  do 2 reg_step w init Hw. unfold id. rewrite run_bind.
  destruct (step_do_op w init Hw (Lcd.AndNot Lcd.lcd_regs Lcd.lcdcon1 (1 <<< 0)) s h0 HLn)
    as (h2 & H2 & R2). rewrite H2. cbv beta iota. rewrite run_bind.
  destruct (step_do_op w init Hw (Lcd.AndNot Lcd.lcd_regs Lcd.lcdcon1 (1 <<< 3)) s h2 HLn)
    as (h3 & H3 & R3). rewrite H3. cbv beta iota.
  do 8 reg_step w init Hw. eexists s, _. split; [reflexivity|]. cbv zeta.
  assert (∀ off, 0 <= off < Lcd.sizeof_lcd_regs → reg init (Lcd.lcd_regs s + off) h10 =
    offs_regs [Lcd.AndNot Lcd.lcd_regs Lcd.lcdcon1 (1 <<< 0); Lcd.AndNot Lcd.lcd_regs Lcd.lcdcon1 (1 <<< 3)]
      (λ o, offs_regs (Lcd.b_timing b ++ Lcd.b_window b (Lcd.smem_start (Lcd.info s)) (Lcd.smem_len (Lcd.b_info b)) ++ switch_on)
            (λ o, reg init (virt 0x4D000000 + o) h) o) off) as HR.
  { intros off Ho. cbn [offs_regs op_off op_value].
    rewrite <- Hq, <- HL by done.
    reg_chain. cbn [op_addr op_base op_value]. unfold Lcd.lcdcon1. zcases; done. }
  rewrite !HR by done.
  unfold Lcd.boards in Hb. set_unfold in Hb.
  destruct Hb as [->|[->|[->|[->|[->|[]]]]]]; vm_compute; auto.
Qed.

Lemma lcd_exit_keeps_power_witness :
  let w := mapped_world (λ _, 0) (λ _, 0) [] in
  ∃ s h', run w (Lcd.lcd_init Lcd.board_main;; Lcd.lcd_exit) Lcd.st0 [] = (Done (), s, h')
    ∧ let R off := reg (λ _, 0) (Lcd.lcd_regs s + off) h' in
      field (R Lcd.lcdcon1) 0 1 = 0 ∧ Z.testbit (R Lcd.lcdcon1) 3 = false
      ∧ Z.testbit (R Lcd.lcdcon5) 3 = true.
Proof.
  intros w. apply (lcd_exit_keeps_power w (λ _, 0) (λ p, p + 0xa0000000) Lcd.board_main []).
  - done.
  - by apply mapped_world_io_maps.
  - intros h. simpl. lia.
  - unfold Lcd.boards. set_solver.
Defined.

(** ** Colours *)

(** A value [v] of [n] bits placed at bit [o]. *)
Lemma placed_range v o n : 0 <= v < 2 ^ n → 0 <= n → 0 <= o → o + n <= 32 → 0 <= v <<< o < 2 ^ 32.
Proof.
  intros Hv Hn Ho Hs. rewrite Z.shiftl_mul_pow2 by done. split; [lia|].
  apply Z.lt_le_trans with (2 ^ n * 2 ^ o); [apply Z.mul_lt_mono_pos_r; lia|].
  rewrite <- Z.pow_add_r by done. apply Z.pow_le_mono_r; lia.
Qed.

Lemma field_lor a b lo n : field (a ||| b) lo n = field a lo n ||| field b lo n.
Proof. unfold field. by rewrite Z.shiftr_lor, Z.land_lor_distr_l. Qed.

Lemma field_own v o n :
  0 <= v < 2 ^ n → 0 <= n → 0 <= o → o + n <= 32 → field (u32 (v <<< o)) o n = v.
Proof.
  intros Hv Hn Ho Hs. rewrite u32_small by (by eapply placed_range). unfold field.
  rewrite Z.shiftr_shiftl_l, Z.sub_diag, Z.shiftl_0_r, Z.land_ones by lia. by apply Z.mod_small.
Qed.

Lemma field_other v o n o' n' :
  0 <= v < 2 ^ n → 0 <= n → 0 <= o → o + n <= 32 → 0 <= o' → 0 <= n' →
  (o + n <= o' ∨ o' + n' <= o) → field (u32 (v <<< o)) o' n' = 0.
Proof.
  intros Hv Hn Ho Hs Ho' Hn' Hd. rewrite u32_small by (by eapply placed_range). unfold field.
  apply Z.bits_inj'. intros i Hi. rewrite Z.land_spec, Z.shiftr_spec, Z.shiftl_spec, Z.testbit_0_l by lia.
  destruct (decide (i < n')); [|rewrite Z.ones_spec_high by lia; apply andb_false_r].
  destruct Hd; [by rewrite (testbit_above v n) by lia|by rewrite Z.testbit_neg_r by lia].
Qed.

(** The layout of a pixel: three fields inside a word that do not overlap. *)
Definition layout_ok (i : Lcd.fb_info) : Prop :=
  let ok f := 0 <= Lcd.length f <= 16 ∧ 0 <= Lcd.offset f ∧ Lcd.offset f + Lcd.length f <= 32 in
  let apart f g := Lcd.offset f + Lcd.length f <= Lcd.offset g ∨ Lcd.offset g + Lcd.length g <= Lcd.offset f in
  ok (Lcd.red i) ∧ ok (Lcd.green i) ∧ ok (Lcd.blue i)
  ∧ apart (Lcd.red i) (Lcd.green i) ∧ apart (Lcd.red i) (Lcd.blue i) ∧ apart (Lcd.green i) (Lcd.blue i).

(** The channel a field keeps: the most significant [length] bits of a 16-bit intensity. *)
Definition top_bits (c : Z) (f : Lcd.fb_bitfield) : Z := (c mod 2 ^ 16) / 2 ^ (16 - Lcd.length f).

Lemma chan_to_field_top c f :
  0 <= Lcd.length f <= 16 →
  Lcd.chan_to_field c f = u32 (top_bits c f <<< Lcd.offset f) ∧ 0 <= top_bits c f < 2 ^ Lcd.length f.
Proof.
  intros Hl. unfold Lcd.chan_to_field, top_bits. change 0xffff with (Z.ones 16).
  rewrite Z.land_ones, Z.shiftr_div_pow2 by lia. split; [done|].
  pose proof (Z.mod_pos_bound c (2 ^ 16)) as Hm.
  split; [apply Z.div_pos; lia|]. apply Z.div_lt_upper_bound; [lia|].
  rewrite <- Z.pow_add_r by lia. replace (16 - Lcd.length f + Lcd.length f) with 16 by lia. lia.
Qed.

(** Setting a palette entry.  A number above 16 is refused with 1 and changes nothing; 0..15
    stores a pixel from which each channel's most significant bits can be read back, and touches no
    other entry; 16 passes the test and stores past the end of the array. *)
Theorem lcd_setcolreg_pixel w regno r g b t s h :
  let i := Lcd.info s in
  layout_ok i → length (Lcd.pseudo_palette s) = 16%nat → 0 <= regno →
  let p := Lcd.s3c_lcdfb_setcolreg regno r g b t in
  (16 < regno → run w p s h = (Done 1, s, h))
  ∧ (regno = 16 → run w p s h = (Crashed, s, h))
  ∧ (regno < 16 → ∃ val,
       run w p s h = (Done 0, Lcd.set_palette (<[Z.to_nat regno := val]> (Lcd.pseudo_palette s)) s, h)
       ∧ field val (Lcd.offset (Lcd.red i)) (Lcd.length (Lcd.red i)) = top_bits r (Lcd.red i)
       ∧ field val (Lcd.offset (Lcd.green i)) (Lcd.length (Lcd.green i)) = top_bits g (Lcd.green i)
       ∧ field val (Lcd.offset (Lcd.blue i)) (Lcd.length (Lcd.blue i)) = top_bits b (Lcd.blue i)).
Proof.
  intros i (Hr & Hg & Hb & Hrg & Hrb & Hgb) Hlen Hreg p. unfold p, Lcd.s3c_lcdfb_setcolreg.
  split_and!; intros Hc; zcases; cbn -[Z.of_nat Z.lor insert Lcd.chan_to_field]; fold i.
  - done.
  - rewrite Hlen. by subst regno.
  - rewrite Hlen. destruct (Z.leb_spec (Z.of_nat 16) regno) as [?|_]; [lia|].
    cbn -[Z.lor insert Lcd.chan_to_field]; fold i. eexists. split; [reflexivity|].
    destruct (chan_to_field_top r (Lcd.red i)) as [-> HR]; [lia|].
    destruct (chan_to_field_top g (Lcd.green i)) as [-> HG]; [lia|].
    destruct (chan_to_field_top b (Lcd.blue i)) as [-> HB]; [lia|].
    rewrite !field_lor.
    repeat first [rewrite field_own by lia | erewrite field_other by first [exact HR|exact HG|exact HB|lia]].
    by rewrite ?Z.lor_0_r.
Qed.

Lemma lcd_setcolreg_pixel_witness :
  let s := Lcd.set_info (Lcd.b_info Lcd.board_main) Lcd.st0 in
  let p := Lcd.s3c_lcdfb_setcolreg 3 0xffff 0x8000 0x1234 0 in
  let i := Lcd.info s in
  ∃ val,
    run (λ _ _, Ans 0 []) p s [] = (Done 0, Lcd.set_palette (<[3%nat := val]> (Lcd.pseudo_palette s)) s, [])
    ∧ field val (Lcd.offset (Lcd.red i)) (Lcd.length (Lcd.red i)) = top_bits 0xffff (Lcd.red i)
    ∧ field val (Lcd.offset (Lcd.green i)) (Lcd.length (Lcd.green i)) = top_bits 0x8000 (Lcd.green i)
    ∧ field val (Lcd.offset (Lcd.blue i)) (Lcd.length (Lcd.blue i)) = top_bits 0x1234 (Lcd.blue i).
Proof.
  intros s p i.
  destruct (lcd_setcolreg_pixel (λ _ _, Ans 0 []) 3 0xffff 0x8000 0x1234 0 s []) as (_ & _ & H).
  - unfold layout_ok. vm_compute. intuition (congruence || auto).
  - done.
  - done.
  - apply H. done.
Defined.
