(* ===== verification/TouchDrv.v ===== *)
(** * TouchDrv: the touch screen driver (11th_ts/s3c_ts.c)

    Three handlers share the static variables: the pen interrupt, the ADC interrupt and a timer.
    Each runs to completion, so a history of the driver is a sequence of handler runs; what the ADC
    answers during one run is part of the event. *)

From S2P Require Import Prelude Kernel.

Module S3cTs.
(** Values of linux/input.h and of the S3C2440 headers. *)
Definition EV_KEY := 0x01.
Definition EV_ABS := 0x03.
Definition ABS_X := 0x00.
Definition ABS_Y := 0x01.
Definition ABS_PRESSURE := 0x18.
Definition BTN_TOUCH := 0x14a.
Definition IRQ_TC := 79.
Definition IRQ_ADC := 80.

(** Byte offsets in [struct s3c_ts_regs]. *)
Definition adccon := 0.
Definition adctsc := 4.
Definition adcdly := 8.
Definition adcdat0 := 12.
Definition adcdat1 := 16.
Definition adcupdn := 20.
Definition sizeof_ts_regs := 24.

(** The static variables of the file, with those of [adc_irq]. *)
Record st := St { s3c_ts_input_dev : Z; s3c_ts_regs : Z; cnt : Z; x : list Z; y : list Z }.
Definition st0 : st := St 0 0 0 [0; 0; 0; 0] [0; 0; 0; 0].
Definition set_dev d s := St d (s3c_ts_regs s) (cnt s) (x s) (y s).
Definition set_regs r s := St (s3c_ts_input_dev s) r (cnt s) (x s) (y s).
Definition set_cnt c s := St (s3c_ts_input_dev s) (s3c_ts_regs s) c (x s) (y s).
Definition set_xy a b s := St (s3c_ts_input_dev s) (s3c_ts_regs s) (cnt s) a b.

Section Driver.
Context (HZ : Z).

Definition enter_wait_pen_down_mode : prog st unit :=
  r ← load s3c_ts_regs; writef r adctsc 0xd3.
Definition enter_wait_pen_up_mode : prog st unit :=
  r ← load s3c_ts_regs; writef r adctsc 0x1d3.
Definition enter_masure_xy_mode : prog st unit :=
  r ← load s3c_ts_regs; writef r adctsc (1 <<< 2).
Definition start_adc_mode : prog st unit :=
  r ← load s3c_ts_regs; v ← readf r adccon; writef r adccon (v ||| 1 <<< 0).

Definition input_report_abs (code value : Z) : prog st unit :=
  d ← load s3c_ts_input_dev; call_ (Input_event d EV_ABS code value).
Definition input_report_key (code value : Z) : prog st unit :=
  d ← load s3c_ts_input_dev; call_ (Input_event d EV_KEY code (c_bool (truthy value))).
Definition input_sync : prog st unit :=
  d ← load s3c_ts_input_dev; call_ (Input_sync d).

(** [s3c_ts_regs->field] *)
Definition ts_read (field : Z) : prog st Z := r ← load s3c_ts_regs; readf r field.

Definition s3c_ts_timer_function : prog st unit :=
  d0 ← ts_read adcdat0;
  if truthy (d0 &&& (1 <<< 15))
  then
    input_report_abs ABS_PRESSURE 0;;
    input_report_key BTN_TOUCH 0;;
    input_sync;;
    enter_wait_pen_down_mode
  else
    enter_masure_xy_mode;;
    start_adc_mode.

Definition pen_down_up_irq : prog st Z :=
  d0 ← ts_read adcdat0;
  (if truthy (d0 &&& (1 <<< 15))
   then
     input_report_abs ABS_PRESSURE 0;;
     input_report_key BTN_TOUCH 0;;
     input_sync;;
     enter_wait_pen_down_mode
   else
     enter_masure_xy_mode;;
     start_adc_mode);;
  mret 1.

(** [a[i] = v] on a static array; a store outside it is a fault. *)
Definition array_set (a : list Z) (i v : Z) : option (list Z) :=
  if (0 <=? i) && (i <? Z.of_nat (length a)) then Some (<[Z.to_nat i := v]> a) else None.

(** [(a[0]+a[1]+a[2]+a[3])/4] on [unsigned long]. *)
Definition avg4 (a : list Z) : Z :=
  u32 (nth 0 a 0 + nth 1 a 0 + nth 2 a 0 + nth 3 a 0) / 4.

Definition adc_irq : prog st Z :=
  dat0 ← ts_read adcdat0;
  dat1 ← ts_read adcdat1;
  d0 ← ts_read adcdat0;
  (if truthy (d0 &&& (1 <<< 15))
   then
     store (set_cnt 0);;
     input_report_abs ABS_PRESSURE 0;;
     input_report_key BTN_TOUCH 0;;
     input_sync;;
     enter_wait_pen_down_mode
   else
     s ← load id;
     match array_set (x s) (cnt s) (dat0 &&& 0x3ff), array_set (y s) (cnt s) (dat1 &&& 0x3ff) with
     | Some x', Some y' =>
         store (set_xy x' y');;
         store (set_cnt (cnt s + 1));;
         if cnt s + 1 =? 4
         then
           input_report_abs ABS_X (avg4 x');;
           input_report_abs ABS_Y (avg4 y');;
           input_report_abs ABS_PRESSURE 1;;
           input_report_key BTN_TOUCH 1;;
           input_sync;;
           store (set_cnt 0);;
           enter_wait_pen_up_mode;;
           j ← call Jiffies;
           call_ (Mod_timer "ts_timer" (u32 (j + HZ / 100)))
         else
           enter_masure_xy_mode;;
           start_adc_mode
     | _, _ => Oops
     end);;
  mret 1.

Definition s3c_ts_init : prog st Z :=
  d ← call Input_allocate_device;
  store (set_dev d);;
  if d =? 0 then call_ (Printk "Unable to allocate the input device !!\n" []);; mret (- ENOMEM)
  else
    call_ (Set_bit EV_KEY "evbit" d);;
    call_ (Set_bit EV_ABS "evbit" d);;
    call_ (Set_bit BTN_TOUCH "keybit" d);;
    call_ (Input_set_abs_params d ABS_X 0 0x3FF);;
    call_ (Input_set_abs_params d ABS_Y 0 0x3FF);;
    call_ (Input_set_abs_params d ABS_PRESSURE 0 1);;
    call_ (Input_register_device d);;
    clk ← call (Clk_get "adc");
    if is_err clk then mret (ptr_err clk)
    else
      call_ (Clk_enable clk);;
      r ← call (Ioremap 0x58000000 sizeof_ts_regs);
      store (set_regs r);;
      if r =? 0 then call_ (Printk " unable to remap memory\n" []);; mret (- EAGAIN)
      else
        writef r adccon (1 <<< 14 ||| 49 <<< 6 ||| 0 <<< 0);;
        e ← call (Request_irq IRQ_TC "pen_down_up_irq" "IRQF_SAMPLE_RANDOM" "ts_pen" 0);
        if truthy e then call_ (Printk "request_irq error\n" []);; mret (- EAGAIN)
        else
          e ← call (Request_irq IRQ_ADC "adc_irq" "IRQF_SAMPLE_RANDOM" "adc" 0);
          if truthy e then call_ (Printk "request_irq error\n" []);; mret (- EAGAIN)
          else
            writef r adcdly 0xffff;;
            call_ (Init_timer "ts_timer");;
            call_ (Add_timer "ts_timer");;
            enter_wait_pen_down_mode;;
            mret 0.

Definition s3c_ts_exit : prog st unit :=
  s ← load id;
  call_ (Free_irq IRQ_TC 0);;
  call_ (Free_irq IRQ_ADC 0);;
  call_ (Iounmap (s3c_ts_regs s));;
  call_ (Input_unregister_device (s3c_ts_input_dev s));;
  call_ (Input_free_device (s3c_ts_input_dev s));;
  call_ (Del_timer "ts_timer").
End Driver.
End S3cTs.

(** ** Sequences of handler runs *)

(** [Pen d]: IRQ_TC, [Timer d]: ts_timer, with ADCDAT0 reading [d].  [Adc d0 d1 d0']: IRQ_ADC, with
    [d0], [d1] the conversion that is read first and [d0'] the second reading of ADCDAT0. *)
Inductive ts_event :=
| Pen (d0 : Z)
| Timer (d0 : Z)
| Adc (d0 d1 d0' : Z).

(** The registers at [base] during one run: the second read of ADCDAT0 follows that of ADCDAT1. *)
Definition adc_world (base d0 d1 d0' : Z) : world := λ h c,
  match c with
  | Readl p =>
      let off := p - base in
      if off =? S3cTs.adcdat0
      then match h with [] => Ans d0 [] | _ => Ans d0' [] end
      else if off =? S3cTs.adcdat1 then Ans d1 [] else Ans 0 []
  | _ => Ans 0 []
  end.

(** One event: the handler's run with its own history. *)
Definition handle (HZ : Z) (ev : ts_event) (s : S3cTs.st) : option (S3cTs.st * trace) :=
  let base := S3cTs.s3c_ts_regs s in
  match ev with
  | Pen d => match run (adc_world base d 0 0) S3cTs.pen_down_up_irq s [] with
             | (Done _, s', h') => Some (s', h') | _ => None end
  | Timer d => match run (adc_world base d 0 0) S3cTs.s3c_ts_timer_function s [] with
               | (Done _, s', h') => Some (s', h') | _ => None end
  | Adc d0 d1 d0' => match run (adc_world base d0 d1 d0') (S3cTs.adc_irq HZ) s [] with
                     | (Done _, s', h') => Some (s', h') | _ => None end
  end.

Fixpoint play (HZ : Z) (evs : list ts_event) (s : S3cTs.st) : option (S3cTs.st * trace) :=
  match evs with
  | [] => Some (s, [])
  | ev :: evs =>
      '(s, h) ← handle HZ ev s;
      '(s', h') ← play HZ evs s;
      Some (s', h' ++ h)
  end.

(** What a history reports to the input core, oldest first; a synchronisation is event (0, 0, 0). *)
Definition input_event : Type := Z * Z * Z.
Definition report_of (c : kcall) : option input_event :=
  match c with
  | Input_event _ t c v => Some (t, c, v)
  | Input_sync _ => Some (0, 0, 0)
  | _ => None
  end.
Definition reported (h : trace) : list input_event := reverse (omap (λ e, report_of e.1) h).

(** ** The specification

    The driver promises complete frames: a press with a position, or a release. *)
Inductive frame := Press (px py : Z) | Release.
Definition frame_events (f : frame) : list input_event :=
  match f with
  | Press px py => [(3, 0, px); (3, 1, py); (3, 0x18, 1); (1, 0x14a, 1); (0, 0, 0)]
  | Release => [(3, 0x18, 0); (1, 0x14a, 0); (0, 0, 0)]
  end.

(** What the controller waits for. *)
Inductive mode := WaitDown | WaitUp | MeasureXY.
Definition tsc_mode (v : Z) : option mode :=
  if v =? 0xd3 then Some WaitDown else if v =? 0x1d3 then Some WaitUp
  else if v =? 4 then Some MeasureXY else None.

Definition pen_up (d : Z) : bool := Z.testbit d 15.
Definition mean (l : list Z) : Z := foldr Z.add 0 l / 4.

(** The samples of the measurement under way, and one event: the new samples, the frames reported,
    the mode the controller is put in. *)
Definition spec_step (ev : ts_event) (l : list (Z * Z)) : list (Z * Z) * list frame * mode :=
  match ev with
  | Pen d | Timer d => if pen_up d then (l, [Release], WaitDown) else (l, [], MeasureXY)
  | Adc d0 d1 d0' =>
      if pen_up d0' then ([], [Release], WaitDown)
      else
        let l' := l ++ [(d0 mod 1024, d1 mod 1024)] in
        if (length l' =? 4)%nat then ([], [Press (mean l'.*1) (mean l'.*2)], WaitUp)
        else (l', [], MeasureXY)
  end.

Fixpoint spec_play (evs : list ts_event) (l : list (Z * Z)) : list (Z * Z) * list frame :=
  match evs with
  | [] => (l, [])
  | ev :: evs =>
      let '(l1, fs, _) := spec_step ev l in
      let '(l2, fs') := spec_play evs l1 in
      (l2, fs ++ fs')
  end.

(** The static variables represent the samples. *)
Definition represents (s : S3cTs.st) (l : list (Z * Z)) : Prop :=
  S3cTs.s3c_ts_regs s ≠ 0 ∧ S3cTs.cnt s = Z.of_nat (length l) ∧ (length l < 4)%nat
  ∧ length (S3cTs.x s) = 4%nat ∧ length (S3cTs.y s) = 4%nat
  ∧ take (length l) (S3cTs.x s) = l.*1 ∧ take (length l) (S3cTs.y s) = l.*2
  ∧ Forall (λ p, 0 <= p.1 < 1024 ∧ 0 <= p.2 < 1024) l.

Section Handlers.
Import S3cTs.

Lemma run_ts_read base d0 d1 d0' off s h :
  s3c_ts_regs s = base → base ≠ 0 →
  run (adc_world base d0 d1 d0') (ts_read off) s h =
    (Done (u32 (rv (adc_world base d0 d1 d0' h (Readl (base + off))))), s,
     (Readl (base + off), adc_world base d0 d1 d0' h (Readl (base + off))) :: h).
Proof.
  intros Hs Hb. unfold ts_read, readf. rewrite run_bind. cbn [run load]. rewrite Hs.
  by rewrite (proj2 (Z.eqb_neq base 0)).
Qed.

Lemma adc_world_dat0 base d0 d1 d0' h :
  rv (adc_world base d0 d1 d0' h (Readl (base + adcdat0))) = match h with [] => d0 | _ => d0' end.
Proof. unfold adc_world. rewrite Z.add_simpl_l. by destruct h. Qed.
Lemma adc_world_dat1 base d0 d1 d0' h :
  rv (adc_world base d0 d1 d0' h (Readl (base + adcdat1))) = d1.
Proof. unfold adc_world. by rewrite Z.add_simpl_l. Qed.
Lemma adc_world_con base d0 d1 d0' h :
  rv (adc_world base d0 d1 d0' h (Readl (base + adccon))) = 0.
Proof. unfold adc_world. by rewrite Z.add_simpl_l. Qed.

(** The two ends of every handler. *)
Definition release_prog : prog st unit :=
  input_report_abs ABS_PRESSURE 0;; input_report_key BTN_TOUCH 0;; input_sync;; enter_wait_pen_down_mode.
Definition measure_prog : prog st unit := enter_masure_xy_mode;; start_adc_mode.

(** A run that returns, adds the reports [fs] and leaves ADCTSC in mode [m]. *)
Definition tail_ok (w : world) (p : prog st unit) (s s' : st) (h : trace) (fs : list frame) (m : mode) : Prop :=
  ∃ h', run w p s h = (Done (), s', h') ∧ reported h' = reported h ++ concat (frame_events <$> fs)
    ∧ ∃ v, last_write (s3c_ts_regs s' + adctsc) h' = Some v ∧ tsc_mode v = Some m.

(** Writes to another register of the structure do not change the latest one of ADCTSC. *)
Lemma last_write_con b v a h :
  last_write (b + adctsc) ((Writel (b + adccon) v, a) :: h) = last_write (b + adctsc) h.
Proof. cbn [last_write]. by rewrite (proj2 (Z.eqb_neq (b + adccon) (b + adctsc))) by (unfold adccon, adctsc; lia). Qed.
Lemma last_write_tsc b v a h : last_write (b + adctsc) ((Writel (b + adctsc) v, a) :: h) = Some v.
Proof. cbn [last_write]. by rewrite Z.eqb_refl. Qed.

Lemma last_write_readl b p a h : last_write b ((Readl p, a) :: h) = last_write b h.
Proof. done. Qed.

Lemma reported_cons e h : reported (e :: h) = reported h ++ match report_of e.1 with Some r => [r] | None => [] end.
Proof. unfold reported. simpl. destruct (report_of e.1); [apply reverse_cons|by rewrite app_nil_r]. Qed.

Lemma release_run w s h : s3c_ts_regs s ≠ 0 → tail_ok w release_prog s s h [Release] WaitDown.
Proof.
  intros Hb. unfold tail_ok, release_prog, enter_wait_pen_down_mode, input_report_abs, input_report_key,
    input_sync, writef.
  cbn -[reported Z.add last_write u32]. rewrite (proj2 (Z.eqb_neq _ 0)) by done. cbn -[reported Z.add last_write u32].
  eexists. split; [reflexivity|]. split.
  - rewrite !reported_cons. cbn -[reported]. by rewrite <- !app_assoc, app_nil_r.
  - rewrite last_write_tsc. by eexists.
Qed.

Lemma measure_run w s h : s3c_ts_regs s ≠ 0 → tail_ok w measure_prog s s h [] MeasureXY.
Proof.
  intros Hb. unfold tail_ok, measure_prog, enter_masure_xy_mode, start_adc_mode, writef, readf.
  cbn -[reported Z.add last_write u32]. rewrite (proj2 (Z.eqb_neq _ 0)) by done. cbn -[reported Z.add last_write u32].
  do 2 (rewrite ?(proj2 (Z.eqb_neq (s3c_ts_regs s) 0)) by done; cbn -[reported Z.add last_write u32]).
  eexists. split; [reflexivity|]. split.
  - rewrite !reported_cons. cbn -[reported]. by rewrite !app_nil_r.
  - rewrite last_write_con, last_write_readl, last_write_tsc. by eexists.
Qed.

(** Four values below 1024 do not overflow, and their average is below 1024. *)
Lemma avg4_mean l : length l = 4%nat → Forall (λ v, 0 <= v < 1024) l → avg4 l = mean l ∧ 0 <= mean l < 1024.
Proof.
  intros Hl Hf. destruct l as [|a [|b [|c [|d [|]]]]]; try done.
  rewrite !Forall_cons in Hf. destruct Hf as (? & ? & ? & ? & _).
  unfold avg4, mean. cbn [nth foldr]. rewrite u32_small by lia.
  replace (a + b + c + d) with (a + (b + (c + (d + 0)))) by lia. split; [done|].
  Z.div_mod_to_equations. lia.
Qed.

Lemma array_set_push l a v :
  (length l < 4)%nat → length a = 4%nat → take (length l) a = l →
  ∃ a', array_set a (Z.of_nat (length l)) v = Some a' ∧ length a' = 4%nat
    ∧ take (length (l ++ [v])) a' = l ++ [v].
Proof.
  intros Hl Ha Ht. unfold array_set.
  destruct (Z.leb_spec 0 (Z.of_nat (length l))) as [_|?]; [|lia].
  destruct (Z.ltb_spec (Z.of_nat (length l)) (Z.of_nat (length a))) as [_|?]; [|lia].
  eexists. split; [reflexivity|]. rewrite length_insert, Nat2Z.id. split; [done|].
  rewrite length_app. simpl. rewrite Nat.add_1_r.
  rewrite (take_S_r _ _ v) by (apply list_lookup_insert_eq; lia).
  by rewrite take_insert_ge, Ht by lia.
Qed.

(** The branch of [adc_irq] that takes a sample. *)
Definition adc_sample (HZ dat0 dat1 : Z) : prog st unit :=
  s ← load id;
  match array_set (x s) (cnt s) (dat0 &&& 0x3ff), array_set (y s) (cnt s) (dat1 &&& 0x3ff) with
  | Some x', Some y' =>
      store (set_xy x' y');;
      store (set_cnt (cnt s + 1));;
      if cnt s + 1 =? 4
      then
        input_report_abs ABS_X (avg4 x');;
        input_report_abs ABS_Y (avg4 y');;
        input_report_abs ABS_PRESSURE 1;;
        input_report_key BTN_TOUCH 1;;
        input_sync;;
        store (set_cnt 0);;
        enter_wait_pen_up_mode;;
        j ← call Jiffies;
        call_ (Mod_timer "ts_timer" (u32 (j + HZ / 100)))
      else measure_prog
  | _, _ => Oops
  end.

Lemma adc_sample_run HZ w dat0 dat1 s l h :
  represents s l →
  ∃ s', represents s' (spec_step (Adc dat0 dat1 0) l).1.1
    ∧ tail_ok w (adc_sample HZ dat0 dat1) s s' h (spec_step (Adc dat0 dat1 0) l).1.2 (spec_step (Adc dat0 dat1 0) l).2.
Proof.
  intros (Hb & Hc & Hl & Hx & Hy & Htx & Hty & Hf).
  pose proof (Z.mod_pos_bound dat0 1024 ltac:(lia)) as Hm0.
  pose proof (Z.mod_pos_bound dat1 1024 ltac:(lia)) as Hm1.
  destruct (array_set_push l.*1 (x s) (dat0 mod 1024)) as (x' & Ex & Lx & Tx); rewrite ?length_fmap; try done.
  destruct (array_set_push l.*2 (y s) (dat1 mod 1024)) as (y' & Ey & Ly & Ty); rewrite ?length_fmap; try done.
  rewrite length_fmap, <- Hc in Ex, Ey.
  assert (Forall (λ p, 0 <= p.1 < 1024 ∧ 0 <= p.2 < 1024) (l ++ [(dat0 mod 1024, dat1 mod 1024)])) as Hf'
    by (apply Forall_app; repeat constructor; simpl; done || lia).
  cbn [spec_step]. change (pen_up 0) with false. cbv iota zeta.
  unfold tail_ok, adc_sample. rewrite run_bind. cbn [run load]. unfold id.
  change 0x3ff with (Z.ones 10). rewrite !Z.land_ones by lia. change (2 ^ 10) with 1024.
  rewrite Ex, Ey. rewrite length_app. cbn [length].
  destruct (Nat.eqb_spec (length l + 1) 4) as [H4|H4].
  - rewrite take_ge in Tx, Ty by (rewrite length_app, length_fmap; simpl; lia).
    assert (Forall (λ v, 0 <= v < 1024) x') as Bx
      by (rewrite Tx; apply Forall_app; split; [rewrite Forall_fmap; eapply Forall_impl; [exact Hf|]; simpl; tauto|by constructor]).
    assert (Forall (λ v, 0 <= v < 1024) y') as By
      by (rewrite Ty; apply Forall_app; split; [rewrite Forall_fmap; eapply Forall_impl; [exact Hf|]; simpl; tauto|by constructor]).
    rewrite (proj2 (Z.eqb_eq (cnt s + 1) 4)) by lia.
    exists (set_cnt 0 (set_xy x' y' s)). split; [split_and!; simpl; done || lia|].
    unfold input_report_abs, input_report_key, input_sync, enter_wait_pen_up_mode, writef.
    cbn -[reported Z.add last_write u32 Z.div avg4]. rewrite (proj2 (Z.eqb_neq _ 0)) by done.
    cbn -[reported Z.add last_write u32 Z.div avg4]. eexists. split; [reflexivity|]. split.
    + rewrite !reported_cons. cbn -[reported avg4 mean fmap].
      rewrite (proj1 (avg4_mean x' ltac:(done) ltac:(done))), (proj1 (avg4_mean y' ltac:(done) ltac:(done))).
      rewrite !fmap_app. cbn [fmap list_fmap fst snd]. rewrite Tx, Ty, <- !app_assoc. done.
    + cbn [last_write]. rewrite Z.eqb_refl. by eexists.
  - rewrite (proj2 (Z.eqb_neq (cnt s + 1) 4)) by lia. rewrite !run_bind, !run_store. cbv beta iota.
    rewrite run_bind, run_store. cbv beta iota.
    exists (set_cnt (cnt s + 1) (set_xy x' y' s)). split.
    + split_and!; simpl; try done.
      * rewrite length_app. simpl. lia.
      * rewrite length_app. simpl. lia.
      * rewrite fmap_app. rewrite length_app, length_fmap in Tx. by rewrite length_app.
      * rewrite fmap_app. rewrite length_app, length_fmap in Ty. by rewrite length_app.
    + by apply measure_run.
Qed.

Lemma represents_set_cnt s l : represents s l → represents (set_cnt 0 s) [].
Proof. intros (Hb & Hc & Hl & Hx & Hy & _). split_and!; simpl; done || lia. Qed.

(** Reading the registers at the start of a run reports nothing and leaves ADCTSC alone. *)
Lemma tail_ok_done w (p : prog st unit) s s' h fs m :
  tail_ok w p s s' h fs m → reported h = [] →
  ∃ h', run w p s h = (Done (), s', h') ∧ reported h' = concat (frame_events <$> fs)
    ∧ ∃ v, last_write (s3c_ts_regs s' + adctsc) h' = Some v ∧ tsc_mode v = Some m.
Proof. intros (h' & Hr & Hrep & Hm) H0. exists h'. by rewrite Hrep, H0. Qed.

(** The common body of the pen interrupt and the timer. *)
Definition pen_body (up : bool) : prog st unit := if up then release_prog else measure_prog.

Lemma pen_body_run w d s l h :
  represents s l → reported h = [] →
  ∃ h', run w (pen_body (pen_up d)) s h = (Done (), s, h')
    ∧ represents s (spec_step (Pen d) l).1.1
    ∧ reported h' = concat (frame_events <$> (spec_step (Pen d) l).1.2)
    ∧ ∃ v, last_write (s3c_ts_regs s + adctsc) h' = Some v ∧ tsc_mode v = Some (spec_step (Pen d) l).2.
Proof.
  intros Hrep H0. pose proof (proj1 Hrep) as Hb. unfold pen_body, spec_step.
  destruct (pen_up d).
  - destruct (tail_ok_done w _ s s h _ _ (release_run w s h Hb) H0) as (h' & ? & ? & ?). by exists h'.
  - destruct (tail_ok_done w _ s s h _ _ (measure_run w s h Hb) H0) as (h' & ? & ? & ?). by exists h'.
Qed.

(** One handler run implements one step of the specification. *)
Lemma handle_spec HZ ev s l :
  represents s l →
  ∃ s' h', handle HZ ev s = Some (s', h')
    ∧ represents s' (spec_step ev l).1.1
    ∧ reported h' = concat (frame_events <$> (spec_step ev l).1.2)
    ∧ ∃ v, last_write (s3c_ts_regs s' + adctsc) h' = Some v ∧ tsc_mode v = Some (spec_step ev l).2.
Proof.
  intros Hrep. pose proof (proj1 Hrep) as Hb.
  assert (∀ d, truthy (u32 d &&& 1 <<< 15) = pen_up d) as Hup.
  { intros d. rewrite truthy_land_bit by lia. unfold pen_up. by rewrite testbit_u32. }
  destruct ev as [d|d|d0 d1 d0']; unfold handle.
  - unfold pen_down_up_irq. rewrite run_bind, run_ts_read, adc_world_dat0 by done. cbv iota beta.
    rewrite Hup, run_bind. change (if pen_up d then _ else _) with (pen_body (pen_up d)).
    match goal with |- context [run ?w (pen_body _) s ?h] =>
      destruct (pen_body_run w d s l h) as (h' & -> & H1 & H2 & H3); [done|done|] end.
    exists s, h'. by split_and!.
  - unfold s3c_ts_timer_function. rewrite run_bind, run_ts_read, adc_world_dat0 by done. cbv iota beta.
    rewrite Hup. change (if pen_up d then _ else _) with (pen_body (pen_up d)).
    match goal with |- context [run ?w (pen_body _) s ?h] =>
      destruct (pen_body_run w d s l h) as (h' & -> & H1 & H2 & H3); [done|done|] end.
    exists s, h'. by split_and!.
  - unfold adc_irq. do 3 (rewrite run_bind, run_ts_read by done; cbv iota beta).
    rewrite adc_world_dat1, !adc_world_dat0, Hup, run_bind. cbn [spec_step].
    set (h := [_; _; _]). set (w := adc_world _ _ _ _).
    destruct (pen_up d0').
    + rewrite run_bind, run_store. cbv beta iota. change (input_report_abs _ _ ≫= _) with release_prog.
      destruct (tail_ok_done w _ _ _ h _ _ (release_run w (set_cnt 0 s) h Hb) eq_refl) as (h' & -> & ? & ?).
      exists (set_cnt 0 s), h'. split; [done|]. split; [by eapply represents_set_cnt|done].
    + change (load id ≫= _) with (adc_sample HZ (u32 d0) (u32 d1)).
      assert (∀ d, u32 d mod 1024 = d mod 1024) as Hmod
        by (intros d; unfold u32; apply Z.mod_mod_divide; by exists (2 ^ 22)).
      destruct (adc_sample_run HZ w (u32 d0) (u32 d1) s l h Hrep) as (s' & Hr' & Ht).
      destruct (tail_ok_done w _ _ _ h _ _ Ht eq_refl) as (h' & -> & Hr1 & Hm).
      cbn [spec_step] in *. change (pen_up 0) with false in *. rewrite !Hmod in *.
      exists s', h'. by split_and!.
Qed.

Lemma reported_app h1 h2 : reported (h1 ++ h2) = reported h2 ++ reported h1.
Proof. unfold reported. by rewrite omap_app, reverse_app. Qed.

Lemma play_spec HZ evs s l :
  represents s l →
  ∃ s' h', play HZ evs s = Some (s', h')
    ∧ represents s' (spec_play evs l).1
    ∧ reported h' = concat (frame_events <$> (spec_play evs l).2).
Proof.
  revert s l. induction evs as [|ev evs IH]; intros s l Hrep; [by exists s, []|].
  cbn [play spec_play].
  destruct (handle_spec HZ ev s l Hrep) as (s1 & h1 & -> & Hr1 & Hrep1 & _).
  destruct (spec_step ev l) as [[l1 fs] m]. cbn [fst snd] in *.
  destruct (IH s1 l1 Hr1) as (s2 & h2 & Hp & Hr2 & Hrep2). cbn. rewrite Hp. cbn.
  destruct (spec_play evs l1) as [l2 fs']. cbn [fst snd] in *.
  exists s2, (h2 ++ h1). split_and!; try done.
  by rewrite reported_app, Hrep1, Hrep2, fmap_app, concat_app.
Qed.
End Handlers.

(** ** Theorems *)

(** The state after a successful [s3c_ts_init]: mapped registers, no sample. *)
Definition ts_ready (s : S3cTs.st) : Prop := represents s [].

Definition frame_ok (f : frame) : Prop :=
  match f with Press px py => 0 <= px < 1024 ∧ 0 <= py < 1024 | Release => True end.

Lemma spec_step_ok ev l :
  Forall (λ p, 0 <= p.1 < 1024 ∧ 0 <= p.2 < 1024) l →
  Forall (λ p, 0 <= p.1 < 1024 ∧ 0 <= p.2 < 1024) (spec_step ev l).1.1
  ∧ Forall frame_ok (spec_step ev l).1.2.
Proof.
  intros Hf. destruct ev as [d|d|d0 d1 d0']; cbn [spec_step]; [destruct (pen_up d); (split; [done|by repeat constructor])..|].
  destruct (pen_up d0'); [split; by repeat constructor|]. cbv zeta.
  pose proof (Z.mod_pos_bound d0 1024 ltac:(lia)). pose proof (Z.mod_pos_bound d1 1024 ltac:(lia)).
  set (l' := l ++ _). assert (Forall (λ p, 0 <= p.1 < 1024 ∧ 0 <= p.2 < 1024) l') as Hf'
    by (apply Forall_app; split; [done|constructor; [simpl; lia|done]]).
  destruct (Nat.eqb_spec (length l') 4) as [Hl|]; [|by simpl]. simpl. split; [done|].
  constructor; [|done]. split; (apply (avg4_mean _); [by rewrite length_fmap|]);
    rewrite Forall_fmap; (eapply Forall_impl; [exact Hf'|simpl; tauto]).
Qed.

Lemma spec_play_ok evs l :
  Forall (λ p, 0 <= p.1 < 1024 ∧ 0 <= p.2 < 1024) l → Forall frame_ok (spec_play evs l).2.
Proof.
  revert l. induction evs as [|ev evs IH]; intros l Hf; cbn [spec_play]; [done|].
  destruct (spec_step_ok ev l Hf) as [H1 H2]. destruct (spec_step ev l) as [[l1 fs] m].
  specialize (IH l1 H1). destruct (spec_play evs l1) as [l2 fs']. by apply Forall_app.
Qed.

(** [C3] The driver implements its specification: whatever sequence of pen, timer and conversion
    interrupts arrives and whatever the ADC answers, no handler stores outside its arrays or crashes,
    the input core receives exactly the frames of [spec_play], each complete and with coordinates
    below 1024, and every handler leaves the controller in the mode [spec_step] gives. *)
Theorem touch_driver_refines HZ evs s l :
  represents s l →
  (∃ s' h', play HZ evs s = Some (s', h')
     ∧ represents s' (spec_play evs l).1
     ∧ reported h' = concat (frame_events <$> (spec_play evs l).2)
     ∧ Forall frame_ok (spec_play evs l).2)
  ∧ ∀ ev, ∃ s' h' v, handle HZ ev s = Some (s', h')
      ∧ last_write (S3cTs.s3c_ts_regs s' + S3cTs.adctsc) h' = Some v
      ∧ tsc_mode v = Some (spec_step ev l).2.
Proof.
  intros Hrep. split.
  - destruct (play_spec HZ evs s l Hrep) as (s' & h' & Hp & Hr & Hf). exists s', h'.
    split_and!; try done. apply spec_play_ok, Hrep.
  - intros ev. destruct (handle_spec HZ ev s l Hrep) as (s' & h' & Hh & _ & _ & v & Hv). eauto.
Qed.

Lemma touch_driver_refines_witness :
  let s := S3cTs.St 1 0xf8000000 0 [0; 0; 0; 0] [0; 0; 0; 0] in
  let evs := [Pen 0; Adc 0x123 0x3ff 0; Adc 0x124 0x3ff 0; Adc 0x125 0x3fe 0; Adc 0x126 0x3fe 0; Timer 0x8000] in
  (∃ s' h', play 200 evs s = Some (s', h')
     ∧ represents s' (spec_play evs []).1
     ∧ reported h' = concat (frame_events <$> (spec_play evs []).2)
     ∧ Forall frame_ok (spec_play evs []).2)
  ∧ ∀ ev, ∃ s' h' v, handle 200 ev s = Some (s', h')
      ∧ last_write (S3cTs.s3c_ts_regs s' + S3cTs.adctsc) h' = Some v
      ∧ tsc_mode v = Some (spec_step ev []).2.
Proof. intros s evs. apply (touch_driver_refines 200 evs s []). unfold represents. simpl. split_and!; done || lia. Defined.

(** A touch that is held: the pen interrupt, then rounds of four conversions separated by the
    timer, then the release. *)
Definition conversions (r : list (Z * Z)) : list ts_event := (λ p, Adc p.1 p.2 0) <$> r.
Fixpoint held (rounds : list (list (Z * Z))) : list ts_event :=
  match rounds with
  | [] => []
  | [r] => conversions r
  | r :: rounds => conversions r ++ Timer 0 :: held rounds
  end.
Definition touch_session (rounds : list (list (Z * Z))) : list ts_event :=
  Pen 0 :: held rounds ++ [Pen 0x8000].
Definition low10 (r : list (Z * Z)) : list (Z * Z) := (λ p, (p.1 mod 1024, p.2 mod 1024)) <$> r.

Lemma spec_play_app evs1 evs2 l :
  spec_play (evs1 ++ evs2) l =
    let '(l1, f1) := spec_play evs1 l in let '(l2, f2) := spec_play evs2 l1 in (l2, f1 ++ f2).
Proof.
  revert l. induction evs1 as [|ev evs1 IH]; intros l; cbn [spec_play app].
  - by destruct (spec_play evs2 l).
  - destruct (spec_step ev l) as [[l1 fs] m]. rewrite IH.
    destruct (spec_play evs1 l1) as [l2 f1]. destruct (spec_play evs2 l2) as [l3 f2].
    by rewrite app_assoc.
Qed.

Lemma spec_play_round r :
  length r = 4%nat → spec_play (conversions r) [] = ([], [Press (mean (low10 r).*1) (mean (low10 r).*2)]).
Proof. destruct r as [|a [|b [|c [|d [|]]]]]; done. Qed.

Lemma spec_play_held rounds :
  Forall (λ r, length r = 4%nat) rounds →
  spec_play (held rounds) [] = ([], (λ r, Press (mean (low10 r).*1) (mean (low10 r).*2)) <$> rounds).
Proof.
  induction 1 as [|r rounds Hr Hf IH]; [done|]. cbn [held].
  destruct rounds as [|r' rounds]; [by rewrite spec_play_round|].
  rewrite spec_play_app, spec_play_round by done.
  cbn [spec_play]. change (spec_step (Timer 0) []) with (@nil (Z * Z), @nil frame, MeasureXY).
  cbv beta iota zeta. rewrite IH. done.
Qed.

(** A held touch: each round of four conversions yields one press frame with the average of its
    four samples (10 bits each), and lifting the pen yields one release frame; the driver is then
    ready for the next touch. *)
Theorem touch_session_frames HZ rounds s :
  ts_ready s → Forall (λ r, length r = 4%nat) rounds →
  ∃ s' h', play HZ (touch_session rounds) s = Some (s', h') ∧ ts_ready s'
    ∧ reported h' = concat (frame_events <$>
        ((λ r, Press (mean (low10 r).*1) (mean (low10 r).*2)) <$> rounds) ++ [Release]).
Proof.
  intros Hs Hr. destruct (play_spec HZ (touch_session rounds) s [] Hs) as (s' & h' & Hp & Hrep & Hrp).
  assert (spec_play (touch_session rounds) [] =
    ([], ((λ r, Press (mean (low10 r).*1) (mean (low10 r).*2)) <$> rounds) ++ [Release])) as E.
  { unfold touch_session. cbn [spec_play]. change (spec_step (Pen 0) []) with (@nil (Z * Z), @nil frame, MeasureXY).
    cbv beta iota zeta. rewrite spec_play_app, spec_play_held by done. done. }
  rewrite E in *. exists s', h'. done.
Qed.

Lemma touch_session_frames_witness :
  let s := S3cTs.St 1 0xf8000000 0 [0; 0; 0; 0] [0; 0; 0; 0] in
  let rounds := [[(100, 200); (101, 201); (102, 202); (103, 203)]; [(110, 210); (110, 210); (110, 210); (111, 211)]] in
  ∃ s' h', play 200 (touch_session rounds) s = Some (s', h') ∧ ts_ready s'
    ∧ reported h' = concat (frame_events <$>
        ((λ r, Press (mean (low10 r).*1) (mean (low10 r).*2)) <$> rounds) ++ [Release]).
Proof.
  intros s rounds. apply (touch_session_frames 200 rounds s).
  - unfold ts_ready, represents. simpl. split_and!; done || lia.
  - by repeat constructor.
Defined.

(** The pen-up branches of the pen interrupt and of the timer do not reset the sample counter,
    only the ADC interrupt does: if the pen of a second touch is lifted when the timer of the first
    one fires, two samples of the second touch are averaged into the third, and its frame reports
    a point (500, 500) that was never touched. *)
Theorem touch_stale_samples :
  let s := S3cTs.St 1 0xf8000000 0 [0; 0; 0; 0] [0; 0; 0; 0] in
  let adc v := Adc v v 0 in
  let first := [Pen 0; adc 100; adc 100; adc 100; adc 100; Pen 0x8000] in
  let second := [Pen 0; adc 200; adc 200; Timer 0x8000] in
  let third := [Pen 0; adc 800; adc 800] in
  ∃ s' h', play 200 (first ++ second ++ third) s = Some (s', h')
    ∧ reported h' = concat (frame_events <$> [Press 100 100; Release; Release; Press 500 500]).
Proof. do 2 eexists. split; vm_compute; reflexivity. Qed.
