(* ===== verification/UsbMouse.v ===== *)
(** * UsbMouse: a USB mouse used as a three-key keyboard (12th_usbmouse_as_key) *)

From S2P Require Import Prelude Kernel.

Module UsbMouse.
Definition EV_KEY := 0x01.
Definition EV_REP := 0x14.
Definition KEY_L := 38.
Definition KEY_S := 31.
Definition KEY_ENTER := 28.
Definition URB_NO_TRANSFER_DMA_MAP := 4.

(** The static variables of the file, with [pre_val] of the completion handler.  [usb_buf] is the
    address of the buffer; what the device wrote there is an argument of the handler. *)
Record st := St {
  uk_input_dev : Z; len : Z; usb_buf : Z; usb_buf_phys : Z; uk_urb : Z; pre_val : Z }.
Definition st0 : st := St 0 0 0 0 0 0.
Definition set_dev d s := St d (len s) (usb_buf s) (usb_buf_phys s) (uk_urb s) (pre_val s).
Definition set_len n s := St (uk_input_dev s) n (usb_buf s) (usb_buf_phys s) (uk_urb s) (pre_val s).
Definition set_buf p q s := St (uk_input_dev s) (len s) p q (uk_urb s) (pre_val s).
Definition set_urb u s := St (uk_input_dev s) (len s) (usb_buf s) (usb_buf_phys s) u (pre_val s).
Definition set_pre v s := St (uk_input_dev s) (len s) (usb_buf s) (usb_buf_phys s) (uk_urb s) v.

(** [usb_buf[1]]; the buffer has [wMaxPacketSize] bytes. *)
Definition buf1 (buf : list Z) : prog st Z :=
  match buf !! 1%nat with Some b => mret (u8 b) | None => Oops end.

Definition report_button (i key pre b : Z) : prog st unit :=
  if negb ((pre &&& (1 <<< i)) =? (b &&& (1 <<< i)))
  then
    d ← load uk_input_dev;
    call_ (Input_event d EV_KEY key (c_bool (truthy (b &&& (1 <<< i)))));;
    call_ (Input_sync d)
  else mret ().

Definition usb_mouse_as_key_irq (buf : list Z) : prog st unit :=
  pre ← load pre_val;
  b ← buf1 buf;
  report_button 0 KEY_L pre b;;
  report_button 1 KEY_S pre b;;
  report_button 2 KEY_ENTER pre b;;
  store (set_pre b);;
  u ← load uk_urb;
  call_ (Usb_submit_urb u).

(** [dev], the endpoint's address, packet size and interval come with the interface. *)
Definition usbmouse_as_key_probe (dev bEndpointAddress wMaxPacketSize bInterval : Z) : prog st Z :=
  d ← call Input_allocate_device;
  store (set_dev d);;
  if d =? 0 then call_ (Printk "input allocate device error\n" []);; mret (- ENOMEM)
  else
    call_ (Set_bit EV_KEY "evbit" d);;
    call_ (Set_bit EV_REP "evbit" d);;
    call_ (Set_bit KEY_L "keybit" d);;
    call_ (Set_bit KEY_S "keybit" d);;
    call_ (Set_bit KEY_ENTER "keybit" d);;
    e ← call (Input_register_device d);
    if truthy e then call_ (Printk "input register device error\n" []);; mret (-1)
    else
      pipe ← call (Usb_rcvintpipe dev bEndpointAddress);
      store (set_len wMaxPacketSize);;
      b ← calld (Usb_buffer_alloc dev wMaxPacketSize);
      store (set_buf (rv b) (nth 0 (dat b) 0));;
      u ← call Usb_alloc_urb;
      store (set_urb u);;
      if u =? 0 then mret (- ENOMEM)
      else
        call_ (Usb_fill_int_urb u dev pipe (rv b) wMaxPacketSize "usb_mouse_as_key_irq" bInterval);;
        setf u "transfer_dma" (nth 0 (dat b) 0);;
        setf u "transfer_flags |=" URB_NO_TRANSFER_DMA_MAP;;
        call_ (Usb_submit_urb u);;
        mret 0.

Definition usbmouse_as_key_disconnect (dev : Z) : prog st unit :=
  s ← load id;
  call_ (Usb_kill_urb (uk_urb s));;
  call_ (Usb_free_urb (uk_urb s));;
  call_ (Usb_buffer_free dev (len s) (usb_buf s) (usb_buf_phys s));;
  call_ (Input_unregister_device (uk_input_dev s));;
  call_ (Input_free_device (uk_input_dev s)).

Definition usbmouse_as_key_init : prog st Z :=
  r ← call (Usb_register "usbmouse_as_key");
  (if r =? 0 then call_ (Printk "usbmouse_as_key_v0.1:usbmouse_as_key" []) else mret ());;
  mret r.
Definition usbmouse_as_key_exit : prog st unit := call_ (Usb_deregister "usbmouse_as_key").
End UsbMouse.

(** ** The stream of key events *)

Section Mouse.
Import UsbMouse.

Definition key_events (h : trace) : list (Z * Z) :=
  reverse (omap (λ e, match e.1 with Input_event _ _ c v => Some (c, v) | _ => None end) h).

(** The changes from button byte [a] to [b], in the order of the handler. *)
Definition change (i key a b : Z) : list (Z * Z) :=
  if eqb (Z.testbit a i) (Z.testbit b i) then [] else [(key, c_bool (Z.testbit b i))].
Definition changes (a b : Z) : list (Z * Z) :=
  change 0 KEY_L a b ++ change 1 KEY_S a b ++ change 2 KEY_ENTER a b.

(** What a listener knows of key [k] after some events; whether every event of [k] is a change. *)
Definition level (k : Z) (up : bool) (evs : list (Z * Z)) : bool :=
  fold_left (λ cur ev, if ev.1 =? k then ev.2 =? 1 else cur) evs up.
Fixpoint alternates (k : Z) (cur : bool) (evs : list (Z * Z)) : Prop :=
  match evs with
  | [] => True
  | (c, v) :: evs =>
      if c =? k then v = c_bool (negb cur) ∧ alternates k (negb cur) evs else alternates k cur evs
  end.

Lemma land_bit_eqb a b i : 0 <= i → ((a &&& (1 <<< i)) =? (b &&& (1 <<< i))) = eqb (Z.testbit a i) (Z.testbit b i).
Proof.
  intros Hi. rewrite Z.shiftl_1_l.
  assert (∀ z, z &&& 2 ^ i = if Z.testbit z i then 2 ^ i else 0) as E.
  { intros z. apply Z.bits_inj'. intros j Hj. rewrite Z.land_spec.
    destruct (decide (i = j)) as [<-|].
    - rewrite Z.pow2_bits_true by done. destruct (Z.testbit z i); simpl; [by rewrite Z.pow2_bits_true|by rewrite Z.testbit_0_l].
    - rewrite Z.pow2_bits_false by done. rewrite andb_false_r.
      destruct (Z.testbit z i); [by rewrite Z.pow2_bits_false|by rewrite Z.testbit_0_l]. }
  rewrite !E. assert (2 ^ i ≠ 0) by lia.
  destruct (Z.testbit a i), (Z.testbit b i); cbn [eqb]; zcases; done.
Qed.

Lemma key_events_cons e h :
  key_events (e :: h) = key_events h ++ match e.1 with Input_event _ _ c v => [(c, v)] | _ => [] end.
Proof. unfold key_events. simpl. destruct e as [[] r]; simpl; rewrite ?app_nil_r; try done. apply reverse_cons. Qed.

Definition submits (h : trace) : nat := count (λ c, match c with Usb_submit_urb _ => true | _ => false end) h.

Lemma report_button_run w i key a b s h :
  0 <= i →
  ∃ h', run w (report_button i key a b) s h = (Done (), s, h')
    ∧ key_events h' = key_events h ++ change i key a b ∧ submits h' = submits h.
Proof.
  intros Hi. unfold report_button, change. rewrite land_bit_eqb, truthy_land_bit by done.
  destruct (eqb _ _); cbn -[key_events].
  - eexists. split; [done|]. by rewrite app_nil_r.
  - eexists. split; [done|]. rewrite !key_events_cons. cbn -[key_events]. by rewrite app_nil_r.
Qed.

Lemma mouse_irq_run w buf b s h :
  buf !! 1%nat = Some b →
  ∃ h', run w (usb_mouse_as_key_irq buf) s h = (Done (), set_pre (u8 b) s, h')
    ∧ key_events h' = key_events h ++ changes (pre_val s) (u8 b)
    ∧ submits h' = S (submits h).
Proof.
  intros Hb. unfold usb_mouse_as_key_irq, buf1. rewrite Hb.
  rewrite run_bind, run_load. cbv beta iota. rewrite run_bind. cbn [run mret prog_ret]. cbv beta iota.
  rewrite run_bind. destruct (report_button_run w 0 KEY_L (pre_val s) (u8 b) s h) as (h1 & -> & K1 & S1); [done|].
  cbv beta iota. rewrite run_bind.
  destruct (report_button_run w 1 KEY_S (pre_val s) (u8 b) s h1) as (h2 & -> & K2 & S2); [done|].
  cbv beta iota. rewrite run_bind.
  destruct (report_button_run w 2 KEY_ENTER (pre_val s) (u8 b) s h2) as (h3 & -> & K3 & S3); [done|].
  eexists. split; [reflexivity|]. rewrite key_events_cons. unfold changes. cbn -[key_events change].
  rewrite K3, K2, K1, <- !app_assoc, app_nil_r. split; [done|]. rewrite <- S1, <- S2, <- S3. done.
Qed.

Lemma level_app k up e1 e2 : level k up (e1 ++ e2) = level k (level k up e1) e2.
Proof. apply fold_left_app. Qed.
Lemma alternates_app k up e1 e2 :
  alternates k up e1 → alternates k (level k up e1) e2 → alternates k up (e1 ++ e2).
Proof.
  revert up. induction e1 as [|[c v] e1 IH]; intros up; [done|]. cbn [alternates app level fold_left fst snd].
  destruct (c =? k); [|apply IH]. intros [-> H1] H2. split; [done|]. apply IH; [done|].
  by destruct up.
Qed.

(** One packet: each of the three keys is reported exactly if its bit changed. *)
Lemma changes_track i k a b :
  (i, k) ∈ [(0, KEY_L); (1, KEY_S); (2, KEY_ENTER)] →
  level k (Z.testbit a i) (changes a b) = Z.testbit b i ∧ alternates k (Z.testbit a i) (changes a b).
Proof.
  intros Hk. set_unfold in Hk. unfold changes, change.
  destruct Hk as [[= -> ->]|[[= -> ->]|[[= -> ->]|[]]]];
    destruct (Z.testbit a 0), (Z.testbit b 0), (Z.testbit a 1), (Z.testbit b 1), (Z.testbit a 2), (Z.testbit b 2);
    vm_compute; auto.
Qed.
End Mouse.

(** For any stream of reports of at least two bytes: the listener that applies the key events
    knows, for each of the three buttons, the state in the last report; no event repeats a state the
    listener already has; and the request block is resubmitted exactly once per report, so the
    stream goes on. *)
Theorem mouse_tracks_buttons w bufs s h i k :
  Forall (λ buf, (2 <= length buf)%nat) bufs →
  (i, k) ∈ [(0, UsbMouse.KEY_L); (1, UsbMouse.KEY_S); (2, UsbMouse.KEY_ENTER)] →
  ∃ s' h' evs, run w (for_each bufs UsbMouse.usb_mouse_as_key_irq) s h = (Done (), s', h')
    ∧ key_events h' = key_events h ++ evs
    ∧ level k (Z.testbit (UsbMouse.pre_val s) i) evs =
        Z.testbit (List.last ((λ buf, u8 (nth 1 buf 0)) <$> bufs) (UsbMouse.pre_val s)) i
    ∧ alternates k (Z.testbit (UsbMouse.pre_val s) i) evs
    ∧ submits h' = (submits h + length bufs)%nat.
Proof.
  intros Hf Hk. revert s h. induction Hf as [|buf bufs Hb Hf IH]; intros s h.
  - exists s, h, []. simpl. rewrite app_nil_r. split_and!; done || lia.
  - destruct (lookup_lt_is_Some_2 buf 1 ltac:(lia)) as [b Eb]. cbn [for_each].
    destruct (mouse_irq_run w buf b s h Eb) as (h1 & H1 & K1 & S1). rewrite run_bind, H1.
    destruct (IH (UsbMouse.set_pre (u8 b) s) h1) as (s' & h' & evs & Hr & Kr & Lr & Ar & Sr).
    destruct (changes_track i k (UsbMouse.pre_val s) (u8 b) Hk) as [Lc Ac].
    exists s', h', (changes (UsbMouse.pre_val s) (u8 b) ++ evs). split; [done|].
    rewrite Kr, K1, app_assoc. split; [done|]. rewrite level_app, Lc.
    cbn [UsbMouse.pre_val UsbMouse.set_pre] in *. split_and!.
    + rewrite Lr. f_equal. rewrite fmap_cons. replace (nth 1 buf 0) with b by (by apply nth_lookup_Some with (d:=0) in Eb).
      destruct ((λ buf0 : list Z, u8 (nth 1 buf0 0)) <$> bufs) as [|z l]; [done|].
      cbn [List.last]. clear. revert z. induction l as [|y l IHl]; intros z; [done|apply (IHl y)].
    + apply alternates_app; [done|]. by rewrite Lc.
    + rewrite Sr, S1. simpl. lia.
Qed.

Lemma mouse_tracks_buttons_witness :
  let bufs := [[1; 1; 0]; [1; 3; 0]; [1; 2; 5]] in
  let s := UsbMouse.St 1 4 2 3 4 0 in
  let w := λ _ _, Ans 0 [] in
  ∃ s' h' evs, run w (for_each bufs UsbMouse.usb_mouse_as_key_irq) s [] = (Done (), s', h')
    ∧ key_events h' = key_events [] ++ evs
    ∧ level UsbMouse.KEY_S (Z.testbit 0 1) evs = Z.testbit (List.last ((λ buf, u8 (nth 1 buf 0)) <$> bufs) 0) 1
    ∧ alternates UsbMouse.KEY_S (Z.testbit 0 1) evs
    ∧ submits h' = (submits [] + length bufs)%nat.
Proof.
  intros bufs s w. apply (mouse_tracks_buttons w bufs s [] 1 UsbMouse.KEY_S).
  - repeat constructor; simpl; lia.
  - set_solver.
Defined.
