(* ===== verification/RamBlock.v ===== *)
(** * RamBlock: the RAM disk (13th_ramblock/ramblock.c)

    The request queue belongs to the block layer: [elv_next_request] answers the pending segments in
    order and [end_request] completes the one at the head.  A [memcpy] outside a buffer is a fault. *)

From S2P Require Import Prelude Kernel.

Module RamBlock.
Definition RAMBLOCK_SIZE := 1024 * 1024.

(** What [do_ramblock_request] uses of a request: the segment under way. *)
Record request := Request { sector : Z; current_nr_sectors : Z; write : bool; buffer : list Z }.

Record st := St {
  ramblock_gendisk : Z; ramblock_request_queue : Z; major : Z; ramblock_buf : Z }.
Definition st0 : st := St 0 0 0 0.

Record hd_geometry := Geo { heads : Z; cylinders : Z; sectors : Z }.
Definition ramblock_getgeo : hd_geometry * Z := (Geo 2 32 (RAMBLOCK_SIZE / 2 / 32 / 512), 0).

(** [memcpy(to, from + off, len)] and [memcpy(to + off, from, len)]. *)
Definition memcpy_from (from : list Z) (off len : Z) : option (list Z) :=
  if off + len <=? Z.of_nat (length from)
  then Some (take (Z.to_nat len) (drop (Z.to_nat off) from)) else None.
Definition memcpy_to (to : list Z) (off : Z) (from : list Z) : option (list Z) :=
  if off + Z.of_nat (length from) <=? Z.of_nat (length to)
  then Some (list_inserts (Z.to_nat off) from to) else None.

(** One turn of the loop: the RAM and the request's buffer afterwards. *)
Definition serve (req : request) (ram : list Z) : option (list Z * list Z) :=
  let offset := u32 (sector req <<< 9) in
  let len := u32 (current_nr_sectors req <<< 9) in
  if write req
  then
    data ← memcpy_from (buffer req) 0 len;
    ram' ← memcpy_to ram offset data;
    Some (ram', buffer req)
  else
    data ← memcpy_from ram offset len;
    buf' ← memcpy_to (buffer req) 0 data;
    Some (ram, buf').

(** [while ((req = elv_next_request(q)) != NULL)]: the RAM afterwards, and the completions with the
    status given to [end_request] and the buffer. *)
Fixpoint do_ramblock_request (q : list request) (ram : list Z) : option (list Z * list (Z * list Z)) :=
  match q with
  | [] => Some (ram, [])
  | req :: q =>
      '(ram, buf) ← serve req ram;
      '(ram, done) ← do_ramblock_request q ram;
      Some (ram, (1, buf) :: done)
  end.

Definition ramblock_init : prog st Z :=
  m ← call (Register_blkdev 0 "ramblock");
  store (λ s, St (ramblock_gendisk s) (ramblock_request_queue s) m (ramblock_buf s));;
  d ← call (Alloc_disk 16);
  store (λ s, St d (ramblock_request_queue s) (major s) (ramblock_buf s));;
  setf d "major" m;;
  setf d "first_minor" 0;;
  setfn d "disk_name" "ramblock";;
  setfn d "fops" "ramblock_fops";;
  q ← call (Blk_init_queue "do_ramblock_request" "ramblock_lock");
  store (λ s, St (ramblock_gendisk s) q (major s) (ramblock_buf s));;
  setf d "queue" q;;
  call_ (Set_capacity d (RAMBLOCK_SIZE / 512));;
  b ← call (Kzalloc RAMBLOCK_SIZE);
  store (λ s, St (ramblock_gendisk s) (ramblock_request_queue s) (major s) b);;
  if b =? 0 then mret (- ENOMEM)
  else call_ (Add_disk d);; mret 0.

Definition ramblock_exit : prog st unit :=
  s ← load id;
  call_ (Unregister_blkdev (major s) "ramblock");;
  call_ (Del_gendisk (ramblock_gendisk s));;
  call_ (Blk_cleanup_queue (ramblock_request_queue s));;
  call_ (Kfree (ramblock_buf s)).
End RamBlock.

(** ** The specification: a disk is a map from sector numbers to blocks of 512 bytes *)

Definition disk : Type := nat → list Z.
Definition nsectors : nat := 2048.

Section Disk.
Import RamBlock.

Record disk_op := DiskOp { d_sector : nat; d_count : nat; d_write : bool; d_data : list Z }.

(** Block [j] of some data. *)
Definition block (l : list Z) (j : nat) : list Z := take 512 (drop (512 * j) l).

Definition spec_op (o : disk_op) (d : disk) : disk * list Z :=
  if d_write o
  then (λ k, if decide (d_sector o ≤ k < d_sector o + d_count o)%nat
             then block (d_data o) (k - d_sector o) else d k, d_data o)
  else (d, concat (d <$> seq (d_sector o) (d_count o))).
Fixpoint spec_ops (os : list disk_op) (d : disk) : disk * list (list Z) :=
  match os with
  | [] => (d, [])
  | o :: os => let '(d1, b) := spec_op o d in let '(d2, bs) := spec_ops os d1 in (d2, b :: bs)
  end.

(** The request that carries an operation, and the operations the block layer may issue: inside the
    capacity it was told, with a buffer of the right size. *)
Definition to_request (o : disk_op) : request :=
  Request (Z.of_nat (d_sector o)) (Z.of_nat (d_count o)) (d_write o) (d_data o).
Definition op_ok (o : disk_op) : Prop :=
  (d_sector o + d_count o ≤ nsectors)%nat ∧ length (d_data o) = (512 * d_count o)%nat.

Definition represents (ram : list Z) (d : disk) : Prop :=
  length ram = (512 * nsectors)%nat ∧ ∀ k, (k < nsectors)%nat → d k = block ram k.

Lemma lookup_block l k j : (j < 512)%nat → block l k !! j = l !! (512 * k + j)%nat.
Proof. intros Hj. unfold block. by rewrite lookup_take_lt, lookup_drop. Qed.
Lemma lookup_block_ge l k j : (512 ≤ j)%nat → block l k !! j = None.
Proof. intros Hj. unfold block. by apply lookup_take_ge. Qed.
Lemma block_ext l l' k k' :
  (∀ j, (j < 512)%nat → l !! (512 * k + j)%nat = l' !! (512 * k' + j)%nat) → block l k = block l' k'.
Proof.
  intros H. apply list_eq. intros j. destruct (decide (j < 512)%nat).
  - rewrite !lookup_block by done. by apply H.
  - by rewrite !lookup_block_ge by lia.
Qed.

(** Reading [n] sectors from sector [a] is the concatenation of the blocks. *)
Lemma concat_blocks l a n :
  (512 * (a + n) ≤ length l)%nat → concat (block l <$> seq a n) = take (512 * n) (drop (512 * a) l).
Proof.
  revert a. induction n as [|n IH]; intros a Hl; [by rewrite Nat.mul_0_r|].
  rewrite <- cons_seq, fmap_cons. cbn [concat]. rewrite IH by lia.
  replace (512 * S n)%nat with (512 + 512 * n)%nat by lia.
  rewrite <- take_take_drop, drop_drop. unfold block. do 3 f_equal. lia.
Qed.

Lemma shift9 n : u32 (Z.of_nat n <<< 9) = u32 (512 * Z.of_nat n).
Proof. rewrite Z.shiftl_mul_pow2 by lia. f_equal. lia. Qed.

Lemma nsectors_bytes n : (n ≤ nsectors)%nat → u32 (512 * Z.of_nat n) = Z.of_nat (512 * n).
Proof. intros Hn. unfold nsectors in Hn. rewrite u32_small by lia. lia. Qed.

Lemma serve_refines o ram d :
  op_ok o → represents ram d →
  ∃ ram', serve (to_request o) ram = Some (ram', (spec_op o d).2) ∧ represents ram' (spec_op o d).1.
Proof.
  intros [Hb Hl] [Hlen Hd]. unfold serve. cbn [to_request sector current_nr_sectors write buffer].
  rewrite !shift9, !nsectors_bytes by lia. unfold spec_op.
  destruct (d_write o); cbn [fst snd].
  - unfold memcpy_from. destruct (Z.leb_spec (0 + Z.of_nat (512 * d_count o)) (Z.of_nat (length (d_data o)))); [|lia].
    cbn -[list_inserts Nat.mul Z.of_nat Z.leb Z.add]. rewrite Nat2Z.id, drop_0, take_ge by lia.
    unfold memcpy_to. destruct (Z.leb_spec (Z.of_nat (512 * d_sector o) + Z.of_nat (length (d_data o))) (Z.of_nat (length ram))); [|lia].
    rewrite Nat2Z.id. cbn -[list_inserts Nat.mul Z.of_nat Z.leb Z.add]. eexists. split; [reflexivity|]. split; [by rewrite length_inserts|].
    intros k Hk. destruct (decide _) as [Hin|Hout].
    + apply block_ext. intros j Hj. rewrite list_lookup_inserts by lia. f_equal. lia.
    + rewrite Hd by done. apply block_ext. intros j Hj.
      destruct (decide (k < d_sector o)%nat); [by rewrite list_lookup_inserts_lt by lia|].
      by rewrite list_lookup_inserts_ge by lia.
  - unfold memcpy_from. destruct (Z.leb_spec (Z.of_nat (512 * d_sector o) + Z.of_nat (512 * d_count o)) (Z.of_nat (length ram))); [|lia].
    cbn -[list_inserts Nat.mul Z.of_nat Z.leb Z.add]. rewrite !Nat2Z.id.
    assert (length (take (512 * d_count o) (drop (512 * d_sector o) ram)) = (512 * d_count o)%nat) as Ht
      by (rewrite length_take, length_drop; lia).
    unfold memcpy_to. rewrite Ht. destruct (Z.leb_spec (0 + Z.of_nat (512 * d_count o)) (Z.of_nat (length (d_data o)))); [|lia].
    exists ram. split; [|done]. cbn -[list_inserts Nat.mul Z.of_nat Z.leb Z.add]. do 2 f_equal.
    assert (d <$> seq (d_sector o) (d_count o) = block ram <$> seq (d_sector o) (d_count o)) as ->
      by (apply list_fmap_ext; intros i x Hx; apply lookup_seq in Hx; apply Hd; lia).
    rewrite concat_blocks by lia. apply list_eq. intros j.
    destruct (decide (j < 512 * d_count o)%nat).
    + rewrite list_lookup_inserts by lia. by rewrite Nat.sub_0_r.
    + rewrite list_lookup_inserts_ge by lia. rewrite !lookup_ge_None_2 by lia. done.
Qed.
End Disk.

(** [C5] The RAM disk implements the sector map.  Any queue of requests inside the announced
    capacity is served to the end: every request is completed with status 1, a read gets the latest
    contents of its sectors, a write changes exactly its sectors, and no copy leaves a buffer. *)
Theorem ramblock_refines_disk os ram d :
  Forall op_ok os → represents ram d →
  ∃ ram', RamBlock.do_ramblock_request (to_request <$> os) ram
            = Some (ram', (λ b, (1, b)) <$> (spec_ops os d).2)
        ∧ represents ram' (spec_ops os d).1.
Proof.
  intros Hf. revert ram d. induction Hf as [|o os Ho Hf IH]; intros ram d Hr; [by exists ram|].
  cbn [fmap list_fmap RamBlock.do_ramblock_request spec_ops].
  destruct (serve_refines o ram d Ho Hr) as (ram1 & -> & Hr1).
  destruct (spec_op o d) as [d1 b]. cbn [fst snd] in *.
  destruct (IH ram1 d1 Hr1) as (ram2 & H2 & Hr2). exists ram2.
  destruct (spec_ops os d1) as [d2 bs]. cbn [fst snd] in *. cbn. cbn in H2. by rewrite H2.
Qed.

(** A freshly allocated disk; one sector is written and read back with its neighbour. *)
Lemma ramblock_refines_disk_witness :
  let ram := replicate (512 * nsectors)%nat 0 in
  let d := block ram in
  let os := [DiskOp 7 1 true (replicate 512 5); DiskOp 7 2 false (replicate 1024 9)] in
  ∃ ram', RamBlock.do_ramblock_request (to_request <$> os) ram
            = Some (ram', (λ b, (1, b)) <$> (spec_ops os d).2)
        ∧ represents ram' (spec_ops os d).1.
Proof.
  intros ram d os. apply (ramblock_refines_disk os ram d).
  - repeat constructor; simpl; unfold nsectors; lia.
  - split; [apply length_replicate|done].
Defined.

(** The driver relies on the block layer for bounds: a request whose buffer has the right size
    is served exactly when its bytes lie inside the RAM; otherwise the copy leaves the allocation.
    The capacity announced and the geometry are those of the allocation. *)
Theorem ramblock_bounds req ram :
  let off := u32 (RamBlock.sector req <<< 9) in
  let len := u32 (RamBlock.current_nr_sectors req <<< 9) in
  Z.of_nat (length (RamBlock.buffer req)) = len →
  (is_Some (RamBlock.serve req ram) ↔ off + len <= Z.of_nat (length ram))
  ∧ let geo := RamBlock.ramblock_getgeo.1 in
    RamBlock.heads geo * RamBlock.cylinders geo * RamBlock.sectors geo * 512 = RamBlock.RAMBLOCK_SIZE
    ∧ RamBlock.heads geo * RamBlock.cylinders geo * RamBlock.sectors geo = RamBlock.RAMBLOCK_SIZE / 512.
Proof.
  intros off len Hl. split; [|done]. unfold RamBlock.serve. fold off len.
  assert (0 <= len) as H0 by apply u32_range. assert (0 <= off) as H1 by apply u32_range.
  destruct (RamBlock.write req).
  - unfold RamBlock.memcpy_from. rewrite <- Hl. rewrite (proj2 (Z.leb_le (0 + _) _)) by lia. cbn -[list_inserts Nat.mul Z.of_nat Z.leb Z.add].
    rewrite Nat2Z.id, drop_0, take_ge by lia. unfold RamBlock.memcpy_to.
    destruct (Z.leb_spec (off + Z.of_nat (length (RamBlock.buffer req))) (Z.of_nat (length ram))); cbn -[list_inserts Nat.mul Z.of_nat Z.leb Z.add].
    + split; [lia|by eexists].
    + split; [by intros [? ?]|lia].
  - unfold RamBlock.memcpy_from.
    destruct (Z.leb_spec (off + len) (Z.of_nat (length ram))); cbn -[list_inserts Nat.mul Z.of_nat Z.leb Z.add].
    + split; [done|intros _]. unfold RamBlock.memcpy_to.
      rewrite (proj2 (Z.leb_le (0 + _) _)); [by eexists|]. rewrite length_take. lia.
    + split; [by intros [? ?]|lia].
Qed.

Lemma ramblock_bounds_witness :
  let req := RamBlock.Request 2048 1 true (replicate 512 1) in
  let ram := replicate 1024 0 in
  (is_Some (RamBlock.serve req ram) ↔ u32 (2048 <<< 9) + u32 (1 <<< 9) <= Z.of_nat (length ram))
  ∧ let geo := RamBlock.ramblock_getgeo.1 in
    RamBlock.heads geo * RamBlock.cylinders geo * RamBlock.sectors geo * 512 = RamBlock.RAMBLOCK_SIZE
    ∧ RamBlock.heads geo * RamBlock.cylinders geo * RamBlock.sectors geo = RamBlock.RAMBLOCK_SIZE / 512.
Proof. intros req ram. apply (ramblock_bounds req ram). reflexivity. Defined.
