(* ===== verification/At24.v ===== *)
(** * At24: the I2C EEPROM driver (19th_i2c_drv/at24cxx.c)

    The adapter and the chip are behind [i2c_transfer]; [eeprom_bus] states what an AT24C EEPROM at
    an address does with the messages, for the theorem that relates writes and reads. *)

From S2P Require Import Prelude Kernel.

Module At24.
Definition I2C_M_RD := 0x01.
Definition I2C_NAME_SIZE := 20.
Definition normal_addr : list Z := [0x50].

(** [at24cxx_client] with the two fields that are read again, [major] and [cls]. *)
Record st := St { at24cxx_client : Z; c_addr : Z; c_adapter : Z; major : Z; cls : Z }.
Definition st0 : st := St 0 0 0 0 0.

(** [at24cxx_client->addr] and [->adapter]. *)
Definition client : prog st (Z * Z) :=
  s ← load id;
  if at24cxx_client s =? 0 then Oops else mret (c_addr s, c_adapter s).

(** [buf] is the user's buffer: its first byte is the address, and the byte read replaces it. *)
Definition at24cxx_read (size : Z) : prog st Z :=
  if negb (size =? 1) then mret (- EINVAL)
  else
    a ← calld (Copy_from_user 1);
    if truthy (rv a) then mret (-1)
    else
      let address := u8 (nth 0 (dat a) 0) in
      c ← client;
      r ← calld (I2c_transfer (snd c)
        [I2cMsg (fst c) 0 1 [address]; I2cMsg (fst c) I2C_M_RD 1 []]);
      if negb (rv r =? 2) then mret (- EIO)
      else
        e ← call (Copy_to_user [u8 (nth 0 (dat r) 0)]);
        if truthy e then mret (-1) else mret (rv r).

Definition at24cxx_write (size : Z) : prog st Z :=
  if negb (size =? 2) then mret (- EINVAL)
  else
    v ← calld (Copy_from_user 2);
    if truthy (rv v) then mret (-1)
    else
      c ← client;
      r ← call (I2c_transfer (snd c)
        [I2cMsg (fst c) 0 2 [u8 (nth 0 (dat v) 0); u8 (nth 1 (dat v) 0)]]);
      if negb (r =? 1) then mret (- EIO) else mret r.

Definition at24cxx_detect (adapter address kind sizeof_client : Z) : prog st Z :=
  call_ (Printk "at24cxx detect is being called\n" []);;
  c ← call (Kzalloc sizeof_client);
  store (λ s, St c (c_addr s) (c_adapter s) (major s) (cls s));;
  if c =? 0 then mret (- ENOMEM)
  else
    store (λ s, St c address adapter (major s) (cls s));;
    setfn c "driver" "at24cxx_driver";;
    setfn c "name" "at24cxx";;
    e ← call (I2c_attach_client c);
    if truthy e then mret (-1)
    else
      m ← call (Register_chrdev 0 "at24cxx" "at24cxx_ops");
      store (λ s, St (at24cxx_client s) (c_addr s) (c_adapter s) m (cls s));;
      (if m <? 0 then call_ (Printk "Failed to register character device." []) else mret ());;
      k ← call (Class_create "at24cxx");
      store (λ s, St (at24cxx_client s) (c_addr s) (c_adapter s) (major s) k);;
      if is_err k then mret (-1)
      else
        call_ (Class_device_create k m 0 "at24cxx");;
        mret 0.

Definition at24cxx_attach_adapter (adapter : Z) : prog st Z := call (I2c_probe adapter "at24cxx_detect").

Definition at24cxx_detach_client (client : Z) : prog st Z :=
  s ← load id;
  call_ (Class_device_destroy (cls s) (major s) 0);;
  call_ (Class_destroy (cls s));;
  call_ (Unregister_chrdev (major s) "at24cxx");;
  err ← call (I2c_detach_client client);
  if truthy err then mret err
  else
    p ← call (I2c_get_clientdata client);
    call_ (Kfree p);;
    mret 0.

Definition at24cxx_init : prog st Z := call (I2c_add_driver "at24cxx").
Definition at24cxx_exit : prog st unit := call_ (I2c_del_driver "at24cxx").
End At24.

(** ** The chip *)

(** The contents of the chip at [addr] after a history, starting from [mem0]: a message of two
    bytes that was transferred stores the second at the first. *)
Fixpoint eeprom_mem (addr : Z) (mem0 : Z → Z) (h : trace) : Z → Z :=
  match h with
  | (I2c_transfer _ [I2cMsg a 0 2 [p; v]], r) :: h =>
      if (a =? addr) && (rv r =? 1)
      then λ q, if q =? p then v else eeprom_mem addr mem0 h q
      else eeprom_mem addr mem0 h
  | _ :: h => eeprom_mem addr mem0 h
  | [] => mem0
  end.

(** What the data sheet promises: byte writes and random reads succeed, and a random read returns the
    byte at the address. *)
Definition eeprom_bus (w : world) (adapter addr : Z) (mem0 : Z → Z) : Prop :=
  (∀ h p v, rv (w h (I2c_transfer adapter [I2cMsg addr 0 2 [p; v]])) = 1)
  ∧ (∀ h p, rv (w h (I2c_transfer adapter [I2cMsg addr 0 1 [p]; I2cMsg addr At24.I2C_M_RD 1 []])) = 2
       ∧ dat (w h (I2c_transfer adapter [I2cMsg addr 0 1 [p]; I2cMsg addr At24.I2C_M_RD 1 []]))
         = [eeprom_mem addr mem0 h p]).

(** The user's buffer: [write] hands over two bytes, [read] one. *)
Definition user_bytes (w : world) (wa wv ra : Z) : Prop :=
  (∀ h, w h (Copy_from_user 2) = Ans 0 [wa; wv]) ∧ (∀ h, w h (Copy_from_user 1) = Ans 0 [ra])
  ∧ (∀ h b, rv (w h (Copy_to_user b)) = 0).

Section Chip.
Import At24.
Context (w : world).

Lemma run_client s h :
  at24cxx_client s ≠ 0 → run w client s h = (Done (c_addr s, c_adapter s), s, h).
Proof. intros Hc. unfold client. cbn [run load mbind prog_mbind prog_bind]. unfold id. by rewrite (proj2 (Z.eqb_neq _ 0)). Qed.

(** A write whose bytes were copied is one message; a read is an address message and a read message. *)
Lemma run_write s h a v :
  at24cxx_client s ≠ 0 → w h (Copy_from_user 2) = Ans 0 [a; v] →
  let h1 := (Copy_from_user 2, Ans 0 [a; v]) :: h in
  let m := I2c_transfer (c_adapter s) [I2cMsg (c_addr s) 0 2 [u8 a; u8 v]] in
  run w (at24cxx_write 2) s h =
    (Done (if rv (w h1 m) =? 1 then rv (w h1 m) else - EIO), s, (m, w h1 m) :: h1).
Proof.
  intros Hc Hu h1 m. unfold at24cxx_write. change (negb (2 =? 2)) with false. cbv iota.
  rewrite run_bind. cbn [run calld]. rewrite Hu. cbn [rv dat nth]. change (truthy 0) with false. cbv iota.
  fold h1. rewrite run_bind, run_client by done. rewrite run_bind. cbn [run call fst snd]. fold m.
  by destruct (rv (w h1 m) =? 1).
Qed.

Lemma run_read s h a :
  at24cxx_client s ≠ 0 → w h (Copy_from_user 1) = Ans 0 [a] →
  let h1 := (Copy_from_user 1, Ans 0 [a]) :: h in
  let m := I2c_transfer (c_adapter s) [I2cMsg (c_addr s) 0 1 [u8 a]; I2cMsg (c_addr s) I2C_M_RD 1 []] in
  let h2 := (m, w h1 m) :: h1 in
  let c := Copy_to_user [u8 (nth 0 (dat (w h1 m)) 0)] in
  run w (at24cxx_read 1) s h =
    if rv (w h1 m) =? 2
    then (Done (if truthy (rv (w h2 c)) then -1 else rv (w h1 m)), s, (c, w h2 c) :: h2)
    else (Done (- EIO), s, h2).
Proof.
  intros Hc Hu h1 m h2 c. unfold at24cxx_read. change (negb (1 =? 1)) with false. cbv iota.
  rewrite run_bind. cbn [run calld]. rewrite Hu. cbn [rv dat nth]. change (truthy 0) with false. cbv iota.
  fold h1. rewrite run_bind, run_client by done. rewrite run_bind. cbn [run calld fst snd]. fold m. fold h2.
  destruct (rv (w h1 m) =? 2); [|done]. cbn [negb]. rewrite run_bind. cbn [run call]. fold c.
  by destruct (truthy (rv (w h2 c))).
Qed.
End Chip.

(** Writing a byte and reading: the byte written comes back from its address, every other
    address still has its contents, and both calls report the number of messages (1 and 2, so a
    successful read of one byte answers 2). *)
Theorem at24_write_read w s h mem0 wa wv ra :
  At24.at24cxx_client s ≠ 0 →
  eeprom_bus w (At24.c_adapter s) (At24.c_addr s) mem0 → user_bytes w wa wv ra →
  0 <= wa < 256 → 0 <= wv < 256 → 0 <= ra < 256 →
  (∀ q, 0 <= eeprom_mem (At24.c_addr s) mem0 h q < 256) →
  ∃ h', run w (session [At24.at24cxx_write 2; At24.at24cxx_read 1]) s h = (Done [1; 2], s, h')
    ∧ fst <$> head h' = Some (Copy_to_user [if ra =? wa then wv else eeprom_mem (At24.c_addr s) mem0 h ra]).
Proof.
  intros Hc [Hw Hr] (U2 & U1 & U3) Ha Hv Hra Hmem.
  unfold session. rewrite run_bind, (run_write w s h wa wv) by done. rewrite !u8_small, Hw by done.
  cbn [Z.eqb Pos.eqb]. match goal with |- context [run w _ s ?hh] => set (h2 := hh) end.
  rewrite run_bind, run_bind, (run_read w s h2 ra) by done.
  rewrite (u8_small ra) by done. destruct (Hr ((Copy_from_user 1, Ans 0 [ra]) :: h2) ra) as [-> ->].
  cbn [Z.eqb Pos.eqb nth]. rewrite !U3. change (truthy 0) with false. cbv iota. cbn [run mret prog_ret].
  eexists. split; [reflexivity|]. cbn [head fmap option_fmap option_map fst]. unfold h2. cbn [eeprom_mem].
  rewrite Hw, !Z.eqb_refl. cbn [andb].
  do 3 f_equal. apply u8_small. destruct (ra =? wa); [done|apply Hmem].
Qed.

(** A bus with one EEPROM at 0x50, for the witness. *)
Definition eeprom_world (mem0 : Z → Z) (wa wv ra : Z) : world := λ h c,
  match c with
  | I2c_transfer _ [I2cMsg _ _ 2 _] => Ans 1 []
  | I2c_transfer _ [I2cMsg a _ _ [p]; _] => Ans 2 [eeprom_mem a mem0 h p]
  | Copy_from_user n => if n =? 2 then Ans 0 [wa; wv] else Ans 0 [ra]
  | _ => Ans 0 []
  end.

Lemma at24_write_read_witness :
  let s := At24.St 1 0x50 7 0 0 in
  let w := eeprom_world (λ _, 0xff) 0x10 0x55 0x10 in
  ∃ h', run w (session [At24.at24cxx_write 2; At24.at24cxx_read 1]) s [] = (Done [1; 2], s, h')
    ∧ fst <$> head h' = Some (Copy_to_user [if 0x10 =? 0x10 then 0x55 else eeprom_mem 0x50 (λ _, 0xff) [] 0x10]).
Proof.
  intros s w. apply (at24_write_read w s [] (λ _, 0xff) 0x10 0x55 0x10); try done.
Defined.

Definition is_to_user (c : kcall) : bool := match c with Copy_to_user _ => true | _ => false end.
Definition is_transfer (c : kcall) : bool := match c with I2c_transfer _ _ => true | _ => false end.

(** The results of the two entry points, for any kernel and bus.  A wrong size is refused with
    -EINVAL before anything is called; a transfer that does not carry all messages gives -EIO and
    hands no byte to the user; a successful read hands over one byte after one transfer. *)
Theorem at24_results w size s h :
  At24.at24cxx_client s ≠ 0 →
  (∃ r h', run w (At24.at24cxx_read size) s h = (Done r, s, h')
     ∧ r ∈ [2; -1; - EIO; - EINVAL] ∧ (r = - EINVAL ↔ size ≠ 1) ∧ (r = - EINVAL → h' = h)
     ∧ (r = 2 → count is_to_user h' = S (count is_to_user h) ∧ count is_transfer h' = S (count is_transfer h))
     ∧ (r = - EIO → count is_to_user h' = count is_to_user h))
  ∧ (∃ r h', run w (At24.at24cxx_write size) s h = (Done r, s, h')
     ∧ r ∈ [1; -1; - EIO; - EINVAL] ∧ (r = - EINVAL ↔ size ≠ 2) ∧ (r = - EINVAL → h' = h)
     ∧ (r = 1 → count is_transfer h' = S (count is_transfer h))
     ∧ (r = -1 → count is_transfer h' = count is_transfer h)).
Proof.
  intros Hc. unfold EIO, EINVAL. split.
  - unfold At24.at24cxx_read. destruct (Z.eqb_spec size 1) as [->|Hs]; cbn [negb].
    2: { exists (- 22), h. split_and!; done || set_solver || lia. }
    rewrite run_bind. cbn [run calld]. destruct (truthy (rv _)).
    { eexists (-1), _. split; [reflexivity|]. split_and!; try done; set_solver. }
    rewrite run_bind, run_client by done. rewrite run_bind. cbn [run calld fst snd].
    match goal with |- context [negb (rv ?a =? 2)] => destruct (Z.eqb_spec (rv a) 2) as [E|E] end; cbn [negb].
    2: { eexists (-5), _. split; [reflexivity|]. split_and!; try done; set_solver. }
    rewrite run_bind. cbn [run call]. destruct (truthy (rv _)).
    { eexists (-1), _. split; [reflexivity|]. split_and!; try done; set_solver. }
    eexists _, _. split; [reflexivity|]. rewrite E. split_and!; try done; set_solver.
  - unfold At24.at24cxx_write. destruct (Z.eqb_spec size 2) as [->|Hs]; cbn [negb].
    2: { exists (- 22), h. split_and!; done || set_solver || lia. }
    rewrite run_bind. cbn [run calld]. destruct (truthy (rv _)).
    { eexists (-1), _. split; [reflexivity|]. split_and!; try done; set_solver. }
    rewrite run_bind, run_client by done. rewrite run_bind. cbn [run call fst snd].
    match goal with |- context [negb (rv ?a =? 1)] => destruct (Z.eqb_spec (rv a) 1) as [E|E] end; cbn [negb].
    2: { eexists (-5), _. split; [reflexivity|]. split_and!; try done; set_solver. }
    eexists _, _. split; [reflexivity|]. rewrite E. split_and!; try done; set_solver.
Qed.

Lemma at24_results_witness :
  let s := At24.St 1 0x50 7 0 0 in
  let w := eeprom_world (λ _, 0xff) 0x10 0x55 0x10 in
  (∃ r h', run w (At24.at24cxx_read 1) s [] = (Done r, s, h')
     ∧ r ∈ [2; -1; - EIO; - EINVAL] ∧ (r = - EINVAL ↔ 1 ≠ 1) ∧ (r = - EINVAL → h' = [])
     ∧ (r = 2 → count is_to_user h' = 1%nat ∧ count is_transfer h' = 1%nat)
     ∧ (r = - EIO → count is_to_user h' = 0%nat))
  ∧ (∃ r h', run w (At24.at24cxx_write 1) s [] = (Done r, s, h')
     ∧ r ∈ [1; -1; - EIO; - EINVAL] ∧ (r = - EINVAL ↔ 1 ≠ 2) ∧ (r = - EINVAL → h' = [])
     ∧ (r = 1 → count is_transfer h' = 1%nat)
     ∧ (r = -1 → count is_transfer h' = 0%nat)).
Proof. intros s w. apply (at24_results w 1 s []). done. Defined.
