(* ===== verification/Dma.v ===== *)
(** * Dma: memory copy with and without a DMA channel (22th_dma/dma.c)

    The two buffers are part of the state, and so are the registers of the channel.  The controller is
    the environment: a handler of the interleaved semantics that, once the registers say so, moves one
    unit from the source address to the destination address each time it runs, and raises the interrupt
    behind the last one. *)

From S2P Require Import Prelude Kernel.

Module Dma.
Definition BUF_SIZE := 512 * 1024.
Definition MEM_CPY_NO_DMA := 0.
Definition MEM_CPY_DMA := 1.
Definition DMA0_BASE_ADDR := 0x4B000000.
Definition DMA1_BASE_ADDR := 0x4B000040.
Definition DMA2_BASE_ADDR := 0x4B000080.
Definition DMA3_BASE_ADDR := 0x4B0000C0.
(** Interrupt numbers of the S3C2440 headers. *)
Definition IRQ_DMA0 := 33.
Definition IRQ_DMA3 := 36.

(** Byte offsets in [struct dma_regs]. *)
Definition disrc := 0.
Definition disrcc := 4.
Definition didst := 8.
Definition didstc := 12.
Definition dcon := 16.
Definition dstat := 20.
Definition dcsrc := 24.
Definition dcdst := 28.
Definition dmasktrig := 32.
Definition sizeof_dma_regs := 36.

(** The channel of the controller, as the S3C2440 manual has it: the five registers that set a transfer
    up, whether it is under way, and the current addresses and count. *)
Record channel := Channel {
  ch_disrc : Z; ch_disrcc : Z; ch_didst : Z; ch_didstc : Z; ch_dcon : Z;
  running : bool; curr_src : Z; curr_dst : Z; curr_tc : Z }.
Definition channel0 : channel := Channel 0 0 0 0 0 false 0 0 0.
(** DCON: the transfer count, the size of a unit in bytes (DSZ, a burst of four with TSZ), whether a
    request is served as a whole, comes from software, and ends with an interrupt. *)
Definition dcon_tc (v : Z) : Z := field v 0 20.
Definition dcon_unit (v : Z) : Z := 2 ^ field v 20 2 * (if Z.testbit v 28 then 4 else 1).
Definition dcon_software (v : Z) : bool := negb (Z.testbit v 23).
Definition dcon_whole (v : Z) : bool := Z.testbit v 27.
Definition dcon_int (v : Z) : bool := Z.testbit v 29.
(** A store to a register: DMASKTRIG with ON_OFF and SW_TRIG starts a transfer that software requests,
    STOP and a cleared ON_OFF end it; DSTAT, DCSRC and DCDST are read-only. *)
Definition chan_write (off v : Z) (c : channel) : channel :=
  let '(Channel a b d e f r x y z) := c in
  if off =? disrc then Channel v b d e f r x y z
  else if off =? disrcc then Channel a v d e f r x y z
  else if off =? didst then Channel a b v e f r x y z
  else if off =? didstc then Channel a b d v f r x y z
  else if off =? dcon then Channel a b d e v r x y z
  else if off =? dmasktrig then
    if Z.testbit v 2 || negb (Z.testbit v 1) then Channel a b d e f false x y z
    else if Z.testbit v 0 && dcon_software f then Channel a b d e f true a d (dcon_tc f) else c
  else c.

(** The static variables; [src_mem] and [dst_mem] are what [src] and [dst] point to, [chan] is what
    [dma_regs] points to. *)
Record st := St {
  src : Z; src_phys : Z; dst : Z; dst_phys : Z; major : Z; cls : Z; dma_regs : Z;
  ev_dma : Z; irq_no : Z; src_mem : list Z; dst_mem : list Z; chan : channel }.
Definition st0 : st := St 0 0 0 0 0 0 0 0 0 [] [] channel0.
Definition set_src p q s := St p q (dst s) (dst_phys s) (major s) (cls s) (dma_regs s) (ev_dma s) (irq_no s) (src_mem s) (dst_mem s) (chan s).
Definition set_dst p q s := St (src s) (src_phys s) p q (major s) (cls s) (dma_regs s) (ev_dma s) (irq_no s) (src_mem s) (dst_mem s) (chan s).
Definition set_major m s := St (src s) (src_phys s) (dst s) (dst_phys s) m (cls s) (dma_regs s) (ev_dma s) (irq_no s) (src_mem s) (dst_mem s) (chan s).
Definition set_cls c s := St (src s) (src_phys s) (dst s) (dst_phys s) (major s) c (dma_regs s) (ev_dma s) (irq_no s) (src_mem s) (dst_mem s) (chan s).
Definition set_regs p s := St (src s) (src_phys s) (dst s) (dst_phys s) (major s) (cls s) p (ev_dma s) (irq_no s) (src_mem s) (dst_mem s) (chan s).
Definition set_ev v s := St (src s) (src_phys s) (dst s) (dst_phys s) (major s) (cls s) (dma_regs s) v (irq_no s) (src_mem s) (dst_mem s) (chan s).
Definition set_irq n s := St (src s) (src_phys s) (dst s) (dst_phys s) (major s) (cls s) (dma_regs s) (ev_dma s) n (src_mem s) (dst_mem s) (chan s).
Definition set_src_mem m s := St (src s) (src_phys s) (dst s) (dst_phys s) (major s) (cls s) (dma_regs s) (ev_dma s) (irq_no s) m (dst_mem s) (chan s).
Definition set_dst_mem m s := St (src s) (src_phys s) (dst s) (dst_phys s) (major s) (cls s) (dma_regs s) (ev_dma s) (irq_no s) (src_mem s) m (chan s).
Definition set_chan c s := St (src s) (src_phys s) (dst s) (dst_phys s) (major s) (cls s) (dma_regs s) (ev_dma s) (irq_no s) (src_mem s) (dst_mem s) c.

(** [dma_regs->reg = v] *)
Definition write_reg (r off v : Z) : prog st unit :=
  writef r off v;; store (λ s, set_chan (chan_write off (u32 v) (chan s)) s).

(** [memset(p, v, BUF_SIZE)]. *)
Definition memset (v : Z) : list Z := replicate (Z.to_nat BUF_SIZE) v.

(** [for (i = i0; i < i0 + n; i++) dst[i] = src[i];] *)
Fixpoint copy_loop (n i : nat) (from to : list Z) : list Z :=
  match n with
  | O => to
  | S n => copy_loop n (S i) from (<[i := nth i from 0]> to)
  end.

(** The constant written to DCON. *)
Definition dcon_value : Z :=
  0 <<< 31 ||| 1 <<< 30 ||| 1 <<< 29 ||| 0 <<< 28 ||| 1 <<< 27 ||| 0 <<< 23 ||| 1 <<< 22 ||| 0 <<< 20
  ||| BUF_SIZE <<< 0.

Definition dma_ioctl (cmd : Z) : prog st Z :=
  store (set_src_mem (memset 0xaa));;
  store (set_dst_mem (memset 0x55));;
  (if cmd =? MEM_CPY_NO_DMA
   then
     store (λ s, set_dst_mem (copy_loop (Z.to_nat BUF_SIZE) 0 (src_mem s) (dst_mem s)) s);;
     same ← load (λ s, bool_decide (src_mem s = dst_mem s));
     call_ (Printk (if same : bool then "memcpy no dma ok\n" else "memcpy no dma error\n") [])
   else if cmd =? MEM_CPY_DMA
   then
     store (set_ev 0);;
     s ← load id;
     let r := dma_regs s in
     write_reg r disrc (src_phys s);;
     write_reg r disrcc (0 <<< 1 ||| 0 <<< 0);;
     write_reg r didst (dst_phys s);;
     write_reg r didstc (0 <<< 2 ||| 0 <<< 1 ||| 0 <<< 0);;
     write_reg r dcon dcon_value;;
     write_reg r dmasktrig (0 <<< 2 ||| 1 <<< 1 ||| 1 <<< 0);;
     wait_event_interruptible (λ s, truthy (ev_dma s));;
     same ← load (λ s, bool_decide (src_mem s = dst_mem s));
     call_ (Printk (if same : bool then "memcpy dma ok\n" else "memcpy dma error\n") [])
   else mret ());;
  mret 0.

Definition s3c_dma_irq : prog st Z :=
  store (set_ev 1);;
  call_ (Wake_up_interruptible "dma_waitq");;
  mret 1.

(** [for (irq_no = IRQ_DMA0; irq_no <= IRQ_DMA3; irq_no++)] over the numbers left. *)
Fixpoint request_channel (irqs : list Z) : prog st Z :=
  match irqs with
  | [] => mret 0
  | i :: irqs =>
      store (set_irq i);;
      e ← call (Request_irq i "s3c_dma_irq" "0" "s3c_dma" 1);
      if e =? 0 then mret 0
      else if i =? IRQ_DMA3
           then call_ (Printk "can't request_irq for DMA\n" []);; mret (- EBUSY)
           else request_channel irqs
  end.

Definition dma_init : prog st Z :=
  p ← calld (Dma_alloc_writecombine BUF_SIZE);
  store (set_src (rv p) (nth 0 (dat p) 0));;
  if rv p =? 0 then call_ (Printk "alloc src error\n" []);; mret (- ENOMEM)
  else
    q ← calld (Dma_alloc_writecombine BUF_SIZE);
    store (set_dst (rv q) (nth 0 (dat q) 0));;
    if rv q =? 0
    then
      call_ (Dma_free_writecombine BUF_SIZE (rv p) (nth 0 (dat p) 0));;
      call_ (Printk "alloc dst error\n" []);;
      mret (- ENOMEM)
    else
      m ← load major;
      (if truthy m
       then call_ (Register_chrdev_region m 0 1 "dma")
       else a ← calld (Alloc_chrdev_region 0 1 "dma"); store (set_major (nth 0 (dat a) 0)));;
      m ← load major;
      call_ (Cdev_init "dma_cdev" "dma_fops");;
      call_ (Cdev_add "dma_cdev" m 0 1);;
      c ← call (Class_create "dma");
      store (set_cls c);;
      call_ (Class_device_create c m 0 "dma");;
      r ← call (Ioremap DMA3_BASE_ADDR sizeof_dma_regs);
      store (set_regs r);;
      if r =? 0 then call_ (Printk "unable to remap memory\n" []);; mret (- EAGAIN)
      else request_channel [IRQ_DMA0; IRQ_DMA0 + 1; IRQ_DMA0 + 2; IRQ_DMA3].

Definition dma_exit : prog st unit :=
  s ← load id;
  call_ (Free_irq (irq_no s) 1);;
  call_ (Iounmap (dma_regs s));;
  call_ (Class_device_destroy (cls s) (major s) 0);;
  call_ (Class_destroy (cls s));;
  call_ (Cdev_del "dma_cdev");;
  call_ (Unregister_chrdev_region (major s) 0 1);;
  call_ (Dma_free_writecombine BUF_SIZE (src s) (src_phys s));;
  call_ (Dma_free_writecombine BUF_SIZE (dst s) (dst_phys s)).
End Dma.

(** ** The copy without the controller *)

Section Copy.
Import Dma.

Lemma copy_loop_spec n i from to :
  length from = length to → (i + n = length to)%nat → take i to = take i from →
  copy_loop n i from to = from.
Proof.
  revert i to. induction n as [|n IH]; intros i to Hl Hi Ht; cbn [copy_loop].
  - rewrite <- (firstn_all2 to (n := i)), <- (firstn_all2 from (n := i)) by lia. done.
  - destruct (lookup_lt_is_Some_2 from i) as [x Hx]; [lia|].
    rewrite (nth_lookup_Some from i 0 x Hx). apply IH; rewrite ?length_insert; try done; try lia.
    rewrite (take_S_r _ _ x) by (apply list_lookup_insert_eq; lia).
    rewrite (take_S_r _ _ x Hx). by rewrite take_insert_ge, Ht by lia.
Qed.
End Copy.

Lemma memset_length v : length (Dma.memset v) = Z.to_nat Dma.BUF_SIZE.
Proof. apply length_replicate. Qed.

(** The contents of a filled buffer are never needed. *)
#[local] Opaque Dma.memset.
Arguments Dma.copy_loop : simpl never.

Lemma copy_memset a b :
  Dma.copy_loop (Z.to_nat Dma.BUF_SIZE) 0 (Dma.memset a) (Dma.memset b) = Dma.memset a.
Proof.
  apply copy_loop_spec; rewrite ?memset_length; [reflexivity|apply Nat.add_0_l|].
  by rewrite !take_0.
Qed.

(** The CPU copy: the ioctl fills the source, copies it byte by byte, finds the two equal,
    says so and returns 0; the destination then holds the source. *)
Theorem dma_ioctl_cpu_copies w s h :
  ∃ s', run w (Dma.dma_ioctl Dma.MEM_CPY_NO_DMA) s h
      = (Done 0, s', (Printk "memcpy no dma ok\n" [], w h (Printk "memcpy no dma ok\n" [])) :: h)
    ∧ Dma.src_mem s' = Dma.memset 0xaa ∧ Dma.dst_mem s' = Dma.memset 0xaa.
Proof.
  exists (Dma.set_dst_mem (Dma.memset 0xaa) (Dma.set_src_mem (Dma.memset 0xaa) s)).
  unfold Dma.dma_ioctl. change (Dma.MEM_CPY_NO_DMA =? Dma.MEM_CPY_NO_DMA) with true. cbv iota.
  do 2 (rewrite run_bind, run_store; cbv beta iota). rewrite run_bind.
  rewrite run_bind, run_store. cbv beta iota. rewrite run_bind, run_load. cbv beta iota.
  cbn [Dma.src_mem Dma.dst_mem Dma.set_src_mem Dma.set_dst_mem].
  rewrite copy_memset.
  rewrite bool_decide_eq_true_2 by done. done.
Qed.

(** ** The copy by the controller *)

Section Channel.
Import Dma.

(** Memory as the controller sees it: the two buffers at their physical addresses, and [elsewhere]; what is on the
    peripheral bus ([apb]) is not memory. *)
Definition inside (base a : Z) : bool := (base <=? a) && (a <? base + BUF_SIZE).
Definition phys_read (elsewhere : Z → Z) (apb : bool) (a : Z) (s : st) : Z :=
  if apb then elsewhere a
  else if inside (src_phys s) a then nth (Z.to_nat (a - src_phys s)) (src_mem s) 0
  else if inside (dst_phys s) a then nth (Z.to_nat (a - dst_phys s)) (dst_mem s) 0
  else elsewhere a.
Definition phys_write (apb : bool) (a v : Z) (s : st) : st :=
  if apb then s
  else if inside (src_phys s) a then set_src_mem (<[Z.to_nat (a - src_phys s) := v]> (src_mem s)) s
  else if inside (dst_phys s) a then set_dst_mem (<[Z.to_nat (a - dst_phys s) := v]> (dst_mem s)) s
  else s.

(** The controller: one unit of the transfer that is under way, if there is one.  DISRCC and DIDSTC say in bit 1
    which bus the address is on and in bit 0 whether it is fixed. *)
Definition along (control i : Z) : Z := if Z.testbit control 0 then 0 else i.
Definition move_byte (elsewhere : Z → Z) (i : Z) (s : st) : st :=
  let c := chan s in
  let v := phys_read elsewhere (Z.testbit (ch_disrcc c) 1) (curr_src c + along (ch_disrcc c) i) s in
  phys_write (Z.testbit (ch_didstc c) 1) (curr_dst c + along (ch_didstc c) i) v s.
Definition move_unit (elsewhere : Z → Z) (s : st) : st :=
  foldl (λ s i, move_byte elsewhere (Z.of_nat i) s) s (seq 0 (Z.to_nat (dcon_unit (ch_dcon (chan s))))).
Definition count_unit (c : channel) : channel :=
  let n := dcon_unit (ch_dcon c) in
  Channel (ch_disrc c) (ch_disrcc c) (ch_didst c) (ch_didstc c) (ch_dcon c)
    (dcon_whole (ch_dcon c) && negb (curr_tc c - 1 =? 0))
    (curr_src c + along (ch_disrcc c) n) (curr_dst c + along (ch_didstc c) n) (curr_tc c - 1).
Definition engine (elsewhere : Z → Z) : prog st unit :=
  c ← load chan;
  if running c then
    store (λ s, set_chan (count_unit c) (move_unit elsewhere s));;
    if (curr_tc c - 1 =? 0) && dcon_int (ch_dcon c) then as_handler s3c_dma_irq else mret tt
  else mret tt.

Definition says (msg : string) (c : kcall) : bool :=
  match c with Printk m _ => bool_decide (m = msg) | _ => false end.
Definition ok_msg := "memcpy dma ok\n".
Definition bad_msg := "memcpy dma error\n".

(** The two buffers do not overlap, and the addresses are those of the machine. *)
Definition apart (s : st) : Prop :=
  0 <= src_phys s ∧ src_phys s + BUF_SIZE <= 2 ^ 32 ∧ 0 <= dst_phys s ∧ dst_phys s + BUF_SIZE <= 2 ^ 32 ∧
  (src_phys s + BUF_SIZE <= dst_phys s ∨ dst_phys s + BUF_SIZE <= src_phys s).

Context (elsewhere : Z → Z) (g b : nat).

(** What has been said since the call. *)
Definition said (n : nat) (h : trace) : Prop :=
  count (says ok_msg) h = (g + n)%nat ∧ count (says bad_msg) h = b.

(** The assertions along [dma_ioctl].  The registers are mapped and nothing was said; the buffers are filled; the
    channel is stopped and has been given the values [ws]; the transfer is under way and [k] bytes have
    arrived; it is done, which the event flag says. *)
Definition mapped (s : st) (h : trace) : Prop := dma_regs s ≠ 0 ∧ apart s ∧ said 0 h.
Definition stopped (s : st) (h : trace) : Prop := mapped s h ∧ running (chan s) = false.
Definition sourced (s : st) (h : trace) : Prop := stopped s h ∧ src_mem s = memset 0xaa.
Definition filled (s : st) (h : trace) : Prop :=
  mapped s h ∧ src_mem s = memset 0xaa ∧ length (dst_mem s) = Z.to_nat BUF_SIZE.
Definition given (p q : Z) (ws : list (Z * Z)) (s : st) (h : trace) : Prop :=
  filled s h ∧ ev_dma s = 0 ∧ src_phys s = p ∧ dst_phys s = q ∧ ∃ c, running c = false ∧ chan s = foldl (λ c w, chan_write w.1 w.2 c) c ws.
Definition moving (k : nat) (s : st) : Prop :=
  let n := Z.of_nat k in
  chan s = Channel (src_phys s) 0 (dst_phys s) 0 (u32 dcon_value) true (src_phys s + n) (dst_phys s + n) (BUF_SIZE - n) ∧
  (k < Z.to_nat BUF_SIZE)%nat ∧ ev_dma s = 0 ∧ take k (dst_mem s) = take k (src_mem s).
Definition complete (s : st) : Prop := running (chan s) = false ∧ dst_mem s = src_mem s.
Definition started (s : st) (h : trace) : Prop :=
  filled s h ∧ ((∃ k, moving k s) ∨ complete s ∧ ev_dma s ≠ 0).
Definition copied (s : st) (h : trace) : Prop := filled s h ∧ complete s.

(** Asleep, the ioctl waits for the event flag while the transfer is under way. *)
Definition waiting (s : st) (cond : st → bool) : Prop :=
  (∀ s, cond s = truthy (ev_dma s)) ∧ ∃ k h, filled s h ∧ moving k s.

(** What the controller does. *)
Lemma engine_idle w s h : running (chan s) = false → run w (engine elsewhere) s h = (Done (), s, h).
Proof. intros Hr. unfold engine. rewrite run_bind, run_load. cbv beta iota. by rewrite Hr. Qed.

Lemma inside_src s k : apart s → (k < Z.to_nat BUF_SIZE)%nat →
  inside (src_phys s) (src_phys s + Z.of_nat k) = true ∧ inside (dst_phys s) (dst_phys s + Z.of_nat k) = true
  ∧ inside (src_phys s) (dst_phys s + Z.of_nat k) = false.
Proof.
  intros (H1 & H2 & H3 & H4 & H5) Hk. unfold inside. assert (Z.of_nat k < BUF_SIZE) by lia. clear Hk.
  split_and!; [apply andb_true_iff; lia|apply andb_true_iff; lia|]. apply andb_false_iff. destruct H5; [right|left]; lia.
Qed.

Definition arrived (k : nat) (s : st) : st :=
  set_chan (Channel (src_phys s) 0 (dst_phys s) 0 (u32 dcon_value) (negb (BUF_SIZE - Z.of_nat (S k) =? 0))
      (src_phys s + Z.of_nat (S k)) (dst_phys s + Z.of_nat (S k)) (BUF_SIZE - Z.of_nat (S k)))
    (set_dst_mem (<[k := nth k (src_mem s) 0]> (dst_mem s)) s).
Lemma moving_unit k s : apart s → moving k s → set_chan (count_unit (chan s)) (move_unit elsewhere s) = arrived k s.
Proof.
  intros Ha (Hc & Hk & _ & _). destruct (inside_src s k Ha Hk) as (I1 & I2 & I3).
  assert (move_unit elsewhere s = set_dst_mem (<[k := nth k (src_mem s) 0]> (dst_mem s)) s) as ->.
  { unfold move_unit. rewrite Hc. cbn [ch_dcon]. change (seq 0 (Z.to_nat (dcon_unit (u32 dcon_value)))) with [0%nat]. cbn [foldl].
    unfold move_byte. rewrite Hc. cbn [ch_disrcc ch_didstc curr_src curr_dst]. change (Z.testbit 0 1) with false. change (along 0 _) with 0.
    rewrite !Z.add_0_r. unfold phys_read, phys_write. rewrite I1, I2, I3.
    replace (src_phys s + Z.of_nat k - src_phys s) with (Z.of_nat k) by lia.
    replace (dst_phys s + Z.of_nat k - dst_phys s) with (Z.of_nat k) by lia. by rewrite Nat2Z.id. }
  unfold arrived. f_equal. rewrite Hc. unfold count_unit. cbn [ch_dcon ch_disrc ch_disrcc ch_didst ch_didstc curr_src curr_dst curr_tc].
  change (dcon_whole (u32 dcon_value)) with true. change (dcon_unit (u32 dcon_value)) with 1. change (along 0 1) with 1. cbn [andb].
  assert (BUF_SIZE - Z.of_nat k - 1 = BUF_SIZE - Z.of_nat (S k)) as -> by lia. f_equal; lia.
Qed.

(** One run of the controller during the transfer. *)
Lemma engine_moves w k s h : apart s → moving k s → ∃ s' h',
  run w (engine elsewhere) s h = (Done (), s', h') ∧
  if decide (S k = Z.to_nat BUF_SIZE) then s' = set_ev 1 (arrived k s) ∧ ∃ a, h' = (Wake_up_interruptible "dma_waitq", a) :: h
  else s' = arrived k s ∧ h' = h.
Proof.
  intros Ha Hm. pose proof (moving_unit k s Ha Hm) as Hu. destruct Hm as (Hc & Hk & _ & _). unfold engine. rewrite run_bind, run_load. cbv beta iota.
  assert (running (chan s) = true) as -> by (by rewrite Hc). rewrite run_bind, run_store, Hu. cbv beta iota.
  assert (curr_tc (chan s) = BUF_SIZE - Z.of_nat k) as -> by (by rewrite Hc). assert (ch_dcon (chan s) = u32 dcon_value) as -> by (by rewrite Hc).
  change (dcon_int (u32 dcon_value)) with true. rewrite andb_true_r. destruct (decide _) as [He|He].
  - rewrite (proj2 (Z.eqb_eq (BUF_SIZE - Z.of_nat k - 1) 0)) by lia. do 2 eexists. split; [reflexivity|]. split; [done|by eexists].
  - rewrite (proj2 (Z.eqb_neq (BUF_SIZE - Z.of_nat k - 1) 0)) by lia. by do 2 eexists.
Qed.
Lemma arrived_filled k s h : filled s h → filled (arrived k s) h.
Proof. intros (Hm & Hs & Hd). split; [exact Hm|]. split; [exact Hs|]. cbn. by rewrite length_insert. Qed.
Lemma arrived_next k s h : filled s h → moving k s → take (S k) (dst_mem (arrived k s)) = take (S k) (src_mem s).
Proof.
  intros (_ & Hs & Hd) (_ & Hk & _ & Ht). cbn. assert (length (src_mem s) = Z.to_nat BUF_SIZE) as Hl by (rewrite Hs; apply memset_length).
  destruct (lookup_lt_is_Some_2 (src_mem s) k) as [x Hx]; [lia|]. rewrite (nth_lookup_Some _ _ 0 x Hx), (take_S_r _ _ x Hx).
  rewrite (take_S_r _ _ x) by (apply list_lookup_insert_eq; lia). by rewrite take_insert_ge, Ht by lia.
Qed.

(** Every assertion stands while the controller works. *)
Lemma idle_stable (A : st → trace → Prop) : (∀ s h, A s h → running (chan s) = false) → stable [engine elsewhere] A.
Proof. intros Hi i w s h s' h' Hin HA Hr. apply list_elem_of_singleton in Hin as ->. rewrite engine_idle in Hr by eauto. by simplify_eq. Qed.
Lemma given_idle p q ws s h : given p q ws s h → Forall (λ w, w.1 ≠ dmasktrig) ws → running (chan s) = false.
Proof.
  intros (_ & _ & _ & _ & c & Hc & ->) Hw. revert c Hc. induction Hw as [|[o v] ws Ho _ IH]; intros c Hc; [done|]. cbn [foldl fst snd]. apply IH.
  cbn in Ho. destruct c. unfold chan_write. rewrite (proj2 (Z.eqb_neq o dmasktrig)) by done. by repeat case_match.
Qed.
Lemma started_stable : stable [engine elsewhere] started.
Proof.
  intros i w s h s' h' Hin [Hf Hm] Hr. apply list_elem_of_singleton in Hin as ->. destruct Hm as [[k Hm]|[Hc He]].
  - destruct (engine_moves w k s h) as (s1 & h1 & Hr1 & H1); [apply Hf|done|]. rewrite Hr in Hr1. simplify_eq.
    pose proof (arrived_next k s _ Hf Hm) as Hn. pose proof Hm as (_ & Hk & He & _). destruct (decide _) as [E|E].
    + destruct H1 as [-> [a ->]]. destruct (arrived_filled k s h Hf) as (Hma & Hs & Hd). split; [by split|]. right. split; [|done].
      assert (BUF_SIZE - Z.of_nat (S k) = 0) as H0 by lia. split; [cbn [chan arrived set_ev set_chan running]; by rewrite H0|].
      destruct Hf as (_ & Hs0 & Hd0). rewrite !firstn_all2 in Hn; [exact Hn|rewrite Hs0, memset_length; lia|cbn; rewrite length_insert; lia].
    + destruct H1 as [-> ->]. split; [by apply arrived_filled|]. left. exists (S k). split_and!; [|lia|done|exact Hn].
      cbn [chan arrived set_chan]. rewrite (proj2 (Z.eqb_neq (BUF_SIZE - Z.of_nat (S k)) 0)) by lia. done.
  - rewrite engine_idle in Hr by apply Hc. simplify_eq. split; [done|by right].
Qed.

(** A register write adds to what the channel was given. *)
Lemma outline_write_reg p q ws r off v :
  r ≠ 0 → Forall (λ w, w.1 ≠ dmasktrig) ws → off ≠ dmasktrig →
  outline false waiting [engine elsewhere] (given p q ws) (write_reg r off v) (λ _, given p q (ws ++ [(off, u32 v)])).
Proof.
  intros Hr Hw Ho. unfold write_reg. eapply outline_bind with (R := λ _, given p q ws).
  - unfold writef. rewrite (proj2 (Z.eqb_neq r 0)) by done.
    eapply (o_call _ _ _ _ (λ _, given p q ws)); [done|intros _; apply idle_stable; intros; by eapply given_idle|intros _; by constructor].
  - intros []. eapply o_upd with (P' := given p q (ws ++ [(off, u32 v)])); [| |by constructor].
    + intros s h (Hf & He & Hp & Hq & c & Hc & Hs). split_and!; [done..|]. exists c. split; [done|]. cbn. by rewrite foldl_app, Hs.
    + apply idle_stable. intros. eapply given_idle; [done|]. apply Forall_app. split; [done|]. by constructor.
Qed.
(** The last one starts the transfer. *)
Definition settings (p q : Z) : list (Z * Z) := [(disrc, u32 p); (disrcc, 0); (didst, u32 q); (didstc, 0); (dcon, u32 dcon_value)].
Lemma given_started p q s h : given p q (settings p q) s h →
  started (set_chan (chan_write dmasktrig (u32 (0 <<< 2 ||| 1 <<< 1 ||| 1 <<< 0)) (chan s)) s) h.
Proof.
  intros (Hf & He & <- & <- & c & Hc & ->). split; [exact Hf|]. left. exists 0%nat. destruct Hf as ((_ & (H1 & H2 & H3 & H4 & _) & _) & _).
  assert (0 < BUF_SIZE) by done. split_and!; [|lia|done|by rewrite !take_0]. cbn [chan set_chan src_phys dst_phys].
  destruct c as [a1 a2 a3 a4 a5 r a6 a7 a8]. cbn in Hc. subst r. unfold settings. cbn [foldl fst snd].
  rewrite !(u32_small (src_phys s)), !(u32_small (dst_phys s)) by lia. rewrite !Z.add_0_r, Z.sub_0_r. reflexivity.
Qed.
Lemma write_reg_faultless r off v (A A' : st → trace → Prop) :
  r ≠ 0 → stable [engine elsewhere] A → stable [engine elsewhere] A' →
  (∀ s h a, A s h → A s ((Writel (r + off) (u32 v), a) :: h)) → (∀ s h, A s h → A' (set_chan (chan_write off (u32 v) (chan s)) s) h) →
  outline false waiting [engine elsewhere] A (write_reg r off v) (λ _, A').
Proof.
  intros Hr Hs Hs' Hc Hu. unfold write_reg, writef. rewrite (proj2 (Z.eqb_neq r 0)) by done.
  eapply outline_bind with (R := λ _, A); [|intros []; by eapply o_upd with (P' := A'); [..|constructor]].
  eapply (o_call _ _ _ _ (λ _, A)); [auto|done|]. intros _. by constructor.
Qed.

Lemma dma_ioctl_outline :
  outline false waiting [engine elsewhere] stopped (dma_ioctl MEM_CPY_DMA) (λ a s h, a = 0 ∧ said 1 h ∧ dst_mem s = memset 0xaa).
Proof.
  unfold dma_ioctl. change (MEM_CPY_DMA =? MEM_CPY_NO_DMA) with false.
  change (MEM_CPY_DMA =? MEM_CPY_DMA) with true. cbv iota.
  eapply outline_bind with (R := λ _, sourced).
  { eapply o_upd with (P' := sourced); [by intros s h H|apply idle_stable; intros s h H; apply H|by constructor]. }
  intros _. eapply outline_bind with (R := λ _ s h, filled s h ∧ running (chan s) = false).
  { eapply o_upd with (P' := λ s h, filled s h ∧ running (chan s) = false); [|apply idle_stable; intros s h H; apply H|by constructor].
    intros s h [[Hm Hr] Hs]. split; [|exact Hr]. split; [exact Hm|]. split; [exact Hs|apply memset_length]. }
  intros _. eapply outline_bind with (R := λ _ s h, said 1 h ∧ dst_mem s = memset 0xaa); [|intros _; by constructor].
  eapply outline_bind with (R := λ _ s h, (filled s h ∧ running (chan s) = false) ∧ ev_dma s = 0).
  { eapply o_upd with (P' := λ s h, (filled s h ∧ running (chan s) = false) ∧ ev_dma s = 0); [|apply idle_stable; intros s h H; apply H|by constructor].
    intros s h H. by split. }
  intros _. eapply outline_bind with (R := λ s0 s h, given (src_phys s0) (dst_phys s0) [] s h ∧ dma_regs s0 ≠ 0).
  { eapply (o_get _ _ _ _ (λ s0 s h, given (src_phys s0) (dst_phys s0) [] s h ∧ dma_regs s0 ≠ 0)); [|intros s0; apply idle_stable|intros s0; by constructor].
    - intros s h [[Hf Hr] He]. split; [|apply Hf]. split_and!; [done..|]. by exists (chan s).
    - intros s h [Hg _]. by eapply given_idle. }
  intros s0. destruct (decide (dma_regs s0 = 0)) as [E|E]; [apply o_absurd; by intros s h [Hf Hn]|].
  apply outline_pre with (P' := given (src_phys s0) (dst_phys s0) []); [intros s h H; apply H|].
  do 5 (eapply outline_bind; [by apply outline_write_reg; [|repeat constructor|]|intros []; cbn [app]]).
  eapply outline_bind with (R := λ _, started).
  { apply write_reg_faultless; [done|apply idle_stable; intros s h H; eapply given_idle; [exact H|by repeat constructor]|apply started_stable|done|].
    intros s h H. by eapply given_started. }
  intros []. eapply outline_bind with (R := λ _, copied).
  { apply (o_wait _ _ _ _ (λ _, copied)); try done; [| |intros _; apply idle_stable; intros s h H; apply H|intros z; by constructor].
    { intros s h [H1 [[k Hm]|[_ He]]] Hc; [split; [done|by exists k, h]|]. apply truthy_spec in He. congruence. }
    intros s h [H1 [(k & _ & _ & He & _)|[Hc _]]] Hev; [|by split]. by rewrite He in Hev. }
  intros _. eapply outline_bind with (R := λ (same : bool) s h, copied s h ∧ same = true).
  { eapply (o_get _ _ _ _ (λ s0 s h, copied s h ∧ src_mem s0 = dst_mem s0)).
    - intros s h H. split; [done|]. symmetry. apply H.
    - intros s1. apply idle_stable. intros s h H. apply H.
    - intros s1. constructor. intros s h [H1 H2]. split; [done|]. by apply bool_decide_eq_true_2. }
  intros [|]; [|apply o_absurd; by intros s h [Hf Hn]].
  eapply (o_call _ _ _ _ (λ _ s h, (said 1 h ∧ dst_mem s = memset 0xaa) ∧ running (chan s) = false)).
  - intros s h a [[[(_ & _ & Hg & Hb) [Hs _]] [Hr Hd]] _]. split; [|exact Hr]. split; [|by rewrite Hd]. cbv iota. unfold said. cbn [count]. rewrite Hg, Hb.
    change (says ok_msg (Printk "memcpy dma ok\n" [])) with true.
    change (says bad_msg (Printk "memcpy dma ok\n" [])) with false. cbv iota. lia.
  - intros a. apply idle_stable. intros s h H. apply H.
  - intros a. constructor. intros s h H. apply H.
Qed.
End Channel.

(** ** The transfer ends

    From the moment it is started the controller, left to itself, moves the bytes that are left and
    raises the interrupt. *)
Lemma transfer_ends {A} e g b n k (p : prog Dma.st A) s h0 h : apart s → filled g b s h0 → moving k s → (n + k = Z.to_nat Dma.BUF_SIZE)%nat →
  ∃ s' h', isteps false [engine e] (p, s, h) (p, s', h') ∧ Dma.ev_dma s' ≠ 0.
Proof.
  revert k s. induction n as [|n IH]; intros k s Ha Hf Hm Hn; [destruct Hm as (_ & Hk & _); lia|].
  destruct (engine_moves e (λ _ _, Ans 0 []) k s h Ha Hm) as (s1 & h1 & Hr & H1).
  assert (istep false [engine e] (p, s, h) (p, s1, h1)) as Hs by (eapply is_irq; [by left|exact Hr]).
  destruct (decide _) as [E|E].
  - destruct H1 as [-> _]. exists (Dma.set_ev 1 (arrived k s)), h1. split; [by apply rtc_once|done].
  - destruct H1 as [-> ->]. destruct (IH (S k) (arrived k s)) as (s' & h' & Hs' & He); [exact Ha|by apply arrived_filled| |lia|].
    + pose proof (arrived_next _ _ k s h0 Hf Hm) as Hx. destruct Hm as (_ & Hk & He & _). split_and!; [|lia|done|exact Hx].
      cbn [Dma.chan arrived Dma.set_chan]. rewrite (proj2 (Z.eqb_neq (Dma.BUF_SIZE - Z.of_nat (S k)) 0)) by lia. done.
    + exists s', h'. split; [by eapply rtc_l|done].
Qed.

Section Copies.
Context (elsewhere : Z → Z) (s : Dma.st) (h : trace) (Hr : Dma.dma_regs s ≠ 0) (Ha : apart s) (Hst : Dma.running (Dma.chan s) = false).
Abbreviation ioctl p s' h' := (isteps false [engine elsewhere] (Dma.dma_ioctl Dma.MEM_CPY_DMA, s, h) (p, s', h')).
Abbreviation g := (count (says ok_msg) h).
Abbreviation b := (count (says bad_msg) h).

Lemma ioctl_starts : stopped g b s h.
Proof. split; [|done]. split; [done|]. split; [done|]. unfold said. by rewrite Nat.add_0_r. Qed.
Lemma stopped_stable : stable [engine elsewhere] (stopped g b).
Proof. apply idle_stable. by intros ? ? [_ ?]. Qed.
Lemma ioctl_wakes cond k s1 h1 : ioctl (Wait cond k) s1 h1 →
  ∃ s2 h2, isteps false [engine elsewhere] (Wait cond k, s1, h1) (Wait cond k, s2, h2) ∧ cond s2 = true.
Proof.
  intros Hs. destruct (cond s1) eqn:Hc; [exists s1, h1; split; [apply rtc_refl|done]|].
  destruct (outline_asleep _ _ _ _ _ _ _ _ _ _ _ _ (dma_ioctl_outline elsewhere g b) stopped_stable ioctl_starts Hs Hc) as [Hcond (m & h0 & Hf & Hm)].
  pose proof Hm as (_ & Hk & _).
  assert (∃ n, (n + m = Z.to_nat Dma.BUF_SIZE)%nat) as [n Hn] by (exists (Z.to_nat Dma.BUF_SIZE - m)%nat; by apply Nat.sub_add, Nat.lt_le_incl).
  destruct (transfer_ends elsewhere g b n m (Wait cond k) s1 h0 h1 (proj1 (proj2 (proj1 Hf))) Hf Hm Hn) as (s2 & h2 & Hs2 & He).
  exists s2, h2. split; [exact Hs2|]. rewrite Hcond. by apply truthy_spec.
Qed.
Lemma ioctl_returns a s' h' : ioctl (Ret a) s' h' →
  a = 0 ∧ Dma.dst_mem s' = Dma.memset 0xaa ∧ count (says ok_msg) h' = S g ∧ count (says bad_msg) h' = b.
Proof.
  intros Hs. destruct (outline_returns _ _ _ _ _ _ _ _ _ _ _ (dma_ioctl_outline elsewhere g b) stopped_stable ioctl_starts Hs) as (Ha0 & [H1 H2] & Hd).
  split; [exact Ha0|]. split; [exact Hd|]. split; [by rewrite H1, Nat.add_1_r|exact H2].
Qed.
Lemma ioctl_faultless s' h' : ¬ ioctl Oops s' h'.
Proof. exact (outline_faultless _ _ _ _ _ _ _ _ _ _ (dma_ioctl_outline elsewhere g b) stopped_stable ioctl_starts). Qed.
End Copies.


(** A run of the witness: the ioctl starts the transfer and sleeps. *)
Lemma run_write_reg w r off v s h : r ≠ 0 →
  ∃ a, run w (Dma.write_reg r off v) s h = (Done (), Dma.set_chan (Dma.chan_write off (u32 v) (Dma.chan s)) s, (Writel (r + off) (u32 v), a) :: h).
Proof. intros Hr. unfold Dma.write_reg, writef. rewrite (proj2 (Z.eqb_neq r 0)) by done. by eexists. Qed.
Lemma dma_ioctl_sleeps w s h : Dma.dma_regs s ≠ 0 →
  ∃ k s1 h1, run w (Dma.dma_ioctl Dma.MEM_CPY_DMA) s h = (Asleep (Wait (λ s, truthy (Dma.ev_dma s)) k), s1, h1).
Proof.
  intros Hr. unfold Dma.dma_ioctl. change (Dma.MEM_CPY_DMA =? Dma.MEM_CPY_NO_DMA) with false. change (Dma.MEM_CPY_DMA =? Dma.MEM_CPY_DMA) with true. cbv iota.
  do 2 (rewrite run_bind, run_store; cbv beta iota). rewrite run_bind.
  rewrite run_bind, run_store. cbv beta iota. rewrite run_bind, run_load. cbv beta iota zeta. set (s0 := id _).
  assert (Dma.dma_regs s0 ≠ 0) as H0 by exact Hr.
  do 6 (rewrite run_bind; match goal with |- context [run w (Dma.write_reg ?r ?o ?v) ?s ?h] => destruct (run_write_reg w r o v s h H0) as [? ->] end; cbv beta iota).
  eexists _, _, _. reflexivity.
Qed.

(** ** Which interrupt *)

Section Wrong.
Import Dma.

(** Without a handler for the channel in use nothing sets the event flag. *)
Definition never (s : st) (h : trace) : Prop := dma_regs s ≠ 0 ∧ ev_dma s = 0.

Lemma no_handlers_stable (P : st → trace → Prop) : stable [] P.
Proof. intros i w s h s' h' Hi. by apply not_elem_of_nil in Hi. Qed.

Lemma write_reg_never r off v : r ≠ 0 → outline false may_sleep [] never (write_reg r off v) (λ _, never).
Proof.
  intros Hr. unfold write_reg, writef. rewrite (proj2 (Z.eqb_neq r 0)) by done.
  eapply outline_bind with (R := λ _, never).
  - eapply (o_call _ _ _ _ (λ _, never)); [done|intros ?; apply no_handlers_stable|by constructor].
  - intros []. eapply o_upd with (P' := never); [done|apply no_handlers_stable|by constructor].
Qed.
Lemma dma_ioctl_never_outline :
  outline false may_sleep [] (λ s _, dma_regs s ≠ 0) (dma_ioctl MEM_CPY_DMA) (λ _ _ _, False).
Proof.
  unfold dma_ioctl. change (MEM_CPY_DMA =? MEM_CPY_NO_DMA) with false.
  change (MEM_CPY_DMA =? MEM_CPY_DMA) with true. cbv iota.
  do 2 (eapply outline_bind with (R := λ _ s _, dma_regs s ≠ 0);
    [apply (o_upd _ _ _ _ (λ s _, dma_regs s ≠ 0)); [intros s h H; exact H|apply no_handlers_stable|by constructor]|intros []]).
  eapply outline_bind with (R := λ _ _ _, False); [|intros []; apply o_absurd; done].
  eapply outline_bind with (R := λ _, never).
  { apply (o_upd _ _ _ _ never); [|apply no_handlers_stable|by constructor]. intros s h H. by split. }
  intros []. eapply outline_bind with (R := λ s0 s h, never s h ∧ dma_regs s0 ≠ 0).
  { eapply (o_get _ _ _ _ (λ s0 s h, never s h ∧ dma_regs s0 ≠ 0)); [|intros s0; apply no_handlers_stable|intros s0; by constructor].
    intros s h H. split; [done|apply H]. }
  intros s0. destruct (decide (dma_regs s0 = 0)) as [E|E]; [apply o_absurd; by intros s h [Hf Hn]|].
  apply outline_pre with (P' := never); [intros s h H; apply H|].
  do 6 (eapply outline_bind with (R := λ _, never);
    [apply write_reg_never; exact E|intros []]).
  eapply outline_bind with (R := λ _ _ _, False); [|intros z; apply o_absurd; done].
  apply (o_wait _ _ _ _ (λ _ _ _, False)); try done.
  - intros s h [H1 H2] Hev. apply truthy_spec in Hev. done.
  - intros z. apply no_handlers_stable.
  - intros z. by constructor.
Qed.

Lemma request_channel_run w refuses irqs s h :
  (∀ i h, rv (w h (Request_irq i "s3c_dma_irq" "0" "s3c_dma" 1)) = if refuses i : bool then - EBUSY else 0) →
  IRQ_DMA3 ∉ irqs →
  ∃ r s' h', run w (request_channel (irqs ++ [IRQ_DMA3])) s h = (Done r, s', h')
    ∧ dma_regs s' = dma_regs s
    ∧ match List.find (λ i, negb (refuses i)) (irqs ++ [IRQ_DMA3]) with
      | Some i => r = 0 ∧ irq_no s' = i
      | None => r = - EBUSY
      end.
Proof.
  intros Hw Hn. revert s h. induction irqs as [|i irqs IH]; intros s h; cbn [app request_channel List.find];
    rewrite run_bind, run_store; cbv beta iota; rewrite run_bind; cbn [run call]; rewrite Hw.
  - destruct (refuses IRQ_DMA3); cbn; do 3 eexists; split; try done.
  - rewrite elem_of_cons in Hn. destruct (refuses i); cbn [negb]; [|cbn; do 3 eexists; by split].
    change (- EBUSY =? 0) with false. cbv iota.
    rewrite (proj2 (Z.eqb_neq i IRQ_DMA3)) by (intros ->; tauto). cbv iota.
    destruct (IH ltac:(tauto) (set_irq i s) ((Request_irq i "s3c_dma_irq" "0" "s3c_dma" 1,
      w h (Request_irq i "s3c_dma_irq" "0" "s3c_dma" 1)) :: h)) as (r & s' & h' & H1 & H2 & H3).
    exists r, s', h'. by rewrite H1.
Qed.
End Wrong.

(** The channel and the interrupt need not match.  [dma_init] always maps channel 3, but keeps
    the first of the four channel interrupts that is free: its handler serves channel 3 exactly
    when the other three are refused.  Otherwise no handler runs when channel 3 is done, and then
    the DMA ioctl never returns. *)
Theorem dma_init_channel w refuses h :
  (∀ h n, rv (w h (Dma_alloc_writecombine n)) ≠ 0) → (∀ h p n, rv (w h (Ioremap p n)) ≠ 0) →
  (∀ i h, rv (w h (Request_irq i "s3c_dma_irq" "0" "s3c_dma" 1)) = if refuses i : bool then - EBUSY else 0) →
  (∃ r s' h', run w Dma.dma_init Dma.st0 h = (Done r, s', h')
     ∧ (r = 0 ∨ r = - EBUSY)
     ∧ (r = 0 → (∃ h0, Dma.dma_regs s' = rv (w h0 (Ioremap Dma.DMA3_BASE_ADDR Dma.sizeof_dma_regs)))
          ∧ refuses (Dma.irq_no s') = false
          ∧ (Dma.irq_no s' = Dma.IRQ_DMA3 ↔
               refuses Dma.IRQ_DMA0 = true ∧ refuses (Dma.IRQ_DMA0 + 1) = true ∧ refuses (Dma.IRQ_DMA0 + 2) = true)))
  ∧ ∀ s a s' h', Dma.dma_regs s ≠ 0 →
      ¬ isteps false [] (Dma.dma_ioctl Dma.MEM_CPY_DMA, s, h) (Ret a, s', h').
Proof.
  intros Ha Hi Hq. split.
  - unfold Dma.dma_init.
    rewrite run_bind. cbn [run calld]. rewrite run_bind, run_store. cbv beta iota.
    rewrite (proj2 (Z.eqb_neq _ 0)) by done.
    rewrite run_bind. cbn [run calld]. rewrite run_bind, run_store. cbv beta iota.
    rewrite (proj2 (Z.eqb_neq _ 0)) by done.
    rewrite run_bind, run_load. cbv beta iota. cbn [Dma.major Dma.set_src Dma.set_dst Dma.st0].
    change (truthy 0) with false. cbv iota.
    rewrite !run_bind. cbn [run calld]. rewrite run_store. cbv beta iota.
    rewrite run_bind, run_load. cbv beta iota.
    do 2 (rewrite run_bind; cbn [run call_]).
    rewrite run_bind. cbn [run call]. rewrite run_bind, run_store. cbv beta iota.
    rewrite run_bind. cbn [run call_].
    rewrite run_bind. cbn [run call]. rewrite run_bind, run_store. cbv beta iota.
    rewrite (proj2 (Z.eqb_neq (rv (w _ (Ioremap _ _))) 0)) by done.
    match goal with |- context [run w _ ?s ?h] =>
      destruct (request_channel_run w refuses [Dma.IRQ_DMA0; Dma.IRQ_DMA0 + 1; Dma.IRQ_DMA0 + 2] s h Hq)
        as (r & s' & h' & H1 & H2 & H3); [set_solver by done|] end.
    exists r, s', h'. split; [exact H1|]. cbn [app List.find] in H3.
    rewrite H2. cbn [Dma.dma_regs Dma.set_regs].
    destruct (refuses Dma.IRQ_DMA0) eqn:R0; cbn [negb] in H3;
      [destruct (refuses (Dma.IRQ_DMA0 + 1)) eqn:R1; cbn [negb] in H3;
      [destruct (refuses (Dma.IRQ_DMA0 + 2)) eqn:R2; cbn [negb] in H3;
      [destruct (refuses Dma.IRQ_DMA3) eqn:R3; cbn [negb] in H3|]|]|];
      try (destruct H3 as [-> ->]; split; [by left|]; intros _; split; [by eexists|]; split; [done|]; split; done || (intros [? [? ?]]; done) || (intros; congruence)).
    subst r. split; [by right|done].
  - intros s a s' h' Hr Hs.
    by apply (outline_returns false may_sleep _ _ _ _ _ _ _ _ _ dma_ioctl_never_outline
      (no_handlers_stable _) Hr Hs).
Qed.

Lemma dma_init_channel_witness :
  let w : world := λ h c, match c with
    | Dma_alloc_writecombine _ => Ans 4096 [0x30000000]
    | Ioremap p _ => Ans 8192 []
    | Request_irq i _ _ _ _ => Ans (if i =? Dma.IRQ_DMA0 then - EBUSY else 0) []
    | _ => Ans 0 [] end in
  let refuses i := i =? Dma.IRQ_DMA0 in
  (∃ r s' h', run w Dma.dma_init Dma.st0 [] = (Done r, s', h')
     ∧ (r = 0 ∨ r = - EBUSY)
     ∧ (r = 0 → (∃ h0, Dma.dma_regs s' = rv (w h0 (Ioremap Dma.DMA3_BASE_ADDR Dma.sizeof_dma_regs)))
          ∧ refuses (Dma.irq_no s') = false
          ∧ (Dma.irq_no s' = Dma.IRQ_DMA3 ↔
               refuses Dma.IRQ_DMA0 = true ∧ refuses (Dma.IRQ_DMA0 + 1) = true ∧ refuses (Dma.IRQ_DMA0 + 2) = true)))
  ∧ ∀ s a s' h', Dma.dma_regs s ≠ 0 →
      ¬ isteps false [] (Dma.dma_ioctl Dma.MEM_CPY_DMA, s, []) (Ret a, s', h').
Proof. intros w refuses. by apply (dma_init_channel w refuses []). Defined.
