(* ===== verification/Flash.v ===== *)
(** * Flash: the NAND and NOR drivers (14th_nand/s3c_nand.c, 15th_nor/s3c_nor.c) *)

From S2P Require Import Prelude Kernel.

(** A partition of a table: [None] is MTDPART_OFS_APPEND for an offset, MTDPART_SIZ_FULL for a size. *)
Record mtd_partition := Part { p_name : string; p_offset : option Z; p_size : option Z }.

Module Nand.
Definition NAND_CMD_NONE := -1.
Definition NAND_CLE := 0x02.
Definition NAND_ECC_SOFT := 1.
Definition S3C_MAX_CHIP := 1.
Definition TACLS := 0.
Definition TWRPH0 := 1.
Definition TWRPH1 := 0.

(** Byte offsets in [struct s3c_nand_regs]. *)
Definition nfconf := 0.
Definition nfcont := 4.
Definition nfcmd := 8.
Definition nfaddr := 12.
Definition nfdata := 16.
Definition nfstat := 32.
Definition sizeof_nand_regs := 64.

Definition s3c_nand_parts : list mtd_partition :=
  [Part "uboot" (Some 0) (Some 0x00040000); Part "params" None (Some 0x00020000);
   Part "kernel" None (Some 0x00200000); Part "rootfs" None None].

Record st := St { s3c_nand_regs : Z; s3c_nand_chip : Z; s3c_mtd_info : Z }.
Definition st0 : st := St 0 0 0.

Definition s3c2440_select_chip (chipnr : Z) : prog st unit :=
  r ← load s3c_nand_regs;
  if chipnr =? -1 then v ← readf r nfcont; writef r nfcont (v ||| 1 <<< 1)
  else if chipnr =? 0 then v ← readf r nfcont; writef r nfcont (v &&& ~~~ (1 <<< 1))
  else mret ().

Definition s3c2440_cmd_ctrl (cmd_or_addr ctrl : Z) : prog st unit :=
  if cmd_or_addr =? NAND_CMD_NONE then mret ()
  else
    r ← load s3c_nand_regs;
    if truthy (ctrl &&& NAND_CLE) then writef r nfcmd cmd_or_addr else writef r nfaddr cmd_or_addr.

Definition s3c2440_dev_ready : prog st Z :=
  r ← load s3c_nand_regs; v ← readf r nfstat; mret (v &&& (1 <<< 0)).

(** The sizes of the two kernel structures are parameters. *)
Definition s3c_nand_init (sizeof_chip sizeof_mtd : Z) : prog st Z :=
  c ← call (Kzalloc sizeof_chip);
  store (λ s, St (s3c_nand_regs s) c (s3c_mtd_info s));;
  r ← call (Ioremap 0x4E000000 sizeof_nand_regs);
  store (λ s, St r (s3c_nand_chip s) (s3c_mtd_info s));;
  setfn c "select_chip" "s3c2440_select_chip";;
  setfn c "cmd_ctrl" "s3c2440_cmd_ctrl";;
  setf c "IO_ADDR_R" (r + nfdata);;
  setf c "IO_ADDR_W" (r + nfdata);;
  setfn c "dev_ready" "s3c2440_dev_ready";;
  setf c "ecc.mode" NAND_ECC_SOFT;;
  clk ← call (Clk_get "nand");
  call_ (Clk_enable clk);;
  writef r nfconf (TWRPH1 <<< 4 ||| TWRPH0 <<< 8 ||| TACLS <<< 12);;
  writef r nfcont (1 <<< 1 ||| 1 <<< 0);;
  m ← call (Kzalloc sizeof_mtd);
  store (λ s, St (s3c_nand_regs s) (s3c_nand_chip s) m);;
  setf m "priv" c;;
  setfn m "owner" "THIS_MODULE";;
  call_ (Nand_scan m S3C_MAX_CHIP);;
  call_ (Add_mtd_partitions m 4);;
  mret 0.

Definition s3c_nand_exit : prog st unit :=
  s ← load id;
  call_ (Iounmap (s3c_nand_regs s));;
  call_ (Del_mtd_partitions (s3c_mtd_info s));;
  call_ (Kfree (s3c_nand_chip s));;
  call_ (Kfree (s3c_mtd_info s)).
End Nand.

Module Nor.
Definition s3c_nor_part : list mtd_partition :=
  [Part "bootloader" (Some 0) (Some 0x00040000); Part "root_nor" None None].

Record st := St { s3c_nor_map : Z; s3c_mtd_info : Z }.
Definition st0 : st := St 0 0.

(** [s3c_nor_map->virt]: a read of the allocated structure. *)
Definition nor_virt (map : Z) : prog st Z := if map =? 0 then Oops else call (Deref map).

Definition s3c_nor_init (sizeof_map : Z) : prog st Z :=
  map ← call (Kzalloc sizeof_map);
  store (λ s, St map (s3c_mtd_info s));;
  setfn map "name" "s3c_nor";;
  setf map "phys" 0;;
  setf map "size" 0x1000000;;
  setf map "bankwidth" 2;;
  v ← call (Ioremap 0 0x1000000);
  setf map "virt" v;;
  call_ (Simple_map_init map);;
  call_ (Printk "Use cfi_probe\n" []);;
  m ← call (Do_map_probe "cfi_probe" map);
  store (λ s, St (s3c_nor_map s) m);;
  (if m =? 0
   then
     call_ (Printk "Use jedec_probe\n" []);;
     m ← call (Do_map_probe "jedec_probe" map);
     store (λ s, St (s3c_nor_map s) m)
   else mret ());;
  m ← load s3c_mtd_info;
  if m =? 0
  then
    call_ (Kfree map);;
    v ← nor_virt map;
    call_ (Iounmap v);;
    call_ (Printk "can't probe the NOR FLASH\n" []);;
    mret (- EIO)
  else
    call_ (Add_mtd_partitions m 2);;
    mret 0.

Definition s3c_nor_exit : prog st unit :=
  s ← load id;
  call_ (Kfree (s3c_nor_map s));;
  v ← nor_virt (s3c_nor_map s);
  call_ (Iounmap v);;
  call_ (Del_mtd_partitions (s3c_mtd_info s)).
End Nor.

(** ** NAND: register traffic *)

Section NandCycles.
Import Nand.

(** The bus cycles of a list of [cmd_ctrl] calls: command latch or address latch, in order. *)
Inductive cycle := Command (v : Z) | Address (v : Z).
Definition cycle_of (p : Z * Z) : option cycle :=
  if p.1 =? NAND_CMD_NONE then None
  else Some (if Z.testbit p.2 1 then Command (u32 p.1) else Address (u32 p.1)).
Definition cycle_at (base : Z) (c : kcall) : option cycle :=
  match c with
  | Writel p v =>
      if p =? base + nfcmd then Some (Command v) else if p =? base + nfaddr then Some (Address v) else None
  | _ => None
  end.
Definition cycles (base : Z) (h : trace) : list cycle := reverse (omap (λ e, cycle_at base e.1) h).

Lemma cycles_cons base e h :
  cycles base (e :: h) = cycles base h ++ match cycle_at base e.1 with Some c => [c] | None => [] end.
Proof. unfold cycles. simpl. destruct (cycle_at base e.1); [apply reverse_cons|by rewrite app_nil_r]. Qed.

Lemma cmd_ctrl_run w cmd ctrl s h :
  s3c_nand_regs s ≠ 0 →
  ∃ h', run w (s3c2440_cmd_ctrl cmd ctrl) s h = (Done (), s, h')
    ∧ cycles (s3c_nand_regs s) h' = cycles (s3c_nand_regs s) h ++
        match cycle_of (cmd, ctrl) with Some c => [c] | None => [] end.
Proof.
  intros Hr. unfold s3c2440_cmd_ctrl, cycle_of. cbn [fst snd].
  destruct (cmd =? NAND_CMD_NONE); [exists h; by rewrite app_nil_r|].
  rewrite run_bind, run_load. cbv beta iota.
  change NAND_CLE with (1 <<< 1). rewrite truthy_land_bit by done. unfold writef.
  rewrite (proj2 (Z.eqb_neq _ 0)) by done.
  destruct (Z.testbit ctrl 1); cbn -[cycles u32]; eexists; (split; [reflexivity|]);
    rewrite cycles_cons; unfold cycle_at; cbn -[cycles u32 Z.add].
  - by rewrite Z.eqb_refl.
  - rewrite (proj2 (Z.eqb_neq _ _)) by (unfold nfcmd, nfaddr; lia). by rewrite Z.eqb_refl.
Qed.
End NandCycles.

(** The NAND driver puts on the bus exactly the command and address cycles the MTD core asks
    for, in order, a call with NAND_CMD_NONE being none. *)
Theorem nand_bus_cycles w s h reqs :
  Nand.s3c_nand_regs s ≠ 0 →
  ∃ h', run w (for_each reqs (λ p, Nand.s3c2440_cmd_ctrl p.1 p.2)) s h = (Done (), s, h')
    ∧ cycles (Nand.s3c_nand_regs s) h' = cycles (Nand.s3c_nand_regs s) h ++ omap cycle_of reqs.
Proof.
  intros Hr. revert h. induction reqs as [|[cmd ctrl] reqs IH]; intros h; [exists h; by rewrite app_nil_r|].
  cbn [for_each fst snd]. rewrite run_bind.
  destruct (cmd_ctrl_run w cmd ctrl s h Hr) as (h1 & -> & H1).
  destruct (IH h1) as (h2 & -> & H2). exists h2. split; [done|].
  rewrite H2, H1, <- app_assoc. f_equal. simpl. by destruct (cycle_of (cmd, ctrl)).
Qed.

(** READID: command 0x90, address 0, end of the command. *)
Lemma nand_bus_cycles_witness :
  let s := Nand.St 0xf0000000 1 2 in
  let reqs := [(0x90, 0x83); (0x00, 0x85); (-1, 0x81)] in
  ∃ h', run (λ _ _, Ans 0 []) (for_each reqs (λ p, Nand.s3c2440_cmd_ctrl p.1 p.2)) s [] = (Done (), s, h')
    ∧ cycles 0xf0000000 h' = cycles 0xf0000000 [] ++ omap cycle_of reqs.
Proof. intros s reqs. apply (nand_bus_cycles (λ _ _, Ans 0 []) s [] reqs). done. Defined.

(** Chip select and ready.  After initialisation the controller is enabled with the chip
    deselected and the timing programmed; selecting chip 0 or no chip changes bit 1 of NFCONT only,
    any other number changes nothing; [dev_ready] is true exactly when bit 0 of NFSTAT is set. *)
Theorem nand_controller w init n m h :
  holds_writes w init → (∀ h k, rv (w h (Kzalloc k)) ≠ 0) → (∀ h p k, 0 < rv (w h (Ioremap p k))) →
  ∃ s h', run w (Nand.s3c_nand_init n m) Nand.st0 h = (Done 0, s, h')
    ∧ let R h off := reg init (Nand.s3c_nand_regs s + off) h in
      R h' Nand.nfcont = 3 ∧ R h' Nand.nfconf = 0x100
      ∧ (∀ h1 c, ∃ h2, run w (Nand.s3c2440_select_chip c) s h1 = (Done (), s, h2)
           ∧ ∀ i, 0 <= i < 32 → Z.testbit (R h2 Nand.nfcont) i =
               if (i =? 1) && ((c =? -1) || (c =? 0)) then c =? -1 else Z.testbit (R h1 Nand.nfcont) i)
      ∧ (∀ h1, ∃ r h2, run w Nand.s3c2440_dev_ready s h1 = (Done r, s, h2)
           ∧ truthy r = Z.testbit (R h1 Nand.nfstat) 0).
Proof.
  intros Hw Hk Hi. unfold Nand.s3c_nand_init.
  pose proof (Hk h n) as Hc.
  do 4 reg_step w init Hw.
  match goal with |- context [Nand.St ?r _ _] => set (base := r) end.
  assert (base ≠ 0) as Hb by (pose proof (Hi h0 0x4E000000 Nand.sizeof_nand_regs); unfold base; lia).
  do 11 reg_step w init Hw. pose proof (Hk h11 m) as Hm. do 5 reg_step w init Hw.
  eexists _, _. split; [reflexivity|]. cbn [Nand.s3c_nand_regs]. cbv zeta. split_and!.
  - reg_chain. by rewrite Z.eqb_refl.
  - reg_chain. rewrite Z.eqb_refl.
    by rewrite (proj2 (Z.eqb_neq (base + Nand.nfconf) (base + Nand.nfcont))) by (unfold Nand.nfconf, Nand.nfcont; lia).
  - intros k c. unfold Nand.s3c2440_select_chip. reg_step w init Hw. cbn [Nand.s3c_nand_regs].
    destruct (c =? -1); [|destruct (c =? 0)]; [do 2 reg_step w init Hw..|].
    + eexists. split; [reflexivity|]. intros i Hii. reg_chain. rewrite Z.eqb_refl, u32_lor by apply reg_range.
      change (1 <<< 1) with (2 ^ 1). autorewrite with bits. rewrite Z.pow2_bits_eqb by lia.
      zcases; simpl; by rewrite ?orb_true_r, ?orb_false_r.
    + eexists. split; [reflexivity|]. intros i Hii. reg_chain. rewrite Z.eqb_refl, u32_land by apply reg_range.
      change (1 <<< 1) with (2 ^ 1). autorewrite with bits. rewrite Z.pow2_bits_eqb by lia.
      zcases; simpl; by rewrite ?andb_true_r, ?andb_false_r.
    + eexists. split; [reflexivity|]. intros i Hii. simpl. by rewrite andb_false_r.
  - intros k. unfold Nand.s3c2440_dev_ready. do 2 reg_step w init Hw. cbn [Nand.s3c_nand_regs].
    eexists _, _. split; [reflexivity|]. by apply truthy_land_bit.
Qed.

Lemma nand_controller_witness :
  let w := demo_world (λ _, 0) (λ _, 0) [] in
  ∃ s h', run w (Nand.s3c_nand_init 100 200) Nand.st0 [] = (Done 0, s, h')
    ∧ let R h off := reg (λ _, 0) (Nand.s3c_nand_regs s + off) h in
      R h' Nand.nfcont = 3 ∧ R h' Nand.nfconf = 0x100
      ∧ (∀ h1 c, ∃ h2, run w (Nand.s3c2440_select_chip c) s h1 = (Done (), s, h2)
           ∧ ∀ i, 0 <= i < 32 → Z.testbit (R h2 Nand.nfcont) i =
               if (i =? 1) && ((c =? -1) || (c =? 0)) then c =? -1 else Z.testbit (R h1 Nand.nfcont) i)
      ∧ (∀ h1, ∃ r h2, run w Nand.s3c2440_dev_ready s h1 = (Done r, s, h2)
           ∧ truthy r = Z.testbit (R h1 Nand.nfstat) 0).
Proof. intros w. apply (nand_controller w (λ _, 0) 100 200 []); [done| |]; intros; simpl; lia. Defined.

Section NorSteps.
Context (w : world).

(** Nothing has been freed and nothing freed has been used. *)
Definition clean (h : trace) : Prop := uses_freed h = false ∧ freed h = [].

Lemma clean_cons c a h : clean h → (∀ p, c ≠ Kfree p) → clean ((c, a) :: h).
Proof.
  intros [H1 H2] Hc. unfold clean. destruct c; cbn [uses_freed freed]; rewrite ?H1, ?H2; try done.
  by destruct (Hc p).
Qed.

Lemma clean_call {S} c (s : S) h :
  clean h → (∀ p, c ≠ Kfree p) → ∃ a h', run w (call c) s h = (Done a, s, h') ∧ clean h'.
Proof. intros Hh Hc. simpl. do 2 eexists. split; [done|by apply clean_cons]. Qed.
Lemma clean_call_ {S} c (s : S) h :
  clean h → (∀ p, c ≠ Kfree p) → ∃ h', run w (call_ c) s h = (Done (), s, h') ∧ clean h'.
Proof. intros Hh Hc. simpl. eexists. split; [done|by apply clean_cons]. Qed.
Lemma clean_setf {S} p f v (s : S) h :
  clean h → p ≠ 0 → ∃ h', run w (setf p f v) s h = (Done (), s, h') ∧ clean h'.
Proof. intros Hh Hp. unfold setf. rewrite (proj2 (Z.eqb_neq p 0)) by done. simpl. eexists. split; [done|by apply clean_cons]. Qed.
Lemma clean_setfn {S} p f v (s : S) h :
  clean h → p ≠ 0 → ∃ h', run w (setfn p f v) s h = (Done (), s, h') ∧ clean h'.
Proof. intros Hh Hp. unfold setfn. rewrite (proj2 (Z.eqb_neq p 0)) by done. simpl. eexists. split; [done|by apply clean_cons]. Qed.
End NorSteps.

Ltac clean_step w :=
  let a := fresh "a" in let h' := fresh "h" in let H := fresh "Hclean" in
  rewrite ?run_bind;
  match goal with
  | Hc : clean ?h |- context [run w (call ?c) ?s ?h] =>
      destruct (clean_call w c s h Hc ltac:(done)) as (a & h' & -> & H)
  | Hc : clean ?h |- context [run w (call_ ?c) ?s ?h] =>
      destruct (clean_call_ w c s h Hc ltac:(done)) as (h' & -> & H)
  | Hc : clean ?h |- context [run w (setf ?p ?f ?v) ?s ?h] =>
      destruct (clean_setf w p f v s h Hc ltac:(done)) as (h' & -> & H)
  | Hc : clean ?h |- context [run w (setfn ?p ?f ?v) ?s ?h] =>
      destruct (clean_setfn w p f v s h Hc ltac:(done)) as (h' & -> & H)
  | |- context [run w (store ?f) ?s ?h] => rewrite (run_store w f s h)
  | |- context [run w (load ?f) ?s ?h] => rewrite (run_load w f s h)
  end; cbv beta iota.

(** The tail of [s3c_nor_init] when nothing was found. *)
Lemma nor_fail_run w map (s : Nor.st) h :
  clean h → map ≠ 0 →
  ∃ h', run w (call_ (Kfree map);; v ← Nor.nor_virt map; call_ (Iounmap v);;
               call_ (Printk "can't probe the NOR FLASH\n" []);; mret (- EIO)) s h = (Done (- EIO), s, h')
    ∧ uses_freed h' = true.
Proof.
  intros Hh Hm. unfold Nor.nor_virt. rewrite run_bind. cbn [run call_].
  rewrite (proj2 (Z.eqb_neq map 0)) by done. rewrite run_bind. cbn [run call].
  eexists. split; [reflexivity|]. cbn [uses_freed freed existsb]. by rewrite Z.eqb_refl.
Qed.

(** Probing the NOR flash: CFI first, JEDEC only when that finds nothing, partitions only for a
    device that was found, -EIO otherwise.  On the failing path and on removal the map is freed
    before its [virt] field is read, so the address unmapped comes from freed memory. *)
Theorem nor_probe w h n :
  (∀ h k, rv (w h (Kzalloc k)) ≠ 0) → uses_freed h = false → freed h = [] →
  (∃ r s h', run w (Nor.s3c_nor_init n) Nor.st0 h = (Done r, s, h')
     ∧ (r = 0 ∨ r = - EIO) ∧ (r = 0 ↔ Nor.s3c_mtd_info s ≠ 0)
     ∧ (uses_freed h' = true ↔ r = - EIO))
  ∧ ∀ s, Nor.s3c_nor_map s ≠ 0 →
      ∃ h' v, run w Nor.s3c_nor_exit s h = (Done (), s, h') ∧ uses_freed h' = true
        ∧ v = rv (w ((Kfree (Nor.s3c_nor_map s), w h (Kfree (Nor.s3c_nor_map s))) :: h) (Deref (Nor.s3c_nor_map s)))
        ∧ Iounmap v ∈ h'.*1.
Proof.
  intros Hk Hu Hf. split.
  - unfold Nor.s3c_nor_init. assert (clean h) as Hh by done.
    pose proof (Hk h n) as Hm. rewrite run_bind. cbn [run call].
    set (map := rv (w h (Kzalloc n))) in *.
    assert (clean ((Kzalloc n, w h (Kzalloc n)) :: h)) as Hh1 by (by apply clean_cons).
    set (h1 := (Kzalloc n, w h (Kzalloc n)) :: h) in *. clearbody h1 map.
    do 11 clean_step w.
    destruct (Z.eqb_spec a0 0) as [->|E1].
    + rewrite run_bind. do 3 clean_step w. clean_step w. cbn [Nor.s3c_mtd_info].
      destruct (Z.eqb_spec a0 0) as [->|E2].
      * match goal with Hc : clean ?h |- context [run w _ ?s ?h] =>
          destruct (nor_fail_run w map s h Hc Hm) as (h' & -> & Hu') end.
        do 3 eexists. split; [done|]. split; [by right|]. split; [by split|]. by rewrite Hu'.
      * clean_step w. do 3 eexists. split; [done|]. split; [by left|]. split; [by split|].
        by match goal with Hc : clean ?h |- uses_freed ?h = true ↔ _ => rewrite (proj1 Hc) end.
    + rewrite run_bind. cbn [run mret prog_ret]. cbv beta iota. clean_step w. cbn [Nor.s3c_mtd_info].
      rewrite (proj2 (Z.eqb_neq a0 0)) by done. clean_step w.
      do 3 eexists. split; [done|]. split; [by left|]. split; [by split|].
      by match goal with Hc : clean ?h |- uses_freed ?h = true ↔ _ => rewrite (proj1 Hc) end.
  - intros s Hs. unfold Nor.s3c_nor_exit, Nor.nor_virt. cbn -[uses_freed Z.eqb].
    unfold id. rewrite (proj2 (Z.eqb_neq (Nor.s3c_nor_map s) 0)) by done. cbn -[uses_freed Z.eqb].
    do 2 eexists. split; [reflexivity|]. split; [|split; [done|]].
    + cbn [uses_freed freed existsb]. by rewrite Z.eqb_refl.
    + cbn. right. by left.
Qed.

Lemma nor_probe_witness :
  let w := demo_world (λ _, 0) (λ _, 0) [] in
  (∃ r s h', run w (Nor.s3c_nor_init 50) Nor.st0 [] = (Done r, s, h')
     ∧ (r = 0 ∨ r = - EIO) ∧ (r = 0 ↔ Nor.s3c_mtd_info s ≠ 0)
     ∧ (uses_freed h' = true ↔ r = - EIO))
  ∧ ∀ s, Nor.s3c_nor_map s ≠ 0 →
      ∃ h' v, run w Nor.s3c_nor_exit s [] = (Done (), s, h') ∧ uses_freed h' = true
        ∧ v = rv (w [(Kfree (Nor.s3c_nor_map s), w [] (Kfree (Nor.s3c_nor_map s)))] (Deref (Nor.s3c_nor_map s)))
        ∧ Iounmap v ∈ h'.*1.
Proof. intros w. apply (nor_probe w [] 50); [|done|done]. intros. simpl. lia. Defined.

(** ** Partition tables *)

(** Where the MTD core puts the partitions of a device of [size] bytes: an appended partition starts
    where the previous one ends, a full-size one reaches to the end. *)
Fixpoint place (size cur : Z) (parts : list mtd_partition) : list (Z * Z) :=
  match parts with
  | [] => []
  | p :: parts =>
      let start := default cur (p_offset p) in
      let len := default (size - start) (p_size p) in
      (start, len) :: place size (start + len) parts
  end.
Fixpoint tiles (from to : Z) (l : list (Z * Z)) : Prop :=
  match l with
  | [] => from = to
  | (s, n) :: l => s = from ∧ 0 < n ∧ tiles (s + n) to l
  end.

(** Both partition tables cover the whole flash without gap or overlap, for every device large
    enough for the fixed partitions. *)
Theorem partitions_tile size :
  (0x260000 < size → tiles 0 size (place size 0 Nand.s3c_nand_parts))
  ∧ (0x40000 < size → tiles 0 size (place size 0 Nor.s3c_nor_part)).
Proof. split; intros H; simpl; lia. Qed.

Lemma partitions_tile_witness :
  tiles 0 0x10000000 (place 0x10000000 0 Nand.s3c_nand_parts)
  ∧ tiles 0 0x200000 (place 0x200000 0 Nor.s3c_nor_part).
Proof. split; [apply (proj1 (partitions_tile 0x10000000))|apply (proj2 (partitions_tile 0x200000))]; lia. Defined.
