(* ===== verification/CharNet.v ===== *)
(** * CharNet: the cdev example (20th_chrdev_another/hello.c) and the virtual network card
    (16th_virt_net/virt_net.c) *)

From S2P Require Import Prelude Kernel.

Module Hello.
Definition HELLO_COUNT := 2.

Record st := St { major : Z; cls : Z }.
Definition st0 : st := St 0 0.

Definition hello_open : prog st Z := call_ (Printk "hello open\n" []);; mret 0.
Definition hello2_open : prog st Z := call_ (Printk "hello  -2- open\n" []);; mret 0.

(** The answer of [alloc_chrdev_region] carries the major number it chose. *)
Definition hello_init : prog st Z :=
  m ← load major;
  (if truthy m
   then call_ (Register_chrdev_region m 0 HELLO_COUNT "hello")
   else
     a ← calld (Alloc_chrdev_region 0 HELLO_COUNT "hello");
     store (λ s, St (nth 0 (dat a) 0) (cls s)));;
  m ← load major;
  call_ (Cdev_init "hello_cdev" "hello_fops");;
  call_ (Cdev_add "hello_cdev" m 0 HELLO_COUNT);;
  call_ (Register_chrdev_region m 3 1 "hello");;
  call_ (Cdev_init "hello2_cdev" "hello2_fops");;
  call_ (Cdev_add "hello2_cdev" m 3 1);;
  c ← call (Class_create "hello");
  store (λ s, St (major s) c);;
  call_ (Class_device_create c m 0 "hello0");;
  call_ (Class_device_create c m 1 "hello1");;
  call_ (Class_device_create c m 2 "hello2");;
  call_ (Class_device_create c m 3 "hello3");;
  mret 0.

Definition hello_exit : prog st unit :=
  s ← load id;
  call_ (Class_device_destroy (cls s) (major s) 0);;
  call_ (Class_device_destroy (cls s) (major s) 1);;
  call_ (Class_device_destroy (cls s) (major s) 2);;
  call_ (Class_device_destroy (cls s) (major s) 3);;
  call_ (Class_destroy (cls s));;
  call_ (Cdev_del "hello_cdev");;
  call_ (Cdev_del "hello2_cdev");;
  call_ (Unregister_chrdev_region (major s) 0 HELLO_COUNT);;
  call_ (Unregister_chrdev_region (major s) 3 1).
End Hello.

Module VirtNet.
(** [cnt] of the transmit function, and the statistics of the device. *)
Record st := St { virt_net_dev : Z; cnt : Z; tx_packets : Z; tx_bytes : Z }.
Definition st0 : st := St 0 0 0 0.

(** [skb_len] is [skb->len]. *)
Definition my_hard_start_xmit (skb_len : Z) : prog st Z :=
  store (λ s, St (virt_net_dev s) (s32 (cnt s + 1)) (tx_packets s) (tx_bytes s));;
  c ← load cnt;
  call_ (Printk "my_hard_start_xmit cnt = %d\n" [c]);;
  store (λ s, St (virt_net_dev s) (cnt s) (u32 (tx_packets s + 1)) (tx_bytes s));;
  store (λ s, St (virt_net_dev s) (cnt s) (tx_packets s) (u32 skb_len));;
  mret 0.

Definition virt_net_init : prog st Z :=
  d ← call (Alloc_netdev 0 "myVnet%d");
  store (λ s, St d (cnt s) (tx_packets s) (tx_bytes s));;
  if d =? 0 then mret (- ENOMEM)
  else
    setfn d "hard_start_xmit" "my_hard_start_xmit";;
    setf d "dev_addr[0]" 0x08;;
    setf d "dev_addr[1]" 0x88;;
    setf d "dev_addr[2]" 0x88;;
    setf d "dev_addr[3]" 0x88;;
    setf d "dev_addr[4]" 0x88;;
    setf d "dev_addr[5]" 0x88;;
    call_ (Register_netdev d);;
    mret 0.

Definition virt_net_exit : prog st unit :=
  d ← load virt_net_dev;
  call_ (Unregister_netdev d);;
  call_ (Free_netdev d).
End VirtNet.

(** ** Which operations a device number reaches *)

(** The file operations that an open of [(major, minor)] reaches: the latest character device that
    covers the number and has not been deleted, through the operations it was initialised with. *)
Fixpoint fops_of (cdev : string) (h : trace) : option string :=
  match h with
  | [] => None
  | (Cdev_init c f, _) :: h => if bool_decide (c = cdev) then Some f else fops_of cdev h
  | _ :: h => fops_of cdev h
  end.
Fixpoint cdev_at (deleted : list string) (major minor : Z) (h : trace) : option string :=
  match h with
  | [] => None
  | (Cdev_del c, _) :: h => cdev_at (c :: deleted) major minor h
  | (Cdev_add c m lo n, _) :: h =>
      if (m =? major) && (lo <=? minor) && (minor <? lo + n) && negb (bool_decide (c ∈ deleted))
      then Some c else cdev_at deleted major minor h
  | _ :: h => cdev_at deleted major minor h
  end.
Definition open_reaches (major minor : Z) (h : trace) : option string :=
  c ← cdev_at [] major minor h; fops_of c h.

(** Whether a device node of that number exists. *)
Fixpoint has_node (major minor : Z) (h : trace) : bool :=
  match h with
  | [] => false
  | (Class_device_create _ m n _, _) :: h => ((m =? major) && (n =? minor)) || has_node major minor h
  | (Class_device_destroy _ m n, _) :: h => negb ((m =? major) && (n =? minor)) && has_node major minor h
  | _ :: h => has_node major minor h
  end.

(** After [hello_init], minor numbers 0 and 1 reach hello_open and 3 reaches hello2_open; there
    is a node for minor number 2, but no character device covers it.  [hello_exit] takes all nodes
    and devices away. *)
Theorem hello_minors w s :
  ∃ s' h', run w Hello.hello_init s [] = (Done 0, s', h')
    ∧ (∀ k, 0 <= k < 4 → has_node (Hello.major s') k h' = true
         ∧ open_reaches (Hello.major s') k h' =
             if k <? 2 then Some "hello_fops"%string else if k =? 3 then Some "hello2_fops"%string else None)
    ∧ ∃ h'', run w Hello.hello_exit s' h' = (Done (), s', h'')
        ∧ ∀ k, 0 <= k < 4 → has_node (Hello.major s') k h'' = false ∧ open_reaches (Hello.major s') k h'' = None.
Proof.
  unfold Hello.hello_init. plain_step w. rewrite run_bind.
  assert (∃ s1 e, run w (if truthy (Hello.major s)
        then call_ (Register_chrdev_region (Hello.major s) 0 Hello.HELLO_COUNT "hello")
        else a ← calld (Alloc_chrdev_region 0 Hello.HELLO_COUNT "hello");
             store (λ s, Hello.St (nth 0 (dat a) 0) (Hello.cls s))) s [] = (Done (), s1, [e])
    ∧ match e.1 with Register_chrdev_region _ _ _ _ | Alloc_chrdev_region _ _ _ => True | _ => False end)
    as (s1 & [c a] & -> & Hc).
  { destruct (truthy (Hello.major s)); do 2 eexists; split; by try reflexivity. }
  cbv beta iota. do 12 plain_step w. cbn [Hello.major].
  do 2 eexists. split; [reflexivity|]. cbn [Hello.major]. split.
  - intros k Hk. clear - Hc Hk. generalize (Hello.major s1). intros m. unfold open_reaches.
    destruct c; try done;
      (assert (k = 0 ∨ k = 1 ∨ k = 2 ∨ k = 3) as [->|[->|[->| ->]]] by lia);
      cbn; rewrite ?Z.eqb_refl; cbn; done.
  - unfold Hello.hello_exit. do 10 plain_step w. eexists. split; [reflexivity|].
    intros k Hk. clear - Hc Hk. generalize (Hello.major s1). intros m. unfold open_reaches.
    destruct c; try done;
      (assert (k = 0 ∨ k = 1 ∨ k = 2 ∨ k = 3) as [->|[->|[->| ->]]] by lia);
      cbn; rewrite ?Z.eqb_refl; cbn; done.
Qed.

Lemma xmit_run w n s h :
  ∃ a, run w (VirtNet.my_hard_start_xmit n) s h =
    (Done 0, VirtNet.St (VirtNet.virt_net_dev s) (s32 (VirtNet.cnt s + 1)) (u32 (VirtNet.tx_packets s + 1)) (u32 n),
     (Printk "my_hard_start_xmit cnt = %d\n" [s32 (VirtNet.cnt s + 1)], a) :: h).
Proof. unfold VirtNet.my_hard_start_xmit. do 5 plain_step w. by eexists. Qed.

(** The virtual card accepts every packet: each transmission returns 0 and makes no call but one
    message with a running number (so the packet buffer is never released).  The packet count is
    right modulo 2^32, but [tx_bytes] is the length of the last packet, not the sum. *)
Theorem virt_net_statistics w lens s h :
  Forall (λ n, 0 <= n < 2 ^ 32) lens → VirtNet.tx_packets s = u32 (VirtNet.tx_packets s) →
  ∃ s' new, run w (session (VirtNet.my_hard_start_xmit <$> lens)) s h
              = (Done (replicate (length lens) 0), s', new ++ h)
    ∧ VirtNet.tx_packets s' = u32 (VirtNet.tx_packets s + Z.of_nat (length lens))
    ∧ VirtNet.tx_bytes s' = List.last lens (VirtNet.tx_bytes s)
    ∧ length new = length lens
    ∧ Forall (λ e, ∃ n, e.1 = Printk "my_hard_start_xmit cnt = %d\n" [n]) new.
Proof.
  intros Hf. revert s h. induction Hf as [|n lens Hn Hf IH]; intros s h Hs.
  - exists s, []. cbn. rewrite Z.add_0_r. by split_and!.
  - cbn [fmap list_fmap session]. rewrite run_bind.
    destruct (xmit_run w n s h) as [a ->]. cbv beta iota. rewrite run_bind.
    match goal with |- context [run w (session _) ?s ?h] =>
      destruct (IH s h) as (s' & new & -> & H1 & H2 & H3 & H4) end.
    { cbn. by rewrite u32_idemp. }
    cbn [VirtNet.tx_packets VirtNet.tx_bytes VirtNet.cnt] in *.
    eexists s', (new ++ [_]). split; [rewrite <- app_assoc; reflexivity|]. split_and!.
    + rewrite H1. cbn [length]. unfold u32. rewrite Zplus_mod_idemp_l. f_equal. lia.
    + rewrite H2, u32_small by done. destruct lens as [|n' lens]; [done|]. clear. cbn [List.last].
      revert n'. induction lens as [|y l IHl]; intros z; [done|apply (IHl y)].
    + rewrite length_app. simpl. lia.
    + apply Forall_app. split; [done|]. constructor; [by eexists|done].
Qed.

Lemma virt_net_statistics_witness :
  let s := VirtNet.St 1 0 0 0 in
  ∃ s' new, run (λ _ _, Ans 0 []) (session (VirtNet.my_hard_start_xmit <$> [98; 60; 1500])) s []
              = (Done (replicate 3 0), s', new ++ [])
    ∧ VirtNet.tx_packets s' = u32 (0 + 3) ∧ VirtNet.tx_bytes s' = List.last [98; 60; 1500] 0
    ∧ length new = 3%nat
    ∧ Forall (λ e, ∃ n, e.1 = Printk "my_hard_start_xmit cnt = %d\n" [n]) new.
Proof. intros s. apply (virt_net_statistics (λ _ _, Ans 0 []) [98; 60; 1500] s []); [|done]. repeat constructor; lia. Defined.
