(* ===== verification/TsFilters.v ===== *)
(** * TsFilters: the tslib filter plugins (11th_ts/tslib/plugins)

    A module of the filter chain reads samples from the next one: [Source] is the interface of the
    [read] operation, [SourceOk] what a reader promises to its caller.  Each plugin is an instance
    over an arbitrary upstream. *)

From S2P Require Import Prelude.

(** [struct ts_sample]: [pressure] is unsigned, the time stamp one number. *)
Record ts_sample := Sample { x : Z; y : Z; pressure : Z; tv : Z }.

(** [ops->read(info, samp, nr)]: the return value, the samples stored, the new state; [None] is a
    fault (or a loop that does not end). *)
Class Source (U : Type) := read_from : nat → U → option (Z * list ts_sample * U).

(** From a state in [P] a read does not fault, keeps [P], and stores as many samples as it returns,
    at most [nr], unless it returns a negative number. *)
Class SourceOk (U : Type) `{Source U} (P : U → Prop) : Prop :=
  source_ok nr u : P u → ∃ ret l u', read_from nr u = Some (ret, l, u') ∧ P u'
    ∧ (ret < 0 ∨ (ret = Z.of_nat (length l) ∧ (length l ≤ nr)%nat)).

(** A queue of samples read as far as it goes: the upstream of the examples. *)
#[export] Instance queue_source : Source (list ts_sample) := λ nr q,
  Some (Z.of_nat (length (take nr q)), take nr q, drop nr q).
#[export] Instance queue_ok : SourceOk (list ts_sample) (λ _, True).
Proof. intros nr q _. do 3 eexists. split; [done|]. split; [done|]. right. split; [done|]. rewrite length_take. lia. Qed.

(** ** pthres.c *)

Module Pthres.
(** [struct tslib_pthres] and the static variables of [pthres_read]. *)
Record pthres := St { pmin : Z; pmax : Z; xsave : Z; ysave : Z; press : Z }.
Definition INT_MAX := 2 ^ 31 - 1.
Definition init : pthres := St 1 INT_MAX 0 0 0.
Definition set_press v p := St (pmin p) (pmax p) (xsave p) (ysave p) v.
Definition set_save a b p := St (pmin p) (pmax p) a b (press p).

(** [memmove(s, s + 1, left * sizeof(struct ts_sample))] in the caller's array. *)
Definition memmove_down (arr : list ts_sample) (s left : nat) : list ts_sample :=
  take s arr ++ take left (drop (S s) arr) ++ drop (s + left) arr.

(** The loop over [ret] samples: [todo] is [ret - i], [s] the index of the pointer. *)
Fixpoint pthres_loop (todo ret s nr : nat) (arr : list ts_sample) (p : pthres) :
    option (list ts_sample * nat * pthres) :=
  match todo with
  | O => Some (arr, nr, p)
  | S todo =>
      match arr !! s with
      | None => None
      | Some c =>
          if pressure c <? pmin p
          then
            if truthy (press p)
            then
              pthres_loop todo ret (S s) (S nr)
                (<[s := Sample (xsave p) (ysave p) 0 (tv c)]> arr) (set_press 0 p)
            else
              let left := (ret - nr - 1)%nat in
              if (0 <? left)%nat then pthres_loop todo ret s nr (memmove_down arr s left) p
              else Some (arr, nr, p)
          else if pmax p <? pressure c
          then
            let left := (ret - nr - 1)%nat in
            if (0 <? left)%nat then pthres_loop todo ret s nr (memmove_down arr s left) p
            else Some (arr, nr, p)
          else pthres_loop todo ret (S s) (S nr) arr (set_save (x c) (y c) (set_press 1 p))
      end
  end.

Definition pthres_read {U} `{Source U} (nr : nat) (st : pthres * U) :
    option (Z * list ts_sample * (pthres * U)) :=
  '(ret, samp, u) ← read_from nr (snd st);
  if 0 <=? ret
  then
    '(arr, n, p) ← pthres_loop (Z.to_nat ret) (Z.to_nat ret) 0 0 samp (fst st);
    Some (Z.of_nat n, take n arr, (p, u))
  else Some (ret, [], (fst st, u)).

(** [threshold_vars] after [strtoul]: parameter 0 is [pmin], 1 is [pmax] (both unsigned). *)
Definition threshold_vars (data v : Z) (p : pthres) : Z * pthres :=
  if data =? 0 then (0, St (u32 v) (pmax p) (xsave p) (ysave p) (press p))
  else if data =? 1 then (0, St (pmin p) (u32 v) (xsave p) (ysave p) (press p))
  else (-1, p).
End Pthres.
#[export] Instance pthres_source U `{Source U} : Source (Pthres.pthres * U) := Pthres.pthres_read.

(** *** The filter without the array *)

Section Pthres.
Import Pthres.

(** One sample: dropped, passed on, or turned into a release at the last position. *)
Definition pthres_step (c : ts_sample) (p : pthres) : option ts_sample * pthres :=
  if pressure c <? pmin p
  then if truthy (press p) then (Some (Sample (xsave p) (ysave p) 0 (tv c)), set_press 0 p) else (None, p)
  else if pmax p <? pressure c then (None, p)
  else (Some c, set_save (x c) (y c) (set_press 1 p)).
Fixpoint pthres_filter (l : list ts_sample) (p : pthres) : list ts_sample * pthres :=
  match l with
  | [] => ([], p)
  | c :: l =>
      let '(o, p1) := pthres_step c p in
      let '(l', p2) := pthres_filter l p1 in
      (match o with Some c => c :: l' | None => l' end, p2)
  end.

Lemma memmove_down_spec kept c rest junk left :
  (length rest ≤ left ≤ length (rest ++ junk))%nat →
  ∃ junk', memmove_down (kept ++ c :: rest ++ junk) (length kept) left = kept ++ rest ++ junk'.
Proof.
  intros Hl. unfold memmove_down. rewrite take_app_length.
  replace (drop (S (length kept)) (kept ++ c :: rest ++ junk)) with (rest ++ junk).
  - rewrite (take_app_ge rest) by lia. eexists. f_equal. rewrite <- app_assoc. f_equal.
  - replace (S (length kept)) with (length (kept ++ [c])) by (rewrite length_app; simpl; lia).
    change (c :: rest ++ junk) with ([c] ++ rest ++ junk). by rewrite app_assoc, drop_app_length.
Qed.

Lemma pthres_loop_spec rest kept junk ret p :
  (length kept + length rest ≤ ret)%nat → (ret ≤ length (kept ++ rest ++ junk))%nat →
  ∃ arr, pthres_loop (length rest) ret (length kept) (length kept) (kept ++ rest ++ junk) p
           = Some (arr, length (kept ++ (pthres_filter rest p).1), (pthres_filter rest p).2)
       ∧ ∃ junk', arr = (kept ++ (pthres_filter rest p).1) ++ junk'.
Proof.
  revert kept junk p. induction rest as [|c rest IH]; intros kept junk p Hr Ha.
  - simpl. rewrite app_nil_r. eexists. split; [done|]. by exists junk.
  - cbn [length] in *. rewrite !length_app in Ha. cbn [length] in Ha.
    assert (∀ q, ∃ arr,
      (if (0 <? ret - length kept - 1)%nat
       then pthres_loop (length rest) ret (length kept) (length kept)
              (memmove_down (kept ++ (c :: rest) ++ junk) (length kept) (ret - length kept - 1)) q
       else Some (kept ++ (c :: rest) ++ junk, length kept, q))
      = Some (arr, length (kept ++ (pthres_filter rest q).1), (pthres_filter rest q).2)
      ∧ ∃ junk', arr = (kept ++ (pthres_filter rest q).1) ++ junk') as Hdrop.
    { intros q. destruct (Nat.ltb_spec 0 (ret - length kept - 1)) as [Hl|Hl].
      - destruct (memmove_down_spec kept c rest junk (ret - length kept - 1)) as [junk' E];
          [rewrite length_app; lia|]. cbn [app]. rewrite E.
        assert (ret ≤ length (memmove_down (kept ++ c :: rest ++ junk) (length kept) (ret - length kept - 1)))%nat as Hm.
        { unfold memmove_down. rewrite !length_app, !length_take, !length_drop, !length_app. cbn [length].
          rewrite length_app. lia. }
        rewrite E in Hm. apply IH; [lia|done].
      - assert (rest = []) as -> by (destruct rest; [done|simpl in *; lia]).
        simpl. rewrite app_nil_r. eexists. split; [done|]. by exists (c :: junk). }
    cbn [pthres_loop app].
    rewrite lookup_app_r, Nat.sub_diag by lia. cbn [lookup list_lookup].
    cbn [pthres_filter]. unfold pthres_step.
    destruct (pressure c <? pmin p).
    + destruct (truthy (press p)); [|specialize (Hdrop p); by destruct (pthres_filter rest p)].
      rewrite insert_app_r_alt, Nat.sub_diag by lia. cbn [insert list_insert].
      destruct (IH (kept ++ [Sample (xsave p) (ysave p) 0 (tv c)]) junk (set_press 0 p)) as (arr & E & junk' & Ej).
      { rewrite length_app. simpl. lia. } { rewrite !length_app. simpl. lia. }
      rewrite length_app, Nat.add_1_r, <- !app_assoc in E. cbn [app] in E. rewrite E.
      destruct (pthres_filter rest (set_press 0 p)) as [l' p2]. cbn [fst snd] in *.
      exists arr. split; [done|]. exists junk'. by rewrite Ej, <- !app_assoc.
    + destruct (pmax p <? pressure c); [specialize (Hdrop p); by destruct (pthres_filter rest p)|].
      destruct (IH (kept ++ [c]) junk (set_save (x c) (y c) (set_press 1 p))) as (arr & E & junk' & Ej).
      { rewrite length_app. simpl. lia. } { rewrite !length_app. simpl. lia. }
      rewrite length_app, Nat.add_1_r, <- !app_assoc in E. cbn [app] in E. rewrite E.
      destruct (pthres_filter rest _) as [l' p2]. cbn [fst snd] in *.
      exists arr. split; [done|]. exists junk'. by rewrite Ej, <- !app_assoc.
Qed.
End Pthres.

(** What a client of pthres sees: presses within the bounds, and releases, each after a press and at
    its position; [cur] is the position of the press under way. *)
Fixpoint press_protocol (lo hi : Z) (cur : option (Z * Z)) (l : list ts_sample) : Prop :=
  match l with
  | [] => True
  | c :: l =>
      if lo <=? pressure c
      then pressure c <= hi ∧ press_protocol lo hi (Some (x c, y c)) l
      else pressure c = 0 ∧ cur = Some (x c, y c) ∧ press_protocol lo hi None l
  end.
Definition under_way (p : Pthres.pthres) : option (Z * Z) :=
  if truthy (Pthres.press p) then Some (Pthres.xsave p, Pthres.ysave p) else None.

Lemma pthres_filter_protocol l p :
  0 < Pthres.pmin p →
  press_protocol (Pthres.pmin p) (Pthres.pmax p) (under_way p) (pthres_filter l p).1.
Proof.
  revert p. induction l as [|c l IH]; intros p Hp; [done|]. cbn [pthres_filter]. unfold pthres_step.
  destruct (Z.ltb_spec (pressure c) (Pthres.pmin p)).
  - destruct (truthy (Pthres.press p)) eqn:E.
    + specialize (IH (Pthres.set_press 0 p) Hp). destruct (pthres_filter l _) as [l' p2].
      cbn [fst press_protocol pressure]. destruct (Z.leb_spec (Pthres.pmin p) 0); [lia|].
      unfold under_way at 1. rewrite E. split_and!; done.
    + specialize (IH p Hp). by destruct (pthres_filter l p) as [l' p2].
  - destruct (Z.ltb_spec (Pthres.pmax p) (pressure c)).
    + specialize (IH p Hp). by destruct (pthres_filter l p) as [l' p2].
    + specialize (IH (Pthres.set_save (x c) (y c) (Pthres.set_press 1 p)) Hp).
      destruct (pthres_filter l _) as [l' p2]. cbn [fst press_protocol].
      destruct (Z.leb_spec (Pthres.pmin p) (pressure c)); [|lia]. by split.
Qed.

(** [C32] pthres.  Whatever the upstream delivers in one read, the in-place loop with its
    [memmove] returns exactly the filtered list (in order, nothing lost after a dropped sample), and
    with a positive [pmin] the client sees only presses inside the bounds and releases that follow
    a press and repeat its position. *)
Theorem pthres_read_filters {U} `{Source U} nr p u ret l u' :
  read_from nr u = Some (ret, l, u') → ret = Z.of_nat (length l) → 0 < Pthres.pmin p →
  Pthres.pthres_read nr (p, u) =
    Some (Z.of_nat (length (pthres_filter l p).1), (pthres_filter l p).1, ((pthres_filter l p).2, u'))
  ∧ press_protocol (Pthres.pmin p) (Pthres.pmax p) (under_way p) (pthres_filter l p).1.
Proof.
  intros Hr -> Hp. split; [|by apply pthres_filter_protocol].
  unfold Pthres.pthres_read. cbn [fst snd]. rewrite Hr. cbn [mbind option_bind].
  destruct (Z.leb_spec 0 (Z.of_nat (length l))); [|lia]. rewrite Nat2Z.id.
  destruct (pthres_loop_spec l [] [] (length l) p) as (arr & E & junk & ->);
    [simpl; lia|by rewrite app_nil_r|].
  rewrite app_nil_r in E. cbn [app length] in E. rewrite E. cbn. by rewrite take_app_length.
Qed.

(** A press, a reading below the threshold (a release), noise, a press that is too hard, a press. *)
Lemma pthres_read_filters_witness :
  let q := [Sample 10 20 5 1; Sample 0 0 0 2; Sample 7 7 0 3; Sample 9 9 9 4; Sample 11 21 6 5] in
  let p := Pthres.St 1 8 0 0 0 in
  Pthres.pthres_read 8 (p, q) =
    Some (Z.of_nat (length (pthres_filter q p).1), (pthres_filter q p).1, ((pthres_filter q p).2, []))
  ∧ press_protocol (Pthres.pmin p) (Pthres.pmax p) (under_way p) (pthres_filter q p).1.
Proof. intros q p. by apply (pthres_read_filters 8 p q 5 q []). Defined.

#[export] Instance pthres_ok U `{SourceOk U P} : SourceOk (Pthres.pthres * U) (λ st, P st.2).
Proof.
  intros nr [p u] HP. destruct (source_ok nr u HP) as (ret & l & u' & E & HP' & Hl).
  change (read_from nr (p, u)) with (Pthres.pthres_read nr (p, u)).
  destruct Hl as [Hneg|[-> Hlen]].
  - unfold Pthres.pthres_read. cbn [fst snd]. rewrite E. cbn [mbind option_bind].
    destruct (Z.leb_spec 0 ret); [lia|]. do 3 eexists. split; [done|]. split; [done|]. by left.
  - unfold Pthres.pthres_read. cbn [fst snd]. rewrite E. cbn [mbind option_bind].
    destruct (Z.leb_spec 0 (Z.of_nat (length l))); [|lia]. rewrite Nat2Z.id.
    destruct (pthres_loop_spec l [] [] (length l) p) as (arr & E' & junk & ->);
      [simpl; lia|by rewrite app_nil_r|].
    rewrite app_nil_r in E'. cbn [app length] in E'. rewrite E'. cbn. rewrite take_app_length.
    do 3 eexists. split; [done|]. split; [done|]. right. split; [done|].
    clear -Hlen. assert (∀ q, length (pthres_filter l q).1 ≤ length l)%nat as Hf.
    { induction l as [|c l IH]; intros q; [done|]. cbn [pthres_filter]. destruct (pthres_step c q) as [o q1].
      specialize (IH ltac:(simpl in Hlen; lia) q1). destruct (pthres_filter l q1). destruct o; simpl in *; lia. }
    specialize (Hf p). lia.
Qed.

(** ** variance.c *)

Module Variance.
(** The flag word as its four bits. *)
Record variance := St {
  delta : Z; last : ts_sample; noise : ts_sample;
  pendown : bool; lastvalid : bool; noisevalid : bool; submitnoise : bool }.

Definition sqr (v : Z) : Z := s32 (v * v).
Definition dist (a b : ts_sample) : Z := s32 (sqr (s32 (x a - x b)) + sqr (s32 (y a - y b))).

(** One turn of the loop: stop, or go on with the samples stored in this turn. *)
Inductive turn (U : Type) :=
| Stop (v : variance) (u : U)
| Go (v : variance) (u : U) (out : list ts_sample).
Arguments Stop {U} v u.
Arguments Go {U} v u out.

(** The part of the turn after [cur] is known. *)
Definition classify (v : variance) (cur : ts_sample) : variance * list ts_sample :=
  let accept v := (St (delta v) cur (noise v) (pendown v) (lastvalid v) (noisevalid v) (submitnoise v), [last v]) in
  if pressure cur =? 0
  then
    let '(n, sub) := if pendown v then (cur, true) else (noise v, submitnoise v) in
    accept (St (delta v) (last v) n false false false sub)
  else
    if negb (lastvalid v)
    then (St (delta v) cur (noise v) true true (noisevalid v) (submitnoise v), [])
    else if delta v <? dist cur (last v)
    then
      if noisevalid v
      then (St (delta v) (noise v) cur true true false true, [noise v])
      else (St (delta v) (last v) cur true true true (submitnoise v), [])
    else accept (St (delta v) (last v) (noise v) true true false (submitnoise v)).

Definition variance_turn {U} `{Source U} (v : variance) (u : U) : option (turn U) :=
  if submitnoise v
  then
    let '(v1, out) := classify (St (delta v) (last v) (noise v) (pendown v) (lastvalid v) (noisevalid v) false) (noise v) in
    Some (Go v1 u out)
  else
    '(ret, l, u1) ← read_from 1 u;
    if ret <? 1 then Some (Stop v u1)
    else
      cur ← head l;
      let '(v1, out) := classify v cur in Some (Go v1 u1 out).

(** [while (count < nr)], with [fuel] turns at most. *)
Fixpoint variance_loop {U} `{Source U} (fuel nr : nat) (v : variance) (u : U) (samp : list ts_sample) :
    option (list ts_sample * variance * U) :=
  if (length samp <? nr)%nat
  then
    match fuel with
    | O => None
    | S fuel =>
        t ← variance_turn v u;
        match t with
        | Stop v u => Some (samp, v, u)
        | Go v u out => variance_loop fuel nr v u (samp ++ out)
        end
    end
  else Some (samp, v, u).

(** Three turns are enough for one sample. *)
Definition variance_read {U} `{Source U} (nr : nat) (st : variance * U) :
    option (Z * list ts_sample * (variance * U)) :=
  '(samp, v, u) ← variance_loop (3 * nr + 3) nr (fst st) (snd st) [];
  Some (Z.of_nat (length samp), samp, (v, u)).

(** [mod_init] with the [delta] the parameters give; [last] and [noise] are not initialised. *)
Definition init (d : Z) (last noise : ts_sample) : variance :=
  St (sqr d) last noise false false false false.
End Variance.
#[export] Instance variance_source U `{Source U} : Source (Variance.variance * U) := Variance.variance_read.

Section Variance.
Import Variance.

(** Turns without output still possible before the next one. *)
Definition slack (v : variance) : nat := (if lastvalid v then 0 else 1) + (if noisevalid v then 0 else 1).

Lemma classify_progress v c :
  (length (classify v c).2 = 1 ∧ slack (classify v c).1 ≤ 2)%nat
  ∨ (length (classify v c).2 = 0 ∧ slack (classify v c).1 < slack v)%nat.
Proof.
  unfold classify, slack. destruct (pressure c =? 0); [destruct (pendown v); simpl; left; lia|].
  destruct (lastvalid v), (noisevalid v), (delta v <? dist c (last v)); simpl; lia.
Qed.

Lemma variance_loop_total {U} `{SourceOk U P} fuel nr v u samp :
  P u → (length samp ≤ nr)%nat → (3 * (nr - length samp) + slack v < fuel)%nat →
  ∃ out v' u', variance_loop fuel nr v u samp = Some (out, v', u') ∧ P u' ∧ (length out ≤ nr)%nat.
Proof.
  revert v u samp. induction fuel as [|fuel IH]; intros v u samp HP Hs Hf; [lia|].
  cbn [variance_loop]. destruct (Nat.ltb_spec (length samp) nr) as [Hlt|Hge]; [|do 3 eexists; by split].
  unfold variance_turn. destruct (submitnoise v).
  - set (v0 := St _ _ _ _ _ _ _). pose proof (classify_progress v0 (noise v)) as Hp.
    assert (slack v0 = slack v) as Hv by done.
    destruct (classify v0 (noise v)) as [v1 out]. cbn [fst snd mbind option_bind] in *.
    apply IH; [done|rewrite length_app; lia|rewrite length_app; lia].
  - destruct (source_ok 1 u HP) as (ret & l & u1 & E & HP1 & Hl). rewrite E. cbn [mbind option_bind].
    destruct (Z.ltb_spec ret 1) as [Hr|Hr]; [do 3 eexists; by split|].
    destruct Hl as [?|[-> Hl]]; [lia|]. destruct l as [|c l]; [simpl in Hr; lia|]. cbn [head mbind option_bind].
    pose proof (classify_progress v c) as Hp. destruct (classify v c) as [v1 out]. cbn [fst snd] in *.
    apply IH; [done|rewrite length_app; lia|rewrite length_app; lia].
Qed.

(** Turns on a queue. *)
Lemma queue_turn fuel nr v c q samp :
  submitnoise v = false → (length samp < nr)%nat →
  variance_loop (S fuel) nr v (c :: q) samp =
    variance_loop fuel nr (classify v c).1 q (samp ++ (classify v c).2).
Proof.
  intros Hs Hl. cbn [variance_loop]. destruct (Nat.ltb_spec (length samp) nr); [|lia].
  unfold variance_turn. rewrite Hs. cbn [read_from queue_source take length mbind option_bind].
  change (Z.of_nat 1 <? 1) with false. cbv iota. cbn [head mbind option_bind drop].
  by destruct (classify v c).
Qed.
Lemma queue_end fuel nr v samp :
  submitnoise v = false → variance_loop (S fuel) nr v ([] : list ts_sample) samp = Some (samp, v, []).
Proof.
  intros Hs. cbn [variance_loop]. destruct (length samp <? nr)%nat; [|done].
  unfold variance_turn. by rewrite Hs.
Qed.
Lemma submit_turn {U} `{Source U} fuel nr v (u : U) samp :
  submitnoise v = true → (length samp < nr)%nat →
  let v0 := St (delta v) (last v) (noise v) (pendown v) (lastvalid v) (noisevalid v) false in
  variance_loop (S fuel) nr v u samp =
    variance_loop fuel nr (classify v0 (noise v)).1 u (samp ++ (classify v0 (noise v)).2).
Proof.
  intros Hs Hl v0. cbn [variance_loop]. destruct (Nat.ltb_spec (length samp) nr); [|lia].
  unfold variance_turn. rewrite Hs. fold v0. by destruct (classify v0 (noise v)).
Qed.

(** A stroke that continues from [s]: samples near the one before, with isolated jumps after which
    the pen is again near the sample before the jump.  The second list is the stroke without the
    jumps. *)
Inductive stroke (d : Z) : ts_sample → list ts_sample → list ts_sample → Prop :=
| stroke_end s : stroke d s [] []
| stroke_near s c l l' :
    pressure c ≠ 0 → dist c s <= d → stroke d c l l' → stroke d s (c :: l) (c :: l')
| stroke_jump s n c l l' :
    pressure n ≠ 0 → d < dist n s → pressure c ≠ 0 → dist c s <= d → stroke d c l l' →
    stroke d s (n :: c :: l) (c :: l').

(** In the middle of a stroke: [last] is the latest good sample, [sus] whether a jump is pending. *)
Definition drawing (d : Z) (s n : ts_sample) (sus : bool) : variance := St d s n true true sus false.

Lemma classify_near d s n sus c :
  pressure c ≠ 0 → dist c s <= d → classify (drawing d s n sus) c = (drawing d c n false, [s]).
Proof.
  intros Hp Hd. unfold classify. rewrite (proj2 (Z.eqb_neq _ 0)) by done. cbn.
  destruct (Z.ltb_spec d (dist c s)); [lia|done].
Qed.
Lemma classify_jump d s n c :
  pressure c ≠ 0 → d < dist c s → classify (drawing d s n false) c = (drawing d s c true, []).
Proof.
  intros Hp Hd. unfold classify. rewrite (proj2 (Z.eqb_neq _ 0)) by done. cbn.
  destruct (Z.ltb_spec d (dist c s)); [done|lia].
Qed.

Lemma stroke_length d s l l' : stroke d s l l' → (length l' ≤ length l ≤ 2 * length l')%nat.
Proof. induction 1; simpl in *; lia. Qed.

Lemma stroke_run d s l l' n e nr fuel samp :
  stroke d s l l' → pressure e = 0 →
  (length l + 4 ≤ fuel)%nat → (length samp + length l' + 2 < nr)%nat →
  ∃ v, variance_loop fuel nr (drawing d s n false) (l ++ [e]) samp = Some (samp ++ s :: l' ++ [e], v, [])
    ∧ last v = e ∧ pendown v = false ∧ lastvalid v = false ∧ noisevalid v = false ∧ submitnoise v = false.
Proof.
  intros Hs He. revert n fuel samp. induction Hs as [s|s c l l' Hp Hd Hs IH|s n0 c l l' Hp0 Hd0 Hp Hd Hs IH];
    intros n fuel samp Hf Hn; cbn [length app] in *.
  - do 4 (destruct fuel as [|fuel]; [lia|]). rewrite queue_turn by (done || lia).
    unfold classify. rewrite He. cbn [Z.eqb drawing pendown fst snd delta last].
    rewrite submit_turn by (try done; rewrite length_app; simpl; lia).
    unfold classify. cbn [noise]. rewrite He. cbn [Z.eqb pendown fst snd delta last noise submitnoise].
    rewrite <- app_assoc. rewrite queue_end by done. eexists. split; [done|]. done.
  - destruct fuel as [|fuel]; [lia|]. rewrite queue_turn by (done || lia).
    rewrite classify_near by done. cbn [fst snd].
    destruct (IH n fuel (samp ++ [s])) as (v & E & Hv); [lia|rewrite length_app; simpl; lia|].
    exists v. split; [|done]. by rewrite E, <- app_assoc.
  - do 2 (destruct fuel as [|fuel]; [lia|]). rewrite queue_turn by (done || lia).
    rewrite classify_jump by done. cbn [fst snd]. rewrite app_nil_r.
    rewrite queue_turn by (done || lia). rewrite classify_near by done. cbn [fst snd].
    destruct (IH n0 fuel (samp ++ [s])) as (v & E & Hv); [lia|rewrite length_app; simpl; lia|].
    exists v. split; [|done]. by rewrite E, <- app_assoc.
Qed.
End Variance.

#[export] Instance variance_ok U `{SourceOk U P} : SourceOk (Variance.variance * U) (λ st, P st.2).
Proof.
  intros nr [v u] HP. change (read_from nr (v, u)) with (Variance.variance_read nr (v, u)).
  unfold Variance.variance_read. cbn [fst snd].
  destruct (variance_loop_total (3 * nr + 3) nr v u []) as (out & v' & u' & E & HP' & Hl); [done|simpl; lia| |].
  { unfold slack. simpl. destruct (Variance.lastvalid v), (Variance.noisevalid v); lia. }
  rewrite E. cbn [mbind option_bind]. do 3 eexists. split; [done|]. split; [done|]. by right.
Qed.

(** [C31] variance terminates and suppresses noise.  A stroke whose samples are close to each other
    except for isolated jumps, ended by a release, comes out as the stroke without the jumps, in
    order and complete, followed at once by the release. *)
Theorem variance_rejects_noise d0 g1 g2 s l l' e nr :
  let d := Variance.sqr d0 in
  stroke d s l l' → pressure s ≠ 0 → pressure e = 0 → (length l' + 3 < nr)%nat →
  ∃ v, Variance.variance_read nr (Variance.init d0 g1 g2, s :: l ++ [e])
         = Some (Z.of_nat (length (s :: l' ++ [e])), s :: l' ++ [e], (v, []))
    ∧ Variance.pendown v = false ∧ Variance.lastvalid v = false.
Proof.
  intros d Hs Hp He Hn. unfold Variance.variance_read. cbn [fst snd].
  replace (3 * nr + 3)%nat with (S (3 * nr + 2)) by lia.
  rewrite queue_turn by (done || simpl; lia).
  unfold Variance.classify. rewrite (proj2 (Z.eqb_neq _ 0)) by done. cbn [negb Variance.init Variance.lastvalid fst snd].
  pose proof (stroke_length _ _ _ _ Hs) as Hl.
  destruct (stroke_run d s l l' g2 e nr (3 * nr + 2) [] Hs He) as (v & E & Hv); [lia|simpl; lia|].
  exists v.
  match goal with |- context [Variance.variance_loop _ _ ?v _ ?smp] =>
    change v with (drawing d s g2 false); change smp with (@nil ts_sample) end.
  rewrite E. split; [done|]. by destruct Hv as (_ & ? & ? & _).
Qed.

(** A stroke with one jump. *)
Lemma variance_rejects_noise_witness :
  let s := Sample 100 100 1 1 in
  let l := [Sample 105 101 1 2; Sample 900 40 1 3; Sample 110 102 1 4] in
  let l' := [Sample 105 101 1 2; Sample 110 102 1 4] in
  let e := Sample 0 0 0 5 in
  ∃ v, Variance.variance_read 8 (Variance.init 30 (Sample 0 0 0 0) (Sample 0 0 0 0), s :: l ++ [e])
         = Some (Z.of_nat (length (s :: l' ++ [e])), s :: l' ++ [e], (v, []))
    ∧ Variance.pendown v = false ∧ Variance.lastvalid v = false.
Proof.
  intros s l l' e. apply (variance_rejects_noise 30 _ _ s l l' e 8); [|done|done|simpl; lia].
  apply stroke_near; [done|vm_compute; done|].
  apply stroke_jump; [done|vm_compute; done|done|vm_compute; done|]. apply stroke_end.
Defined.

(** A quick movement is not passed through: when two samples in a row are far from the last
    good one, the first of them is delivered twice and the last good one never, although the
    comment at the top of the file says that both are passed through.  Also, the first read after
    initialisation delivers the uninitialised [last] when it finds a release. *)
Theorem variance_quick_move_loses :
  let p v t := Sample v v 1 t in
  let q := [p 100 1; p 500 2; p 505 3; p 510 4; Sample 0 0 0 5] in
  let garbage := Sample 77 77 77 77 in
  (∃ v, Variance.variance_read 8 (Variance.init 30 garbage garbage, q)
     = Some (5, [p 500 2; p 500 2; p 505 3; p 510 4; Sample 0 0 0 5], (v, [])))
  ∧ ∃ v, Variance.variance_read 8 (Variance.init 30 garbage garbage, [Sample 0 0 0 1]) = Some (1, [garbage], (v, [])).
Proof. split; eexists; vm_compute; reflexivity. Qed.

(** ** dejitter.c *)

Module Dejitter.
Definition NR_SAMPHISTLEN := 4.
Definition weight : list (list Z) := [[5; 3; 0; 0; 3]; [8; 5; 3; 0; 4]; [6; 4; 3; 3; 4]].

Record ts_hist := Hist { h_x : Z; h_y : Z; h_p : Z }.
Record dejitter := St { delta : Z; nr : Z; head : Z; hist : list ts_hist }.

Definition sqr (v : Z) : Z := s32 (v * v).
Definition wrap (i : Z) : Z := i &&& (NR_SAMPHISTLEN - 1).
Definition nth_hist (l : list ts_hist) (i : Z) : ts_hist := nth (Z.to_nat i) l (Hist 0 0 0).

(** The loop of [average]: [todo] is [djt->nr - i], [sn] the position in the ring. *)
Fixpoint average_loop (todo : nat) (i sn : Z) (w : list Z) (hist : list ts_hist) (ax ay ap : Z) : Z * Z * Z :=
  match todo with
  | O => (ax, ay, ap)
  | S todo =>
      let h := nth_hist hist sn in let wi := nth (Z.to_nat i) w 0 in
      average_loop todo (i + 1) (wrap (sn - 1)) w hist
        (s32 (ax + h_x h * wi)) (s32 (ay + h_y h * wi)) (u32 (ap + h_p h * wi))
  end.
Definition average (d : dejitter) : Z * Z * Z :=
  let w := nth (Z.to_nat (nr d - 2)) weight [] in
  let '(ax, ay, ap) := average_loop (Z.to_nat (nr d)) 0 (head d) w (hist d) 0 0 0 in
  let sh := nth 4 w 0 in
  (ax >>> sh, ay >>> sh, ap >>> sh).

(** One turn of the loop: each sample read is replaced by one sample at the same index. *)
Definition dejitter_step (d : dejitter) (s : ts_sample) : dejitter * ts_sample :=
  if pressure s =? 0 then (St (delta d) 0 (head d) (hist d), s)
  else
    let d1 :=
      if truthy (nr d)
      then
        let prev := nth_hist (hist d) (wrap (head d - 1)) in
        if delta d <? s32 (sqr (s32 (x s - h_x prev)) + sqr (s32 (y s - h_y prev)))
        then St (delta d) 0 (head d) (hist d) else d
      else d in
    let hist' := <[Z.to_nat (head d1) := Hist (x s) (y s) (pressure s)]> (hist d1) in
    let nr' := if nr d1 <? NR_SAMPHISTLEN then nr d1 + 1 else nr d1 in
    let d2 := St (delta d1) nr' (head d1) hist' in
    let out := if nr' =? 1 then s else let '(ax, ay, ap) := average d2 in Sample ax ay ap (tv s) in
    (St (delta d1) nr' (wrap (head d1 + 1)) hist', out).

Fixpoint dejitter_all (d : dejitter) (l : list ts_sample) : dejitter * list ts_sample :=
  match l with
  | [] => (d, [])
  | s :: l => let '(d1, o) := dejitter_step d s in let '(d2, l') := dejitter_all d1 l in (d2, o :: l')
  end.

(** A negative result of the upstream makes the loop run zero times. *)
Definition dejitter_read {U} `{Source U} (n : nat) (st : dejitter * U) :
    option (Z * list ts_sample * (dejitter * U)) :=
  '(ret, l, u) ← read_from n (snd st);
  let '(d, out) := dejitter_all (fst st) (take (Z.to_nat ret) l) in
  Some (Z.of_nat (length out), out, (d, u)).

(** [mod_init] with the [delta] of the parameters. *)
Definition init (d : Z) : dejitter := St (sqr d) 0 0 (replicate 4 (Hist 0 0 0)).
End Dejitter.
#[export] Instance dejitter_source U `{Source U} : Source (Dejitter.dejitter * U) := Dejitter.dejitter_read.

(** The specification: a window of at most four positions, latest first, and a weighted mean of
    them, in unbounded arithmetic. *)
Module Window.
Import Dejitter.
Definition weight_at (w : list Z) (i : Z) : Z := nth (Z.to_nat i) w 0.
Fixpoint wsum (f : ts_hist → Z) (i : Z) (w : list Z) (now : list ts_hist) : Z :=
  match now with [] => 0 | h :: now => f h * weight_at w i + wsum f (i + 1) w now end.
Definition far (dl : Z) (h : ts_hist) (s : ts_sample) : bool :=
  dl <? (x s - h_x h) * (x s - h_x h) + (y s - h_y h) * (y s - h_y h).
Definition smooth (now : list ts_hist) (s : ts_sample) : ts_sample :=
  if (length now =? 1)%nat then s
  else
    let w := nth (length now - 2) weight [] in let sh := weight_at w 4 in
    Sample (wsum h_x 0 w now >>> sh) (wsum h_y 0 w now >>> sh) (wsum h_p 0 w now >>> sh) (tv s).
Definition step (dl : Z) (past : list ts_hist) (s : ts_sample) : list ts_hist * ts_sample :=
  if pressure s =? 0 then ([], s)
  else
    let past' := match past with h :: _ => if far dl h s then [] else past | [] => [] end in
    let now := take 4 (Hist (x s) (y s) (pressure s) :: past') in
    (now, smooth now s).
Fixpoint all (dl : Z) (past : list ts_hist) (l : list ts_sample) : list ts_hist * list ts_sample :=
  match l with
  | [] => (past, [])
  | s :: l => let '(p1, o) := step dl past s in let '(p2, l') := all dl p1 l in (p2, o :: l')
  end.

(** The live entries of the ring, latest first, and what is true of every reachable state. *)
Fixpoint ring (hist : list ts_hist) (sn : Z) (k : nat) : list ts_hist :=
  match k with O => [] | S k => nth_hist hist sn :: ring hist (wrap (sn - 1)) k end.
Definition past_of (d : dejitter) : list ts_hist := ring (hist d) (wrap (head d - 1)) (Z.to_nat (nr d)).
Definition wf (d : dejitter) : Prop := length (hist d) = 4%nat ∧ 0 <= head d < 4 ∧ 0 <= nr d <= 4.

(** Screen coordinates, and a pressure, that no computation of the filter overflows on. *)
Definition small (h : ts_hist) : Prop := - 2 ^ 14 <= h_x h < 2 ^ 14 ∧ - 2 ^ 14 <= h_y h < 2 ^ 14 ∧ 0 <= h_p h < 2 ^ 26.
Definition hist_of (s : ts_sample) : ts_hist := Hist (x s) (y s) (pressure s).
End Window.

Section Dejitter.
Import Dejitter Window.

Lemma nth_bounded (l : list Z) k : Forall (λ v, 0 <= v <= 8) l → 0 <= nth k l 0 <= 8.
Proof. intros HF. revert k. induction HF as [|a l Ha _ IH]; intros [|k]; cbn; [lia|lia|done|apply IH]. Qed.
Lemma weights_bounded k j : 0 <= weight_at (nth k weight []) j <= 8.
Proof.
  apply nth_bounded. destruct k as [|[|[|k]]]; [repeat constructor; vm_compute; discriminate..|].
  destruct k; constructor.
Qed.

(** A weighted sum of values in an interval, with weights that add up to a power of two. *)
Lemma shift_between lo hi v k : 0 <= k → 2 ^ k * lo <= v <= 2 ^ k * hi → lo <= v >>> k <= hi.
Proof.
  intros Hk Hv. rewrite Z.shiftr_div_pow2 by done. split.
  - apply Z.div_le_lower_bound; lia.
  - assert (v / 2 ^ k < hi + 1); [|lia]. apply Z.div_lt_upper_bound; [lia|]. nia.
Qed.

(** No product or partial sum of the mean leaves the machine's integers. *)
Lemma average_loop_exact k hist todo i sn ax ay ap W :
  let w := nth k weight [] in
  0 <= W → W + 8 * Z.of_nat todo <= 32 → Forall small (ring hist sn todo) →
  Z.abs ax <= W * (2 ^ 26 - 1) → Z.abs ay <= W * (2 ^ 26 - 1) → 0 <= ap <= W * (2 ^ 26 - 1) →
  average_loop todo i sn w hist ax ay ap
  = (ax + wsum h_x i w (ring hist sn todo), ay + wsum h_y i w (ring hist sn todo),
     ap + wsum h_p i w (ring hist sn todo)).
Proof.
  intros w. revert i sn ax ay ap W.
  induction todo as [|todo IH]; intros i sn ax ay ap W HW Hle Hs Hax Hay Hap; cbn [average_loop ring wsum].
  { by rewrite !Z.add_0_r. }
  fold (weight_at w i). pose proof (weights_bounded k i) as Hwi. fold w in Hwi.
  apply Forall_cons in Hs as [(Bx & By & Bp) Hs].
  assert (∀ h, - 2 ^ 14 <= h < 2 ^ 14 → Z.abs (h * weight_at w i) <= weight_at w i * (2 ^ 26 - 1)) as HH by (intros; nia).
  specialize (HH _ Bx) as Hx. specialize (HH _ By) as Hy.
  assert (0 <= h_p (nth_hist hist sn) * weight_at w i <= weight_at w i * (2 ^ 26 - 1)) as Hp by nia.
  rewrite !s32_small, u32_small by nia.
  rewrite (IH _ _ _ _ _ (W + weight_at w i)) by (done || lia). by rewrite !Z.add_assoc.
Qed.

(** Every ring, whatever its head and its length, after the store of one sample. *)
Lemma ring_store d s (fresh : bool) :
  wf d →
  let nr0 := if fresh then 0 else nr d in
  let hist' := <[Z.to_nat (head d) := hist_of s]> (hist d) in
  let nr' := if nr0 <? NR_SAMPHISTLEN then nr0 + 1 else nr0 in
  let now := take 4 (hist_of s :: if fresh then [] else past_of d) in
  ring hist' (head d) (Z.to_nat nr') = now ∧ 1 <= nr' <= 4 ∧ nr' = Z.of_nat (length now)
  ∧ past_of (St (delta d) nr' (wrap (head d + 1)) hist') = now
  ∧ wf (St (delta d) nr' (wrap (head d + 1)) hist').
Proof.
  destruct d as [dl n h hs]. unfold wf, past_of. cbn [hist head nr delta]. intros (Hl & Hh & Hn).
  do 4 (destruct hs as [|? hs]; [discriminate Hl|]). destruct hs; [|discriminate Hl].
  assert (n = 0 ∨ n = 1 ∨ n = 2 ∨ n = 3 ∨ n = 4) as HN by lia.
  assert (h = 0 ∨ h = 1 ∨ h = 2 ∨ h = 3) as HH by lia. clear Hh Hn.
  destruct fresh; destruct HH as [->|[->|[->| ->]]]; destruct HN as [->|[->|[->|[->| ->]]]];
    vm_compute; repeat split; discriminate.
Qed.

Lemma smooth_average d now s :
  nr d = Z.of_nat (length now) → ring (hist d) (head d) (Z.to_nat (nr d)) = now → 1 <= nr d <= 4 → Forall small now →
  (if nr d =? 1 then s else let '(ax, ay, ap) := average d in Sample ax ay ap (tv s)) = smooth now s.
Proof.
  intros Hn Hr Hle Hs. unfold smooth. rewrite Hn.
  destruct (Z.eqb_spec (Z.of_nat (length now)) 1) as [E|E].
  { by replace (length now) with 1%nat by lia. }
  destruct (Nat.eqb_spec (length now) 1); [lia|].
  unfold average. rewrite (average_loop_exact _ _ _ _ _ _ _ _ 0); [|lia|lia|by rewrite Hr|lia|lia|lia].
  rewrite Hr, Hn. replace (Z.to_nat (Z.of_nat (length now) - 2)) with (length now - 2)%nat by lia. done.
Qed.

Lemma past_of_cons d : 0 < nr d → ∃ l, past_of d = nth_hist (hist d) (wrap (head d - 1)) :: l.
Proof. intros Hn. unfold past_of. destruct (Z.to_nat (nr d)) eqn:E; [lia|]. by eexists. Qed.

Lemma small_distance a b : - 2 ^ 14 <= a < 2 ^ 14 → - 2 ^ 14 <= b < 2 ^ 14 →
  sqr (s32 (a - b)) = (a - b) * (a - b) ∧ 0 <= (a - b) * (a - b) < 2 ^ 30.
Proof.
  intros. assert (- (2 ^ 15 - 1) <= a - b <= 2 ^ 15 - 1) by lia.
  assert (0 <= (a - b) * (a - b) < 2 ^ 30) by (generalize dependent (a - b); intros; nia).
  unfold sqr. rewrite (s32_small (a - b)), s32_small by lia. done.
Qed.

(** One sample: the ring of the plugin is the window of the specification. *)
Lemma step_window d s :
  wf d → Forall small (past_of d) → small (hist_of s) →
  let '(d', o) := dejitter_step d s in
  Window.step (delta d) (past_of d) s = (past_of d', o)
  ∧ delta d' = delta d ∧ wf d' ∧ Forall small (past_of d').
Proof.
  intros Hwf Hp Hs. unfold dejitter_step, Window.step.
  destruct (Z.eqb_spec (pressure s) 0) as [E|E].
  { split; [done|]. split; [done|]. split; [|constructor].
    destruct Hwf as (?&?&?). split; [done|]. cbn. lia. }
  set (fresh := negb (truthy (nr d))
    || (delta d <? s32 (sqr (s32 (x s - h_x (nth_hist (hist d) (wrap (head d - 1)))))
                        + sqr (s32 (y s - h_y (nth_hist (hist d) (wrap (head d - 1)))))))).
  assert ((if truthy (nr d)
      then if delta d <? s32 (sqr (s32 (x s - h_x (nth_hist (hist d) (wrap (head d - 1)))))
                        + sqr (s32 (y s - h_y (nth_hist (hist d) (wrap (head d - 1))))))
        then St (delta d) 0 (head d) (hist d) else d
      else d) = St (delta d) (if fresh then 0 else nr d) (head d) (hist d)) as ->.
  { unfold fresh, truthy. destruct d as [dl n h hs]. cbn [nr delta hist head].
    destruct (Z.eqb_spec n 0) as [->|]; [done|]. cbn [negb orb]. by destruct (_ <? _). }
  assert ((match past_of d with h :: _ => if far (delta d) h s then [] else past_of d | [] => [] end)
    = if fresh then [] else past_of d) as ->.
  { unfold fresh, truthy. destruct Hwf as (_ & _ & Hn). destruct (Z.eqb_spec (nr d) 0) as [E0|E0].
    - unfold past_of. by rewrite E0.
    - destruct (past_of_cons d) as [l El]; [lia|]. rewrite El in *.
      apply Forall_cons in Hp as [(Bx & By & _) _]. destruct Hs as (Sx & Sy & _). cbn [h_x h_y hist_of] in Sx, Sy.
      destruct (small_distance _ _ Sx Bx) as [-> ?]. destruct (small_distance _ _ Sy By) as [-> ?].
      rewrite s32_small by lia. cbn [negb orb]. unfold far. by destruct (_ <? _). }
  pose proof (ring_store d s fresh Hwf) as (Hring & Hle & Hlen & Hpast & Hwf').
  cbn [delta nr head hist]. change (Hist (x s) (y s) (pressure s)) with (hist_of s).
  set (nr' := if (if fresh then 0 else nr d) <? NR_SAMPHISTLEN then _ else _) in *.
  set (now := take 4 _) in *.
  assert (Forall small now) as Hnow.
  { apply Forall_take. constructor; [done|]. by destruct fresh. }
  split; [|split; [done|split; [done|by rewrite Hpast]]].
  rewrite Hpast. f_equal. symmetry. by apply (smooth_average (St _ _ _ _)).
Qed.

Lemma all_window l d :
  wf d → Forall small (past_of d) → Forall (λ s, small (hist_of s)) l →
  let '(d', out) := dejitter_all d l in
  Window.all (delta d) (past_of d) l = (past_of d', out) ∧ wf d' ∧ Forall small (past_of d') ∧ length out = length l.
Proof.
  revert d. induction l as [|s l IH]; intros d Hwf Hp Hl; cbn [dejitter_all Window.all]; [done|].
  apply Forall_cons in Hl as [Hs Hl]. pose proof (step_window d s Hwf Hp Hs) as Hstep.
  destruct (dejitter_step d s) as [d1 o]. destruct Hstep as (-> & Hd & Hwf1 & Hp1).
  pose proof (IH d1 Hwf1 Hp1 Hl) as Hrest. destruct (dejitter_all d1 l) as [d2 out].
  rewrite Hd in Hrest. destruct Hrest as (-> & ? & ? & Hlen). cbn. by rewrite Hlen.
Qed.

(** [C30] The ring buffer of dejitter.c is a window of the last four pen positions: on coordinates
    below 2^14 in magnitude, every read answers, sample for sample, what the specification answers -
    a release passes through and empties the window, a jump of more than [delta] empties it first,
    the first position passes through, and from the second on the mean with the weights 5:3, 8:5:3
    or 6:4:3:3 - with no overflow of the machine's integers and the same window after the read. *)
Theorem dejitter_refines_window {U} `{Source U} n d (u : U) l u' :
  read_from n u = Some (Z.of_nat (length l), l, u') →
  wf d → Forall small (past_of d) → Forall (λ s, small (hist_of s)) l →
  ∃ d' out, read_from n (d, u) = Some (Z.of_nat (length l), out, (d', u'))
    ∧ Window.all (delta d) (past_of d) l = (past_of d', out) ∧ wf d' ∧ Forall small (past_of d').
Proof.
  intros Hu Hwf Hp Hl. pose proof (all_window l d Hwf Hp Hl) as Hw.
  destruct (dejitter_all d l) as [d' out] eqn:E. destruct Hw as (Hall & Hwf' & Hp' & Hlen).
  exists d', out. split; [|done]. change (read_from n (d, u)) with (dejitter_read n (d, u)). unfold dejitter_read. cbn [fst snd].
  rewrite Hu. cbn [mbind option_bind]. rewrite Nat2Z.id, firstn_all, E, Hlen. done.
Qed.

Lemma dejitter_refines_window_witness :
  let p a b t := Sample a b 1 t in
  let l := [p 100 200 1; p 108 200 2; p 108 208 3; p 100 200 4; p 900 200 5; Sample 0 0 0 6] in
  ∃ d' out, read_from 6 (init 100, l) = Some (6, out, (d', [])) ∧ Window.all 10000 [] l = (past_of d', out)
    ∧ out = [p 100 200 1; p 105 200 2; p 106 204 3; p 103 202 4; p 900 200 5; Sample 0 0 0 6].
Proof.
  intros p l. destruct (dejitter_refines_window 6 (init 100) l l []) as (d' & out & Hr & Hw & _).
  - reflexivity.
  - split; [reflexivity|cbn; lia].
  - constructor.
  - repeat constructor; vm_compute; discriminate.
  - exists d', out. split; [exact Hr|]. split; [exact Hw|]. apply (f_equal snd) in Hw. cbn [snd] in Hw. rewrite <- Hw. vm_compute. reflexivity.
Defined.

(** A rectangle of positions and a range of pressures. *)
Definition in_box (xl xh yl yh pl ph : Z) (h : ts_hist) : Prop :=
  xl <= h_x h <= xh ∧ yl <= h_y h <= yh ∧ pl <= h_p h <= ph.

Fixpoint weight_sum (i : Z) (w : list Z) (k : nat) : Z :=
  match k with O => 0 | S k => weight_at w i + weight_sum (i + 1) w k end.
Lemma weights_add_up k : (2 ≤ k ≤ 4)%nat →
  let w := nth (k - 2) weight [] in 0 <= weight_at w 4 ∧ weight_sum 0 w k = 2 ^ weight_at w 4.
Proof.
  intros Hk. assert (k = 2 ∨ k = 3 ∨ k = 4)%nat as [->|[->| ->]] by lia;
    (split; [vm_compute; discriminate|reflexivity]).
Qed.
Lemma wsum_between f k lo hi now i :
  Forall (λ h, lo <= f h <= hi) now → let w := nth k weight [] in
  weight_sum i w (length now) * lo <= wsum f i w now <= weight_sum i w (length now) * hi.
Proof.
  intros HF w. revert i. induction HF as [|h now Hh _ IH]; intros i; cbn [weight_sum wsum length]; [lia|].
  specialize (IH (i + 1)). pose proof (weights_bounded k i) as Hw. fold w in Hw. nia.
Qed.
Lemma mean_between f lo hi now : (2 ≤ length now ≤ 4)%nat → Forall (λ h, lo <= f h <= hi) now →
  let w := nth (length now - 2) weight [] in lo <= wsum f 0 w now >>> weight_at w 4 <= hi.
Proof.
  intros Hl HF w. pose proof (weights_add_up _ Hl) as [Hsh Hsum]. pose proof (wsum_between f (length now - 2) lo hi now 0 HF) as Hb.
  cbn zeta in Hb. rewrite Hsum in Hb. by apply shift_between.
Qed.

Lemma smooth_in_box xl xh yl yh pl ph now s :
  (1 ≤ length now ≤ 4)%nat → Forall (in_box xl xh yl yh pl ph) now → List.hd_error now = Some (hist_of s) →
  in_box xl xh yl yh pl ph (hist_of (smooth now s)) ∧ tv (smooth now s) = tv s.
Proof.
  intros Hl HF Hhd. unfold smooth. destruct (Nat.eqb_spec (length now) 1).
  { split; [|done]. destruct now as [|h now]; [done|]. injection Hhd as ->. by apply Forall_cons in HF as [? _]. }
  split; [|done]. split; [|split]; cbn [hist_of h_x h_y h_p x y pressure];
    apply mean_between; try lia; (eapply Forall_impl; [exact HF|]); intros h (?&?&?); done.
Qed.

Lemma window_in_box dl xl xh yl yh pl ph l past :
  (length past ≤ 4)%nat → Forall (in_box xl xh yl yh pl ph) past →
  Forall (λ s, pressure s ≠ 0 → in_box xl xh yl yh pl ph (hist_of s)) l →
  Forall2 (λ s o, if pressure s =? 0 then o = s else in_box xl xh yl yh pl ph (hist_of o) ∧ tv o = tv s)
    l (snd (Window.all dl past l)).
Proof.
  revert past. induction l as [|s l IH]; intros past Hlen Hp Hl; cbn [Window.all]; [constructor|].
  apply Forall_cons in Hl as [Hs Hl]. unfold Window.step. destruct (Z.eqb_spec (pressure s) 0) as [E|E].
  - specialize (IH [] ltac:(cbn; lia) (List.Forall_nil _) Hl). destruct (Window.all dl [] l).
    constructor; [by rewrite E|exact IH].
  - set (past' := match past with h :: _ => _ | [] => _ end).
    assert (Forall (in_box xl xh yl yh pl ph) past') as Hp'
      by (unfold past'; destruct past; [constructor|]; by destruct (far _ _ _)).
    change (Hist (x s) (y s) (pressure s)) with (hist_of s). set (now := take 4 (hist_of s :: past')).
    assert (Forall (in_box xl xh yl yh pl ph) now) as Hnow by (apply Forall_take; constructor; auto).
    assert (1 ≤ length now ≤ 4)%nat as Hln by (unfold now; rewrite length_take; cbn [length]; lia).
    specialize (IH now ltac:(lia) Hnow Hl). destruct (Window.all dl now l).
    constructor; [|exact IH]. destruct (Z.eqb_spec (pressure s) 0); [done|]. by apply smooth_in_box.
Qed.

(** Smoothing never leaves the neighbourhood of the pen: if the remembered positions and the
    pressed samples read are in a rectangle (and a pressure range), so is every sample answered, one
    for each sample read and with its time stamp; releases are answered unchanged.  With a rectangle
    of one point: a pen that is held still is reported where it is. *)
Theorem dejitter_in_box {U} `{Source U} xl xh yl yh pl ph n d (u : U) l u' :
  read_from n u = Some (Z.of_nat (length l), l, u') →
  wf d → Forall small (past_of d) → Forall (λ s, small (hist_of s)) l →
  Forall (in_box xl xh yl yh pl ph) (past_of d) →
  Forall (λ s, pressure s ≠ 0 → in_box xl xh yl yh pl ph (hist_of s)) l →
  ∃ d' out, read_from n (d, u) = Some (Z.of_nat (length l), out, (d', u'))
    ∧ Forall2 (λ s o, if pressure s =? 0 then o = s
                      else in_box xl xh yl yh pl ph (hist_of o) ∧ tv o = tv s) l out.
Proof.
  intros Hu Hwf Hsm Hl Hp Hin. pose proof (all_window l d Hwf Hsm Hl) as Hw.
  destruct (dejitter_all d l) as [d' out] eqn:E. destruct Hw as (Hall & _ & _ & Hlen).
  exists d', out. split.
  - change (read_from n (d, u)) with (dejitter_read n (d, u)). unfold dejitter_read. cbn [fst snd].
    rewrite Hu. cbn [mbind option_bind]. rewrite Nat2Z.id, firstn_all, E, Hlen. done.
  - pose proof (window_in_box (delta d) xl xh yl yh pl ph l (past_of d)) as HB. rewrite Hall in HB.
    apply HB; [|done|done]. destruct Hwf as (_ & _ & Hn). unfold past_of.
    assert (∀ k sn, length (ring (hist d) sn k) = k) as -> by (induction k; intros; cbn; auto). lia.
Qed.

Lemma dejitter_in_box_witness :
  let p t := Sample 300 200 1 t in
  ∃ d' out, read_from 5 (init 100, [p 1; p 2; p 3; Sample 0 0 0 4; p 5]) = Some (5, out, (d', []))
    ∧ Forall2 (λ s o, if pressure s =? 0 then o = s
                      else in_box 300 300 200 200 1 1 (hist_of o) ∧ tv o = tv s)
        [p 1; p 2; p 3; Sample 0 0 0 4; p 5] out.
Proof.
  intros p. apply (dejitter_in_box 300 300 200 200 1 1 5 (init 100) [p 1; p 2; p 3; Sample 0 0 0 4; p 5]
    [p 1; p 2; p 3; Sample 0 0 0 4; p 5] []).
  - reflexivity.
  - split; [reflexivity|cbn; lia].
  - constructor.
  - repeat constructor; vm_compute; discriminate.
  - constructor.
  - repeat constructor; try done; cbn; lia.
Defined.
End Dejitter.

#[export] Instance dejitter_ok U `{SourceOk U P} : SourceOk (Dejitter.dejitter * U) (λ st, P st.2).
Proof.
  intros n [d u] Hu. cbn in Hu. destruct (source_ok n u Hu) as (ret & l & u' & Hr & Hu' & Hret).
  change (read_from n (d, u)) with (Dejitter.dejitter_read n (d, u)). unfold Dejitter.dejitter_read. cbn [fst snd].
  rewrite Hr. cbn [mbind option_bind].
  assert (∀ l d d' out, Dejitter.dejitter_all d l = (d', out) → length out = length l) as Hlen.
  { clear. induction l as [|s l IH]; intros d d' out; cbn; [by intros [= _ <-]|].
    destruct (Dejitter.dejitter_step d s) as [d1 o]. destruct (Dejitter.dejitter_all d1 l) as [d2 l'] eqn:E.
    intros [= _ <-]. cbn. f_equal. by eapply IH. }
  destruct (Dejitter.dejitter_all d _) as [d' out] eqn:E. apply Hlen in E. do 3 eexists. split; [done|].
  split; [done|]. right. split; [done|]. rewrite E, length_take. destruct Hret as [?|[-> ?]]; lia.
Qed.
