(* ===== verification/TsText.v ===== *)
(** * TsText: the text tslib reads

    The string functions of C the library uses, on lists of character codes without the closing NUL;
    [tslib_parse_vars] (11th_ts/tslib/src/ts_parse_vars.c) over the variables of a plugin; what the
    plugins' handlers and their [mod_init] do with a parameter string. *)

From S2P Require Import Prelude TsFilters.

Definition bytes (s : string) : list Z := map (λ a, Z.of_N (Ascii.N_of_ascii a)) (String.list_ascii_of_string s).

(** ** The C library *)

Definition isblank (c : Z) : bool := (c =? 32) || (c =? 9).
Definition isspace (c : Z) : bool := (c =? 32) || ((9 <=? c) && (c <=? 13)).
Definition tolower (c : Z) : Z := if (65 <=? c) && (c <=? 90) then c + 32 else c.

(** [strsep] up to the first delimiter: the token and what is left, [None] when nothing is. *)
Fixpoint strsep (delim : Z → bool) (s : list Z) : list Z * option (list Z) :=
  match s with
  | [] => ([], None)
  | c :: s => if delim c then ([], Some s) else let '(tok, rest) := strsep delim s in (c :: tok, rest)
  end.
Fixpoint strcasecmp_eq (a b : list Z) : bool :=
  match a, b with
  | [], [] => true
  | c :: a, d :: b => (tolower c =? tolower d) && strcasecmp_eq a b
  | _, _ => false
  end.

Definition digit_of (base c : Z) : option Z :=
  let d := if (48 <=? c) && (c <=? 57) then c - 48
           else if (97 <=? tolower c) && (tolower c <=? 122) then tolower c - 87 else base in
  if d <? base then Some d else None.
Fixpoint digits (base v : Z) (s : list Z) : Z :=
  match s with
  | c :: s => match digit_of base c with Some d => digits base (v * base + d) s | None => v end
  | [] => v
  end.
Fixpoint skip_spaces (s : list Z) : list Z :=
  match s with c :: s' => if isspace c then skip_spaces s' else s | [] => [] end.
Definition sign_of (s : list Z) : bool * list Z :=
  match s with
  | c :: s' => if c =? 45 then (true, s') else if c =? 43 then (false, s') else (false, s)
  | [] => (false, [])
  end.
Definition base_of (s : list Z) : Z * list Z :=
  match s with
  | c :: s' =>
      if c =? 48
      then
        match s' with
        | e :: d :: _ => if (tolower e =? 120) && bool_decide (is_Some (digit_of 16 d)) then (16, drop 2 s) else (8, s)
        | _ => (8, s)
        end
      else (10, s)
  | [] => (10, s)
  end.
Definition ULONG_MAX := 2 ^ 32 - 1.
(** [strtoul(s, NULL, 0)]: [None] is [ULONG_MAX] with [ERANGE]. *)
Definition strtoul (s : list Z) : option Z :=
  let '(neg, s) := sign_of (skip_spaces s) in
  let '(base, s) := base_of s in
  let v := digits base 0 s in
  if ULONG_MAX <? v then None else Some (u32 (if neg then - v else v)).
(** [atoi], which the C library computes with [strtol]. *)
Definition atoi (s : list Z) : Z :=
  let '(neg, s) := sign_of (skip_spaces s) in
  let v := digits 10 0 s in
  if neg then Z.max (- 2 ^ 31) (- v) else Z.min (2 ^ 31 - 1) v.

(** [sprintf("%u")] and [sprintf("%d")]: ten digits are enough for a 32-bit value. *)
Fixpoint dec_go (fuel : nat) (n : Z) (acc : list Z) : list Z :=
  match fuel with
  | O => acc
  | S fuel =>
      let acc := (48 + n mod 10) :: acc in
      if n / 10 =? 0 then acc else dec_go fuel (n / 10) acc
  end.
Definition dec (n : Z) : list Z := dec_go 10 n [].
Definition dec_int (n : Z) : list Z := if n <? 0 then 45 :: dec (- n) else dec n.

(** ** tslib_parse_vars *)

Module ParseVars.
Section ParseVars.
Context {M : Type}.
(** [struct tslib_vars]: a name and a handler, which answers [None] where it faults. *)
Definition handler : Type := option (list Z) → M → option (Z * M).
Definition vars : Type := list (list Z * handler).

(** [strchr(p, '=')] and the cut there. *)
Definition name_value (p : list Z) : list Z * option (list Z) := strsep (λ c, c =? 61) p.

Fixpoint find_var (vs : vars) (p : list Z) : option handler :=
  match vs with
  | [] => None
  | (name, fn) :: vs => if strcasecmp_eq name p then Some fn else find_var vs p
  end.
Definition one_var (vs : vars) (tok : list Z) (ret : Z) (mod_ : M) : option (Z * M) :=
  let '(p, eq) := name_value tok in
  match find_var vs p with Some fn => fn eq mod_ | None => Some (ret, mod_) end.

Fixpoint parse_loop (fuel : nat) (vs : vars) (s : option (list Z)) (ret : Z) (mod_ : M) : option (Z * M) :=
  match fuel with
  | O => None
  | S fuel =>
      match s with
      | None => Some (ret, mod_)
      | Some s =>
          let '(tok, rest) := strsep isblank s in
          if ret =? 0
          then '(ret, mod_) ← one_var vs tok ret mod_; parse_loop fuel vs rest ret mod_
          else Some (ret, mod_)
      end
  end.

(** A string that does not fit in [s_holder] with a NUL behind it is a fault. *)
Definition tslib_parse_vars (mod_ : M) (vs : vars) (str : option (list Z)) : option (Z * M) :=
  match str with
  | None => Some (0, mod_)
  | Some str => if 1024 <=? Z.of_nat (length str) then None else parse_loop (length str + 2) vs (Some str) 0 mod_
  end.
End ParseVars.
Arguments handler M : clear implicits.
Arguments vars M : clear implicits.
End ParseVars.

(** The handlers that store a number: [strtoul] of a missing value faults. *)
Definition number {M} (set : Z → M → Z * M) : ParseVars.handler M := λ str mod_,
  s ← str; match strtoul s with None => Some (-1, mod_) | Some v => Some (set v mod_) end.

(** ** The plugins' [mod_init]: [Some None] is a NULL answer *)

Definition module_of {M} (r : option (Z * M)) : option (option M) :=
  '(ret, mod_) ← r; Some (if truthy ret then None else Some mod_).

Module PluginInit.
Definition pthres_vars : ParseVars.vars Pthres.pthres :=
  [(bytes "pmin", number (Pthres.threshold_vars 0)); (bytes "pmax", number (Pthres.threshold_vars 1))].
Definition pthres_mod_init (params : option (list Z)) : option (option Pthres.pthres) :=
  module_of (ParseVars.tslib_parse_vars Pthres.init pthres_vars params).

Definition variance_limit (data v : Z) (d : Z) : Z * Z := if data =? 1 then (0, s32 v) else (-1, d).
Definition variance_vars : ParseVars.vars Z := [(bytes "delta", number (variance_limit 1))].
Definition variance_mod_init (last noise : ts_sample) (params : option (list Z)) : option (option Variance.variance) :=
  d ← module_of (ParseVars.tslib_parse_vars 30 variance_vars params);
  Some (option_map (λ d, Variance.init d last noise) d).

Definition dejitter_limit (data v : Z) (d : Z) : Z * Z := if data =? 1 then (0, s32 v) else (-1, d).
Definition dejitter_vars : ParseVars.vars Z := [(bytes "delta", number (dejitter_limit 1))].
Definition dejitter_mod_init (params : option (list Z)) : option (option Dejitter.dejitter) :=
  d ← module_of (ParseVars.tslib_parse_vars 100 dejitter_vars params);
  Some (option_map Dejitter.init d).
End PluginInit.

(** ** Lemmas *)

Lemma strsep_plain d a : Forall (λ c, d c = false) a → strsep d a = (a, None).
Proof. induction 1 as [|c a Hc _ IH]; cbn; [done|]. by rewrite Hc, IH. Qed.
Lemma strsep_app d a c s : Forall (λ c, d c = false) a → d c = true → strsep d (a ++ c :: s) = (a, Some s).
Proof. intros Ha Hc. induction Ha as [|c' a Hc' _ IH]; cbn; [by rewrite Hc|]. by rewrite Hc', IH. Qed.
Lemma strsep_length d s tok rest : strsep d s = (tok, Some rest) → (length rest < length s)%nat.
Proof.
  revert tok. induction s as [|c s IH]; intros tok; cbn; [done|].
  destruct (d c); [intros [= <- <-]; lia|]. destruct (strsep d s) as [t r]. intros [= <- ->].
  specialize (IH _ eq_refl). lia.
Qed.

Lemma digits_app base v a s : Forall (λ c, is_Some (digit_of base c)) a →
  digits base v (a ++ s) = digits base (digits base v a) s.
Proof. intros Ha. revert v. induction Ha as [|c a [d Hd] _ IH]; intros v; cbn; [done|]. rewrite Hd. apply IH. Qed.

Definition is_digit (c : Z) : Prop := 48 <= c <= 57.
Lemma digit_of_10 d : 0 <= d < 10 → digit_of 10 (48 + d) = Some d.
Proof.
  intros Hd. unfold digit_of. replace ((48 <=? 48 + d) && (48 + d <=? 57)) with true
    by (symmetry; apply andb_true_iff; rewrite !Z.leb_le; lia).
  replace (48 + d - 48) with d by lia. by destruct (Z.ltb_spec d 10); [|lia].
Qed.
Lemma is_digit_of c : is_digit c → is_Some (digit_of 10 c).
Proof. intros Hc. replace c with (48 + (c - 48)) by lia. rewrite digit_of_10 by (unfold is_digit in Hc; lia). by eexists. Qed.
Lemma digits_all a : Forall is_digit a → Forall (λ c, is_Some (digit_of 10 c)) a.
Proof. intros Ha. eapply Forall_impl; [exact Ha|]. apply is_digit_of. Qed.

(** The text of [n]: digits that read back as [n], the first one not a zero unless [n] is. *)
Lemma dec_go_spec fuel n acc : 0 <= n < 10 ^ Z.of_nat fuel → (0 < fuel)%nat →
  ∃ ds, dec_go fuel n acc = ds ++ acc ∧ Forall is_digit ds ∧ digits 10 0 ds = n
    ∧ ∃ c ds', ds = c :: ds' ∧ (c = 48 → n = 0 ∧ ds' = []).
Proof.
  revert n acc. induction fuel as [|fuel IH]; intros n acc Hn Hf; [lia|]. cbn [dec_go].
  pose proof (Z.mod_pos_bound n 10 ltac:(lia)) as Hm. pose proof (Z_div_mod_eq_full n 10) as Hdm.
  assert (is_digit (48 + n mod 10)) as Hdig by (unfold is_digit; lia).
  destruct (Z.eqb_spec (n / 10) 0) as [E|E].
  - exists [48 + n mod 10]. split; [done|]. split; [by constructor|]. cbn [digits]. rewrite digit_of_10 by done.
    split; [lia|]. do 2 eexists. split; [done|]. intros ?. split; [lia|done].
  - assert (0 <= n / 10) by (apply Z.div_pos; lia).
    assert (n / 10 < 10 ^ Z.of_nat fuel) as Hlt.
    { rewrite Nat2Z.inj_succ, Z.pow_succ_r in Hn by lia. apply Z.div_lt_upper_bound; lia. }
    assert (0 < fuel)%nat as Hf' by (destruct fuel; [cbn in Hlt; lia|lia]).
    destruct (IH (n / 10) ((48 + n mod 10) :: acc)) as (ds & -> & Hds & Hv & c & ds' & Hc & Hz); [lia|done|].
    exists (ds ++ [48 + n mod 10]). split; [by rewrite <- app_assoc|]. split; [by apply Forall_app; split; [|constructor]|].
    split.
    + rewrite digits_app by (by apply digits_all). rewrite Hv. cbn [digits]. rewrite digit_of_10 by done. lia.
    + rewrite Hc. do 2 eexists. split; [done|]. intros Hc0. destruct (Hz Hc0). lia.
Qed.

Lemma dec_spec n : 0 <= n < 2 ^ 32 →
  Forall is_digit (dec n) ∧ digits 10 0 (dec n) = n
  ∧ ∃ c ds', dec n = c :: ds' ∧ is_digit c ∧ (c = 48 → n = 0 ∧ ds' = []).
Proof.
  intros Hn. destruct (dec_go_spec 10 n []) as (ds & Hd & Hall & Hv & c & ds' & Hc & Hz); [change (10 ^ Z.of_nat 10) with 10000000000; lia|lia|].
  rewrite app_nil_r in Hd. unfold dec. rewrite Hd. split; [done|]. split; [done|]. exists c, ds'.
  split; [done|]. split; [|done]. rewrite Hc in Hall. by apply Forall_cons in Hall as [? _].
Qed.

Lemma skip_spaces_digit c s : is_digit c → skip_spaces (c :: s) = c :: s.
Proof.
  intros Hc. unfold is_digit in Hc. cbn. unfold isspace. destruct (Z.eqb_spec c 32); [lia|].
  destruct (Z.leb_spec c 13); [lia|]. by rewrite andb_false_r.
Qed.
Lemma sign_of_digit c s : is_digit c → sign_of (c :: s) = (false, c :: s).
Proof.
  intros Hc. unfold is_digit in Hc. cbn. destruct (Z.eqb_spec c 45); [lia|]. by destruct (Z.eqb_spec c 43); [lia|].
Qed.

Lemma strtoul_dec n : 0 <= n < 2 ^ 32 → strtoul (dec n) = Some n.
Proof.
  intros Hn. destruct (dec_spec n Hn) as (Hall & Hv & c & ds' & Hc & Hd & Hz). unfold strtoul.
  assert (base_of (dec n) = (10, dec n) ∨ n = 0 ∧ dec n = [48]) as Hb.
  { rewrite Hc. cbn. destruct (Z.eqb_spec c 48) as [->|]; [|by left]. right. by destruct (Hz eq_refl) as [-> ->]. }
  destruct Hb as [Hb|[-> Hb]]; [|by rewrite Hb].
  rewrite Hc, skip_spaces_digit, sign_of_digit, <- Hc, Hb, Hv by done.
  unfold ULONG_MAX. destruct (Z.ltb_spec (2 ^ 32 - 1) n); [lia|]. by rewrite u32_small.
Qed.

Lemma atoi_dec n s : 0 <= n < 2 ^ 31 → atoi (dec n ++ s) = Z.min (2 ^ 31 - 1) (digits 10 n s).
Proof.
  intros Hn. destruct (dec_spec n) as (Hall & Hv & c & ds' & Hc & Hd & _); [lia|]. unfold atoi.
  rewrite Hc. cbn [app]. rewrite skip_spaces_digit, sign_of_digit by done.
  change (c :: ds' ++ s) with ((c :: ds') ++ s). rewrite <- Hc, digits_app by (by apply digits_all). by rewrite Hv.
Qed.
Lemma atoi_dec_int n : - 2 ^ 31 <= n < 2 ^ 31 → atoi (dec_int n) = n.
Proof.
  intros Hn. unfold dec_int. destruct (Z.ltb_spec n 0) as [Hneg|Hpos].
  - unfold atoi. cbn [skip_spaces sign_of]. change (isspace 45) with false. cbn [sign_of]. change (45 =? 45) with true. cbn iota.
    destruct (dec_spec (- n)) as (_ & -> & _); lia.
  - rewrite <- (app_nil_r (dec n)), atoi_dec by lia. cbn. lia.
Qed.

Lemma dec_plain d n : (∀ c, is_digit c → d c = false) → 0 <= n < 2 ^ 32 → Forall (λ c, d c = false) (dec n).
Proof. intros Hd Hn. destruct (dec_spec n Hn) as (Hall & _). eapply Forall_impl; [exact Hall|]. exact Hd. Qed.
Lemma dec_length n : (length (dec n) ≤ 10)%nat.
Proof.
  unfold dec. assert (∀ fuel n acc, (length (dec_go fuel n acc) ≤ fuel + length acc)%nat) as HH.
  { clear. induction fuel as [|fuel IH]; intros n acc; cbn; [lia|]. destruct (_ =? 0); cbn; [lia|].
    etransitivity; [apply IH|]. cbn. lia. }
  etransitivity; [apply HH|]. cbn. lia.
Qed.

(** Tokens separated by single blanks. *)
Fixpoint join (toks : list (list Z)) : list Z :=
  match toks with [] => [] | [t] => t | t :: toks => t ++ 32 :: join toks end.
Lemma join_cons t toks : toks ≠ [] → join (t :: toks) = t ++ 32 :: join toks.
Proof. by destruct toks. Qed.
Definition plain (t : list Z) : Prop := Forall (λ c, isblank c = false) t.

Section Parsing.
Import ParseVars.
Context {M : Type} (vs : vars M).

Fixpoint run_tokens (toks : list (list Z)) (ret : Z) (m : M) : option (Z * M) :=
  match toks with
  | [] => Some (ret, m)
  | t :: toks => if ret =? 0 then '(ret, m) ← one_var vs t ret m; run_tokens toks ret m else Some (ret, m)
  end.

Lemma parse_tokens toks fuel ret m : Forall plain toks → toks ≠ [] → (length toks < fuel)%nat →
  parse_loop fuel vs (Some (join toks)) ret m = run_tokens toks ret m.
Proof.
  revert fuel ret m. induction toks as [|t toks IH]; intros fuel ret m Hp Hne Hf; [done|].
  apply Forall_cons in Hp as [Ht Hp]. destruct fuel as [|fuel]; [cbn in Hf; lia|]. cbn [length] in Hf.
  destruct toks as [|t' toks].
  - cbn [parse_loop join run_tokens]. rewrite (strsep_plain isblank) by done. destruct (ret =? 0); [|done].
    destruct (one_var vs t ret m) as [[r m']|]; [|done]. cbn. destruct fuel; [lia|done].
  - rewrite join_cons by done. cbn [parse_loop run_tokens]. rewrite (strsep_app isblank) by done.
    destruct (ret =? 0); [|done]. destruct (one_var vs t ret m) as [[r m']|]; [|done].
    cbn [mbind option_bind]. apply IH; [done|done|]. cbn [length] in *. lia.
Qed.

(** The loop of [tslib_parse_vars] ends: it answers unless a handler faults. *)
Lemma parse_loop_total s fuel ret m :
  (∀ name fn, (name, fn) ∈ vs → ∀ eq m, is_Some (fn eq m)) →
  (match s with Some s => length s + 1 | None => 0 end < fuel)%nat → is_Some (parse_loop fuel vs s ret m).
Proof.
  intros Hvs. revert s ret m. induction fuel as [|fuel IH]; intros s ret m Hf; [lia|]. cbn [parse_loop].
  destruct s as [s|]; [|by eexists]. destruct (strsep isblank s) as [tok rest] eqn:E.
  destruct (ret =? 0); [|by eexists]. unfold one_var. destruct (name_value tok) as [p eq].
  assert (∀ r m, is_Some (parse_loop fuel vs rest r m)) as Hrest.
  { intros. apply IH. destruct rest as [rest|]; [apply strsep_length in E; lia|lia]. }
  destruct (find_var vs p) as [fn|] eqn:Ef; [|apply Hrest].
  assert (∃ name, (name, fn) ∈ vs) as [name Hin].
  { clear - Ef. induction vs as [|[n f] l IH]; cbn in Ef; [done|].
    destruct (strcasecmp_eq n p); [injection Ef as ->; eexists; constructor|].
    destruct (IH Ef) as [name ?]. exists name. by constructor. }
  destruct (Hvs _ _ Hin eq m) as [[r m'] ->]. apply Hrest.
Qed.
End Parsing.

Lemma digit_plain n : 0 <= n < 2 ^ 32 → plain (dec n).
Proof.
  apply dec_plain. unfold is_digit, isblank. intros c Hc.
  destruct (Z.eqb_spec c 32); [lia|]. by destruct (Z.eqb_spec c 9); [lia|].
Qed.
Lemma value_token name n : plain name → 0 <= n < 2 ^ 32 → plain (name ++ 61 :: dec n).
Proof. intros. apply Forall_app_2; [done|]. constructor; [done|by apply digit_plain]. Qed.

(** A token [name=n] hands the text of [n] to the handler of [name]. *)
Lemma one_var_number {M} (vs : ParseVars.vars M) name n set (m : M) ret :
  Forall (λ c, (c =? 61) = false) name → ParseVars.find_var vs name = Some (number set) → 0 <= n < 2 ^ 32 →
  ParseVars.one_var vs (name ++ 61 :: dec n) ret m = Some (set n m).
Proof.
  intros Hn Hf Hr. unfold ParseVars.one_var, ParseVars.name_value. rewrite strsep_app by done. rewrite Hf.
  unfold number. cbn [mbind option_bind]. by rewrite strtoul_dec.
Qed.

(** The parameters of the plugins, printed as etc/ts.conf writes them. *)
Definition pthres_params (lo hi : Z) : list Z := join [bytes "pmin" ++ 61 :: dec lo; bytes "pmax" ++ 61 :: dec hi].
Definition delta_params (d : Z) : list Z := join [bytes "delta" ++ 61 :: dec d].

Lemma name_plain (s : string) : forallb (λ c, negb (isblank c) && negb (c =? 61)) (bytes s) = true →
  plain (bytes s) ∧ Forall (λ c, (c =? 61) = false) (bytes s).
Proof.
  intros Hs. pose proof (proj1 (forallb_forall _ _) Hs) as Hs'. unfold plain. rewrite !Forall_forall.
  split; intros c Hc; apply list_elem_of_In in Hc; apply Hs' in Hc; apply andb_true_iff in Hc as [H1 H2];
    by apply negb_true_iff.
Qed.

(** Parameters written in decimal reach the plugins as the numbers they are: [pmin=a pmax=b]
    gives pthres its two limits, [delta=d] gives variance and dejitter the square of [d], for every
    32-bit value ([d] up to 46340, whose square is the last one an [int] holds), and no such string
    is refused. *)
Theorem plugin_params_read lo hi d last noise :
  0 <= lo < 2 ^ 32 → 0 <= hi < 2 ^ 32 → 0 <= d <= 46340 →
  PluginInit.pthres_mod_init (Some (pthres_params lo hi)) = Some (Some (Pthres.St lo hi 0 0 0))
  ∧ PluginInit.variance_mod_init last noise (Some (delta_params d))
    = Some (Some (Variance.St (d * d) last noise false false false false))
  ∧ PluginInit.dejitter_mod_init (Some (delta_params d))
    = Some (Some (Dejitter.St (d * d) 0 0 (replicate 4 (Dejitter.Hist 0 0 0)))).
Proof.
  intros Hlo Hhi Hd.
  destruct (name_plain "pmin") as [P1 E1]; [done|]. destruct (name_plain "pmax") as [P2 E2]; [done|].
  destruct (name_plain "delta") as [P3 E3]; [done|].
  assert (s32 d = d ∧ s32 (d * d) = d * d) as [S1 S2] by (split; apply s32_small; nia).
  assert (ParseVars.tslib_parse_vars Pthres.init PluginInit.pthres_vars (Some (pthres_params lo hi))
    = Some (0, Pthres.St lo hi 0 0 0)) as HP.
  { unfold ParseVars.tslib_parse_vars. rewrite (proj2 (Z.leb_gt _ _)).
    2:{ unfold pthres_params. cbn [join]. repeat (rewrite length_app || cbn [length]).
        pose proof (dec_length lo). pose proof (dec_length hi). change (length (bytes "pmin")) with 4%nat.
        change (length (bytes "pmax")) with 4%nat. lia. }
    unfold pthres_params. rewrite parse_tokens;
      [|constructor; [by apply value_token|constructor; [by apply value_token|constructor]]|done
       |cbn [join length]; rewrite !length_app; cbn [length]; lia].
    cbn [run_tokens]. rewrite (one_var_number PluginInit.pthres_vars (bytes "pmin") lo (Pthres.threshold_vars 0)) by done.
    cbn. rewrite (one_var_number PluginInit.pthres_vars (bytes "pmax") hi (Pthres.threshold_vars 1)) by done.
    cbn. by rewrite !u32_small. }
  assert (∀ vs, ParseVars.find_var vs (bytes "delta") = Some (number (λ v (_ : Z), (0, s32 v))) → ∀ m,
    ParseVars.tslib_parse_vars m vs (Some (delta_params d)) = Some (0, d)) as HD.
  { intros vs Hvs m. unfold ParseVars.tslib_parse_vars. rewrite (proj2 (Z.leb_gt _ _)).
    2:{ unfold delta_params. cbn [join]. rewrite length_app. cbn [length].
        pose proof (dec_length d). change (length (bytes "delta")) with 5%nat. lia. }
    unfold delta_params. rewrite parse_tokens;
      [|constructor; [apply value_token; [done|lia]|constructor]|done
       |cbn [join length]; rewrite !length_app; cbn [length]; lia].
    cbn [run_tokens]. rewrite (one_var_number vs (bytes "delta") d (λ v _, (0, s32 v))) by (done || lia). cbn. by rewrite S1. }
  unfold PluginInit.pthres_mod_init, PluginInit.variance_mod_init, PluginInit.dejitter_mod_init.
  rewrite HP, !HD by done. cbn. unfold Variance.init, Dejitter.init, Variance.sqr, Dejitter.sqr. by rewrite S2.
Qed.

Lemma plugin_params_read_witness :
  pthres_params 1 900 = bytes "pmin=1 pmax=900" ∧ delta_params 30 = bytes "delta=30"
  ∧ PluginInit.pthres_mod_init (Some (bytes "pmin=1 pmax=900")) = Some (Some (Pthres.St 1 900 0 0 0)).
Proof.
  split; [reflexivity|]. split; [reflexivity|].
  apply (plugin_params_read 1 900 30 (Sample 0 0 0 0) (Sample 0 0 0 0)); lia.
Defined.
