(* ===== verification/TsLinear.v ===== *)
(** * TsLinear: from the panel to the screen

    The two calibration plugins of tslib: linear.c, with the file /etc/pointercal that
    tests/ts_calibrate.c writes and [mod_init] reads, and linear-h2200.c, a fixed polynomial in
    12.20 fixed point. *)

From S2P Require Import Prelude TsFilters TsText.

(** ** linear.c *)

Module Linear.
Record linear := St { swap_xy : Z; p_offset : Z; p_mult : Z; p_div : Z; a : list Z }.
Definition init : linear := St 0 0 1 1 [1; 0; 0; 0; 1; 0; 1].
Definition coef (l : linear) (i : nat) : Z := nth i (a l) 0.

(** Division of [int]s and of [unsigned int]s; by zero it faults. *)
Definition sdiv (n d : Z) : option Z := if d =? 0 then None else Some (s32 (Z.quot n d)).
Definition udiv (n d : Z) : option Z := if d =? 0 then None else Some (n / d).

Definition linear_one (l : linear) (s : ts_sample) : option ts_sample :=
  let xtemp := x s in let ytemp := y s in
  x' ← sdiv (s32 (s32 (coef l 2 + s32 (coef l 0 * xtemp)) + s32 (coef l 1 * ytemp))) (coef l 6);
  y' ← sdiv (s32 (s32 (coef l 5 + s32 (coef l 3 * xtemp)) + s32 (coef l 4 * ytemp))) (coef l 6);
  p' ← udiv (u32 (u32 (pressure s + p_offset l) * p_mult l)) (u32 (p_div l));
  Some (if truthy (swap_xy l) then Sample y' x' p' (tv s) else Sample x' y' p' (tv s)).

Fixpoint linear_all (l : linear) (samp : list ts_sample) : option (list ts_sample) :=
  match samp with
  | [] => Some []
  | s :: samp => s' ← linear_one l s; samp' ← linear_all l samp; Some (s' :: samp')
  end.

Definition linear_read {U} `{Source U} (n : nat) (st : linear * U) : option (Z * list ts_sample * (linear * U)) :=
  '(ret, samp, u) ← read_from n (snd st);
  if 0 <=? ret
  then out ← linear_all (fst st) (take (Z.to_nat ret) samp); Some (ret, out, (fst st, u))
  else Some (ret, samp, (fst st, u)).

Definition linear_xyswap : ParseVars.handler linear := λ _ l,
  Some (0, St 1 (p_offset l) (p_mult l) (p_div l) (a l)).
Definition linear_vars : ParseVars.vars linear := [(bytes "xyswap", linear_xyswap)].

(** The string at the start of a buffer; without a NUL in it the reader runs out of the buffer. *)
Fixpoint cstring (buf : list Z) : option (list Z) :=
  match buf with [] => None | c :: buf => if c =? 0 then Some [] else s ← cstring buf; Some (c :: s) end.
(** The non-empty tokens [strtok(_, " ")] finds; [cur] is the token under way. *)
Fixpoint strtok_all (cur s : list Z) : list (list Z) :=
  match s with
  | [] => if bool_decide (cur = []) then [] else [cur]
  | c :: s =>
      if c =? 32 then (if bool_decide (cur = []) then strtok_all [] s else cur :: strtok_all [] s)
      else strtok_all (cur ++ [c]) s
  end.

(** [mod_init]: the calibration file, if it is there, is read into 200 bytes of stack ([junk] is
    what they held); a file with fewer than seven numbers passes NULL to [atoi]. *)
Definition read_calibration (junk file : list Z) : option (list Z) :=
  s ← cstring (take 200 file ++ drop (length (take 200 file)) junk);
  let toks := take 7 (strtok_all [] s) in
  if (length toks =? 7)%nat then Some (map atoi toks) else None.
Definition linear_mod_init (calfile : option (list Z)) (junk : list Z) (params : option (list Z)) :
    option (option linear) :=
  l ← match calfile with
      | None => Some init
      | Some file => cal ← read_calibration junk file; Some (St 0 0 1 1 cal)
      end;
  module_of (ParseVars.tslib_parse_vars l linear_vars params).

(** The end of ts_calibrate's [main]: the constants as text, with the NUL. *)
Definition calibration_text (cal : list Z) : list Z :=
  join (map dec_int (map (λ i, nth i cal 0) [1; 2; 0; 4; 5; 3; 6]%nat)) ++ [0].
End Linear.
#[export] Instance linear_source U `{Source U} : Source (Linear.linear * U) := Linear.linear_read.

(** ** linear-h2200.c *)

Module LinearH2200.
Definition M20 (u v : Z) : Z := s32 ((u * v) >>> 20).
Definition M32 (u v : Z) : Z := s32 ((u * v) >>> 32).

Definition linear_h2200_one (s : ts_sample) : ts_sample :=
  let x := s32 (x s <<< 20) in
  let y := s32 (y s <<< 20) in
  let new_x := s32 (s32 (s32 (s32 (s32 (14708834 + M20 1009971 x) + M20 (-18416) y) + M20 (M32 129310 x) y)
                 + M20 (M32 76687 x) x) + M20 (M32 5340 y) y) in
  let new_y := s32 (s32 (s32 (s32 (s32 (-10920238 + M20 129836 x) + M20 951939 y) + M20 (M32 (-947740) x) y)
                 + M20 (M32 22599 x) x) + M20 (M32 735087 y) y) in
  Sample (new_x >>> 20) (new_y >>> 20) (pressure s) (tv s).

Record linear_h2200 := St {}.
Definition linear_h2200_read {U} `{Source U} (n : nat) (st : linear_h2200 * U) :
    option (Z * list ts_sample * (linear_h2200 * U)) :=
  '(ret, samp, u) ← read_from n (snd st);
  if 0 <=? ret
  then Some (ret, map linear_h2200_one (take (Z.to_nat ret) samp), (fst st, u))
  else Some (ret, samp, (fst st, u)).
End LinearH2200.
#[export] Instance linear_h2200_source U `{Source U} : Source (LinearH2200.linear_h2200 * U) :=
  LinearH2200.linear_h2200_read.

(** ** The map of linear.c *)

Section Linear.
Import Linear.

(** The affine map of the first three, or the next three, constants, in unbounded arithmetic. *)
Definition affine (l : linear) (k : nat) (s : ts_sample) : Z :=
  coef l (k + 2) + coef l k * x s + coef l (k + 1) * y s.
(** None of its partial sums leaves [int]. *)
Definition fits (l : linear) (k : nat) (s : ts_sample) : Prop :=
  Z.abs (coef l (k + 2)) + Z.abs (coef l k * x s) + Z.abs (coef l (k + 1) * y s) < 2 ^ 31.

(** [q] is [n / d] rounded towards zero. *)
Definition rounds (q n d : Z) : Prop := Z.abs (n - d * q) < Z.abs d ∧ Z.abs (d * q) <= Z.abs n.

Lemma quot_rounds n d : d ≠ 0 → rounds (Z.quot n d) n d.
Proof.
  intros Hd. pose proof (Z.quot_rem' n d) as Hq. pose proof (Z.rem_bound_abs n d Hd) as Hr.
  unfold rounds. destruct (Z.le_ge_cases 0 n) as [Hn|Hn].
  - pose proof (Z.mul_quot_le n d Hn Hd). lia.
  - pose proof (Z.mul_quot_ge n d Hn Hd). lia.
Qed.

Lemma affine_exact l k s : fits l k s →
  s32 (s32 (coef l (k + 2) + s32 (coef l k * x s)) + s32 (coef l (k + 1) * y s)) = affine l k s
  ∧ Z.abs (affine l k s) < 2 ^ 31.
Proof.
  unfold fits, affine. intros Hf.
  rewrite (s32_small (coef l k * x s)), (s32_small (coef l (k + 1) * y s)) by lia.
  rewrite (s32_small (coef l (k + 2) + _)) by lia. rewrite s32_small by lia. lia.
Qed.

Lemma sdiv_exact n d : d ≠ 0 → Z.abs n < 2 ^ 31 → sdiv n d = Some (Z.quot n d).
Proof.
  intros Hd Hn. unfold sdiv. destruct (Z.eqb_spec d 0); [done|]. f_equal. apply s32_small.
  pose proof (quot_rounds n d Hd) as [_ Hq]. rewrite Z.abs_mul in Hq.
  assert (1 <= Z.abs d) by lia. assert (Z.abs (Z.quot n d) <= Z.abs n) by nia. lia.
Qed.

(** A calibrated module: the pressure is left alone, the scale is not zero. *)
Definition calibrated (l : linear) : Prop := p_offset l = 0 ∧ p_mult l = 1 ∧ p_div l = 1 ∧ coef l 6 ≠ 0.
Definition good_sample (l : linear) (s : ts_sample) : Prop := fits l 0 s ∧ fits l 3 s ∧ 0 <= pressure s < 2 ^ 32.

Lemma linear_one_exact l s : calibrated l → good_sample l s →
  let x' := Z.quot (affine l 0 s) (coef l 6) in let y' := Z.quot (affine l 3 s) (coef l 6) in
  linear_one l s
  = Some (if truthy (swap_xy l) then Sample y' x' (pressure s) (tv s) else Sample x' y' (pressure s) (tv s)).
Proof.
  intros (Ho & Hm & Hd & H6) (F0 & F3 & Hp). unfold linear_one.
  destruct (affine_exact l 0 s F0) as [E0 B0]. destruct (affine_exact l 3 s F3) as [E3 B3].
  cbn [Nat.add] in E0, E3. rewrite E0, E3, !sdiv_exact by done. cbn [mbind option_bind].
  rewrite Ho, Hm, Hd, Z.add_0_r, Z.mul_1_r, !u32_small by (rewrite ?u32_small; lia).
  unfold udiv. cbn. by rewrite Z.div_1_r.
Qed.

(** A sample on the screen: both coordinates are the affine map's, divided and rounded towards zero. *)
Definition on_screen (l : linear) (s o : ts_sample) : Prop :=
  let '(ox, oy) := if truthy (swap_xy l) then (y o, x o) else (x o, y o) in
  rounds ox (affine l 0 s) (coef l 6) ∧ rounds oy (affine l 3 s) (coef l 6)
  ∧ pressure o = pressure s ∧ tv o = tv s.

(** The plugin is the affine map of its seven constants: for every batch of samples small enough
    for [int] arithmetic, read through any upstream, each sample is answered with [a0 x + a1 y + a2]
    and [a3 x + a4 y + a5] divided by [a6] - less than one unit of the scale away and never further
    from zero, exchanged when [xyswap] is set - with its pressure and time stamp; a negative answer
    of the upstream is passed on; and a scale of zero faults on the first sample. *)
Theorem linear_affine {U} `{Source U} n l (u : U) ret samp u' :
  read_from n u = Some (ret, samp, u') → calibrated l →
  Forall (good_sample l) (take (Z.to_nat ret) samp) →
  ∃ out, read_from n (l, u) = Some (ret, out, (l, u'))
    ∧ (0 <= ret → Forall2 (on_screen l) (take (Z.to_nat ret) samp) out) ∧ (ret < 0 → out = samp)
  ∧ ∀ s, linear_one (St (swap_xy l) 0 1 1 [coef l 0; coef l 1; coef l 2; coef l 3; coef l 4; coef l 5; 0]) s = None.
Proof.
  intros Hu Hl Hs.
  assert (∀ samp, Forall (good_sample l) samp → ∃ out, linear_all l samp = Some out ∧ Forall2 (on_screen l) samp out) as HH.
  { clear - Hl. intros samp. induction 1 as [|s samp Hs _ (out & IH & HF)]; [by exists []|].
    cbn [linear_all]. rewrite linear_one_exact by done. rewrite IH. eexists. split; [reflexivity|].
    constructor; [|done]. destruct Hl as (_ & _ & _ & H6). unfold on_screen.
    destruct (truthy (swap_xy l)); cbn; split_and!; done || apply quot_rounds; done. }
  change (read_from n (l, u)) with (linear_read n (l, u)). unfold linear_read. cbn [fst snd]. rewrite Hu. cbn [mbind option_bind].
  destruct (Z.leb_spec 0 ret) as [Hr|Hr].
  - destruct (HH _ Hs) as (out & -> & HF). exists out. split; [done|]. split; [done|]. split; [lia|]. done.
  - exists samp. split; [done|]. split; [lia|]. done.
Qed.

Lemma linear_affine_witness :
  let l := St 1 0 1 1 [65536; 0; -6553600; 0; -131072; 0; 65536] in
  let q := [Sample 300 7 1 1; Sample 0 0 0 2] in
  ∃ out, read_from 2 (l, q) = Some (2, out, (l, [])) ∧ out = [Sample (-14) 200 1 1; Sample 0 (-100) 0 2].
Proof.
  intros l q. destruct (linear_affine 2 l q 2 q []) as (out & Hr & _).
  - reflexivity.
  - repeat split; done.
  - repeat constructor; vm_compute; done.
  - exists out. split; [exact Hr|]. vm_compute in Hr. by injection Hr as <-.
Defined.

(** *** The calibration file *)

Lemma cstring_app s rest : Forall (λ c, c ≠ 0) s → cstring (s ++ 0 :: rest) = Some s.
Proof.
  induction 1 as [|c s Hc _ IH]; cbn; [done|]. destruct (Z.eqb_spec c 0); [done|]. by rewrite IH.
Qed.
Lemma strtok_word cur w s : Forall (λ c, c ≠ 32) w → strtok_all cur (w ++ s) = strtok_all (cur ++ w) s.
Proof.
  intros Hw. revert cur. induction Hw as [|c w Hc _ IH]; intros cur; cbn; [by rewrite app_nil_r|].
  destruct (Z.eqb_spec c 32); [done|]. rewrite IH. by rewrite <- app_assoc.
Qed.
Lemma strtok_join toks : Forall (λ w, w ≠ [] ∧ Forall (λ c, c ≠ 32) w) toks → strtok_all [] (join toks) = toks.
Proof.
  induction 1 as [|w toks [Hne Hw] _ IH]; [done|]. destruct toks as [|w' toks].
  - cbn [join]. rewrite <- (app_nil_r w) at 1. rewrite strtok_word by done. cbn. by rewrite bool_decide_eq_false_2.
  - rewrite join_cons by done. rewrite strtok_word by done. cbn [app strtok_all].
    change (32 =? 32) with true. cbn iota. rewrite bool_decide_eq_false_2 by done. by rewrite IH.
Qed.

Lemma dec_int_word n : - 2 ^ 31 <= n < 2 ^ 31 →
  dec_int n ≠ [] ∧ Forall (λ c, c ≠ 32) (dec_int n) ∧ Forall (λ c, c ≠ 0) (dec_int n) ∧ (length (dec_int n) ≤ 11)%nat.
Proof.
  intros Hn. assert (∀ m, 0 <= m < 2 ^ 32 → dec m ≠ [] ∧ Forall (λ c, c ≠ 32) (dec m) ∧ Forall (λ c, c ≠ 0) (dec m)) as HH.
  { intros m Hm. destruct (dec_spec m Hm) as (Hall & _ & c & ds & Hds & _). unfold is_digit in Hall.
    split; [by rewrite Hds|]. split; (eapply Forall_impl; [exact Hall|]; cbn; intros; lia). }
  unfold dec_int. destruct (Z.ltb_spec n 0).
  - destruct (HH (- n)) as (_ & ? & ?); [lia|]. pose proof (dec_length (- n)).
    split; [done|]. split; [by constructor|]. split; [by constructor|]. cbn [length]. lia.
  - destruct (HH n) as (? & ? & ?); [lia|]. pose proof (dec_length n). split_and!; try done. lia.
Qed.

Lemma join_forall (P : Z → Prop) toks : P 32 → Forall (Forall P) toks → Forall P (join toks).
Proof.
  intros H32. induction 1 as [|w toks Hw Ht IH]; [constructor|]. destruct toks as [|w' toks]; [done|].
  rewrite join_cons by done. apply Forall_app_2; [done|]. by constructor.
Qed.
Lemma join_length k toks : Forall (λ w, (length w ≤ k)%nat) toks → (length (join toks) ≤ length toks * (k + 1))%nat.
Proof.
  induction 1 as [|w toks Hw Ht IH]; [cbn; lia|]. destruct toks as [|w' toks]; [cbn; lia|].
  rewrite join_cons by done. rewrite length_app. cbn [length] in *. lia.
Qed.

Lemma read_calibration_text c0 c1 c2 c3 c4 c5 c6 junk :
  Forall (λ c, - 2 ^ 31 <= c < 2 ^ 31) [c0; c1; c2; c3; c4; c5; c6] →
  read_calibration junk (calibration_text [c0; c1; c2; c3; c4; c5; c6]) = Some [c1; c2; c0; c4; c5; c3; c6].
Proof.
  intros Hc. set (toks := map dec_int [c1; c2; c0; c4; c5; c3; c6]).
  assert (Forall (λ c, - 2 ^ 31 <= c < 2 ^ 31) [c1; c2; c0; c4; c5; c3; c6]) as Hc'.
  { rewrite !Forall_cons in *. tauto. }
  assert (Forall (λ w, w ≠ [] ∧ Forall (λ c, c ≠ 32) w ∧ Forall (λ c, c ≠ 0) w ∧ (length w ≤ 11)%nat) toks) as Htoks.
  { unfold toks. apply Forall_map. eapply Forall_impl; [exact Hc'|]. apply dec_int_word. }
  assert (length (join toks ++ [0%Z]) ≤ 200)%nat as Hlen.
  { rewrite length_app. pose proof (join_length 11 toks) as HL. cbn [length] in *.
    change (length toks) with 7%nat in HL. etransitivity; [apply Nat.add_le_mono_r, HL|lia].
    eapply Forall_impl; [exact Htoks|]. naive_solver. }
  unfold calibration_text. cbn [map nth].
  change [dec_int c1; dec_int c2; dec_int c0; dec_int c4; dec_int c5; dec_int c3; dec_int c6] with toks.
  unfold read_calibration. rewrite take_ge by done. rewrite <- app_assoc. cbn [app]. rewrite cstring_app.
  2:{ apply join_forall; [done|]. eapply Forall_impl; [exact Htoks|]. naive_solver. }
  cbn [mbind option_bind]. rewrite strtok_join by (eapply Forall_impl; [exact Htoks|]; naive_solver).
  rewrite take_ge by done. change (length toks =? 7)%nat with true. cbn iota.
  unfold toks. cbn [map]. rewrite !Forall_cons in Hc'. by rewrite !atoi_dec_int by tauto.
Qed.

(** [C38] Calibration survives the file: what ts_calibrate writes for its seven constants - any seven
    [int]s - linear's [mod_init] reads back from /etc/pointercal, whatever was on its stack, as the
    same seven in the order of its own formula.  If the scale [c6] is not zero, the samples it then reads
    from any upstream, as far as the magnitudes of the three terms add up to less than 2^31 and the
    pressure is an [unsigned int], are those of the calibrated map: [c0 + c1 x + c2 y] and
    [c3 + c4 x + c5 y] over [c6]; with a scale of zero every sample is a division by zero. *)
Theorem calibration_file_roundtrip {U} `{Source U} c0 c1 c2 c3 c4 c5 c6 junk :
  Forall (λ c, - 2 ^ 31 <= c < 2 ^ 31) [c0; c1; c2; c3; c4; c5; c6] →
  let l := St 0 0 1 1 [c1; c2; c0; c4; c5; c3; c6] in
  linear_mod_init (Some (calibration_text [c0; c1; c2; c3; c4; c5; c6])) junk None = Some (Some l)
  ∧ (c6 ≠ 0 → ∀ n (u : U) samp u', read_from n u = Some (Z.of_nat (length samp), samp, u') → Forall (good_sample l) samp →
     read_from n (l, u)
     = Some (Z.of_nat (length samp),
             map (λ s, Sample (Z.quot (c0 + c1 * x s + c2 * y s) c6) (Z.quot (c3 + c4 * x s + c5 * y s) c6)
                         (pressure s) (tv s)) samp, (l, u')))
  ∧ (c6 = 0 → ∀ s, linear_one l s = None).
Proof.
  intros Hc l. split; [|split].
  - unfold linear_mod_init. rewrite read_calibration_text by done. done.
  - intros H6 n u samp u' Hu Hs. assert (linear_all l samp = Some (map (λ s, Sample (Z.quot (c0 + c1 * x s + c2 * y s) c6)
      (Z.quot (c3 + c4 * x s + c5 * y s) c6) (pressure s) (tv s)) samp)) as HH.
    { clear Hu. induction Hs as [|s samp Hg _ IH]; [done|]. cbn [linear_all map].
      rewrite linear_one_exact by done. cbn [mbind option_bind]. by rewrite IH. }
    change (read_from n (l, u)) with (linear_read n (l, u)). unfold linear_read. cbn [fst snd]. rewrite Hu. cbn [mbind option_bind].
    rewrite (proj2 (Z.leb_le 0 _)) by lia. rewrite Nat2Z.id, firstn_all, HH. done.
  - intros -> s. done.
Qed.

Lemma calibration_file_roundtrip_witness :
  calibration_text [-6553600; 20000; -3; 70000; 2; 21000; 65536] = bytes "20000 -3 -6553600 2 21000 70000 65536" ++ [0]
  ∧ let l := St 0 0 1 1 [20000; -3; -6553600; 2; 21000; 70000; 65536] in
    linear_mod_init (Some (bytes "20000 -3 -6553600 2 21000 70000 65536" ++ [0])) (replicate 200 255) None = Some (Some l)
  ∧ read_from 1 (l, [Sample 512 300 1 9]) = Some (1, [Sample 56 97 1 9], (l, [])).
Proof.
  split; [vm_compute; reflexivity|]. intros l.
  destruct (calibration_file_roundtrip (U := list ts_sample) (-6553600) 20000 (-3) 70000 2 21000 65536 (replicate 200 255)) as (Hi & Hr & _).
  - repeat constructor; lia.
  - split; [exact Hi|]. apply (Hr ltac:(lia) 1%nat [Sample 512 300 1 9] [Sample 512 300 1 9] []); [reflexivity|].
    repeat constructor; vm_compute; done.
Defined.
End Linear.

(** ** The polynomial of linear-h2200.c *)

Section LinearH2200.
Import LinearH2200.

(** 2^32 times the two polynomials, with the constants as the table rounds them. *)
Definition poly_x (x y : Z) : Z :=
  4096 * (14708834 + 1009971 * x - 18416 * y) + 129310 * x * y + 76687 * x * x + 5340 * y * y.
Definition poly_y (x y : Z) : Z :=
  4096 * (-10920238 + 129836 * x + 951939 * y) - 947740 * x * y + 22599 * x * x + 735087 * y * y.

Lemma shiftr_mul u v k : 0 <= k → (u * (v * 2 ^ k)) >>> k = u * v.
Proof. intros. rewrite Z.shiftr_div_pow2 by done. rewrite Z.mul_assoc. apply Z.div_mul. lia. Qed.

Lemma M20_exact u v : - 2 ^ 31 <= u * v < 2 ^ 31 → M20 u (v * 2 ^ 20) = u * v.
Proof. intros. unfold M20. rewrite shiftr_mul by done. by apply s32_small. Qed.

(** The product with a 2^32-scaled constant keeps twelve bits less. *)
Lemma M32_floor c v : Z.abs (c * v) < 2 ^ 42 → 4096 * M32 c (v * 2 ^ 20) <= c * v < 4096 * M32 c (v * 2 ^ 20) + 4096.
Proof.
  intros Hc. unfold M32. rewrite Z.shiftr_div_pow2 by done.
  replace (c * (v * 2 ^ 20)) with (c * v * 2 ^ 20) by ring. replace (2 ^ 32) with (4096 * 2 ^ 20) by reflexivity.
  rewrite Z.div_mul_cancel_r by done. pose proof (Z.mod_pos_bound (c * v) 4096 ltac:(lia)) as Hm.
  pose proof (Z_div_mod_eq_full (c * v) 4096) as Hd. rewrite s32_small; lia.
Qed.

Lemma abs_mul_le c v : 0 <= v <= 1023 → Z.abs (c * v) <= Z.abs c * 1023.
Proof. intros. rewrite Z.abs_mul. nia. Qed.

(** A quadratic term [c u v / 2^12]: [v] times the rounded product. *)
Lemma quadratic c u v : Z.abs c < 2 ^ 20 → 0 <= u <= 1023 → 0 <= v <= 1023 →
  ∃ t, M20 (M32 c (u * 2 ^ 20)) (v * 2 ^ 20) = t ∧ 4096 * t <= c * u * v <= 4096 * t + 4095 * 1023
    ∧ Z.abs (4096 * t) <= Z.abs c * 1023 * 1023 + 4096 * 1023.
Proof.
  intros Hc Hu Hv. pose proof (abs_mul_le c u Hu) as Hcu.
  pose proof (M32_floor c u ltac:(lia)) as Hm. set (m := M32 c (u * 2 ^ 20)) in *.
  assert (Z.abs (4096 * m) <= Z.abs c * 1023 + 4096) by lia.
  assert (Z.abs (4096 * (m * v)) <= Z.abs c * 1023 * 1023 + 4096 * 1023).
  { rewrite Z.mul_assoc, Z.abs_mul, (Z.abs_eq v) by lia. nia. }
  exists (m * v). split; [apply M20_exact; lia|]. split; [nia|done].
Qed.

Lemma sum_exact k a b c d e bk ba bb bc bd be :
  - bk <= k <= bk → - ba <= a <= ba → - bb <= b <= bb → - bc <= c <= bc → - bd <= d <= bd → - be <= e <= be →
  bk + ba + bb + bc + bd + be < 2 ^ 31 →
  s32 (s32 (s32 (s32 (s32 (k + a) + b) + c) + d) + e) = k + a + b + c + d + e.
Proof.
  intros. rewrite (s32_small (k + a)), (s32_small (k + a + b)), (s32_small (k + a + b + c)),
    (s32_small (k + a + b + c + d)), s32_small by lia. done.
Qed.

(** A sum of three linear and three quadratic terms, none of whose partial sums overflows. *)
Lemma fixed_point k cx cy cxy cxx cyy x y :
  0 <= x <= 1023 → 0 <= y <= 1023 →
  Z.abs cxy < 2 ^ 20 → Z.abs cxx < 2 ^ 20 → Z.abs cyy < 2 ^ 20 →
  4096 * (Z.abs k + Z.abs cx * 1023 + Z.abs cy * 1023 + 3 * 1023) + (Z.abs cxy + Z.abs cxx + Z.abs cyy) * 1024 * 1024 < 2 ^ 43 →
  let X := x * 2 ^ 20 in let Y := y * 2 ^ 20 in
  let sum := s32 (s32 (s32 (s32 (s32 (k + M20 cx X) + M20 cy Y) + M20 (M32 cxy X) Y) + M20 (M32 cxx X) X) + M20 (M32 cyy Y) Y) in
  let P := 4096 * (k + cx * x + cy * y) + cxy * x * y + cxx * x * x + cyy * y * y in
  4096 * sum <= P <= 4096 * sum + 3 * 4095 * 1023.
Proof.
  intros Hx Hy Hxy Hxx Hyy HB X Y sum P.
  destruct (quadratic cxy x y) as (t1 & E1 & B1 & A1); [assumption..|].
  destruct (quadratic cxx x x) as (t2 & E2 & B2 & A2); [assumption..|].
  destruct (quadratic cyy y y) as (t3 & E3 & B3 & A3); [assumption..|].
  pose proof (abs_mul_le cx x Hx) as Ax. pose proof (abs_mul_le cy y Hy) as Ay.
  assert (sum = k + cx * x + cy * y + t1 + t2 + t3) as ->; [|unfold P; clear - B1 B2 B3; lia].
  apply Z.abs_le in Ax, Ay, A1, A2, A3.
  unfold sum, X, Y. rewrite E1, E2, E3, (M20_exact cx x), (M20_exact cy y) by lia.
  apply (sum_exact _ _ _ _ _ _ (Z.abs k) (Z.abs cx * 1023) (Z.abs cy * 1023)
    (Z.abs cxy * 256 + 1023) (Z.abs cxx * 256 + 1023) (Z.abs cyy * 256 + 1023)); [|done|done|..|]; lia.
Qed.

(** [q] is [p / 2^32] rounded down, or one less. *)
Definition about (q p : Z) : Prop := 2 ^ 32 * q <= p < 2 ^ 32 * (q + 1) + 2 ^ 24.

Lemma about_shift sum p : 4096 * sum <= p <= 4096 * sum + 3 * 4095 * 1023 → about (sum >>> 20) p.
Proof.
  intros Hp. unfold about. rewrite Z.shiftr_div_pow2 by done.
  pose proof (Z.mod_pos_bound sum (2 ^ 20) ltac:(lia)). pose proof (Z_div_mod_eq_full sum (2 ^ 20)). lia.
Qed.

(** The 12.20 fixed point of linear-h2200.c does not overflow: for ten-bit panel coordinates
    each sample answered is the value of the two quadratic polynomials rounded down, at most 1/256
    of a pixel more below than the exact value's floor, for samples read through any upstream;
    pressure and time stamp are left alone. *)
Theorem h2200_polynomial {U} `{Source U} n (u : U) samp u' :
  read_from n u = Some (Z.of_nat (length samp), samp, u') →
  Forall (λ s, 0 <= x s <= 1023 ∧ 0 <= y s <= 1023) samp →
  ∃ out, read_from n (St, u) = Some (Z.of_nat (length samp), out, (St, u'))
    ∧ Forall2 (λ s o, about (x o) (poly_x (x s) (y s)) ∧ about (y o) (poly_y (x s) (y s))
                      ∧ pressure o = pressure s ∧ tv o = tv s) samp out.
Proof.
  intros Hu Hs. exists (map linear_h2200_one samp). split.
  - change (read_from n (St, u)) with (linear_h2200_read n (St, u)). unfold linear_h2200_read. cbn [fst snd].
    rewrite Hu. cbn [mbind option_bind]. rewrite (proj2 (Z.leb_le 0 _)) by lia. by rewrite Nat2Z.id, firstn_all.
  - clear Hu. induction Hs as [|s samp [Hx Hy] _ IH]; cbn [map]; constructor; [|done].
    unfold linear_h2200_one. rewrite !Z.shiftl_mul_pow2 by done. rewrite !(s32_small (_ * 2 ^ 20)) by lia. cbn [x y pressure tv].
    pose proof (fixed_point 14708834 1009971 (-18416) 129310 76687 5340 (x s) (y s) Hx Hy) as Px.
    pose proof (fixed_point (-10920238) 129836 951939 (-947740) 22599 735087 (x s) (y s) Hx Hy) as Py.
    cbv zeta in Px, Py. specialize (Px ltac:(lia) ltac:(lia) ltac:(lia) ltac:(lia)).
    specialize (Py ltac:(lia) ltac:(lia) ltac:(lia) ltac:(lia)).
    split; [|split; [|done]]; apply about_shift; unfold poly_x, poly_y; lia.
Qed.

Lemma h2200_polynomial_witness :
  ∃ out, read_from 2 (St, [Sample 512 400 1 7; Sample 1023 1023 1 8]) = Some (2, out, (St, []))
    ∧ out = [Sample 511 399 1 7; Sample 1032 998 1 8].
Proof.
  destruct (h2200_polynomial 2 [Sample 512 400 1 7; Sample 1023 1023 1 8] [Sample 512 400 1 7; Sample 1023 1023 1 8] []) as (out & Hr & _).
  - reflexivity.
  - repeat constructor; cbn; lia.
  - exists out. split; [exact Hr|]. vm_compute in Hr. by injection Hr as <-.
Defined.
End LinearH2200.
