(* ===== verification/TsInput.v ===== *)
(** * TsInput: from the event device to the client (11th_ts/tslib/plugins/input-raw.c)

    The raw plugin turns the events of the touch screen driver into samples.  Its file descriptor is
    an evdev node: [caps] is what the ioctls answer, the queue what the reads answer (evdev hands out
    whole events, so the short-read branch of the plugin is not taken); an empty queue answers
    EAGAIN. *)

From S2P Require Import Prelude Kernel TouchDrv TsFilters.

Module TsInput.
Definition EV_VERSION := 0x010000.
Definition EV_SYN := 0x00.
Definition EV_KEY := 0x01.
Definition EV_ABS := 0x03.
Definition ABS_X := 0x00.
Definition ABS_Y := 0x01.
Definition ABS_PRESSURE := 0x18.
Definition BTN_TOUCH := 0x14a.
Definition EINTR := 4.

(** What the ioctls answer, [None] for a failure; what one read answers. *)
Record caps := Caps { version : option Z; evbit : option Z; absbit : option Z }.
Inductive rd := Ev (type code value time : Z) | ReadError (errno : Z).
Record dev := Dev { d_caps : caps; d_queue : list rd }.

(** [struct tslib_input]; [slot] is what the caller's array holds before a sample is stored. *)
Record tslib_input := St { current_x : Z; current_y : Z; current_p : Z; sane_fd : Z; using_syn : Z; slot : ts_sample }.
Definition init (slot : ts_sample) : tslib_input := St 0 0 0 0 0 slot.
Definition set_x v i := St v (current_y i) (current_p i) (sane_fd i) (using_syn i) (slot i).
Definition set_y v i := St (current_x i) v (current_p i) (sane_fd i) (using_syn i) (slot i).
Definition set_p v i := St (current_x i) (current_y i) v (sane_fd i) (using_syn i) (slot i).
Definition set_sane v i := St (current_x i) (current_y i) (current_p i) v (using_syn i) (slot i).
Definition set_syn v i := St (current_x i) (current_y i) (current_p i) (sane_fd i) v (slot i).

Definition has_bit (v : option Z) (n : Z) : bool :=
  match v with Some v => truthy (v &&& (1 <<< n)) | None => false end.
Definition check_fd (c : caps) (i : tslib_input) : Z * tslib_input :=
  if negb (match version c with Some v => v =? EV_VERSION | None => false end
           && (has_bit (evbit c) EV_ABS && (has_bit (absbit c) ABS_X && has_bit (absbit c) ABS_Y
                && has_bit (absbit c) ABS_PRESSURE)))
  then (-1, i)
  else (0, if has_bit (evbit c) EV_SYN then set_syn 1 i else i).

Definition abs_event (code value : Z) (i : tslib_input) : tslib_input :=
  if code =? ABS_X then set_x value i
  else if code =? ABS_Y then set_y value i
  else if code =? ABS_PRESSURE then set_p value i else i.
Definition current (i : tslib_input) (t : Z) : ts_sample := Sample (current_x i) (current_y i) (u32 (current_p i)) t.

(** One event with EV_SYN: the sample it completes, if any. *)
Definition syn_event (type code value t : Z) (i : tslib_input) : tslib_input * option ts_sample :=
  if type =? EV_KEY
  then (i, if (code =? BTN_TOUCH) && (value =? 0) then Some (Sample 0 0 0 t) else None)
  else if type =? EV_SYN then (i, Some (current i t))
  else if type =? EV_ABS then (abs_event code value i, None)
  else (i, None).

(** [while (total < nr)]; a failed read answers -1 whatever was stored before. *)
Fixpoint syn_loop (q : list rd) (nr : nat) (i : tslib_input) (samp : list ts_sample) :
    Z * list ts_sample * tslib_input * list rd :=
  if (length samp <? nr)%nat
  then
    match q with
    | Ev type code value t :: q =>
        let '(i, o) := syn_event type code value t i in
        syn_loop q nr i (samp ++ option_list o)
    | ReadError _ :: q => (-1, samp, i, q)
    | [] => (-1, samp, i, [])
    end
  else (Z.of_nat (length samp), samp, i, q).

(** One event without EV_SYN. *)
Definition legacy_event (type code value t : Z) (i : tslib_input) : tslib_input * option ts_sample :=
  if type =? EV_ABS
  then
    if code =? ABS_X then if negb (value =? 0) then let i := set_x value i in (i, Some (current i t)) else (i, None)
    else if code =? ABS_Y then if negb (value =? 0) then let i := set_y value i in (i, Some (current i t)) else (i, None)
    else if code =? ABS_PRESSURE then let i := set_p value i in (i, Some (current i t))
    else (i, Some (Sample (x (slot i)) (y (slot i)) (pressure (slot i)) t))
  else if type =? EV_KEY
  then (i, if (code =? BTN_TOUCH) && (value =? 0) then Some (Sample 0 0 0 t) else None)
  else (i, None).

Fixpoint legacy_loop (q : list rd) (nr : nat) (i : tslib_input) (samp : list ts_sample) :
    Z * list ts_sample * tslib_input * list rd :=
  if (length samp <? nr)%nat
  then
    match q with
    | Ev type code value t :: q =>
        let '(i, o) := legacy_event type code value t i in
        legacy_loop q nr i (samp ++ option_list o)
    | ReadError e :: q => if e =? EINTR then legacy_loop q nr i samp else (Z.of_nat (length samp), samp, i, q)
    | [] => (Z.of_nat (length samp), samp, i, [])
    end
  else (Z.of_nat (length samp), samp, i, q).

(** A device that passes [check_fd] leaves [sane_fd] at 0 and is checked again by the next read. *)
Definition ts_input_read (nr : nat) (st : tslib_input * dev) : option (Z * list ts_sample * (tslib_input * dev)) :=
  let '(i, d) := st in
  let i :=
    if sane_fd i =? 0 then let '(r, i) := check_fd (d_caps d) i in set_sane r i else i in
  if sane_fd i =? -1 then Some (0, [], (i, d))
  else
    let '(ret, samp, i, q) :=
      if truthy (using_syn i) then syn_loop (d_queue d) nr i [] else legacy_loop (d_queue d) nr i [] in
    Some (ret, samp, (i, Dev (d_caps d) q)).
End TsInput.
#[export] Instance input_source : Source (TsInput.tslib_input * TsInput.dev) := TsInput.ts_input_read.

Section Loops.
Import TsInput.

Lemma option_list_length {A} (o : option A) : (length (option_list o) ≤ 1)%nat.
Proof. destruct o; cbn; lia. Qed.
Lemma syn_loop_count q nr i samp : (length samp ≤ nr)%nat →
  let '(ret, l, _, _) := syn_loop q nr i samp in (ret = -1 ∨ ret = Z.of_nat (length l)) ∧ (length l ≤ nr)%nat.
Proof.
  revert i samp. induction q as [|[type code value t|e] q IH]; intros i samp Hs; cbn [syn_loop];
    (destruct (Nat.ltb_spec (length samp) nr); [|by auto]); [by auto| |by auto].
  destruct (syn_event type code value t i) as [i' o]. apply IH. rewrite length_app. pose proof (option_list_length o). lia.
Qed.
Lemma legacy_loop_count q nr i samp : (length samp ≤ nr)%nat →
  let '(ret, l, _, _) := legacy_loop q nr i samp in ret = Z.of_nat (length l) ∧ (length l ≤ nr)%nat.
Proof.
  revert i samp. induction q as [|[type code value t|e] q IH]; intros i samp Hs; cbn [legacy_loop];
    (destruct (Nat.ltb_spec (length samp) nr); [|by auto]); [by auto| |].
  - destruct (legacy_event type code value t i) as [i' o]. apply IH. rewrite length_app. pose proof (option_list_length o). lia.
  - destruct (e =? EINTR); [by apply IH|by auto].
Qed.
End Loops.

#[export] Instance input_ok : SourceOk (TsInput.tslib_input * TsInput.dev) (λ _, True).
Proof.
  intros nr [i d] _. change (read_from nr (i, d)) with (TsInput.ts_input_read nr (i, d)). unfold TsInput.ts_input_read.
  set (i0 := if TsInput.sane_fd i =? 0 then _ else i). destruct (TsInput.sane_fd i0 =? -1).
  { do 3 eexists. split; [done|]. split; [done|]. right. split; [done|]. cbn. lia. }
  destruct (truthy (TsInput.using_syn i0)).
  - pose proof (syn_loop_count (TsInput.d_queue d) nr i0 [] ltac:(cbn; lia)) as HC.
    destruct (TsInput.syn_loop _ _ _ _) as [[[ret l] i1] q]. do 3 eexists. split; [done|]. split; [done|].
    destruct HC as [[-> | ->] ?]; [by left|by right].
  - pose proof (legacy_loop_count (TsInput.d_queue d) nr i0 [] ltac:(cbn; lia)) as HC.
    destruct (TsInput.legacy_loop _ _ _ _) as [[[ret l] i1] q]. do 3 eexists. split; [done|]. split; [done|].
    destruct HC as [-> ?]; by right.
Qed.

(** ** From the driver to the client *)

(** What the input core passes on: of the values those that differ from the last one of their type and
    code, and a synchronisation when something has passed since the last one ([pending]). *)
Definition passed : Type := Z → Z → Z.
Definition pass (c : passed) (t k v : Z) : passed := λ t' k', if (t' =? t) && (k' =? k) then v else c t' k'.
Fixpoint input_core (c : passed) (pending : bool) (es : list input_event) : list input_event :=
  match es with
  | [] => []
  | (t, k, v) :: es =>
      if t =? 0
      then (if pending then [(t, k, v)] else []) ++ input_core c false es
      else let changed := negb (c t k =? v) in
           (if changed then [(t, k, v)] else []) ++ input_core (pass c t k v) (pending || changed) es
  end.

(** The stream of the file descriptor: the events with any time stamps. *)
Definition stamped (es : list input_event) (q : list TsInput.rd) : Prop :=
  Forall2 (λ e r, ∃ time, r = TsInput.Ev e.1.1 e.1.2 e.2 time) es q.

(** What a client reads one sample at a time, until a read fails; [None] when [fuel] reads are not
    enough or one faults. *)
Fixpoint drain {U} `{Source U} (fuel : nat) (u : U) : option (list ts_sample) :=
  match fuel with
  | O => None
  | S fuel =>
      '(ret, l, u') ← read_from 1 u;
      if ret <? 0 then Some [] else l' ← drain fuel u'; Some (l ++ l')
  end.

(** The strokes of the user: every press with a new position, and one release where the pen was last. *)
Fixpoint strokes (cur : option (Z * Z)) (fs : list frame) : list (Z * Z * Z) :=
  match fs with
  | [] => []
  | Press px py :: fs =>
      if decide (cur = Some (px, py)) then strokes cur fs else (px, py, 1) :: strokes (Some (px, py)) fs
  | Release :: fs => match cur with Some (a, b) => (a, b, 0) :: strokes None fs | None => strokes None fs end
  end.
Definition seen (s : ts_sample) : Z * Z * Z := (x s, y s, pressure s).

(** A touch screen as the driver registers it. *)
Definition touch_caps : TsInput.caps := TsInput.Caps (Some TsInput.EV_VERSION) (Some 0x0b) (Some 0x01000003).

Section Pipeline.
Import TsInput.

(** Every sample a queue of events completes. *)
Fixpoint samples_of (i : tslib_input) (q : list rd) : list ts_sample :=
  match q with
  | Ev type code value t :: q => let '(i, o) := syn_event type code value t i in option_list o ++ samples_of i q
  | _ => []
  end.
Definition checked (i : tslib_input) : Prop := sane_fd i = 0 ∧ using_syn i = 1.
Definition is_ev (r : rd) : Prop := match r with Ev _ _ _ _ => True | ReadError _ => False end.

Lemma syn_event_checked type code value t i : checked i → checked (syn_event type code value t i).1.
Proof.
  unfold syn_event, abs_event. intros Hc. destruct (type =? EV_KEY); [done|]. destruct (type =? EV_SYN); [done|].
  destruct (type =? EV_ABS); [|done]. cbn. destruct (code =? _); [done|]. destruct (code =? _); [done|]. by destruct (code =? _).
Qed.

Lemma input_read_checked q i : checked i →
  read_from 1 (i, Dev touch_caps q) = let '(ret, samp, i, q) := syn_loop q 1 i [] in Some (ret, samp, (i, Dev touch_caps q)).
Proof.
  intros [Hs Hu]. change (read_from 1 (i, Dev touch_caps q)) with (ts_input_read 1 (i, Dev touch_caps q)).
  unfold ts_input_read. rewrite Hs. change (0 =? 0) with true. cbn iota. cbn [d_caps].
  change (check_fd touch_caps i) with (0, set_syn 1 i). cbn beta iota.
  assert (set_sane 0 (set_syn 1 i) = i) as -> by (destruct i; cbn in *; by subst). by rewrite Hs, Hu.
Qed.

(** One sample through pthres. *)
Lemma pthres_read_one {U} `{Source U} p (u u' : U) s :
  read_from 1 u = Some (1, [s], u') →
  let out := option_list (pthres_step s p).1 in
  Pthres.pthres_read 1 (p, u) = Some (Z.of_nat (length out), out, ((pthres_step s p).2, u')).
Proof.
  intros Hu. unfold Pthres.pthres_read. cbn [snd fst]. rewrite Hu. cbn [mbind option_bind].
  change (Z.to_nat 1) with 1%nat. cbn [Pthres.pthres_loop]. change ([s] !! 0%nat) with (Some s). cbn iota.
  unfold pthres_step. destruct (pressure s <? Pthres.pmin p); [by destruct (truthy (Pthres.press p))|].
  by destruct (Pthres.pmax p <? pressure s).
Qed.
Lemma pthres_filter_cons s l p :
  (pthres_filter (s :: l) p).1 = option_list (pthres_step s p).1 ++ (pthres_filter l (pthres_step s p).2).1.
Proof. cbn. destruct (pthres_step s p) as [o p1]. cbn. destruct (pthres_filter l p1). by destruct o. Qed.

Lemma drain_samples (p : Pthres.pthres) q fuel i :
  checked i → Forall is_ev q → (length q < fuel)%nat →
  drain fuel (p, (i, Dev touch_caps q)) = Some (pthres_filter (samples_of i q) p).1.
Proof.
  intros Hi Hq. revert p fuel i Hi. induction Hq as [|[type code value t|] q Hr Hq IH]; intros p fuel i Hi Hf; [| |done];
    (destruct fuel as [|fuel]; [cbn in Hf; lia|]).
  - cbn [drain]. change (read_from 1 (p, ?u)) with (Pthres.pthres_read 1 (p, u)).
    unfold Pthres.pthres_read. cbn [snd]. by rewrite input_read_checked.
  - pose proof (syn_event_checked type code value t i Hi) as Hi'. cbn [length] in Hf.
    pose proof (input_read_checked (Ev type code value t :: q) i Hi) as Hread. cbn [syn_loop length] in Hread.
    change (0 <? 1)%nat with true in Hread. cbn iota in Hread.
    cbn [samples_of]. destruct (syn_event type code value t i) as [i' [s|]] eqn:E; cbn [fst] in Hi'.
    + assert (read_from 1 (i, Dev touch_caps (Ev type code value t :: q)) = Some (1, [s], (i', Dev touch_caps q))) as Hone.
      { rewrite Hread. destruct q; reflexivity. }
      cbn [drain option_list app]. change (read_from 1 (p, ?u)) with (Pthres.pthres_read 1 (p, u)).
      rewrite (pthres_read_one _ _ _ _ Hone). cbn [mbind option_bind].
      destruct (Z.ltb_spec (Z.of_nat (length (option_list (pthres_step s p).1))) 0); [lia|].
      rewrite IH by (done || lia). cbn [mbind option_bind]. 
      change (option_list (Some s) ++ samples_of i' q) with (s :: samples_of i' q). by rewrite pthres_filter_cons.
    + change (option_list None ++ ?l) with l. rewrite <- (IH p (S fuel) i') by (done || lia). cbn [drain].
      change (read_from 1 (p, ?u)) with (Pthres.pthres_read 1 (p, u)). unfold Pthres.pthres_read. cbn [snd fst].
      rewrite Hread. rewrite input_read_checked by done. done.
Qed.

(** The plugin knows the values the core last passed on. *)
Definition in_sync (c : passed) (i : tslib_input) : Prop :=
  current_x i = c 3 0 ∧ current_y i = c 3 1 ∧ current_p i = c 3 0x18.
(** The next event of the driver, passed on or left out. *)
Lemma core_abs c b k v es q i :
  stamped (input_core c b ((3, k, v) :: es)) q → in_sync c i → k = 0 ∨ k = 1 ∨ k = 0x18 →
  ∃ q', stamped (input_core (pass c 3 k v) (b || negb (c 3 k =? v)) es) q'
    ∧ in_sync (pass c 3 k v) (abs_event k v i) ∧ samples_of i q = samples_of (abs_event k v i) q'.
Proof.
  intros Hs (Sx & Sy & Sp) Hk. cbn [input_core] in Hs. change (3 =? 0) with false in Hs. cbv zeta iota in Hs.
  assert (in_sync (pass c 3 k v) (abs_event k v i)) by (destruct Hk as [->|[->| ->]]; by split_and!).
  destruct (Z.eqb_spec (c 3 k) v) as [<-|Hv]; cbn [negb app] in Hs |- *.
  - exists q. split; [done|]. split; [done|].
    assert (abs_event k (c 3 k) i = i) as -> by (destruct i, Hk as [->|[->| ->]]; cbn in *; by subst). done.
  - inversion Hs as [|? ? ? q' [time ->] Hs']; subst. exists q'. split; [done|]. split; [done|]. by destruct Hk as [->|[->| ->]].
Qed.
Lemma core_key c b v es q i :
  stamped (input_core c b ((1, 0x14a, v) :: es)) q →
  ∃ q' o, stamped (input_core (pass c 1 0x14a v) (b || negb (c 1 0x14a =? v)) es) q'
    ∧ samples_of i q = o ++ samples_of i q'
    ∧ ((o = [] ∧ (v = 0 → c 1 0x14a = 0)) ∨ (v = 0 ∧ ∃ time, o = [Sample 0 0 0 time])).
Proof.
  intros Hs. cbn [input_core] in Hs. change (1 =? 0) with false in Hs. cbv zeta iota in Hs.
  destruct (Z.eqb_spec (c 1 0x14a) v) as [E|Hv]; cbn [negb app] in Hs |- *.
  - exists q, []. split; [done|]. split; [done|]. left. split; [done|by intros <-].
  - inversion Hs as [|? ? ? q' [time ->] Hs']; subst. exists q', (if v =? 0 then [Sample 0 0 0 time] else []).
    split; [done|]. cbn. destruct (Z.eqb_spec v 0) as [->|]; (split; [done|]); [right; split; [done|by exists time]|by left].
Qed.
Lemma core_sync c (b : bool) es q i :
  stamped (input_core c b ((0, 0, 0) :: es)) q →
  ∃ q' o, stamped (input_core c false es) q' ∧ samples_of i q = o ++ samples_of i q'
    ∧ if b then ∃ time, o = [current i time] else o = [].
Proof.
  intros Hs. cbn [input_core] in Hs. change (0 =? 0) with true in Hs. destruct b; cbn [app] in Hs; [|by exists q, []].
  inversion Hs as [|? ? ? q' [time ->] Hs']; subst. exists q', [current i time]. split; [done|]. split; [done|by exists time].
Qed.

(** pthres with its default limits. *)
Definition default_limits (p : Pthres.pthres) : Prop := Pthres.pmin p = 1 ∧ Pthres.pmax p = Pthres.INT_MAX.

Lemma seen_step s p l : map seen (pthres_filter (s :: l) p).1
  = map seen (option_list (pthres_step s p).1) ++ map seen (pthres_filter l (pthres_step s p).2).1.
Proof. by rewrite pthres_filter_cons, map_app. Qed.

Lemma press_step a b time p : default_limits p →
  let p' := (pthres_step (Sample a b 1 time) p).2 in
  map seen (option_list (pthres_step (Sample a b 1 time) p).1) = [(a, b, 1)]
  ∧ default_limits p' ∧ under_way p' = Some (a, b).
Proof. intros [H1 H2]. unfold pthres_step. cbn [pressure]. rewrite H1, H2. by split_and!. Qed.
Lemma release_step a b time p : default_limits p →
  let p' := (pthres_step (Sample a b 0 time) p).2 in
  map seen (option_list (pthres_step (Sample a b 0 time) p).1)
    = match under_way p with Some (u, v) => [(u, v, 0)] | None => [] end
  ∧ default_limits p' ∧ under_way p' = None.
Proof.
  intros [H1 H2]. unfold pthres_step, under_way. cbn [pressure]. rewrite H1. change (0 <? 1) with true. cbn iota.
  destruct (truthy (Pthres.press p)) eqn:E; [done|]. cbn [fst snd]. rewrite E. done.
Qed.

(** The core's values and the filter agree on whether the pen is down, and where. *)
Definition agrees (c : passed) (b : bool) (p : Pthres.pthres) : Prop :=
  (c 1 0x14a = 0 ∧ c 3 0x18 = 0 ∧ under_way p = None) ∨
  (c 1 0x14a = 1 ∧ c 3 0x18 = 1 ∧ under_way p = Some (c 3 0, c 3 1) ∧ b = false).

Lemma frames_strokes fs c b q i p :
  stamped (input_core c b (concat (frame_events <$> fs))) q → in_sync c i → default_limits p → agrees c b p →
  map seen (pthres_filter (samples_of i q) p).1 = strokes (under_way p) fs.
Proof.
  revert c b q i p. induction fs as [|[px py|] fs IH]; intros c b q i p Hs Hi Hp Ha.
  - by inversion Hs; subst.
  - cbn [fmap list_fmap frame_events concat app] in Hs.
    destruct (core_abs _ _ _ _ _ _ _ Hs Hi) as (q1 & Hs1 & Hi1 & ->); [by left|].
    destruct (core_abs _ _ _ _ _ _ _ Hs1 Hi1) as (q2 & Hs2 & Hi2 & ->); [by right; left|].
    destruct (core_abs _ _ _ _ _ _ _ Hs2 Hi2) as (q3 & Hs3 & Hi3 & ->); [by right; right|].
    destruct (core_key _ _ _ _ _ (abs_event 24 1 (abs_event 1 py (abs_event 0 px i))) Hs3) as (q4 & o & Hs4 & -> & [[-> _]|[? _]]); [|done].
    destruct (core_sync _ _ _ _ (abs_event 24 1 (abs_event 1 py (abs_event 0 px i))) Hs4) as (q5 & o & Hs5 & -> & Ho).
    set (c' := pass (pass (pass (pass c 3 0 px) 3 1 py) 3 24 1) 1 0x14a 1) in *.
    change (pass (pass (pass c 3 0 px) 3 1 py) 3 24 1 1 0x14a) with (c 1 0x14a) in Ho.
    change (pass (pass c 3 0 px) 3 1 py 3 24) with (c 3 24) in Ho. change (pass c 3 0 px 3 1) with (c 3 1) in Ho.
    cbn [app strokes]. destruct (decide (under_way p = Some (px, py))) as [Hc|Hc].
    + destruct Ha as [(_ & _ & Hn)|(H1 & H2 & H3 & ->)]; [congruence|]. rewrite Hc in H3. injection H3 as -> ->.
      rewrite H1, H2, !Z.eqb_refl in Ho. cbn in Ho. subst o. cbn [app]. eapply IH; [exact Hs5|exact Hi3|done|].
      right. by split_and!.
    + assert (b || negb (c 3 0 =? px) || negb (c 3 1 =? py) || negb (c 3 24 =? 1) || negb (c 1 0x14a =? 1) = true) as Hb.
      { destruct Ha as [(-> & _ & _)|(_ & _ & H3 & _)]; [apply orb_true_r|]. rewrite H3 in Hc.
        destruct (Z.eqb_spec (c 3 0) px) as [Ex|]; [|cbn; by rewrite !orb_true_r].
        destruct (Z.eqb_spec (c 3 1) py) as [Ey|]; [|cbn; by rewrite !orb_true_r]. destruct Hc. by rewrite Ex, Ey. }
      rewrite Hb in Ho. destruct Ho as [time ->]. cbn [app]. rewrite seen_step. change (current _ time) with (Sample px py 1 time).
      destruct (press_step px py time p Hp) as (-> & Hp' & Hw). cbn [app]. f_equal. rewrite <- Hw.
      eapply IH; [exact Hs5|exact Hi3|done|]. right. by split_and!.
  - cbn [fmap list_fmap frame_events concat app] in Hs.
    destruct (core_abs _ _ _ _ _ _ _ Hs Hi) as (q1 & Hs1 & Hi1 & ->); [by right; right|].
    destruct (core_key _ _ _ _ _ (abs_event 24 0 i) Hs1) as (q2 & o1 & Hs2 & -> & Ho1).
    destruct (core_sync _ _ _ _ (abs_event 24 0 i) Hs2) as (q3 & o2 & Hs3 & -> & Ho2).
    change (pass c 3 24 0 1 0x14a) with (c 1 0x14a) in Ho1, Ho2. cbn [strokes].
    assert (∀ p', default_limits p' → under_way p' = None → map seen (pthres_filter (samples_of (abs_event 24 0 i) q3) p').1 = strokes None fs) as Hrest.
    { intros p' Hp' Hu'. rewrite <- Hu'. eapply IH; [exact Hs3|exact Hi1|done|]. left. by split_and!. }
    assert (∀ p', default_limits p' → under_way p' = None → map seen (pthres_filter (o2 ++ samples_of (abs_event 24 0 i) q3) p').1 = strokes None fs) as Hsync.
    { intros p' Hp' Hu'. destruct (b || _ || _); [destruct Ho2 as [time ->]|subst o2; by apply Hrest].
      destruct (release_step (current_x i) (current_y i) time p' Hp') as (R1 & Hp1 & W1).
      cbn [app]. rewrite seen_step. change (current _ time) with (Sample (current_x i) (current_y i) 0 time).
      rewrite R1, Hu'. by apply Hrest. }
    destruct Ho1 as [[-> Hk]|[_ [t' ->]]].
    + destruct Ha as [(_ & _ & Hu)|(H1 & _)]; [|rewrite Hk in H1; done]. rewrite Hu. by apply Hsync.
    + destruct (release_step 0 0 t' p Hp) as (R2 & Hp2 & W2). cbn [app]. rewrite seen_step, R2, Hsync by done.
      by destruct (under_way p) as [[u v]|].
Qed.
End Pipeline.

Lemma drain_init (p : Pthres.pthres) slot q fuel :
  drain (S fuel) (p, (TsInput.init slot, TsInput.Dev touch_caps q))
  = drain (S fuel) (p, (TsInput.set_syn 1 (TsInput.init slot), TsInput.Dev touch_caps q)).
Proof. reflexivity. Qed.

(** [C2] From the panel to the client: for every sequence of pen, timer and conversion interrupts of
    the driver from its initial state, with an input core that passes on the values that changed, and a
    synchronisation when something passed since the last one, a client that reads sample by sample
    through pthres and the input plugin gets exactly the strokes of the frames the specification of
    the driver promises - each press whose position differs from the one before, and one release where
    the pen was last; a pen that rests, the (0, 0) release of the plugin and repeated releases give no
    sample - and the reads end. *)
Theorem touch_to_client HZ evs s s' h' pending q slot :
  ts_ready s → play HZ evs s = Some (s', h') → stamped (input_core (λ _ _, 0) pending (reported h')) q →
  ∃ out, drain (S (length q)) (Pthres.init, (TsInput.init slot, TsInput.Dev touch_caps q)) = Some out
    ∧ map seen out = strokes None (spec_play evs []).2.
Proof.
  intros Hr Hplay Hs. destruct (play_spec HZ evs s [] Hr) as (s1 & h1 & Hp & _ & Hf).
  rewrite Hplay in Hp. injection Hp as -> ->. rewrite Hf in Hs.
  rewrite drain_init, drain_samples; [|done| |lia].
  - eexists. split; [done|]. eapply (frames_strokes _ _ _ _ _ Pthres.init); [exact Hs|done..|by left].
  - clear - Hs. induction Hs as [|e r es q [time ->] _ IH]; by constructor.
Qed.

Lemma touch_to_client_witness :
  let s := S3cTs.St 1 0xf8000000 0 [0; 0; 0; 0] [0; 0; 0; 0] in
  let adc v := Adc v v 0 in
  let evs := [Pen 0; adc 100; adc 102; adc 104; adc 106; Timer 0; adc 100; adc 102; adc 104; adc 110; Pen 0x8000] in
  let q := [TsInput.Ev 3 0 103 1; TsInput.Ev 3 1 103 2; TsInput.Ev 3 24 1 3; TsInput.Ev 1 330 1 4; TsInput.Ev 0 0 0 5;
            TsInput.Ev 3 0 104 6; TsInput.Ev 3 1 104 7; TsInput.Ev 0 0 0 8;
            TsInput.Ev 3 24 0 9; TsInput.Ev 1 330 0 10; TsInput.Ev 0 0 0 11] in
  ∃ out, drain 12 (Pthres.init, (TsInput.init (Sample 0 0 0 0), TsInput.Dev touch_caps q)) = Some out
    ∧ map seen out = [(103, 103, 1); (104, 104, 1); (104, 104, 0)].
Proof.
  intros s adc evs q.
  assert (option_map (λ r, reported r.2) (play 200 evs s)
    = Some (concat (frame_events <$> [Press 103 103; Press 104 104; Release]))) as Hrep by (vm_compute; reflexivity).
  destruct (play 200 evs s) as [[s' h']|] eqn:E; [|discriminate Hrep]. injection Hrep as Hrep.
  apply (touch_to_client 200 evs s s' h' true q).
  - clear E Hrep. unfold ts_ready, represents. simpl. split_and!; done || lia.
  - exact E.
  - rewrite Hrep. cbn. repeat constructor; eexists; reflexivity.
Defined.
