(* ===== verification/TsConfig.v ===== *)
(** * TsConfig: the module chain of tslib (11th_ts/tslib/src)

    [ts_open], [ts_config], [ts_load_module] and [ts_attach]: the configuration file is
    read line by line, each directive loads a plugin, and a plugin is a node of a linked list that
    reads from the next node.  Nodes live in a heap (a list, addressed by position); a model function
    answers [None] where the code faults. *)

From S2P Require Import Prelude TsFilters TsText TsLinear TsInput.

Module TsCore.
Section TsCore.
(** What a loaded plugin is besides its place in the chain: its private structure. *)
Context {M : Type}.

(** [struct tslib_module_info] and [struct tsdev]. *)
Record module_info := Info { next : option nat; payload : M }.
Record tsdev := Dev { fd : Z; list_ : option nat; list_raw : option nat; heap : list module_info }.

(** [ts_open]: [open] is the answer of the system, [None] a failure; an allocation failure is
    [false]. *)
Definition ts_open (malloc : bool) (open : option Z) : option tsdev :=
  if malloc then fd ← open; if fd =? -1 then None else Some (Dev fd None None []) else None.
(** [ts_close] closes the descriptor and frees the device, no module is finished. *)
Definition ts_close (close : Z → Z) (ts : tsdev) : Z := close (fd ts).
Definition ts_fd (ts : tsdev) : Z := fd ts.

Definition set_next (k : nat) (n : option nat) (h : list module_info) : list module_info :=
  alter (λ i, Info n (payload i)) k h.

Definition __ts_attach (ts : tsdev) (info : nat) : Z * tsdev :=
  (0, Dev (fd ts) (Some info) (list_raw ts) (set_next info (list_ ts) (heap ts))).

(** The loop of [__ts_attach_raw]: [next] and [prev] move together. *)
Fixpoint find_end (fuel : nat) (h : list module_info) (prev_list nxt prev : option nat) : option (option nat) :=
  match nxt with
  | None => Some prev
  | Some k =>
      if bool_decide (nxt = prev_list) then Some prev
      else
        match fuel with
        | O => None
        | S fuel => p ← prev; i ← h !! p; find_end fuel h prev_list (next i) (next i)
        end
  end.
Definition __ts_attach_raw (ts : tsdev) (info : nat) : option (Z * tsdev) :=
  let prev_list := list_raw ts in
  let h := set_next info prev_list (heap ts) in
  if bool_decide (list_ ts = None) || bool_decide (list_ ts = prev_list)
  then Some (0, Dev (fd ts) (Some info) (Some info) h)
  else
    prev ← find_end (S (length h)) h prev_list (list_ ts) (list_ ts);
    p ← prev;
    Some (0, Dev (fd ts) (list_ ts) (Some info) (set_next p (Some info) h)).

(** ** Loading *)

(** The directory of the plugins and what [dlopen], [dlsym] and a plugin's [mod_init] answer. *)
Context (plugin_directory : list Z)
  (plugins : list Z → option (option (option (list Z) → option (option M)))).

(** Both attach functions answer 0, so the branch that finishes the module again is never taken; the
    handle of the library is not kept. *)
Definition __ts_load_module (ts : tsdev) (module : list Z) (params : option (list Z)) (raw : bool) :
    option (Z * tsdev) :=
  let fn := plugin_directory ++ bytes "/" ++ module ++ bytes ".so" in
  if 1024 <=? Z.of_nat (length fn) then None
  else
    match plugins fn with
    | None => Some (-1, ts)
    | Some None => Some (-1, ts)
    | Some (Some init) =>
        info ← init params;
        match info with
        | None => Some (-1, ts)
        | Some m =>
            let ts := Dev (fd ts) (list_ ts) (list_raw ts) (heap ts ++ [Info None m]) in
            let k := (length (heap ts) - 1)%nat in
            if raw then __ts_attach_raw ts k else Some (__ts_attach ts k)
        end
    end.
Definition ts_load_module ts module params := __ts_load_module ts module params false.
Definition ts_load_module_raw ts module params := __ts_load_module ts module params true.

(** ** The configuration file *)

Definition BUF_SIZE : nat := 512.
Fixpoint fgets (n : nat) (s : list Z) : list Z * list Z :=
  match n, s with
  | S n, c :: s => if c =? 10 then ([c], s) else let '(l, rest) := fgets n s in (c :: l, rest)
  | _, _ => ([], s)
  end.
Definition chomp (l : list Z) : list Z := (strsep (λ c, c =? 10) l).1.

(** One line: go on with a result, or leave the loop with it. *)
Inductive step := Continue (ret : Z) (ts : tsdev) | Break (ret : Z) (ts : tsdev).
Definition config_line (line : list Z) (ret : Z) (ts : tsdev) : option step :=
  if (BUF_SIZE - 1 <=? length line)%nat then Some (Break ret ts)
  else
    let '(tok, p) := strsep isblank line in
    match p with
    | None => Some (Continue ret ts)
    | Some p =>
        if match tok with c :: _ => c =? 35 | [] => false end then Some (Continue ret ts)
        else
          let load raw :=
            let '(module_name, params) := strsep isblank p in
            '(ret, ts) ← __ts_load_module ts module_name params raw;
            Some (if negb (ret =? 0) then Break ret ts else Continue ret ts) in
          if strcasecmp_eq tok (bytes "module") then load false
          else if strcasecmp_eq tok (bytes "module_raw") then load true
          else Some (Break ret ts)
    end.
Fixpoint config_loop (fuel : nat) (s : list Z) (ret : Z) (ts : tsdev) : option (Z * tsdev) :=
  match fuel with
  | O => None
  | S fuel =>
      match fgets (BUF_SIZE - 1) s with
      | ([], _) => Some (ret, ts)
      | (line, s) =>
          r ← config_line (chomp line) ret ts;
          match r with Continue ret ts => config_loop fuel s ret ts | Break ret ts => Some (ret, ts) end
      end
  end.
Definition ts_config (conf : option (list Z)) (ts : tsdev) : option (Z * tsdev) :=
  match conf with
  | None => Some (-1, ts)
  | Some s =>
      '(ret, ts) ← config_loop (S (length s)) s 0 ts;
      Some (if bool_decide (list_raw ts = None) then -1 else ret, ts)
  end.

(** The modules a read goes through, from a node of the heap; [None] when the list does not end
    within [fuel] nodes. *)
Fixpoint walk (fuel : nat) (h : list module_info) (k : option nat) : option (list M) :=
  match k with
  | None => Some []
  | Some k =>
      match fuel with
      | O => None
      | S fuel => i ← h !! k; l ← walk fuel h (next i); Some (payload i :: l)
      end
  end.
Definition chain (ts : tsdev) : option (list M) := walk (length (heap ts)) (heap ts) (list_ ts).
Definition chain_raw (ts : tsdev) : option (list M) := walk (length (heap ts)) (heap ts) (list_raw ts).
End TsCore.
Arguments module_info M : clear implicits.
Arguments tsdev M : clear implicits.
Arguments step M : clear implicits.
End TsCore.

(** ** The chain of a device *)

Section Chain.
Import TsCore.
Context {M : Type}.
Implicit Types (ms : list M).

(** The heap after the modules [ms] were attached, each in front of the one before; the first [nraw]
    of them raw. *)
Definition prev_id (k : nat) : option nat := match k with O => None | S k => Some k end.
Definition nodes ms : list (module_info M) := imap (λ k m, Info (prev_id k) m) ms.
Definition built (f : Z) ms (nraw : nat) : tsdev M := Dev f (prev_id (length ms)) (prev_id nraw) (nodes ms).

Lemma nodes_snoc ms m : nodes (ms ++ [m]) = nodes ms ++ [Info (prev_id (length ms)) m].
Proof. unfold nodes. rewrite imap_app. cbn. by rewrite Nat.add_0_r. Qed.
Lemma length_nodes ms : length (nodes ms) = length ms.
Proof. apply length_imap. Qed.
Lemma set_last ms m n : set_next (length ms) n (nodes ms ++ [Info None m]) = nodes ms ++ [Info n m].
Proof. unfold set_next. rewrite <- (length_nodes ms). rewrite alter_app_r_alt by done. by rewrite Nat.sub_diag. Qed.

Lemma nodes_lookup ms k : (k < length ms)%nat → ∃ m, ms !! k = Some m ∧ nodes ms !! k = Some (Info (prev_id k) m).
Proof.
  intros Hk. destruct (lookup_lt_is_Some_2 ms k) as [m Hm]; [lia|]. exists m. split; [done|].
  unfold nodes. by rewrite list_lookup_imap, Hm.
Qed.

Lemma walk_nodes ms fuel k : (k ≤ length ms)%nat → (k ≤ fuel)%nat → walk fuel (nodes ms) (prev_id k) = Some (reverse (take k ms)).
Proof.
  revert fuel. induction k as [|k IH]; intros fuel Hk Hf; [by destruct fuel|].
  destruct fuel as [|fuel]; [lia|]. cbn [prev_id walk]. destruct (nodes_lookup ms k) as (m & Hm & ->); [lia|].
  cbn [mbind option_bind next payload]. rewrite IH by lia. cbn. by rewrite (take_S_r ms k m Hm), reverse_snoc.
Qed.

Lemma attach_built f ms m nraw :
  __ts_attach (Dev f (prev_id (length ms)) (prev_id nraw) (nodes ms ++ [Info None m])) (length ms)
  = (0, built f (ms ++ [m]) nraw).
Proof.
  unfold __ts_attach, built. cbn [fd list_ list_raw heap]. rewrite set_last, nodes_snoc, length_app, Nat.add_1_r. done.
Qed.

(** The loop of [__ts_attach_raw] walks down to the raw list, and off the end when there is none. *)
Lemma find_end_nodes ms rest nraw j fuel :
  (nraw ≤ j)%nat → (j ≤ length ms)%nat → (j ≤ fuel)%nat →
  find_end fuel (nodes ms ++ rest) (prev_id nraw) (prev_id j) (prev_id j) = Some (prev_id nraw).
Proof.
  revert fuel. induction j as [|j IH]; intros fuel Hn Hj Hf.
  { replace nraw with 0%nat by lia. by destruct fuel. }
  destruct fuel as [|fuel]; [lia|]. cbn [prev_id find_end].
  destruct (decide (nraw = S j)) as [->|Hne]; [by rewrite bool_decide_eq_true_2|].
  rewrite bool_decide_eq_false_2 by (destruct nraw; cbn; congruence). cbn [mbind option_bind].
  destruct (nodes_lookup ms j) as (m & _ & E); [lia|]. rewrite lookup_app_l by (rewrite length_nodes; lia). rewrite E.
  cbn [mbind option_bind next]. apply IH; lia.
Qed.

Lemma attach_raw_built f ms m :
  __ts_attach_raw (Dev f (prev_id (length ms)) (prev_id (length ms)) (nodes ms ++ [Info None m])) (length ms)
  = Some (0, built f (ms ++ [m]) (S (length ms))).
Proof.
  unfold __ts_attach_raw. cbn [fd list_ list_raw heap]. rewrite set_last.
  rewrite (bool_decide_eq_true_2 (prev_id _ = prev_id _)) by done. rewrite orb_true_r.
  unfold built. by rewrite nodes_snoc, length_app, Nat.add_1_r.
Qed.

(** A ring of nodes: a walk from any of them does not end. *)
Lemma walk_ring (h : list (module_info M)) (ring : nat → Prop) fuel k :
  (∀ k, ring k → ∃ i k', h !! k = Some i ∧ next i = Some k' ∧ ring k') → ring k → walk fuel h (Some k) = None.
Proof.
  intros Hring. revert k. induction fuel as [|fuel IH]; intros k Hk; [done|]. cbn [walk].
  destruct (Hring k Hk) as (i & k' & -> & Hn & Hk'). cbn [mbind option_bind]. rewrite Hn, IH by done. done.
Qed.

(** [C35] What attaching a raw module does, for every chain that was built so far: in front of raw
    modules only (or of nothing) it becomes the head of both lists; after filters without a raw
    module the loop runs off the chain and the code stores through NULL; and with filters in front
    of an older raw module the older one is linked to the new one and back, so that no walk along
    the chain ends - the comment wants the last filter linked to the new module. *)
Theorem attach_raw_order f ms m nraw :
  (nraw ≤ length ms)%nat →
  let ts := Dev f (prev_id (length ms)) (prev_id nraw) (nodes ms ++ [Info None m]) in
  (nraw = length ms → __ts_attach_raw ts (length ms) = Some (0, built f (ms ++ [m]) (S nraw)))
  ∧ ((nraw = 0)%nat → ms ≠ [] → __ts_attach_raw ts (length ms) = None)
  ∧ ((0 < nraw < length ms)%nat → ∃ ts', __ts_attach_raw ts (length ms) = Some (0, ts')
       ∧ ∀ fuel, walk fuel (heap ts') (list_ ts') = None).
Proof.
  intros Hle ts. split; [intros ->; apply attach_raw_built|].
  unfold __ts_attach_raw, ts. cbn [fd list_ list_raw heap]. rewrite !set_last. split.
  - intros -> Hne. destruct ms as [|m0 ms]; [done|].
    rewrite !bool_decide_eq_false_2 by (cbn; congruence). cbn [orb].
    rewrite (find_end_nodes (m0 :: ms) _ 0 (length (m0 :: ms))) by (rewrite ?length_app, ?length_nodes; lia). done.
  - intros Hn. rewrite !bool_decide_eq_false_2.
    2:{ destruct nraw, (length ms); cbn; try lia. intros [= ->]. lia. }
    2:{ destruct (length ms); cbn; [lia|done]. }
    cbn [orb]. rewrite find_end_nodes by (rewrite ?length_app, ?length_nodes; lia).
    destruct nraw as [|p]; [lia|]. cbn [mbind option_bind prev_id]. eexists. split; [reflexivity|].
    intros fuel. cbn [heap list_]. destruct (length ms) as [|l] eqn:E; [lia|]. cbn [prev_id].
    apply (walk_ring _ (λ k, (p ≤ k ≤ length ms)%nat)); [|lia]. intros k Hk. unfold set_next.
    destruct (decide (k = p)) as [->|Hp].
    + destruct (nodes_lookup ms p) as (m' & _ & Em); [lia|]. eexists _, (S l).
      split; [rewrite list_lookup_alter_eq, lookup_app_l by (rewrite length_nodes; lia); rewrite Em; reflexivity|].
      split; [reflexivity|lia].
    + rewrite list_lookup_alter_ne by done. destruct (decide (k = length ms)) as [->|Hl].
      * eexists _, p. split; [by rewrite lookup_app_r, length_nodes, Nat.sub_diag by (rewrite length_nodes; lia)|].
        split; [reflexivity|lia].
      * destruct (nodes_lookup ms k) as (m' & _ & Em); [lia|]. destruct k as [|k]; [lia|]. eexists _, k.
        split; [rewrite lookup_app_l by (rewrite length_nodes; lia); exact Em|]. split; [reflexivity|lia].
Qed.

End Chain.

Lemma attach_raw_order_witness :
  (∃ ts, TsCore.__ts_attach_raw (TsCore.Dev 3 None None [TsCore.Info None "input"]) 0 = Some (0, ts)
     ∧ TsCore.chain ts = Some ["input"])
  ∧ TsCore.__ts_attach_raw (TsCore.Dev 3 (Some 0%nat) None [TsCore.Info None "linear"; TsCore.Info None "input"]) 1 = None.
Proof.
  split.
  - eexists. split; [apply (attach_raw_order 3 [] "input" 0); [cbn; lia|done]|reflexivity].
  - apply (attach_raw_order 3 ["linear"] "input" 0); [cbn; lia|done|done].
Defined.

(** ** Configuration files *)

(** What a line of ts.conf says, and its text. *)
Inductive item := Load (raw : bool) (name : list Z) (params : option (list Z)) | Remark (text : list Z) | Blank.
Definition render_item (i : item) : list Z :=
  match i with
  | Load raw name params =>
      bytes (if raw then "module_raw" else "module") ++ 32 :: name
        ++ match params with Some p => 32 :: p | None => [] end
  | Remark text => 35 :: text
  | Blank => []
  end.
Definition render (items : list item) : list Z := concat (map (λ i, render_item i ++ [10]) items).
Definition item_ok (i : item) : Prop :=
  Forall (λ c, (c =? 10) = false) (render_item i) ∧ (length (render_item i) <= 510)%nat
  ∧ match i with Load _ name _ => plain name | _ => True end.

Section Config.
Import TsCore.
Context {M : Type} (dir : list Z) (plugins : list Z → option (option (option (list Z) → option (option M)))).

(** The directive loads the module [m]. *)
Definition loads (i : item) (raw : bool) (m : M) : Prop :=
  match i with
  | Load r name params =>
      r = raw ∧ (length (dir ++ bytes "/" ++ name ++ bytes ".so") < 1024)%nat
      ∧ ∃ init, plugins (dir ++ bytes "/" ++ name ++ bytes ".so") = Some (Some init) ∧ init params = Some (Some m)
  | _ => False
  end.
(** The directives of a file with the modules they load: all raw ones first. *)
Inductive file_loads : list item → list M → list M → Prop :=
| file_end : file_loads [] [] []
| file_other i items raws filters :
    match i with Load _ _ _ => False | _ => True end → file_loads items raws filters → file_loads (i :: items) raws filters
| file_raw i items m raws filters :
    loads i true m → file_loads items raws filters → file_loads (i :: items) (m :: raws) filters
| file_filter i items m filters :
    loads i false m → file_loads items [] filters → file_loads (i :: items) [] (m :: filters).

Lemma fgets_line n l s : Forall (λ c, (c =? 10) = false) l → (length l < n)%nat → fgets n (l ++ 10 :: s) = (l ++ [10], s).
Proof.
  intros Hl. revert n. induction Hl as [|c l Hc _ IH]; intros n Hn; (destruct n as [|n]; [cbn in Hn; lia|]); cbn; [done|].
  rewrite Hc, IH by (cbn in Hn; lia). done.
Qed.

Lemma load_built f ms nraw i raw m ret :
  loads i raw m → item_ok i → (raw = true → nraw = length ms) →
  config_line dir plugins (render_item i) ret (built f ms nraw)
  = Some (Continue 0 (built f (ms ++ [m]) (if raw then S nraw else nraw))).
Proof.
  intros Hl (Hn & Hlen & Hname) Hraw. destruct i as [r name params| |]; [|done..].
  destruct Hl as (-> & Hpath & init & Hplug & Hinit). unfold config_line.
  unfold BUF_SIZE. destruct (Nat.leb_spec (512 - 1) (length (render_item (Load raw name params)))); [lia|].
  cbn [render_item]. rewrite strsep_app by (by destruct raw; repeat constructor). cbv zeta.
  assert (strsep isblank (name ++ match params with Some p => 32 :: p | None => [] end) = (name, params)) as ->.
  { destruct params; [by apply strsep_app|]. rewrite app_nil_r. by apply strsep_plain. }
  assert (__ts_load_module dir plugins (built f ms nraw) name params raw
    = Some (0, built f (ms ++ [m]) (if raw then S nraw else nraw))) as HL.
  { unfold __ts_load_module. destruct (Z.leb_spec 1024 (Z.of_nat (length (dir ++ bytes "/" ++ name ++ bytes ".so")))); [lia|].
    rewrite Hplug, Hinit. cbn [mbind option_bind fd list_ list_raw heap built].
    rewrite length_app, length_nodes. cbn [length]. replace (length ms + 1 - 1)%nat with (length ms) by lia.
    destruct raw; [rewrite Hraw by done; apply attach_raw_built|]. by rewrite attach_built. }
  by destruct raw; rewrite HL.
Qed.

Lemma config_render f items raws filters ms nraw fuel ret :
  file_loads items raws filters → Forall item_ok items → (length (render items) < fuel)%nat → ret = 0 →
  (raws ≠ [] → nraw = length ms) →
  config_loop dir plugins fuel (render items) ret (built f ms nraw)
  = Some (0, built f (ms ++ raws ++ filters) (nraw + length raws)).
Proof.
  intros Hf. revert ms nraw fuel ret. induction Hf as [|i items raws filters Hi Hf IH|i items m raws filters Hi Hf IH|i items m filters Hi Hf IH];
    intros ms nraw fuel ret Hok Hfuel -> Hraw; (destruct fuel as [|fuel]; [cbn in Hfuel; lia|]).
  { cbn. by rewrite Nat.add_0_r, app_nil_r. }
  all: apply Forall_cons in Hok as [Hi' Hok]; pose proof Hi' as (Hn & Hlen & _).
  all: cbn [render map concat] in Hfuel; rewrite <- app_assoc in Hfuel; fold (render items) in Hfuel.
  all: rewrite !length_app in Hfuel; cbn [length] in Hfuel.
  all: cbn [config_loop render map concat]; rewrite <- app_assoc; cbn [app]; fold (render items).
  all: rewrite fgets_line by (done || (unfold BUF_SIZE; lia)).
  all: assert (chomp (render_item i ++ [10]) = render_item i) as Hchomp by (unfold chomp; by rewrite strsep_app).
  all: destruct (render_item i ++ [10]) as [|c line] eqn:E; [by destruct (render_item i)|]; rewrite Hchomp.
  - assert (config_line dir plugins (render_item i) 0 (built f ms nraw) = Some (Continue 0 (built f ms nraw))) as ->.
    { destruct i as [| text|]; [done| |done]. unfold config_line. unfold BUF_SIZE.
      destruct (Nat.leb_spec (512 - 1) (length (render_item (Remark text)))); [lia|]. cbn [render_item strsep].
      change (isblank 35) with false. cbn iota. destruct (strsep isblank text) as [tok [p|]]; done. }
    cbn [mbind option_bind]. apply IH; done || lia.
  - rewrite (load_built _ _ _ _ true m) by (done || (intros; by apply Hraw)). cbn [mbind option_bind].
    rewrite IH; [|done|lia|done|]. { rewrite <- app_assoc. cbn. by rewrite Nat.add_succ_r. }
    intros _. rewrite length_app, Hraw by done. cbn. lia.
  - rewrite (load_built _ _ _ _ false m) by done. cbn [mbind option_bind].
    rewrite IH; [|done|lia|done|done]. by rewrite <- app_assoc.
Qed.

(** [C33] A configuration file means what it says: for every file of directives (raw modules first,
    at least one), comments and blank lines of at most 510 characters, whose plugins load,
    [ts_config] answers 0 and the chain a read goes through is the modules in reverse order, the
    last directive first, down to the raw modules, where raw reads start. *)
Theorem ts_config_loads f items raws filters :
  file_loads items raws filters → Forall item_ok items → raws ≠ [] →
  ∃ ts, ts_config dir plugins (Some (render items)) (Dev f None None []) = Some (0, ts)
    ∧ fd ts = f ∧ chain ts = Some (reverse (raws ++ filters)) ∧ chain_raw ts = Some (reverse raws).
Proof.
  intros Hf Hok Hne. exists (built f (raws ++ filters) (length raws)).
  assert (chain (built f (raws ++ filters) (length raws)) = Some (reverse (raws ++ filters))) as Hc.
  { unfold chain, built. cbn [heap list_]. rewrite length_nodes, walk_nodes by lia. by rewrite firstn_all. }
  assert (chain_raw (built f (raws ++ filters) (length raws)) = Some (reverse raws)) as Hcr.
  { unfold chain_raw, built. cbn [heap list_raw]. rewrite length_nodes, walk_nodes by (rewrite length_app; lia). by rewrite take_app_length. }
  split_and!; [|done..]. unfold ts_config.
  change (Dev f None None []) with (built f ([] : list M) 0).
  rewrite (config_render f items raws filters [] 0) by (done || lia). cbn [mbind option_bind app Nat.add].
  rewrite bool_decide_eq_false_2; [done|]. unfold built. cbn [list_raw]. by destruct raws.
Qed.
End Config.

Lemma ts_config_loads_witness :
  let plugins (path : list Z) : option (option (option (list Z) → option (option string))) :=
    if bool_decide (path = bytes "/ts/input.so") then Some (Some (λ _, Some (Some "input")))
    else if bool_decide (path = bytes "/ts/linear.so")
    then Some (Some (λ p, Some (Some (if bool_decide (p = Some (bytes "xyswap")) then "linear swapped" else "linear"))))
    else None in
  let items := [Remark (bytes " raw"); Load true (bytes "input") None; Blank; Load false (bytes "linear") (Some (bytes "xyswap"))] in
  render items = bytes "# raw" ++ 10 :: bytes "module_raw input" ++ 10 :: 10 :: bytes "module linear xyswap" ++ [10]
  ∧ ∃ ts, TsCore.ts_config (bytes "/ts") plugins (Some (render items)) (TsCore.Dev 3 None None []) = Some (0, ts)
    ∧ TsCore.fd ts = 3 ∧ TsCore.chain ts = Some ["linear swapped"; "input"] ∧ TsCore.chain_raw ts = Some ["input"].
Proof.
  intros plugins items. split; [reflexivity|].
  apply (ts_config_loads (bytes "/ts") plugins 3 items ["input"] ["linear swapped"]).
  - apply file_other; [done|]. apply file_raw.
    { split; [done|]. split; [cbn; lia|]. eexists. split; reflexivity. }
    apply file_other; [done|]. apply file_filter; [|apply file_end].
    split; [done|]. split; [cbn; lia|]. eexists. split; reflexivity.
  - repeat constructor; cbn; lia.
  - done.
Defined.
