(* ===== verification/TsChain.v ===== *)
(** * TsChain: [ts_read] through a configured chain

    The plugins as nodes of the heap of TsConfig: a node's [read] calls the [read] of the node its
    [next] points to, and stores its private structure back.  For the modules of etc/ts.conf this is
    the composition of the plugin models of TsFilters, TsLinear and TsInput. *)

From S2P Require Import Prelude TsFilters TsText TsLinear TsInput TsConfig.

Module TsChain.
Inductive plugin :=
| PInput (i : TsInput.tslib_input)
| PPthres (p : Pthres.pthres)
| PVariance (v : Variance.variance)
| PDejitter (d : Dejitter.dejitter)
| PLinear (l : Linear.linear)
| PLinearH2200.

(** The plugins of a directory; [calfile] is the calibration file, the other arguments are what
    uninitialised memory holds. *)
Definition tslib_plugins (dir : list Z) (calfile : option (list Z)) (junk : list Z) (last noise slot : ts_sample)
    (path : list Z) : option (option (option (list Z) → option (option plugin))) :=
  let named name := bool_decide (path = dir ++ bytes "/" ++ bytes name ++ bytes ".so") in
  let wrap {A} (c : A → plugin) (r : option (option A)) := option_map (option_map c) r in
  if named "input" then Some (Some (λ _, Some (Some (PInput (TsInput.init slot)))))
  else if named "pthres" then Some (Some (λ s, wrap PPthres (PluginInit.pthres_mod_init s)))
  else if named "variance" then Some (Some (λ s, wrap PVariance (PluginInit.variance_mod_init last noise s)))
  else if named "dejitter" then Some (Some (λ s, wrap PDejitter (PluginInit.dejitter_mod_init s)))
  else if named "linear" then Some (Some (λ s, wrap PLinear (Linear.linear_mod_init calfile junk s)))
  else if named "linear_h2200" then Some (Some (λ _, Some (Some PLinearH2200)))
  else None.

Definition heap : Type := list (TsCore.module_info plugin).
Definition store (k : nat) (n : option nat) (pl : plugin) (h : heap) : heap := <[k := TsCore.Info n pl]> h.

(** [info->ops->read(info, samp, nr)] for the node [k], with [fuel] nodes of the chain below it. *)
Fixpoint read_node (fuel : nat) (k : option nat) : Source (heap * TsInput.dev) := λ nr '(h, d),
  match k, fuel with
  | Some k, S fuel =>
      i ← h !! k;
      let n := TsCore.next i in
      match TsCore.payload i with
      | PInput s =>
          '(ret, out, (s, d)) ← TsInput.ts_input_read nr (s, d); Some (ret, out, (store k n (PInput s) h, d))
      | PPthres s =>
          '(ret, out, (s, (h, d))) ← Pthres.pthres_read (H := read_node fuel n) nr (s, (h, d));
          Some (ret, out, (store k n (PPthres s) h, d))
      | PVariance s =>
          '(ret, out, (s, (h, d))) ← Variance.variance_read (H := read_node fuel n) nr (s, (h, d));
          Some (ret, out, (store k n (PVariance s) h, d))
      | PDejitter s =>
          '(ret, out, (s, (h, d))) ← Dejitter.dejitter_read (H := read_node fuel n) nr (s, (h, d));
          Some (ret, out, (store k n (PDejitter s) h, d))
      | PLinear s =>
          '(ret, out, (s, (h, d))) ← Linear.linear_read (H := read_node fuel n) nr (s, (h, d));
          Some (ret, out, (store k n (PLinear s) h, d))
      | PLinearH2200 =>
          '(ret, out, (_, (h, d))) ← LinearH2200.linear_h2200_read (H := read_node fuel n) nr (LinearH2200.St, (h, d));
          Some (ret, out, (h, d))
      end
  | _, _ => None
  end.

(** [ts_read] and [ts_read_raw]; the new state of the device is in its heap. *)
Definition ts_read (ts : TsCore.tsdev plugin) (nr : nat) (d : TsInput.dev) : option (Z * list ts_sample * (heap * TsInput.dev)) :=
  read_node (length (TsCore.heap ts)) (TsCore.list_ ts) nr (TsCore.heap ts, d).
Definition ts_read_raw (ts : TsCore.tsdev plugin) (nr : nat) (d : TsInput.dev) : option (Z * list ts_sample * (heap * TsInput.dev)) :=
  read_node (length (TsCore.heap ts)) (TsCore.list_raw ts) nr (TsCore.heap ts, d).
End TsChain.

(** ** Plugins over related upstreams

    [A] answers on [f u] what [B] answers on [u]: then so does any plugin over them. *)

Definition lift {U V} (f : U → V) (r : option (Z * list ts_sample * U)) : option (Z * list ts_sample * V) :=
  '(ret, l, u) ← r; Some (ret, l, f u).
Definition simulates {U V} (SU : Source U) (SV : Source V) (f : U → V) : Prop := ∀ n u, SV n (f u) = lift f (SU n u).
Definition under {S U V} (f : U → V) (st : S * U) : S * V := (st.1, f st.2).

Section Simulations.
Context {U V} (SU : Source U) (SV : Source V) (f : U → V) (Hsim : simulates SU SV f).

Lemma sim_pthres : simulates (Pthres.pthres_read (H := SU)) (Pthres.pthres_read (H := SV)) (under f).
Proof.
  intros n [p u]. unfold Pthres.pthres_read, under, read_from. cbn [fst snd]. rewrite Hsim.
  destruct (SU n u) as [[[ret l] u']|]; [|done]. cbn. destruct (0 <=? ret); [|done].
  by destruct (Pthres.pthres_loop _ _ _ _ _ _) as [[[arr m] p']|].
Qed.
Lemma sim_dejitter : simulates (Dejitter.dejitter_read (H := SU)) (Dejitter.dejitter_read (H := SV)) (under f).
Proof.
  intros n [p u]. unfold Dejitter.dejitter_read, under, read_from. cbn [fst snd]. rewrite Hsim.
  destruct (SU n u) as [[[ret l] u']|]; [|done]. cbn. by destruct (Dejitter.dejitter_all _ _) as [d out].
Qed.
Lemma sim_linear : simulates (Linear.linear_read (H := SU)) (Linear.linear_read (H := SV)) (under f).
Proof.
  intros n [p u]. unfold Linear.linear_read, under, read_from. cbn [fst snd]. rewrite Hsim.
  destruct (SU n u) as [[[ret l] u']|]; [|done]. cbn. destruct (0 <=? ret); [|done].
  by destruct (Linear.linear_all _ _) as [out|].
Qed.

Lemma sim_variance_loop fuel n v u samp :
  Variance.variance_loop (H := SV) fuel n v (f u) samp
  = '(l, v, u) ← Variance.variance_loop (H := SU) fuel n v u samp; Some (l, v, f u).
Proof.
  revert v u samp. induction fuel as [|fuel IH]; intros v u samp; cbn [Variance.variance_loop];
    (destruct (length samp <? n)%nat; [|done]); [done|].
  unfold Variance.variance_turn, read_from. destruct (Variance.submitnoise v).
  { destruct (Variance.classify _ _) as [v1 out]. apply IH. }
  rewrite Hsim. destruct (SU 1%nat u) as [[[ret l] u']|]; [|done]. cbn. destruct (ret <? 1); [done|].
  destruct (head l) as [cur|]; [|done]. cbn. destruct (Variance.classify v cur) as [v1 out]. apply IH.
Qed.
Lemma sim_variance : simulates (Variance.variance_read (H := SU)) (Variance.variance_read (H := SV)) (under f).
Proof.
  intros n [v u]. unfold Variance.variance_read, under. cbn [fst snd]. rewrite sim_variance_loop.
  by destruct (Variance.variance_loop (H := SU) _ _ _ _ _) as [[[l v'] u']|].
Qed.
End Simulations.

(** ** The chain of etc/ts.conf *)

Section Conf.
Import TsChain.

(** The directives of etc/ts.conf with the line of the input module uncommented. *)
Definition ts_conf : list item :=
  [Remark (bytes " Uncomment if you wish to use the linux input layer event interface");
   Load true (bytes "input") None; Blank;
   Remark (bytes " Uncomment if you're using a Sharp Zaurus SL-5500/SL-5000d");
   Remark (bytes " module_raw collie"); Blank;
   Remark (bytes " Uncomment if you're using a Sharp Zaurus SL-C700/C750/C760/C860");
   Remark (bytes " module_raw corgi"); Blank;
   Remark (bytes " Uncomment if you're using a device with a UCB1200/1300/1400 TS interface");
   Remark (bytes " module_raw ucb1x00"); Blank;
   Remark (bytes " Uncomment if you're using an HP iPaq h3600 or similar");
   Remark (bytes " module_raw h3600"); Blank;
   Remark (bytes " Uncomment if you're using a Hitachi Webpad");
   Remark (bytes " module_raw mk712"); Blank;
   Remark (bytes " Uncomment if you're using an IBM Arctic II");
   Remark (bytes " module_raw arctic2"); Blank;
   Load false (bytes "pthres") (Some (bytes "pmin=1"));
   Load false (bytes "variance") (Some (bytes "delta=30"));
   Load false (bytes "dejitter") (Some (bytes "delta=100"));
   Load false (bytes "linear") None].

(** The heap of the five modules, and the same states as nested upstreams. *)
Definition stack : Type :=
  Linear.linear * (Dejitter.dejitter * (Variance.variance * (Pthres.pthres * (TsInput.tslib_input * TsInput.dev)))).
Definition conf_heap (i : TsInput.tslib_input) p v dj l : heap :=
  nodes [PInput i; PPthres p; PVariance v; PDejitter dj; PLinear l].
Definition conf_state (st : stack) : heap * TsInput.dev :=
  let '(l, (dj, (v, (p, (i, d))))) := st in (conf_heap i p v dj l, d).

(** A read of a node, by its plugin. *)
Lemma read_input fuel k h d nr n s : h !! k = Some (TsCore.Info n (PInput s)) →
  read_node (S fuel) (Some k) nr (h, d)
  = '(ret, out, (s, d)) ← TsInput.ts_input_read nr (s, d); Some (ret, out, (store k n (PInput s) h, d)).
Proof. intros E. cbn -[TsInput.ts_input_read]. by rewrite E. Qed.
Lemma read_pthres fuel k h d nr n s : h !! k = Some (TsCore.Info n (PPthres s)) →
  read_node (S fuel) (Some k) nr (h, d)
  = '(ret, out, (s, (h, d))) ← Pthres.pthres_read (H := read_node fuel n) nr (s, (h, d)); Some (ret, out, (store k n (PPthres s) h, d)).
Proof. intros E. cbn. by rewrite E. Qed.
Lemma read_variance fuel k h d nr n s : h !! k = Some (TsCore.Info n (PVariance s)) →
  read_node (S fuel) (Some k) nr (h, d)
  = '(ret, out, (s, (h, d))) ← Variance.variance_read (H := read_node fuel n) nr (s, (h, d)); Some (ret, out, (store k n (PVariance s) h, d)).
Proof. intros E. cbn. by rewrite E. Qed.
Lemma read_dejitter fuel k h d nr n s : h !! k = Some (TsCore.Info n (PDejitter s)) →
  read_node (S fuel) (Some k) nr (h, d)
  = '(ret, out, (s, (h, d))) ← Dejitter.dejitter_read (H := read_node fuel n) nr (s, (h, d)); Some (ret, out, (store k n (PDejitter s) h, d)).
Proof. intros E. cbn. by rewrite E. Qed.
Lemma read_linear fuel k h d nr n s : h !! k = Some (TsCore.Info n (PLinear s)) →
  read_node (S fuel) (Some k) nr (h, d)
  = '(ret, out, (s, (h, d))) ← Linear.linear_read (H := read_node fuel n) nr (s, (h, d)); Some (ret, out, (store k n (PLinear s) h, d)).
Proof. intros E. cbn. by rewrite E. Qed.

Abbreviation s0 := TsInput.ts_input_read.
Abbreviation s1 := (Pthres.pthres_read (H := s0)).
Abbreviation s2 := (Variance.variance_read (H := s1)).
Abbreviation s3 := (Dejitter.dejitter_read (H := s2)).
Abbreviation s4 := (Linear.linear_read (H := s3)).

Lemma conf_read : simulates s4 (read_node 5 (Some 4%nat)) conf_state.
Proof.
  assert (∀ p v dj l, simulates s0 (read_node 1 (Some 0%nat)) (λ '(i, d), (conf_heap i p v dj l, d))) as H0.
  { intros p v dj l n [i d]. rewrite (read_input _ _ _ _ _ None i) by done.
    by destruct (TsInput.ts_input_read n (i, d)) as [[[ret out] [i' d']]|]. }
  assert (∀ v dj l, simulates s1 (read_node 2 (Some 1%nat)) (λ '(p, (i, d)), (conf_heap i p v dj l, d))) as H1.
  { intros v dj l n [p [i d]]. pose proof (sim_pthres _ _ _ (H0 p v dj l) n (p, (i, d))) as HS.
    rewrite (read_pthres _ _ _ _ _ (Some 0%nat) p) by done. unfold under in HS. cbn [fst snd] in HS. rewrite HS.
    match goal with |- context [lift _ ?r] => destruct r as [[[ret out] [p' [i' d']]]|] end; [done|done]. }
  assert (∀ dj l, simulates s2 (read_node 3 (Some 2%nat)) (λ '(v, (p, (i, d))), (conf_heap i p v dj l, d))) as H2.
  { intros dj l n [v [p [i d]]]. pose proof (sim_variance _ _ _ (H1 v dj l) n (v, (p, (i, d)))) as HS.
    rewrite (read_variance _ _ _ _ _ (Some 1%nat) v) by done. unfold under in HS. cbn [fst snd] in HS. rewrite HS.
    by match goal with |- context [lift _ ?r] => destruct r as [[[ret out] [v' [p' [i' d']]]]|] end. }
  assert (∀ l, simulates s3 (read_node 4 (Some 3%nat)) (λ '(dj, (v, (p, (i, d)))), (conf_heap i p v dj l, d))) as H3.
  { intros l n [dj [v [p [i d]]]]. pose proof (sim_dejitter _ _ _ (H2 dj l) n (dj, (v, (p, (i, d))))) as HS.
    rewrite (read_dejitter _ _ _ _ _ (Some 2%nat) dj) by done. unfold under in HS. cbn [fst snd] in HS. rewrite HS.
    by match goal with |- context [lift _ ?r] => destruct r as [[[ret out] [dj' [v' [p' [i' d']]]]]|] end. }
  intros n [l [dj [v [p [i d]]]]]. pose proof (sim_linear _ _ _ (H3 l) n (l, (dj, (v, (p, (i, d)))))) as HS.
  cbn [conf_state]. rewrite (read_linear _ _ _ _ _ (Some 3%nat) l) by done. unfold under in HS. cbn [fst snd] in HS. rewrite HS.
  by match goal with |- context [lift _ ?r] => destruct r as [[[ret out] [l' [dj' [v' [p' [i' d']]]]]]|] end.
Qed.

Lemma same_dir (dir a b : list Z) : bool_decide (dir ++ a = dir ++ b) = bool_decide (a = b).
Proof. apply bool_decide_ext. split; [apply app_inv_head|by intros ->]. Qed.

Context (dir : list Z) (calfile : option (list Z)) (junk : list Z) (last noise slot : ts_sample).
Abbreviation plugins := (tslib_plugins dir calfile junk last noise slot).

(** The states after [mod_init], for a calibration [l]. *)
Definition conf_init (l : Linear.linear) (d : TsInput.dev) : stack :=
  (l, (Dejitter.init 100, (Variance.init 30 last noise, (Pthres.init, (TsInput.init slot, d))))).
Definition conf_modules (l : Linear.linear) : list plugin :=
  [PInput (TsInput.init slot); PPthres Pthres.init; PVariance (Variance.init 30 last noise); PDejitter (Dejitter.init 100); PLinear l].

Lemma conf_file_loads l : (length dir < 1000)%nat → Linear.linear_mod_init calfile junk None = Some (Some l) →
  file_loads dir plugins ts_conf (take 1 (conf_modules l)) (drop 1 (conf_modules l)).
Proof.
  intros Hdir Hl. unfold ts_conf, conf_modules. cbn [take drop].
  assert (∀ name raw params init m, (length name ≤ 10)%nat → plugins (dir ++ bytes "/" ++ name ++ bytes ".so") = Some (Some init) →
    init params = Some (Some m) → loads dir plugins (Load raw name params) raw m) as HL.
  { intros name raw params init m Hn Hp Hi. split; [done|]. split; [|by exists init].
    rewrite !length_app. change (length (bytes "/")) with 1%nat. change (length (bytes ".so")) with 3%nat. lia. }
  apply file_other; [done|]. apply file_raw.
  { eapply HL; [cbn; lia|unfold tslib_plugins; rewrite !same_dir; reflexivity|reflexivity]. }
  do 19 (apply file_other; [done|]). repeat apply file_filter; [..|apply file_end];
    (eapply HL; [cbn; lia|unfold tslib_plugins; rewrite !same_dir; reflexivity|]); try reflexivity.
  cbn beta. by rewrite Hl.
Qed.

(** Every state the chain can be in as long as the calibration can be divided by. *)
Definition divisible (st : stack) : Prop := Linear.coef st.1 6 ≠ 0 ∧ u32 (Linear.p_div st.1) ≠ 0.

Lemma conf_total n st : divisible st →
  ∃ ret out st', s4 n st = Some (ret, out, st') ∧ st'.1 = st.1 ∧ (ret < 0 ∨ (ret = Z.of_nat (length out) ∧ (length out ≤ n)%nat)).
Proof.
  destruct st as [l u]. intros [H6 Hd]. cbn [fst] in *.
  edestruct (source_ok n u) as (ret & samp & u' & Hu & _ & Hret); [done|].
  change (read_from n u) with (s3 n u) in Hu. unfold s4, read_from. cbn [fst snd]. rewrite Hu. cbn [mbind option_bind].
  destruct (Z.leb_spec 0 ret) as [Hr|Hr]; [|by do 3 eexists; split; [done|]; split; [done|left]].
  assert (∀ samp, ∃ out, Linear.linear_all l samp = Some out ∧ length out = length samp) as HA.
  { clear - H6 Hd. induction samp as [|s samp (out & IH & Hlen)]; [by exists []|].
    cbn [Linear.linear_all]. unfold Linear.linear_one, Linear.sdiv, Linear.udiv.
    rewrite (proj2 (Z.eqb_neq (Linear.coef l 6) 0)), (proj2 (Z.eqb_neq (u32 (Linear.p_div l)) 0)) by done.
    rewrite IH. eexists. split; [reflexivity|]. cbn. by rewrite Hlen. }
  destruct (HA (take (Z.to_nat ret) samp)) as (out & -> & Hlen). do 3 eexists. split; [reflexivity|]. split; [done|].
  right. destruct Hret as [?|[-> ?]]; [lia|]. rewrite Nat2Z.id, firstn_all in Hlen. lia.
Qed.

(** [C1] The configured library: reading etc/ts.conf with the input module enabled builds the chain
    linear - dejitter - variance - pthres - input with the parameters of the file, and from then on
    every [ts_read] through the heap of linked modules is the composition of the five plugin models,
    whatever the device holds: it does not fault as long as the calibration's scale is not zero, it
    keeps the chain, and it answers a negative number or as many samples as it stored, at most [nr]. *)
Theorem ts_read_pipeline f l :
  (length dir < 1000)%nat → Linear.linear_mod_init calfile junk None = Some (Some l) →
  (∃ ts, TsCore.ts_config dir plugins (Some (render ts_conf)) (TsCore.Dev f None None []) = Some (0, ts)
     ∧ ∀ n d, ts_read ts n d = read_node 5 (Some 4%nat) n (conf_state (conf_init l d)))
  ∧ ∀ n st, divisible st →
      ∃ ret out st', read_node 5 (Some 4%nat) n (conf_state st) = Some (ret, out, conf_state st')
        ∧ read_from n st = Some (ret, out, st') ∧ divisible st'
        ∧ (ret < 0 ∨ (ret = Z.of_nat (length out) ∧ (length out ≤ n)%nat)).
Proof.
  intros Hdir Hl. split.
  - exists (built f (conf_modules l) 1). split; [|done]. unfold TsCore.ts_config.
    change (TsCore.Dev f None None []) with (built f ([] : list plugin) 0).
    rewrite (config_render dir plugins f ts_conf (take 1 (conf_modules l)) (drop 1 (conf_modules l)) [] 0);
      [done|by apply conf_file_loads| |lia|done|done].
    assert (forallb (λ i, forallb (λ c, negb (c =? 10)) (render_item i) && (length (render_item i) <=? 510)%nat
      && match i with Load _ name _ => forallb (λ c, negb (isblank c)) name | _ => true end) ts_conf = true) as HB by reflexivity.
    pose proof (proj1 (forallb_forall _ _) HB) as HF. apply Forall_forall. intros i Hi. apply list_elem_of_In in Hi.
    specialize (HF i Hi). apply andb_true_iff in HF as [[Hn Hlen]%andb_true_iff Hname].
    assert (∀ (b : Z → bool) s, forallb (λ c, negb (b c)) s = true → Forall (λ c, b c = false) s) as HFb.
    { intros b s Hb. apply Forall_forall. intros c Hc. apply list_elem_of_In in Hc.
      pose proof (proj1 (forallb_forall _ _) Hb c Hc) as Hn'. by apply negb_true_iff in Hn'. }
    split; [by apply HFb|]. split; [by apply Nat.leb_le|]. destruct i; [by apply HFb|done|done].
  - intros n st Hst. destruct (conf_total n st Hst) as (ret & out & st' & Hr & E & Hret).
    exists ret, out, st'. split; [by rewrite conf_read, Hr|]. split; [exact Hr|]. split; [|done].
    unfold divisible in *. by rewrite E.
Qed.
End Conf.

Lemma ts_read_pipeline_witness :
  let dir := bytes "/usr/lib/ts" in
  let s0 := Sample 0 0 0 0 in
  ∃ ts, TsCore.ts_config dir (TsChain.tslib_plugins dir None [] s0 s0 s0) (Some (render ts_conf)) (TsCore.Dev 3 None None []) = Some (0, ts)
    ∧ (option_map fst (TsChain.ts_read ts 1 (TsInput.Dev touch_caps
         [TsInput.Ev 3 0 500 1; TsInput.Ev 3 1 300 2; TsInput.Ev 3 24 1 3; TsInput.Ev 1 330 1 4; TsInput.Ev 0 0 0 5;
          TsInput.Ev 3 0 502 6; TsInput.Ev 0 0 0 7; TsInput.Ev 3 0 504 8; TsInput.Ev 0 0 0 9]))
       = Some (1, [Sample 500 300 1 5])).
Proof.
  intros dir s0.
  destruct (ts_read_pipeline dir None [] s0 s0 s0 3 Linear.init) as [(ts & Hc & Hr) _]; [cbn; lia|reflexivity|].
  exists ts. split; [exact Hc|]. rewrite Hr. vm_compute. reflexivity.
Defined.
