(* ===== verification/TsRaw.v ===== *)
(** * TsRaw: the raw plugins of the other panels (11th_ts/tslib/plugins/[panel]-raw.c)

    Six plugins have one text over the event structure of their device: read an array of events,
    copy each into a sample.  [raw_plugin] is what differs.  The device is a queue of what [read]
    answers: the number of bytes, the events in them, and the time of the call. *)

From stdpp Require Import sorting.
From S2P Require Import Prelude TsFilters.

(** The answer of one [read]: -1, 0 or a number of bytes, with the array it filled; [now] is what
    [gettimeofday] answers. *)
Record answer (E : Type) := Answer { bytes_read : Z; events : list E; now : Z }.
Arguments Answer {E} _ _ _.
Arguments bytes_read {E} _.
Arguments events {E} _.
Arguments now {E} _.

(** An event structure with its size, and the copy into a sample. *)
Record raw_plugin := RawPlugin { event : Type; size : Z; sample : Z → event → ts_sample }.

Section Raw.
Context (p : raw_plugin).

(** The loop while a whole event is left of [ret] bytes: [None] where the events read do not fill the bytes. *)
Fixpoint copy_events (fuel : nat) (ret t : Z) (evs : list (event p)) : option (list ts_sample) :=
  if size p <=? ret
  then
    match fuel, evs with
    | S fuel, e :: evs => l ← copy_events fuel (ret - size p) t evs; Some (sample p t e :: l)
    | _, _ => None
    end
  else Some [].

(** The declaration of [nr] inside the branch hides the argument only there: the last assignment,
    [ret = nr], answers the number asked for. *)
Definition raw_read (nr : nat) (q : list (answer (event p))) : option (Z * list ts_sample * list (answer (event p))) :=
  match q with
  | [] => Some (-1, [], [])
  | a :: q =>
      if 0 <? bytes_read a
      then l ← copy_events (length (events a)) (bytes_read a) (now a) (events a); Some (Z.of_nat nr, l, q)
      else Some (-1, [], q)
  end.
End Raw.
#[export] Instance raw_source p : Source (list (answer (event p))) := raw_read p.

Module RawPlugins.
Record arctic2_ts_event := Arctic2 { a_pressure : Z; a_x : Z; a_y : Z; a_millisecs : Z; a_flags : Z }.
Definition arctic2 : raw_plugin := RawPlugin arctic2_ts_event 20
  (λ t e, Sample (s16 (a_x e)) (s16 (a_y e)) (u32 (a_pressure e)) t).

Record collie_ts_event := Collie { c_y : Z; c_x : Z; c_pressure : Z; c_millisecs : Z }.
(** The time stamp [tv_sec], [tv_usec] as one number of microseconds: the code stores the
    milliseconds left over as microseconds. *)
Definition collie : raw_plugin := RawPlugin collie_ts_event 24
  (λ _ e, Sample (c_x e) (c_y e) (u32 (c_pressure e)) (Z.quot (c_millisecs e) 1000 * 1000000 + Z.rem (c_millisecs e) 1000)).

Record corgi_ts_event := Corgi { g_pressure : Z; g_x : Z; g_y : Z; g_millisecs : Z }.
Definition corgi : raw_plugin := RawPlugin corgi_ts_event 8
  (λ _ e, Sample (g_x e) (g_y e) (u32 (g_pressure e)) (Z.quot (g_millisecs e) 1000 * 1000000 + Z.rem (g_millisecs e) 1000)).

Record h3600_ts_event := H3600 { h_pressure : Z; h_x : Z; h_y : Z; h_pad : Z }.
Definition h3600 : raw_plugin := RawPlugin h3600_ts_event 8 (λ t e, Sample (h_x e) (h_y e) (h_pressure e) t).

Record mk712_ts_event := Mk712 { m_header : Z; m_x : Z; m_y : Z; m_reserved : Z }.
Definition mk712 : raw_plugin := RawPlugin mk712_ts_event 16
  (λ t e, Sample (s16 (m_x e)) (s16 (m_y e)) (if m_header e =? 0 then 1 else 0) t).

Record ucb1x00_ts_event := Ucb1x00 { u_pressure : Z; u_x : Z; u_y : Z; u_pad : Z; u_sec : Z; u_usec : Z }.
Definition ucb1x00 : raw_plugin := RawPlugin ucb1x00_ts_event 16
  (λ _ e, Sample (u_x e) (u_y e) (u_pressure e) (u_sec e * 1000000 + u_usec e)).

Definition all : list raw_plugin := [arctic2; collie; corgi; h3600; mk712; ucb1x00].
End RawPlugins.

(** What a [read] of at most [nr] events can answer. *)
Definition answers (p : raw_plugin) (nr : nat) (a : answer (event p)) : Prop :=
  (bytes_read a <= 0 ∧ events a = [])
  ∨ (length (events a) ≤ nr)%nat ∧ ∃ part, 0 <= part < size p ∧ bytes_read a = size p * Z.of_nat (length (events a)) + part.

Lemma copy_events_spec p t evs part : 0 < size p → 0 <= part < size p →
  copy_events p (length evs) (size p * Z.of_nat (length evs) + part) t evs = Some (sample p t <$> evs).
Proof.
  intros Hs Hp. induction evs as [|e evs IH]; cbn [copy_events length].
  - destruct (Z.leb_spec (size p) (size p * Z.of_nat 0 + part)); [lia|done].
  - destruct (Z.leb_spec (size p) (size p * Z.of_nat (S (length evs)) + part)); [|nia].
    replace (size p * Z.of_nat (S (length evs)) + part - size p) with (size p * Z.of_nat (length evs) + part) by lia.
    by rewrite IH.
Qed.

(** The six raw plugins, for every answer of the device: nothing read, or an error, answers -1;
    whatever was read is copied event by event, in order; but the answer is the number of samples
    asked for, so that the contract of a source - as many samples stored as answered - holds exactly
    when the device filled the array.  For one sample at a time it always does. *)
Theorem raw_read_counts p nr a q :
  p ∈ RawPlugins.all → answers p nr a →
  (bytes_read a <= 0 → read_from nr (a :: q) = Some (-1, [], q))
  ∧ (0 < bytes_read a → read_from nr (a :: q) = Some (Z.of_nat nr, sample p (now a) <$> events a, q))
  ∧ (0 < bytes_read a →
      (∃ ret l, read_from nr (a :: q) = Some (ret, l, q) ∧ ret = Z.of_nat (length l)) ↔ length (events a) = nr)
  ∧ (nr = 1%nat → size p <= bytes_read a → length (events a) = nr).
Proof.
  intros Hin Ha. assert (0 < size p) as Hs by (clear - Hin; apply list_elem_of_In in Hin;
    destruct Hin as [<-|[<-|[<-|[<-|[<-|[<-|[]]]]]]]; reflexivity).
  change (read_from nr (a :: q)) with (raw_read p nr (a :: q)). unfold raw_read.
  destruct (Z.ltb_spec 0 (bytes_read a)) as [Hpos|Hneg].
  - destruct Ha as [[? _]|(Hlen & part & Hpart & E)]; [lia|].
    assert (copy_events p (length (events a)) (bytes_read a) (now a) (events a) = Some (sample p (now a) <$> events a)) as ->
      by (rewrite E; by apply copy_events_spec).
    cbn [mbind option_bind]. split; [lia|]. split; [done|]. split.
    + intros _. split; [|intros <-; do 2 eexists; split; [reflexivity|by rewrite length_fmap]].
      intros (ret & l & [= <- <-] & Hr). rewrite length_fmap in Hr. lia.
    + intros -> Hsz. destruct (events a) as [|e evs]; cbn in *; [lia|]. destruct evs; cbn in *; [done|lia].
  - split; [done|]. split; [lia|]. split; [lia|]. lia.
Qed.

Lemma raw_read_counts_witness :
  let e x y := RawPlugins.H3600 900 x y 0 in
  @read_from _ (raw_source RawPlugins.h3600) 4 [@Answer (event RawPlugins.h3600) 16 [e 5 6; e 7 8] 3]
  = Some (4, [Sample 5 6 900 3; Sample 7 8 900 3], []).
Proof.
  intros e. refine (proj1 (proj2 (raw_read_counts RawPlugins.h3600 4 (Answer 16 [e 5 6; e 7 8] 3) [] _ _)) _).
  - unfold RawPlugins.all. do 3 constructor. constructor.
  - right. split; [cbn; lia|]. exists 0. cbn. lia.
  - reflexivity.
Defined.

(** ** tests/testutils.c: the point a stroke means *)

Module TestUtils.
Definition MAX_SAMPLES := 128.
Definition sort_by_x (a b : ts_sample) : Z := s32 (x a - x b).
Definition sort_by_y (a b : ts_sample) : Z := s32 (y a - y b).

(** [qsort] of the C library: any order of the elements the comparison allows; here by insertion. *)
Fixpoint insert_by (cmp : ts_sample → ts_sample → Z) (a : ts_sample) (l : list ts_sample) : list ts_sample :=
  match l with
  | [] => [a]
  | b :: l => if cmp a b <=? 0 then a :: b :: l else b :: insert_by cmp a l
  end.
Definition qsort (cmp : ts_sample → ts_sample → Z) (l : list ts_sample) : list ts_sample := foldr (insert_by cmp) [] l.

(** A read that fails ends the program. *)
Inductive got {A : Type} := Exit | Got (a : A).
Arguments got A : clear implicits.

(** The first loop: until a sample with pressure; a read of no sample leaves [samp[0]] as it is. *)
Fixpoint first_touch {U} `{Source U} (fuel : nat) (s0 : ts_sample) (u : U) : option (got (ts_sample * U)) :=
  match fuel with
  | O => None
  | S fuel =>
      '(ret, l, u) ← read_from 1 u;
      if ret <? 0 then Some Exit
      else
        let s0 := default s0 (head l) in
        if pressure s0 =? 0 then first_touch fuel s0 u else Some (Got (s0, u))
  end.
(** The second loop: until the pen is up, at most [MAX_SAMPLES] entries of the array. *)
Fixpoint collect {U} `{Source U} (fuel : nat) (index : Z) (samp : list ts_sample) (u : U) :
    option (got (Z * list ts_sample * U)) :=
  match fuel with
  | O => None
  | S fuel =>
      let index := if index <? MAX_SAMPLES - 1 then index + 1 else index in
      '(ret, l, u) ← read_from 1 u;
      if ret <? 0 then Some Exit
      else
        let samp := match head l with Some s => <[Z.to_nat index := s]> samp | None => samp end in
        s ← samp !! Z.to_nat index;
        if 0 <? pressure s then collect fuel index samp u else Some (Got (index, samp, u))
  end.

Definition middle_value (f : ts_sample → Z) (index : Z) (samp : list ts_sample) : option Z :=
  let middle := index / 2 in
  if Z.odd index
  then s ← samp !! Z.to_nat middle; Some (f s)
  else
    a ← samp !! Z.to_nat (middle - 1); b ← samp !! Z.to_nat middle;
    Some (Z.quot (s32 (f a + f b)) 2).
Definition sort_first (cmp : ts_sample → ts_sample → Z) (index : Z) (samp : list ts_sample) : list ts_sample :=
  qsort cmp (take (Z.to_nat index) samp) ++ drop (Z.to_nat index) samp.

(** [getxy] with both pointers; the array holds [junk] at first. *)
Definition getxy {U} `{Source U} (fuel : nat) (junk : list ts_sample) (u : U) : option (got (Z * Z * U)) :=
  r ← first_touch fuel (nth 0 junk (Sample 0 0 0 0)) u;
  match r with
  | Exit => Some Exit
  | Got (s0, u) =>
      r ← collect fuel 0 (<[0%nat := s0]> junk) u;
      match r with
      | Exit => Some Exit
      | Got (index, samp, u) =>
          let samp := sort_first sort_by_x index samp in
          vx ← middle_value x index samp;
          let samp := sort_first sort_by_y index samp in
          vy ← middle_value y index samp;
          Some (Got (vx, vy, u))
      end
  end.
End TestUtils.

(** *** The middle of a sorted array *)

Section Median.
Import TestUtils.
Context (f : ts_sample → Z).

(** Values whose differences and sums an [int] holds. *)
Definition modest (s : ts_sample) : Prop := - 2 ^ 30 <= f s < 2 ^ 30.
Definition compares (cmp : ts_sample → ts_sample → Z) : Prop := ∀ a b, cmp a b = s32 (f a - f b).
Abbreviation le_f := (λ a b, f a <= f b).
(** How many samples lie in an interval. *)
Definition in_range (lo hi : Z) (l : list ts_sample) : nat := length (filter (λ s, lo <= f s <= hi) l).

Lemma cmp_le cmp a b : compares cmp → modest a → modest b → (cmp a b <=? 0) = (f a <=? f b).
Proof.
  intros Hc Ha Hb. unfold modest in *. rewrite Hc, s32_small by lia.
  destruct (Z.leb_spec (f a - f b) 0), (Z.leb_spec (f a) (f b)); lia || done.
Qed.

Lemma insert_by_perm cmp a l : insert_by cmp a l ≡ₚ a :: l.
Proof.
  induction l as [|b l IH]; cbn; [done|]. destruct (cmp a b <=? 0); [done|]. rewrite IH. constructor.
Qed.
Lemma qsort_perm cmp l : qsort cmp l ≡ₚ l.
Proof. induction l as [|a l IH]; cbn; [done|]. by rewrite insert_by_perm, IH. Qed.

Lemma insert_by_sorted cmp a l : compares cmp → modest a → Forall modest l →
  StronglySorted le_f l → StronglySorted le_f (insert_by cmp a l).
Proof.
  intros Hc Ha Hl Hs. induction Hs as [|b l Hs IH Hb]; cbn; [by repeat constructor|].
  apply Forall_cons in Hl as [Hmb Hl]. rewrite cmp_le by done. destruct (Z.leb_spec (f a) (f b)).
  - constructor; [by constructor|]. constructor; [done|]. eapply Forall_impl; [exact Hb|]. cbn. intros. lia.
  - constructor; [by apply IH|]. rewrite insert_by_perm. constructor; [lia|done].
Qed.
Lemma qsort_sorted cmp l : compares cmp → Forall modest l → StronglySorted le_f (qsort cmp l).
Proof.
  intros Hc Hl. induction Hl as [|a l Ha Hl IH]; [constructor|].
  change (qsort cmp (a :: l)) with (insert_by cmp a (qsort cmp l)). apply insert_by_sorted; try done. by rewrite qsort_perm.
Qed.

Lemma in_range_perm lo hi l l' : l ≡ₚ l' → in_range lo hi l = in_range lo hi l'.
Proof. intros Hp. unfold in_range. by rewrite Hp. Qed.
Lemma in_range_app lo hi l l' : in_range lo hi (l ++ l') = (in_range lo hi l + in_range lo hi l')%nat.
Proof. unfold in_range. by rewrite filter_app, length_app. Qed.
Lemma in_range_le lo hi l : (in_range lo hi l ≤ length l)%nat.
Proof. apply length_filter. Qed.
Lemma in_range_none lo hi l : Forall (λ s, f s < lo ∨ hi < f s) l → in_range lo hi l = 0%nat.
Proof.
  unfold in_range. induction 1 as [|s l Hs _ IH]; [done|]. rewrite filter_cons_False by lia. done.
Qed.

Lemma sorted_above lo hi l k a : StronglySorted le_f l → l !! k = Some a → hi < f a → (in_range lo hi l ≤ k)%nat.
Proof.
  intros Hs Ha Hhi. rewrite <- (take_drop_middle l k a Ha) in Hs |- *.
  apply StronglySorted_app in Hs as (_ & _ & Hs). apply StronglySorted_inv in Hs as [_ Hall].
  rewrite in_range_app, (in_range_none _ _ (a :: drop (S k) l)), Nat.add_0_r.
  - etransitivity; [apply in_range_le|]. rewrite length_take. lia.
  - constructor; [by right|]. eapply Forall_impl; [exact Hall|]. cbn. intros. lia.
Qed.
Lemma sorted_below lo hi l k a : StronglySorted le_f l → l !! k = Some a → f a < lo → (in_range lo hi l + S k ≤ length l)%nat.
Proof.
  intros Hs Ha Hlo. pose proof (lookup_lt_Some _ _ _ Ha) as Hk. rewrite <- (take_drop_middle l k a Ha) in Hs |- *.
  apply StronglySorted_app in Hs as (Hle & _ & _).
  rewrite cons_middle, app_assoc, in_range_app, (in_range_none _ _ (take k l ++ [a])).
  - rewrite (length_app (take k l ++ [a])), (length_app (take k l)), length_take. cbn [length].
    pose proof (in_range_le lo hi (drop (S k) l)). lia.
  - apply Forall_app_2; [|by constructor; [left|constructor]]. apply Forall_forall. intros s Hsin. left.
    assert (f s <= f a); [|lia]. apply Hle; [done|constructor].
Qed.

(** The element at [k] lies in an interval that holds enough of a sorted list. *)
Lemma sorted_inside lo hi l k a : StronglySorted le_f l → l !! k = Some a →
  (k < in_range lo hi l)%nat → (length l <= in_range lo hi l + k)%nat → lo <= f a <= hi.
Proof.
  intros Hs Ha Hk Hl.
  assert (¬ hi < f a) by (intros Hhi; pose proof (sorted_above lo hi l k a Hs Ha Hhi); lia).
  assert (¬ f a < lo) by (intros Hlo; pose proof (sorted_below lo hi l k a Hs Ha Hlo); lia). lia.
Qed.
Lemma middle_inside lo hi l n post :
  StronglySorted le_f l → Forall modest l → length l = n → (0 < n)%nat → (n < 2 * in_range lo hi l)%nat →
  ∃ v, middle_value f (Z.of_nat n) (l ++ post) = Some v ∧ lo <= v <= hi.
Proof.
  intros Hs Hm Hn Hpos Hmaj. unfold middle_value.
  assert (∀ k, (k < n)%nat → (k < in_range lo hi l)%nat → (n <= in_range lo hi l + k)%nat →
    ∃ a, (l ++ post) !! k = Some a ∧ modest a ∧ lo <= f a <= hi) as Hat.
  { intros k Hk H1 H2. destruct (lookup_lt_is_Some_2 l k) as [a Ha]; [lia|].
    exists a. rewrite lookup_app_l by lia. split; [done|]. split; [by eapply Forall_lookup_1|].
    eapply sorted_inside; [done|exact Ha|done|lia]. }
  destruct (Z.odd (Z.of_nat n)) eqn:Hodd.
  - apply Z.odd_spec in Hodd as [h Hh].
    destruct (Hat (Z.to_nat h)) as (a & Ha & _ & Hin); [lia..|].
    replace (Z.of_nat n / 2) with h by (clear - Hh; Z.to_euclidean_division_equations; lia). rewrite Ha. by exists (f a).
  - assert (∃ h, Z.of_nat n = 2 * h) as [h Hh].
    { rewrite <- Z.negb_even, negb_false_iff in Hodd. apply Z.even_spec in Hodd as [h Hh]. by exists h. }
    destruct (Hat (Z.to_nat (h - 1))) as (a & Ha & Hma & Hina); [lia..|].
    destruct (Hat (Z.to_nat h)) as (b & Hb & Hmb & Hinb); [lia..|].
    replace (Z.of_nat n / 2) with h by (clear - Hh; Z.to_euclidean_division_equations; lia). rewrite Ha, Hb. cbn. eexists. split; [done|].
    unfold modest in *. rewrite s32_small by lia.
    assert (lo * 2 <= f a + f b <= hi * 2) by lia.
    Z.to_euclidean_division_equations; lia.
Qed.

Lemma in_range_modest l : Forall modest l → in_range (- 2 ^ 30) (2 ^ 30) l = length l.
Proof.
  unfold in_range, modest. induction 1 as [|s l Hs _ IH]; [done|]. rewrite filter_cons_True by lia. cbn. by rewrite IH.
Qed.
(** The step of [getxy] for one coordinate: the array is sorted up to [n], and the middle lies in
    every interval that holds more than half of the samples. *)
Lemma sort_first_middle cmp n samp l :
  compares cmp → take n samp ≡ₚ l → Forall modest l → length l = n → (0 < n)%nat →
  take n (sort_first cmp (Z.of_nat n) samp) ≡ₚ l
  ∧ ∃ v, middle_value f (Z.of_nat n) (sort_first cmp (Z.of_nat n) samp) = Some v
      ∧ ∀ lo hi, (n < 2 * in_range lo hi l)%nat → lo <= v <= hi.
Proof.
  intros Hc Hp Hm Hlen Hpos. unfold sort_first. rewrite Nat2Z.id.
  assert (qsort cmp (take n samp) ≡ₚ l) as Hq by (by rewrite qsort_perm).
  assert (length (qsort cmp (take n samp)) = n) as Hql by (by rewrite Hq).
  split; [by rewrite take_app_length' by done|].
  assert (∀ lo hi, (n < 2 * in_range lo hi l)%nat →
    ∃ v, middle_value f (Z.of_nat n) (qsort cmp (take n samp) ++ drop n samp) = Some v ∧ lo <= v <= hi) as Hmid.
  { intros lo hi Hmaj. apply middle_inside; [|by rewrite Hq|done|done|by rewrite (in_range_perm lo hi _ _ Hq)].
    apply qsort_sorted; [done|by rewrite Hp]. }
  destruct (Hmid (- 2 ^ 30) (2 ^ 30)) as (v & Hv & _); [rewrite in_range_modest by done; lia|].
  exists v. split; [done|]. intros lo hi Hmaj. destruct (Hmid lo hi Hmaj) as (v' & Hv' & Hin). by simplify_eq.
Qed.
End Median.

(** *** A stroke *)

Section Stroke.
Import TestUtils.
Context {U : Type} `{Source U}.

(** One sample after another, one for each read. *)
Inductive delivers : U → list ts_sample → U → Prop :=
| delivers_nil u : delivers u [] u
| delivers_cons u u1 u2 s l : read_from 1 u = Some (1, [s], u1) → delivers u1 l u2 → delivers u (s :: l) u2.

Lemma first_touch_idle idle s u u1 u2 s0 fuel :
  Forall (λ s, pressure s = 0) idle → 0 < pressure s → delivers u idle u1 → read_from 1 u1 = Some (1, [s], u2) →
  (length idle < fuel)%nat → first_touch fuel s0 u = Some (Got (s, u2)).
Proof.
  intros Hidle Hs Hd Hr. revert s0 fuel. induction Hd as [|u u3 u1 i l Hi Hd IH]; intros s0 [|fuel] Hf; cbn in Hf; try lia; cbn.
  - rewrite Hr. cbn. destruct (Z.eqb_spec (pressure s) 0); [lia|done].
  - apply Forall_cons in Hidle as [Hp Hidle]. rewrite Hi. cbn. rewrite Hp. apply IH; [done..|lia].
Qed.

Lemma take_written (i : Z) (samp : list ts_sample) s st :
  0 <= i < MAX_SAMPLES → length samp = Z.to_nat MAX_SAMPLES →
  let index := if i <? MAX_SAMPLES - 1 then i + 1 else i in
  take 127 (take (Z.to_nat (index + 1)) (<[Z.to_nat index := s]> samp) ++ st)
  = take 127 (take (Z.to_nat (i + 1)) samp ++ s :: st)
  ∧ take (Z.to_nat index) (<[Z.to_nat index := s]> samp) = take 127 (take (Z.to_nat (i + 1)) samp).
Proof.
  unfold MAX_SAMPLES. intros Hi Hlen. destruct (Z.ltb_spec i (128 - 1)).
  - replace (Z.to_nat (i + 1 + 1)) with (S (Z.to_nat (i + 1))) by lia. split.
    + rewrite (take_S_r (<[Z.to_nat (i + 1) := s]> samp) (Z.to_nat (i + 1)) s) by (apply list_lookup_insert_eq; lia).
      by rewrite take_insert_ge, <- app_assoc by lia.
    + rewrite take_insert_ge, take_take by lia. f_equal. lia.
  - replace i with 127 by lia. change (Z.to_nat (127 + 1)) with 128%nat. change (Z.to_nat 127) with 127%nat. split.
    + rewrite !take_app_le, !take_take by (rewrite ?length_take, ?length_insert; lia). by rewrite take_insert_ge by lia.
    + rewrite take_insert_ge, take_take by lia. done.
Qed.

Lemma collect_stroke st r u u1 u2 (i : Z) (samp : list ts_sample) fuel :
  Forall (λ s, 0 < pressure s) st → pressure r <= 0 → delivers u st u1 → read_from 1 u1 = Some (1, [r], u2) →
  0 <= i < MAX_SAMPLES → length samp = Z.to_nat MAX_SAMPLES → (length st < fuel)%nat →
  ∃ samp', collect fuel i samp u = Some (Got (Z.min (i + 1 + Z.of_nat (length st)) (MAX_SAMPLES - 1), samp', u2))
    ∧ take (Z.to_nat (Z.min (i + 1 + Z.of_nat (length st)) (MAX_SAMPLES - 1))) samp'
      = take 127 (take (Z.to_nat (i + 1)) samp ++ st).
Proof.
  intros Hst Hp Hd Hr. revert i samp fuel.
  induction Hd as [u|u u3 u1 s st Hs Hd IH]; intros i samp [|fuel] Hi Hlen Hf; cbn [length] in Hf |- *; try lia;
    cbn [collect]; cbv zeta; set (index := if i <? MAX_SAMPLES - 1 then i + 1 else i).
  - destruct (take_written i samp r [] Hi Hlen) as [_ Ht]. fold index in Ht.
    rewrite Hr. cbn [mbind option_bind head]. cbn [Z.ltb Z.compare].
    assert (index = Z.min (i + 1 + Z.of_nat 0) (MAX_SAMPLES - 1)) as <-
      by (subst index; unfold MAX_SAMPLES in *; destruct (Z.ltb_spec i (128 - 1)); lia).
    rewrite list_lookup_insert_eq by (subst index; unfold MAX_SAMPLES in *; destruct (Z.ltb_spec i (128 - 1)); lia).
    cbn. destruct (Z.ltb_spec 0 (pressure r)); [lia|]. eexists. split; [done|]. by rewrite app_nil_r.
  - apply Forall_cons in Hst as [Hs0 Hst].
    destruct (take_written i samp s st Hi Hlen) as [Ht _]. fold index in Ht.
    assert (0 <= index < MAX_SAMPLES) as Hindex
      by (subst index; unfold MAX_SAMPLES in *; destruct (Z.ltb_spec i (128 - 1)); lia).
    rewrite Hs. cbn [mbind option_bind head]. cbn [Z.ltb Z.compare].
    rewrite list_lookup_insert_eq by (unfold MAX_SAMPLES in *; lia).
    cbn [mbind option_bind]. destruct (Z.ltb_spec 0 (pressure s)); [|lia].
    destruct (IH Hst Hr index (<[Z.to_nat index:=s]> samp) fuel) as (samp' & -> & Hsamp);
      [done|by rewrite length_insert|lia|].
    replace (Z.min (index + 1 + Z.of_nat (length st)) (MAX_SAMPLES - 1))
      with (Z.min (i + 1 + Z.of_nat (S (length st))) (MAX_SAMPLES - 1)) in *
      by (subst index; unfold MAX_SAMPLES in *; destruct (Z.ltb_spec i (128 - 1)); lia).
    exists samp'. split; [done|]. by rewrite Hsamp, Ht.
Qed.

Lemma delivers_app_inv u l l' u2 : delivers u (l ++ l') u2 → ∃ u1, delivers u l u1 ∧ delivers u1 l' u2.
Proof.
  revert u. induction l as [|s l IH]; intros u; cbn.
  - intros Hd. exists u. split; [constructor|done].
  - inversion 1 as [|? u1 ? ? ? Hr Hd]; subst. destruct (IH _ Hd) as (u3 & Hl & Hl'). exists u3. split; [|done]. by econstructor.
Qed.
Lemma delivers_one_inv u s l u2 : delivers u (s :: l) u2 → ∃ u1, read_from 1 u = Some (1, [s], u1) ∧ delivers u1 l u2.
Proof. inversion 1 as [|? u1 ? ? ? Hr Hd]; subst. by exists u1. Qed.

(** getxy of the calibration tools.  The pen is up for a while, touches, and is lifted: the
    call ends with the release consumed, whatever the array held before.  Each coordinate it answers
    is a median of the first 127 samples of the stroke: it lies in every interval that holds more
    than half of them, so that fewer wild samples than good ones never move the point out of the
    good ones' range. *)
Theorem getxy_median idle stroke r u u' junk fuel :
  Forall (λ s, pressure s = 0) idle → stroke ≠ [] → Forall (λ s, 0 < pressure s) stroke → pressure r <= 0 →
  delivers u (idle ++ stroke ++ [r]) u' → length junk = Z.to_nat MAX_SAMPLES →
  Forall (modest x) stroke → Forall (modest y) stroke → (length idle + length stroke < fuel)%nat →
  ∃ vx vy, getxy fuel junk u = Some (Got (vx, vy, u'))
    ∧ (∀ lo hi, (length (take 127 stroke) < 2 * in_range x lo hi (take 127 stroke))%nat → lo <= vx <= hi)
    ∧ (∀ lo hi, (length (take 127 stroke) < 2 * in_range y lo hi (take 127 stroke))%nat → lo <= vy <= hi).
Proof.
  intros Hidle Hne Hst Hp Hd Hj Hmx Hmy Hf. destruct stroke as [|s0 st]; [done|]. cbn [length] in Hf.
  apply delivers_app_inv in Hd as (u1 & Hd1 & Hd). apply delivers_one_inv in Hd as (u2 & Hs0 & Hd).
  apply delivers_app_inv in Hd as (u3 & Hd3 & Hd). apply delivers_one_inv in Hd as (u4 & Hr & Hd). inversion Hd; subst u'.
  pose proof Hst as [Hps0 Hst']%Forall_cons. unfold getxy.
  rewrite (first_touch_idle idle s0 u u1 u2) by (done || lia). cbn [mbind option_bind].
  destruct (collect_stroke st r u2 u3 u4 0 (<[0%nat:=s0]> junk) fuel) as (samp & -> & Hsamp);
    [done|done|done|done|unfold MAX_SAMPLES; lia|by rewrite length_insert|lia|]. cbn [mbind option_bind].
  replace (take (Z.to_nat (0 + 1)) (<[0%nat:=s0]> junk) ++ st) with (s0 :: st) in Hsamp
    by (destruct junk; done).
  set (l := take 127 (s0 :: st)) in *.
  assert (Z.min (0 + 1 + Z.of_nat (length st)) (MAX_SAMPLES - 1) = Z.of_nat (length l)) as Hn
    by (subst l; rewrite length_take; cbn [length]; unfold MAX_SAMPLES; lia).
  rewrite Hn, Nat2Z.id in *. assert (0 < length l)%nat as Hpos by (subst l; cbn; lia).
  assert (∀ f, Forall (modest f) (s0 :: st) → Forall (modest f) l) as Hml by (intros f Hm; by apply Forall_take).
  destruct (sort_first_middle x sort_by_x (length l) samp l) as (Hx & vx & -> & Hvx); [done|by rewrite Hsamp|by apply Hml|done..|].
  cbn [mbind option_bind].
  destruct (sort_first_middle y sort_by_y (length l) (sort_first sort_by_x (Z.of_nat (length l)) samp) l) as (_ & vy & -> & Hvy);
    [done|done|by apply Hml|done..|].
  by exists vx, vy.
Qed.
End Stroke.

Lemma getxy_median_witness :
  let s x y := Sample x y 5 0 in
  let q := [Sample 0 0 0 0] ++ [s 10 20; s 11 21; s 500 900; s 12 22; s 9 19] ++ [Sample 0 0 0 0] in
  ∃ vx vy, TestUtils.getxy 20 (replicate 128 (Sample 0 0 0 0)) q = Some (TestUtils.Got (vx, vy, [])) ∧ 9 <= vx <= 12 ∧ 19 <= vy <= 22.
Proof.
  intros s q.
  destruct (getxy_median (U := list ts_sample) [Sample 0 0 0 0] [s 10 20; s 11 21; s 500 900; s 12 22; s 9 19] (Sample 0 0 0 0) q []
    (replicate 128 (Sample 0 0 0 0)) 20) as (vx & vy & Hg & Hx & Hy).
  - repeat constructor.
  - discriminate.
  - repeat constructor.
  - cbn. lia.
  - do 7 (econstructor; [reflexivity|]). constructor.
  - reflexivity.
  - repeat constructor; cbn; lia.
  - repeat constructor; cbn; lia.
  - cbn. lia.
  - exists vx, vy. split; [exact Hg|]. split.
    + apply Hx. vm_compute. lia.
    + apply Hy. vm_compute. lia.
Defined.
