(* ===== verification/Jffs2Rtime.v ===== *)
(** * Jffs2Rtime: the rtime compressor of JFFS2 (14th_nand/mtd-utils-05.07.23/fs/jffs2/compr_rtime.c)

    Each byte is written with the length of the run, at most 255, that repeats what followed the
    last occurrence of the same byte.  Arrays are lists: the input with a fault outside it, the
    output as the bytes written so far with a fault behind the end of the buffer. *)

From S2P Require Import Prelude.

(** [buf[len++] = v] in a buffer of [size] bytes. *)
Definition put (size : Z) (out : list Z) (v : Z) : option (list Z) :=
  if Z.of_nat (length out) <? size then Some (out ++ [v]) else None.

Module Rtime.
(** [positions]: [short] for each byte value, cleared. *)
Definition no_positions : list Z := replicate 256 0.

(** The inner loop: [pos], [backpos] and [runlen]; the answer is [pos] and [runlen]. *)
Fixpoint run (fuel : nat) (data : list Z) (sourcelen pos backpos runlen : Z) : option (Z * Z) :=
  match fuel with
  | O => None
  | S fuel =>
      if (backpos <? pos) && (pos <? sourcelen)
      then
        a ← aget data pos;
        b ← aget data backpos;
        if (a =? b) && (runlen <? 255)
        then run fuel data sourcelen (pos + 1) (backpos + 1) (runlen + 1)
        else Some (pos, runlen)
      else Some (pos, runlen)
  end.

(** The loop over the input; [outpos] is the length of [out]. *)
Fixpoint compress_loop (fuel : nat) (data : list Z) (sourcelen dstlen pos : Z) (positions out : list Z) :
    option (Z * list Z) :=
  match fuel with
  | O => None
  | S fuel =>
      if (pos <? sourcelen) && (Z.of_nat (length out) <=? u32 (dstlen - 2))
      then
        value ← aget data pos;
        out ← put dstlen out value;
        let pos := pos + 1 in
        backpos ← aget positions value;
        positions ← aset positions value (s16 pos);
        '(pos, runlen) ← run 256 data sourcelen pos backpos 0;
        out ← put dstlen out runlen;
        compress_loop fuel data sourcelen dstlen pos positions out
      else Some (pos, out)
  end.

(** The return value, [*sourcelen], [*dstlen] and the bytes in the output buffer. *)
Definition jffs2_rtime_compress (data : list Z) (sourcelen dstlen : Z) : option (Z * Z * Z * list Z) :=
  '(pos, out) ← compress_loop (S (Z.to_nat sourcelen)) data sourcelen dstlen 0 no_positions [];
  let outpos := Z.of_nat (length out) in
  if pos <=? outpos then Some (-1, sourcelen, dstlen, out) else Some (0, pos, outpos, out).

Fixpoint copy_bytes (repeat : nat) (destlen : Z) (out : list Z) (backoffs : Z) : option (list Z) :=
  match repeat with
  | O => Some out
  | S repeat =>
      b ← aget out backoffs;
      out ← put destlen out b;
      copy_bytes repeat destlen out (backoffs + 1)
  end.
(** [memcpy] from a part of the output before its end to the end. *)
Definition copy_block (repeat : nat) (destlen : Z) (out : list Z) (backoffs : Z) : option (list Z) :=
  if (0 <=? backoffs) && (Z.of_nat (length out + repeat) <=? destlen)
  then Some (out ++ take repeat (drop (Z.to_nat backoffs) out))
  else None.

(** The loop of the decompressor; the number of input bytes is not looked at. *)
Fixpoint decompress_loop (fuel : nat) (data : list Z) (destlen pos : Z) (positions out : list Z) : option (list Z) :=
  match fuel with
  | O => None
  | S fuel =>
      if Z.of_nat (length out) <? destlen
      then
        value ← aget data pos;
        out ← put destlen out value;
        repeat ← aget data (pos + 1);
        backoffs ← aget positions value;
        let outpos := Z.of_nat (length out) in
        positions ← aset positions value (s16 outpos);
        out ← (if repeat =? 0 then Some out
               else if outpos <=? backoffs + repeat
               then copy_bytes (Z.to_nat repeat) destlen out backoffs
               else copy_block (Z.to_nat repeat) destlen out backoffs);
        decompress_loop fuel data destlen (pos + 2) positions out
      else Some out
  end.

Definition jffs2_rtime_decompress (data : list Z) (srclen destlen : Z) : option (Z * list Z) :=
  out ← decompress_loop (S (Z.to_nat destlen)) data destlen 0 no_positions [];
  Some (0, out).
End Rtime.

(** The bytes of an array. *)
Definition bytes (l : list Z) : Prop := Forall (λ b, 0 <= b < 256) l.

Lemma bytes_at l i v : bytes l → aget l i = Some v → 0 <= v < 256.
Proof. intros Hb Hv%aget_lookup. exact (Forall_lookup_1 _ _ _ _ Hb Hv). Qed.
Lemma put_some size out v : Z.of_nat (length out) < size → put size out v = Some (out ++ [v]).
Proof. unfold put. zcases; done. Qed.

Section RtimeProofs.
Import Rtime.
Context (data : list Z) (sourcelen : Z).
Context (Hlen : Z.of_nat (length data) = sourcelen) (Hshort : sourcelen < 2 ^ 15) (Hbytes : bytes data).

(** [n] bytes from [pos] on repeat those from [back] on. *)
Definition repeats (pos back n : Z) : Prop := ∀ k, 0 <= k < n → aget data (pos + k) = aget data (back + k).

Lemma run_spec fuel pos back r :
  0 <= back < pos → pos <= sourcelen → 0 <= r <= 255 → (Z.to_nat (255 - r) < fuel)%nat →
  ∃ n, run fuel data sourcelen pos back r = Some (pos + n, r + n) ∧ 0 <= n ∧ r + n <= 255
    ∧ pos + n <= sourcelen ∧ repeats pos back n.
Proof.
  revert pos back r. induction fuel as [|fuel IH]; intros pos back r Hb Hp Hr Hf; [lia|].
  assert (∃ n, Some (pos, r) = Some (pos + n, r + n) ∧ 0 <= n ∧ r + n <= 255 ∧ pos + n <= sourcelen ∧ repeats pos back n) as Hstop.
  { exists 0. split; [by rewrite !Z.add_0_r|]. split; [lia|]. split; [lia|]. split; [lia|]. intros k Hk. lia. }
  cbn [run]. destruct (Z.ltb_spec back pos); [|lia]. destruct (Z.ltb_spec pos sourcelen); [|exact Hstop]. cbn [andb].
  destruct (aget_Some data pos) as [a Ha]; [lia|]. destruct (aget_Some data back) as [b Hb']; [lia|].
  rewrite Ha, Hb'. cbn [mbind option_bind].
  destruct (Z.eqb_spec a b) as [<-|]; [|exact Hstop]. destruct (Z.ltb_spec r 255); [|exact Hstop]. cbn [andb].
  destruct (IH (pos + 1) (back + 1) (r + 1)) as (n & -> & Hn & Hrn & Hpn & Hrep); [lia..|].
  exists (1 + n). split; [f_equal; f_equal; lia|]. split; [lia|]. split; [lia|]. split; [lia|].
  intros k Hk. destruct (decide (k = 0)) as [->|]; [by rewrite !Z.add_0_r, Ha, Hb'|].
  replace (pos + k) with (pos + 1 + (k - 1)) by lia. replace (back + k) with (back + 1 + (k - 1)) by lia. apply Hrep. lia.
Qed.

(** The output of the decompressor when [pos] bytes are done. *)
Abbreviation done_ pos := (take (Z.to_nat pos) data).
Lemma length_done pos : 0 <= pos <= sourcelen → Z.of_nat (length (done_ pos)) = pos.
Proof. intros Hp. rewrite length_take. lia. Qed.

Lemma copy_bytes_repeats n destlen pos back :
  0 <= back < pos → pos + Z.of_nat n <= sourcelen → pos + Z.of_nat n <= destlen → repeats pos back (Z.of_nat n) →
  copy_bytes n destlen (done_ pos) back = Some (done_ (pos + Z.of_nat n)).
Proof.
  revert pos back. induction n as [|n IH]; intros pos back Hb Hp Hd Hrep; cbn [copy_bytes].
  - by rewrite Z.add_0_r.
  - destruct (aget_Some data pos) as [v Hv]; [lia|].
    assert (aget data back = Some v) as Hv' by (rewrite <- (Z.add_0_r back), <- (Hrep 0), Z.add_0_r by lia; done).
    rewrite aget_take, Hv' by lia. cbn [mbind option_bind]. rewrite put_some by (rewrite length_done; lia).
    cbn [mbind option_bind]. rewrite <- (take_aget_S _ _ _ Hv), IH; [f_equal; f_equal; lia|lia|lia|lia|].
    intros k Hk. replace (pos + 1 + k) with (pos + (k + 1)) by lia. replace (back + 1 + k) with (back + (k + 1)) by lia. apply Hrep. lia.
Qed.
Lemma copy_block_bytes n destlen out back :
  0 <= back → back + Z.of_nat n <= Z.of_nat (length out) → Z.of_nat (length out + n) <= destlen →
  copy_block n destlen out back = copy_bytes n destlen out back.
Proof.
  intros Hb Hin Hd. replace (copy_block n destlen out back) with (Some (out ++ take n (drop (Z.to_nat back) out)))
    by (unfold copy_block; zcases; done).
  revert out back Hb Hin Hd. induction n as [|n IH]; intros out back Hb Hin Hd; cbn [copy_bytes].
  - by rewrite take_0, app_nil_r.
  - destruct (aget_Some out back) as [v Hv]; [lia|]. rewrite Hv. cbn [mbind option_bind].
    rewrite put_some by lia. cbn [mbind option_bind].
    rewrite <- IH by (rewrite ?length_app; cbn [length]; lia). f_equal. rewrite <- app_assoc. f_equal.
    apply aget_lookup in Hv. rewrite (drop_S out v (Z.to_nat back) Hv). cbn [take app]. f_equal.
    replace (Z.to_nat (back + 1)) with (S (Z.to_nat back)) by lia.
    rewrite drop_app_le by (rewrite ?length_app; lia). rewrite take_app_le; [done|rewrite length_drop; lia].
Qed.
(** The table of positions while [pos] bytes are done: a place before [pos] for every byte. *)
Definition table (positions : list Z) (pos : Z) : Prop :=
  length positions = 256%nat ∧ Forall (λ p, 0 <= p <= pos) positions.

Lemma table_at positions pos v : table positions pos → 0 <= v < 256 →
  ∃ back, aget positions v = Some back ∧ 0 <= back <= pos.
Proof.
  intros [Hl Hf] Hv. destruct (aget_Some positions v) as [back Hb]; [lia|]. exists back. split; [done|].
  apply aget_lookup in Hb. exact (Forall_lookup_1 _ _ _ _ Hf Hb).
Qed.
Lemma table_set positions pos pos' v : table positions pos → 0 <= v < 256 → 0 <= pos <= pos' → pos' < 2 ^ 15 → 
  ∃ positions', aset positions v (s16 pos') = Some positions' ∧ table positions' pos'.
Proof.
  intros [Hl Hf] Hv Hp Hs. rewrite aset_Some by lia. eexists. split; [done|]. split; [by rewrite length_insert|].
  rewrite s16_small by lia. apply Forall_insert; [|lia]. eapply Forall_impl; [exact Hf|]. cbn. lia.
Qed.
Lemma table_mono positions pos pos' : table positions pos → pos <= pos' → table positions pos'.
Proof. intros [Hl Hf] Hp. split; [done|]. eapply Forall_impl; [exact Hf|]. cbn. lia. Qed.

(** From [pos] on the compressor ends, and the decompressor, at the same place of the output with
    the same table, produces what the compressor read.  [n] bounds the rounds. *)
Lemma compress_decompress n dstlen pos positions out :
  2 <= dstlen < 2 ^ 32 → 0 <= pos <= sourcelen → table positions pos → (Z.to_nat (sourcelen - pos) < n)%nat →
  Z.of_nat (length out) <= dstlen →
  ∃ pos' out', compress_loop n data sourcelen dstlen pos positions out = Some (pos', out')
    ∧ pos <= pos' <= sourcelen ∧ Z.of_nat (length out') <= dstlen ∧ (bytes out → bytes out')
    ∧ (∃ enc, out' = out ++ enc)
    ∧ ∀ m, (Z.to_nat (pos' - pos) < m)%nat →
        decompress_loop m out' pos' (Z.of_nat (length out)) positions (done_ pos) = Some (done_ pos').
Proof.
  intros Hd. revert pos positions out. induction n as [|n IH]; intros pos positions out Hp Htab Hn Hout; [lia|].
  cbn [compress_loop].
  destruct (Z.ltb_spec pos sourcelen) as [Hpos|]; cbn [andb]; [destruct (Z.leb_spec (Z.of_nat (length out)) (u32 (dstlen - 2))) as [Hroom|]|].
  2, 3: exists pos, out; split; [done|]; split; [lia|]; split; [done|]; split; [done|]; split; [by exists []; rewrite app_nil_r|];
    intros [|m] Hm; [lia|]; cbn [decompress_loop]; rewrite length_done by done; by rewrite Z.ltb_irrefl.
  rewrite u32_small in Hroom by lia.
  destruct (aget_Some data pos) as [v Hv]; [lia|]. pose proof (bytes_at _ _ _ Hbytes Hv) as Hv256.
  destruct (table_at positions pos v Htab Hv256) as (back & Hback & Hbackpos).
  destruct (table_set positions pos (pos + 1) v Htab Hv256) as (positions' & Hset & Htab'); [lia|lia|].
  rewrite Hv. cbn [mbind option_bind]. rewrite put_some by lia. cbn [mbind option_bind]. rewrite Hback.
  cbn [mbind option_bind]. rewrite Hset. cbn [mbind option_bind].
  destruct (run_spec 256 (pos + 1) back 0) as (r & -> & Hr & Hr255 & Hpr & Hrep); [lia..|].
  cbn [mbind option_bind]. rewrite Z.add_0_l, put_some by (rewrite length_app; cbn [length]; lia). cbn [mbind option_bind].
  destruct (IH (pos + 1 + r) positions' ((out ++ [v]) ++ [r])) as (pos' & out' & Hc & Hpos' & Hlen' & Hb & (enc & ->) & Hdec);
    [lia|by apply (table_mono _ (pos + 1)); [|lia]|lia|rewrite !length_app; cbn [length]; lia|].
  exists pos', (((out ++ [v]) ++ [r]) ++ enc). split; [done|]. split; [lia|]. split; [done|].
  split. { intros Hbo. apply Hb. apply Forall_app_2; [apply Forall_app_2; [done|]|]; repeat constructor; lia. }
  split; [exists ([v] ++ [r] ++ enc); by rewrite <- !app_assoc|].
  intros [|m] Hm; [lia|]. cbn [decompress_loop]. rewrite length_done by done.
  destruct (Z.ltb_spec pos pos'); [|lia].
  assert (aget (((out ++ [v]) ++ [r]) ++ enc) (Z.of_nat (length out)) = Some v) as ->
    by (do 2 apply aget_app; rewrite aget_nat; by apply list_lookup_middle).
  cbn [mbind option_bind]. rewrite put_some by (rewrite length_done; lia). cbn [mbind option_bind].
  assert (aget (((out ++ [v]) ++ [r]) ++ enc) (Z.of_nat (length out) + 1) = Some r) as ->.
  { apply aget_app. replace (Z.of_nat (length out) + 1) with (Z.of_nat (length (out ++ [v]))) by (rewrite length_app; cbn; lia).
    rewrite aget_nat. by apply list_lookup_middle. }
  cbn [mbind option_bind]. rewrite Hback. cbn [mbind option_bind].
  rewrite <- (take_aget_S _ _ _ Hv), length_done by lia. rewrite Hset. cbn [mbind option_bind].
  assert ((if r =? 0 then Some (done_ (pos + 1))
           else if pos + 1 <=? back + r then copy_bytes (Z.to_nat r) pos' (done_ (pos + 1)) back
           else copy_block (Z.to_nat r) pos' (done_ (pos + 1)) back) = Some (done_ (pos + 1 + r))) as ->.
  { destruct (Z.eqb_spec r 0) as [->|]; [by rewrite Z.add_0_r|].
    assert (copy_bytes (Z.to_nat r) pos' (done_ (pos + 1)) back = Some (done_ (pos + 1 + r))) as Hcopy.
    { rewrite (copy_bytes_repeats), Z2Nat.id by (rewrite ?Z2Nat.id; done || lia). done. }
    destruct (Z.leb_spec (pos + 1) (back + r)); [done|]. rewrite copy_block_bytes; [done|lia| |].
    - rewrite (length_done) by lia. lia.
    - rewrite Nat2Z.inj_add, (length_done) by lia. lia. }
  cbn [mbind option_bind].
  replace (Z.of_nat (length out) + 2) with (Z.of_nat (length ((out ++ [v]) ++ [r]))) by (rewrite !length_app; cbn [length]; lia).
  apply Hdec. lia.
Qed.
End RtimeProofs.

Lemma rtime_inverts data sourcelen dstlen :
  Z.of_nat (length data) = sourcelen → sourcelen < 2 ^ 15 → bytes data → 2 <= dstlen < 2 ^ 32 →
  ∃ ret slen dlen out, Rtime.jffs2_rtime_compress data sourcelen dstlen = Some (ret, slen, dlen, out)
    ∧ Z.of_nat (length out) <= dstlen ∧ bytes out
    ∧ (ret = -1 ∧ slen = sourcelen ∧ dlen = dstlen
       ∨ ret = 0 ∧ dlen = Z.of_nat (length out) ∧ 0 < dlen < slen ∧ slen <= sourcelen
         ∧ Rtime.jffs2_rtime_decompress out dlen slen = Some (0, take (Z.to_nat slen) data)).
Proof.
  intros Hlen Hshort Hbytes Hd.
  destruct (compress_decompress data sourcelen Hlen Hshort Hbytes (S (Z.to_nat sourcelen)) dstlen 0 Rtime.no_positions [])
    as (pos & out & Hc & Hpos & Hout & Hbo & _ & Hdec); [done|lia| |lia|cbn; lia|].
  { split; [done|]. apply Forall_replicate. lia. }
  unfold Rtime.jffs2_rtime_compress. rewrite Hc. cbn [mbind option_bind].
  destruct (Z.leb_spec pos (Z.of_nat (length out))).
  - do 4 eexists. split; [done|]. split; [done|]. split; [apply Hbo; constructor|]. by left.
  - do 4 eexists. split; [done|]. split; [done|]. split; [apply Hbo; constructor|]. right. split; [done|]. split; [done|].
    assert (Rtime.jffs2_rtime_decompress out (Z.of_nat (length out)) pos = Some (0, take (Z.to_nat pos) data)) as Hok
      by (unfold Rtime.jffs2_rtime_decompress; by rewrite Hdec by lia).
    split; [|split; [lia|done]]. split; [|lia]. destruct out as [|b out]; [|cbn; lia]. exfalso.
    unfold Rtime.jffs2_rtime_decompress in Hok. cbn [Rtime.decompress_loop length] in Hok.
    destruct (Z.ltb_spec (Z.of_nat 0) pos); [done|]. cbn in *. lia.
Qed.

(** [C28] rtime.  For every input of less than 32 KiB and every output buffer of at least two bytes
    the compressor ends inside its buffer.  When it answers 0 the output is shorter than the part of
    the input it says it took, and the decompressor makes exactly that part out of it; otherwise it
    answers -1 and leaves both lengths alone. *)
Theorem rtime_roundtrip data sourcelen dstlen :
  Z.of_nat (length data) = sourcelen → sourcelen < 2 ^ 15 → bytes data → 2 <= dstlen < 2 ^ 32 →
  ∃ ret slen dlen out, Rtime.jffs2_rtime_compress data sourcelen dstlen = Some (ret, slen, dlen, out)
    ∧ Z.of_nat (length out) <= dstlen ∧ bytes out
    ∧ (ret = -1 ∧ slen = sourcelen ∧ dlen = dstlen
       ∨ ret = 0 ∧ dlen = Z.of_nat (length out) ∧ 0 < dlen < slen ∧ slen <= sourcelen
         ∧ Rtime.jffs2_rtime_decompress out dlen slen = Some (0, take (Z.to_nat slen) data)).
Proof. apply rtime_inverts. Qed.

Lemma rtime_roundtrip_witness :
  let data := [7; 7; 7; 7; 7; 7; 7; 1; 2; 3; 1; 2; 3] in
  ∃ ret slen dlen out, Rtime.jffs2_rtime_compress data 13 20 = Some (ret, slen, dlen, out)
    ∧ Z.of_nat (length out) <= 20 ∧ bytes out
    ∧ (ret = -1 ∧ slen = 13 ∧ dlen = 20
       ∨ ret = 0 ∧ dlen = Z.of_nat (length out) ∧ 0 < dlen < slen ∧ slen <= 13
         ∧ Rtime.jffs2_rtime_decompress out dlen slen = Some (0, take (Z.to_nat slen) data)).
Proof.
  intros data. apply (rtime_roundtrip data 13 20); [reflexivity|lia| |lia].
  unfold data, bytes. repeat (constructor; [lia|]). constructor.
Defined.

Example rtime_shrinks :
  Rtime.jffs2_rtime_compress [7; 7; 7; 7; 7; 7; 7; 1; 2; 3; 1; 2; 3] 13 20 = Some (0, 13, 10, [7; 6; 1; 0; 2; 0; 3; 0; 1; 2]).
Proof. vm_compute. reflexivity. Qed.

(** A buffer of less than two bytes: the subtraction wraps and the loop writes behind the buffer. *)
Example rtime_overruns_tiny_buffer : Rtime.jffs2_rtime_compress [7; 7; 7; 7] 4 1 = None.
Proof. vm_compute. reflexivity. Qed.
(** A run that is longer than what is left of the page: the decompressor writes behind it. *)
Example rtime_decompress_overruns : Rtime.jffs2_rtime_decompress [7; 0; 7; 200] 4 10 = None.
Proof. vm_compute. reflexivity. Qed.
