(* ===== verification/Jffs2Rubin.v ===== *)
(** * Jffs2Rubin: the arithmetic coder of JFFS2 (fs/jffs2/compr_rubin.c with pushpull.h)

    dynrubin counts how often each of the eight bits of a byte is set, writes the eight frequencies,
    and codes every bit with its frequency into an interval [q, q + p) of a register of 16 bits;
    whenever the interval lies in one half of the register a bit of the output is known.  The buffer
    is a list of bytes; a bit outside it is a fault.  [unsigned long] has 32 bits. *)

From S2P Require Import Prelude Jffs2Rtime.

Definition ENOSPC := 28.

Module PushPull.
Record pushpull := PP { buf : list Z; buflen : Z; ofs : Z; reserve : Z }.

(** The result and the stream; [buf] is written in place. *)
Definition pushbit (pp : pushpull) (bit : Z) (use_reserved : bool) : option (Z * pushpull) :=
  if u32 (buflen pp - (if use_reserved then 0 else reserve pp)) <=? ofs pp
  then Some (- ENOSPC, pp)
  else
    byte ← aget (buf pp) (ofs pp >>> 3);
    let mask := 1 <<< (7 - (ofs pp &&& 7)) in
    let byte := if truthy bit then byte ||| mask else byte &&& ~~~ mask in
    buf' ← aset (buf pp) (ofs pp >>> 3) byte;
    Some (0, PP buf' (buflen pp) (u32 (ofs pp + 1)) (reserve pp)).
Definition pushedbits (pp : pushpull) : Z := ofs pp.
Definition pullbit (pp : pushpull) : option (Z * pushpull) :=
  byte ← aget (buf pp) (ofs pp >>> 3);
  Some ((byte >>> (7 - (ofs pp &&& 7))) &&& 1, PP (buf pp) (buflen pp) (u32 (ofs pp + 1)) (reserve pp)).
End PushPull.

Module Rubin.
Import PushPull.
Definition RUBIN_REG_SIZE := 16%nat.
Definition UPPER_BIT_RUBIN := 1 <<< 15.
Definition LOWER_BITS_RUBIN := (1 <<< 15) - 1.

Record rubin_state := Rubin {
  p : Z; q : Z; rec_q : Z; bit_number : Z; pp : pushpull; bit_divider : Z; bits : list Z }.
Definition set_pp (rs : rubin_state) (x : pushpull) : rubin_state :=
  Rubin (p rs) (q rs) (rec_q rs) (bit_number rs) x (bit_divider rs) (bits rs).

(** The members [init_rubin] leaves alone are [rec_q] and [pp]. *)
Definition init_rubin (pp : pushpull) (rec_q div : Z) (bits : list Z) : rubin_state :=
  Rubin (2 * UPPER_BIT_RUBIN) 0 rec_q 0 pp div bits.

(** The condition of the loops: the interval lies in one half of the register. *)
Definition one_half (p q : Z) : bool := (UPPER_BIT_RUBIN <=? q) || (u32 (p + q) <=? UPPER_BIT_RUBIN).

(** The loop of [encode] that pushes the bits that are known. *)
Fixpoint normalize (fuel : nat) (rs : rubin_state) : option (Z * rubin_state) :=
  if one_half (p rs) (q rs)
  then
    match fuel with
    | O => None
    | S fuel =>
        '(ret, x) ← pushbit (pp rs) (c_bool (truthy (q rs &&& UPPER_BIT_RUBIN))) false;
        let rs := Rubin (p rs) (q rs) (rec_q rs) (bit_number rs + 1) x (bit_divider rs) (bits rs) in
        if truthy ret then Some (ret, rs)
        else normalize fuel (Rubin (u32 (p rs <<< 1)) (u32 ((q rs &&& LOWER_BITS_RUBIN) <<< 1)) (rec_q rs)
               (bit_number rs) (pp rs) (bit_divider rs) (bits rs))
    end
  else Some (0, rs).

(** Where the interval is split for the frequencies [A] of 0 and [B] of 1. *)
Definition split_at (p A B : Z) : Z :=
  let i0 := u32 (A * p) / u32 (A + B) in
  let i0 := if i0 <=? 0 then 1 else i0 in
  if p <=? i0 then u32 (p - 1) else i0.

Definition encode (rs : rubin_state) (A B symbol : Z) : option (Z * rubin_state) :=
  '(ret, rs) ← normalize 17 rs;
  if truthy ret then Some (ret, rs)
  else
    let i0 := split_at (p rs) A B in
    let i1 := u32 (p rs - i0) in
    Some (0, if symbol =? 0
             then Rubin i0 (q rs) (rec_q rs) (bit_number rs) (pp rs) (bit_divider rs) (bits rs)
             else Rubin i1 (u32 (q rs + i0)) (rec_q rs) (bit_number rs) (pp rs) (bit_divider rs) (bits rs)).

Fixpoint end_loop (n : nat) (rs : rubin_state) : option rubin_state :=
  match n with
  | O => Some rs
  | S n =>
      '(_, x) ← pushbit (pp rs) (c_bool (truthy (UPPER_BIT_RUBIN &&& q rs))) true;
      end_loop n (Rubin (p rs) (u32 ((q rs &&& LOWER_BITS_RUBIN) <<< 1)) (rec_q rs) (bit_number rs) x (bit_divider rs) (bits rs))
  end.
Definition end_rubin (rs : rubin_state) : option rubin_state := end_loop RUBIN_REG_SIZE rs.

Fixpoint init_pull (n : nat) (rs : rubin_state) : option rubin_state :=
  match n with
  | O => Some rs
  | S n =>
      '(c, x) ← pullbit (pp rs);
      init_pull n (Rubin (p rs) (q rs) (u32 (rec_q rs * 2 + c)) (bit_number rs + 1) x (bit_divider rs) (bits rs))
  end.
(** The loop leaves [bit_number] one above the register size. *)
Definition init_decode (pp : pushpull) (div : Z) (bits : list Z) : option rubin_state :=
  rs ← init_pull RUBIN_REG_SIZE (init_rubin pp 0 div bits);
  Some (Rubin (p rs) (q rs) (rec_q rs) (bit_number rs + 1) (Rubin.pp rs) (bit_divider rs) (Rubin.bits rs)).

(** The two loops of [__do_decode]: how many bits, then the bits. *)
Fixpoint count_bits (fuel : nat) (p q : Z) (n : nat) : option (Z * Z * nat) :=
  match fuel with
  | O => None
  | S fuel =>
      let n := S n in
      let q := u32 ((q &&& LOWER_BITS_RUBIN) <<< 1) in
      let p := u32 (p <<< 1) in
      if one_half p q then count_bits fuel p q n else Some (p, q, n)
  end.
Fixpoint pull_bits (n : nat) (rec_q : Z) (pp : pushpull) : option (Z * pushpull) :=
  match n with
  | O => Some (rec_q, pp)
  | S n =>
      '(c, pp) ← pullbit pp;
      pull_bits n (u32 (u32 ((rec_q &&& LOWER_BITS_RUBIN) <<< 1) + c)) pp
  end.
Definition __do_decode (rs : rubin_state) (p q : Z) : option rubin_state :=
  '(p, q, n) ← count_bits 17 p q 0;
  '(rec_q, x) ← pull_bits n (rec_q rs) (pp rs);
  Some (Rubin p q rec_q (bit_number rs + Z.of_nat n) x (bit_divider rs) (bits rs)).

Definition decode (rs : rubin_state) (A B : Z) : option (Z * rubin_state) :=
  rs ← (if one_half (p rs) (q rs) then __do_decode rs (p rs) (q rs) else Some rs);
  let i0 := split_at (p rs) A B in
  let threshold := u32 (q rs + i0) in
  if threshold <=? rec_q rs
  then Some (1, Rubin (u32 (p rs - i0)) (u32 (q rs + i0)) (rec_q rs) (bit_number rs) (pp rs) (bit_divider rs) (bits rs))
  else Some (0, Rubin i0 (q rs) (rec_q rs) (bit_number rs) (pp rs) (bit_divider rs) (bits rs)).

(** The bits of a byte from the lowest; [B] runs over [bits]. *)
Fixpoint out_bits (rs : rubin_state) (freqs : list Z) (byte : Z) : option (Z * rubin_state) :=
  match freqs with
  | [] => Some (0, rs)
  | B :: freqs =>
      '(ret, rs) ← encode rs (bit_divider rs - B) B (byte &&& 1);
      if truthy ret then Some (ret, rs) else out_bits rs freqs (byte >>> 1)
  end.
(** A failure restores the state; what was written in the buffer stays. *)
Definition out_byte (rs : rubin_state) (byte : Z) : option (Z * rubin_state) :=
  '(ret, rs') ← out_bits rs (bits rs) byte;
  if truthy ret
  then Some (ret, set_pp rs (PP (buf (pp rs')) (buflen (pp rs)) (ofs (pp rs)) (reserve (pp rs))))
  else Some (0, rs').

Fixpoint in_bits (rs : rubin_state) (freqs : list Z) (i result : Z) : option (Z * rubin_state) :=
  match freqs with
  | [] => Some (result, rs)
  | B :: freqs =>
      '(symbol, rs) ← decode rs (bit_divider rs - B) B;
      in_bits rs freqs (i + 1) (result ||| (symbol <<< i))
  end.
Definition in_byte (rs : rubin_state) : option (Z * rubin_state) := in_bits rs (bits rs) 0 0.

(** The loop of [rubin_do_compress]; the answer is [pos] and the state. *)
Fixpoint out_bytes (data : list Z) (pos : Z) (rs : rubin_state) : option (Z * rubin_state) :=
  match data with
  | [] => Some (pos, rs)
  | byte :: data =>
      '(ret, rs) ← out_byte rs byte;
      if truthy ret then Some (pos, rs) else out_bytes data (pos + 1) rs
  end.

(** [cpage_out] with what it holds; the answer is the return value, [*sourcelen], [*dstlen] and the buffer. *)
Definition rubin_do_compress (bit_divider : Z) (bits : list Z) (data cpage_out : list Z) (sourcelen dstlen : Z) :
    option (Z * Z * Z * list Z) :=
  let rs := init_rubin (PP cpage_out (u32 (dstlen * 8)) 0 32) 0 bit_divider bits in
  '(pos, rs) ← out_bytes (take (Z.to_nat sourcelen) data) 0 rs;
  rs ← end_rubin rs;
  let outpos := (pushedbits (pp rs) + 7) / 8 in
  if pos <=? outpos then Some (-1, sourcelen, dstlen, buf (pp rs))
  else Some (0, pos, outpos, buf (pp rs)).

(** [histo]: counters of one byte. *)
Definition histogram (data : list Z) : list Z :=
  foldl (λ h b, <[Z.to_nat b := u8 (nth (Z.to_nat b) h 0 + 1)]> h) (replicate 256 0) data.
Definition bit_count (histo : list Z) (j : nat) : Z :=
  foldr Z.add 0 (imap (λ i h, if Z.testbit (Z.of_nat i) (Z.of_nat j) then h else 0) histo).
Definition frequency (count srclen : Z) : Z :=
  let b := u32 (count * 256) / srclen in
  let b := if b =? 0 then 1 else b in
  if 255 <? b then 255 else b.

Definition jffs2_dynrubin_compress (data cpage_out : list Z) (sourcelen dstlen : Z) : option (Z * Z * Z * list Z) :=
  if dstlen <=? 12 then Some (-1, sourcelen, dstlen, cpage_out)
  else if sourcelen =? 0 then None
  else
    let bits := (λ j, frequency (bit_count (histogram (take (Z.to_nat sourcelen) data)) j) sourcelen) <$> seq 0 8 in
    '(ret, mysrclen, mydstlen, out) ← rubin_do_compress 256 bits data (drop 8 cpage_out) sourcelen (u32 (dstlen - 8));
    if truthy ret then Some (ret, sourcelen, dstlen, bits ++ out)
    else
      let mydstlen := mydstlen + 8 in
      if mysrclen <=? mydstlen then Some (-1, sourcelen, dstlen, bits ++ out)
      else Some (0, mysrclen, mydstlen, bits ++ out).

Fixpoint in_bytes (n : nat) (rs : rubin_state) : option (list Z) :=
  match n with
  | O => Some []
  | S n => '(b, rs) ← in_byte rs; l ← in_bytes n rs; Some (b :: l)
  end.
Definition rubin_do_decompress (bit_divider : Z) (bits cdata : list Z) (srclen destlen : Z) : option (list Z) :=
  rs ← init_decode (PP cdata srclen 0 0) bit_divider bits;
  in_bytes (Z.to_nat destlen) rs.
(** The fixed model of the old rubinmips nodes, which are only read. *)
Definition BIT_DIVIDER_MIPS := 1043.
Definition bits_mips : list Z := [277; 249; 290; 267; 229; 341; 212; 241].
Definition jffs2_rubinmips_decompress (data : list Z) (sourcelen dstlen : Z) : option (Z * list Z) :=
  out ← rubin_do_decompress BIT_DIVIDER_MIPS bits_mips data sourcelen dstlen;
  Some (0, out).
Definition jffs2_dynrubin_decompress (data : list Z) (sourcelen dstlen : Z) : option (Z * list Z) :=
  if (length data <? 8)%nat then None
  else
    out ← rubin_do_decompress 256 (take 8 data) (drop 8 data) (u32 (sourcelen - 8)) dstlen;
    Some (0, out).
End Rubin.

Example dynrubin_runs :
  let data := replicate 40 65 in
  match Rubin.jffs2_dynrubin_compress data (replicate 60 170) 40 60 with
  | Some (ret, slen, dlen, out) => (ret, slen, dlen) = (0, 40, 11)
      ∧ Rubin.jffs2_dynrubin_decompress (take (Z.to_nat dlen) out) dlen slen = Some (0, data)
  | None => False
  end.
Proof. vm_compute. done. Qed.

(** ** The bits of a buffer *)

Section Stream.
Import PushPull.

Definition bit_at (l : list Z) (i : Z) : Z := c_bool (Z.testbit (nth (Z.to_nat (i / 8)) l 0) (7 - i mod 8)).
(** The number the [k] bits from [n] on make, highest first. *)
Fixpoint window (l : list Z) (k : nat) (n : Z) : Z :=
  match k with O => 0 | S k => 2 * window l k n + bit_at l (n + Z.of_nat k) end.

Lemma window_last l k n : window l (S k) n = 2 * window l k n + bit_at l (n + Z.of_nat k).
Proof. done. Qed.
Lemma bit_at_range l i : 0 <= bit_at l i <= 1.
Proof. unfold bit_at, c_bool. destruct (Z.testbit _ _); lia. Qed.
Lemma window_range l k n : 0 <= window l k n < 2 ^ Z.of_nat k.
Proof.
  induction k as [|k IH]; cbn [window]; [done|]. pose proof (bit_at_range l (n + Z.of_nat k)).
  rewrite Nat2Z.inj_succ, Z.pow_succ_r by lia. lia.
Qed.
Lemma window_first l k n : window l (S k) n = bit_at l n * 2 ^ Z.of_nat k + window l k (n + 1).
Proof.
  induction k as [|k IH]; [cbn [window]; rewrite Z.add_0_r; cbn; lia|].
  change (window l (S (S k)) n) with (2 * window l (S k) n + bit_at l (n + Z.of_nat (S k))). rewrite IH. cbn [window].
  replace (n + 1 + Z.of_nat k) with (n + Z.of_nat (S k)) by lia.
  rewrite (Nat2Z.inj_succ k), Z.pow_succ_r by lia. lia.
Qed.
(** Moving the window of the register by one bit. *)
Lemma window_shift l n :
  window l 16 (n + 1) = 2 * (window l 16 n mod 2 ^ 15) + bit_at l (n + 16) ∧ window l 16 n = bit_at l n * 2 ^ 15 + window l 15 (n + 1).
Proof.
  split; [|apply (window_first l 15)].
  assert (window l 16 n mod 2 ^ 15 = window l 15 (n + 1)) as ->.
  { rewrite (window_first l 15 n), Z.add_comm, Z.mod_add by lia. apply Z.mod_small, (window_range l 15). }
  rewrite (window_last l 15). f_equal. f_equal. lia.
Qed.

Lemma land_7 i : i &&& 7 = i mod 8.
Proof. apply (Z.land_ones i 3). lia. Qed.
Lemma shiftr_3 i : i >>> 3 = i / 8.
Proof. by rewrite Z.shiftr_div_pow2 by lia. Qed.
Lemma truthy_c_bool b : truthy (c_bool b) = b.
Proof. by destruct b. Qed.

Definition room (x : pushpull) : Prop := buflen x <= 8 * Z.of_nat (length (buf x)) ∧ buflen x < 2 ^ 32 ∧ bytes (buf x).

Lemma set_bit_testbit byte j b i : 0 <= j → 0 <= i →
  Z.testbit (if b : bool then byte ||| (1 <<< j) else byte &&& ~~~ (1 <<< j)) i = if i =? j then b else Z.testbit byte i.
Proof.
  intros Hj Hi. rewrite Z.shiftl_1_l. destruct b.
  - rewrite Z.lor_spec, Z.pow2_bits_eqb by lia. rewrite (Z.eqb_sym j i). destruct (i =? j); [by rewrite orb_true_r|by rewrite orb_false_r].
  - rewrite Z.land_spec, Z.lnot_spec, Z.pow2_bits_eqb by lia. rewrite (Z.eqb_sym j i).
    destruct (i =? j); cbn; [by rewrite andb_false_r|by rewrite andb_true_r].
Qed.
Lemma set_bit_range byte j (b : bool) : 0 <= byte < 2 ^ 8 → 0 <= j < 8 →
  0 <= (if b then byte ||| (1 <<< j) else byte &&& ~~~ (1 <<< j)) < 2 ^ 8.
Proof.
  intros Hb Hj. destruct b; [|by apply land_range].
  apply lor_range; [lia|done|]. rewrite Z.shiftl_1_l. split; [lia|]. apply Z.pow_lt_mono_r; lia.
Qed.

(** One bit pushed: it is there, every other bit is as before. *)
Lemma pushbit_spec x bit (ur : bool) :
  room x → 0 <= ofs x → ofs x < u32 (buflen x - (if ur then 0 else reserve x)) → ofs x < buflen x →
  ∃ x', pushbit x (c_bool bit) ur = Some (0, x')
    ∧ ofs x' = ofs x + 1 ∧ buflen x' = buflen x ∧ reserve x' = reserve x ∧ room x'
    ∧ length (buf x') = length (buf x) ∧ bit_at (buf x') (ofs x) = c_bool bit
    ∧ ∀ i, 0 <= i → i ≠ ofs x → bit_at (buf x') i = bit_at (buf x) i.
Proof.
  intros (Hlen & Hmax & Hbytes) Hofs Hroom Hin. unfold pushbit.
  destruct (Z.leb_spec (u32 (buflen x - (if ur then 0 else reserve x))) (ofs x)); [lia|]. clear Hroom.
  rewrite shiftr_3, land_7, truthy_c_bool.
  assert (0 <= ofs x / 8 < Z.of_nat (length (buf x))) as Hi by (Z.to_euclidean_division_equations; lia).
  assert (0 <= ofs x mod 8 < 8) as Hm by (apply Z.mod_pos_bound; lia).
  destruct (aget_Some (buf x) (ofs x / 8) Hi) as [byte Hbyte]. rewrite Hbyte. cbn [mbind option_bind].
  pose proof (bytes_at _ _ _ Hbytes Hbyte) as Hb. rewrite aset_Some by done. cbn [mbind option_bind].
  set (byte' := if bit then _ else _). eexists. split; [done|]. cbn [ofs buflen reserve buf].
  split; [apply u32_small; lia|]. split; [done|]. split; [done|].
  assert (0 <= byte' < 2 ^ 8) as Hb' by (apply set_bit_range; lia).
  split. { unfold room. cbn [buf buflen]. split; [by rewrite length_insert|]. split; [done|]. by apply Forall_insert. }
  split; [by rewrite length_insert|].
  assert (∀ i, nth i (<[Z.to_nat (ofs x / 8):=byte']> (buf x)) 0 = if decide (i = Z.to_nat (ofs x / 8)) then byte' else nth i (buf x) 0) as Hnth.
  { intros i. rewrite !nth_lookup. destruct (decide (i = Z.to_nat (ofs x / 8))) as [->|Hne].
    - by rewrite list_lookup_insert_eq by lia.
    - by rewrite list_lookup_insert_ne by done. }
  split.
  - unfold bit_at. rewrite Hnth, decide_True by done. unfold byte'. rewrite set_bit_testbit by lia. by rewrite Z.eqb_refl.
  - intros i Hi0 Hne. unfold bit_at. rewrite Hnth. destruct (decide (Z.to_nat (i / 8) = Z.to_nat (ofs x / 8))) as [Heq|]; [|done].
    unfold byte'. assert (0 <= i mod 8 < 8) by (apply Z.mod_pos_bound; lia). rewrite set_bit_testbit by lia.
    destruct (Z.eqb_spec (7 - i mod 8) (7 - ofs x mod 8)).
    + exfalso. apply Hne. clear - Heq e Hi0 Hofs. Z.to_euclidean_division_equations. lia.
    + f_equal. f_equal. rewrite Heq. symmetry. by apply aget_nth.
Qed.

Lemma pullbit_spec x : 0 <= ofs x < 8 * Z.of_nat (length (buf x)) → ofs x + 1 < 2 ^ 32 →
  pullbit x = Some (bit_at (buf x) (ofs x), PP (buf x) (buflen x) (ofs x + 1) (reserve x)).
Proof.
  intros Hofs Hmax. unfold pullbit. rewrite shiftr_3, land_7.
  assert (0 <= ofs x mod 8 < 8) as Hm by (apply Z.mod_pos_bound; lia).
  destruct (aget_Some (buf x) (ofs x / 8)) as [byte Hbyte]; [Z.to_euclidean_division_equations; lia|].
  rewrite Hbyte. cbn [mbind option_bind]. rewrite u32_small by lia. f_equal. f_equal.
  unfold bit_at. rewrite (aget_nth _ _ _ 0 Hbyte).
  rewrite (Z.land_ones _ 1) by lia. rewrite Z.shiftr_div_pow2 by lia.
  change (c_bool (Z.testbit byte (7 - ofs x mod 8))) with (Z.b2z (Z.testbit byte (7 - ofs x mod 8))).
  by rewrite Z.testbit_spec' by lia.
Qed.
End Stream.

(** ** The interval *)

Section Interval.
Import PushPull Rubin.

Definition valid (p q : Z) : Prop := 1 <= p ∧ 0 <= q ∧ p + q <= 65536.
(** The first bit of the register. *)
Definition top (q : Z) : bool := 32768 <=? q.

Lemma one_half_valid p q : valid p q → one_half p q = (32768 <=? q) || (p + q <=? 32768).
Proof. intros (Hp & Hq & Hpq). unfold one_half. change UPPER_BIT_RUBIN with 32768. by rewrite u32_small by lia. Qed.
Lemma top_bit q : 0 <= q < 65536 → truthy (q &&& UPPER_BIT_RUBIN) = top q.
Proof.
  intros Hq. unfold UPPER_BIT_RUBIN. rewrite truthy_land_bit by lia. unfold top.
  rewrite Z.testbit_eqb by lia. change (2 ^ 15) with 32768.
  destruct (Z.leb_spec 32768 q), (Z.eqb_spec (q / 32768 mod 2) 1); try done; Z.to_euclidean_division_equations; lia.
Qed.
Lemma low_bits q : 0 <= q → u32 ((q &&& LOWER_BITS_RUBIN) <<< 1) = 2 * (q mod 32768).
Proof.
  intros Hq. change LOWER_BITS_RUBIN with (Z.ones 15). rewrite Z.land_ones, Z.shiftl_mul_pow2 by lia.
  change (2 ^ 15) with 32768. pose proof (Z.mod_pos_bound q 32768). rewrite u32_small; lia.
Qed.
Lemma top_mod q : 0 <= q < 65536 → q = c_bool (top q) * 32768 + q mod 32768.
Proof. intros Hq. unfold top, c_bool. destruct (Z.leb_spec 32768 q); Z.to_euclidean_division_equations; lia. Qed.
Lemma shift_valid p q : valid p q → one_half p q = true → valid (2 * p) (2 * (q mod 32768)).
Proof.
  intros Hv. rewrite one_half_valid by done. destruct Hv as (Hp & Hq & Hpq). rewrite orb_true_iff, !Z.leb_le. intros Hh.
  unfold valid. pose proof (Z.mod_pos_bound q 32768). destruct Hh; Z.to_euclidean_division_equations; lia.
Qed.

(** The bits shifted out of the register on the way from one interval to another, until the interval
    straddles the middle. *)
Inductive shifts : Z → Z → list bool → Z → Z → Prop :=
| shifts_stop p q : one_half p q = false → shifts p q [] p q
| shifts_more p q bl p' q' : one_half p q = true → shifts (2 * p) (2 * (q mod 32768)) bl p' q' → shifts p q (top q :: bl) p' q'.

Lemma shifts_exist n p q : valid p q → 65536 < p * 2 ^ Z.of_nat n →
  ∃ bl p' q', shifts p q bl p' q' ∧ (length bl < n)%nat ∧ valid p' q' ∧ one_half p' q' = false.
Proof.
  revert p q. induction n as [|n IH]; intros p q Hv Hn; [destruct Hv; lia|].
  destruct (one_half p q) eqn:Hh.
  - destruct (IH (2 * p) (2 * (q mod 32768))) as (bl & p' & q' & Hs & Hl & Hv' & Hh').
    + by apply shift_valid.
    + rewrite Nat2Z.inj_succ, Z.pow_succ_r in Hn by lia. lia.
    + exists (top q :: bl), p', q'. split; [by constructor|]. cbn [length]. split; [lia|done].
  - exists [], p, q. split; [by constructor|]. cbn. split; [lia|done].
Qed.

(** The first loop of [__do_decode] counts the bits the encoder pushed. *)
Lemma count_bits_shifts fuel p q bl p' q' n b : 
  valid p q → shifts p q (b :: bl) p' q' → (length bl < fuel)%nat → count_bits fuel p q n = Some (p', q', (n + S (length bl))%nat).
Proof.
  revert p q n b bl. induction fuel as [|fuel IH]; intros p q n b bl Hv Hs Hf; [lia|].
  inversion Hs as [|? ? ? ? ? Hh Hs']; subst. cbn [count_bits]. pose proof (shift_valid p q Hv Hh) as Hv'.
  rewrite low_bits by apply Hv. rewrite Z.shiftl_mul_pow2 by lia. change (2 ^ 1) with 2. rewrite (Z.mul_comm p 2).
  rewrite u32_small by (destruct Hv'; lia).
  destruct bl as [|b' bl].
  - inversion Hs' as [? ? Hh'|]; subst. rewrite Hh'. cbn [length]. f_equal. f_equal. lia.
  - inversion Hs' as [|? ? ? ? ? Hh' Hs'']; subst. rewrite Hh'. rewrite (IH _ _ _ (top (2 * (q mod 32768))) bl); [|done|done|cbn in Hf; lia].
    cbn [length]. f_equal. f_equal. lia.
Qed.
Lemma pull_bits_window n x k :
  let l := buf x in 0 <= k → ofs x = k + 16 → k + 16 + Z.of_nat n <= 8 * Z.of_nat (length l) → k + 16 + Z.of_nat n < 2 ^ 32 →
  pull_bits n (window l 16 k) x = Some (window l 16 (k + Z.of_nat n), PP l (buflen x) (ofs x + Z.of_nat n) (reserve x)).
Proof.
  intros l. revert x k l. induction n as [|n IH]; intros x k l Hk Hofs Hl Hmax.
  - cbn [pull_bits]. rewrite !Z.add_0_r. by destruct x.
  - cbn [pull_bits]. rewrite pullbit_spec by (unfold l in *; lia). cbn [mbind option_bind].
    rewrite low_bits by apply (window_range l 16). pose proof (window_range l 16 k) as Hw.
    destruct (window_shift l k) as [Hsh _]. change (2 ^ 15) with 32768 in Hsh. change (2 ^ Z.of_nat 16) with 65536 in Hw.
    rewrite Hofs. fold l. rewrite <- Hsh. rewrite u32_small by (pose proof (window_range l 16 (k + 1)); lia).
    pose proof (IH (PP l (buflen x) (k + 16 + 1) (reserve x)) (k + 1)) as IH'. cbn [buf buflen ofs reserve] in IH'.
    rewrite IH' by lia. do 3 f_equal; lia.
Qed.

(** Going back over shifted bits: a register inside the interval afterwards was inside before. *)
Lemma shifts_inside l k p q bl p' q' :
  valid p q → shifts p q bl p' q' → (∀ j b, bl !! j = Some b → bit_at l (k + Z.of_nat j) = c_bool b) →
  q' <= window l 16 (k + Z.of_nat (length bl)) < q' + p' → q <= window l 16 k < q + p.
Proof.
  intros Hv Hs. revert k Hv. induction Hs as [|p q bl p' q' Hh Hs IH]; intros k Hv Hbits Hin; [by rewrite Z.add_0_r in Hin|].
  assert (2 * (q mod 32768) <= window l 16 (k + 1) < 2 * (q mod 32768) + 2 * p) as Hw.
  { apply IH; [by apply shift_valid| |].
    - intros j b Hj. rewrite <- (Hbits (S j) b Hj). f_equal. lia.
    - replace (k + 1 + Z.of_nat (length bl)) with (k + Z.of_nat (length (top q :: bl))) by (cbn [length]; lia). done. }
  destruct (window_shift l k) as [Hsh Hfst]. change (2 ^ 15) with 32768 in *.
  assert (bit_at l k = c_bool (top q)) as Hb by (rewrite <- (Hbits 0%nat (top q) eq_refl); f_equal; lia). rewrite Hb in Hfst.
  pose proof (window_range l 15 (k + 1)) as Hr. change (2 ^ Z.of_nat 15) with 32768 in Hr.
  assert (window l 16 k mod 32768 = window l 15 (k + 1)) as Hm by (rewrite Hfst, Z.add_comm, Z.mod_add, Z.mod_small by lia; done).
  rewrite Hm in Hsh. pose proof (bit_at_range l (k + 16)). destruct Hv as (Hp & Hq & Hpq).
  pose proof (top_mod q ltac:(lia)) as Ht. rewrite Hfst. lia.
Qed.
End Interval.

(** ** One symbol *)

Section Coder.
Import PushPull Rubin.

Definition agrees (x : pushpull) (l : list Z) : Prop := ∀ i, 0 <= i < ofs x → bit_at l i = bit_at (buf x) i.
(** [y] is [x] with more bits pushed. *)
Definition extends (x y : pushpull) : Prop :=
  ofs x <= ofs y ∧ buflen y = buflen x ∧ reserve y = reserve x ∧ length (buf y) = length (buf x) ∧ agrees x (buf y).
(** The stream while symbols are coded: the reserve is untouched. *)
Definition wf (x : pushpull) : Prop := room x ∧ 0 <= ofs x <= buflen x - 32 ∧ reserve x = 32.
Definition same_model (rs rs' : rubin_state) : Prop := bit_divider rs' = bit_divider rs ∧ bits rs' = bits rs.

Lemma extends_refl x : extends x x.
Proof. split; [lia|]. do 3 (split; [done|]). by intros i Hi. Qed.
Lemma extends_trans x y z : extends x y → extends y z → extends x z.
Proof.
  intros (H1 & H2 & H3 & H4 & H5) (G1 & G2 & G3 & G4 & G5). split; [lia|]. split; [congruence|]. split; [congruence|].
  split; [congruence|]. intros i Hi. rewrite G5 by lia. by apply H5.
Qed.
Lemma agrees_extends x y l : extends x y → agrees y l → agrees x l.
Proof. intros (H1 & _ & _ & _ & H5) Ha i Hi. rewrite Ha by lia. by apply H5. Qed.

(** A bit pushed without the reserve. *)
Lemma push_wf x b : wf x →
  pushbit x (c_bool b) false = Some (- ENOSPC, x)
  ∨ ∃ x', pushbit x (c_bool b) false = Some (0, x') ∧ wf x' ∧ extends x x' ∧ ofs x' = ofs x + 1 ∧ bit_at (buf x') (ofs x) = c_bool b.
Proof.
  intros (Hroom & Hofs & Hres). destruct (decide (ofs x < buflen x - 32)) as [Hlt|Hge].
  - right. destruct (pushbit_spec x b false) as (x' & Hpush & Ho & Hbl & Hr & Hroom' & Hlen & Hb & Hother); [done|lia| |lia|].
    { rewrite Hres, u32_small; [lia|]. destruct Hroom as (_ & ? & _). lia. }
    exists x'. split; [done|]. split; [split; [done|]; split; [lia|congruence]|].
    split; [|done]. split; [lia|]. split; [done|]. split; [done|]. split; [done|]. intros i Hi. apply Hother; lia.
  - left. unfold pushbit. rewrite Hres, u32_small by (destruct Hroom as (_ & ? & _); lia).
    destruct (Z.leb_spec (buflen x - 32) (ofs x)); [done|lia].
Qed.

Lemma normalize_spec fuel rs :
  valid (p rs) (q rs) → wf (pp rs) → 65536 < p rs * 2 ^ Z.of_nat fuel →
  ∃ ret rs', normalize fuel rs = Some (ret, rs') ∧ extends (pp rs) (pp rs') ∧ wf (pp rs') ∧ same_model rs rs'
    ∧ (ret = 0 → ∃ bl, shifts (p rs) (q rs) bl (p rs') (q rs') ∧ (length bl < fuel)%nat ∧ ofs (pp rs') = ofs (pp rs) + Z.of_nat (length bl)
        ∧ (∀ j b, bl !! j = Some b → bit_at (buf (pp rs')) (ofs (pp rs) + Z.of_nat j) = c_bool b)
        ∧ valid (p rs') (q rs') ∧ one_half (p rs') (q rs') = false).
Proof.
  revert rs. induction fuel as [|fuel IH]; intros rs Hv Hwf Hf; cbn [normalize].
  { destruct Hv. lia. }
  destruct (one_half (p rs) (q rs)) eqn:Hh.
  2:{ exists 0, rs. split; [done|]. split; [apply extends_refl|]. split; [done|]. split; [done|].
      intros _. exists []. split; [by constructor|]. cbn [length]. split; [lia|]. split; [lia|]. split; [|done]. intros j b. by rewrite lookup_nil. }
  rewrite top_bit by (destruct Hv; lia).
  destruct (push_wf (pp rs) (top (q rs)) Hwf) as [->|(x & -> & Hx & Hext & Hofs & Hbit)]; cbn [mbind option_bind pp p q rec_q bit_number bit_divider bits].
  { change (truthy (- ENOSPC)) with true. do 2 eexists. split; [done|]. cbn [pp]. split; [apply extends_refl|]. split; [done|]. split; [done|]. done. }
  change (truthy 0) with false. cbv iota.
  rewrite low_bits, Z.shiftl_mul_pow2 by (lia || apply Hv). change (2 ^ 1) with 2. rewrite (Z.mul_comm (p rs) 2).
  pose proof (shift_valid _ _ Hv Hh) as Hv'. rewrite u32_small by (destruct Hv'; lia).
  destruct (IH (Rubin (2 * p rs) (2 * (q rs mod 32768)) (rec_q rs) (bit_number rs + 1) x (bit_divider rs) (bits rs)))
    as (ret & rs' & Hn & Hext' & Hwf' & Hm & Hok); [done|done| |].
  { cbn [p]. rewrite Nat2Z.inj_succ, Z.pow_succ_r in Hf by lia. lia. }
  cbn [pp] in Hext'. exists ret, rs'. split; [exact Hn|]. split; [by eapply extends_trans|]. split; [done|]. split; [done|].
  intros Hret. destruct (Hok Hret) as (bl & Hs & Hl & Ho & Hb & Hv'' & Hh''). cbn [p q pp] in *. exists (top (q rs) :: bl).
  split; [by constructor|]. cbn [length]. split; [lia|]. split; [lia|]. split; [|done].
  intros [|j] b Hj; cbn in Hj.
  - injection Hj as <-. rewrite Z.add_0_r, <- Hbit. destruct Hext' as (_ & _ & _ & _ & Ha). apply Ha. destruct Hwf as (_ & ? & _). lia.
  - rewrite <- (Hb j b Hj). f_equal. lia.
Qed.

Lemma straddles_two p q : valid p q → one_half p q = false → 2 <= p.
Proof.
  intros Hv. rewrite one_half_valid by done. rewrite orb_false_iff, !Z.leb_gt. destruct Hv. lia.
Qed.
Lemma split_at_range p A B : 2 <= p <= 65536 → 0 < A → 0 < B → A + B = 256 → 1 <= split_at p A B <= p - 1.
Proof.
  intros Hp HA HB Hs. unfold split_at. rewrite Hs. rewrite (u32_small 256), (u32_small (A * p)) by lia.
  assert (0 <= A * p / 256) by (apply Z.div_pos; lia). rewrite (u32_small (p - 1)) by lia.
  destruct (Z.leb_spec (A * p / 256) 0); zcases.
Qed.

(** The register lies in the interval. *)
Definition inside (l : list Z) (rs : rubin_state) : Prop :=
  q rs <= window l 16 (ofs (pp rs)) < q rs + p rs.
(** The decoder [d] over the finished buffer [l] is where the encoder [rs] was. *)
Definition tracks (rs : rubin_state) (l : list Z) (d : rubin_state) : Prop :=
  p d = p rs ∧ q d = q rs ∧ rec_q d = window l 16 (ofs (pp rs)) ∧ buf (pp d) = l ∧ ofs (pp d) = ofs (pp rs) + 16 ∧ same_model rs d.
(** Whatever is pushed later, the decoder step [dec] at [rs] answers [a] and ends at [rs']. *)
Definition decodes {A} (rs rs' : rubin_state) (dec : rubin_state → option (A * rubin_state)) (a : A) : Prop :=
  extends (pp rs) (pp rs') ∧ ∀ l, agrees (pp rs') l → ofs (pp rs') + 16 <= 8 * Z.of_nat (length l) → inside l rs' →
    inside l rs ∧ ∀ d, tracks rs l d → ∃ d', dec d = Some (a, d') ∧ tracks rs' l d'.

(** The decoder shifts as the encoder did. *)
Lemma catch_up rs r bl l d :
  valid (p rs) (q rs) → shifts (p rs) (q rs) bl (p r) (q r) → (length bl < 17)%nat →
  ofs (pp r) = ofs (pp rs) + Z.of_nat (length bl) → 0 <= ofs (pp rs) → ofs (pp r) + 16 < 2 ^ 32 →
  ofs (pp r) + 16 <= 8 * Z.of_nat (length l) → tracks rs l d →
  ∃ d', (if one_half (p d) (q d) then __do_decode d (p d) (q d) else Some d) = Some d' ∧ p d' = p r ∧ q d' = q r
    ∧ rec_q d' = window l 16 (ofs (pp r)) ∧ buf (pp d') = l ∧ ofs (pp d') = ofs (pp r) + 16
    ∧ bit_divider d' = bit_divider d ∧ bits d' = bits d.
Proof.
  intros Hv Hsh Hbl Hofs H0 Hmax Hl (Hdp & Hdq & Hdw & Hdb & Hdo & _).
  rewrite Hdp, Hdq. destruct bl as [|b bl].
  - inversion Hsh as [? ? Hst|]; subst. rewrite Hst. exists d. cbn [length] in Hofs. rewrite Z.add_0_r in Hofs.
    rewrite Hofs. split_and!; done || congruence.
  - assert (one_half (p rs) (q rs) = true) as -> by (inversion Hsh; done). unfold __do_decode.
    rewrite (count_bits_shifts _ _ _ bl (p r) (q r) 0 b) by (done || cbn [length] in Hbl; lia). cbn [mbind option_bind].
    rewrite Nat.add_0_l, Hdw, <- Hdb. pose proof (pull_bits_window (S (length bl)) (pp d) (ofs (pp rs))) as Hpull.
    cbn [length] in Hofs. rewrite Hdb in *. rewrite Hpull by (done || lia).
    cbn [mbind option_bind]. eexists. split; [done|]. cbn [p q rec_q pp bit_divider bits]. rewrite Hofs.
    split_and!; (done || cbn [ofs]; lia).
Qed.

Lemma encode_spec rs A B symbol :
  valid (p rs) (q rs) → wf (pp rs) → 0 < A → 0 < B → A + B = 256 → (symbol = 0 ∨ symbol = 1) →
  ∃ ret rs', encode rs A B symbol = Some (ret, rs') ∧ extends (pp rs) (pp rs') ∧ wf (pp rs') ∧ same_model rs rs'
    ∧ (ret = 0 → valid (p rs') (q rs') ∧ decodes rs rs' (λ d, decode d A B) symbol).
Proof.
  intros Hv Hwf HA HB Hs Hsym. unfold encode.
  destruct (normalize_spec 17 rs Hv Hwf) as (ret & r & -> & Hext & Hwf' & Hm & Hok); [destruct Hv; lia|]. cbn [mbind option_bind].
  destruct (truthy ret) eqn:Hret.
  { exists ret, r. do 4 (split; [done|]). intros ->. done. }
  apply truthy_false in Hret as ->.
  destruct (Hok eq_refl) as (bl & Hsh & Hbl & Hofs & Hbits & Hvr & Hh). clear Hok.
  pose proof (straddles_two _ _ Hvr Hh) as Hp2.
  pose proof (split_at_range (p r) A B ltac:(destruct Hvr; lia) HA HB Hs) as Hi0. set (i0 := split_at (p r) A B) in *.
  assert (∃ rs', Some (0, if symbol =? 0
             then Rubin i0 (q r) (rec_q r) (bit_number r) (pp r) (bit_divider r) (bits r)
             else Rubin (u32 (p r - i0)) (u32 (q r + i0)) (rec_q r) (bit_number r) (pp r) (bit_divider r) (bits r)) = Some (0, rs')
    ∧ pp rs' = pp r ∧ same_model rs rs' ∧ valid (p rs') (q rs')
    ∧ (symbol = 0 ∧ p rs' = i0 ∧ q rs' = q r ∨ symbol = 1 ∧ p rs' = p r - i0 ∧ q rs' = q r + i0)) as (rs' & -> & Hpp & Hm' & Hv' & Hcase).
  { eexists. split; [done|]. destruct Hvr as (? & ? & ?).
    destruct Hsym as [-> | ->]; cbn [Z.eqb p q pp bit_divider bits].
    - split; [done|]. split; [done|]. split; [unfold valid; lia|]. by left.
    - rewrite !u32_small by lia. split; [done|]. split; [done|]. split; [unfold valid; lia|]. by right. }
  exists 0, rs'. split; [done|]. rewrite Hpp. split; [done|]. split; [done|]. split; [done|]. intros _. split; [done|].
  split; [by rewrite Hpp|]. rewrite Hpp. intros l Hag Hroom Hin. unfold inside in Hin. rewrite Hpp in Hin.
  set (w := window l 16 (ofs (pp r))) in *.
  assert (q r <= w < q r + p r) as Hin' by (destruct Hcase as [(_ & -> & ->)|(_ & -> & ->)] in Hin; lia).
  assert (0 <= ofs (pp rs)) as Hofs0 by (destruct Hwf as (_ & ? & _); lia).
  assert (inside l rs) as Hins.
  { unfold inside. eapply (shifts_inside l _ _ _ bl); [done|exact Hsh| |by rewrite <- Hofs].
    intros j b Hj. rewrite <- (Hbits j b Hj). apply Hag. pose proof (lookup_lt_Some _ _ _ Hj). lia. }
  split; [done|]. intros d Htr. pose proof Htr as (_ & _ & _ & _ & _ & Hdd & Hdf).
  destruct (catch_up rs r bl l d) as (d' & Hd & Hp' & Hq' & Hw' & Hb' & Ho' & Hdiv' & Hfr');
    try (done || lia).
  { destruct Hwf' as ((? & ? & _) & ? & _). lia. }
  unfold decode. rewrite Hd. cbn [mbind option_bind]. rewrite Hp', Hq'. fold i0. destruct Hvr as (? & ? & ?).
  rewrite !u32_small by lia.
  destruct Hcase as [(-> & Hp'' & Hq'')|(-> & Hp'' & Hq'')]; rewrite Hp'', Hq'' in Hin;
    fold w in Hw'; rewrite Hw'; destruct (Z.leb_spec (q r + i0) w); try lia; eexists; (split; [done|]); unfold tracks, same_model in *;
    cbn [p q rec_q pp bit_divider bits]; rewrite Hpp, Hp'', Hq'', Ho', Hb'; destruct Hm', Hm; split_and!; done || congruence.
Qed.
End Coder.

(** ** Bytes and pages *)

Section Pages.
Import PushPull Rubin.

Definition freqs_ok (fs : list Z) : Prop := Forall (λ B, 1 <= B <= 255) fs.
(** A coder with the model of dynrubin. *)
Definition ready (rs : rubin_state) : Prop :=
  valid (p rs) (q rs) ∧ wf (pp rs) ∧ bit_divider rs = 256 ∧ freqs_ok (bits rs) ∧ length (bits rs) = 8%nat.

Lemma decodes_bind {A B} rs r rs' (dec : rubin_state → option (A * rubin_state)) (k : A → rubin_state → option (B * rubin_state)) a b :
  decodes rs r dec a → decodes r rs' (k a) b → decodes rs rs' (λ d, '(x, d) ← dec d; k x d) b.
Proof.
  intros [He1 H1] [He2 H2]. split; [by eapply extends_trans|]. intros l Hag Hl Hin.
  destruct (H2 l Hag Hl Hin) as [Hin2 Hk]. destruct (H1 l) as [Hin1 Hd]; [by eapply agrees_extends|destruct He2; lia|done|].
  split; [done|]. intros d Hd0. destruct (Hd d Hd0) as (d1 & -> & Hd1). destruct (Hk d1 Hd1) as (d2 & Hkd & Hd2).
  exists d2. by split.
Qed.
(** Decoder steps that agree where the encoder was. *)
Lemma decodes_ext {A} rs rs' (dec dec' : rubin_state → option (A * rubin_state)) a :
  (∀ l d, tracks rs l d → dec d = dec' d) → decodes rs rs' dec a → decodes rs rs' dec' a.
Proof.
  intros Hd [He H]. split; [done|]. intros l Hag Hl Hin. destruct (H l Hag Hl Hin) as [Hin' Hdec]. split; [done|].
  intros d Htr. rewrite <- (Hd l d Htr). by apply Hdec.
Qed.
Lemma same_model_trans r1 r2 r3 : same_model r1 r2 → same_model r2 r3 → same_model r1 r3.
Proof. intros [? ?] [? ?]. split; congruence. Qed.

Lemma bits_join r byte i (k : nat) : 0 <= byte → 0 <= i →
  r ||| ((byte &&& 1) <<< i) ||| (((byte >>> 1) mod 2 ^ Z.of_nat k) <<< (i + 1)) = r ||| ((byte mod 2 ^ Z.of_nat (S k)) <<< i).
Proof.
  intros Hb Hi. rewrite <- !Z.land_ones by lia. apply Z.bits_inj'. intros j Hj.
  rewrite !Z.lor_spec, !Z.shiftl_spec by lia.
  destruct (decide (j < i)).
  - assert (∀ a, Z.testbit a (j - i) = false ∧ Z.testbit a (j - (i + 1)) = false) as Hneg
      by (intros a; split; apply Z.testbit_neg_r; lia).
    by rewrite !(proj1 (Hneg _)), (proj2 (Hneg _)), !orb_false_r.
  - rewrite <- orb_assoc. f_equal. rewrite !Z.land_spec. destruct (decide (j = i)) as [->|].
    + rewrite (Z.testbit_neg_r _ (i - (i + 1))), Z.sub_diag by lia. rewrite andb_false_l, orb_false_r. f_equal.
      by rewrite Z.testbit_ones_nonneg by lia.
    + change 1 with (Z.ones 1) at 1. rewrite !Z.testbit_ones_nonneg, Z.shiftr_spec by lia.
      replace (j - (i + 1) + 1) with (j - i) by lia.
      replace (j - i <? 1) with false by zcases. rewrite andb_false_r, orb_false_l. f_equal.
      destruct (Z.ltb_spec (j - (i + 1)) (Z.of_nat k)), (Z.ltb_spec (j - i) (Z.of_nat (S k))); lia || done.
Qed.

Lemma out_bits_spec freqs rs byte :
  valid (p rs) (q rs) → wf (pp rs) → bit_divider rs = 256 → freqs_ok freqs → 0 <= byte →
  ∃ ret rs', out_bits rs freqs byte = Some (ret, rs') ∧ extends (pp rs) (pp rs') ∧ wf (pp rs') ∧ same_model rs rs'
    ∧ (ret = 0 → valid (p rs') (q rs')
        ∧ ∀ i r, 0 <= i → decodes rs rs' (λ d, in_bits d freqs i r) (r ||| ((byte mod 2 ^ Z.of_nat (length freqs)) <<< i))).
Proof.
  intros Hv Hwf Hdiv Hf. revert rs byte Hv Hwf Hdiv. induction Hf as [|B freqs HB Hf IH]; intros rs byte Hv Hwf Hdiv Hbyte; cbn [out_bits].
  - exists 0, rs. split; [done|]. split; [apply extends_refl|]. split; [done|]. split; [done|]. intros _. split; [done|].
    intros i r Hi. cbn [length]. change (2 ^ Z.of_nat 0) with 1. rewrite Z.mod_1_r, Z.shiftl_0_l, Z.lor_0_r.
    split; [apply extends_refl|]. intros l _ _ Hin. split; [done|]. intros d Hd. by exists d.
  - destruct (encode_spec rs (bit_divider rs - B) B (byte &&& 1)) as (ret & r1 & -> & Hext & Hwf1 & Hm & Hok); [done|done|lia..| |].
    { change (byte &&& 1) with (byte &&& Z.ones 1). rewrite Z.land_ones by lia. pose proof (Z.mod_pos_bound byte (2 ^ 1)). lia. }
    cbn [mbind option_bind]. destruct (truthy ret) eqn:Hret.
    { exists ret, r1. do 4 (split; [done|]). by intros ->. }
    apply truthy_false in Hret as ->. destruct (Hok eq_refl) as [Hv1 Hdec].
    destruct (IH r1 (byte >>> 1)) as (ret & rs' & -> & Hext' & Hwf' & Hm' & Hok'); [done|done|destruct Hm; congruence|by apply Z.shiftr_nonneg|].
    exists ret, rs'. split; [done|]. split; [by eapply extends_trans|]. split; [done|]. split; [by eapply same_model_trans|].
    intros Hr. destruct (Hok' Hr) as [Hv' Hdec']. split; [done|]. intros i r Hi.
    cbn [length]. rewrite <- bits_join by done. cbn [in_bits].
    apply (decodes_ext _ _ (λ d, '(x, d) ← decode d (bit_divider rs - B) B; in_bits d freqs (i + 1) (r ||| (x <<< i)))).
    { intros l d (_ & _ & _ & _ & _ & Hd & _). by rewrite Hd. }
    apply (decodes_bind _ _ _ _ (λ x d, in_bits d freqs (i + 1) (r ||| (x <<< i))) _ _ Hdec). apply Hdec'. lia.
Qed.

Lemma out_byte_spec rs byte :
  ready rs → 0 <= byte < 256 →
  ∃ ret rs', out_byte rs byte = Some (ret, rs') ∧ ready rs'
    ∧ (ret = 0 → decodes rs rs' in_byte byte) ∧ (ret ≠ 0 → decodes rs rs' (λ d, Some (tt, d)) tt).
Proof.
  intros (Hv & Hwf & Hdiv & Hf & Hlen) Hbyte. unfold out_byte.
  destruct (out_bits_spec (bits rs) rs byte) as (ret & r & -> & Hext & Hwf' & Hm & Hok); [done..|lia|]. cbn [mbind option_bind].
  pose proof Hm as [Hm1 Hm2]. pose proof Hext as (Ho & Hbl & Hres & Hl & Hag). destruct (truthy ret) eqn:Hret.
  - do 2 eexists. split; [done|]. split.
    { split; [done|]. split; [|done]. destruct Hwf as ((R1 & R2 & R3) & W1 & W2), Hwf' as ((R1' & R2' & R3') & W1' & W2').
      unfold wf, room, set_pp. cbn [pp buf buflen ofs reserve]. rewrite Hl. done. }
    split; [by intros ->|]. intros _. split; [split; [cbn; lia|]; split; [done|]; split; [done|]; by split|].
    intros l _ _ Hin. split; [exact Hin|]. intros d Hd. by exists d.
  - apply truthy_false in Hret as ->. destruct (Hok eq_refl) as [Hv' Hdec].
    exists 0, r. split; [done|]. split; [unfold ready; rewrite Hm1, Hm2; done|]. split; [|done]. intros _.
    specialize (Hdec 0 0 ltac:(lia)). rewrite Z.lor_0_l, Z.shiftl_0_r, Hlen, Z.mod_small in Hdec by (cbn; lia).
    apply (decodes_ext _ _ (λ d, in_bits d (bits rs) 0 0)); [|done].
    intros l d (_ & _ & _ & _ & _ & _ & Hd). unfold in_byte. by rewrite Hd.
Qed.

Lemma out_bytes_spec data pos rs :
  ready rs → bytes data →
  ∃ n rs', out_bytes data pos rs = Some (pos + Z.of_nat n, rs') ∧ (n ≤ length data)%nat ∧ ready rs' ∧ extends (pp rs) (pp rs')
    ∧ ∀ l, agrees (pp rs') l → ofs (pp rs') + 16 <= 8 * Z.of_nat (length l) → inside l rs' →
        inside l rs ∧ ∀ d, tracks rs l d → in_bytes n d = Some (take n data).
Proof.
  intros Hr Hb. revert pos rs Hr. induction Hb as [|b data Hb Hdata IH]; intros pos rs Hr; cbn [out_bytes].
  - exists 0%nat, rs. split; [by rewrite Z.add_0_r|]. split; [done|]. split; [done|]. split; [apply extends_refl|]. done.
  - destruct (out_byte_spec rs b Hr Hb) as (ret & r & -> & Hr' & Hok & Hno). cbn [mbind option_bind]. destruct (truthy ret) eqn:Hret.
    + apply truthy_spec in Hret. destruct (Hno Hret) as [Hext Hdec]. exists 0%nat, r. split; [by rewrite Z.add_0_r|].
      split; [lia|]. split; [done|]. split; [done|]. intros l Hag Hl Hin. destruct (Hdec l Hag Hl Hin) as [? _]. done.
    + apply truthy_false in Hret as ->. destruct (Hok eq_refl) as [Hext Hdec].
      destruct (IH (pos + 1) r Hr') as (n & rs' & -> & Hn & Hr'' & Hext' & Hall).
      exists (S n), rs'. split; [f_equal; f_equal; lia|]. split; [cbn; lia|]. split; [done|]. split; [by eapply extends_trans|].
      intros l Hag Hl Hin. destruct (Hall l Hag Hl Hin) as [Hin' Hbytes].
      destruct (Hdec l) as [Hin'' Hd]; [by eapply agrees_extends|destruct Hext'; lia|done|]. split; [done|].
      intros d Htr. destruct (Hd d Htr) as (d' & Hd' & Htr'). cbn [in_bytes take]. rewrite Hd'. cbn [mbind option_bind].
      by rewrite (Hbytes d' Htr').
Qed.

Lemma window_agrees x y k n : agrees x y → 0 <= n → n + Z.of_nat k <= ofs x → window y k n = window (buf x) k n.
Proof.
  intros Ha Hn Hk. induction k as [|k IH]; [done|]. cbn [window]. rewrite IH by lia. f_equal. apply Ha. lia.
Qed.
(** The end: the register itself is pushed, the reserve included. *)
Lemma end_loop_spec n rs :
  (n <= 16)%nat → room (pp rs) → 0 <= ofs (pp rs) → ofs (pp rs) + Z.of_nat n <= buflen (pp rs) → 0 <= q rs < 65536 →
  ∃ rs', end_loop n rs = Some rs' ∧ extends (pp rs) (pp rs') ∧ ofs (pp rs') = ofs (pp rs) + Z.of_nat n ∧ room (pp rs')
    ∧ window (buf (pp rs')) n (ofs (pp rs)) = q rs / 2 ^ (16 - Z.of_nat n).
Proof.
  revert rs. induction n as [|n IH]; intros rs Hn Hroom Hofs Hbl Hq; cbn [end_loop].
  - exists rs. split; [done|]. split; [apply extends_refl|]. split; [lia|]. split; [done|]. cbn [window].
    symmetry. apply Z.div_small. cbn. lia.
  - rewrite (Z.land_comm UPPER_BIT_RUBIN), top_bit by done.
    destruct (pushbit_spec (pp rs) (top (q rs)) true) as (x & -> & Hx & Hxb & Hxr & Hxroom & Hxl & Hbit & Hother); [done|done| |lia|].
    { rewrite Z.sub_0_r, u32_small; [lia|]. destruct Hroom as (_ & ? & _). lia. }
    cbn [mbind option_bind]. rewrite low_bits by lia. pose proof (Z.mod_pos_bound (q rs) 32768 ltac:(lia)).
    destruct (IH (Rubin (p rs) (2 * (q rs mod 32768)) (rec_q rs) (bit_number rs) x (bit_divider rs) (bits rs)))
      as (rs' & -> & Hext & Hofs' & Hroom' & Hwin); cbn [pp q] in *; [lia|done|lia|lia|lia|].
    exists rs'. split; [done|]. assert (extends (pp rs) x) as Hx'.
    { split; [lia|]. do 3 (split; [done|]). intros i Hi. apply Hother; lia. }
    split; [by eapply extends_trans|]. split; [lia|]. split; [done|].
    rewrite window_first, <- Hx, Hwin. destruct Hext as (_ & _ & _ & _ & Ha). rewrite Ha, Hbit by lia.
    rewrite (top_mod (q rs) Hq) at 3. set (m := q rs mod 32768) in *.
    assert (0 < 2 ^ (15 - Z.of_nat n)) as H2 by (apply Z.pow_pos_nonneg; lia).
    replace (16 - Z.of_nat n) with (1 + (15 - Z.of_nat n)) by lia. rewrite Z.pow_add_r, Z.div_mul_cancel_l by lia.
    replace (16 - Z.of_nat (S n)) with (15 - Z.of_nat n) by lia.
    replace 32768 with (2 ^ Z.of_nat n * 2 ^ (15 - Z.of_nat n)) by (rewrite <- Z.pow_add_r by lia; by replace (Z.of_nat n + (15 - Z.of_nat n)) with 15 by lia).
    by rewrite (Z.mul_assoc (c_bool (top (q rs)))), Z.div_add_l by lia.
Qed.

Lemma end_rubin_spec rs :
  room (pp rs) → 0 <= ofs (pp rs) → ofs (pp rs) + 16 <= buflen (pp rs) → 0 <= q rs < 65536 →
  ∃ rs', end_rubin rs = Some rs' ∧ extends (pp rs) (pp rs') ∧ ofs (pp rs') = ofs (pp rs) + 16 ∧ room (pp rs')
    ∧ window (buf (pp rs')) 16 (ofs (pp rs)) = q rs.
Proof.
  intros Hroom Hofs Hbl Hq. unfold end_rubin, RUBIN_REG_SIZE.
  destruct (end_loop_spec 16 rs (le_n 16) Hroom Hofs Hbl Hq) as (rs' & Hend & Hext & Ho & Hr & Hw).
  exists rs'. split; [exact Hend|]. split; [exact Hext|]. split; [exact Ho|]. split; [exact Hr|].
  rewrite Hw. apply Z.div_1_r.
Qed.

Lemma init_pull_spec n rs l :
  buf (pp rs) = l → rec_q rs = window l (16 - n) 0 → ofs (pp rs) = Z.of_nat (16 - n) → (n <= 16)%nat → 16 <= 8 * Z.of_nat (length l) →
  ∃ rs', init_pull n rs = Some rs' ∧ buf (pp rs') = l ∧ rec_q rs' = window l 16 0 ∧ ofs (pp rs') = 16
    ∧ p rs' = p rs ∧ q rs' = q rs ∧ same_model rs rs'.
Proof.
  revert rs. induction n as [|n IH]; intros rs Hb Hr Ho Hn Hl; cbn [init_pull]; [by exists rs|].
  rewrite pullbit_spec by (rewrite ?Hb; lia). cbn [mbind option_bind].
  destruct (IH (Rubin (p rs) (q rs) (u32 (rec_q rs * 2 + bit_at (buf (pp rs)) (ofs (pp rs)))) (bit_number rs + 1)
    (PP (buf (pp rs)) (buflen (pp rs)) (ofs (pp rs) + 1) (reserve (pp rs))) (bit_divider rs) (bits rs))) as (rs' & Hi & Hrest);
    cbn [pp rec_q buf ofs] in *; [done| |lia|lia|done|].
  - replace (16 - n)%nat with (S (16 - S n)) by lia. cbn [window]. rewrite Hr, Hb, Ho, Z.add_0_l.
    pose proof (window_range l (16 - S n) 0) as Hw. pose proof (bit_at_range l (Z.of_nat (16 - S n))).
    assert (2 ^ Z.of_nat (16 - S n) <= 2 ^ 16) by (apply Z.pow_le_mono_r; lia). rewrite u32_small by lia. lia.
  - exists rs'. split; [exact Hi|]. exact Hrest.
Qed.

Lemma agrees_take x (k : Z) : 0 <= ofs x <= 8 * k → agrees x (take (Z.to_nat k) (buf x)).
Proof.
  intros Hk i Hi. unfold bit_at. f_equal. f_equal. rewrite !nth_lookup. f_equal. apply lookup_take_lt.
  Z.to_euclidean_division_equations; lia.
Qed.
(** The decoder starts where the encoder did. *)
Lemma init_decode_spec l srclen freqs x : 16 <= 8 * Z.of_nat (length l) → ofs x = 0 →
  ∃ d, init_decode (PP l srclen 0 0) 256 freqs = Some d ∧ tracks (init_rubin x 0 256 freqs) l d.
Proof.
  intros Hl Hx. unfold init_decode.
  destruct (init_pull_spec 16 (init_rubin (PP l srclen 0 0) 0 256 freqs) l) as (d & Hi & Hdb & Hdr & Hdo & Hdp & Hdq & Hdd & Hdf); [done|done|done|done|lia|].
  unfold RUBIN_REG_SIZE. rewrite Hi. cbn [mbind option_bind]. eexists. split; [done|].
  unfold tracks, same_model. cbn [p q rec_q pp bit_divider bits init_rubin ofs]. rewrite Hx. split_and!; done.
Qed.

Lemma wf_init cpage_out dstlen : bytes cpage_out → dstlen <= Z.of_nat (length cpage_out) → 4 <= dstlen < 2 ^ 29 →
  wf (PP cpage_out (u32 (dstlen * 8)) 0 32).
Proof.
  intros Hb Hl Hd. assert (u32 (dstlen * 8) = dstlen * 8) as -> by (apply u32_small; lia).
  unfold wf, room. cbn [buf buflen ofs reserve]. split; [split; [lia|]; split; [lia|done]|]. split; [lia|done].
Qed.
Lemma valid_init : valid (2 * UPPER_BIT_RUBIN) 0.
Proof. vm_compute. split_and!; discriminate. Qed.
Lemma ready_init cpage_out dstlen freqs :
  freqs_ok freqs → length freqs = 8%nat → bytes cpage_out → dstlen <= Z.of_nat (length cpage_out) → 4 <= dstlen < 2 ^ 29 →
  ready (init_rubin (PP cpage_out (u32 (dstlen * 8)) 0 32) 0 256 freqs).
Proof.
  intros Hf Hf8 Hb Hl Hd. unfold ready, init_rubin. cbn [p q pp bit_divider bits].
  split; [exact valid_init|]. split; [by apply wf_init|]. split; [done|]. by split.
Qed.

(** The coder between its two ends: the bytes taken come out of the part of the buffer that was filled. *)
Lemma rubin_roundtrip freqs data cpage_out sourcelen dstlen :
  freqs_ok freqs → length freqs = 8%nat → bytes data → bytes cpage_out → 0 <= sourcelen →
  dstlen <= Z.of_nat (length cpage_out) → 4 <= dstlen < 2 ^ 29 →
  ∃ ret pos outpos out, rubin_do_compress 256 freqs data cpage_out sourcelen dstlen = Some (ret, pos, outpos, out)
    ∧ length out = length cpage_out ∧ bytes out
    ∧ (ret = -1 ∨ ret = 0 ∧ 0 <= outpos < pos ∧ pos <= Z.of_nat (length (take (Z.to_nat sourcelen) data)) ∧ outpos <= dstlen
        ∧ ∀ srclen, rubin_do_decompress 256 freqs (take (Z.to_nat outpos) out) srclen pos
                    = Some (take (Z.to_nat pos) (take (Z.to_nat sourcelen) data))).
Proof.
  intros Hf Hf8 Hb Hcb Hs Hcl Hd.
  destruct (out_bytes_spec (take (Z.to_nat sourcelen) data) 0 (init_rubin (PP cpage_out (u32 (dstlen * 8)) 0 32) 0 256 freqs))
    as (n & rs & Hout & Hn & Hr & Hext & Hall); [by apply ready_init|by apply Forall_take|].
  unfold rubin_do_compress. rewrite Hout, obind_some.
  destruct Hr as (Hv & (Hroom & Hofs & _) & _). 
  destruct (end_rubin_spec rs) as (re & Hend & Hexte & Hofse & Hroome & Hwin); [exact Hroom|lia|lia|destruct Hv; lia|].
  rewrite Hend, obind_some, Z.add_0_l. unfold pushedbits.
  pose proof (extends_trans _ _ _ Hext Hexte) as (_ & Hbl & _ & Hlen & _). cbn [init_rubin pp buf buflen] in Hbl, Hlen.
  rewrite u32_small in Hbl by lia. destruct Hroome as (Hre1 & _ & Hreb).
  set (outpos := (ofs (pp re) + 7) / 8). assert (ofs (pp re) <= 8 * outpos) as Hop by (unfold outpos; Z.to_euclidean_division_equations; lia).
  assert (0 <= outpos <= dstlen) as Hop'.
  { destruct Hexte as (_ & He & _). unfold outpos. rewrite He in Hbl. Z.to_euclidean_division_equations; lia. }
  destruct (Z.leb_spec (Z.of_nat n) outpos) as [|Hlt].
  { do 4 eexists. split; [done|]. split; [done|]. split; [done|]. by left. }
  do 4 eexists. split; [done|]. split; [done|]. split; [done|]. right. split; [done|]. split; [lia|]. split; [lia|]. split; [lia|].
  intros srclen. set (l := take (Z.to_nat outpos) (buf (pp re))).
  assert (agrees (pp re) l) as Hag by (apply agrees_take; lia).
  assert (Z.of_nat (length l) = outpos) as Hll by (unfold l; rewrite length_take; lia).
  assert (inside l rs) as Hin.
  { unfold inside. rewrite (window_agrees (pp re)) by (done || lia). rewrite Hwin. destruct Hv. lia. }
  destruct (Hall l) as [_ Hdec]; [by eapply agrees_extends|lia|done|].
  destruct (init_decode_spec l srclen freqs (PP cpage_out (u32 (dstlen * 8)) 0 32)) as (d & Hid & Htr); [lia|done|]. unfold rubin_do_decompress. rewrite Hid. cbn [mbind option_bind].
  rewrite !Nat2Z.id. apply Hdec. exact Htr.
Qed.

Lemma frequency_range count srclen : 0 < srclen → 1 <= frequency count srclen <= 255.
Proof.
  intros Hs. unfold frequency. assert (0 <= u32 (count * 256) / srclen) by (apply Z.div_pos; [apply u32_range|done]).
  destruct (Z.eqb_spec (u32 (count * 256) / srclen) 0); zcases.
Qed.
End Pages.

Lemma dynrubin_inverts data cpage_out sourcelen dstlen :
  Z.of_nat (length data) = sourcelen → 0 < sourcelen → bytes data → bytes cpage_out →
  dstlen <= Z.of_nat (length cpage_out) → dstlen < 2 ^ 29 →
  ∃ ret slen dlen out, Rubin.jffs2_dynrubin_compress data cpage_out sourcelen dstlen = Some (ret, slen, dlen, out)
    ∧ length out = length cpage_out ∧ bytes out
    ∧ (ret = -1 ∧ slen = sourcelen ∧ dlen = dstlen
       ∨ ret = 0 ∧ 0 < dlen < slen ∧ slen <= sourcelen ∧ dlen <= dstlen
         ∧ Rubin.jffs2_dynrubin_decompress (take (Z.to_nat dlen) out) dlen slen = Some (0, take (Z.to_nat slen) data)).
Proof.
  intros Hl Hs Hb Hcb Hcl Hd. unfold Rubin.jffs2_dynrubin_compress.
  destruct (Z.leb_spec dstlen 12).
  { do 4 eexists. split; [done|]. split; [done|]. split; [done|]. by left. }
  destruct (Z.eqb_spec sourcelen 0); [lia|].
  set (freqs := (λ j, Rubin.frequency _ sourcelen) <$> seq 0 8).
  assert (freqs_ok freqs) as Hf by (apply Forall_fmap, Forall_forall; intros j _; by apply frequency_range).
  assert (length freqs = 8%nat) as Hf8 by (unfold freqs; by rewrite length_fmap, length_seq).
  rewrite (u32_small (dstlen - 8)) by lia. generalize dependent freqs. intros freqs Hf Hf8.
  destruct (rubin_roundtrip freqs data (drop 8 cpage_out) sourcelen (dstlen - 8)) as (ret & pos & outpos & out & -> & Hol & Hob & Hcase);
    [done|done|done|by apply Forall_drop|lia|rewrite length_drop; lia|lia|]. rewrite obind_some. rewrite length_drop in Hol.
  assert (length (freqs ++ out) = length cpage_out) as Hlen by (rewrite length_app; lia).
  assert (bytes (freqs ++ out)) as Hbo by (apply Forall_app_2; [eapply Forall_impl; [exact Hf|]; cbn; lia|done]).
  destruct Hcase as [->|(-> & Hop & Hpos & Hdl & Hdec)]; cbn [truthy Z.eqb negb].
  { do 4 eexists. split; [done|]. split; [done|]. split; [done|]. by left. }
  destruct (Z.leb_spec pos (outpos + 8)).
  { do 4 eexists. split; [done|]. split; [done|]. split; [done|]. by left. }
  do 4 eexists. split; [done|]. split; [done|]. split; [done|]. right. split; [done|].
  rewrite firstn_all2 in Hpos by lia. split; [lia|]. split; [lia|]. split; [lia|].
  unfold Rubin.jffs2_dynrubin_decompress. replace (Z.to_nat (outpos + 8)) with (length freqs + Z.to_nat outpos)%nat by lia.
  rewrite take_app_add. destruct (Nat.ltb_spec (length (freqs ++ take (Z.to_nat outpos) out)) 8) as [Hlt|]; [rewrite length_app in Hlt; lia|].
  rewrite take_app_length', drop_app_length' by done. rewrite Hdec, obind_some. by rewrite (firstn_all2 data) by lia.
Qed.

(** [C27] dynrubin.  For every page and every output buffer the compressor ends inside the buffer;
    when it answers 0 the output is shorter than the part of the input it took, and the decompressor
    makes exactly that part out of it - whatever the frequencies were (the counters wrap at 256) and
    whatever the buffer held before.  Otherwise it answers -1 and leaves both lengths alone. *)
Theorem dynrubin_roundtrip data cpage_out sourcelen dstlen :
  Z.of_nat (length data) = sourcelen → 0 < sourcelen → bytes data → bytes cpage_out →
  dstlen <= Z.of_nat (length cpage_out) → dstlen < 2 ^ 29 →
  ∃ ret slen dlen out, Rubin.jffs2_dynrubin_compress data cpage_out sourcelen dstlen = Some (ret, slen, dlen, out)
    ∧ length out = length cpage_out ∧ bytes out
    ∧ (ret = -1 ∧ slen = sourcelen ∧ dlen = dstlen
       ∨ ret = 0 ∧ 0 < dlen < slen ∧ slen <= sourcelen ∧ dlen <= dstlen
         ∧ Rubin.jffs2_dynrubin_decompress (take (Z.to_nat dlen) out) dlen slen = Some (0, take (Z.to_nat slen) data)).
Proof. apply dynrubin_inverts. Qed.

Lemma dynrubin_roundtrip_witness :
  let data := replicate 20 65 ++ [66; 1; 3] in
  ∃ ret slen dlen out, Rubin.jffs2_dynrubin_compress data (replicate 30 170) 23 30 = Some (ret, slen, dlen, out)
    ∧ length out = 30%nat ∧ bytes out
    ∧ (ret = -1 ∧ slen = 23 ∧ dlen = 30
       ∨ ret = 0 ∧ 0 < dlen < slen ∧ slen <= 23 ∧ dlen <= 30
         ∧ Rubin.jffs2_dynrubin_decompress (take (Z.to_nat dlen) out) dlen slen = Some (0, take (Z.to_nat slen) data)).
Proof.
  intros data. apply (dynrubin_roundtrip data (replicate 30 170) 23 30); [reflexivity|lia| | |reflexivity|lia].
  - apply Forall_app_2; [apply Forall_replicate; lia|]. repeat (constructor; [lia|]). constructor.
  - apply Forall_replicate; lia.
Defined.
