(* ===== verification/Jffs2Compr.v ===== *)
(** * Jffs2Compr: the choice of a compressor (fs/jffs2/compr.c, compr.h)

    The registered compressors are a list in the order of their priority.  A compressor is a pair of
    functions with its bookkeeping; [Sound] is the contract they have with this file: what the
    compressor says it took comes out of the decompressor.  [kmalloc] is the kernel, a function of
    how many allocations came before; the spin lock guards the list against others and is left out. *)

From stdpp Require Import sorting.
From S2P Require Import Prelude Jffs2Rtime Jffs2Rubin.

Definition EIO := 5.
Definition JFFS2_COMPR_NONE := 0.
Definition JFFS2_COMPR_ZERO := 1.
Definition JFFS2_COMPR_RTIME := 2.
Definition JFFS2_COMPR_RUBINMIPS := 3.
Definition JFFS2_COMPR_DYNRUBIN := 5.
Definition JFFS2_COMPR_ZLIB := 6.

Module Compr.
(** [compress data buffer srclen dstlen]: the result, both lengths and the buffer afterwards;
    [decompress cdata cdatalen datalen]: the result and the data; [None] is a fault. *)
Record jffs2_compressor := Compressor {
  priority : Z; name : string; compr : Z;
  compress : option (list Z → list Z → Z → Z → option (Z * Z * Z * list Z));
  decompress : list Z → Z → Z → option (Z * list Z);
  usecount : Z; disabled : Z; compr_buf : option (list Z); compr_buf_size : Z;
  stat_compr_orig_size : Z; stat_compr_new_size : Z; stat_compr_blocks : Z; stat_decompr_blocks : Z }.

(** [jffs2_compression_mode]; any other number prints a message. *)
Definition JFFS2_COMPR_MODE_NONE := 0.
Definition JFFS2_COMPR_MODE_PRIORITY := 1.
Definition JFFS2_COMPR_MODE_SIZE := 2.

Record st := St {
  compressor_list : list jffs2_compressor; compression_mode : Z;
  none_stat_compr_blocks : Z; none_stat_decompr_blocks : Z; none_stat_compr_size : Z; allocations : nat }.
Definition set_list (s : st) l := St l (compression_mode s) (none_stat_compr_blocks s) (none_stat_decompr_blocks s) (none_stat_compr_size s) (allocations s).
Definition set_mode (s : st) m := St (compressor_list s) m (none_stat_compr_blocks s) (none_stat_decompr_blocks s) (none_stat_compr_size s) (allocations s).

Definition with_priority c p := Compressor p (name c) (compr c) (compress c) (decompress c) (usecount c) (disabled c)
  (compr_buf c) (compr_buf_size c) (stat_compr_orig_size c) (stat_compr_new_size c) (stat_compr_blocks c) (stat_decompr_blocks c).
Definition with_disabled c d := Compressor (priority c) (name c) (compr c) (compress c) (decompress c) (usecount c) d
  (compr_buf c) (compr_buf_size c) (stat_compr_orig_size c) (stat_compr_new_size c) (stat_compr_blocks c) (stat_decompr_blocks c).
Definition with_buf c b n := Compressor (priority c) (name c) (compr c) (compress c) (decompress c) (usecount c) (disabled c)
  b n (stat_compr_orig_size c) (stat_compr_new_size c) (stat_compr_blocks c) (stat_decompr_blocks c).
(** [stat_compr_blocks++] and the two sizes; [stat_decompr_blocks++]. *)
Definition count_compr c slen dlen := Compressor (priority c) (name c) (compr c) (compress c) (decompress c) (usecount c) (disabled c)
  (compr_buf c) (compr_buf_size c) (u32 (stat_compr_orig_size c + slen)) (u32 (stat_compr_new_size c + dlen))
  (u32 (stat_compr_blocks c + 1)) (stat_decompr_blocks c).
Definition count_decompr c := Compressor (priority c) (name c) (compr c) (compress c) (decompress c) (usecount c) (disabled c)
  (compr_buf c) (compr_buf_size c) (stat_compr_orig_size c) (stat_compr_new_size c) (stat_compr_blocks c) (u32 (stat_decompr_blocks c + 1)).

(** [jffs2_register_compressor] of a compressor that has a name: before the first of a lower priority. *)
Fixpoint insert_sorted (comp : jffs2_compressor) (l : list jffs2_compressor) : list jffs2_compressor :=
  match l with
  | [] => [comp]
  | this :: l => if priority this <? priority comp then comp :: this :: l else this :: insert_sorted comp l
  end.
Definition jffs2_register_compressor (s : st) (c : jffs2_compressor) : Z * st :=
  let comp := Compressor (priority c) (name c) (compr c) (compress c) (decompress c) 0 (disabled c) None 0 0 0 0 0 in
  (0, set_list s (insert_sorted comp (compressor_list s))).
(** The entry itself is deleted: here the first with its name. *)
Fixpoint list_del (n : string) (l : list jffs2_compressor) : list jffs2_compressor :=
  match l with
  | [] => []
  | this :: l => if bool_decide (name this = n) then l else this :: list_del n l
  end.
Definition jffs2_unregister_compressor (s : st) (c : jffs2_compressor) : Z * st :=
  if truthy (usecount c) then (-1, s) else (0, set_list s (list_del (name c) (compressor_list s))).

Definition jffs2_set_compression_mode_name (s : st) (n : string) : Z * st :=
  if bool_decide (n = "none") then (0, set_mode s JFFS2_COMPR_MODE_NONE)
  else if bool_decide (n = "priority") then (0, set_mode s JFFS2_COMPR_MODE_PRIORITY)
  else if bool_decide (n = "size") then (0, set_mode s JFFS2_COMPR_MODE_SIZE)
  else (1, s).
Fixpoint set_disabled (n : string) (d : Z) (l : list jffs2_compressor) : option (list jffs2_compressor) :=
  match l with
  | [] => None
  | this :: l => if bool_decide (name this = n) then Some (with_disabled this d :: l) else l ← set_disabled n d l; Some (this :: l)
  end.
Definition jffs2_compressor_Xable (s : st) (n : string) (d : Z) : Z * st :=
  match set_disabled n d (compressor_list s) with Some l => (0, set_list s l) | None => (1, s) end.
Definition jffs2_set_compressor_priority (s : st) (n : string) (p : Z) : Z * st :=
  match list_find (λ c, name c = n) (compressor_list s) with
  | None => (1, s)
  | Some (_, comp) => (0, set_list s (insert_sorted (with_priority comp p) (list_del n (compressor_list s))))
  end.

(** The loop of the mode by priority: the compressors in order into one buffer, until one answers 0.
    The answer: the identification, the buffer, [*datalen], [*cdatalen] and the list. *)
Fixpoint by_priority (l : list jffs2_compressor) (data output_buf : list Z) (orig_slen orig_dlen datalen cdatalen : Z) :
    option (Z * list Z * Z * Z * list jffs2_compressor) :=
  match l with
  | [] => Some (JFFS2_COMPR_NONE, output_buf, datalen, cdatalen, [])
  | this :: l =>
      let go_on output_buf datalen cdatalen :=
        '(ret, output_buf, datalen, cdatalen, l) ← by_priority l data output_buf orig_slen orig_dlen datalen cdatalen;
        Some (ret, output_buf, datalen, cdatalen, this :: l) in
      match compress this with
      | Some f =>
          if truthy (disabled this) then go_on output_buf datalen cdatalen
          else
            '(compr_ret, datalen, cdatalen, output_buf) ← f data output_buf orig_slen orig_dlen;
            if compr_ret =? 0
            then Some (compr this, output_buf, datalen, cdatalen, count_compr this datalen cdatalen :: l)
            else go_on output_buf datalen cdatalen
      | None => go_on output_buf datalen cdatalen
      end
  end.

Section Kernel.
Context (kmalloc : nat → Z → option (list Z)).

(** The buffer of a compressor: a smaller one is freed, a missing one allocated. *)
Definition own_buffer (this : jffs2_compressor) (orig_dlen : Z) (n : nat) : jffs2_compressor * nat :=
  let this := if (compr_buf_size this <? orig_dlen) && bool_decide (is_Some (compr_buf this)) then with_buf this None 0 else this in
  match compr_buf this with
  | Some _ => (this, n)
  | None =>
      match kmalloc n orig_dlen with
      | Some b => (with_buf this (Some b) orig_dlen, S n)
      | None => (this, S n)
      end
  end.
(** The loop of the mode by size over [l] from position [i] on; [best] is the position and the
    lengths of the best so far. *)
Fixpoint by_size (l : list jffs2_compressor) (i : nat) (data : list Z) (orig_slen orig_dlen datalen cdatalen : Z)
    (best : option nat) (best_slen best_dlen : Z) (n : nat) :
    option (option nat * Z * Z * Z * Z * nat * list jffs2_compressor) :=
  match l with
  | [] => Some (best, best_slen, best_dlen, datalen, cdatalen, n, [])
  | this :: l =>
      let go_on this datalen cdatalen best best_slen best_dlen n :=
        '(best, best_slen, best_dlen, datalen, cdatalen, n, l) ←
          by_size l (S i) data orig_slen orig_dlen datalen cdatalen best best_slen best_dlen n;
        Some (best, best_slen, best_dlen, datalen, cdatalen, n, this :: l) in
      match compress this with
      | Some f =>
          if truthy (disabled this) then go_on this datalen cdatalen best best_slen best_dlen n
          else
            let '(this, n) := own_buffer this orig_dlen n in
            match compr_buf this with
            | None => go_on this datalen cdatalen best best_slen best_dlen n
            | Some b =>
                '(compr_ret, datalen, cdatalen, b) ← f data b orig_slen orig_dlen;
                let this := with_buf this (Some b) (compr_buf_size this) in
                if (compr_ret =? 0) && ((best_dlen =? 0) || (cdatalen <? best_dlen))
                then go_on this datalen cdatalen (Some i) datalen cdatalen n
                else go_on this datalen cdatalen best best_slen best_dlen n
            end
      | None => go_on this datalen cdatalen best best_slen best_dlen n
      end
  end.

(** After the switch: without a compressor the data is stored as it is. *)
Definition finish (s : st) (ret : Z) (data output_buf : list Z) (datalen cdatalen : Z) : option (Z * list Z * Z * Z * st) :=
  if ret =? JFFS2_COMPR_NONE
  then Some (u16 ret, data, cdatalen, cdatalen,
         St (compressor_list s) (compression_mode s) (u32 (none_stat_compr_blocks s + 1)) (none_stat_decompr_blocks s)
            (u32 (none_stat_compr_size s + cdatalen)) (allocations s))
  else Some (u16 ret, output_buf, datalen, cdatalen, s).

(** The answer: the type, what [*cpage_out] points to, [*datalen] and [*cdatalen]. *)
Definition jffs2_compress (s : st) (data : list Z) (datalen cdatalen : Z) : option (Z * list Z * Z * Z * st) :=
  if compression_mode s =? JFFS2_COMPR_MODE_PRIORITY
  then
    let s' l := St l (compression_mode s) (none_stat_compr_blocks s) (none_stat_decompr_blocks s) (none_stat_compr_size s) (S (allocations s)) in
    match kmalloc (allocations s) cdatalen with
    | None => finish (s' (compressor_list s)) JFFS2_COMPR_NONE data [] datalen cdatalen
    | Some output_buf =>
        '(ret, output_buf, datalen, cdatalen, l) ← by_priority (compressor_list s) data output_buf datalen cdatalen datalen cdatalen;
        finish (s' l) ret data output_buf datalen cdatalen
    end
  else if compression_mode s =? JFFS2_COMPR_MODE_SIZE
  then
    '(best, best_slen, best_dlen, datalen, cdatalen, n, l) ←
      by_size (compressor_list s) 0 data datalen cdatalen datalen cdatalen None 0 0 (allocations s);
    let s' l := St l (compression_mode s) (none_stat_compr_blocks s) (none_stat_decompr_blocks s) (none_stat_compr_size s) n in
    if truthy best_dlen
    then
      i ← best;
      this ← l !! i;
      output_buf ← compr_buf this;
      finish (s' (<[i := count_compr (with_buf this None 0) best_slen best_dlen]> l)) (compr this) data output_buf best_slen best_dlen
    else finish (s' l) JFFS2_COMPR_NONE data [] datalen cdatalen
  else finish s JFFS2_COMPR_NONE data [] datalen cdatalen.
End Kernel.

Fixpoint by_type (l : list jffs2_compressor) (comprtype : Z) (cdata : list Z) (cdatalen datalen : Z) :
    option (Z * list Z * list jffs2_compressor) :=
  match l with
  | [] => Some (- EIO, [], [])
  | this :: l =>
      if comprtype =? compr this
      then
        '(ret, data) ← decompress this cdata cdatalen datalen;
        Some (ret, data, (if truthy ret then this else count_decompr this) :: l)
      else '(ret, data, l) ← by_type l comprtype cdata cdatalen datalen; Some (ret, data, this :: l)
  end.
(** The answer: the result, [data_out] and the state. *)
Definition jffs2_decompress (s : st) (comprtype : Z) (cdata : list Z) (cdatalen datalen : Z) : option (Z * list Z * st) :=
  let comprtype := if (comprtype &&& 255) <=? JFFS2_COMPR_ZLIB then comprtype &&& 255 else comprtype in
  let t := comprtype &&& 255 in
  if t =? JFFS2_COMPR_NONE
  then
    if datalen <=? Z.of_nat (length cdata)
    then Some (0, take (Z.to_nat datalen) cdata,
           St (compressor_list s) (compression_mode s) (none_stat_compr_blocks s) (u32 (none_stat_decompr_blocks s + 1))
              (none_stat_compr_size s) (allocations s))
    else None
  else if t =? JFFS2_COMPR_ZERO
  then Some (0, replicate (Z.to_nat datalen) 0, s)
  else
    '(ret, data, l) ← by_type (compressor_list s) comprtype cdata cdatalen datalen;
    Some (ret, data, set_list s l).

(** The compressors of this directory with their numbers.  The two rubin coders have each other's. *)
Definition into_buffer (f : list Z → Z → Z → option (Z * Z * Z * list Z)) (data buffer : list Z) (srclen dstlen : Z) :
    option (Z * Z * Z * list Z) :=
  '(ret, s, d, out) ← f data srclen dstlen; Some (ret, s, d, out ++ drop (length out) buffer).
Definition jffs2_rtime_comp : jffs2_compressor :=
  Compressor 50 "rtime" JFFS2_COMPR_RTIME (Some (into_buffer Rtime.jffs2_rtime_compress)) Rtime.jffs2_rtime_decompress 0 0 None 0 0 0 0 0.
Definition jffs2_rubinmips_comp : jffs2_compressor :=
  Compressor 10 "rubinmips" JFFS2_COMPR_DYNRUBIN None Rubin.jffs2_rubinmips_decompress 0 1 None 0 0 0 0 0.
Definition jffs2_dynrubin_comp : jffs2_compressor :=
  Compressor 20 "dynrubin" JFFS2_COMPR_RUBINMIPS (Some Rubin.jffs2_dynrubin_compress) Rubin.jffs2_dynrubin_decompress 0 1 None 0 0 0 0 0.
(** [jffs2_compressors_init] with rtime and rubin configured, in the default mode. *)
Definition jffs2_compressors_init : st :=
  let s := St [] JFFS2_COMPR_MODE_PRIORITY 0 0 0 0 in
  let s := snd (jffs2_register_compressor s jffs2_rtime_comp) in
  let s := snd (jffs2_register_compressor s jffs2_rubinmips_comp) in
  snd (jffs2_register_compressor s jffs2_dynrubin_comp).
End Compr.

(** ** The contract of a compressor *)

Section Contract.
Import Compr.

(** [least] is the smallest output the compressor can be given. *)
Class Sound (least : Z) (c : jffs2_compressor) : Prop :=
  sound f data buffer slen dlen :
    compress c = Some f → bytes data → bytes buffer → Z.of_nat (length data) = slen → slen <= 4096 →
    least <= dlen <= slen → 0 < dlen → dlen <= Z.of_nat (length buffer) →
    ∃ ret slen' dlen' buffer', f data buffer slen dlen = Some (ret, slen', dlen', buffer')
      ∧ length buffer' = length buffer ∧ bytes buffer'
      ∧ (ret ≠ 0 ∧ slen' = slen ∧ dlen' = dlen
         ∨ ret = 0 ∧ 0 < slen' <= slen ∧ 0 < dlen' <= dlen
           ∧ decompress c (take (Z.to_nat dlen') buffer') dlen' slen' = Some (0, take (Z.to_nat slen') data)).

#[export] Instance rtime_sound : Sound 2 jffs2_rtime_comp.
Proof.
  intros f data buffer slen dlen [= <-] Hd Hb Hl Hs Hdl Hpos Hbl.
  destruct (rtime_inverts data slen dlen) as (ret & slen' & dlen' & out & Hc & Hol & Hob & Hcase); [done|lia|done|lia|].
  unfold into_buffer. rewrite Hc, obind_some. do 4 eexists. split; [done|].
  split; [rewrite length_app, length_drop; lia|]. split; [apply Forall_app_2; [done|by apply Forall_drop]|].
  destruct Hcase as [(-> & -> & ->)|(-> & -> & Hlt & Hle & Hdec)]; [by left|right].
  split; [done|]. split; [lia|]. split; [lia|]. by rewrite Nat2Z.id, take_app_length.
Qed.
#[export] Instance rubinmips_sound least : Sound least jffs2_rubinmips_comp.
Proof. intros f data buffer slen dlen [=]. Qed.
#[export] Instance dynrubin_sound least : Sound least jffs2_dynrubin_comp.
Proof.
  intros f data buffer slen dlen [= <-] Hd Hb Hl Hs Hdl Hpos Hbl.
  destruct (dynrubin_inverts data buffer slen dlen) as (ret & slen' & dlen' & out & Hc & Hol & Hob & Hcase); [done|lia|done|done|lia|lia|].
  do 4 eexists. split; [exact Hc|]. split; [done|]. split; [done|].
  destruct Hcase as [(-> & -> & ->)|(-> & Hlt & Hle & Hle' & Hdec)]; [by left|right].
  split; [done|]. split; [lia|]. split; [lia|]. exact Hdec.
Qed.

(** The same code under other bookkeeping. *)
Definition same_code (c c' : jffs2_compressor) : Prop :=
  compr c' = compr c ∧ compress c' = compress c ∧ decompress c' = decompress c ∧ priority c' = priority c.
Lemma sound_same_code least c c' : same_code c c' → Sound least c → Sound least c'.
Proof. intros (_ & Hc & Hd & _) Hs f data buffer slen dlen. rewrite Hc, Hd. apply Hs. Qed.
Lemma same_code_refl c : same_code c c.
Proof. done. Qed.
Lemma same_codes_refl l : Forall2 same_code l l.
Proof. induction l; constructor; done. Qed.

Lemma same_code_sym c c' : same_code c c' → same_code c' c.
Proof. intros (A & B & C & E). by split_and!. Qed.
Lemma same_codes_sym l l' : Forall2 same_code l l' → Forall2 same_code l' l.
Proof. induction 1; constructor; [by apply same_code_sym|done]. Qed.
Lemma same_code_trans c1 c2 c3 : same_code c1 c2 → same_code c2 c3 → same_code c1 c3.
Proof. intros (A & B & C & E) (A' & B' & C' & E'). split_and!; congruence. Qed.
Lemma same_codes_trans l1 l2 l3 : Forall2 same_code l1 l2 → Forall2 same_code l2 l3 → Forall2 same_code l1 l3.
Proof.
  intros H. revert l3. induction H as [|c1 c2 l1 l2 Hc _ IH]; intros l3 H; inversion H; subst; constructor; [by eapply same_code_trans|by apply IH].
Qed.

Definition buffer_ok (c : jffs2_compressor) : Prop :=
  ∀ b, compr_buf c = Some b → bytes b ∧ compr_buf_size c = Z.of_nat (length b).
(** The order of the list: no compressor before one of higher priority. *)
Definition by_rank (a b : jffs2_compressor) : Prop := priority b <= priority a.
(** A list of compressors fit for use: sound, numbered apart from each other and from the stored
    forms, in the order of their priorities. *)
Record coherent (least : Z) (l : list jffs2_compressor) : Prop := {
  coherent_sound : Forall (Sound least) l;
  coherent_apart : NoDup (compr <$> l);
  coherent_numbers : Forall (λ c, 2 <= compr c < 128) l;
  coherent_sorted : StronglySorted by_rank l;
  coherent_buffers : Forall buffer_ok l }.

Lemma compr_same l l' : Forall2 same_code l l' → compr <$> l' = compr <$> l.
Proof. induction 1 as [|c c' l l' Hc _ IH]; cbn; [done|]. by rewrite IH, (proj1 Hc). Qed.
Lemma coherent_same least l l' : coherent least l → Forall2 same_code l l' → Forall buffer_ok l' → coherent least l'.
Proof.
  intros [Hs Ha Hn Hr _] H Hb. split; [| | | |done].
  - clear -Hs H. induction H as [|c c' l l' Hc _ IH]; [constructor|]. inversion Hs; subst. constructor; [by eapply sound_same_code|by apply IH].
  - by rewrite (compr_same _ _ H).
  - clear -Hn H. induction H as [|c c' l l' Hc _ IH]; [constructor|]. inversion Hn; subst. constructor; [by rewrite (proj1 Hc)|by apply IH].
  - clear -Hr H. induction H as [|c c' l l' Hc H IH]; [constructor|]. apply StronglySorted_inv in Hr as [Hr Hall]. constructor; [by apply IH|].
    clear -Hc Hall H. destruct Hc as (_ & _ & _ & Hp). induction H as [|d d' l l' (_ & _ & _ & Hd) _ IH]; [constructor|].
    apply Forall_cons in Hall as [Hcd Hall]. constructor; [unfold by_rank in *; lia|by apply IH].
Qed.

Lemma by_type_finds l l' this cdata cdatalen datalen data :
  Forall2 same_code l l' → NoDup (compr <$> l) → this ∈ l → decompress this cdata cdatalen datalen = Some (0, data) →
  ∃ l'', by_type l' (compr this) cdata cdatalen datalen = Some (0, data, l'') ∧ Forall2 same_code l' l''.
Proof.
  induction 1 as [|c c' l l' (Hc & _ & Hd & _) Hl IH]; intros Hnd Hin Hdec; [by apply elem_of_nil in Hin|].
  rewrite fmap_cons in Hnd. apply NoDup_cons in Hnd as [Hni Hnd]. cbn [by_type]. rewrite Hc.
  apply elem_of_cons in Hin as [->|Hin].
  - rewrite Z.eqb_refl, Hd, Hdec, obind_some. eexists. split; [done|]. constructor; [done|apply same_codes_refl].
  - destruct (Z.eqb_spec (compr this) (compr c)) as [He|].
    + exfalso. apply Hni. rewrite <- He. by apply list_elem_of_fmap_2.
    + destruct (IH Hnd Hin Hdec) as (l'' & -> & Hl''). rewrite obind_some. eexists. split; [done|]. by constructor.
Qed.
Lemma by_type_buffers l comprtype cdata cdatalen datalen ret data l' :
  by_type l comprtype cdata cdatalen datalen = Some (ret, data, l') → Forall buffer_ok l → Forall buffer_ok l'.
Proof.
  revert ret data l'. induction l as [|c l IH]; intros ret data l'; cbn [by_type]; [by intros [= <- <- <-]|].
  intros H [Hc Hl]%Forall_cons. destruct (comprtype =? compr c).
  - destruct (decompress c cdata cdatalen datalen) as [[r d]|]; [|done]. rewrite obind_some in H. injection H as <- <- <-.
    constructor; [|done]. by destruct (truthy r).
  - destruct (by_type l comprtype cdata cdatalen datalen) as [[[r d] l2]|]; [|done]. rewrite obind_some in H. injection H as <- <- <-.
    constructor; [done|]. by eapply IH.
Qed.
End Contract.

Section Choice.
Import Compr.
Context (kmalloc : nat → Z → option (list Z)).
(** What is allocated has the size asked for. *)
Context (kmalloc_size : ∀ n size b, kmalloc n size = Some b → Z.of_nat (length b) = size ∧ bytes b).
Context (least : Z) (data : list Z) (slen dlen : Z).
Context (Hdata : bytes data) (Hslen : Z.of_nat (length data) = slen) (Hpage : slen <= 4096)
  (Hdlen : least <= dlen <= slen) (Hpos : 0 < dlen).

(** A compressor's answer: [sl] bytes taken, [dl] bytes at the front of the buffer. *)
Definition answered (this : jffs2_compressor) (buffer : list Z) (sl dl : Z) : Prop :=
  0 < sl <= slen ∧ 0 < dl <= dlen ∧ dl <= Z.of_nat (length buffer) ∧ bytes buffer ∧ decompress this (take (Z.to_nat dl) buffer) dl sl = Some (0, take (Z.to_nat sl) data).

Lemma by_priority_answers l buffer :
  Forall (Sound least) l → bytes buffer → dlen <= Z.of_nat (length buffer) → Forall buffer_ok l →
  ∃ ret buffer' sl dl l', by_priority l data buffer slen dlen slen dlen = Some (ret, buffer', sl, dl, l')
    ∧ Forall2 same_code l l' ∧ Forall buffer_ok l'
    ∧ (ret = JFFS2_COMPR_NONE ∧ sl = slen ∧ dl = dlen ∨ ∃ this, this ∈ l ∧ ret = compr this ∧ answered this buffer' sl dl).
Proof.
  intros Hs. revert buffer. induction Hs as [|this l Hthis Hs IH]; intros buffer Hb Hbl Hok; cbn [by_priority].
  - do 5 eexists. split; [done|]. split; [constructor|]. split; [constructor|]. by left.
  - apply Forall_cons in Hok as [Hok Hoks].
    assert (∀ buffer', bytes buffer' → dlen <= Z.of_nat (length buffer') →
      ∃ ret buffer'' sl dl l', ('(ret, output_buf, datalen, cdatalen, l) ← by_priority l data buffer' slen dlen slen dlen;
          Some (ret, output_buf, datalen, cdatalen, this :: l)) = Some (ret, buffer'', sl, dl, l')
        ∧ Forall2 same_code (this :: l) l' ∧ Forall buffer_ok l'
        ∧ (ret = JFFS2_COMPR_NONE ∧ sl = slen ∧ dl = dlen
           ∨ ∃ this', this' ∈ this :: l ∧ ret = compr this' ∧ answered this' buffer'' sl dl)) as Hgo.
    { intros buffer' Hb' Hbl'. destruct (IH buffer' Hb' Hbl' Hoks) as (ret & b2 & sl & dl & l' & -> & Hsame & Hokl & Hcase).
      rewrite obind_some. do 5 eexists. split; [done|]. split; [by constructor|]. split; [by constructor|].
      destruct Hcase as [?|(t & Ht & ?)]; [by left|right]. exists t. split; [by constructor|done]. }
    destruct (compress this) as [f|] eqn:Hf; [|by apply Hgo]. destruct (truthy (disabled this)); [by apply Hgo|].
    destruct (Hthis f data buffer slen dlen Hf) as (ret & sl & dl & b2 & -> & Hlen & Hb2 & Hcase); [done..|lia|done|]. rewrite obind_some.
    destruct Hcase as [(Hret & -> & ->)|(-> & Hsl & Hdl & Hdec)].
    + destruct (Z.eqb_spec ret 0); [done|]. apply Hgo; [done|by rewrite Hlen].
    + do 5 eexists. split; [done|]. split; [constructor; [done|apply same_codes_refl]|].
      split; [constructor; [done|done]|]. right. exists this. split; [constructor|]. split; [done|]. split_and!; [lia..|done|done].
Qed.

Lemma own_buffer_ok this n : buffer_ok this →
  ∃ this' n', own_buffer kmalloc this dlen n = (this', n') ∧ same_code this this' ∧ buffer_ok this'
    ∧ ∀ b, compr_buf this' = Some b → bytes b ∧ dlen <= Z.of_nat (length b).
Proof.
  intros Hok. unfold own_buffer.
  set (t := if (compr_buf_size this <? dlen) && bool_decide (is_Some (compr_buf this)) then with_buf this None 0 else this).
  assert (same_code this t ∧ buffer_ok t ∧ (∀ b, compr_buf t = Some b → bytes b ∧ dlen <= Z.of_nat (length b))) as (Hs & Hb & Hl).
  { unfold t. destruct (Z.ltb_spec (compr_buf_size this) dlen); cbn [andb].
    - destruct (bool_decide_reflect (is_Some (compr_buf this))) as [|Hn]; [by split_and!|]. split; [done|]. split; [done|].
      intros b Hb. destruct Hn. by eexists.
    - split; [done|]. split; [done|]. intros b Hb. destruct (Hok b Hb) as [? Hsz]. split; [done|lia]. }
  destruct (compr_buf t) as [b|] eqn:Ht.
  { do 2 eexists. split; [done|]. split; [done|]. split; [done|]. rewrite Ht. exact Hl. }
  destruct (kmalloc n dlen) as [b|] eqn:Hk.
  - destruct (kmalloc_size n dlen b Hk) as [Hlen Hbytes]. do 2 eexists. split; [done|]. split; [done|].
    split; intros b' [= <-]; cbn; split; try done; lia.
  - do 2 eexists. split; [done|]. split; [done|]. split; [done|]. rewrite Ht. done.
Qed.

Lemma by_size_answers l i sl0 dl0 best bs bd n :
  Forall (Sound least) l → Forall buffer_ok l →
  ∃ best' bs' bd' sl dl n' l', by_size kmalloc l i data slen dlen sl0 dl0 best bs bd n = Some (best', bs', bd', sl, dl, n', l')
    ∧ Forall2 same_code l l' ∧ Forall buffer_ok l' ∧ (bd' = 0 → bd = 0 ∧ (sl0 = slen → dl0 = dlen → sl = slen ∧ dl = dlen))
    ∧ (best' = best ∧ bs' = bs ∧ bd' = bd
       ∨ ∃ k this this' b, best' = Some (i + k)%nat ∧ l !! k = Some this ∧ l' !! k = Some this' ∧ compr_buf this' = Some b ∧ answered this b bs' bd').
Proof.
  intros Hs. revert i sl0 dl0 best bs bd n. induction Hs as [|this l Hthis Hs IH]; intros i sl0 dl0 best bs bd n Hok; cbn [by_size].
  { do 7 eexists. split; [done|]. split; [constructor|]. split; [constructor|]. split; [done|]. by left. }
  apply Forall_cons in Hok as [Hok Hoks].
  assert (∀ t sl1 dl1 best1 bs1 bd1 n1, same_code this t → buffer_ok t → (bd1 = 0 → bd = 0 ∧ (sl0 = slen → dl0 = dlen → sl1 = slen ∧ dl1 = dlen)) →
    (best1 = best ∧ bs1 = bs ∧ bd1 = bd ∨ best1 = Some i ∧ ∃ b, compr_buf t = Some b ∧ answered this b bs1 bd1) →
    ∃ best' bs' bd' sl dl n' l', ('(best, best_slen, best_dlen, datalen, cdatalen, n, l) ←
          by_size kmalloc l (S i) data slen dlen sl1 dl1 best1 bs1 bd1 n1;
        Some (best, best_slen, best_dlen, datalen, cdatalen, n, t :: l)) = Some (best', bs', bd', sl, dl, n', l')
    ∧ Forall2 same_code (this :: l) l' ∧ Forall buffer_ok l' ∧ (bd' = 0 → bd = 0 ∧ (sl0 = slen → dl0 = dlen → sl = slen ∧ dl = dlen))
    ∧ (best' = best ∧ bs' = bs ∧ bd' = bd
       ∨ ∃ k this0 this' b, best' = Some (i + k)%nat ∧ (this :: l) !! k = Some this0 ∧ l' !! k = Some this' ∧ compr_buf this' = Some b ∧ answered this0 b bs' bd')) as Hgo.
  { intros t sl1 dl1 best1 bs1 bd1 n1 Ht Htok Hz Hbest.
    destruct (IH (S i) sl1 dl1 best1 bs1 bd1 n1 Hoks) as (best' & bs' & bd' & sl & dl & n' & l' & -> & Hsame & Hokl & Hz' & Hcase).
    rewrite obind_some. do 7 eexists. split; [done|]. split; [by constructor|]. split; [by constructor|].
    split. { intros H0. destruct (Hz' H0) as [H1 H2], (Hz (proj1 (Hz' H0))) as [H3 H4]. split; [done|]. intros A B. destruct (H4 A B). by apply H2. }
    destruct Hcase as [(-> & -> & ->)|(k & t0 & t' & b & -> & Hk & Hk' & Hb & Ha)].
    - destruct Hbest as [?|(-> & b & Hb & Ha)]; [by left|right]. exists 0%nat, this, t, b. rewrite Nat.add_0_r. done.
    - right. exists (S k), t0, t', b. split; [f_equal; lia|]. done. }
  destruct (compress this) as [f|] eqn:Hf; [|by apply Hgo; [| | |left]]. destruct (truthy (disabled this)); [by apply Hgo; [| | |left]|].
  destruct (own_buffer_ok this n Hok) as (t & n1 & -> & Ht & Htok & Htb).
  destruct (compr_buf t) as [b|] eqn:Hb; [|by apply Hgo; [| | |left]]. destruct (Htb b eq_refl) as [Hbb Hbl].
  destruct (Hthis f data b slen dlen Hf) as (ret & sl & dl & b2 & -> & Hlen & Hb2 & Hcase); [done..|]. rewrite obind_some.
  assert (same_code this (with_buf t (Some b2) (compr_buf_size t)) ∧ buffer_ok (with_buf t (Some b2) (compr_buf_size t))) as [Hs2 Ho2].
  { split; [done|]. intros b' [= <-]. split; [done|]. cbn. rewrite (proj2 (Htok b Hb)), Hlen. done. }
  destruct Hcase as [(Hret & -> & ->)|(-> & Hsl & Hdl & Hdec)].
  - destruct (Z.eqb_spec ret 0); [done|]. cbn [andb]. apply Hgo; [done..|by left].
  - cbn [Z.eqb andb]. destruct ((bd =? 0) || (dl <? bd)) eqn:Hbetter.
    + apply Hgo; [done|done|lia|]. right. split; [done|]. exists b2. split; [done|]. split_and!; [lia..|done|done].
    + apply orb_false_iff in Hbetter as [Hbd _]. apply Z.eqb_neq in Hbd. apply Hgo; [done|done|lia|by left].
Qed.

(** What both ends of [jffs2_compress] owe the decompressor: the part comes back in every state of the
    list in which the same compressors are registered. *)
Definition recoverable (l : list jffs2_compressor) (r : option (Z * list Z * Z * Z * st)) : Prop :=
  ∃ ret out sl dl s', r = Some (ret, out, sl, dl, s') ∧ 0 < sl <= slen ∧ 0 < dl <= dlen
    ∧ (0 <= ret < 128 ∧ dl <= Z.of_nat (length out) ∧ bytes out ∧ (ret = JFFS2_COMPR_NONE → take (Z.to_nat dl) out = take (Z.to_nat sl) data) ∧ ret ≠ JFFS2_COMPR_ZERO)
    ∧ Forall2 same_code l (compressor_list s') ∧ Forall buffer_ok (compressor_list s')
    ∧ ∀ t, Forall2 same_code l (compressor_list t) → Forall buffer_ok (compressor_list t) →
        ∃ t', jffs2_decompress t ret (take (Z.to_nat dl) out) dl sl = Some (0, take (Z.to_nat sl) data, t')
          ∧ Forall2 same_code l (compressor_list t') ∧ Forall buffer_ok (compressor_list t').

Lemma finish_none l s output_buf :
  Forall2 same_code l (compressor_list s) → Forall buffer_ok (compressor_list s) →
  recoverable l (finish s JFFS2_COMPR_NONE data output_buf slen dlen).
Proof.
  intros Hl Hb. do 5 eexists. split; [done|]. split; [lia|]. split; [lia|]. split; [split_and!; [done..|lia|done|done|done]|].
  split; [done|]. split; [done|]. intros t Ht Htb.
  unfold jffs2_decompress. cbn [u16 Z.modulo]. eexists. change (u16 JFFS2_COMPR_NONE) with 0.
  change ((0 &&& 255) <=? JFFS2_COMPR_ZLIB) with true. cbv iota. change ((0 &&& 255) &&& 255 =? JFFS2_COMPR_NONE) with true. cbv iota.
  destruct (Z.leb_spec dlen (Z.of_nat (length (take (Z.to_nat dlen) data)))) as [|Hlt].
  - split; [by rewrite take_take, Nat.min_id|done].
  - exfalso. rewrite length_take in Hlt. lia.
Qed.
Lemma finish_answered s l this output_buf sl dl :
  coherent least l → Forall2 same_code l (compressor_list s) → Forall buffer_ok (compressor_list s) → this ∈ l →
  answered this output_buf sl dl → recoverable l (finish s (compr this) data output_buf sl dl).
Proof.
  intros [_ Hnd Hnum _ _] Hsame Hok Hin (Hsl & Hdl & Hlen & Hb & Hdec).
  rewrite Forall_forall in Hnum. pose proof (Hnum this Hin) as Hn.
  unfold finish. destruct (Z.eqb_spec (compr this) JFFS2_COMPR_NONE) as [H0|]; [unfold JFFS2_COMPR_NONE in H0; lia|].
  assert (u16 (compr this) = compr this) as Hu by (apply Z.mod_small; lia).
  do 5 eexists. split; [done|]. split; [done|]. split; [done|].
  split; [rewrite Hu; split_and!; [lia..|done|done|unfold JFFS2_COMPR_ZERO; lia]|]. split; [done|]. split; [done|]. intros t Ht Htb. rewrite Hu.
  destruct (by_type_finds l (compressor_list t) this _ _ _ _ Ht Hnd Hin Hdec) as (l2 & Hty & Hs2).
  assert (compr this &&& 255 = compr this) as Hmask by (change 255 with (Z.ones 8); rewrite Z.land_ones by lia; apply Z.mod_small; lia).
  unfold jffs2_decompress. rewrite Hmask. replace (if compr this <=? JFFS2_COMPR_ZLIB then compr this else compr this) with (compr this) by (by destruct (_ <=? _)).
  rewrite Hmask. destruct (Z.eqb_spec (compr this) JFFS2_COMPR_NONE) as [H0|]; [done|].
  destruct (Z.eqb_spec (compr this) JFFS2_COMPR_ZERO) as [H1|]; [unfold JFFS2_COMPR_ZERO in H1; lia|].
  rewrite Hty, obind_some. eexists. split; [done|]. cbn [compressor_list set_list].
  split; [by eapply same_codes_trans|by eapply by_type_buffers].
Qed.

Lemma compress_recoverable s : coherent least (compressor_list s) → recoverable (compressor_list s) (jffs2_compress kmalloc s data slen dlen).
Proof.
  intros Hco. unfold jffs2_compress.
  destruct (compression_mode s =? JFFS2_COMPR_MODE_PRIORITY).
  - destruct (kmalloc (allocations s) dlen) as [b|] eqn:Hk; [|apply finish_none; [apply same_codes_refl|apply Hco]]. destruct (kmalloc_size _ _ _ Hk) as [Hlen Hb].
    destruct (by_priority_answers (compressor_list s) b) as (ret & buffer' & sl & dl & l' & -> & Hsame & Hok & Hcase);
      [apply Hco|done|lia|apply Hco|]. rewrite obind_some.
    destruct Hcase as [(-> & -> & ->)|(this & Hin & -> & Ha)]; [by apply finish_none|by apply finish_answered].
  - destruct (compression_mode s =? JFFS2_COMPR_MODE_SIZE); [|apply finish_none; [apply same_codes_refl|apply Hco]].
    destruct (by_size_answers (compressor_list s) 0 slen dlen None 0 0 (allocations s)) as (best & bs & bd & sl & dl & n & l' & -> & Hsame & Hok & Hz & Hcase);
      [apply Hco|apply Hco|]. rewrite obind_some. destruct (truthy bd) eqn:Hbd.
    + destruct Hcase as [(_ & _ & ->)|(k & t & t' & b & -> & Hk & Hk' & Hb & Ha)]; [done|].
      rewrite Nat.add_0_l, obind_some, Hk', obind_some, Hb, obind_some.
      pose proof (Forall2_lookup_lr _ _ _ _ _ _ Hsame Hk Hk') as (Hct & _). rewrite Hct.
      apply finish_answered; cbn [compressor_list]; [done| | |by eapply list_elem_of_lookup_2|done].
      * rewrite <- (list_insert_id (compressor_list s) k t Hk). apply Forall2_insert; [done|].
        exact (Forall2_lookup_lr _ _ _ _ _ _ Hsame Hk Hk').
      * apply Forall_insert; [done|]. intros b' [=].
    + apply truthy_false in Hbd. destruct (Hz Hbd) as [_ Hlens]. destruct (Hlens eq_refl eq_refl) as [-> ->]. by apply finish_none.
Qed.

(** [C25] jffs2_compress and jffs2_decompress.  Whatever compressors are registered (sound, with
    numbers of their own), in every mode, whatever allocations fail: from at most a page of data and a buffer
    no larger than the data and no smaller than the compressors can be given (two bytes for rtime)
    jffs2_compress takes a non-empty part, fits it into the buffer, and jffs2_decompress by the type it
    answered makes exactly that part out of it again; the list stays fit for use.  (With a buffer larger
    than the data and no compressor the code stores the size of the buffer, compr.c:156.) *)
Theorem jffs2_compress_roundtrip s :
  coherent least (compressor_list s) →
  ∃ ret out sl dl s', jffs2_compress kmalloc s data slen dlen = Some (ret, out, sl, dl, s')
    ∧ 0 < sl <= slen ∧ 0 < dl <= dlen ∧ coherent least (compressor_list s')
    ∧ ∃ s'', jffs2_decompress s' ret (take (Z.to_nat dl) out) dl sl = Some (0, take (Z.to_nat sl) data, s'')
        ∧ coherent least (compressor_list s'').
Proof.
  intros Hco. destruct (compress_recoverable s Hco) as (ret & out & sl & dl & s' & -> & Hsl & Hdl & _ & Hs & Hb & Hdec).
  do 5 eexists. split; [done|]. split; [done|]. split; [done|]. split; [by apply (coherent_same _ _ _ Hco)|].
  destruct (Hdec s' Hs Hb) as (t & Ht & Hts & Htb). exists t. split; [done|by apply (coherent_same _ _ _ Hco)].
Qed.
End Choice.

(** ** The registry *)

Section Registry.
Import Compr.
Context (least : Z).

(** The calls of the file that change the list, by what they are asked. *)
Inductive request :=
| Register (c : jffs2_compressor) | Unregister (c : jffs2_compressor) | Enable (n : string) | Disable (n : string)
| Set_priority (n : string) (p : Z) | Set_mode (n : string).
Definition serve (s : st) (r : request) : Z * st :=
  match r with
  | Register c => jffs2_register_compressor s c
  | Unregister c => jffs2_unregister_compressor s c
  | Enable n => jffs2_compressor_Xable s n 0
  | Disable n => jffs2_compressor_Xable s n 1
  | Set_priority n p => jffs2_set_compressor_priority s n p
  | Set_mode n => jffs2_set_compression_mode_name s n
  end.
(** What a module that registers a compressor has to see to. *)
Definition acceptable (s : st) (r : request) : Prop :=
  match r with
  | Register c => Sound least c ∧ 2 <= compr c < 128 ∧ compr c ∉ compr <$> compressor_list s
  | _ => True
  end.

Lemma insert_sorted_perm c l : insert_sorted c l ≡ₚ c :: l.
Proof.
  induction l as [|d l IH]; cbn; [done|]. destruct (priority d <? priority c); [done|]. rewrite IH. constructor.
Qed.
Lemma insert_sorted_sorted c l : StronglySorted by_rank l → StronglySorted by_rank (insert_sorted c l).
Proof.
  induction 1 as [|d l Hs IH Hd]; cbn; [by repeat constructor|]. destruct (Z.ltb_spec (priority d) (priority c)).
  - constructor; [by constructor|]. constructor; [unfold by_rank; lia|]. eapply Forall_impl; [exact Hd|]. unfold by_rank. lia.
  - constructor; [done|]. rewrite insert_sorted_perm. by constructor.
Qed.
Lemma coherent_perm l l' : coherent least l → l' ≡ₚ l → StronglySorted by_rank l' → coherent least l'.
Proof. intros [Hs Hn Hr _ Hb] Hp Hsort. split; [by rewrite Hp..|done|by rewrite Hp]. Qed.
Lemma coherent_insert c l :
  coherent least l → Sound least c → buffer_ok c → 2 <= compr c < 128 → compr c ∉ compr <$> l → coherent least (insert_sorted c l).
Proof.
  intros [Hs Hn Hr Hsort Hb] Hc Hok Hnum Hnew. pose proof (insert_sorted_perm c l) as Hp.
  split; [rewrite Hp; by constructor|rewrite Hp; by constructor|rewrite Hp; by constructor|by apply insert_sorted_sorted|rewrite Hp; by constructor].
Qed.
Lemma list_del_sublist n l : list_del n l `sublist_of` l.
Proof. induction l as [|c l IH]; cbn; [done|]. destruct (bool_decide (name c = n)); [by apply sublist_cons|by apply sublist_skip]. Qed.
Lemma sublist_forall (P : jffs2_compressor → Prop) l l' : l' `sublist_of` l → Forall P l → Forall P l'.
Proof.
  induction 1 as [|c l' l _ IH|c l' l _ IH]; [done| |]; intros [Hc Hl]%Forall_cons; [|by apply IH].
  constructor; [done|by apply IH].
Qed.
Lemma coherent_sublist l l' : coherent least l → l' `sublist_of` l → coherent least l'.
Proof.
  intros [Hs Hn Hr Hsort Hb] Hsub. split; [by eapply sublist_forall| |by eapply sublist_forall| |by eapply sublist_forall].
  - eapply sublist_NoDup; [exact Hn|]. clear -Hsub. induction Hsub; cbn; by constructor.
  - clear -Hsort Hsub. induction Hsub as [|c l' l Hsub IH|c l' l Hsub IH]; [done| |]; apply StronglySorted_inv in Hsort as [Hsort Hall].
    + constructor; [by apply IH|by eapply sublist_forall].
    + by apply IH.
Qed.
(** The entry found by its name, and the list without it. *)
Lemma list_del_found n l i c : list_find (λ c, name c = n) l = Some (i, c) → l ≡ₚ c :: list_del n l.
Proof.
  revert i. induction l as [|d l IH]; intros i; cbn; [done|]. destruct (decide (name d = n)) as [Hd|Hd].
  - intros [= _ <-]. by rewrite bool_decide_eq_true_2.
  - destruct (list_find _ l) as [[j e]|] eqn:He; [|done]. intros [= _ <-]. rewrite bool_decide_eq_false_2 by done.
    etransitivity; [constructor; exact (IH j eq_refl)|constructor].
Qed.
Lemma set_disabled_same n d l l' : set_disabled n d l = Some l' → Forall buffer_ok l → Forall2 same_code l l' ∧ Forall buffer_ok l'.
Proof.
  revert l'. induction l as [|c l IH]; intros l'; cbn; [done|]. destruct (bool_decide (name c = n)).
  - intros [= <-] [Hc Hl]%Forall_cons. split; [constructor; [done|apply same_codes_refl]|by constructor].
  - destruct (set_disabled n d l) as [l2|] eqn:H2; [|done]. intros [= <-] [Hc Hl]%Forall_cons.
    destruct (IH l2 eq_refl Hl). split; by constructor.
Qed.

Lemma serve_coherent s r : coherent least (compressor_list s) → acceptable s r → coherent least (compressor_list (serve s r).2).
Proof.
  intros Hco Ha. destruct r as [c|c|n|n|n p|n]; cbn [serve].
  - destruct Ha as (Hs & Hn & Hnew). apply coherent_insert; [done|exact Hs|intros b [=]|done|done].
  - unfold jffs2_unregister_compressor. destruct (truthy (usecount c)); [done|]. eapply coherent_sublist; [done|apply list_del_sublist].
  - unfold jffs2_compressor_Xable. destruct (set_disabled n 0 (compressor_list s)) as [l|] eqn:Hd; [|done].
    destruct (set_disabled_same _ _ _ _ Hd (coherent_buffers _ _ Hco)). by apply (coherent_same _ _ _ Hco).
  - unfold jffs2_compressor_Xable. destruct (set_disabled n 1 (compressor_list s)) as [l|] eqn:Hd; [|done].
    destruct (set_disabled_same _ _ _ _ Hd (coherent_buffers _ _ Hco)). by apply (coherent_same _ _ _ Hco).
  - unfold jffs2_set_compressor_priority. destruct (list_find _ _) as [[i c]|] eqn:Hf; [|done].
    pose proof (list_del_found _ _ _ _ Hf) as Hp.
    pose proof (coherent_sublist _ _ Hco (list_del_sublist n (compressor_list s))) as Hdel.
    destruct Hco as [Hs Hn Hr _ Hb]. rewrite Hp in Hs, Hn, Hr, Hb. apply Forall_cons in Hs as [Hsc _], Hr as [Hrc _], Hb as [Hbc _].
    cbn [fmap list_fmap] in Hn. apply NoDup_cons in Hn as [Hni _]. by apply coherent_insert.
  - unfold jffs2_set_compression_mode_name. repeat case_bool_decide; done.
Qed.

Definition serve_all (s : st) (reqs : list request) : st := foldl (λ s r, (serve s r).2) s reqs.
Lemma serve_all_coherent reqs s :
  coherent least (compressor_list s) → (∀ k r, reqs !! k = Some r → acceptable (serve_all s (take k reqs)) r) →
  coherent least (compressor_list (serve_all s reqs)).
Proof.
  revert s. induction reqs as [|r reqs IH]; intros s Hco Ha; [done|]. apply (IH (serve s r).2).
  - apply serve_coherent; [done|exact (Ha 0%nat r eq_refl)].
  - intros k r' Hk. exact (Ha (S k) r' Hk).
Qed.

End Registry.

Section Start.
Import Compr.

Lemma init_coherent : coherent 2 (compressor_list jffs2_compressors_init).
Proof.
  unfold jffs2_compressors_init. apply (serve_coherent 2 _ (Register jffs2_dynrubin_comp)); [apply (serve_coherent 2 _ (Register jffs2_rubinmips_comp)); [apply (serve_coherent 2 _ (Register jffs2_rtime_comp))|]|].
  - split; constructor.
  - split; [apply rtime_sound|]. split; [done|]. apply not_elem_of_nil.
  - split; [apply rubinmips_sound|]. split; [done|]. cbn. by rewrite list_elem_of_singleton.
  - split; [apply dynrubin_sound|]. split; [done|]. cbn. rewrite elem_of_cons, list_elem_of_singleton. by intros [|].
Qed.

(** [C26] The registry of compressors.  Whatever modules register (sound compressors under numbers of
    their own), and whatever is unregistered, enabled, disabled or given another priority or mode
    afterwards, the list stays fit for use: sound, every number once, and in the order of the
    priorities; from the start with the compressors of this directory. *)
Theorem registry_coherent reqs :
  (∀ k r, reqs !! k = Some r → acceptable 2 (serve_all jffs2_compressors_init (take k reqs)) r) →
  coherent 2 (compressor_list (serve_all jffs2_compressors_init reqs)).
Proof. apply serve_all_coherent, init_coherent. Qed.
End Start.

Lemma registry_coherent_witness :
  let s' := serve_all Compr.jffs2_compressors_init
    [Enable "dynrubin"; Set_priority "dynrubin" 70; Unregister Compr.jffs2_rtime_comp; Register Compr.jffs2_rtime_comp; Set_mode "size"] in
  coherent 2 (Compr.compressor_list s') ∧ Compr.name <$> Compr.compressor_list s' = ["dynrubin"; "rtime"; "rubinmips"].
Proof.
  split; [|reflexivity]. apply registry_coherent.
  intros [|[|[|[|[|k]]]]] r [= <-]; try exact I. split; [apply rtime_sound|]. split; [done|]. vm_compute.
  intros H. repeat (apply elem_of_cons in H as [H|H]; [discriminate|]). by apply elem_of_nil in H.
Defined.

Lemma jffs2_compress_roundtrip_witness :
  let kmalloc (n : nat) (size : Z) := if size <? 0 then None else Some (replicate (Z.to_nat size) 170) in
  let data := replicate 40 65 in
  ∃ ret out sl dl s', Compr.jffs2_compress kmalloc (Compr.set_mode Compr.jffs2_compressors_init 2) data 40 40 = Some (ret, out, sl, dl, s')
    ∧ 0 < sl <= 40 ∧ 0 < dl <= 40 ∧ coherent 2 (Compr.compressor_list s')
    ∧ ∃ s'', Compr.jffs2_decompress s' ret (take (Z.to_nat dl) out) dl sl = Some (0, take (Z.to_nat sl) data, s'')
        ∧ coherent 2 (Compr.compressor_list s'').
Proof.
  intros kmalloc data. apply (jffs2_compress_roundtrip kmalloc) with (least := 2); [|apply Forall_replicate; lia|reflexivity|lia|lia|lia|apply init_coherent].
  intros n size b. unfold kmalloc. destruct (Z.ltb_spec size 0); [done|]. intros [= <-].
  split; [rewrite length_replicate; lia|apply Forall_replicate; lia].
Defined.
