(* ===== verification/Crc32.v ===== *)
(** * Crc32: the checksum of every JFFS2 node (fs/jffs2/crc32.c, crc32.h)

    The table-driven loop is the division by the polynomial bit by bit, so that a change of up to four
    neighbouring bytes of a node never goes unnoticed. *)

From S2P Require Import Prelude Jffs2Rtime.

Module Crc.
Definition crc32_table : list Z :=
  [0x00000000; 0x77073096; 0xee0e612c; 0x990951ba; 0x076dc419; 0x706af48f; 0xe963a535; 0x9e6495a3;
   0x0edb8832; 0x79dcb8a4; 0xe0d5e91e; 0x97d2d988; 0x09b64c2b; 0x7eb17cbd; 0xe7b82d07; 0x90bf1d91;
   0x1db71064; 0x6ab020f2; 0xf3b97148; 0x84be41de; 0x1adad47d; 0x6ddde4eb; 0xf4d4b551; 0x83d385c7;
   0x136c9856; 0x646ba8c0; 0xfd62f97a; 0x8a65c9ec; 0x14015c4f; 0x63066cd9; 0xfa0f3d63; 0x8d080df5;
   0x3b6e20c8; 0x4c69105e; 0xd56041e4; 0xa2677172; 0x3c03e4d1; 0x4b04d447; 0xd20d85fd; 0xa50ab56b;
   0x35b5a8fa; 0x42b2986c; 0xdbbbc9d6; 0xacbcf940; 0x32d86ce3; 0x45df5c75; 0xdcd60dcf; 0xabd13d59;
   0x26d930ac; 0x51de003a; 0xc8d75180; 0xbfd06116; 0x21b4f4b5; 0x56b3c423; 0xcfba9599; 0xb8bda50f;
   0x2802b89e; 0x5f058808; 0xc60cd9b2; 0xb10be924; 0x2f6f7c87; 0x58684c11; 0xc1611dab; 0xb6662d3d;
   0x76dc4190; 0x01db7106; 0x98d220bc; 0xefd5102a; 0x71b18589; 0x06b6b51f; 0x9fbfe4a5; 0xe8b8d433;
   0x7807c9a2; 0x0f00f934; 0x9609a88e; 0xe10e9818; 0x7f6a0dbb; 0x086d3d2d; 0x91646c97; 0xe6635c01;
   0x6b6b51f4; 0x1c6c6162; 0x856530d8; 0xf262004e; 0x6c0695ed; 0x1b01a57b; 0x8208f4c1; 0xf50fc457;
   0x65b0d9c6; 0x12b7e950; 0x8bbeb8ea; 0xfcb9887c; 0x62dd1ddf; 0x15da2d49; 0x8cd37cf3; 0xfbd44c65;
   0x4db26158; 0x3ab551ce; 0xa3bc0074; 0xd4bb30e2; 0x4adfa541; 0x3dd895d7; 0xa4d1c46d; 0xd3d6f4fb;
   0x4369e96a; 0x346ed9fc; 0xad678846; 0xda60b8d0; 0x44042d73; 0x33031de5; 0xaa0a4c5f; 0xdd0d7cc9;
   0x5005713c; 0x270241aa; 0xbe0b1010; 0xc90c2086; 0x5768b525; 0x206f85b3; 0xb966d409; 0xce61e49f;
   0x5edef90e; 0x29d9c998; 0xb0d09822; 0xc7d7a8b4; 0x59b33d17; 0x2eb40d81; 0xb7bd5c3b; 0xc0ba6cad;
   0xedb88320; 0x9abfb3b6; 0x03b6e20c; 0x74b1d29a; 0xead54739; 0x9dd277af; 0x04db2615; 0x73dc1683;
   0xe3630b12; 0x94643b84; 0x0d6d6a3e; 0x7a6a5aa8; 0xe40ecf0b; 0x9309ff9d; 0x0a00ae27; 0x7d079eb1;
   0xf00f9344; 0x8708a3d2; 0x1e01f268; 0x6906c2fe; 0xf762575d; 0x806567cb; 0x196c3671; 0x6e6b06e7;
   0xfed41b76; 0x89d32be0; 0x10da7a5a; 0x67dd4acc; 0xf9b9df6f; 0x8ebeeff9; 0x17b7be43; 0x60b08ed5;
   0xd6d6a3e8; 0xa1d1937e; 0x38d8c2c4; 0x4fdff252; 0xd1bb67f1; 0xa6bc5767; 0x3fb506dd; 0x48b2364b;
   0xd80d2bda; 0xaf0a1b4c; 0x36034af6; 0x41047a60; 0xdf60efc3; 0xa867df55; 0x316e8eef; 0x4669be79;
   0xcb61b38c; 0xbc66831a; 0x256fd2a0; 0x5268e236; 0xcc0c7795; 0xbb0b4703; 0x220216b9; 0x5505262f;
   0xc5ba3bbe; 0xb2bd0b28; 0x2bb45a92; 0x5cb36a04; 0xc2d7ffa7; 0xb5d0cf31; 0x2cd99e8b; 0x5bdeae1d;
   0x9b64c2b0; 0xec63f226; 0x756aa39c; 0x026d930a; 0x9c0906a9; 0xeb0e363f; 0x72076785; 0x05005713;
   0x95bf4a82; 0xe2b87a14; 0x7bb12bae; 0x0cb61b38; 0x92d28e9b; 0xe5d5be0d; 0x7cdcefb7; 0x0bdbdf21;
   0x86d3d2d4; 0xf1d4e242; 0x68ddb3f8; 0x1fda836e; 0x81be16cd; 0xf6b9265b; 0x6fb077e1; 0x18b74777;
   0x88085ae6; 0xff0f6a70; 0x66063bca; 0x11010b5c; 0x8f659eff; 0xf862ae69; 0x616bffd3; 0x166ccf45;
   0xa00ae278; 0xd70dd2ee; 0x4e048354; 0x3903b3c2; 0xa7672661; 0xd06016f7; 0x4969474d; 0x3e6e77db;
   0xaed16a4a; 0xd9d65adc; 0x40df0b66; 0x37d83bf0; 0xa9bcae53; 0xdebb9ec5; 0x47b2cf7f; 0x30b5ffe9;
   0xbdbdf21c; 0xcabac28a; 0x53b39330; 0x24b4a3a6; 0xbad03605; 0xcdd70693; 0x54de5729; 0x23d967bf;
   0xb3667a2e; 0xc4614ab8; 0x5d681b02; 0x2a6f2b94; 0xb40bbe37; 0xc30c8ea1; 0x5a05df1b; 0x2d02ef8d].

(** [crc32(val, s, len)] over the [len] bytes. *)
Definition crc32_byte (val b : Z) : Z := Z.lxor (nth (Z.to_nat (Z.lxor val b &&& 255)) crc32_table 0) (val >>> 8).
Definition crc32 (val : Z) (s : list Z) : Z := foldl crc32_byte val s.
End Crc.

(** ** The division bit by bit *)

Module CrcBits.
Definition polynomial := 0xedb88320.
Definition shift_bit (v : Z) : Z := Z.lxor (v >>> 1) (if Z.testbit v 0 then polynomial else 0).
Definition shift_bits (n : nat) (v : Z) : Z := Nat.iter n shift_bit v.
(** A byte is added at the low end, then shifted out. *)
Definition crc32 (val : Z) (s : list Z) : Z := foldl (λ val b, shift_bits 8 (Z.lxor val b)) val s.
End CrcBits.

Section CrcProofs.
Import CrcBits.

Lemma shift_bit_lxor a b : shift_bit (Z.lxor a b) = Z.lxor (shift_bit a) (shift_bit b).
Proof.
  unfold shift_bit. rewrite Z.shiftr_lxor, Z.lxor_spec. apply Z.bits_inj'. intros i Hi.
  rewrite !Z.lxor_spec. destruct (Z.testbit a 0), (Z.testbit b 0); cbn [xorb]; rewrite ?Z.testbit_0_l;
    destruct (Z.testbit (a >>> 1) i), (Z.testbit (b >>> 1) i), (Z.testbit polynomial i); done.
Qed.
Lemma shift_bits_S n v : shift_bits (S n) v = shift_bit (shift_bits n v).
Proof. done. Qed.
Lemma shift_bits_lxor n a b : shift_bits n (Z.lxor a b) = Z.lxor (shift_bits n a) (shift_bits n b).
Proof. induction n as [|n IH]; [done|]. by rewrite !shift_bits_S, IH, shift_bit_lxor. Qed.

Lemma shift_bit_range v : 0 <= v < 2 ^ 32 → 0 <= shift_bit v < 2 ^ 32.
Proof.
  intros Hv. unfold shift_bit. rewrite Z.shiftr_div_pow2 by lia. change (2 ^ 1) with 2.
  destruct (Z.testbit v 0); [apply lxor_range; [lia| |unfold polynomial; lia]|rewrite Z.lxor_0_r]; Z.to_euclidean_division_equations; lia.
Qed.
Lemma shift_bits_range n v : 0 <= v < 2 ^ 32 → 0 <= shift_bits n v < 2 ^ 32.
Proof. intros Hv. induction n as [|n IH]; [done|]. rewrite shift_bits_S. by apply shift_bit_range. Qed.

(** The register can be shifted back: the top bit tells which bit was lost. *)
Lemma shift_bit_zero v : 0 <= v < 2 ^ 32 → shift_bit v = 0 → v = 0.
Proof.
  intros Hv. unfold shift_bit. rewrite Z.bit0_odd, Z.shiftr_div_pow2 by lia. change (2 ^ 1) with 2.
  destruct (Z.odd v) eqn:Ho; intros H0.
  - apply Z.lxor_eq in H0. unfold polynomial in H0. Z.to_euclidean_division_equations; lia.
  - rewrite Z.lxor_0_r in H0. rewrite <- Z.negb_even, negb_false_iff, Z.even_spec in Ho. destruct Ho as [k ->].
    Z.to_euclidean_division_equations; lia.
Qed.
Lemma shift_bits_zero n v : 0 <= v < 2 ^ 32 → shift_bits n v = 0 → v = 0.
Proof.
  intros Hv. induction n as [|n IH]; [done|]. rewrite shift_bits_S. intros H0. apply IH. apply shift_bit_zero; [by apply shift_bits_range|exact H0].
Qed.
Lemma shift_bits_inj n a b : 0 <= a < 2 ^ 32 → 0 <= b < 2 ^ 32 → shift_bits n a = shift_bits n b → a = b.
Proof.
  intros Ha Hb H. apply Z.lxor_eq, (shift_bits_zero n); [by apply lxor_range|]. by rewrite shift_bits_lxor, H, Z.lxor_nilpotent.
Qed.
(** Bits above the ones shifted out only move. *)
Lemma shift_bits_high n v : 0 <= v → (∀ i, 0 <= i < Z.of_nat n → Z.testbit v i = false) → shift_bits n v = v >>> Z.of_nat n.
Proof.
  intros Hv. induction n as [|n IH]; intros H0; [by rewrite Z.shiftr_0_r|]. rewrite shift_bits_S, IH by (intros i Hi; apply H0; lia). unfold shift_bit. rewrite Z.shiftr_spec, Z.add_0_l, H0 by lia.
  rewrite Z.lxor_0_r, Z.shiftr_shiftr by lia. f_equal. lia.
Qed.
End CrcProofs.

Section CrcWords.
Import CrcBits.

(** The table holds what eight shifts make of a byte. *)
Lemma table_entries : Crc.crc32_table = (λ i, shift_bits 8 (Z.of_nat i)) <$> seq 0 256.
Proof. vm_compute. reflexivity. Qed.
Lemma crc_table_at b : 0 <= b < 256 → nth (Z.to_nat b) Crc.crc32_table 0 = shift_bits 8 b.
Proof.
  intros Hb. rewrite table_entries, nth_lookup, list_lookup_fmap, lookup_seq_lt by lia.
  change (shift_bits 8 (Z.of_nat (0 + Z.to_nat b)) = shift_bits 8 b). f_equal. lia.
Qed.
Lemma split_byte x : x = Z.lxor (x &&& 255) ((x >>> 8) <<< 8).
Proof.
  apply Z.bits_inj'. intros i Hi. change 255 with (Z.ones 8). rewrite Z.lxor_spec, Z.land_spec, Z.shiftl_spec, Z.testbit_ones_nonneg by lia.
  destruct (Z.ltb_spec i 8).
  - rewrite (Z.testbit_neg_r _ (i - 8)), andb_true_r, xorb_false_r by lia. done.
  - rewrite Z.shiftr_spec, andb_false_r, xorb_false_l by lia. f_equal. lia.
Qed.
Lemma shift_byte_out x : 0 <= x → shift_bits 8 (x <<< 8) = x.
Proof.
  intros Hx. rewrite shift_bits_high.
  - rewrite Z.shiftr_shiftl_l, Z.sub_diag, Z.shiftl_0_r by lia. done.
  - by apply Z.shiftl_nonneg.
  - intros i Hi. rewrite Z.shiftl_spec by lia. apply Z.testbit_neg_r. lia.
Qed.
Lemma crc32_byte_bits val b : 0 <= val < 2 ^ 32 → 0 <= b < 256 → Crc.crc32_byte val b = shift_bits 8 (Z.lxor val b).
Proof.
  intros Hv Hb. unfold Crc.crc32_byte. assert (0 <= Z.lxor val b < 2 ^ 32) as Hx by (apply lxor_range; lia).
  rewrite (split_byte (Z.lxor val b)) at 2. rewrite shift_bits_lxor, shift_byte_out by (apply Z.shiftr_nonneg; lia).
  rewrite crc_table_at. 2:{ change 255 with (Z.ones 8). rewrite Z.land_ones by lia. apply Z.mod_pos_bound. lia. }
  f_equal. rewrite Z.shiftr_lxor. rewrite (Z.shiftr_div_pow2 b), Z.div_small, Z.lxor_0_r by lia. done.
Qed.
Lemma crc32_range val s : 0 <= val < 2 ^ 32 → bytes s → 0 <= crc32 val s < 2 ^ 32.
Proof.
  intros Hv Hs. revert val Hv. induction Hs as [|b s Hb Hs IH]; intros val Hv; [done|]. apply IH, shift_bits_range, lxor_range; lia.
Qed.
Lemma crc32_bits val s : 0 <= val < 2 ^ 32 → bytes s → Crc.crc32 val s = crc32 val s.
Proof.
  intros Hv Hs. revert val Hv. induction Hs as [|b s Hb Hs IH]; intros val Hv; [done|].
  change (Crc.crc32 (Crc.crc32_byte val b) s = crc32 (shift_bits 8 (Z.lxor val b)) s).
  rewrite crc32_byte_bits by done. apply IH, shift_bits_range, lxor_range; lia.
Qed.

(** Bytes as one word, the first lowest. *)
Fixpoint word (w : list Z) : Z := match w with [] => 0 | b :: w => Z.lxor b (word w <<< 8) end.
Lemma word_range w : bytes w → 0 <= word w < 2 ^ (8 * Z.of_nat (length w)).
Proof.
  induction 1 as [|b w Hb Hw IH]; [done|]. cbn [word length]. rewrite Nat2Z.inj_succ.
  replace (8 * Z.succ (Z.of_nat (length w))) with (8 * Z.of_nat (length w) + 8) by lia.
  apply lxor_range; [lia| |].
  - split; [lia|]. eapply Z.lt_le_trans; [apply Hb|]. change 256 with (2 ^ 8). apply Z.pow_le_mono_r; lia.
  - rewrite Z.shiftl_mul_pow2, Z.pow_add_r by lia. change (2 ^ 8) with 256. nia.
Qed.
Lemma word_cons_inv b w : 0 <= b < 256 → word (b :: w) &&& 255 = b ∧ word (b :: w) >>> 8 = word w.
Proof.
  intros Hb. cbn [word]. split.
  - apply Z.bits_inj'. intros i Hi. change 255 with (Z.ones 8). rewrite Z.land_spec, Z.lxor_spec, Z.shiftl_spec, Z.testbit_ones_nonneg by lia.
    destruct (Z.ltb_spec i 8).
    + rewrite (Z.testbit_neg_r _ (i - 8)), xorb_false_r, andb_true_r by lia. done.
    + rewrite andb_false_r. symmetry. apply (testbit_above b 8); lia.
  - rewrite Z.shiftr_lxor, Z.shiftr_shiftl_l, Z.sub_diag, Z.shiftl_0_r by lia. by rewrite Z.shiftr_div_pow2, Z.div_small, Z.lxor_0_l by lia.
Qed.
Lemma word_inj w w' : bytes w → bytes w' → length w = length w' → word w = word w' → w = w'.
Proof.
  intros Hw. revert w'. induction Hw as [|b w Hb Hw IH]; intros [|b' w'] Hw' Hl He; try done.
  apply Forall_cons in Hw' as [Hb' Hw']. destruct (word_cons_inv b w Hb) as [H1 H2], (word_cons_inv b' w' Hb') as [H1' H2'].
  rewrite He in H1, H2. f_equal; [congruence|]. apply IH; [done|cbn in Hl; lia|congruence].
Qed.
(** Up to four bytes enter the register at once. *)
Lemma crc32_word val w : 0 <= val < 2 ^ 32 → bytes w → crc32 val w = shift_bits (8 * length w) (Z.lxor val (word w)).
Proof.
  intros Hv Hw. revert val Hv. induction Hw as [|b w Hb Hw IH]; intros val Hv; [by cbn; rewrite Z.lxor_0_r|].
  change (crc32 val (b :: w)) with (crc32 (shift_bits 8 (Z.lxor val b)) w).
  rewrite IH by (apply shift_bits_range, lxor_range; lia).
  rewrite <- (shift_byte_out (word w)) at 1 by (apply word_range; done). rewrite <- shift_bits_lxor.
  cbn [word length]. rewrite Z.lxor_assoc. replace (8 * S (length w))%nat with (8 * length w + 8)%nat by lia.
  unfold shift_bits. by rewrite Nat.iter_add.
Qed.
Lemma crc32_state_inj a b s : 0 <= a < 2 ^ 32 → 0 <= b < 2 ^ 32 → bytes s → crc32 a s = crc32 b s → a = b.
Proof.
  intros Ha Hb Hs. revert a b Ha Hb. induction Hs as [|x s Hx Hs IH]; intros a b Ha Hb He; [done|].
  apply IH in He; [|apply shift_bits_range, lxor_range; lia..].
  apply shift_bits_inj in He; [|apply lxor_range; lia..]. apply (f_equal (λ z, Z.lxor z x)) in He.
  by rewrite !Z.lxor_assoc, Z.lxor_nilpotent, !Z.lxor_0_r in He.
Qed.
Lemma crc32_app val s s' : crc32 val (s ++ s') = crc32 (crc32 val s) s'.
Proof. apply foldl_app. Qed.
End CrcWords.

(** [C29] crc32.  The loop over the table computes the remainder bit by bit; and two byte strings that
    differ only inside four neighbouring bytes (or fewer) never have the same checksum. *)
Theorem crc32_detects_burst val pre w w' post :
  0 <= val < 2 ^ 32 → bytes pre → bytes w → bytes w' → bytes post → length w = length w' → (length w ≤ 4)%nat →
  Crc.crc32 val (pre ++ w ++ post) = CrcBits.crc32 val (pre ++ w ++ post)
  ∧ (Crc.crc32 val (pre ++ w ++ post) = Crc.crc32 val (pre ++ w' ++ post) → w = w').
Proof.
  intros Hv Hpre Hw Hw' Hpost Hl Hl4.
  assert (∀ x, bytes x → Crc.crc32 val (pre ++ x ++ post) = CrcBits.crc32 val (pre ++ x ++ post)) as Hbits
    by (intros x Hx; apply crc32_bits; [done|]; by repeat apply Forall_app_2).
  split; [by apply Hbits|]. rewrite !Hbits, !crc32_app by done. intros He.
  pose proof (crc32_range val pre Hv Hpre) as Hr.
  apply crc32_state_inj in He; [|by apply crc32_range..|done].
  assert (∀ x, bytes x → (length x ≤ 4)%nat → 0 <= Z.lxor (CrcBits.crc32 val pre) (word x) < 2 ^ 32) as Hx.
  { intros x Hx H4. apply lxor_range; [lia|done|]. pose proof (word_range x Hx).
    assert (2 ^ (8 * Z.of_nat (length x)) <= 2 ^ 32) by (apply Z.pow_le_mono_r; lia). lia. }
  rewrite (crc32_word _ w), (crc32_word _ w'), <- Hl in He by done. apply shift_bits_inj in He; [|apply Hx; (done || lia)..].
  apply (f_equal (Z.lxor (CrcBits.crc32 val pre))) in He. rewrite <- !Z.lxor_assoc, Z.lxor_nilpotent, !Z.lxor_0_l in He.
  by apply word_inj.
Qed.

Lemma crc32_detects_burst_witness :
  Crc.crc32 0 ([1; 2] ++ [3; 4; 5] ++ [6]) = CrcBits.crc32 0 ([1; 2] ++ [3; 4; 5] ++ [6])
  ∧ (Crc.crc32 0 ([1; 2] ++ [3; 4; 5] ++ [6]) = Crc.crc32 0 ([1; 2] ++ [3; 0; 5] ++ [6]) → [3; 4; 5] = [3; 0; 5]).
Proof. apply (crc32_detects_burst 0 [1; 2] [3; 4; 5] [3; 0; 5] [6]); try lia; repeat (constructor; try lia). Defined.
