(* ===== verification/Rbtree.v ===== *)
(** Red-black trees of fs/jffs2/rbtree.c and include/linux/rbtree-24.h.

    Module [Rb] is the code on its pointers: a heap of [rb_node] cells and the root, a monad that
    fails on a NULL or dangling dereference, every assignment of the source in its order.  The
    proofs describe the heap by pieces (a cell, a subtree, the path above a subtree), whose
    addresses are distinct. *)

From S2P Require Import Prelude.

Module Rb.
Abbreviation ptr := (option nat).
Inductive color := RB_RED | RB_BLACK.
Definition same_color (c d : color) : bool :=
  match c, d with RB_RED, RB_RED | RB_BLACK, RB_BLACK => true | _, _ => false end.

Record rb_node := Cell { rb_parent : ptr; rb_color : color; rb_right : ptr; rb_left : ptr }.
Definition set_parent (v : ptr) (n : rb_node) := Cell v (rb_color n) (rb_right n) (rb_left n).
Definition set_color (v : color) (n : rb_node) := Cell (rb_parent n) v (rb_right n) (rb_left n).
Definition set_right (v : ptr) (n : rb_node) := Cell (rb_parent n) (rb_color n) v (rb_left n).
Definition set_left (v : ptr) (n : rb_node) := Cell (rb_parent n) (rb_color n) (rb_right n) v.

Record heap := Heap { root : ptr; cells : gmap nat rb_node }.

(** Programs over the heap; [None] is a NULL or dangling dereference. *)
Abbreviation M := (SM heap).
Definition get {A} (f : rb_node → A) (p : ptr) : M A :=
  λ h, match p with Some x => match cells h !! x with Some n => Some (f n, h) | None => None end | None => None end.
Definition put (f : rb_node → rb_node) (p : ptr) : M unit :=
  λ h, match p with
       | Some x => match cells h !! x with Some n => Some (tt, Heap (root h) (<[x := f n]> (cells h))) | None => None end
       | None => None
       end.
Definition get_root : M ptr := λ h, Some (root h, h).
Definition set_root (p : ptr) : M unit := λ h, Some (tt, Heap p (cells h)).
Definition non_null (p : ptr) : bool := match p with Some _ => true | None => false end.
Definition same (p q : ptr) : bool := bool_decide (p = q).
(** [!p || p->rb_color == RB_BLACK] *)
Definition is_black (p : ptr) : M bool :=
  if non_null p then c ← get rb_color p; mret (same_color c RB_BLACK) else mret true.
(** [p && p->rb_color == RB_RED] *)
Definition is_red (p : ptr) : M bool :=
  if non_null p then c ← get rb_color p; mret (same_color c RB_RED) else mret false.

(** The address of a pointer to a node. *)
Inductive link := AtRoot | AtLeft (p : ptr) | AtRight (p : ptr).
Definition read_link (l : link) : M ptr :=
  match l with AtRoot => get_root | AtLeft p => get rb_left p | AtRight p => get rb_right p end.
Definition write_link (l : link) (v : ptr) : M unit :=
  match l with AtRoot => set_root v | AtLeft p => put (set_left v) p | AtRight p => put (set_right v) p end.

Definition rb_link_node (node parent : ptr) (rb_link : link) : M unit :=
  put (set_parent parent) node;;
  put (set_color RB_RED) node;;
  put (set_right None) node;;
  put (set_left None) node;;
  write_link rb_link node.

(** The child of [parent] that is [old] becomes [new]; the left child is tried first, or the right one. *)
Definition replace_child (parent old new : ptr) : M unit :=
  if non_null parent
  then
    pl ← get rb_left parent;
    if same old pl then put (set_left new) parent else put (set_right new) parent
  else set_root new.
Definition replace_child_r (parent old new : ptr) : M unit :=
  if non_null parent
  then
    pr ← get rb_right parent;
    if same old pr then put (set_right new) parent else put (set_left new) parent
  else set_root new.
(** [if (p) ...] *)
Definition when_ptr (p : ptr) (m : M unit) : M unit := if non_null p then m else mret tt.

Definition __rb_rotate_left (node : ptr) : M unit :=
  right ← get rb_right node;
  rl ← get rb_left right;
  put (set_right rl) node;;
  when_ptr rl (put (set_parent node) rl);;
  put (set_left node) right;;
  p ← get rb_parent node;
  put (set_parent p) right;;
  replace_child p node right;;
  put (set_parent right) node.

Definition __rb_rotate_right (node : ptr) : M unit :=
  left ← get rb_left node;
  lr ← get rb_right left;
  put (set_left lr) node;;
  when_ptr lr (put (set_parent node) lr);;
  put (set_right node) left;;
  p ← get rb_parent node;
  put (set_parent p) left;;
  replace_child_r p node left;;
  put (set_parent left) node.

(** The loop of [rb_insert_color]. *)
Fixpoint insert_loop (fuel : nat) (node : ptr) : M unit :=
  match fuel with
  | O => fault
  | S fuel =>
      parent ← get rb_parent node;
      red ← is_red parent;
      if red : bool
      then
        gparent ← get rb_parent parent;
        gl ← get rb_left gparent;
        if same parent gl
        then
          uncle ← get rb_right gparent;
          uncle_red ← is_red uncle;
          if uncle_red : bool
          then
            put (set_color RB_BLACK) uncle;;
            put (set_color RB_BLACK) parent;;
            put (set_color RB_RED) gparent;;
            insert_loop fuel gparent
          else
            pr ← get rb_right parent;
            '(parent, node) ← (if same pr node then __rb_rotate_left parent;; mret (node, parent)
                               else mret (parent, node));
            put (set_color RB_BLACK) parent;;
            put (set_color RB_RED) gparent;;
            __rb_rotate_right gparent;;
            insert_loop fuel node
        else
          uncle ← get rb_left gparent;
          uncle_red ← is_red uncle;
          if uncle_red : bool
          then
            put (set_color RB_BLACK) uncle;;
            put (set_color RB_BLACK) parent;;
            put (set_color RB_RED) gparent;;
            insert_loop fuel gparent
          else
            pl ← get rb_left parent;
            '(parent, node) ← (if same pl node then __rb_rotate_right parent;; mret (node, parent)
                               else mret (parent, node));
            put (set_color RB_BLACK) parent;;
            put (set_color RB_RED) gparent;;
            __rb_rotate_left gparent;;
            insert_loop fuel node
      else mret tt
  end.
(** Loops walk along a path of the tree: one turn per node of the heap is enough. *)
Definition fueled {A} (loop : nat → M A) : M A := λ h, loop (S (S (size (cells h)))) h.
Definition rb_insert_color (node : ptr) : M unit :=
  fueled (λ n, insert_loop n node);;
  r ← get_root;
  put (set_color RB_BLACK) r.

Definition has_color (c : color) (p : ptr) : M bool := d ← get rb_color p; mret (same_color d c).

(** Both children of [other] are black. *)
Definition both_black (other : ptr) : M bool :=
  l ← get rb_left other;
  lb ← is_black l;
  if lb : bool then r ← get rb_right other; is_black r else mret false.

(** The turn for a node that is the left child: a sibling that is red goes up, *)
Definition sibling_l (parent : ptr) : M ptr :=
  other ← get rb_right parent;
  red ← has_color RB_RED other;
  if red : bool
  then
    put (set_color RB_BLACK) other;;
    put (set_color RB_RED) parent;;
    __rb_rotate_left parent;;
    get rb_right parent
  else mret other.
(** the outer child of the sibling becomes the red one, *)
Definition outer_red_l (parent other : ptr) : M ptr :=
  outer ← get rb_right other;
  black ← is_black outer;
  if black : bool
  then
    inner ← get rb_left other;
    when_ptr inner (put (set_color RB_BLACK) inner);;
    put (set_color RB_RED) other;;
    __rb_rotate_right other;;
    get rb_right parent
  else mret other.
(** and the sibling takes the place of the parent. *)
Definition replace_parent_l (parent other : ptr) : M ptr :=
  pc ← get rb_color parent;
  put (set_color pc) other;;
  put (set_color RB_BLACK) parent;;
  outer ← get rb_right other;
  when_ptr outer (put (set_color RB_BLACK) outer);;
  __rb_rotate_left parent;;
  get_root.
(** The turn for a node that is the right child: a sibling that is red goes up, *)
Definition sibling_r (parent : ptr) : M ptr :=
  other ← get rb_left parent;
  red ← has_color RB_RED other;
  if red : bool
  then
    put (set_color RB_BLACK) other;;
    put (set_color RB_RED) parent;;
    __rb_rotate_right parent;;
    get rb_left parent
  else mret other.
(** the outer child of the sibling becomes the red one, *)
Definition outer_red_r (parent other : ptr) : M ptr :=
  outer ← get rb_left other;
  black ← is_black outer;
  if black : bool
  then
    inner ← get rb_right other;
    when_ptr inner (put (set_color RB_BLACK) inner);;
    put (set_color RB_RED) other;;
    __rb_rotate_left other;;
    get rb_left parent
  else mret other.
(** and the sibling takes the place of the parent. *)
Definition replace_parent_r (parent other : ptr) : M ptr :=
  pc ← get rb_color parent;
  put (set_color pc) other;;
  put (set_color RB_BLACK) parent;;
  outer ← get rb_left other;
  when_ptr outer (put (set_color RB_BLACK) outer);;
  __rb_rotate_right parent;;
  get_root.

(** The loop of [__rb_erase_color]; it answers [node]. *)
Fixpoint erase_loop (fuel : nat) (node parent : ptr) : M ptr :=
  match fuel with
  | O => fault
  | S fuel =>
      black ← is_black node;
      r ← get_root;
      if (black : bool) && negb (same node r)
      then
        pl ← get rb_left parent;
        if same pl node
        then
          other ← sibling_l parent;
          bb ← both_black other;
          if bb : bool
          then
            put (set_color RB_RED) other;;
            up ← get rb_parent parent;
            erase_loop fuel parent up
          else other ← outer_red_l parent other; replace_parent_l parent other
        else
          other ← sibling_r parent;
          bb ← both_black other;
          if bb : bool
          then
            put (set_color RB_RED) other;;
            up ← get rb_parent parent;
            erase_loop fuel parent up
          else other ← outer_red_r parent other; replace_parent_r parent other
      else mret node
  end.
Definition __rb_erase_color (node parent : ptr) : M unit :=
  node ← fueled (λ n, erase_loop n node parent);
  when_ptr node (put (set_color RB_BLACK) node).

(** [while (node->rb_left) node = node->rb_left;] and its mirror image *)
Fixpoint leftmost (fuel : nat) (node : ptr) : M ptr :=
  match fuel with
  | O => fault
  | S fuel => l ← get rb_left node; if non_null l then leftmost fuel l else mret node
  end.
Fixpoint rightmost (fuel : nat) (node : ptr) : M ptr :=
  match fuel with
  | O => fault
  | S fuel => r ← get rb_right node; if non_null r then rightmost fuel r else mret node
  end.

(** [rb_erase] of a node with at most one child: the child takes its place, *)
Definition erase_one (node child : ptr) : M (ptr * ptr * color) :=
  parent ← get rb_parent node;
  color ← get rb_color node;
  when_ptr child (put (set_parent parent) child);;
  replace_child parent node child;;
  mret (child, parent, color).
(** of a node with two children: its successor leaves its place in this way and takes that of [old]. *)
Definition erase_two (old : ptr) : M (ptr * ptr * color) :=
  r ← get rb_right old;
  node ← fueled (λ n, leftmost n r);
  child ← get rb_right node;
  parent ← get rb_parent node;
  color ← get rb_color node;
  when_ptr child (put (set_parent parent) child);;
  replace_child parent node child;;
  np ← get rb_parent node;
  let parent := if same np old then node else parent in
  op ← get rb_parent old;
  put (set_parent op) node;;
  oc ← get rb_color old;
  put (set_color oc) node;;
  orr ← get rb_right old;
  put (set_right orr) node;;
  ol ← get rb_left old;
  put (set_left ol) node;;
  replace_child op old node;;
  put (set_parent node) ol;;
  when_ptr orr (put (set_parent node) orr);;
  mret (child, parent, color).
Definition rb_erase (node : ptr) : M unit :=
  nl ← get rb_left node;
  nr ← get rb_right node;
  '(child, parent, color) ←
    (if non_null nl
     then if non_null nr then erase_two node else erase_one node nl
     else erase_one node nr);
  if same_color color RB_BLACK then __rb_erase_color child parent else mret tt.

(** The ascent of [rb_next]: [while (node->rb_parent && node == node->rb_parent->rb_right)]. *)
Fixpoint ascend (side : rb_node → ptr) (fuel : nat) (node : ptr) : M ptr :=
  match fuel with
  | O => fault
  | S fuel =>
      p ← get rb_parent node;
      if non_null p
      then c ← get side p; if same node c then ascend side fuel p else mret p
      else mret None
  end.
Definition rb_next (node : ptr) : M ptr :=
  r ← get rb_right node;
  if non_null r then fueled (λ n, leftmost n r) else fueled (λ n, ascend rb_right n node).
Definition rb_prev (node : ptr) : M ptr :=
  l ← get rb_left node;
  if non_null l then fueled (λ n, rightmost n l) else fueled (λ n, ascend rb_left n node).

Definition rb_replace_node (victim new : ptr) : M unit :=
  parent ← get rb_parent victim;
  replace_child parent victim new;;
  l ← get rb_left victim;
  when_ptr l (put (set_parent new) l);;
  r ← get rb_right victim;
  when_ptr r (put (set_parent new) r);;
  v ← get id victim;
  put (λ _, v) new.
End Rb.

(** ** Heaps described by pieces *)

Section Pieces.
Import Rb.

Inductive tree := Leaf | Node (c : color) (l : tree) (x : nat) (r : tree).
(** A position in a tree: the steps from the hole up to the root. *)
Inductive step := StepL (c : color) (x : nat) (r : tree) | StepR (c : color) (l : tree) (x : nat).

Definition ptr_of (t : tree) : ptr := match t with Leaf => None | Node _ _ x _ => Some x end.
Definition top (p : list step) : ptr :=
  match p with [] => None | StepL _ x _ :: _ | StepR _ _ x :: _ => Some x end.
Fixpoint inorder (t : tree) : list nat := match t with Leaf => [] | Node _ l x r => inorder l ++ x :: inorder r end.
Fixpoint before (p : list step) : list nat :=
  match p with [] => [] | StepL _ _ _ :: p => before p | StepR _ l x :: p => before p ++ inorder l ++ [x] end.
Fixpoint after (p : list step) : list nat :=
  match p with [] => [] | StepL _ x r :: p => x :: inorder r ++ after p | StepR _ _ _ :: p => after p end.
Definition plug_step (s : step) (t : tree) : tree :=
  match s with StepL c x r => Node c t x r | StepR c l x => Node c l x t end.
Definition plug (p : list step) (t : tree) : tree := foldl (λ t s, plug_step s t) t p.

(** A cell, a cell of any contents, a subtree with the parent of its root, a path with the pointer in
    its hole.  A path owns the root pointer, whose address is [None]. *)
Inductive piece := PCell (x : nat) (n : rb_node) | PAny (x : nat) | PSub (par : ptr) (t : tree) | PCtx (p : list step) (hole : ptr).

Fixpoint sat_tree (h : heap) (par : ptr) (t : tree) : Prop :=
  match t with
  | Leaf => True
  | Node c l x r => cells h !! x = Some (Cell par c (ptr_of r) (ptr_of l)) ∧ sat_tree h (Some x) l ∧ sat_tree h (Some x) r
  end.
Fixpoint sat_ctx (h : heap) (p : list step) (hole : ptr) : Prop :=
  match p with
  | [] => root h = hole
  | StepL c x r :: p => cells h !! x = Some (Cell (top p) c (ptr_of r) hole) ∧ sat_tree h (Some x) r ∧ sat_ctx h p (Some x)
  | StepR c l x :: p => cells h !! x = Some (Cell (top p) c hole (ptr_of l)) ∧ sat_tree h (Some x) l ∧ sat_ctx h p (Some x)
  end.
Definition sat (h : heap) (P : piece) : Prop :=
  match P with PCell x n => cells h !! x = Some n | PAny x => is_Some (cells h !! x) | PSub par t => sat_tree h par t | PCtx p hole => sat_ctx h p hole end.
Definition foot (P : piece) : list ptr :=
  match P with
  | PCell x _ | PAny x => [Some x]
  | PSub _ t => Some <$> inorder t
  | PCtx p _ => None :: (Some <$> before p ++ after p)
  end.
Definition holds (h : heap) (ps : list piece) : Prop := Forall (sat h) ps ∧ NoDup (ps ≫= foot).

Definition look (h : heap) (a : ptr) : ptr + option rb_node :=
  match a with None => inl (root h) | Some x => inr (cells h !! x) end.

Lemma look_cells h h' x : look h (Some x) = look h' (Some x) → cells h !! x = cells h' !! x.
Proof. by intros [=]. Qed.

Lemma sat_tree_local h h' par t :
  (∀ x, x ∈ inorder t → look h (Some x) = look h' (Some x)) → sat_tree h par t → sat_tree h' par t.
Proof.
  revert par. induction t as [|c l IHl x r IHr]; intros par Ha; [done|]. cbn. intros (Hx & Hl & Hr).
  split; [|split; [apply IHl|apply IHr]]; [|set_solver..].
  rewrite <-(look_cells h h'); [done|]. apply Ha. set_solver.
Qed.
Lemma sat_ctx_local h h' p hole :
  look h None = look h' None → (∀ x, x ∈ before p ++ after p → look h (Some x) = look h' (Some x)) →
  sat_ctx h p hole → sat_ctx h' p hole.
Proof.
  intros H0. revert hole. induction p as [|[c x r|c l x] p IH]; intros hole Ha; cbn.
  - cbn in H0. congruence.
  - intros (Hx & Hr & Hp). split; [|split; [eapply sat_tree_local; [|done]|apply IH]]; [|set_solver..].
    rewrite <-(look_cells h h'); [done|]. apply Ha. set_solver.
  - intros (Hx & Hr & Hp). split; [|split; [eapply sat_tree_local; [|done]|apply IH]]; [|set_solver..].
    rewrite <-(look_cells h h'); [done|]. apply Ha. set_solver.
Qed.
Lemma sat_local h h' P : (∀ a, a ∈ foot P → look h a = look h' a) → sat h P → sat h' P.
Proof.
  destruct P as [x n|x|par t|p hole]; cbn; intros Ha.
  - rewrite <-(look_cells h h'); [done|]. apply Ha. set_solver.
  - rewrite <-(look_cells h h'); [done|]. apply Ha. set_solver.
  - apply sat_tree_local. intros x Hx. apply Ha. set_solver.
  - apply sat_ctx_local; [apply Ha; set_solver|]. intros x Hx. apply Ha. set_solver.
Qed.

(** The frame rule. *)
Lemma holds_update h h' P P' ps :
  holds h (P :: ps) → (∀ a, a ∉ foot P → look h a = look h' a) → sat h' P' → foot P' = foot P → holds h' (P' :: ps).
Proof.
  intros [[_ Hps]%Forall_cons Hnd] Ha HP Hf. split; [constructor; [done|]|cbn in *; by rewrite Hf].
  cbn in Hnd. apply NoDup_app in Hnd as (_ & Hd & _).
  apply Forall_forall. intros R HR. rewrite Forall_forall in Hps. eapply sat_local; [|by apply Hps].
  intros a Hin. apply Ha. intros HP'. apply (Hd a HP'). apply list_elem_of_bind. eauto.
Qed.
Lemma holds_perm h ps ps' : ps ≡ₚ ps' → holds h ps → holds h ps'.
Proof. intros Hp [Hs Hn]. split; [by rewrite <-Hp|]. by rewrite <-Hp. Qed.
Lemma holds_pull h ps i P : ps !! i = Some P → holds h ps → holds h (P :: delete i ps).
Proof. intros Hi. apply holds_perm. by apply delete_Permutation. Qed.

Lemma holds_same_foot h ps qs fr :
  (qs ≫= foot) ≡ₚ (ps ≫= foot) → (Forall (sat h) ps ↔ Forall (sat h) qs) → holds h (ps ++ fr) ↔ holds h (qs ++ fr).
Proof.
  intros Hf Hs. unfold holds. rewrite !Forall_app, !bind_app, Hs.
  by rewrite Hf.
Qed.

Lemma holds_any h x ps : holds h (PAny x :: ps) ↔ ∃ n, holds h (PCell x n :: ps).
Proof.
  unfold holds. setoid_rewrite Forall_cons. cbn. split; [intros [[[n Hn] Hs] Hd]; by exists n|intros (n & [Hn Hs] & Hd); by eauto].
Qed.
Lemma holds_leaf h par fr : holds h (PSub par Leaf :: fr) ↔ holds h fr.
Proof. apply (holds_same_foot h [_] []); [done|]. rewrite Forall_singleton. split; constructor. Qed.
Lemma holds_node h par c l x r fr :
  holds h (PSub par (Node c l x r) :: fr) ↔
  holds h (PCell x (Cell par c (ptr_of r) (ptr_of l)) :: PSub (Some x) l :: PSub (Some x) r :: fr).
Proof.
  apply (holds_same_foot h [_] [_; _; _]).
  - cbn. rewrite !app_nil_r, fmap_app, fmap_cons. solve_Permutation.
  - rewrite !Forall_cons, Forall_nil. cbn. tauto.
Qed.
Lemma holds_stepL h c x r p hole fr :
  holds h (PCtx (StepL c x r :: p) hole :: fr) ↔
  holds h (PCell x (Cell (top p) c (ptr_of r) hole) :: PSub (Some x) r :: PCtx p (Some x) :: fr).
Proof.
  apply (holds_same_foot h [_] [_; _; _]).
  - cbn. rewrite !app_nil_r, !fmap_app, !fmap_cons, !fmap_app. solve_Permutation.
  - rewrite !Forall_cons, Forall_nil. cbn. tauto.
Qed.
Lemma holds_stepR h c l x p hole fr :
  holds h (PCtx (StepR c l x :: p) hole :: fr) ↔
  holds h (PCell x (Cell (top p) c hole (ptr_of l)) :: PSub (Some x) l :: PCtx p (Some x) :: fr).
Proof.
  apply (holds_same_foot h [_] [_; _; _]).
  - cbn. rewrite !app_nil_r, !fmap_app, !fmap_cons. cbn. solve_Permutation.
  - rewrite !Forall_cons, Forall_nil. cbn. tauto.
Qed.

(** ** Running programs *)

Lemma wp_get {A} (f : rb_node → A) h x n ps Q : holds h (PCell x n :: ps) → Q (f n) h → wp (get f (Some x)) h Q.
Proof. intros [[Hx _]%Forall_cons _]. cbn in Hx. unfold wp, get. by rewrite Hx. Qed.
Lemma wp_put f h x n ps Q :
  holds h (PCell x n :: ps) → (∀ h', holds h' (PCell x (f n) :: ps) → Q tt h') → wp (put f (Some x)) h Q.
Proof.
  intros Hh HQ. pose proof Hh as [[Hx _]%Forall_cons _]. cbn in Hx. unfold wp, put. rewrite Hx. apply HQ.
  eapply holds_update; [done| |by apply lookup_insert_eq|done].
  intros [y|] Hy; [|done]. cbn. rewrite lookup_insert_ne; [done|]. set_solver.
Qed.
Lemma wp_get_root h hole ps (Q : ptr → heap → Prop) : holds h (PCtx [] hole :: ps) → Q hole h → wp get_root h Q.
Proof. intros [[Hx _]%Forall_cons _]. cbn in Hx. unfold wp, get_root. by rewrite Hx. Qed.
Lemma wp_set_root h hole new ps Q :
  holds h (PCtx [] hole :: ps) → (∀ h', holds h' (PCtx [] new :: ps) → Q tt h') → wp (set_root new) h Q.
Proof.
  intros Hh HQ. unfold wp, set_root. apply HQ. eapply holds_update; [done| |done|done].
  intros [y|] Hy; [done|]. set_solver.
Qed.

Lemma same_refl p : same p p = true.
Proof. by apply bool_decide_eq_true. Qed.
Lemma same_ne p q : p ≠ q → same p q = false.
Proof. apply bool_decide_eq_false. Qed.
Lemma is_red_Some x : is_red (Some x) = (c ← get rb_color (Some x); mret (same_color c RB_RED)).
Proof. done. Qed.
Lemma is_black_Some x : is_black (Some x) = (c ← get rb_color (Some x); mret (same_color c RB_BLACK)).
Proof. done. Qed.
Lemma elem_inorder c l x r : x ∈ inorder (Node c l x r).
Proof. cbn. set_solver. Qed.
Lemma cell_apart h x n par t fr : holds h (PCell x n :: PSub par t :: fr) → x ∉ inorder t.
Proof.
  intros [_ Hn] Hx. cbn in Hn. apply NoDup_cons in Hn as [Hn _]. apply Hn, elem_of_app. left.
  by apply list_elem_of_fmap_2.
Qed.
Lemma cell_ptr_ne h x n par t fr : holds h (PCell x n :: PSub par t :: fr) → Some x ≠ ptr_of t.
Proof.
  intros H%cell_apart Heq. destruct t; [done|]. injection Heq as ->. by apply H, elem_inorder.
Qed.
End Pieces.

(** [pull H pat] brings the piece that matches [pat] to the front of [H]. *)
Ltac pull_from H all ps n pat :=
  lazymatch ps with
  | ?P :: ?qs =>
      first [ let _ := open_constr:(eq_refl P : P = pat) in
              apply (holds_pull _ all n P eq_refl) in H; cbn [delete list_delete] in H
            | pull_from H all qs (S n) pat ]
  end.
Tactic Notation "pull" hyp(H) uconstr(pat) :=
  match type of H with holds _ ?ps => pull_from H ps ps O pat end.

(** One statement of a program. *)
Ltac wp_step :=
  cbn beta iota;
  match goal with
  | |- wp (mret _) _ _ => apply wp_ret
  | |- wp (_ ≫= _) _ _ => apply wp_bind
  | |- wp (Rb.is_red (Some _)) _ _ => rewrite is_red_Some
  | |- wp (Rb.is_black (Some _)) _ _ => rewrite is_black_Some
  | |- wp (Rb.is_red None) _ _ => apply wp_ret
  | |- wp (Rb.is_black None) _ _ => apply wp_ret
  | |- wp (Rb.has_color _ _) _ _ => unfold Rb.has_color
  | |- wp (if Rb.same ?p ?p then _ else _) _ _ => rewrite same_refl
  | |- context [Rb.same_color ?c ?d] => progress cbn [Rb.same_color]
  | H : holds ?h _ |- wp (Rb.get _ (Some ?x)) ?h _ =>
      pull H (PCell x _); eapply (wp_get _ _ _ _ _ _ H);
      cbn [Rb.rb_parent Rb.rb_color Rb.rb_left Rb.rb_right]
  | H : holds ?h _ |- wp (Rb.put _ (Some ?x)) ?h _ =>
      pull H (PCell x _); eapply (wp_put _ _ _ _ _ _ H);
      let h' := fresh "h" in
      clear H; intros h' H;
      unfold Rb.set_parent, Rb.set_color, Rb.set_left, Rb.set_right in H;
      cbn [Rb.rb_parent Rb.rb_color Rb.rb_left Rb.rb_right] in H
  end.
Ltac wp_steps := repeat wp_step.

(** Opening a subtree into its root and its children, and closing it again. *)
Ltac open_node H := pull H (PSub _ (Node _ _ _ _)); apply holds_node in H; cbn [ptr_of] in H |- *.
Ltac close_node H x :=
  match type of H with
  | context [PSub (Some x) ?l] =>
      match type of H with
      | context [PSub (Some x) ?r] =>
          pull H (PSub (Some x) r); pull H (PSub (Some x) l); pull H (PCell x _);
          apply (proj2 (holds_node _ _ _ l x r _)) in H
      end
  end.

Section Primitives.
Import Rb.

Lemma wp_replace_child h p x new n fr Q :
  holds h (PCell x n :: PCtx p (Some x) :: fr) →
  (∀ h', holds h' (PCell x n :: PCtx p new :: fr) → Q tt h') →
  wp (replace_child (top p) (Some x) new) h Q.
Proof.
  intros H HQ. pull H (PCtx p _). destruct p as [|[c y r|c l y] p]; unfold replace_child; cbn [top non_null].
  - eapply wp_set_root; [done|]. intros h' H'. pull H' (PCell x n). by apply HQ.
  - apply holds_stepL in H. wp_steps.
    apply HQ. pull H (PCtx p _). pull H (PSub (Some y) r). pull H (PCell y _).
    apply holds_stepL in H. by pull H (PCell x n).
  - apply holds_stepR in H. wp_steps. pull H (PSub (Some y) l). pull H (PCell x n).
    rewrite (same_ne (Some x)) by (by eapply cell_ptr_ne). wp_steps.
    apply HQ. pull H (PCtx p _). pull H (PSub (Some y) l). pull H (PCell y _).
    apply holds_stepR in H. by pull H (PCell x n).
Qed.

Lemma wp_replace_child_r h p x new n fr Q :
  holds h (PCell x n :: PCtx p (Some x) :: fr) →
  (∀ h', holds h' (PCell x n :: PCtx p new :: fr) → Q tt h') →
  wp (replace_child_r (top p) (Some x) new) h Q.
Proof.
  intros H HQ. pull H (PCtx p _). destruct p as [|[c y r|c l y] p]; unfold replace_child_r; cbn [top non_null].
  - eapply wp_set_root; [done|]. intros h' H'. pull H' (PCell x n). by apply HQ.
  - apply holds_stepL in H. wp_steps. pull H (PSub (Some y) r). pull H (PCell x n).
    rewrite (same_ne (Some x)) by (by eapply cell_ptr_ne). wp_steps.
    apply HQ. pull H (PCtx p _). pull H (PSub (Some y) r). pull H (PCell y _).
    apply holds_stepL in H. by pull H (PCell x n).
  - apply holds_stepR in H. wp_steps.
    apply HQ. pull H (PCtx p _). pull H (PSub (Some y) l). pull H (PCell y _).
    apply holds_stepR in H. by pull H (PCell x n).
Qed.

Lemma wp_reparent h par par' t fr Q :
  holds h (PSub par t :: fr) → (∀ h', holds h' (PSub par' t :: fr) → Q tt h') →
  wp (when_ptr (ptr_of t) (put (set_parent par') (ptr_of t))) h Q.
Proof.
  intros H HQ. destruct t as [|c l x r]; unfold when_ptr; cbn [ptr_of non_null].
  - apply wp_ret, HQ. apply holds_leaf in H. by apply holds_leaf.
  - open_node H. wp_steps. apply HQ. by close_node H x.
Qed.

Lemma wp_rotate_left h p c x a d y b e fr Q :
  holds h (PSub (top p) (Node c a x (Node d b y e)) :: PCtx p (Some x) :: fr) →
  (∀ h', holds h' (PSub (top p) (Node d (Node c a x b) y e) :: PCtx p (Some y) :: fr) → Q tt h') →
  wp (__rb_rotate_left (Some x)) h Q.
Proof.
  intros H HQ. unfold __rb_rotate_left. open_node H. open_node H. wp_steps.
  pull H (PSub (Some y) b). eapply wp_reparent; [done|]. clear H. intros h' H. wp_steps.
  pull H (PCtx p _). pull H (PCell x _). eapply wp_replace_child; [done|]. clear H. intros h'' H. wp_steps.
  apply HQ. close_node H x. close_node H y. by pull H (PSub (top p) _).
Qed.

Lemma wp_rotate_right h p c x a d y b e fr Q :
  holds h (PSub (top p) (Node c (Node d a y b) x e) :: PCtx p (Some x) :: fr) →
  (∀ h', holds h' (PSub (top p) (Node d a y (Node c b x e)) :: PCtx p (Some y) :: fr) → Q tt h') →
  wp (__rb_rotate_right (Some x)) h Q.
Proof.
  intros H HQ. unfold __rb_rotate_right. open_node H. open_node H. wp_steps.
  pull H (PSub (Some y) b). eapply wp_reparent; [done|]. clear H. intros h' H. wp_steps.
  pull H (PCtx p _). pull H (PCell x _). eapply wp_replace_child_r; [done|]. clear H. intros h'' H. wp_steps.
  apply HQ. close_node H x. close_node H y. by pull H (PSub (top p) _).
Qed.

Definition is_red_root (t : tree) : bool := match t with Node RB_RED _ _ _ => true | _ => false end.
Lemma wp_is_red h par t fr Q : holds h (PSub par t :: fr) → Q (is_red_root t) h → wp (is_red (ptr_of t)) h Q.
Proof. intros H HQ. destruct t as [|[] l x r]; cbn [ptr_of]; [|open_node H..]; by wp_steps. Qed.
Lemma wp_is_black h par t fr Q : holds h (PSub par t :: fr) → Q (negb (is_red_root t)) h → wp (is_black (ptr_of t)) h Q.
Proof. intros H HQ. destruct t as [|[] l x r]; cbn [ptr_of]; [|open_node H..]; by wp_steps. Qed.

(** The focus of a tree and the whole tree. *)
Lemma holds_plug h p t fr :
  holds h (PSub (top p) t :: PCtx p (ptr_of t) :: fr) → holds h (PSub None (plug p t) :: PCtx [] (ptr_of (plug p t)) :: fr).
Proof.
  revert t. induction p as [|[c x r|c l x] p IH]; intros t H; [done|..]; cbn [plug foldl]; apply IH.
  - pull H (PCtx _ _). apply holds_stepL in H. cbn [top] in H. close_node H x. by pull H (PSub (top p) _).
  - pull H (PCtx _ _). apply holds_stepR in H. cbn [top] in H. close_node H x. by pull H (PSub (top p) _).
Qed.
Lemma inorder_plug p t : inorder (plug p t) = before p ++ inorder t ++ after p.
Proof.
  revert t. induction p as [|[c x r|c l x] p IH]; intros t; cbn [plug foldl plug_step before after].
  - by rewrite app_nil_r.
  - setoid_rewrite IH. cbn. by rewrite <-!app_assoc.
  - setoid_rewrite IH. cbn. by rewrite <-!app_assoc.
Qed.
End Primitives.

(** ** The red-black invariant *)

Section Balance.
Import Rb.

(** [rbt t c n]: a tree with a root of colour [c] (NULL counts as black) and [n] black nodes on
    every path, no red node with a red child. *)
Inductive rbt : tree → color → nat → Prop :=
  | rbt_leaf : rbt Leaf RB_BLACK 0
  | rbt_red l x r n : rbt l RB_BLACK n → rbt r RB_BLACK n → rbt (Node RB_RED l x r) RB_RED n
  | rbt_black l c x r d n : rbt l c n → rbt r d n → rbt (Node RB_BLACK l x r) RB_BLACK (S n).

(** [rctx p c n]: the tree around a hole; a tree of colour [c] and black height [n] completes it. *)
Inductive rctx : list step → color → nat → Prop :=
  | rctx_top n : rctx [] RB_BLACK n
  | rctx_red_l x r n p : rbt r RB_BLACK n → rctx p RB_RED n → rctx (StepL RB_RED x r :: p) RB_BLACK n
  | rctx_red_r l x n p : rbt l RB_BLACK n → rctx p RB_RED n → rctx (StepR RB_RED l x :: p) RB_BLACK n
  | rctx_black_l x r c d n p : rbt r d n → rctx p RB_BLACK (S n) → rctx (StepL RB_BLACK x r :: p) c n
  | rctx_black_r l x c d n p : rbt l d n → rctx p RB_BLACK (S n) → rctx (StepR RB_BLACK l x :: p) c n.

Lemma rctx_weaken p n : rctx p RB_RED n → rctx p RB_BLACK n.
Proof. inversion 1; subst; by econstructor. Qed.
Lemma rbt_not_red u d n : rbt u d n → is_red_root u = false → rbt u RB_BLACK n.
Proof. intros Hu Hr. inversion Hu; subst; [done|discriminate Hr|done]. Qed.
Lemma rbt_red_root u d n :
  rbt u d n → is_red_root u = true → ∃ l w r, u = Node RB_RED l w r ∧ rbt l RB_BLACK n ∧ rbt r RB_BLACK n.
Proof. intros Hu Hr. inversion Hu; subst; [discriminate Hr| |discriminate Hr]. by do 3 eexists. Qed.
Lemma rbt_plug p t c n : rctx p c n → rbt t c n → ∃ m, rbt (plug p t) RB_BLACK m.
Proof.
  intros Hp. revert t. induction Hp; intros t Ht; cbn [plug foldl plug_step];
    [by eexists|apply IHHp; by econstructor..].
Qed.
(** Below a red node is a black one, which has another child. *)
Lemma rctx_red_inv p n :
  rctx p RB_RED n →
  (∃ z u d q, p = StepL RB_BLACK z u :: q ∧ rbt u d n ∧ rctx q RB_BLACK (S n)) ∨
  (∃ u z d q, p = StepR RB_BLACK u z :: q ∧ rbt u d n ∧ rctx q RB_BLACK (S n)).
Proof. inversion 1; subst; [left|right]; do 4 eexists; split_and!; done. Qed.
End Balance.

(** Equal lists up to association. *)
Ltac in_order := cbn [inorder before after app]; repeat (rewrite <-!app_assoc; cbn [app]); reflexivity.

Section Insertion.
Import Rb.

(** What an operation leaves: a whole tree over the addresses [L]. *)
Definition whole (L : list nat) (fr : list piece) (h : heap) : Prop :=
  ∃ t m, holds h (PSub None t :: PCtx [] (ptr_of t) :: fr) ∧ inorder t = L ∧ rbt t RB_BLACK m.
(** The same with a root that may be red. *)
Definition nearly (L : list nat) (fr : list piece) (h : heap) : Prop :=
  ∃ t c m, holds h (PSub None t :: PCtx [] (ptr_of t) :: fr) ∧ inorder t = L ∧ rbt t c m ∧ t ≠ Leaf.

Lemma plug_whole h p t c n fr L :
  holds h (PSub (top p) t :: PCtx p (ptr_of t) :: fr) → rctx p c n → rbt t c n → L = before p ++ inorder t ++ after p →
  whole L fr h.
Proof.
  intros Hh Hp Ht ->. destruct (rbt_plug _ _ _ _ Hp Ht) as [m Hm].
  exists (plug p t), m. split; [by apply holds_plug|]. split; [apply inorder_plug|done].
Qed.
Lemma plug_nonempty p t : t ≠ Leaf → plug p t ≠ Leaf.
Proof. revert t. induction p as [|s p IH]; intros t Ht; [done|]. cbn. apply IH. by destruct s. Qed.
Lemma plug_nearly h p t c n fr L :
  holds h (PSub (top p) t :: PCtx p (ptr_of t) :: fr) → rctx p c n → rbt t c n → t ≠ Leaf →
  L = before p ++ inorder t ++ after p → nearly L fr h.
Proof.
  intros Hh Hp Ht Hne ->. destruct (rbt_plug _ _ _ _ Hp Ht) as [m Hm].
  exists (plug p t), RB_BLACK, m. split_and!; [by apply holds_plug|apply inorder_plug|done|by apply plug_nonempty].
Qed.

(** The loop ends below a black parent. *)
Lemma insert_stop fuel h x n y m ps Q :
  holds h (PCell x n :: PCell y m :: ps) → rb_parent n = Some y → rb_color m = RB_BLACK → Q tt h →
  wp (insert_loop (S fuel) (Some x)) h Q.
Proof.
  intros H Hp Hc HQ. cbn [insert_loop]. wp_steps. rewrite Hp. wp_steps. by rewrite Hc.
Qed.

(** What the loop with [fuel] does from a red node at the focus. *)
Definition inserts (fr : list piece) (L : list nat) (Q : unit → heap → Prop) (fuel : nat) (p : list step) : Prop :=
  ∀ a x b n h,
    (length p < fuel)%nat → rbt a RB_BLACK n → rbt b RB_BLACK n → rctx p RB_BLACK n →
    holds h (PSub (top p) (Node RB_RED a x b) :: PCtx p (Some x) :: fr) → L = before p ++ (inorder a ++ x :: inorder b) ++ after p →
    (∀ h', nearly L fr h' → Q tt h') → wp (insert_loop fuel (Some x)) h Q.

Lemma insert_below_red_left fr L Q fuel y r p :
  (∀ q, inserts fr L Q fuel q) → inserts fr L Q (S fuel) (StepL RB_RED y r :: p).
Proof.
  intros IH a x b n h Hlen Ha Hb Hp H HL HQ.
  inversion Hp as [|? ? ? ? Hr Hp'|? ? ? ? Hr Hp'| |]; subst.
  cbn [insert_loop]. cbn [top] in H. open_node H. pull H (PCtx _ _). apply holds_stepL in H. wp_steps.
  destruct (rctx_red_inv _ _ Hp') as [(z & u & d & q & -> & Hu & Hq)|(u & z & d & q & -> & Hu & Hq)].
  - pull H (PCtx _ _). apply holds_stepL in H. cbn [top] in H |- *. wp_steps.
    pull H (PSub (Some z) u). eapply wp_is_red; [done|]. destruct (is_red_root u) eqn:Ered.
    + destruct (rbt_red_root _ _ _ Hu Ered) as (u1 & w & u2 & -> & Hu1 & Hu2). open_node H. wp_steps.
      close_node H x. close_node H w. close_node H y. close_node H z.
      eapply (IH q (Node RB_BLACK (Node RB_RED a x b) y r) z (Node RB_BLACK u1 w u2) (S n));
        cbn in Hlen |- *; [lia|by repeat econstructor..|done|done|in_order|done].
    + apply (rbt_not_red _ _ _ Hu) in Ered as Hu'. destruct fuel as [|fuel]; [cbn in Hlen; lia|]. wp_steps.
      pull H (PSub (Some y) r). pull H (PCell x _). rewrite (same_ne (ptr_of r)) by (by eapply not_eq_sym, cell_ptr_ne).
      wp_steps. close_node H x. close_node H y. close_node H z. pull H (PCtx q _). pull H (PSub (top q) _).
      eapply wp_rotate_right; [done|]. clear H. intros h' H. open_node H. pull H (PSub (Some y) (Node RB_RED a x b)). open_node H.
      pull H (PCell y _). pull H (PCell x _). eapply insert_stop; [done..|]. apply HQ.
      close_node H x. close_node H y. pull H (PCtx q _). pull H (PSub (top q) _).
      eapply plug_nearly; [exact H|exact Hq|by repeat econstructor|done|in_order].
  - pull H (PCtx _ _). apply holds_stepR in H. cbn [top] in H |- *. wp_steps.
    pull H (PSub (Some z) u). pull H (PCell y _). rewrite (same_ne (Some y) (ptr_of u)) by (by eapply cell_ptr_ne). wp_steps.
    pull H (PSub (Some z) u). eapply wp_is_red; [done|]. destruct (is_red_root u) eqn:Ered.
    + destruct (rbt_red_root _ _ _ Hu Ered) as (u1 & w & u2 & -> & Hu1 & Hu2). open_node H. wp_steps.
      close_node H x. close_node H w. close_node H y. close_node H z.
      eapply (IH q (Node RB_BLACK u1 w u2) z (Node RB_BLACK (Node RB_RED a x b) y r) (S n));
        cbn in Hlen |- *; [lia|by repeat econstructor..|done|done|in_order|done].
    + apply (rbt_not_red _ _ _ Hu) in Ered as Hu'. destruct fuel as [|fuel]; [cbn in Hlen; lia|]. wp_steps.
      close_node H x. close_node H y. pull H (PCtx q _). pull H (PSub (Some z) u). pull H (PCell z _).
      apply (proj2 (holds_stepR _ _ _ _ q (Some y) _)) in H. pull H (PSub (Some z) _).
      eapply (wp_rotate_right _ (StepR RB_BLACK u z :: q)); [done|]. clear H. intros h' H. cbn [top] in H.
      pull H (PCtx _ _). apply holds_stepR in H. open_node H. wp_steps.
      close_node H x. close_node H z. pull H (PCtx q _). pull H (PSub (top q) _).
      eapply wp_rotate_left; [done|]. clear H. intros h'' H. open_node H. pull H (PSub (Some x) (Node RB_RED _ y _)). open_node H.
      pull H (PCell x _). pull H (PCell y _). eapply insert_stop; [done..|]. apply HQ.
      close_node H y. close_node H x. pull H (PCtx q _). pull H (PSub (top q) _).
      eapply plug_nearly; [exact H|exact Hq|by repeat econstructor|done|in_order].
Qed.
Lemma insert_below_red_right fr L Q fuel l y p :
  (∀ q, inserts fr L Q fuel q) → inserts fr L Q (S fuel) (StepR RB_RED l y :: p).
Proof.
  intros IH a x b n h Hlen Ha Hb Hp H HL HQ.
  inversion Hp as [|? ? ? ? Hr Hp'|? ? ? ? Hr Hp'| |]; subst.
  cbn [insert_loop]. cbn [top] in H. open_node H. pull H (PCtx _ _). apply holds_stepR in H. wp_steps.
  destruct (rctx_red_inv _ _ Hp') as [(z & u & d & q & -> & Hu & Hq)|(u & z & d & q & -> & Hu & Hq)].
  - pull H (PCtx _ _). apply holds_stepL in H. cbn [top] in H |- *. wp_steps.
    pull H (PSub (Some z) u). eapply wp_is_red; [done|]. destruct (is_red_root u) eqn:Ered.
    + destruct (rbt_red_root _ _ _ Hu Ered) as (u1 & w & u2 & -> & Hu1 & Hu2). open_node H. wp_steps.
      close_node H x. close_node H w. close_node H y. close_node H z.
      eapply (IH q (Node RB_BLACK l y (Node RB_RED a x b)) z (Node RB_BLACK u1 w u2) (S n));
        cbn in Hlen |- *; [lia|by repeat econstructor..|done|done|in_order|done].
    + apply (rbt_not_red _ _ _ Hu) in Ered as Hu'. destruct fuel as [|fuel]; [cbn in Hlen; lia|]. wp_steps.
      close_node H x. close_node H y. pull H (PCtx q _). pull H (PSub (Some z) u). pull H (PCell z _).
      apply (proj2 (holds_stepL _ _ _ _ q (Some y) _)) in H. pull H (PSub (Some z) _).
      eapply (wp_rotate_left _ (StepL RB_BLACK z u :: q)); [done|]. clear H. intros h' H. cbn [top] in H.
      pull H (PCtx _ _). apply holds_stepL in H. open_node H. wp_steps.
      close_node H x. close_node H z. pull H (PCtx q _). pull H (PSub (top q) _).
      eapply wp_rotate_right; [done|]. clear H. intros h'' H. open_node H. pull H (PSub (Some x) (Node RB_RED _ y _)). open_node H.
      pull H (PCell x _). pull H (PCell y _). eapply insert_stop; [done..|]. apply HQ.
      close_node H y. close_node H x. pull H (PCtx q _). pull H (PSub (top q) _).
      eapply plug_nearly; [exact H|exact Hq|by repeat econstructor|done|in_order].
  - pull H (PCtx _ _). apply holds_stepR in H. cbn [top] in H |- *. wp_steps.
    pull H (PSub (Some z) u). pull H (PCell y _). rewrite (same_ne (Some y) (ptr_of u)) by (by eapply cell_ptr_ne). wp_steps.
    pull H (PSub (Some z) u). eapply wp_is_red; [done|]. destruct (is_red_root u) eqn:Ered.
    + destruct (rbt_red_root _ _ _ Hu Ered) as (u1 & w & u2 & -> & Hu1 & Hu2). open_node H. wp_steps.
      close_node H x. close_node H w. close_node H y. close_node H z.
      eapply (IH q (Node RB_BLACK u1 w u2) z (Node RB_BLACK l y (Node RB_RED a x b)) (S n));
        cbn in Hlen |- *; [lia|by repeat econstructor..|done|done|in_order|done].
    + apply (rbt_not_red _ _ _ Hu) in Ered as Hu'. destruct fuel as [|fuel]; [cbn in Hlen; lia|]. wp_steps.
      pull H (PSub (Some y) l). pull H (PCell x _). rewrite (same_ne (ptr_of l)) by (by eapply not_eq_sym, cell_ptr_ne).
      wp_steps. close_node H x. close_node H y. close_node H z. pull H (PCtx q _). pull H (PSub (top q) _).
      eapply wp_rotate_left; [done|]. clear H. intros h' H. open_node H. pull H (PSub (Some y) (Node RB_RED a x b)). open_node H.
      pull H (PCell y _). pull H (PCell x _). eapply insert_stop; [done..|]. apply HQ.
      close_node H x. close_node H y. pull H (PCtx q _). pull H (PSub (top q) _).
      eapply plug_nearly; [exact H|exact Hq|by repeat econstructor|done|in_order].
Qed.
Lemma insert_below_black_left fr L Q fuel y r p : inserts fr L Q (S fuel) (StepL RB_BLACK y r :: p).
Proof.
  intros a x b n h Hlen Ha Hb Hp H HL HQ.
  cbn [insert_loop]. cbn [top] in H. open_node H. pull H (PCtx _ _). apply holds_stepL in H. wp_steps.
  apply HQ. close_node H x. pull H (PCtx p _). pull H (PSub (Some y) r). pull H (PCell y _).
  apply (proj2 (holds_stepL _ _ _ _ p (Some x) _)) in H. pull H (PSub (Some y) (Node _ _ _ _)).
  eapply (plug_nearly _ (StepL RB_BLACK y r :: p) (Node RB_RED a x b) RB_RED n); [exact H| |by constructor|done|done].
  by inversion Hp; econstructor.
Qed.
Lemma insert_below_black_right fr L Q fuel l y p : inserts fr L Q (S fuel) (StepR RB_BLACK l y :: p).
Proof.
  intros a x b n h Hlen Ha Hb Hp H HL HQ.
  cbn [insert_loop]. cbn [top] in H. open_node H. pull H (PCtx _ _). apply holds_stepR in H. wp_steps.
  apply HQ. close_node H x. pull H (PCtx p _). pull H (PSub (Some y) l). pull H (PCell y _).
  apply (proj2 (holds_stepR _ _ _ _ p (Some x) _)) in H. pull H (PSub (Some y) (Node _ _ _ _)).
  eapply (plug_nearly _ (StepR RB_BLACK l y :: p) (Node RB_RED a x b) RB_RED n); [exact H| |by constructor|done|done].
  by inversion Hp; econstructor.
Qed.
Lemma insert_loop_spec fr L Q fuel p : inserts fr L Q fuel p.
Proof.
  revert p. induction fuel as [|fuel IH]; intros p; [intros a x b n h Hlen; lia|].
  destruct p as [|[[] y r|[] l y] p];
    [|by apply insert_below_red_left|by apply insert_below_black_left|by apply insert_below_red_right|by apply insert_below_black_right].
  intros a x b n h Hlen Ha Hb Hp H HL HQ. cbn [insert_loop]. open_node H. wp_steps. apply HQ. close_node H x.
  exists (Node RB_RED a x b), RB_RED, n. split; [done|]. split; [by rewrite HL, app_nil_r|]. split; [by constructor|done].
Qed.
End Insertion.

Section Erasure.
Import Rb.

Definition blacken (t : tree) : tree := match t with Node _ l x r => Node RB_BLACK l x r | Leaf => Leaf end.
Lemma ptr_of_blacken t : ptr_of (blacken t) = ptr_of t.
Proof. by destruct t. Qed.
Lemma blacken_black t n : rbt t RB_BLACK n → blacken t = t.
Proof. by inversion 1. Qed.
(** The black height of a node over children of height [n]. *)
Definition height (c : color) (n : nat) : nat := match c with RB_RED => n | RB_BLACK => S n end.
Lemma rbt_node c l x r n : rbt l RB_BLACK n → rbt r RB_BLACK n → rbt (Node c l x r) c (height c n).
Proof. destruct c; [by constructor|by econstructor]. Qed.
Lemma rctx_stepL_inv c x r p n :
  rctx (StepL c x r :: p) RB_BLACK n → ∃ d, rbt r d n ∧ (c = RB_RED → d = RB_BLACK) ∧ rctx p c (height c n).
Proof. inversion 1; subst; by eexists. Qed.
Lemma rctx_stepR_inv c l x p n :
  rctx (StepR c l x :: p) RB_BLACK n → ∃ d, rbt l d n ∧ (c = RB_RED → d = RB_BLACK) ∧ rctx p c (height c n).
Proof. inversion 1; subst; by eexists. Qed.

(** The root pointer, seen from below a path. *)
Fixpoint root_of (p : list step) (hole : ptr) : ptr :=
  match p with [] => hole | StepL _ x _ :: p | StepR _ _ x :: p => root_of p (Some x) end.
Lemma wp_root_of h p hole ps (Q : ptr → heap → Prop) :
  holds h (PCtx p hole :: ps) → Q (root_of p hole) h → wp get_root h Q.
Proof.
  intros [[Hx _]%Forall_cons _] HQ. cbn in Hx. unfold wp, get_root.
  replace (root h) with (root_of p hole); [done|].
  clear HQ. revert hole Hx. induction p as [|[c x r|c l x] p IH]; intros hole; [done|..]; intros (_ & _ & Hp); by apply IH.
Qed.
Lemma root_of_above s p hole : ∃ x, root_of (s :: p) hole = Some x ∧ x ∈ before (s :: p) ++ after (s :: p).
Proof.
  revert s hole. induction p as [|s' p IH]; intros s hole; [destruct s as [c x r|c l x]; exists x; set_solver|].
  destruct s as [c x r|c l x]; destruct (IH s' (Some x)) as (y & Hy & Hin); exists y;
    (split; [exact Hy|]); revert Hin; cbn [before after]; set_solver.
Qed.
Lemma not_root h s p hole par t fr : holds h (PSub par t :: PCtx (s :: p) hole :: fr) → same (ptr_of t) (root_of (s :: p) hole) = false.
Proof.
  intros [_ Hn]. apply same_ne. destruct (root_of_above s p hole) as (x & -> & Hx).
  destruct t as [|c l y r]; [done|]. cbn [ptr_of]. intros [= ->].
  rewrite bind_cons in Hn. apply NoDup_app in Hn as (_ & Hd & _). apply (Hd (Some x)).
  - cbn. rewrite fmap_app. set_solver.
  - rewrite bind_cons. apply elem_of_app. left. cbn [foot]. right. by apply list_elem_of_fmap_2.
Qed.

(** A subtree that lacks a black node: one of height [n] where [S n] is asked for, unless its root
    is red and painting it black is enough. *)
Definition deficient (t : tree) (n : nat) : Prop :=
  rbt t RB_BLACK n ∨ is_red_root t = true ∧ rbt (blacken t) RB_BLACK (S n).
(** What the loop leaves: painting the answer black completes the tree. *)
Definition settled (L : list nat) (fr : list piece) (q : ptr) (h : heap) : Prop :=
  ∃ p t m, q = ptr_of t ∧ holds h (PSub (top p) t :: PCtx p (ptr_of t) :: fr)
    ∧ L = before p ++ inorder t ++ after p ∧ rbt (plug p (blacken t)) RB_BLACK m.

Lemma whole_settled h p c n t fr L :
  holds h (PSub (top p) t :: PCtx p (ptr_of t) :: fr) → rctx p c n → rbt t c n → L = before p ++ inorder t ++ after p →
  ∃ T m, holds h (PSub None T :: PCtx [] (ptr_of T) :: fr) ∧ L = inorder T ∧ rbt T RB_BLACK m.
Proof.
  intros Hh Hp Ht HL. destruct (rbt_plug _ _ _ _ Hp Ht) as [m Hm]. exists (plug p t), m.
  split; [by apply holds_plug|]. split; [by rewrite inorder_plug|done].
Qed.
Lemma settled_root h p c n t fr L (Q : ptr → heap → Prop) :
  holds h (PSub (top p) t :: PCtx p (ptr_of t) :: fr) → rctx p c n → rbt t c n → L = before p ++ inorder t ++ after p →
  (∀ q h', settled L fr q h' → Q q h') → wp get_root h Q.
Proof.
  intros Hh Hp Ht HL HQ. destruct (whole_settled _ _ _ _ _ _ _ Hh Hp Ht HL) as (T & m & HT & -> & Hm).
  pull HT (PCtx [] _). eapply wp_get_root; [done|]. apply HQ. exists [], T, m. split_and!; [done| |by rewrite app_nil_r|].
  - by pull HT (PSub None _).
  - cbn. by rewrite (blacken_black _ _ Hm).
Qed.
Lemma wp_both_black h par c l x r fr Q :
  holds h (PSub par (Node c l x r) :: fr) → Q (negb (is_red_root l) && negb (is_red_root r)) h → wp (both_black (Some x)) h Q.
Proof.
  intros H HQ. unfold both_black. open_node H. wp_steps. pull H (PSub (Some x) l). eapply wp_is_black; [done|].
  destruct (is_red_root l); cbn [negb andb] in *; wp_steps; [done|]. pull H (PSub (Some x) r). by eapply wp_is_black.
Qed.

(** What the loop does from a deficient subtree at the focus. *)
Definition erases (fr : list piece) (L : list nat) (Q : ptr → heap → Prop) (fuel : nat) (p : list step) : Prop :=
  ∀ t n h,
    (length p < fuel)%nat ∨ (is_red_root t = true ∧ (0 < fuel)%nat) → deficient t n → rctx p RB_BLACK (S n) →
    holds h (PSub (top p) t :: PCtx p (ptr_of t) :: fr) → L = before p ++ inorder t ++ after p →
    (∀ q h', settled L fr q h' → Q q h') → wp (erase_loop fuel (ptr_of t) (top p)) h Q.

Lemma replace_parent_l_spec h p c t x d a y b v e n fr L (Q : ptr → heap → Prop) :
  holds h (PSub (top p) (Node c t x (Node d a y (Node RB_RED b v e))) :: PCtx p (Some x) :: fr) →
  rbt t RB_BLACK n → rbt b RB_BLACK n → rbt e RB_BLACK n → (∃ c', rbt a c' n) → rctx p c (height c (S n)) →
  L = before p ++ inorder (Node c t x (Node d a y (Node RB_RED b v e))) ++ after p →
  (∀ q h', settled L fr q h' → Q q h') → wp (replace_parent_l (Some x) (Some y)) h Q.
Proof.
  intros H Ht Hb He [c' Ha] Hp HL HQ. unfold replace_parent_l, when_ptr. do 3 open_node H. wp_steps. cbn [non_null]. wp_steps.
  close_node H v. close_node H y. close_node H x. pull H (PCtx p _). pull H (PSub (top p) _).
  eapply wp_rotate_left; [done|]. clear H. intros h' H.
  eapply settled_root; [exact H|exact Hp|apply rbt_node; by econstructor| |done]. rewrite HL. in_order.
Qed.

Lemma outer_red_l_spec h p c t x o y i n fr L (Q : ptr → heap → Prop) :
  holds h (PSub (top p) (Node c t x (Node RB_BLACK i y o)) :: PCtx p (Some x) :: fr) →
  rbt t RB_BLACK n → (∃ d, rbt i d n) → (∃ d, rbt o d n) → negb (is_red_root i) && negb (is_red_root o) = false →
  rctx p c (height c (S n)) → L = before p ++ inorder (Node c t x (Node RB_BLACK i y o)) ++ after p →
  (∀ q h', settled L fr q h' → Q q h') →
  wp (other ← outer_red_l (Some x) (Some y); replace_parent_l (Some x) other) h Q.
Proof.
  intros H Ht [di Hi] [do Ho] Hbb Hp HL HQ. apply wp_bind. unfold outer_red_l, when_ptr. do 2 open_node H. wp_steps.
  pull H (PSub (Some y) o). eapply wp_is_black; [done|]. destruct (is_red_root o) eqn:Eo; cbn [negb]; wp_steps.
  - destruct (rbt_red_root _ _ _ Ho Eo) as (b & v & e & -> & Hb & He).
    close_node H y. close_node H x. pull H (PCtx p _). pull H (PSub (top p) _).
    eapply replace_parent_l_spec; [exact H|done..|by eexists|exact Hp|done|done].
  - assert (is_red_root i = true) as Ei by (destruct (is_red_root i); [done|by cbn in Hbb]).
    destruct (rbt_red_root _ _ _ Hi Ei) as (b & v & e & -> & Hb & He).
    cbn [ptr_of non_null]. open_node H. wp_steps. close_node H v. close_node H y.
    pull H (PCtx p _). pull H (PSub (Some x) t). pull H (PCell x _).
    apply (proj2 (holds_stepR _ _ _ _ p (Some y) _)) in H. pull H (PSub (Some x) _).
    eapply (wp_rotate_right _ (StepR c t x :: p)); [exact H|]. clear H. intros h' H. cbn [top] in H.
    pull H (PCtx _ _). apply holds_stepR in H. wp_steps.
    close_node H x. pull H (PCtx p _). pull H (PSub (top p) _).
    eapply replace_parent_l_spec; [exact H|done|done|by eapply rbt_not_red|by eexists|exact Hp| |done]. rewrite HL. in_order.
Qed.

(** The turn below a black sibling. *)
Lemma black_sibling_l_spec fuel h p c t x o y i n fr L Q :
  (c = RB_RED ∨ (length p < fuel)%nat) → (0 < fuel)%nat → erases fr L Q fuel p →
  holds h (PSub (top p) (Node c t x (Node RB_BLACK i y o)) :: PCtx p (Some x) :: fr) →
  rbt t RB_BLACK n → (∃ d, rbt i d n) → (∃ d, rbt o d n) → rctx p c (height c (S n)) →
  L = before p ++ inorder (Node c t x (Node RB_BLACK i y o)) ++ after p →
  (∀ q h', settled L fr q h' → Q q h') →
  wp (both_black (Some y)) h (λ bb h,
    wp (if bb : bool then put (set_color RB_RED) (Some y);; up ← get rb_parent (Some x); erase_loop fuel (Some x) up
        else other ← outer_red_l (Some x) (Some y); replace_parent_l (Some x) other) h Q).
Proof.
  intros Hlen Hfuel IH H Ht Hi Ho Hp HL HQ. open_node H. pull H (PSub (Some x) (Node _ _ _ _)). eapply wp_both_black; [done|].
  destruct (negb (is_red_root i) && negb (is_red_root o)) eqn:Ebb.
  - apply andb_prop in Ebb as [Ei%negb_true_iff Eo%negb_true_iff]. destruct Hi as [di Hi], Ho as [do Ho].
    apply (rbt_not_red _ _ _ Hi) in Ei. apply (rbt_not_red _ _ _ Ho) in Eo. open_node H. wp_steps.
    close_node H y. close_node H x. pull H (PCtx p _). pull H (PSub (top p) _).
    destruct c; cbn [height] in Hp.
    + eapply (IH (Node RB_RED t x (Node RB_RED i y o)) n); [right; split; [done|lia]|right; split; [done|by repeat econstructor]|by apply rctx_weaken|exact H|exact HL|done].
    + eapply (IH (Node RB_BLACK t x (Node RB_RED i y o)) (S n)); [left; destruct Hlen; [done|lia]|left; by repeat econstructor|done|exact H|exact HL|done].
  - close_node H x. pull H (PCtx p _). pull H (PSub (top p) _). by eapply outer_red_l_spec.
Qed.

Lemma replace_parent_r_spec h p c t x d a y b v e n fr L (Q : ptr → heap → Prop) :
  holds h (PSub (top p) (Node c (Node d (Node RB_RED e v b) y a) x t) :: PCtx p (Some x) :: fr) →
  rbt t RB_BLACK n → rbt b RB_BLACK n → rbt e RB_BLACK n → (∃ c', rbt a c' n) → rctx p c (height c (S n)) →
  L = before p ++ inorder (Node c (Node d (Node RB_RED e v b) y a) x t) ++ after p →
  (∀ q h', settled L fr q h' → Q q h') → wp (replace_parent_r (Some x) (Some y)) h Q.
Proof.
  intros H Ht Hb He [c' Ha] Hp HL HQ. unfold replace_parent_r, when_ptr. do 3 open_node H. wp_steps. cbn [non_null]. wp_steps.
  close_node H v. close_node H y. close_node H x. pull H (PCtx p _). pull H (PSub (top p) _).
  eapply wp_rotate_right; [done|]. clear H. intros h' H.
  eapply settled_root; [exact H|exact Hp|apply rbt_node; by econstructor| |done]. rewrite HL. in_order.
Qed.

Lemma outer_red_r_spec h p c t x o y i n fr L (Q : ptr → heap → Prop) :
  holds h (PSub (top p) (Node c (Node RB_BLACK o y i) x t) :: PCtx p (Some x) :: fr) →
  rbt t RB_BLACK n → (∃ d, rbt i d n) → (∃ d, rbt o d n) → negb (is_red_root o) && negb (is_red_root i) = false →
  rctx p c (height c (S n)) → L = before p ++ inorder (Node c (Node RB_BLACK o y i) x t) ++ after p →
  (∀ q h', settled L fr q h' → Q q h') →
  wp (other ← outer_red_r (Some x) (Some y); replace_parent_r (Some x) other) h Q.
Proof.
  intros H Ht [di Hi] [do Ho] Hbb Hp HL HQ. apply wp_bind. unfold outer_red_r, when_ptr. do 2 open_node H. wp_steps.
  pull H (PSub (Some y) o). eapply wp_is_black; [done|]. destruct (is_red_root o) eqn:Eo; cbn [negb]; wp_steps.
  - destruct (rbt_red_root _ _ _ Ho Eo) as (e & v & b & -> & Hb & He).
    close_node H y. close_node H x. pull H (PCtx p _). pull H (PSub (top p) _).
    eapply replace_parent_r_spec; [exact H|done..|by eexists|exact Hp|done|done].
  - assert (is_red_root i = true) as Ei by (destruct (is_red_root i); [done|by cbn in Hbb]).
    destruct (rbt_red_root _ _ _ Hi Ei) as (e & v & b & -> & Hb & He).
    cbn [ptr_of non_null]. open_node H. wp_steps. close_node H v. close_node H y.
    pull H (PCtx p _). pull H (PSub (Some x) t). pull H (PCell x _).
    apply (proj2 (holds_stepL _ _ _ _ p (Some y) _)) in H. pull H (PSub (Some x) _).
    eapply (wp_rotate_left _ (StepL c x t :: p)); [exact H|]. clear H. intros h' H. cbn [top] in H.
    pull H (PCtx _ _). apply holds_stepL in H. wp_steps.
    close_node H x. pull H (PCtx p _). pull H (PSub (top p) _).
    eapply replace_parent_r_spec; [exact H|done|done|by eapply rbt_not_red|by eexists|exact Hp| |done]. rewrite HL. in_order.
Qed.

(** The turn below a black sibling. *)
Lemma black_sibling_r_spec fuel h p c t x o y i n fr L Q :
  (c = RB_RED ∨ (length p < fuel)%nat) → (0 < fuel)%nat → erases fr L Q fuel p →
  holds h (PSub (top p) (Node c (Node RB_BLACK o y i) x t) :: PCtx p (Some x) :: fr) →
  rbt t RB_BLACK n → (∃ d, rbt i d n) → (∃ d, rbt o d n) → rctx p c (height c (S n)) →
  L = before p ++ inorder (Node c (Node RB_BLACK o y i) x t) ++ after p →
  (∀ q h', settled L fr q h' → Q q h') →
  wp (both_black (Some y)) h (λ bb h,
    wp (if bb : bool then put (set_color RB_RED) (Some y);; up ← get rb_parent (Some x); erase_loop fuel (Some x) up
        else other ← outer_red_r (Some x) (Some y); replace_parent_r (Some x) other) h Q).
Proof.
  intros Hlen Hfuel IH H Ht Hi Ho Hp HL HQ. open_node H. pull H (PSub (Some x) (Node _ _ _ _)). eapply wp_both_black; [done|].
  destruct (negb (is_red_root o) && negb (is_red_root i)) eqn:Ebb.
  - apply andb_prop in Ebb as [Ei%negb_true_iff Eo%negb_true_iff]. destruct Hi as [di Hi], Ho as [do Ho].
    apply (rbt_not_red _ _ _ Ho) in Ei. apply (rbt_not_red _ _ _ Hi) in Eo. open_node H. wp_steps.
    close_node H y. close_node H x. pull H (PCtx p _). pull H (PSub (top p) _).
    destruct c; cbn [height] in Hp.
    + eapply (IH (Node RB_RED (Node RB_RED o y i) x t) n); [right; split; [done|lia]|right; split; [done|by repeat econstructor]|by apply rctx_weaken|exact H|exact HL|done].
    + eapply (IH (Node RB_BLACK (Node RB_RED o y i) x t) (S n)); [left; destruct Hlen; [done|lia]|left; by repeat econstructor|done|exact H|exact HL|done].
  - close_node H x. pull H (PCtx p _). pull H (PSub (top p) _). by eapply outer_red_r_spec.
Qed.

Lemma red_settled h p t n fr L :
  holds h (PSub (top p) t :: PCtx p (ptr_of t) :: fr) → is_red_root t = true → deficient t n → rctx p RB_BLACK (S n) →
  L = before p ++ inorder t ++ after p → settled L fr (ptr_of t) h.
Proof.
  intros H Et [Ht|[_ Ht]] Hp HL; [by inversion Ht; subst|]. destruct (rbt_plug _ _ _ _ Hp Ht) as [m Hm].
  by exists p, t, m.
Qed.
(** A left sibling that has a black node is not the node itself. *)
Lemma sibling_ne h par t par' r d n fr : holds h (PSub par' r :: PSub par t :: fr) → rbt r d (S n) → same (ptr_of r) (ptr_of t) = false.
Proof.
  intros H Hr. destruct r as [|c l y r]; [by inversion Hr|]. open_node H. pull H (PSub par t). pull H (PCell y _).
  apply same_ne. by eapply cell_ptr_ne.
Qed.

Lemma erase_step_l fr L Q fuel c x r p : (∀ q, erases fr L Q fuel q) → erases fr L Q (S fuel) (StepL c x r :: p).
Proof.
  intros IH t n h Hlen Hdef Hp H HL HQ. cbn [erase_loop]. wp_step. eapply wp_is_black; [done|].
  destruct (is_red_root t) eqn:Et; cbn [negb]; wp_step; pull H (PCtx _ _); (eapply wp_root_of; [done|]); pull H (PSub _ t).
  - cbn [andb]. wp_steps. apply HQ. by eapply red_settled.
  - destruct Hdef as [Ht|[? _]]; [|congruence]. destruct Hlen as [Hlen|[? _]]; [cbn in Hlen|congruence].
    rewrite (not_root _ _ _ _ _ _ _ H). cbn [negb andb top] in H |- *. pull H (PCtx _ _). apply holds_stepL in H.
    destruct (rctx_stepL_inv _ _ _ _ _ Hp) as (d & Hr & Hcd & Hp').
    wp_steps.  wp_steps. unfold sibling_l. inversion Hr as [|i y o ? Hi Ho|i ? y o ? ? Hi Ho]; subst; open_node H; wp_steps.
    + assert (c = RB_BLACK) as -> by (by destruct c; [discriminate Hcd|]).
      close_node H y. close_node H x. pull H (PCtx p _). pull H (PSub (top p) _).
      eapply wp_rotate_left; [exact H|]. clear H. intros h' H. open_node H. pull H (PSub (Some y) (Node RB_RED _ x _)). open_node H. wp_steps.
      inversion Hi as [|?|i' ? w o' ? ? Hi' Ho']; subst. cbn [ptr_of] in H |- *. close_node H x.
      pull H (PCtx p _). pull H (PSub (Some y) o). pull H (PCell y _). apply (proj2 (holds_stepL _ _ _ _ p (Some x) _)) in H.
      pull H (PSub (Some y) (Node _ _ x _)).
      eapply (black_sibling_l_spec _ _ (StepL RB_BLACK y o :: p)); [by left|lia|apply IH|exact H|done|by eexists..|by econstructor| |done].
      in_order.
    + close_node H y. close_node H x. pull H (PCtx p _). pull H (PSub (top p) _).
      eapply black_sibling_l_spec; [right|lia|apply IH|exact H|done|by eexists..|done| |done]; [lia|in_order].
Qed.

Lemma erase_step_r fr L Q fuel c r x p : (∀ q, erases fr L Q fuel q) → erases fr L Q (S fuel) (StepR c r x :: p).
Proof.
  intros IH t n h Hlen Hdef Hp H HL HQ. cbn [erase_loop]. wp_step. eapply wp_is_black; [done|].
  destruct (is_red_root t) eqn:Et; cbn [negb]; wp_step; pull H (PCtx _ _); (eapply wp_root_of; [done|]); pull H (PSub _ t).
  - cbn [andb]. wp_steps. apply HQ. by eapply red_settled.
  - destruct Hdef as [Ht|[? _]]; [|congruence]. destruct Hlen as [Hlen|[? _]]; [cbn in Hlen|congruence].
    rewrite (not_root _ _ _ _ _ _ _ H). cbn [negb andb top] in H |- *. pull H (PCtx _ _). apply holds_stepR in H.
    destruct (rctx_stepR_inv _ _ _ _ _ Hp) as (d & Hr & Hcd & Hp').
    wp_steps. pull H (PSub (Some x) t). pull H (PSub (Some x) r). rewrite (sibling_ne _ _ _ _ _ _ _ _ H Hr). wp_steps. unfold sibling_r. inversion Hr as [|i y o ? Hi Ho|i ? y o ? ? Hi Ho]; subst; open_node H; wp_steps.
    + assert (c = RB_BLACK) as -> by (by destruct c; [discriminate Hcd|]).
      close_node H y. close_node H x. pull H (PCtx p _). pull H (PSub (top p) _).
      eapply wp_rotate_right; [exact H|]. clear H. intros h' H. open_node H. pull H (PSub (Some y) (Node RB_RED _ x _)). open_node H. wp_steps.
      inversion Ho as [|?|i' ? w o' ? ? Hi' Ho']; subst. cbn [ptr_of] in H |- *. close_node H x.
      pull H (PCtx p _). pull H (PSub (Some y) i). pull H (PCell y _). apply (proj2 (holds_stepR _ _ _ _ p (Some x) _)) in H.
      pull H (PSub (Some y) (Node _ _ x _)).
      eapply (black_sibling_r_spec _ _ (StepR RB_BLACK i y :: p)); [by left|lia|apply IH|exact H|done|by eexists..|by econstructor| |done].
      in_order.
    + close_node H y. close_node H x. pull H (PCtx p _). pull H (PSub (top p) _).
      eapply black_sibling_r_spec; [right|lia|apply IH|exact H|done|by eexists..|done| |done]; [lia|in_order].
Qed.

Lemma erase_loop_spec fr L Q fuel p : erases fr L Q fuel p.
Proof.
  revert p. induction fuel as [|fuel IH]; intros p; [intros t n h [Hlen|[_ Hlen]]; lia|].
  destruct p as [|[c x r|c l x] p]; [|by apply erase_step_l|by apply erase_step_r].
  intros t n h Hlen Hdef Hp H HL HQ. cbn [erase_loop]. wp_step. eapply wp_is_black; [done|].
  wp_step; pull H (PCtx _ _); (eapply wp_root_of; [done|]); pull H (PSub _ t). cbn [root_of]. rewrite same_refl, andb_false_r.
  wp_step. apply HQ. destruct (is_red_root t) eqn:Et; [by eapply red_settled|].
  destruct Hdef as [Ht|[? _]]; [|congruence]. exists [], t, n. split_and!; [done..|]. cbn. by rewrite (blacken_black _ _ Ht).
Qed.

(** Fuel: the addresses of a piece are allocated and distinct. *)
Lemma sat_tree_dom h par t : sat_tree h par t → ∀ x, x ∈ inorder t → is_Some (cells h !! x).
Proof.
  revert par. induction t as [|c l IHl y r IHr]; intros par; cbn; [set_solver|].
  intros (Hy & Hl & Hr) x Hx. apply elem_of_app in Hx as [Hx|[->|Hx]%elem_of_cons]; eauto.
Qed.
Lemma sat_ctx_dom h p hole : sat_ctx h p hole → ∀ x, x ∈ before p ++ after p → is_Some (cells h !! x).
Proof.
  revert hole. induction p as [|[c y r|c l y] p IH]; intros hole; cbn; [set_solver|..]; intros (Hy & Hr & Hp) x Hx.
  - apply elem_of_app in Hx as [Hx|[->|[Hx|Hx]%elem_of_app]%elem_of_cons]; eauto using sat_tree_dom; eapply IH; set_solver.
  - rewrite <-!app_assoc in Hx. apply elem_of_app in Hx as [Hx|[Hx|[->|Hx]%elem_of_cons]%elem_of_app]; eauto using sat_tree_dom; eapply IH; set_solver.
Qed.
Lemma size_cells h L : NoDup L → (∀ x, x ∈ L → is_Some (cells h !! x)) → (length L ≤ size (cells h))%nat.
Proof.
  intros Hn Hd. rewrite <-size_dom, <-(size_list_to_set (C := gset nat) L Hn).
  apply subseteq_size. intros x Hx. apply elem_of_dom, Hd. by apply elem_of_list_to_set in Hx.
Qed.
Lemma size_tree h par t ps : holds h (PSub par t :: ps) → (length (inorder t) ≤ size (cells h))%nat.
Proof.
  intros [[Ht _]%Forall_cons Hn]. apply size_cells; [|by eapply sat_tree_dom].
  cbn in Hn. apply NoDup_app in Hn as [Hn _]. by apply NoDup_fmap in Hn; [|apply _].
Qed.
Lemma size_path h p hole ps : holds h (PCtx p hole :: ps) → (length p ≤ size (cells h))%nat.
Proof.
  intros [[Ht _]%Forall_cons Hn]. transitivity (length (before p ++ after p)).
  - clear. induction p as [|[c x r|c l x] p IH]; cbn in *; rewrite ?length_app in *; cbn; rewrite ?length_app; cbn; lia.
  - apply size_cells; [|by eapply sat_ctx_dom]. cbn in Hn. apply NoDup_cons in Hn as [_ Hn].
    apply NoDup_app in Hn as [Hn _]. by apply NoDup_fmap in Hn; [|apply _].
Qed.
Lemma wp_fueled {A} (loop : nat → M A) h Q : wp (loop (S (S (size (cells h))))) h Q → wp (fueled loop) h Q.
Proof. done. Qed.

(** Painting the answer of the loop black completes the tree. *)
Lemma settled_whole L fr q h Q : settled L fr q h → (∀ h', whole L fr h' → Q tt h') → wp (when_ptr q (put (set_color RB_BLACK) q)) h Q.
Proof.
  intros (p & t & m & -> & H & HL & Hm) HQ.
  assert (∀ h', holds h' (PSub (top p) (blacken t) :: PCtx p (ptr_of t) :: fr) → whole L fr h') as Hw.
  { intros h' H'. exists (plug p (blacken t)), m. split; [apply holds_plug; by rewrite ptr_of_blacken|].
    split; [|done]. rewrite inorder_plug, HL. by destruct t. }
  unfold when_ptr. destruct t as [|c l x r]; cbn [ptr_of non_null blacken] in *.
  - wp_step. by apply HQ, Hw.
  - open_node H. wp_steps. apply HQ, Hw. close_node H x. by pull H (PSub (top p) _).
Qed.
Lemma rbt_deficient t d n : rbt t d n → deficient t n.
Proof. inversion 1; subst; [left; constructor|right; split; [done|by econstructor]|left; by econstructor]. Qed.

Lemma wp_erase_color h p t n fr Q L :
  deficient t n → rctx p RB_BLACK (S n) → holds h (PSub (top p) t :: PCtx p (ptr_of t) :: fr) → L = before p ++ inorder t ++ after p →
  (∀ h', whole L fr h' → Q tt h') → wp (__rb_erase_color (ptr_of t) (top p)) h Q.
Proof.
  intros Hd Hp H HL HQ. apply wp_bind, wp_fueled. eapply erase_loop_spec; [left|done..|].
  - pull H (PCtx p _). apply size_path in H. lia.
  - intros q h' Hs. by eapply settled_whole.
Qed.
End Erasure.

Section Whole.
Import Rb.

Lemma plug_app q p t : plug (q ++ p) t = plug p (plug q t).
Proof. apply foldl_app. Qed.
Lemma before_app q p : before (q ++ p) = before p ++ before q.
Proof. induction q as [|[c x r|c l x] q IH]; cbn; [by rewrite app_nil_r|done|]. by rewrite IH, <-!app_assoc. Qed.
Lemma after_app q p : after (q ++ p) = after q ++ after p.
Proof. induction q as [|[c x r|c l x] q IH]; cbn; [done| |done]. by rewrite IH, <-!app_assoc. Qed.
(** Moving the focus down a path. *)
Lemma holds_focus h q p t fr :
  holds h (PSub (top p) (plug q t) :: PCtx p (ptr_of (plug q t)) :: fr) ↔
  holds h (PSub (top (q ++ p)) t :: PCtx (q ++ p) (ptr_of t) :: fr).
Proof.
  revert t. induction q as [|[c x r|c l x] q IH]; intros t; [done|..]; cbn [plug foldl app]; unfold plug in IH; rewrite IH; cbn [plug_step].
  - split; intros H; cbn [top] in *.
    + open_node H. pull H (PCtx _ _). pull H (PSub (Some x) r). pull H (PCell x _).
      apply (proj2 (holds_stepL _ _ _ _ (q ++ p) _ _)) in H. by pull H (PSub (Some x) t).
    + pull H (PCtx _ _). apply holds_stepL in H. pull H (PSub (Some x) r). pull H (PSub (Some x) t). close_node H x. by pull H (PSub (top (q ++ p)) _).
  - split; intros H; cbn [top] in *.
    + open_node H. pull H (PCtx _ _). pull H (PSub (Some x) l). pull H (PCell x _).
      apply (proj2 (holds_stepR _ _ _ _ (q ++ p) _ _)) in H. by pull H (PSub (Some x) t).
    + pull H (PCtx _ _). apply holds_stepR in H. close_node H x. by pull H (PSub (top (q ++ p)) _).
Qed.
Lemma rbt_unplug p t m : rbt (plug p t) RB_BLACK m → ∃ c n, rctx p c n ∧ rbt t c n.
Proof.
  revert t. induction p as [|[c x r|c l x] p IH]; intros t H; [by do 2 eexists; split; [constructor|]|..];
    destruct (IH _ H) as (d & n & Hp & Ht); inversion Ht; subst; do 2 eexists; (split; [|done]); by econstructor.
Qed.
Lemma elem_plug x t : x ∈ inorder t → ∃ p c l r, t = plug p (Node c l x r).
Proof.
  induction t as [|c l IHl y r IHr]; cbn; [set_solver|]. intros [Hx|[->|Hx]%elem_of_cons]%elem_of_app.
  - destruct (IHl Hx) as (p & c' & l' & r' & ->). exists (p ++ [StepL c y r]), c', l', r'. by rewrite plug_app.
  - by exists [], c, l, r.
  - destruct (IHr Hx) as (p & c' & l' & r' & ->). exists (p ++ [StepR c l y]), c', l', r'. by rewrite plug_app.
Qed.

(** The tree around one of its nodes. *)
Definition focused (L1 : list nat) (x : nat) (L2 : list nat) (fr : list piece) (h : heap) (p : list step) (c : color) (l r : tree) : Prop :=
  holds h (PSub (top p) (Node c l x r) :: PCtx p (Some x) :: fr) ∧ (∃ m, rbt (plug p (Node c l x r)) RB_BLACK m)
  ∧ L1 = before p ++ inorder l ∧ L2 = inorder r ++ after p.
Lemma NoDup_split {A} (x : A) l1 l2 k1 k2 : NoDup (l1 ++ x :: l2) → l1 ++ x :: l2 = k1 ++ x :: k2 → l1 = k1 ∧ l2 = k2.
Proof.
  revert k1. induction l1 as [|y l1 IH]; intros [|z k1]; cbn; rewrite ?NoDup_cons; intros Hn [=]; subst; [done|set_solver|set_solver|].
  destruct (IH k1) as [-> ->]; naive_solver.
Qed.
Lemma whole_nodup L fr h : whole L fr h → NoDup L.
Proof.
  intros (t & m & [_ Hn] & <- & _). cbn in Hn. apply NoDup_app in Hn as [Hn _]. by apply NoDup_fmap in Hn; [|apply _].
Qed.
Lemma whole_focus L1 x L2 fr h : whole (L1 ++ x :: L2) fr h → ∃ p c l r, focused L1 x L2 fr h p c l r.
Proof.
  intros Hw. pose proof (whole_nodup _ _ _ Hw) as Hn. destruct Hw as (t & m & H & Ht & Hm).
  assert (x ∈ inorder t) as (p & c & l & r & ->)%elem_plug by (rewrite Ht; set_solver).
  exists p, c, l, r. rewrite inorder_plug in Ht. cbn [inorder] in Ht.
  destruct (NoDup_split x L1 L2 (before p ++ inorder l) (inorder r ++ after p)) as [-> ->]; [done|by rewrite <-Ht, <-!app_assoc|].
  split_and!; [|by eexists|done..]. apply (holds_focus h p []) in H. by rewrite app_nil_r in H.
Qed.
Lemma focused_whole L1 x L2 fr h p c l r : focused L1 x L2 fr h p c l r → whole (L1 ++ x :: L2) fr h.
Proof.
  intros (H & [m Hm] & -> & ->). exists (plug p (Node c l x r)), m. split_and!; [by apply holds_plug| |done].
  rewrite inorder_plug. in_order.
Qed.

(** ** Walking *)

Lemma leftmost_spec fuel h par c l x r ps Q :
  holds h (PSub par (Node c l x r) :: ps) → (length (inorder (Node c l x r)) ≤ fuel)%nat →
  (∀ q d m rm, Node c l x r = plug q (Node d Leaf m rm) → before q = [] → Q (Some m) h) → wp (leftmost fuel (Some x)) h Q.
Proof.
  revert par c l x r ps Q. induction fuel as [|fuel IH]; intros par c l x r ps Q H Hlen HQ; cbn [inorder] in Hlen; rewrite length_app in Hlen; cbn in Hlen; [lia|].
  cbn [leftmost]. open_node H. wp_steps. destruct l as [|c' l' x' r']; cbn [ptr_of non_null]; wp_steps.
  - by apply (HQ [] c x r).
  - pull H (PSub (Some x) (Node _ _ _ _)). eapply IH; [exact H|lia|]. intros q d m rm Hq Hb.
    apply (HQ (q ++ [StepL c x r]) d m rm); [by rewrite plug_app, <-Hq|by rewrite before_app, Hb].
Qed.
Lemma rightmost_spec fuel h par c l x r ps Q :
  holds h (PSub par (Node c l x r) :: ps) → (length (inorder (Node c l x r)) ≤ fuel)%nat →
  (∀ q d m lm, Node c l x r = plug q (Node d lm m Leaf) → after q = [] → Q (Some m) h) → wp (rightmost fuel (Some x)) h Q.
Proof.
  revert par c l x r ps Q. induction fuel as [|fuel IH]; intros par c l x r ps Q H Hlen HQ; cbn [inorder] in Hlen; rewrite length_app in Hlen; cbn in Hlen; [lia|].
  cbn [rightmost]. open_node H. wp_steps. destruct r as [|c' l' x' r']; cbn [ptr_of non_null]; wp_steps.
  - by apply (HQ [] c x l).
  - pull H (PSub (Some x) (Node _ _ _ _)). eapply IH; [exact H|cbn [inorder] in Hlen; cbn in Hlen |- *; lia|]. intros q d m rm Hq Hb.
    apply (HQ (q ++ [StepR c l x]) d m rm); [by rewrite plug_app, <-Hq|by rewrite after_app, Hb].
Qed.

Lemma ascend_right_spec fuel h p c l x r fr Q :
  holds h (PSub (top p) (Node c l x r) :: PCtx p (Some x) :: fr) → (length p < fuel)%nat → Q (head (after p)) h →
  wp (ascend rb_right fuel (Some x)) h Q.
Proof.
  revert p c l x r. induction fuel as [|fuel IH]; intros p c l x r H Hlen HQ; [lia|].
  cbn [ascend]. destruct p as [|[c' y r'|c' l' y] p]; cbn [top] in H.
  - open_node H. by wp_steps.
  - open_node H. wp_steps. cbn [non_null]. pull H (PCtx _ _). apply holds_stepL in H. wp_steps.
    pull H (PSub (Some y) r'). pull H (PCell x _). rewrite (same_ne (Some x)) by (by eapply cell_ptr_ne). by wp_steps.
  - open_node H. wp_steps. cbn [non_null]. pull H (PCtx _ _). apply holds_stepR in H. wp_steps.
    close_node H x. close_node H y. pull H (PCtx p _). pull H (PSub (top p) _). eapply IH; [exact H|cbn in Hlen; lia|done].
Qed.
Lemma ascend_left_spec fuel h p c l x r fr Q :
  holds h (PSub (top p) (Node c l x r) :: PCtx p (Some x) :: fr) → (length p < fuel)%nat → Q (last (before p)) h →
  wp (ascend rb_left fuel (Some x)) h Q.
Proof.
  revert p c l x r. induction fuel as [|fuel IH]; intros p c l x r H Hlen HQ; [lia|].
  cbn [ascend]. destruct p as [|[c' y r'|c' l' y] p]; cbn [top] in H.
  - open_node H. by wp_steps.
  - open_node H. wp_steps. cbn [non_null]. pull H (PCtx _ _). apply holds_stepL in H. wp_steps.
    close_node H x. close_node H y. pull H (PCtx p _). pull H (PSub (top p) _). eapply IH; [exact H|cbn in Hlen; lia|done].
  - open_node H. wp_steps. cbn [non_null]. pull H (PCtx _ _). apply holds_stepR in H. wp_steps.
    pull H (PSub (Some y) l'). pull H (PCell x _). rewrite (same_ne (Some x)) by (by eapply cell_ptr_ne). wp_steps.
    cbn [before] in HQ. by rewrite app_assoc, last_snoc in HQ.
Qed.

Lemma wp_rb_next L1 x L2 fr h Q : whole (L1 ++ x :: L2) fr h → Q (head L2) h → wp (rb_next (Some x)) h Q.
Proof.
  intros (p & c & l & r & H & _ & -> & ->)%whole_focus HQ. unfold rb_next. pose proof H as H'. open_node H. wp_steps.
  destruct r as [|cr lr y rr]; cbn [ptr_of non_null]; apply wp_fueled.
  - eapply ascend_right_spec; [exact H'| |done]. pull H (PCtx p _). apply size_path in H. lia.
  - pull H (PSub (Some x) (Node cr _ _ _)). eapply leftmost_spec; [exact H|apply size_tree in H; lia|].
    intros q d m rm Hq Hb. rewrite Hq in HQ. by rewrite inorder_plug, Hb in HQ.
Qed.
Lemma wp_rb_prev L1 x L2 fr h Q : whole (L1 ++ x :: L2) fr h → Q (last L1) h → wp (rb_prev (Some x)) h Q.
Proof.
  intros (p & c & l & r & H & _ & -> & ->)%whole_focus HQ. unfold rb_prev. pose proof H as H'. open_node H. wp_steps.
  destruct l as [|cl ll y rl]; cbn [ptr_of non_null]; apply wp_fueled.
  - eapply ascend_left_spec; [exact H'| |by rewrite app_nil_r in HQ]. pull H (PCtx p _). apply size_path in H. lia.
  - pull H (PSub (Some x) (Node cl _ _ _)). eapply rightmost_spec; [exact H|apply size_tree in H; lia|].
    intros q d m lm Hq Ha. rewrite Hq, inorder_plug, Ha, app_nil_r in HQ. cbn [inorder] in HQ. by rewrite !app_assoc, last_snoc in HQ.
Qed.
End Whole.

Section Changes.
Import Rb.

(** ** Inserting *)

(** The pointer at the hole of a path. *)
Definition link_at (p : list step) : link :=
  match p with [] => AtRoot | StepL _ x _ :: _ => AtLeft (Some x) | StepR _ _ x :: _ => AtRight (Some x) end.
Lemma wp_write_link h p new hole fr Q :
  holds h (PCtx p hole :: fr) → (∀ h', holds h' (PCtx p new :: fr) → Q tt h') → wp (write_link (link_at p) new) h Q.
Proof.
  intros H HQ. destruct p as [|[c y r|c l y] p]; cbn [link_at write_link].
  - by eapply wp_set_root.
  - apply holds_stepL in H. wp_steps. apply HQ. by apply holds_stepL.
  - apply holds_stepR in H. wp_steps. apply HQ. by apply holds_stepR.
Qed.
(** A node that hangs in the tree and is not balanced yet. *)
Definition linked (L1 : list nat) (x : nat) (L2 : list nat) (fr : list piece) (h : heap) : Prop :=
  ∃ p, holds h (PSub (top p) (Node RB_RED Leaf x Leaf) :: PCtx p (Some x) :: fr) ∧ rctx p RB_BLACK 0
    ∧ L1 = before p ∧ L2 = after p.
Lemma wp_rb_link_node h p x n fr Q :
  holds h (PCtx p None :: PCell x n :: fr) → rctx p RB_BLACK 0 → (∀ h', linked (before p) x (after p) fr h' → Q tt h') →
  wp (rb_link_node (Some x) (top p) (link_at p)) h Q.
Proof.
  intros H Hp HQ. unfold rb_link_node. wp_steps. pull H (PCtx p _). eapply wp_write_link; [exact H|].
  clear H. intros h' H. apply HQ. exists p. split; [|done]. pull H (PCell x _).
  apply (holds_leaf _ (Some x)) in H. apply (holds_leaf _ (Some x)) in H. apply (holds_perm _ _ (PCell x (Cell (top p) RB_RED None None) :: PSub (Some x) Leaf :: PSub (Some x) Leaf :: PCtx p (Some x) :: fr)) in H; [|solve_Permutation].
  by apply (holds_node _ _ _ Leaf x Leaf) in H.
Qed.
Lemma wp_rb_insert_color L1 x L2 fr h Q :
  linked L1 x L2 fr h → (∀ h', whole (L1 ++ x :: L2) fr h' → Q tt h') → wp (rb_insert_color (Some x)) h Q.
Proof.
  intros (p & H & Hp & -> & ->) HQ. apply wp_bind, wp_fueled.
  eapply (insert_loop_spec fr (before p ++ x :: after p) _ _ p Leaf x Leaf 0%nat); [|by constructor..|done|exact H|done|].
  - pull H (PCtx p _). apply size_path in H. lia.
  - clear H. intros h' (t & c & m & H & Ht & Hm & Hne). destruct t as [|c' l y r]; [done|]. cbn [ptr_of] in H.
    wp_step. pull H (PCtx [] _). eapply wp_get_root; [exact H|]. open_node H. wp_steps. apply HQ.
    close_node H y. exists (Node RB_BLACK l y r). rewrite <-Ht.
    inversion Hm; subst; eexists; (split; [exact H|]); (split; [done|by econstructor]).
Qed.

(** ** Replacing *)
Lemma wp_rb_replace_node L1 x L2 y n fr h Q :
  whole (L1 ++ x :: L2) (PCell y n :: fr) h → (∀ h' n', whole (L1 ++ y :: L2) (PCell x n' :: fr) h' → Q tt h') →
  wp (rb_replace_node (Some x) (Some y)) h Q.
Proof.
  intros (p & c & l & r & H & [m Hm] & -> & ->)%whole_focus HQ. unfold rb_replace_node. open_node H. wp_steps.
  pull H (PCtx p _). pull H (PCell x _). eapply wp_replace_child; [exact H|]. clear H. intros h1 H. wp_steps.
  pull H (PSub (Some x) l). eapply wp_reparent; [exact H|]. clear H. intros h2 H. wp_steps.
  pull H (PSub (Some x) r). eapply wp_reparent; [exact H|]. clear H. intros h3 H. wp_steps. cbn [id] in H.
  close_node H y. pull H (PCtx p _). pull H (PSub (top p) _).
  eapply HQ, (focused_whole _ _ _ _ _ p c l r). split_and!; [exact H| |done..].
  destruct (rbt_unplug _ _ _ Hm) as (d & k & Hp & Ht). eapply rbt_plug; [exact Hp|]. inversion Ht; subst; by econstructor.
Qed.

(** ** Erasing *)

Lemma rctx_relabel q c l x y p d n : rctx (q ++ StepR c l x :: p) d n → rctx (q ++ StepR c l y :: p) d n.
Proof.
  revert d n. induction q as [|s q IH]; intros d n H; cbn [app] in *; inversion H; subst; econstructor; eauto.
Qed.
Lemma cell_not_above h y n p hole fr x : holds h (PCell y n :: PCtx p hole :: fr) → x ∈ before p ++ after p → x ≠ y.
Proof.
  intros [_ Hn] Hx ->. cbn in Hn. apply NoDup_cons in Hn as [Hn _]. apply Hn. right. apply elem_of_app. left.
  by apply list_elem_of_fmap_2.
Qed.
(** The child of a node that left its place carries on. *)
Lemma erased h p c l x r t fr L Q :
  (l = Leaf ∧ t = r) ∨ (r = Leaf ∧ t = l) → (∃ n, rctx p c n ∧ rbt (Node c l x r) c n) →
  holds h (PSub (top p) t :: PCtx p (ptr_of t) :: fr) → L = before p ++ inorder t ++ after p →
  (∀ h', whole L fr h' → Q tt h') →
  wp (if same_color c RB_BLACK then __rb_erase_color (ptr_of t) (top p) else mret tt) h Q.
Proof.
  intros Ht (n & Hp & Hn) H HL HQ. inversion Hn; subst; cbn [same_color].
  - wp_step. apply HQ. eapply plug_whole; [exact H|by apply rctx_weaken|destruct Ht as [[-> ->]|[-> ->]]; done|done].
  - eapply wp_erase_color; [|exact Hp|exact H|done|done]. destruct Ht as [[-> ->]|[-> ->]]; by eapply rbt_deficient.
Qed.
Lemma wp_erase_one h p c l x r t fr (Q : ptr * ptr * color → heap → Prop) :
  (l = Leaf ∧ t = r) ∨ (r = Leaf ∧ t = l) → holds h (PSub (top p) (Node c l x r) :: PCtx p (Some x) :: fr) →
  (∀ h' n, holds h' (PSub (top p) t :: PCtx p (ptr_of t) :: PCell x n :: fr) → Q (ptr_of t, top p, c) h') →
  wp (erase_one (Some x) (ptr_of t)) h Q.
Proof.
  intros Ht H HQ. unfold erase_one. open_node H. wp_steps.
  assert (∃ n, holds h (PSub (Some x) t :: PCell x n :: PCtx p (Some x) :: fr)) as [n H1].
  { destruct Ht as [[-> ->]|[-> ->]]; eexists; pull H (PSub (Some x) Leaf); apply holds_leaf in H;
      eapply holds_perm; [|exact H|..|exact H]; solve_Permutation. }
  clear H. eapply wp_reparent; [exact H1|]. clear H1. intros h1 H. wp_step.
  pull H (PCtx p _). pull H (PCell x _). eapply wp_replace_child; [exact H|]. clear H. intros h2 H. wp_steps.
  apply (HQ _ n). pull H (PCtx p _). by pull H (PSub (top p) t).
Qed.
(** The parent of the hole after its ancestor [x] has become [m]. *)
Lemma top_relabel h q c l x m p hole fr :
  holds h (PCtx (q ++ StepR c l x :: p) hole :: fr) →
  (if same (top (q ++ StepR c l x :: p)) (Some x) then Some m else top (q ++ StepR c l x :: p)) = top (q ++ StepR c l m :: p).
Proof.
  intros H. assert (x ∈ before (q ++ StepR c l x :: p) ++ after (q ++ StepR c l x :: p)) as Hx.
  { rewrite before_app, after_app. cbn. set_solver. }
  destruct q as [|[c' y r|c' l' y] q]; cbn [app top] in *; [by rewrite same_refl|..].
  - apply holds_stepL in H. pull H (PCtx _ _). pull H (PCell y _). rewrite same_ne; [done|]. intros [= ->].
    eapply cell_not_above; [exact H| |done]. rewrite before_app, after_app. cbn. set_solver.
  - apply holds_stepR in H. pull H (PCtx _ _). pull H (PCell y _). rewrite same_ne; [done|]. intros [= ->].
    eapply cell_not_above; [exact H| |done]. rewrite before_app, after_app. cbn. set_solver.
Qed.

(** A position below a right child, seen from the whole right subtree. *)
Lemma holds_below_right h q c l x p t fr :
  holds h (PSub (top p) (Node c l x (plug q t)) :: PCtx p (Some x) :: fr) ↔
  holds h (PSub (top (q ++ StepR c l x :: p)) t :: PCtx (q ++ StepR c l x :: p) (ptr_of t) :: fr).
Proof.
  rewrite !(cons_middle (StepR c l x)), !app_assoc, <-holds_focus, plug_app. done.
Qed.
Lemma wp_erase_two h p c l x r fr (Q : ptr * ptr * color → heap → Prop) :
  l ≠ Leaf → r ≠ Leaf → holds h (PSub (top p) (Node c l x r) :: PCtx p (Some x) :: fr) →
  (∀ h' n q d m rm, r = plug q (Node d Leaf m rm) → before q = [] →
     holds h' (PSub (top (q ++ StepR c l m :: p)) rm :: PCtx (q ++ StepR c l m :: p) (ptr_of rm) :: PCell x n :: fr) →
     Q (ptr_of rm, top (q ++ StepR c l m :: p), d) h') →
  wp (erase_two (Some x)) h Q.
Proof.
  intros Hl Hr H HQ. unfold erase_two. open_node H. wp_steps.
  destruct r as [|cr lr y rr]; [done|]. clear Hr. pull H (PSub (Some x) (Node cr _ _ _)). apply wp_fueled.
  eapply leftmost_spec; [exact H|apply size_tree in H; lia|]. intros q d m rm Hq Hb. wp_step.
  pull H (PSub (Some x) l). close_node H x. pull H (PCtx p _). pull H (PSub (top p) _). revert H HQ. rewrite Hq. clear Hq. intros H HQ.
  apply holds_below_right in H. open_node H. wp_steps. pull H (PSub (Some m) Leaf). apply holds_leaf in H. pull H (PSub (Some m) rm).
  eapply wp_reparent; [exact H|]. clear H. intros g1 H. wp_step. pull H (PCtx _ _). pull H (PCell m _).
  eapply wp_replace_child; [exact H|]. clear H. intros g2 H. wp_steps.
  pull H (PCtx _ _). rewrite (top_relabel _ _ _ _ _ m _ _ _ H). pull H (PSub _ rm).
  apply holds_below_right in H. open_node H. wp_steps.
  pull H (PCtx p _). pull H (PCell x _). eapply wp_replace_child; [exact H|]. clear H. intros g3 H. wp_step.
  pull H (PSub (Some x) l). destruct l as [|cl ll z rl]; [done|]. eapply (wp_reparent _ (Some x) (Some m) (Node cl ll z rl)); [exact H|].
  clear H. intros g4 H. wp_step. pull H (PSub (Some x) (plug q rm)). eapply wp_reparent; [exact H|]. clear H. intros g5 H. wp_steps.
  close_node H m. pull H (PCtx p _). pull H (PSub (top p) _). apply holds_below_right in H. by eapply HQ.
Qed.

Lemma wp_rb_erase L1 x L2 fr h Q :
  whole (L1 ++ x :: L2) fr h → (∀ h' n, whole (L1 ++ L2) (PCell x n :: fr) h' → Q tt h') → wp (rb_erase (Some x)) h Q.
Proof.
  intros (p & c & l & r & H & [m Hm] & -> & ->)%whole_focus HQ. unfold rb_erase.
  destruct (rbt_unplug _ _ _ Hm) as (d & n & Hp & Hn). assert (c = d) as <- by (by inversion Hn).
  open_node H. wp_steps. close_node H x. pull H (PCtx p _). pull H (PSub (top p) _).
  assert (∀ t, (l = Leaf ∧ t = r) ∨ (r = Leaf ∧ t = l) →
    wp (erase_one (Some x) (ptr_of t)) h (λ a h, wp (let '(child, parent, color) := a in
      if same_color color RB_BLACK then __rb_erase_color child parent else mret tt) h Q)) as Hone.
  { intros t Ht. eapply wp_erase_one; [exact Ht|exact H|]. clear H. intros h' k H. cbn beta iota.
    eapply erased; [exact Ht|by eexists|exact H| |intros h'' Hw; by eapply HQ].
    destruct Ht as [[-> ->]|[-> ->]]; in_order. }
  destruct l as [|cl ll y rl]; [cbn [ptr_of non_null]; apply (Hone r); by left|]. destruct r as [|cr lr z rr]; [cbn [ptr_of non_null]; apply (Hone (Node cl ll y rl)); by right|].
  clear Hone. cbn [ptr_of non_null]. eapply wp_erase_two; [| |exact H|]; [done|done|].
  clear H. intros h' k q d m' rm Hq Hb H. cbn beta iota.
  eapply (erased _ _ _ Leaf m' rm); [by left| |exact H| |intros h'' Hw; by eapply HQ].
  - rewrite Hq in Hm. change (rbt (plug p (plug [StepR c (Node cl ll y rl) x] (plug q (Node d Leaf m' rm)))) RB_BLACK m) in Hm.
    rewrite <-!plug_app in Hm. cbn [app] in Hm.
    destruct (rbt_unplug _ _ _ Hm) as (d' & k' & Hp' & Hn'). exists k'. assert (d' = d) as -> by (by inversion Hn').
    split; [by eapply rctx_relabel|done].
  - rewrite Hq, inorder_plug, before_app, after_app, Hb. cbn [app]. in_order.
Qed.
End Changes.

Section Interface.
Import Rb.

(** ** Where a node can be hung *)

(** A NULL pointer of the tree, by the path that leads to it. *)
Definition hole (L1 L2 : list nat) (fr : list piece) (h : heap) (p : list step) : Prop :=
  holds h (PCtx p None :: fr) ∧ rctx p RB_BLACK 0 ∧ L1 = before p ∧ L2 = after p.
Lemma hole_empty fr h : whole [] fr h → hole [] [] fr h [].
Proof.
  intros (t & m & H & Ht & Hm). destruct t as [|c l x r]; [|by destruct (app_cons_not_nil (inorder l) (inorder r) x)].
  apply holds_leaf in H. split_and!; [exact H|constructor|done|done].
Qed.
Lemma hole_right L1 x L2 fr h p c l : focused L1 x L2 fr h p c l Leaf → hole (L1 ++ [x]) L2 fr h (StepR c l x :: p).
Proof.
  intros (H & [m Hm] & -> & ->). split_and!; [| |by rewrite <-app_assoc|done].
  - open_node H. pull H (PSub (Some x) Leaf). apply holds_leaf in H. pull H (PCtx p _). pull H (PSub (Some x) l). pull H (PCell x _).
    by apply (holds_stepR _ c l x p None) in H.
  - destruct (rbt_unplug (StepR c l x :: p) Leaf m) as (d & n & Hp & Hn); [exact Hm|]. by inversion Hn; subst.
Qed.
Lemma hole_left L1 x L2 fr h p c r : focused L1 x L2 fr h p c Leaf r → hole L1 (x :: L2) fr h (StepL c x r :: p).
Proof.
  intros (H & [m Hm] & -> & ->). split_and!; [| |by rewrite app_nil_r|done].
  - open_node H. pull H (PSub (Some x) Leaf). apply holds_leaf in H. pull H (PCtx p _). pull H (PSub (Some x) r). pull H (PCell x _).
    by apply (holds_stepL _ c x r p None) in H.
  - destruct (rbt_unplug (StepL c x r :: p) Leaf m) as (d & n & Hp & Hn); [exact Hm|]. by inversion Hn; subst.
Qed.
Lemma wp_link L1 L2 x n fr h p Q :
  hole L1 L2 (PCell x n :: fr) h p → (∀ h', linked L1 x L2 fr h' → Q tt h') → wp (rb_link_node (Some x) (top p) (link_at p)) h Q.
Proof. intros (H & Hp & -> & ->) HQ. by eapply wp_rb_link_node. Qed.

(** ** Cells that come and go *)

Lemma foot_dom h P x : sat h P → Some x ∈ foot P → is_Some (cells h !! x).
Proof.
  destruct P as [y n|y|par t|p q]; cbn; intros Hs Hx.
  - apply list_elem_of_singleton in Hx as [= ->]. by rewrite Hs.
  - by apply list_elem_of_singleton in Hx as [= ->].
  - apply list_elem_of_fmap in Hx as (y & [= <-] & Hy). by eapply sat_tree_dom.
  - apply elem_of_cons in Hx as [?|Hx]; [done|]. apply list_elem_of_fmap in Hx as (y & [= <-] & Hy). by eapply sat_ctx_dom.
Qed.
Lemma holds_alloc h ps x n :
  holds h ps → cells h !! x = None → holds (Heap (root h) (<[x := n]> (cells h))) (PCell x n :: ps).
Proof.
  intros [Hs Hn] Hx. assert (Some x ∉ ps ≫= foot) as Hfresh.
  { intros (P & HP & Hin)%list_elem_of_bind. rewrite Forall_forall in Hs.
    destruct (foot_dom h P x (Hs P Hin) HP) as [? Hy]. congruence. }
  split; [|cbn; by constructor]. constructor; [by apply lookup_insert_eq|].
  rewrite Forall_forall in *. intros P HP. eapply sat_local; [|by apply Hs].
  intros [y|] Hy; [|done]. cbn. rewrite lookup_insert_ne; [done|]. intros ->. apply Hfresh, list_elem_of_bind. eauto.
Qed.
Lemma holds_free h ps x n : holds h (PCell x n :: ps) → holds (Heap (root h) (delete x (cells h))) ps.
Proof.
  intros [[_ Hs]%Forall_cons Hn]. cbn in Hn. apply NoDup_cons in Hn as [Hfresh Hn]. split; [|done].
  rewrite Forall_forall in *. intros P HP. eapply sat_local; [|by apply Hs].
  intros [y|] Hy; [|done]. cbn. rewrite lookup_delete_ne; [done|]. intros ->. apply Hfresh, list_elem_of_bind. eauto.
Qed.
Lemma whole_any L x fr h : whole L (PAny x :: fr) h ↔ ∃ n, whole L (PCell x n :: fr) h.
Proof.
  assert (∀ P t, holds h (PSub None t :: PCtx [] (ptr_of t) :: P :: fr) ↔ holds h (P :: PSub None t :: PCtx [] (ptr_of t) :: fr)) as Hp
    by (intros; split; apply holds_perm; solve_Permutation).
  split.
  - intros (t & m & H & Ht & Hm). apply Hp in H. apply holds_any in H as [n H]. exists n, t, m. by rewrite Hp.
  - intros (n & t & m & H & Ht & Hm). apply Hp in H. exists t, m. rewrite Hp. split; [apply holds_any; by exists n|done].
Qed.
Lemma whole_alloc L fr h x n :
  whole L fr h → cells h !! x = None → whole L (PAny x :: fr) (Heap (root h) (<[x := n]> (cells h))).
Proof.
  intros (t & m & H & Ht & Hm) Hx. apply whole_any. exists n, t, m. split; [|done].
  eapply holds_perm; [|by apply holds_alloc]. solve_Permutation.
Qed.
Lemma whole_free L fr h x : whole L (PAny x :: fr) h → whole L fr (Heap (root h) (delete x (cells h))).
Proof.
  intros (n & t & m & H & Ht & Hm)%whole_any. exists t, m. split; [|done]. pull H (PCell x n). by eapply holds_free.
Qed.

(** ** The height of a tree *)
Lemma rbt_size t c n : rbt t c n → (2 ^ n ≤ S (length (inorder t)))%nat.
Proof. induction 1; cbn [inorder]; rewrite ?length_app; cbn; lia. Qed.
Fixpoint depth (t : tree) : nat := match t with Leaf => 0 | Node _ l _ r => S (Nat.max (depth l) (depth r)) end.
Lemma depth_size t : (depth t ≤ length (inorder t))%nat.
Proof. induction t as [|c l IHl x r IHr]; cbn; [lia|]. rewrite length_app. cbn. lia. Qed.
Lemma rbt_depth t c n : rbt t c n → (depth t ≤ 2 * n + match c with RB_RED => 1 | RB_BLACK => 0 end)%nat.
Proof. induction 1 as [| |l c x r d n _ IHl _ IHr]; cbn; [lia|lia|]. destruct c, d; lia. Qed.
Lemma rbt_logarithmic t n : rbt t RB_BLACK n → (depth t ≤ 2 * Nat.log2 (S (length (inorder t))))%nat.
Proof.
  intros Ht. pose proof (rbt_depth _ _ _ Ht) as Hd. cbn in Hd.
  pose proof (Nat.log2_le_mono _ _ (rbt_size _ _ _ Ht)) as Hs. rewrite Nat.log2_pow2 in Hs; lia.
Qed.
End Interface.

(** ** What the file promises *)

Section Promises.
Import Rb.

(** [C23] rb_link_node and rb_insert_color.  A new node hung at any NULL pointer of a red-black tree
    and balanced gives a red-black tree with the node between those that surround the pointer: all
    parent pointers right, the root black, no dereference of NULL, the loop ends. *)
Theorem rb_insert_balances L1 L2 x n fr h p :
  hole L1 L2 (PCell x n :: fr) h p →
  wp (rb_link_node (Some x) (top p) (link_at p);; rb_insert_color (Some x)) h (λ _, whole (L1 ++ x :: L2) fr).
Proof.
  intros H. apply wp_bind. eapply wp_link; [exact H|]. intros h' Hl. by eapply wp_rb_insert_color.
Qed.

(** [C24] rb_erase, rb_next, rb_prev and rb_replace_node.  On a red-black tree over any nodes they find
    the neighbours of a node in the order of the tree, take it out, or put another in its place, and
    leave a red-black tree over the remaining nodes in their order. *)
Theorem rb_operations L1 x L2 y n fr h :
  whole (L1 ++ x :: L2) (PCell y n :: fr) h →
  wp (rb_next (Some x)) h (λ q h', q = head L2 ∧ h' = h) ∧
  wp (rb_prev (Some x)) h (λ q h', q = last L1 ∧ h' = h) ∧
  wp (rb_erase (Some x)) h (λ _ h', ∃ k, whole (L1 ++ L2) (PCell x k :: PCell y n :: fr) h') ∧
  wp (rb_replace_node (Some x) (Some y)) h (λ _ h', ∃ k, whole (L1 ++ y :: L2) (PCell x k :: fr) h').
Proof.
  intros H. split_and!; [by eapply wp_rb_next|by eapply wp_rb_prev| |].
  - eapply wp_rb_erase; [exact H|eauto].
  - eapply wp_rb_replace_node; [exact H|eauto].
Qed.

(** A tree of seven nodes, built by the code itself. *)
Definition blank : rb_node := Cell None RB_RED None None.
Definition blanks (n : nat) : heap := Heap None (list_to_map ((λ i, (i, blank)) <$> seq 1 n)).
Fixpoint grow (n m : nat) : M unit :=
  match n with
  | O => mret tt
  | S n =>
      (if (m =? 0)%nat then rb_link_node (Some 1%nat) None AtRoot
       else r ← get_root; q ← fueled (λ k, rightmost k r); rb_link_node (Some (S m)) q (AtRight q));;
      rb_insert_color (Some (S m));;
      grow n (S m)
  end.
Example grow_seven :
  (grow 7 0 (blanks 8) ≫= λ '(_, h), Some (root h, (λ x, rb_color <$> cells h !! x) <$> seq 1 7)) =
  Some (Some 2%nat, Some <$> [RB_BLACK; RB_BLACK; RB_BLACK; RB_RED; RB_RED; RB_BLACK; RB_RED]).
Proof. vm_compute. reflexivity. Qed.
Definition seven : heap := match grow 7 0 (blanks 8) with Some (_, h) => h | None => blanks 0 end.
Definition black_leaf (x : nat) : tree := Node RB_BLACK Leaf x Leaf.
Definition red_leaf (x : nat) : tree := Node RB_RED Leaf x Leaf.
Definition seven_tree : tree :=
  Node RB_BLACK (black_leaf 1) 2 (Node RB_RED (black_leaf 3) 4 (Node RB_BLACK (red_leaf 5) 6 (red_leaf 7))).
Lemma seven_whole : whole [1; 2; 3; 4; 5; 6; 7]%nat [PCell 8 blank] seven.
Proof.
  exists seven_tree, 2%nat. split; [|split; [reflexivity|by repeat econstructor]].
  split; [repeat constructor|]. apply (bool_decide_unpack _). vm_compute. exact I.
Qed.
Definition seven_path : list step :=
  [StepR RB_RED Leaf 7; StepR RB_BLACK (red_leaf 5) 6; StepR RB_RED (black_leaf 3) 4; StepR RB_BLACK (black_leaf 1) 2].
Lemma seven_hole : hole [1; 2; 3; 4; 5; 6; 7]%nat [] [PCell 8 blank] seven seven_path.
Proof.
  split; [|split; [by repeat econstructor|done]].
  split; [repeat constructor|]. apply (bool_decide_unpack _). vm_compute. exact I.
Qed.
Lemma rb_insert_balances_witness :
  hole [1; 2; 3; 4; 5; 6; 7]%nat [] [PCell 8 blank] seven seven_path ∧
  wp (rb_link_node (Some 8%nat) (Some 7%nat) (AtRight (Some 7%nat));; rb_insert_color (Some 8%nat)) seven
    (λ _, whole [1; 2; 3; 4; 5; 6; 7; 8]%nat []).
Proof.
  split; [exact seven_hole|]. pose proof (rb_insert_balances _ [] 8 blank [] seven seven_path seven_hole) as H.
  cbn [app top link_at seven_path] in H. exact H.
Defined.
Lemma rb_operations_witness :
  whole [1; 2; 3; 4; 5; 6; 7]%nat [PCell 8 blank] seven ∧
  wp (rb_erase (Some 4%nat)) seven (λ _ h', ∃ k, whole [1; 2; 3; 5; 6; 7]%nat [PCell 4 k; PCell 8 blank] h').
Proof.
  split; [exact seven_whole|].
  destruct (rb_operations [1; 2; 3]%nat 4 [5; 6; 7]%nat 8 blank [] seven seven_whole) as (_ & _ & H & _). exact H.
Defined.
End Promises.
