(* ===== verification/Jffs2Frag.v ===== *)
(** * Jffs2Frag: the fragment tree of an inode (fs/jffs2/nodelist.c, readinode.c, nodelist.h)

    The contents of a file are a red-black tree of fragments, ordered by offset: each says which node
    of the flash (or none, a hole) holds a range of the file.  A node counts the fragments that still
    refer to it and becomes obsolete with the last one.

    Module [Frag] is the code over the heap of Rbtree.v: a fragment is a cell of that heap with the
    fields of [struct jffs2_node_frag] at the same address.  [jffs2_mark_node_obsolete] and
    [mark_ref_normal] act on the raw node references and the erase blocks, which are not part of an
    inode: the calls are recorded ([Pristine] and [Physical] belong to Jffs2Node.v).  The slab allocator is the kernel; the store says for each
    request whether there is memory.  The check of the tree that CONFIG_JFFS2_FS_DEBUG adds is left out. *)

From S2P Require Import Prelude Rbtree.

Definition ENOMEM := 12.
Definition PAGE_CACHE_SHIFT := 12.
Definition PAGE_CACHE_SIZE := 4096.

Module Frag.
Import Rb.

Record node_frag := NodeFrag { node : ptr; size : Z; ofs : Z }.
Definition set_node (v : ptr) (f : node_frag) := NodeFrag v (size f) (ofs f).
Definition set_size (v : Z) (f : node_frag) := NodeFrag (node f) v (ofs f).
Definition set_ofs (v : Z) (f : node_frag) := NodeFrag (node f) (size f) v.
Record full_dnode := FullDnode { raw : nat; dofs : Z; dsize : Z; frags : Z }.
Definition set_frags (v : Z) (d : full_dnode) := FullDnode (raw d) (dofs d) (dsize d) v.
Inductive event := Obsolete (r : nat) | Normal (r : nat) | Pristine (r : nat) | Physical (r : nat).

Record st := St {
  fragtree : heap; frag_at : gmap nat node_frag; dnode_at : gmap nat full_dnode;
  memory : list bool; marks : list event }.
Abbreviation N := (SM st).

Definition on_tree {A} (m : M A) : N A :=
  λ s, match m (fragtree s) with
       | Some (a, h) => Some (a, St h (frag_at s) (dnode_at s) (memory s) (marks s))
       | None => None
       end.
Definition fget {A} (f : node_frag → A) (p : ptr) : N A :=
  λ s, match p ≫= (frag_at s !!.) with Some v => Some (f v, s) | None => None end.
Definition fput (f : node_frag → node_frag) (p : ptr) : N unit :=
  λ s, match p with
       | Some x =>
           match frag_at s !! x with
           | Some v => Some (tt, St (fragtree s) (<[x := f v]> (frag_at s)) (dnode_at s) (memory s) (marks s))
           | None => None
           end
       | None => None
       end.
Definition dget {A} (f : full_dnode → A) (p : ptr) : N A :=
  λ s, match p ≫= (dnode_at s !!.) with Some v => Some (f v, s) | None => None end.
Definition dput (f : full_dnode → full_dnode) (p : ptr) : N unit :=
  λ s, match p with
       | Some x =>
           match dnode_at s !! x with
           | Some v => Some (tt, St (fragtree s) (frag_at s) (<[x := f v]> (dnode_at s)) (memory s) (marks s))
           | None => None
           end
       | None => None
       end.
Definition mark (e : event) : N unit :=
  λ s, Some (tt, St (fragtree s) (frag_at s) (dnode_at s) (memory s) (marks s ++ [e])).

(** The slab caches.  A new fragment is at an address that is not in use. *)
Definition new_address (h : heap) : nat := fresh (elements (dom (cells h))).
Definition jffs2_alloc_node_frag : N ptr :=
  λ s, match memory s with
       | true :: mem =>
           let x := new_address (fragtree s) in
           Some (Some x, St (Heap (root (fragtree s)) (<[x := Cell None RB_RED None None]> (cells (fragtree s))))
                            (<[x := NodeFrag None 0 0]> (frag_at s)) (dnode_at s) mem (marks s))
       | false :: mem => Some (None, St (fragtree s) (frag_at s) (dnode_at s) mem (marks s))
       | [] => Some (None, s)
       end.
Definition jffs2_free_node_frag (p : ptr) : N unit :=
  λ s, match p with
       | Some x =>
           match frag_at s !! x with
           | Some _ => Some (tt, St (Heap (root (fragtree s)) (delete x (cells (fragtree s)))) (delete x (frag_at s))
                                    (dnode_at s) (memory s) (marks s))
           | None => None
           end
       | None => None
       end.
Definition jffs2_free_full_dnode (p : ptr) : N unit :=
  λ s, match p with
       | Some x =>
           match dnode_at s !! x with
           | Some _ => Some (tt, St (fragtree s) (frag_at s) (delete x (dnode_at s)) (memory s) (marks s))
           | None => None
           end
       | None => None
       end.
Definition jffs2_mark_node_obsolete (r : nat) : N unit := mark (Obsolete r).
Definition mark_ref_normal (r : nat) : N unit := mark (Normal r).
(** [if (node) mark_ref_normal(node->raw);] *)
Definition mark_normal_if (n : ptr) : N unit := if non_null n then r ← dget raw n; mark_ref_normal r else mret tt.
(** [frag->ofs + frag->size] *)
Definition frag_end (p : ptr) : N Z := o ← fget ofs p; n ← fget size p; mret (u32 (o + n)).
Definition loop_on_tree {A} (loop : nat → N A) : N A := λ s, loop (S (S (base.size (cells (fragtree s))))) s.

Definition jffs2_obsolete_node_frag (this : ptr) : N unit :=
  n ← fget node this;
  (if non_null n
   then
     dput (λ d, set_frags (u32 (frags d - 1)) d) n;;
     left ← dget frags n;
     if left =? 0
     then r ← dget raw n; jffs2_mark_node_obsolete r;; jffs2_free_full_dnode n
     else r ← dget raw n; mark_ref_normal r
   else mret tt);;
  jffs2_free_node_frag this.

Fixpoint lookup_loop (fuel : nat) (next prev : ptr) (offset : Z) : N ptr :=
  match fuel with
  | O => fault
  | S fuel =>
      if non_null next
      then
        let frag := next in
        e ← frag_end frag;
        if e <=? offset
        then
          fo ← fget ofs frag;
          prev ← (if non_null prev then po ← fget ofs prev; mret (if po <? fo then frag else prev) else mret frag);
          next ← on_tree (get rb_right frag);
          lookup_loop fuel next prev offset
        else
          fo ← fget ofs frag;
          if offset <? fo then next ← on_tree (get rb_left frag); lookup_loop fuel next prev offset
          else mret frag
      else mret prev
  end.
Definition jffs2_lookup_node_frag (offset : Z) : N ptr :=
  next ← on_tree get_root;
  loop_on_tree (λ n, lookup_loop n next None offset).

(** The descent of [jffs2_fragtree_insert]; it answers the link found and its owner. *)
Fixpoint insert_descent (fuel : nat) (newfrag base : ptr) : N (ptr * link) :=
  match fuel with
  | O => fault
  | S fuel =>
      no ← fget ofs newfrag;
      bo ← fget ofs base;
      l ← (if bo <? no then mret (AtRight base) else if no <? bo then mret (AtLeft base) else fault);
      next ← on_tree (read_link l);
      if non_null next then insert_descent fuel newfrag next else mret (base, l)
  end.
Definition jffs2_fragtree_insert (newfrag base : ptr) : N unit :=
  '(base, l) ← loop_on_tree (λ n, insert_descent n newfrag base);
  on_tree (rb_link_node newfrag base l).

Definition frag_next (p : ptr) : N ptr := on_tree (rb_next p).
Definition frag_prev (p : ptr) : N ptr := on_tree (rb_prev p).

(** [jffs2_add_frag_to_fragtree], behind the end of the file: a hole up to the new fragment, *)
Definition mark_node_normal (newfrag : ptr) : N unit := n ← fget node newfrag; r ← dget raw n; mark_ref_normal r.
Definition attach (newfrag this : ptr) : N Z :=
  on_tree (if non_null this then rb_link_node newfrag this (AtRight this) else rb_link_node newfrag None AtRoot);;
  on_tree (rb_insert_color newfrag);;
  mret 0.
Definition add_behind (this : ptr) (lastend : Z) (newfrag : ptr) : N Z :=
  no ← fget ofs newfrag;
  (if truthy lastend && (u32 (lastend - 1) >>> PAGE_CACHE_SHIFT =? no >>> PAGE_CACHE_SHIFT)
   then tn ← fget node this; mark_normal_if tn;; mark_node_normal newfrag
   else mret tt);;
  fn ← fget node newfrag;
  fo ← dget dofs fn;
  if lastend <? fo
  then
    holefrag ← jffs2_alloc_node_frag;
    if non_null holefrag
    then
      fput (set_ofs lastend) holefrag;;
      fput (set_size (u32 (fo - lastend))) holefrag;;
      fput (set_node None) holefrag;;
      attach holefrag this;;
      attach newfrag holefrag
    else jffs2_free_node_frag newfrag;; mret (- ENOMEM)
  else attach newfrag this.

(** and after the new fragment is in its place, the fragments that it covers: *)
Fixpoint covered_loop (fuel : nat) (newfrag : ptr) : N ptr :=
  match fuel with
  | O => fault
  | S fuel =>
      this ← frag_next newfrag;
      if non_null this
      then
        ne ← frag_end newfrag;
        te ← frag_end this;
        if te <=? ne
        then on_tree (rb_erase this);; jffs2_obsolete_node_frag this;; covered_loop fuel newfrag
        else mret this
      else mret None
  end.
Definition drop_covered (newfrag : ptr) : N Z :=
  this ← loop_on_tree (λ n, covered_loop n newfrag);
  if non_null this
  then
    ne ← frag_end newfrag;
    o ← fget ofs this;
    if ne =? o then mret 0
    else
      te ← frag_end this;
      fput (set_size (u32 (te - ne))) this;;
      fput (set_ofs ne) this;;
      tn ← fget node this;
      mark_normal_if tn;;
      mark_node_normal newfrag;;
      mret 0
  else mret 0.

(** the fragment [this] it starts in: *)
Definition insert_after (newfrag base : ptr) : N unit :=
  jffs2_fragtree_insert newfrag base;; on_tree (rb_insert_color newfrag).
Definition add_inside (this newfrag : ptr) : N Z :=
  no ← fget ofs newfrag;
  o ← fget ofs this;
  mark_node_normal newfrag;;
  tn ← fget node this;
  mark_normal_if tn;;
  te ← frag_end this;
  ne ← frag_end newfrag;
  if ne <? te
  then
    newfrag2 ← jffs2_alloc_node_frag;
    if non_null newfrag2
    then
      fput (set_ofs ne) newfrag2;;
      fput (set_size (u32 (te - ne))) newfrag2;;
      fput (set_node tn) newfrag2;;
      (if non_null tn then dput (λ d, set_frags (u32 (frags d + 1)) d) tn else mret tt);;
      fput (set_size (u32 (no - o))) this;;
      insert_after newfrag this;;
      insert_after newfrag2 newfrag;;
      mret 0
    else jffs2_free_node_frag newfrag;; mret (- ENOMEM)
  else
    fput (set_size (u32 (no - o))) this;;
    insert_after newfrag this;;
    drop_covered newfrag.
Definition add_at_start (this newfrag : ptr) : N Z :=
  on_tree (rb_replace_node this newfrag);;
  ne ← frag_end newfrag;
  te ← frag_end this;
  if te <=? ne then jffs2_obsolete_node_frag this;; drop_covered newfrag
  else
    n ← fget size newfrag;
    fput (λ f, set_ofs (u32 (ofs f + n)) f) this;;
    fput (λ f, set_size (u32 (size f - n)) f) this;;
    insert_after this newfrag;;
    mret 0.
Definition jffs2_add_frag_to_fragtree (newfrag : ptr) : N Z :=
  fn ← fget node newfrag;
  fo ← dget dofs fn;
  this ← jffs2_lookup_node_frag fo;
  lastend ← (if non_null this then frag_end this else mret 0);
  no ← fget ofs newfrag;
  if lastend <=? no then add_behind this lastend newfrag
  else
    o ← fget ofs this;
    if o <? no then add_inside this newfrag else add_at_start this newfrag.

Definition jffs2_add_full_dnode_to_inode (fn : ptr) : N Z :=
  n ← dget dsize fn;
  if n =? 0 then mret 0
  else
    newfrag ← jffs2_alloc_node_frag;
    if non_null newfrag
    then
      o ← dget dofs fn;
      fput (set_ofs o) newfrag;;
      fput (set_size n) newfrag;;
      fput (set_node fn) newfrag;;
      dput (set_frags 1) fn;;
      ret ← jffs2_add_frag_to_fragtree newfrag;
      if truthy ret then mret ret
      else
        no ← fget ofs newfrag;
        r ← dget raw fn;
        (if truthy (no &&& (PAGE_CACHE_SIZE - 1))
         then
           prev ← frag_prev newfrag;
           mark_ref_normal r;;
           pn ← fget node prev;
           mark_normal_if pn
         else mret tt);;
        ne ← frag_end newfrag;
        (if truthy (ne &&& (PAGE_CACHE_SIZE - 1))
         then
           next ← frag_next newfrag;
           if non_null next then mark_ref_normal r;; nn ← fget node next; mark_normal_if nn else mret tt
         else mret tt);;
        mret 0
    else mret (- ENOMEM).

Fixpoint truncate_loop (fuel : nat) (frag : ptr) (bound : Z) : N unit :=
  match fuel with
  | O => fault
  | S fuel =>
      if non_null frag
      then
        o ← fget ofs frag;
        if bound <=? o
        then
          next ← frag_next frag;
          on_tree (rb_erase frag);;
          jffs2_obsolete_node_frag frag;;
          truncate_loop fuel next bound
        else mret tt
      else mret tt
  end.
Definition jffs2_truncate_fraglist (bound : Z) : N unit :=
  frag ← jffs2_lookup_node_frag bound;
  frag ← (if non_null frag
          then
            o ← fget ofs frag;
            if o =? bound then mret frag
            else
              e ← frag_end frag;
              (if bound <=? e then fput (set_size (u32 (bound - o))) frag else mret tt);;
              frag_next frag
          else mret frag);
  loop_on_tree (λ n, truncate_loop n frag bound).
End Frag.

(** ** The state of an inode, seen as a list of fragments *)

Section Shape.
Import Rb Frag.

Abbreviation cell := (nat * node_frag)%type.
(** [shape s fs ex]: the tree holds the fragments [fs] in their order; those of [ex] are allocated
    and hang in no tree. *)
Definition shape (s : st) (fs ex : list cell) : Prop :=
  whole fs.*1 (PAny <$> ex.*1) (fragtree s) ∧ Forall (λ xf, frag_at s !! xf.1 = Some xf.2) (fs ++ ex).

Lemma whole_distinct L xs h : whole L (PAny <$> xs) h → NoDup (L ++ xs).
Proof.
  intros (t & m & [_ Hn] & <- & _). cbn in Hn.
  apply NoDup_app in Hn as (Ht & Hd & Hx). apply NoDup_cons in Hx as [_ Hx]. apply NoDup_app. split_and!.
  - by apply NoDup_fmap in Ht; [|apply _].
  - intros x Hin Hxs. apply (Hd (Some x)); [by apply list_elem_of_fmap_2|]. right. apply list_elem_of_bind. exists (PAny x).
    split; [cbn; set_solver|by apply list_elem_of_fmap_2].
  - clear Ht Hd. replace ((PAny <$> xs) ≫= foot) with (Some <$> xs) in Hx; [by apply NoDup_fmap in Hx; [|apply _]|].
    clear. induction xs; cbn; [done|by f_equal].
Qed.
Lemma shape_distinct s fs ex : shape s fs ex → NoDup ((fs ++ ex).*1).
Proof. intros [H _]. rewrite fmap_app. by eapply whole_distinct. Qed.
Lemma shape_at s fs ex x f : shape s fs ex → (x, f) ∈ fs ++ ex → frag_at s !! x = Some f.
Proof. intros [_ H] Hin. rewrite Forall_forall in H. by apply (H (x, f)). Qed.
Lemma shape_same s s' fs ex :
  fragtree s' = fragtree s → frag_at s' = frag_at s → shape s fs ex → shape s' fs ex.
Proof. intros Ht Hf. unfold shape. by rewrite Ht, Hf. Qed.
Lemma whole_frame L fr fr' h : fr ≡ₚ fr' → whole L fr h → whole L fr' h.
Proof.
  intros Hp (t & m & H & ? & ?). exists t, m. split; [|done]. eapply holds_perm; [|exact H]. by do 2 constructor.
Qed.
Lemma shape_perm s fs ex ex' : ex ≡ₚ ex' → shape s fs ex → shape s fs ex'.
Proof.
  intros Hp [Hw Hf]. split; [eapply whole_frame; [|exact Hw]; by rewrite Hp|]. by rewrite <-Hp.
Qed.

Lemma stored_insert (fa : gmap nat node_frag) x v l :
  x ∉ l.*1 → Forall (λ xf : cell, fa !! xf.1 = Some xf.2) l → Forall (λ xf : cell, <[x := v]> fa !! xf.1 = Some xf.2) l.
Proof.
  intros Hx. rewrite !Forall_forall. intros Hl [y w] Hin. cbn. rewrite lookup_insert_ne; [by apply (Hl (y, w))|].
  intros ->. apply Hx, list_elem_of_fmap. by exists (y, w).
Qed.
Lemma stored_delete (fa : gmap nat node_frag) x l :
  x ∉ l.*1 → Forall (λ xf : cell, fa !! xf.1 = Some xf.2) l → Forall (λ xf : cell, delete x fa !! xf.1 = Some xf.2) l.
Proof.
  intros Hx. rewrite !Forall_forall. intros Hl [y w] Hin. cbn. rewrite lookup_delete_ne; [by apply (Hl (y, w))|].
  intros ->. apply Hx, list_elem_of_fmap. by exists (y, w).
Qed.

(** ** Statements

    [state s fs ex D mem lg]: the shape with the nodes, the memory that is left and the marks. *)

Definition state (s : st) (fs ex : list cell) (D : gmap nat full_dnode) (mem : list bool) (lg : list event) : Prop :=
  shape s fs ex ∧ dnode_at s = D ∧ memory s = mem ∧ marks s = lg.
Lemma state_perm s fs ex ex' D mem lg : ex ≡ₚ ex' → state s fs ex D mem lg → state s fs ex' D mem lg.
Proof. intros Hp [Hs ?]. split; [by eapply shape_perm|done]. Qed.

Lemma wp_on_tree {A} (m : M A) s (Q : A → st → Prop) :
  wp m (fragtree s) (λ a h, Q a (St h (frag_at s) (dnode_at s) (memory s) (marks s))) → wp (on_tree m) s Q.
Proof. unfold wp, on_tree. by destruct (m (fragtree s)) as [[a h]|]. Qed.
Lemma wp_fget {A} (f : node_frag → A) s fs ex D mem lg x v (Q : A → st → Prop) :
  state s fs ex D mem lg → (x, v) ∈ fs ++ ex → Q (f v) s → wp (fget f (Some x)) s Q.
Proof. intros [Hs _] Hx HQ. unfold wp, fget. cbn. by rewrite (shape_at _ _ _ _ _ Hs Hx). Qed.
Lemma wp_frag_end s fs ex D mem lg x v (Q : Z → st → Prop) :
  state s fs ex D mem lg → (x, v) ∈ fs ++ ex → Q (u32 (ofs v + size v)) s → wp (frag_end (Some x)) s Q.
Proof.
  intros Hs Hx HQ. unfold frag_end. apply wp_bind. eapply wp_fget; [done..|]. apply wp_bind. by eapply wp_fget.
Qed.
Lemma wp_fput f s fs1 x v fs2 ex D mem lg (Q : unit → st → Prop) :
  state s (fs1 ++ (x, v) :: fs2) ex D mem lg →
  (∀ s', state s' (fs1 ++ (x, f v) :: fs2) ex D mem lg → Q tt s') → wp (fput f (Some x)) s Q.
Proof.
  intros [Hs He] HQ. unfold wp, fput. rewrite (shape_at s _ _ x v Hs) by set_solver. apply HQ. split; [|done].
  pose proof (shape_distinct _ _ _ Hs) as Hd. destruct Hs as [Hw Hf]. split; [cbn; by rewrite !fmap_app in *|].
  cbn [frag_at]. rewrite <-app_assoc in *. cbn [app] in *. rewrite Forall_app, Forall_cons in *. cbn [fst snd] in *.
  rewrite fmap_app, fmap_cons in Hd. apply NoDup_app in Hd as (_ & Hd1 & [Hd2 _]%NoDup_cons).
  destruct Hf as (Hf1 & _ & Hf2). split_and!; [|by rewrite lookup_insert_eq|]; apply stored_insert; try done.
  intros Hx. apply (Hd1 x Hx). set_solver.
Qed.
Lemma wp_fput_ex f s fs x v ex D mem lg (Q : unit → st → Prop) :
  state s fs ((x, v) :: ex) D mem lg →
  (∀ s', state s' fs ((x, f v) :: ex) D mem lg → Q tt s') → wp (fput f (Some x)) s Q.
Proof.
  intros [Hs He] HQ. unfold wp, fput. rewrite (shape_at s _ _ x v Hs) by set_solver. apply HQ. split; [|done].
  pose proof (shape_distinct _ _ _ Hs) as Hd. destruct Hs as [Hw Hf]. split; [done|].
  cbn [frag_at]. rewrite Forall_app, Forall_cons in *. cbn [fst snd] in *.
  rewrite fmap_app, fmap_cons in Hd. apply NoDup_app in Hd as (_ & Hd1 & [Hd2 _]%NoDup_cons).
  destruct Hf as (Hf1 & _ & Hf2). split_and!; [|by rewrite lookup_insert_eq|]; apply stored_insert; try done.
  intros Hx. apply (Hd1 x Hx). set_solver.
Qed.
Lemma wp_dget {A} (f : full_dnode → A) s fs ex D mem lg d dn (Q : A → st → Prop) :
  state s fs ex D mem lg → D !! d = Some dn → Q (f dn) s → wp (dget f (Some d)) s Q.
Proof. intros (_ & Hd & _) HD HQ. unfold wp, dget. cbn. by rewrite Hd, HD. Qed.
Lemma wp_dput f s fs ex D mem lg d dn (Q : unit → st → Prop) :
  state s fs ex D mem lg → D !! d = Some dn → (∀ s', state s' fs ex (<[d := f dn]> D) mem lg → Q tt s') →
  wp (dput f (Some d)) s Q.
Proof.
  intros (Hs & Hd & Hm & Hl) HD HQ. unfold wp, dput. rewrite Hd, HD. apply HQ.
  split_and!; [by eapply shape_same; [..|exact Hs]|done..].
Qed.
Lemma wp_free_dnode s fs ex D mem lg d dn (Q : unit → st → Prop) :
  state s fs ex D mem lg → D !! d = Some dn → (∀ s', state s' fs ex (delete d D) mem lg → Q tt s') →
  wp (jffs2_free_full_dnode (Some d)) s Q.
Proof.
  intros (Hs & Hd & Hm & Hl) HD HQ. unfold wp, jffs2_free_full_dnode. rewrite Hd, HD. apply HQ.
  split_and!; [by eapply shape_same; [..|exact Hs]|done..].
Qed.
Lemma wp_mark e s fs ex D mem lg (Q : unit → st → Prop) :
  state s fs ex D mem lg → (∀ s', state s' fs ex D mem (lg ++ [e]) → Q tt s') → wp (mark e) s Q.
Proof.
  intros (Hs & Hd & Hm & Hl) HQ. apply HQ. split_and!; [by eapply shape_same; [..|exact Hs]|done..|]. cbn. by rewrite Hl.
Qed.
(** A fragment without a node, or with one that is there. *)
Definition node_known (D : gmap nat full_dnode) (f : node_frag) : Prop := ∀ d, node f = Some d → is_Some (D !! d).
Lemma wp_mark_normal_if s fs ex D mem lg f (Q : unit → st → Prop) :
  state s fs ex D mem lg → node_known D f → (∀ s' es, state s' fs ex D mem (lg ++ (Normal <$> es)) → Q tt s') →
  wp (mark_normal_if (node f)) s Q.
Proof.
  intros Hs Hf HQ. unfold mark_normal_if. destruct (node f) as [d|] eqn:Hd; cbn [non_null].
  - destruct (Hf d Hd) as [dn HD]. apply wp_bind. eapply wp_dget; [done..|]. eapply wp_mark; [done|].
    intros s' Hs'. by apply (HQ s' [raw dn]).
  - apply wp_ret, (HQ s []). by rewrite app_nil_r.
Qed.
End Shape.

(** ** Allocation and the shape of the tree *)

Section Trees.
Import Rb Frag.
Abbreviation cell := (nat * node_frag)%type.

Definition blank_frag : node_frag := NodeFrag None 0 0.
Lemma wp_alloc s fs ex D mem lg (Q : ptr → st → Prop) :
  state s fs ex D (true :: mem) lg → (∀ s' x, state s' fs ((x, blank_frag) :: ex) D mem lg → Q (Some x) s') →
  wp jffs2_alloc_node_frag s Q.
Proof.
  intros ([Hw Hf] & Hd & Hm & Hl) HQ. unfold wp, jffs2_alloc_node_frag. rewrite Hm. apply HQ.
  assert (cells (fragtree s) !! new_address (fragtree s) = None) as Hnew.
  { apply not_elem_of_dom. rewrite <-elem_of_elements. apply infinite_is_fresh. }
  assert (new_address (fragtree s) ∉ (fs ++ ex).*1) as Hout.
  { intros Hin. apply whole_distinct in Hw as Hn. rewrite <-fmap_app in Hn.
    assert (is_Some (cells (fragtree s) !! new_address (fragtree s))) as [? ?]; [|congruence].
    rewrite fmap_app in Hin. destruct Hw as (t & m & [Hs _] & Ht & _). rewrite Forall_forall in Hs. apply elem_of_app in Hin as [Hin|Hin].
    - apply (foot_dom _ (PSub None t)); [apply Hs; set_solver|]. cbn. apply list_elem_of_fmap_2. by rewrite Ht.
    - apply (foot_dom _ (PAny (new_address (fragtree s)))); [apply Hs; right; right; by apply list_elem_of_fmap_2|cbn; set_solver]. }
  split_and!; [|done..]. split; [by apply whole_alloc|]. cbn [frag_at]. rewrite fmap_app in Hout.
  rewrite Forall_app, Forall_cons in *. cbn [fst snd]. destruct Hf as [Hf1 Hf2]. split_and!; [|by apply lookup_insert_eq|];
    (apply stored_insert; [set_solver|done]).
Qed.
Lemma wp_alloc_fails s fs ex D mem lg (Q : ptr → st → Prop) :
  state s fs ex D mem lg → head mem ≠ Some true → (∀ s', state s' fs ex D (tail mem) lg → Q None s') →
  wp jffs2_alloc_node_frag s Q.
Proof.
  intros (Hs & Hd & Hm & Hl) Hmem HQ. unfold wp, jffs2_alloc_node_frag. rewrite Hm. destruct mem as [|[] mem]; [|done|]; apply HQ.
  - by split_and!.
  - split_and!; [by eapply shape_same; [..|exact Hs]|done..].
Qed.
Lemma wp_free_frag s fs x f ex D mem lg (Q : unit → st → Prop) :
  state s fs ((x, f) :: ex) D mem lg → (∀ s', state s' fs ex D mem lg → Q tt s') → wp (jffs2_free_node_frag (Some x)) s Q.
Proof.
  intros [Hs He] HQ. unfold wp, jffs2_free_node_frag. rewrite (shape_at s _ _ x f Hs) by set_solver. apply HQ. split; [|done].
  pose proof (shape_distinct _ _ _ Hs) as Hd. destruct Hs as [Hw Hf]. split; [by apply whole_free|].
  cbn [frag_at]. rewrite Forall_app, Forall_cons in *. rewrite fmap_app, fmap_cons in Hd. cbn [fst] in Hd.
  apply NoDup_app in Hd as (_ & Hd1 & [Hd2 _]%NoDup_cons). destruct Hf as (Hf1 & _ & Hf2).
  split; (apply stored_delete; [|done]); [|done]. intros Hx. apply (Hd1 x Hx). set_solver.
Qed.

(** Only the tree of the state changes. *)
Lemma state_tree s fs fs' ex ex' D mem lg h :
  state s fs ex D mem lg → whole fs'.*1 (PAny <$> ex'.*1) h → fs' ++ ex' ≡ₚ fs ++ ex →
  state (St h (frag_at s) (dnode_at s) (memory s) (marks s)) fs' ex' D mem lg.
Proof. intros ([Hw Hf] & ?) Hw' Hp. split; [|done]. split; [done|]. cbn. by rewrite Hp. Qed.
Lemma wp_frag_next s fs1 x f fs2 ex D mem lg (Q : ptr → st → Prop) :
  state s (fs1 ++ (x, f) :: fs2) ex D mem lg → Q (head fs2.*1) s → wp (frag_next (Some x)) s Q.
Proof.
  intros ([Hw Hf] & ?) HQ. apply wp_on_tree. rewrite fmap_app in Hw. eapply wp_rb_next; [exact Hw|]. by destruct s.
Qed.
Lemma wp_frag_prev s fs1 x f fs2 ex D mem lg (Q : ptr → st → Prop) :
  state s (fs1 ++ (x, f) :: fs2) ex D mem lg → Q (last fs1.*1) s → wp (frag_prev (Some x)) s Q.
Proof.
  intros ([Hw Hf] & ?) HQ. apply wp_on_tree. rewrite fmap_app in Hw. eapply wp_rb_prev; [exact Hw|]. by destruct s.
Qed.
Lemma wp_erase s fs1 x f fs2 ex D mem lg (Q : unit → st → Prop) :
  state s (fs1 ++ (x, f) :: fs2) ex D mem lg →
  (∀ s', state s' (fs1 ++ fs2) ((x, f) :: ex) D mem lg → Q tt s') → wp (on_tree (rb_erase (Some x))) s Q.
Proof.
  intros Hs HQ. apply wp_on_tree. pose proof Hs as ([Hw _] & _). rewrite fmap_app in Hw. eapply wp_rb_erase; [exact Hw|].
  intros h n Hh. apply HQ. eapply state_tree; [exact Hs| |solve_Permutation].
  rewrite fmap_app. apply whole_any. by exists n.
Qed.
Lemma wp_replace s fs1 x f fs2 y g ex D mem lg (Q : unit → st → Prop) :
  state s (fs1 ++ (x, f) :: fs2) ((y, g) :: ex) D mem lg →
  (∀ s', state s' (fs1 ++ (y, g) :: fs2) ((x, f) :: ex) D mem lg → Q tt s') →
  wp (on_tree (rb_replace_node (Some x) (Some y))) s Q.
Proof.
  intros Hs HQ. apply wp_on_tree. pose proof Hs as ([Hw _] & _). rewrite fmap_app in Hw. apply whole_any in Hw as [n Hw].
  eapply wp_rb_replace_node; [exact Hw|]. intros h n' Hh. apply HQ. eapply state_tree; [exact Hs| |solve_Permutation].
  rewrite fmap_app. apply whole_any. by exists n'.
Qed.

(** ** Hanging a fragment into the tree *)

(** [x] is linked between [fs1] and [fs2], not balanced yet. *)
Definition hung (s : st) (fs1 : list cell) (x : nat) (f : node_frag) (fs2 ex : list cell) D mem lg : Prop :=
  linked fs1.*1 x fs2.*1 (PAny <$> ex.*1) (fragtree s) ∧ Forall (λ xf : cell, frag_at s !! xf.1 = Some xf.2) (fs1 ++ (x, f) :: fs2 ++ ex)
  ∧ dnode_at s = D ∧ memory s = mem ∧ marks s = lg.
Lemma wp_insert_color s fs1 x f fs2 ex D mem lg (Q : unit → st → Prop) :
  hung s fs1 x f fs2 ex D mem lg → (∀ s', state s' (fs1 ++ (x, f) :: fs2) ex D mem lg → Q tt s') →
  wp (on_tree (rb_insert_color (Some x))) s Q.
Proof.
  intros (Hl & Hf & ?) HQ. apply wp_on_tree. eapply wp_rb_insert_color; [exact Hl|]. intros h Hh. apply HQ.
  split; [|done]. split; [by rewrite fmap_app|]. cbn [frag_at]. by rewrite <-app_assoc.
Qed.
Lemma hole_any fr fr' h p L1 L2 x :
  hole L1 L2 fr h p → fr ≡ₚ PAny x :: fr' → ∃ n, hole L1 L2 (PCell x n :: fr') h p.
Proof.
  intros (H & Hp & Hb & Ha) Hfr.
  assert (holds h (PAny x :: PCtx p None :: fr')) as [n Hn]%holds_any by (eapply holds_perm; [|exact H]; rewrite Hfr; solve_Permutation).
  exists n. split; [|done]. eapply holds_perm; [|exact Hn]. solve_Permutation.
Qed.
Lemma wp_link_at s p fs1 fs2 x f ex D mem lg (Q : unit → st → Prop) :
  state s (fs1 ++ fs2) ((x, f) :: ex) D mem lg → hole fs1.*1 fs2.*1 (PAny <$> ((x, f) :: ex).*1) (fragtree s) p →
  (∀ s', hung s' fs1 x f fs2 ex D mem lg → Q tt s') → wp (on_tree (rb_link_node (Some x) (top p) (link_at p))) s Q.
Proof.
  intros ([Hw Hf] & ?) Hh HQ. apply wp_on_tree. destruct (hole_any _ (PAny <$> ex.*1) _ _ _ _ x Hh) as [n Hn]; [done|].
  eapply wp_link; [exact Hn|]. intros h Hl. apply HQ. split; [done|]. split; [|done]. cbn [frag_at].
  assert (fs1 ++ (x, f) :: fs2 ++ ex ≡ₚ (fs1 ++ fs2) ++ (x, f) :: ex) as -> by solve_Permutation. done.
Qed.
End Trees.

Section Walks.
Import Rb Frag.
Abbreviation cell := (nat * node_frag)%type.

(** The fragments from [o] on, without gap or overlap. *)
Fixpoint extent (o : Z) (fs : list cell) : Z := match fs with [] => o | (_, f) :: fs => extent (o + size f) fs end.
Fixpoint tiled (o : Z) (fs : list cell) : Prop :=
  match fs with [] => True | (_, f) :: fs => ofs f = o ∧ 0 < size f ∧ tiled (o + size f) fs end.
Lemma extent_app o l1 l2 : extent o (l1 ++ l2) = extent (extent o l1) l2.
Proof. revert o. induction l1 as [|[x f] l1 IH]; intros o; [done|apply IH]. Qed.
Lemma tiled_app o l1 l2 : tiled o (l1 ++ l2) ↔ tiled o l1 ∧ tiled (extent o l1) l2.
Proof. revert o. induction l1 as [|[x f] l1 IH]; intros o; cbn; [tauto|]. rewrite IH. tauto. Qed.
Lemma extent_le o l : tiled o l → o <= extent o l.
Proof. revert o. induction l as [|[x f] l IH]; intros o; cbn; [lia|]. intros (_ & ? & Hl). apply IH in Hl. lia. Qed.
Lemma tiled_range o l x f : tiled o l → (x, f) ∈ l → o <= ofs f ∧ 0 < size f ∧ ofs f + size f <= extent o l.
Proof.
  intros Ht (l1 & l2 & ->)%list_elem_of_split. apply tiled_app in Ht as [H1 (Ho & Hs & H2)].
  rewrite extent_app. cbn. apply extent_le in H1, H2. lia.
Qed.
Lemma tiled_length o l : tiled o l → Z.of_nat (length l) <= extent o l - o.
Proof. revert o. induction l as [|[x f] l IH]; intros o; cbn; [lia|]. intros (_ & ? & Hl). apply IH in Hl. lia. Qed.

(** What a look-up answers: the fragment that holds the offset, or the last one. *)
Definition found (fs : list cell) (offset : Z) (q : ptr) : Prop :=
  (∃ fs1 x f fs2, fs = fs1 ++ (x, f) :: fs2 ∧ q = Some x ∧ ofs f <= offset < ofs f + size f) ∨
  (extent 0 fs <= offset ∧ q = last fs.*1).
Lemma tiled_split_ends offset pre post :
  0 <= offset → tiled 0 (pre ++ post) → Forall (λ c : cell, ofs c.2 + size c.2 <= offset) pre →
  Forall (λ c : cell, offset < ofs c.2) post → post = [] ∧ extent 0 pre <= offset.
Proof.
  intros Ho [H1 H2]%tiled_app Hpre Hpost.
  assert (extent 0 pre <= offset) as He.
  { destruct pre as [|[x f] pre _] using rev_ind; [cbn; lia|]. apply tiled_app in H1 as [_ (Hf & _)].
    apply Forall_app in Hpre as [_ [Hx _]%Forall_cons]. rewrite extent_app. cbn in *. lia. }
  split; [|done]. destruct post as [|[y g] post]; [done|]. apply Forall_cons in Hpost as [Hy _]. destruct H2 as [Hg _]. cbn in *. lia.
Qed.
Lemma tiled_order o l1 y g l2 x f : tiled o (l1 ++ (y, g) :: l2) → (x, f) ∈ l2 → ofs g < ofs g + size g <= ofs f.
Proof. intros [_ (? & ? & H2)]%tiled_app Hin. pose proof (tiled_range _ _ _ _ H2 Hin). cbn in *. lia. Qed.
Lemma wp_newer_prev s fs ex D mem lg pre x f post (Q : ptr → st → Prop) :
  state s fs ex D mem lg → fs = pre ++ post → (x, f) ∈ post → tiled 0 fs → Q (Some x) s →
  wp (if non_null (last pre.*1) then po ← fget ofs (last pre.*1); mret (if po <? ofs f then Some x else last pre.*1) else mret (Some x)) s Q.
Proof.
  intros Hs -> Hin Ht HQ. destruct pre as [|[y g] pre _] using rev_ind; [done|].
  rewrite fmap_app. change ([(y, g)].*1) with [y]. rewrite last_snoc. cbn [non_null]. rewrite <-app_assoc in Ht. pose proof (tiled_order _ _ _ _ _ x f Ht Hin).
  apply wp_bind. eapply (wp_fget _ _ _ _ _ _ _ y g); [exact Hs|set_solver|]. apply wp_ret. by destruct (Z.ltb_spec (ofs g) (ofs f)); [|lia].
Qed.
Lemma wp_on_get {A} (f : rb_node → A) s x n ps (Q : A → st → Prop) :
  holds (fragtree s) (PCell x n :: ps) → Q (f n) s → wp (on_tree (get f (Some x))) s Q.
Proof. intros H HQ. apply wp_on_tree. eapply wp_get; [exact H|]. by destruct s. Qed.
Lemma wp_on_get_root s q ps (Q : ptr → st → Prop) : holds (fragtree s) (PCtx [] q :: ps) → Q q s → wp (on_tree get_root) s Q.
Proof. intros H HQ. apply wp_on_tree. eapply wp_get_root; [exact H|]. by destruct s. Qed.
Lemma wp_loop {A} (loop : nat → N A) s Q : wp (loop (S (S (base.size (cells (fragtree s)))))) s Q → wp (loop_on_tree loop) s Q.
Proof. done. Qed.
Lemma lookup_loop_spec fuel s fs ex D mem lg par t ps pre mid post offset Q :
  state s fs ex D mem lg → holds (fragtree s) (PSub par t :: ps) → fs = pre ++ mid ++ post → mid.*1 = inorder t →
  0 <= offset → tiled 0 fs → extent 0 fs < 2 ^ 32 →
  Forall (λ c : cell, ofs c.2 + size c.2 <= offset) pre → Forall (λ c : cell, offset < ofs c.2) post →
  (depth t < fuel)%nat → (∀ q, found fs offset q → Q q s) →
  wp (lookup_loop fuel (ptr_of t) (last pre.*1) offset) s Q.
Proof.
  intros Hs. revert par t ps pre mid post. induction fuel as [|fuel IH]; intros par t ps pre mid post H Hfs Hmid Ho Ht He Hpre Hpost Hfuel HQ; [lia|].
  cbn [lookup_loop]. destruct t as [|c l x r]; cbn [ptr_of non_null].
  - apply fmap_nil_inv in Hmid as ->. rewrite Hfs in Ht. destruct (tiled_split_ends offset pre post) as [-> ?]; [done..|].
    apply wp_ret, HQ. right. rewrite Hfs. cbn [app] in *. rewrite !app_nil_r in *. done.
  - cbn [inorder] in Hmid. apply fmap_app_inv in Hmid as (ml & mr' & Hl & Hr & ->).
    symmetry in Hr. apply fmap_cons_inv in Hr as ([x' f] & mr & Hx & Hr & ->). cbn in Hx. subst x'.
    assert ((x, f) ∈ fs) as Hin by (rewrite Hfs; set_solver).
    pose proof (tiled_range _ _ _ _ Ht Hin) as Hrange. rewrite <-app_assoc in Hfs. cbn in Hfuel.
    apply wp_bind. eapply (wp_frag_end _ _ _ _ _ _ x f); [exact Hs|set_solver|]. rewrite u32_small by lia.
    open_node H. destruct (Z.leb_spec (ofs f + size f) offset).
    + apply wp_bind. eapply (wp_fget _ _ _ _ _ _ _ x f); [exact Hs|set_solver|]. apply wp_bind.
      eapply (wp_newer_prev _ _ _ _ _ _ pre x f); [exact Hs|exact Hfs|set_solver|done|].
      apply wp_bind. pull H (PCell x _). eapply wp_on_get; [exact H|]. cbn [rb_right].
      pull H (PSub (Some x) r). replace (Some x) with (last ((pre ++ ml ++ [(x, f)]).*1)) by (by rewrite app_assoc, fmap_app; apply last_snoc).
      eapply (IH _ _ _ _ mr post); [exact H|by rewrite Hfs, <-!app_assoc|done..| |done|lia|done].
      rewrite !Forall_app, Forall_singleton. split_and!; [done| |done]. apply Forall_forall. intros [y g] Hy. cbn.
      rewrite Hfs in Ht. apply list_elem_of_split in Hy as (m1 & m2 & ->).
      rewrite <-app_assoc, app_assoc in Ht. cbn [app] in Ht. pose proof (tiled_order _ _ _ _ _ x f Ht ltac:(set_solver)). lia.
    + apply wp_bind. eapply (wp_fget _ _ _ _ _ _ _ x f); [exact Hs|set_solver|]. destruct (Z.ltb_spec offset (ofs f)).
      * apply wp_bind. pull H (PCell x _). eapply wp_on_get; [exact H|]. cbn [rb_left].
        pull H (PSub (Some x) l). eapply (IH _ _ _ pre ml ((x, f) :: mr ++ post)); [exact H|done..| |lia|done].
        rewrite Forall_cons, Forall_app. split_and!; [done| |done]. apply Forall_forall. intros [y g] Hy. cbn.
        rewrite Hfs, app_assoc in Ht. pose proof (tiled_order _ _ _ _ _ y g Ht ltac:(set_solver)). lia.
      * apply wp_ret, HQ. left. exists (pre ++ ml), x, f, (mr ++ post). split_and!; [by rewrite Hfs, <-app_assoc|done|lia..].
Qed.

Lemma wp_lookup s fs ex D mem lg offset (Q : ptr → st → Prop) :
  state s fs ex D mem lg → 0 <= offset → tiled 0 fs → extent 0 fs < 2 ^ 32 →
  (∀ q, found fs offset q → Q q s) → wp (jffs2_lookup_node_frag offset) s Q.
Proof.
  intros Hs Ho Ht He HQ. unfold jffs2_lookup_node_frag. apply wp_bind.
  pose proof Hs as ([(t & m & H & Hin & _) _] & _). pull H (PCtx [] _).
  eapply wp_on_get_root; [exact H|]. pull H (PSub None t). apply wp_loop.
  eapply (lookup_loop_spec _ _ fs _ _ _ _ None t _ [] fs []); [exact Hs|exact H|by rewrite app_nil_r|done|done..| |done].
  pose proof (size_tree _ _ _ _ H). pose proof (depth_size t). lia.
Qed.

(** ** The place for a new fragment *)

(** The descent to the left below a subtree whose offsets are all larger. *)
Lemma descent_left fuel s p t x fx fr m (Q : ptr * link → st → Prop) :
  holds (fragtree s) (PSub (top p) t :: PCtx p (ptr_of t) :: fr) → rbt (plug p t) RB_BLACK m → t ≠ Leaf →
  frag_at s !! x = Some fx → (∀ y, y ∈ inorder t → ∃ f, frag_at s !! y = Some f ∧ ofs fx < ofs f) → (depth t ≤ fuel)%nat →
  (∀ q, hole (before p) (inorder t ++ after p) fr (fragtree s) q → Q (top q, link_at q) s) →
  wp (insert_descent fuel (Some x) (ptr_of t)) s Q.
Proof.
  revert p t. induction fuel as [|fuel IH]; intros p t H Hm Hne Hx Hall Hfuel HQ; [destruct t; cbn in Hfuel; [done|lia]|].
  destruct t as [|c l y r]; [done|]. cbn [ptr_of insert_descent depth] in *.
  destruct (Hall y) as (f & Hy & Hlt); [cbn; set_solver|].
  apply wp_bind. unfold wp at 1, fget at 1. cbn. rewrite Hx. apply wp_bind. unfold wp at 1, fget at 1. cbn. rewrite Hy.
  apply wp_bind. destruct (Z.ltb_spec (ofs f) (ofs fx)); [lia|]. destruct (Z.ltb_spec (ofs fx) (ofs f)); [|lia]. apply wp_ret.
  pose proof H as H'. open_node H. apply wp_bind. eapply wp_on_get; [exact H|]. cbn [rb_left].
  destruct l as [|cl ll z rl]; cbn [ptr_of non_null].
  - apply wp_ret. apply (HQ (StepL c y r :: p)). apply (hole_left _ _ (inorder r ++ after p)).
    split_and!; [exact H'|by eexists|by rewrite app_nil_r|done].
  - pull H (PCtx p _). pull H (PSub (Some y) r). pull H (PCell y _). apply (holds_stepL _ c y r p (Some z)) in H.
    pull H (PSub (Some y) (Node _ _ _ _)). apply (IH (StepL c y r :: p) (Node cl ll z rl)); [exact H|exact Hm|done|done| |lia|].
    + intros w Hw. apply Hall. cbn [inorder] in *. set_solver.
    + intros q Hq. apply HQ. cbn [before after inorder] in *. by rewrite <-app_assoc.
Qed.
Lemma wp_insert_after s fs1 b fb fs2 x fx ex D mem lg (Q : unit → st → Prop) :
  state s (fs1 ++ (b, fb) :: fs2) ((x, fx) :: ex) D mem lg → ofs fb < ofs fx → Forall (λ c : cell, ofs fx < ofs c.2) fs2 →
  (∀ s', state s' (fs1 ++ (b, fb) :: (x, fx) :: fs2) ex D mem lg → Q tt s') → wp (insert_after (Some x) (Some b)) s Q.
Proof.
  intros Hs Hb Hall HQ. unfold insert_after, jffs2_fragtree_insert. apply wp_bind, wp_bind.
  pose proof Hs as (Hsh & _). pose proof Hsh as [Hw _]. rewrite fmap_app in Hw.
  change (((b, fb) :: fs2).*1) with (b :: fs2.*1) in Hw. destruct (whole_focus _ _ _ _ _ Hw) as (p & c & l & r & Hf).
  pose proof Hf as (H & [m Hm] & HL1 & HL2).
  assert (frag_at s !! b = Some fb) as Hfb by (eapply shape_at; [exact Hsh|set_solver]).
  assert (frag_at s !! x = Some fx) as Hfx by (eapply shape_at; [exact Hsh|set_solver]).
  apply wp_loop. remember (S (base.size (cells (fragtree s)))) as fuel eqn:Efuel. cbn [insert_descent]. apply wp_bind. unfold wp at 1, fget at 1. cbn. rewrite Hfx.
  apply wp_bind. unfold wp at 1, fget at 1. cbn. rewrite Hfb. apply wp_bind.
  destruct (Z.ltb_spec (ofs fb) (ofs fx)); [|lia]. apply wp_ret. pose proof H as H'. open_node H. apply wp_bind. eapply wp_on_get; [exact H|]. cbn [rb_right].
  assert (∀ q, hole (fs1 ++ [(b, fb)]).*1 fs2.*1 (PAny <$> ((x, fx) :: ex).*1) (fragtree s) q →
    wp (on_tree (rb_link_node (Some x) (top q) (link_at q))) s (λ _ s', wp (on_tree (rb_insert_color (Some x))) s' Q)) as Hlink.
  { intros q Hq. eapply (wp_link_at _ _ (fs1 ++ [(b, fb)]) fs2); [by rewrite <-app_assoc|exact Hq|].
    intros s' Hh. eapply wp_insert_color; [exact Hh|]. intros s'' Hs''. apply HQ. by rewrite <-app_assoc in Hs''. }
  rewrite fmap_app in Hlink. destruct r as [|cr lr z rr] eqn:Er; cbn [ptr_of non_null].
  - apply wp_ret. apply (Hlink (StepR c l b :: p)). by apply hole_right.
  - pull H (PCtx p _). pull H (PSub (Some b) l). pull H (PCell b _). apply (holds_stepR _ c l b p (Some z)) in H.
    pull H (PSub (Some b) (Node _ _ _ _)).
    eapply (descent_left _ _ (StepR c l b :: p) (Node cr lr z rr)); [exact H|exact Hm|done|exact Hfx| | |].
    + intros y Hy. assert (y ∈ fs2.*1) as ((y' & f) & -> & Hin)%list_elem_of_fmap by (rewrite HL2; set_solver).
      exists f. split; [eapply shape_at; [exact Hsh|set_solver]|]. rewrite Forall_forall in Hall. by apply (Hall (y', f)).
    + pull H (PSub _ (Node cr _ _ _)). apply size_tree in H. etransitivity; [apply depth_size|]. lia.
    + intros q Hq. apply Hlink. cbn [before after] in Hq. rewrite app_assoc in Hq. by rewrite HL1, HL2.
Qed.
End Walks.

(** ** The fragments that refer to a node *)

Section Counting.
Import Rb Frag.
Abbreviation cell := (nat * node_frag)%type.

Definition refers (d : nat) (c : cell) : Z := if bool_decide (node c.2 = Some d) then 1 else 0.
Fixpoint count (d : nat) (fs : list cell) : Z := match fs with [] => 0 | c :: fs => refers d c + count d fs end.
Lemma refers_range d c : 0 <= refers d c <= 1.
Proof. unfold refers. case_bool_decide; lia. Qed.
Lemma count_perm d fs fs' : fs ≡ₚ fs' → count d fs = count d fs'.
Proof. induction 1; cbn; lia. Qed.
Lemma count_frags_app d fs fs' : count d (fs ++ fs') = count d fs + count d fs'.
Proof. induction fs; cbn; lia. Qed.
Lemma count_length d fs : 0 <= count d fs <= Z.of_nat (length fs).
Proof. induction fs as [|c fs IH]; cbn; [lia|]. pose proof (refers_range d c). lia. Qed.
(** Changing a fragment without changing its node. *)
Lemma count_same_node d x f y g fs fs' : node f = node g → count d (fs ++ (x, f) :: fs') = count d (fs ++ (y, g) :: fs').
Proof. intros Hn. rewrite !count_frags_app. cbn. unfold refers. cbn. by rewrite Hn. Qed.

(** Every fragment's node is there and the nodes count their fragments. *)
Definition counted (D : gmap nat full_dnode) (fs : list cell) : Prop :=
  Forall (λ c : cell, node_known D c.2) fs ∧ ∀ d dn, D !! d = Some dn → frags dn = count d fs.
Lemma counted_perm D fs fs' : fs ≡ₚ fs' → counted D fs → counted D fs'.
Proof. intros Hp [H1 H2]. split; [by rewrite <-Hp|]. intros d dn HD. rewrite <-(count_perm d _ _ Hp). auto. Qed.
Lemma counted_same_node D fs x f y g fs' : node f = node g → counted D (fs ++ (x, f) :: fs') → counted D (fs ++ (y, g) :: fs').
Proof.
  intros Hn [H1 H2]. split.
  - rewrite Forall_app, Forall_cons in *. unfold node_known in *. cbn in *. by rewrite <-Hn.
  - intros d dn HD. rewrite <-(count_same_node _ x f y g) by done. auto.
Qed.
Lemma counted_hole D fs x f : node f = None → counted D fs ↔ counted D ((x, f) :: fs).
Proof.
  intros Hn. assert (∀ d, refers d (x, f) = 0) as Hz by (intros d; unfold refers; cbn; by rewrite Hn).
  assert (node_known D f) by (intros d; congruence). unfold counted. rewrite Forall_cons. cbn [snd count].
  split; [intros [H1 H2]|intros [[_ H1] H2]]; (split; [done|]); intros d dn HD; rewrite (H2 _ _ HD), Hz; lia.
Qed.

(** How the nodes change: those that lose their last fragment are freed and marked obsolete. *)
Definition evolves (D D' : gmap nat full_dnode) (es : list event) : Prop :=
  (∀ d dn, D !! d = Some dn →
     match D' !! d with
     | Some dn' => raw dn' = raw dn ∧ dofs dn' = dofs dn ∧ dsize dn' = dsize dn ∧ (0 < frags dn ↔ 0 < frags dn')
     | None => Obsolete (raw dn) ∈ es ∧ 0 < frags dn
     end) ∧
  (∀ r, Obsolete r ∈ es → ∃ d dn, D !! d = Some dn ∧ raw dn = r ∧ D' !! d = None) ∧
  (∀ d, D !! d = None → D' !! d = None).
Lemma evolves_normal D l : evolves D D (Normal <$> l).
Proof.
  split_and!; [intros d dn ->; tauto| |done]. intros r Hr. apply list_elem_of_fmap in Hr as (? & ? & _). done.
Qed.
Lemma evolves_refl D : evolves D D [].
Proof. apply (evolves_normal D []). Qed.
Lemma evolves_trans D D' D'' es es' : evolves D D' es → evolves D' D'' es' → evolves D D'' (es ++ es').
Proof.
  intros (H1 & H2 & H3) (K1 & K2 & K3). split_and!.
  - intros d dn HD. specialize (H1 _ _ HD). destruct (D' !! d) as [dn'|] eqn:HD'.
    + specialize (K1 _ _ HD'). destruct H1 as (Hr & Ho & Hs & Hf). destruct (D'' !! d) as [dn''|].
      * destruct K1 as (Hr' & Ho' & Hs' & Hf'). split_and!; [congruence..|tauto].
      * rewrite <-Hr. destruct K1 as [K1 ?]. split; [set_solver|tauto].
    + rewrite (K3 _ HD'). set_solver.
  - intros r [Hr|Hr]%elem_of_app.
    + destruct (H2 r Hr) as (d & dn & HD & Hrd & HD'). exists d, dn. split_and!; [done..|by apply K3].
    + destruct (K2 r Hr) as (d & dn & HD & Hrd & HD''). destruct (D !! d) as [dn0|] eqn:HD0; [|by rewrite (H3 _ HD0) in HD].
      specialize (H1 _ _ HD0). rewrite HD in H1. exists d, dn0. split_and!; [done|destruct H1; congruence|done].
  - intros d HD. by apply K3, H3.
Qed.

Lemma refers_self d x f : node f = Some d → refers d (x, f) = 1.
Proof. intros Hn. unfold refers. cbn. by rewrite bool_decide_eq_true_2. Qed.
Lemma refers_other d e x f : node f = Some d → e ≠ d → refers e (x, f) = 0.
Proof. intros Hn Hne. unfold refers. cbn. rewrite bool_decide_eq_false_2; [done|]. congruence. Qed.
Lemma count_positive d fs x f : (x, f) ∈ fs → node f = Some d → 0 < count d fs.
Proof.
  intros (l1 & l2 & ->)%list_elem_of_split Hn. rewrite count_frags_app. cbn. rewrite refers_self by done.
  pose proof (count_length d l1). pose proof (count_length d l2). lia.
Qed.
(** One fragment less. *)
Lemma counted_remove D fs x f d dn :
  counted D ((x, f) :: fs) → node f = Some d → D !! d = Some dn → frags dn = count d fs + 1
  ∧ counted (if count d fs =? 0 then delete d D else <[d := set_frags (count d fs) dn]> D) fs.
Proof.
  intros [[Hk Hall]%Forall_cons HD] Hn Hd. pose proof (HD _ _ Hd) as Hf. cbn in Hf. rewrite refers_self in Hf by done.
  split; [lia|]. destruct (Z.eqb_spec (count d fs) 0) as [Hz|Hz]; (split; [apply Forall_forall; intros [y g] Hy e He|]).
  - rewrite lookup_delete_ne; [rewrite Forall_forall in Hall; exact (Hall (y, g) Hy e He)|].
    intros ->. pose proof (count_positive _ _ _ _ Hy He). lia.
  - intros e en. rewrite lookup_delete_Some. intros [Hne He]. rewrite (HD _ _ He). cbn. rewrite (refers_other d) by done. lia.
  - destruct (decide (d = e)) as [<-|]; [rewrite lookup_insert_eq; by eexists|rewrite lookup_insert_ne by done].
    rewrite Forall_forall in Hall. exact (Hall (y, g) Hy e He).
  - intros e en. destruct (decide (d = e)) as [<-|]; [rewrite lookup_insert_eq; by intros [= <-]|rewrite lookup_insert_ne by done].
    intros He. rewrite (HD _ _ He). cbn. rewrite (refers_other d) by done. lia.
Qed.
Lemma evolves_insert D d dn k es :
  D !! d = Some dn → (0 < frags dn ↔ 0 < k) → (∀ r, Obsolete r ∉ es) → evolves D (<[d := set_frags k dn]> D) es.
Proof.
  intros Hd Hk He. split_and!; [| |].
  - intros e en HD. destruct (decide (d = e)) as [<-|]; [rewrite lookup_insert_eq|rewrite lookup_insert_ne, HD by done; done].
    assert (en = dn) as -> by congruence. done.
  - intros r Hr. by destruct (He r).
  - intros e HD. rewrite lookup_insert_ne; congruence.
Qed.
Lemma evolves_delete D d dn : D !! d = Some dn → 0 < frags dn → evolves D (delete d D) [Obsolete (raw dn)].
Proof.
  intros Hd Hk. split_and!.
  - intros e en HD. destruct (decide (d = e)) as [<-|]; [rewrite lookup_delete_eq|rewrite lookup_delete_ne, HD by done; done].
    assert (en = dn) as -> by congruence. set_solver.
  - intros r Hr. apply list_elem_of_singleton in Hr as [= ->]. exists d, dn. by rewrite lookup_delete_eq.
  - intros e HD. by apply lookup_delete_None; right.
Qed.

Lemma wp_obsolete s fs x f ex D mem lg (Q : unit → st → Prop) :
  state s fs ((x, f) :: ex) D mem lg → counted D (fs ++ (x, f) :: ex) → Z.of_nat (length (fs ++ ex)) < 2 ^ 32 →
  (∀ s' D' es, state s' fs ex D' mem (lg ++ es) → counted D' (fs ++ ex) → evolves D D' es → Q tt s') →
  wp (jffs2_obsolete_node_frag (Some x)) s Q.
Proof.
  intros Hs Hc Hlen HQ. unfold jffs2_obsolete_node_frag. apply wp_bind. eapply (wp_fget _ _ _ _ _ _ _ x f); [exact Hs|set_solver|].
  assert (counted D ((x, f) :: fs ++ ex)) as Hc' by (eapply counted_perm; [|exact Hc]; solve_Permutation).
  apply wp_bind. destruct (node f) as [d|] eqn:Hn; cbn [non_null].
  - pose proof Hc' as [[Hk _]%Forall_cons _]. destruct (Hk d Hn) as [dn Hd].
    destruct (counted_remove _ _ _ _ _ _ Hc' Hn Hd) as [Hfr Hc1]. pose proof (count_length d (fs ++ ex)).
    apply wp_bind. eapply wp_dput; [exact Hs|exact Hd|]. clear Hs. intros s1 Hs. cbn beta in Hs.
    rewrite u32_small in Hs by lia. replace (frags dn - 1) with (count d (fs ++ ex)) in Hs by lia.
    apply wp_bind. eapply wp_dget; [exact Hs|by apply lookup_insert_eq|]. cbn [frags set_frags].
    revert Hc1. destruct (Z.eqb_spec (count d (fs ++ ex)) 0) as [Hz|Hz]; intros Hc1.
    + apply wp_bind. eapply wp_dget; [exact Hs|by apply lookup_insert_eq|]. apply wp_bind. eapply wp_mark; [exact Hs|].
      clear Hs. intros s2 Hs. eapply wp_free_dnode; [exact Hs|by apply lookup_insert_eq|]. clear Hs. intros s3 Hs.
      rewrite delete_insert_eq in Hs. eapply wp_free_frag; [exact Hs|]. clear Hs. intros s4 Hs.
      eapply HQ; [exact Hs|exact Hc1|]. apply (evolves_delete D d dn); [done|lia].
    + apply wp_bind. eapply wp_dget; [exact Hs|by apply lookup_insert_eq|]. eapply wp_mark; [exact Hs|].
      clear Hs. intros s2 Hs. eapply wp_free_frag; [exact Hs|]. clear Hs. intros s4 Hs.
      eapply HQ; [exact Hs|exact Hc1|]. apply evolves_insert; [done|lia|set_solver].
  - apply wp_ret. eapply wp_free_frag; [exact Hs|]. clear Hs. intros s4 Hs.
    eapply (HQ s4 D []); [by rewrite app_nil_r|by eapply (counted_hole _ _ x f)|apply evolves_refl].
Qed.
End Counting.

(** ** Adding a fragment *)

Section Adding.
Import Rb Frag.
Abbreviation cell := (nat * node_frag)%type.

(** What a byte of the file comes from: a node, a hole, or nothing behind the end. *)
Fixpoint content (fs : list cell) (off : Z) : option ptr :=
  match fs with
  | [] => None
  | (_, f) :: fs => if (ofs f <=? off) && (off <? ofs f + size f) then Some (node f) else content fs off
  end.
Lemma content_app l1 l2 off : content (l1 ++ l2) off = match content l1 off with Some v => Some v | None => content l2 off end.
Proof. induction l1 as [|[x f] l1 IH]; cbn; [done|]. destruct (_ && _); [done|apply IH]. Qed.
Lemma content_outside o l off : tiled o l → off < o ∨ extent o l <= off → content l off = None.
Proof.
  revert o. induction l as [|[x f] l IH]; intros o; cbn; [done|]. intros (Ho & Hs & Hl) Hoff.
  pose proof (extent_le _ _ Hl). destruct (Z.leb_spec (ofs f) off), (Z.ltb_spec off (ofs f + size f)); cbn; try lia; eapply IH; try done; lia.
Qed.
Lemma content_inside o l off : tiled o l → o <= off < extent o l → is_Some (content l off).
Proof.
  revert o. induction l as [|[x f] l IH]; intros o; cbn; [lia|]. intros (Ho & Hs & Hl) Hoff.
  destruct (Z.leb_spec (ofs f) off), (Z.ltb_spec off (ofs f + size f)); cbn; [by eexists|eapply IH; [done|lia]..].
Qed.

(** The fragments that are not covered up to [e], and the first of them cut at [e]. *)
Fixpoint uncovered (e : Z) (fs : list cell) : list cell :=
  match fs with [] => [] | (x, f) :: fs' => if ofs f + size f <=? e then uncovered e fs' else fs end.
Definition cut (e : Z) (fs : list cell) : list cell :=
  match fs with [] => [] | (x, f) :: fs => (x, if e =? ofs f then f else NodeFrag (node f) (ofs f + size f - e) e) :: fs end.
Lemma cut_tiled e o fs :
  o <= e → tiled o fs → tiled e (cut e (uncovered e fs)) ∧ extent e (cut e (uncovered e fs)) = Z.max e (extent o fs).
Proof.
  revert o. induction fs as [|[x f] fs IH]; intros o Ho; cbn; [lia|]. intros (Hf & Hs & Hl).
  destruct (Z.leb_spec (ofs f + size f) e).
  - by apply IH; [lia|].
  - pose proof (extent_le _ _ Hl). cbn. destruct (Z.eqb_spec e (ofs f)); cbn.
    + assert (e = o) as -> by lia. split; [done|]. lia.
    + replace (e + (ofs f + size f - e)) with (o + size f) by lia. split; [split_and!; [done|lia|done]|lia].
Qed.
Lemma cut_content e o fs off : o <= e → tiled o fs → e <= off → content (cut e (uncovered e fs)) off = content fs off.
Proof.
  revert o. induction fs as [|[x f] fs IH]; intros o Ho; cbn; [done|]. intros (Hf & Hs & Hl) Hoff.
  destruct (Z.leb_spec (ofs f + size f) e).
  - rewrite IH with (o := o + size f) by (done || lia). destruct (Z.ltb_spec off (ofs f + size f)); [lia|]. by rewrite andb_false_r.
  - cbn. destruct (Z.eqb_spec e (ofs f)); cbn; [done|]. replace (e + (ofs f + size f - e)) with (ofs f + size f) by lia.
    destruct (Z.leb_spec e off); [|lia]. destruct (Z.leb_spec (ofs f) off); [done|lia].
Qed.
Lemma length_uncovered e fs : (length (uncovered e fs) ≤ length fs)%nat.
Proof. induction fs as [|[x f] fs IH]; cbn; [done|]. destruct (_ <=? _); cbn; lia. Qed.
Lemma counted_cut D e fs1 fs2 : counted D (fs1 ++ fs2) ↔ counted D (fs1 ++ cut e fs2).
Proof.
  destruct fs2 as [|[x f] fs2]; [done|]. cbn [cut]. split; apply counted_same_node; by destruct (e =? ofs f).
Qed.
Lemma extent_shift o l k : extent (o + k) l = extent o l + k.
Proof. revert o. induction l as [|[x f] l IH]; intros o; cbn; [done|]. rewrite <-IH. f_equal. lia. Qed.

Lemma covered_loop_spec fuel s fs1 x fx fs2 D mem lg o Q :
  state s (fs1 ++ (x, fx) :: fs2) [] D mem lg → counted D (fs1 ++ (x, fx) :: fs2) → tiled o fs2 → 0 <= o → extent o fs2 < 2 ^ 32 →
  0 <= ofs fx → 0 < size fx → ofs fx + size fx < 2 ^ 32 → Z.of_nat (length (fs1 ++ fs2)) < 2 ^ 32 → (length fs2 < fuel)%nat →
  (∀ s' D' es, state s' (fs1 ++ (x, fx) :: uncovered (ofs fx + size fx) fs2) [] D' mem (lg ++ es) →
     counted D' (fs1 ++ (x, fx) :: uncovered (ofs fx + size fx) fs2) → evolves D D' es →
     Q (head (uncovered (ofs fx + size fx) fs2).*1) s') →
  wp (covered_loop fuel (Some x)) s Q.
Proof.
  revert s fs2 D lg o. induction fuel as [|fuel IH]; intros s fs2 D lg o Hs Hc Ht Ho He Hx0 Hx Hxe Hlen Hfuel HQ; [lia|].
  cbn [covered_loop]. apply wp_bind. eapply wp_frag_next; [exact Hs|].
  destruct fs2 as [|[y g] fs2]; cbn [fmap list_fmap head non_null fst].
  - apply wp_ret. eapply (HQ s D []); [by rewrite app_nil_r|done|apply evolves_refl].
  - pose proof Ht as (Hg & Hgs & Hl). pose proof (extent_le _ _ Hl). cbn [extent] in He. change (base.fmap) with (@fmap list _).
    apply wp_bind. eapply (wp_frag_end _ _ _ _ _ _ x fx); [exact Hs|set_solver|]. rewrite u32_small by lia.
    apply wp_bind. eapply (wp_frag_end _ _ _ _ _ _ y g); [exact Hs|set_solver|]. rewrite u32_small by lia.
    cbn [uncovered] in HQ. destruct (Z.leb_spec (ofs g + size g) (ofs fx + size fx)).
    + apply wp_bind. replace (fs1 ++ (x, fx) :: (y, g) :: fs2) with ((fs1 ++ [(x, fx)]) ++ (y, g) :: fs2) in Hs, Hc by (by rewrite <-app_assoc).
      eapply wp_erase; [exact Hs|]. clear Hs. intros s1 Hs. apply wp_bind.
      eapply wp_obsolete; [exact Hs| | |].
      * eapply counted_perm; [|exact Hc]. solve_Permutation.
      * rewrite !length_app in *. cbn in *. lia.
      * clear Hs. intros s2 D2 es Hs Hc2 Hev. rewrite app_nil_r in Hc2. rewrite <-app_assoc in Hs, Hc2. cbn [app] in Hs, Hc2.
        eapply IH; [exact Hs|exact Hc2|exact Hl|lia..| |cbn in Hfuel; lia|].
        -- rewrite !length_app in *. cbn in *. lia.
        -- intros s3 D3 es3 Hs3 Hc3 Hev3. rewrite <-app_assoc in Hs3. eapply HQ; [exact Hs3|exact Hc3|]. by eapply evolves_trans.
    + apply wp_ret. eapply (HQ s D []); [by rewrite app_nil_r|done|apply evolves_refl].
Qed.

Lemma past_first {A} (l : list A) x r : l ++ x :: r = (l ++ [x]) ++ r.
Proof. by rewrite <-app_assoc. Qed.
Lemma uncovered_head e fs : match uncovered e fs with [] => True | (y, g) :: _ => (y, g) ∈ fs ∧ e < ofs g + size g end.
Proof.
  induction fs as [|[z h] fs IH]; cbn; [done|]. destruct (Z.leb_spec (ofs h + size h) e); [|set_solver].
  destruct (uncovered e fs) as [|[y g] rest]; [done|]. set_solver.
Qed.
Lemma counted_known D fs x f : counted D fs → (x, f) ∈ fs → node_known D f.
Proof. intros [Hk _] Hin. rewrite Forall_forall in Hk. exact (Hk _ Hin). Qed.
Lemma wp_mark_node s fs ex D mem lg x f d (Q : unit → st → Prop) :
  state s fs ex D mem lg → (x, f) ∈ fs ++ ex → node f = Some d → is_Some (D !! d) →
  (∀ s' r, state s' fs ex D mem (lg ++ [Normal r]) → Q tt s') → wp (mark_node_normal (Some x)) s Q.
Proof.
  intros Hs Hin Hn [dn Hd] HQ. unfold mark_node_normal. apply wp_bind. eapply wp_fget; [exact Hs|exact Hin|]. rewrite Hn.
  apply wp_bind. eapply wp_dget; [exact Hs|exact Hd|]. eapply wp_mark; [exact Hs|]. eauto.
Qed.

Lemma wp_drop_covered s fs1 x fx fs2 D mem lg o (Q : Z → st → Prop) :
  state s (fs1 ++ (x, fx) :: fs2) [] D mem lg → counted D (fs1 ++ (x, fx) :: fs2) → tiled o fs2 → 0 <= o → extent o fs2 < 2 ^ 32 →
  0 <= ofs fx → 0 < size fx → ofs fx + size fx < 2 ^ 32 → Z.of_nat (length (fs1 ++ fs2)) < 2 ^ 32 → node fx ≠ None →
  o <= ofs fx + size fx →
  (∀ s' D' es, let fs' := fs1 ++ (x, fx) :: cut (ofs fx + size fx) (uncovered (ofs fx + size fx) fs2) in
     state s' fs' [] D' mem (lg ++ es) → counted D' fs' → evolves D D' es → Q 0 s') →
  wp (drop_covered (Some x)) s Q.
Proof.
  intros Hs Hc Ht Ho He Hx0 Hx Hxe Hlen Hd Hoe HQ. cbn zeta in HQ. unfold drop_covered. apply wp_bind, wp_loop.
  eapply covered_loop_spec; [exact Hs|exact Hc|exact Ht|lia..| |].
  { pose proof Hs as ([(t & m & H & Hin & _) _] & _). apply size_tree in H. rewrite Hin, length_fmap, length_app in H. cbn in H. lia. }
  clear Hs Hc. intros s1 D1 es1 Hs Hc Hev. pose proof (cut_tiled _ _ _ Hoe Ht) as [Hct Hce]. revert Hs Hc HQ Hct Hce.
  pose proof (uncovered_head (ofs fx + size fx) fs2) as Hhead.
  destruct (uncovered (ofs fx + size fx) fs2) as [|[y g] rest]; intros Hs Hc HQ Hct Hce; cbn [fmap list_fmap head non_null fst].
  { apply wp_ret. eapply HQ; [exact Hs|exact Hc|exact Hev]. }
  destruct Hhead as [Hin Hgt]. pose proof (tiled_range _ _ _ _ Ht Hin) as Hg.
  destruct (node fx) as [d|] eqn:Hn; [|done]. pose proof (counted_known _ _ x fx Hc ltac:(set_solver) d Hn) as Hk.
  pose proof (counted_known _ _ y g Hc ltac:(set_solver)) as Hkg. cbn [cut] in *.
  apply wp_bind. eapply (wp_frag_end _ _ _ _ _ _ x fx); [exact Hs|set_solver|]. rewrite u32_small by lia.
  apply wp_bind. eapply (wp_fget _ _ _ _ _ _ _ y g); [exact Hs|set_solver|]. destruct (Z.eqb_spec (ofs fx + size fx) (ofs g)).
  { apply wp_ret. eapply HQ; [exact Hs|exact Hc|exact Hev]. }
  apply wp_bind. eapply (wp_frag_end _ _ _ _ _ _ y g); [exact Hs|set_solver|]. rewrite (u32_small (ofs g + size g)), u32_small by lia.
  apply wp_bind. rewrite (past_first fs1) in Hs. eapply wp_fput; [exact Hs|]. clear Hs. intros s2 Hs.
  apply wp_bind. eapply wp_fput; [exact Hs|]. clear Hs. intros s3 Hs. rewrite <-past_first in Hs.
  set (g' := set_ofs _ (set_size _ g)) in Hs.
  apply wp_bind. eapply (wp_fget _ _ _ _ _ _ _ y g'); [exact Hs|set_solver|]. change (node g') with (node g).
  apply wp_bind. eapply wp_mark_normal_if; [exact Hs|exact Hkg|]. clear Hs. intros s4 es4 Hs.
  apply wp_bind. eapply (wp_mark_node _ _ _ _ _ _ x fx d); [exact Hs|set_solver|done|done|]. clear Hs. intros s5 r Hs.
  apply wp_ret. eapply HQ; [by rewrite <-!app_assoc in Hs| |].
  - rewrite (past_first fs1) in Hc |- *. by eapply counted_same_node; [|exact Hc].
  - eapply evolves_trans; [exact Hev|]. pose proof (evolves_normal D1 (es4 ++ [r])) as Hn1. by rewrite fmap_app in Hn1.
Qed.

(** [fs'] is [fs] with the range from [o] on of length [n] taken from the node [d]; what lies between
    the old end and [o] is a hole. *)
Definition overlaid (fs : list cell) (o n : Z) (d : nat) (fs' : list cell) : Prop :=
  tiled 0 fs' ∧ extent 0 fs' = Z.max (extent 0 fs) (o + n) ∧
  ∀ off, 0 <= off →
    content fs' off =
    if (o <=? off) && (off <? o + n) then Some (Some d)
    else match content fs off with Some v => Some v | None => if off <? o then Some None else None end.
Lemma overlaid_parts fs pre x fx post d :
  node fx = Some d → 0 < size fx → tiled 0 fs → tiled 0 pre → extent 0 pre = ofs fx →
  tiled (ofs fx + size fx) post → extent (ofs fx + size fx) post = Z.max (extent 0 fs) (ofs fx + size fx) →
  (∀ off, 0 <= off < ofs fx → content pre off = Some (default None (content fs off))) →
  (∀ off, ofs fx + size fx <= off → content post off = content fs off) →
  overlaid fs (ofs fx) (size fx) d (pre ++ (x, fx) :: post).
Proof.
  intros Hn Hx Hfs Hpre He Hpost He' Hcpre Hcpost. split_and!.
  - apply tiled_app. split; [done|]. cbn. by rewrite He.
  - rewrite extent_app. cbn. by rewrite He.
  - intros off Hoff. rewrite content_app. cbn [content]. rewrite Hn.
    destruct (Z.leb_spec (ofs fx) off), (Z.ltb_spec off (ofs fx + size fx)); cbn [andb].
    + rewrite (content_outside 0 pre) by (done || lia). done.
    + rewrite (content_outside 0 pre) by (done || lia). rewrite Hcpost by lia. destruct (Z.ltb_spec off (ofs fx)); [lia|]. by destruct (content fs off).
    + rewrite Hcpre by lia. destruct (Z.ltb_spec off (ofs fx)); [|lia]. by destruct (content fs off).
    + lia.
Qed.
Lemma content_behind o l off : tiled o l → extent o l <= off → content l off = None.
Proof. intros Hl Ho. eapply content_outside; [exact Hl|lia]. Qed.
Lemma overlaid_append fs x fx d :
  node fx = Some d → 0 < size fx → tiled 0 fs → extent 0 fs = ofs fx → overlaid fs (ofs fx) (size fx) d (fs ++ [(x, fx)]).
Proof.
  intros Hn Hx Hfs He. apply overlaid_parts; try done; cbn; [lia| |].
  - intros off Hoff. destruct (content_inside _ _ off Hfs) as [v ->]; [lia|done].
  - intros off Hoff. symmetry. eapply content_behind; [done|lia].
Qed.
Lemma overlaid_behind fs y x fx d :
  node fx = Some d → 0 < size fx → tiled 0 fs → extent 0 fs < ofs fx →
  overlaid fs (ofs fx) (size fx) d ((fs ++ [(y, NodeFrag None (ofs fx - extent 0 fs) (extent 0 fs))]) ++ [(x, fx)]).
Proof.
  intros Hn Hx Hfs He. pose proof (extent_le _ _ Hfs). apply overlaid_parts; try done; cbn; [| |lia| |].
  - apply tiled_app. cbn. split_and!; [done..|lia|done].
  - rewrite extent_app. cbn. lia.
  - intros off Hoff. rewrite content_app. destruct (content fs off) as [v|] eqn:Hc; [done|]. cbn.
    destruct (Z.leb_spec (extent 0 fs) off).
    + destruct (Z.ltb_spec off (extent 0 fs + (ofs fx - extent 0 fs))); [done|lia].
    + destruct (content_inside _ _ off Hfs) as [v ?]; [lia|congruence].
  - intros off Hoff. symmetry. eapply content_behind; [done|lia].
Qed.

(** The three ways a fragment [t] of the file is hit. *)
Section Hit.
Context (fs1 fs2 : list cell) (t : nat) (ft : node_frag) (Hfs : tiled 0 (fs1 ++ (t, ft) :: fs2)).
Lemma hit_parts : tiled 0 fs1 ∧ extent 0 fs1 = ofs ft ∧ 0 <= ofs ft ∧ 0 < size ft ∧ tiled (ofs ft + size ft) fs2
  ∧ extent 0 (fs1 ++ (t, ft) :: fs2) = extent (ofs ft + size ft) fs2.
Proof.
  apply tiled_app in Hfs as [H1 (He & Hs & H2)]. pose proof (extent_le _ _ H1). rewrite He, extent_app. cbn. rewrite <-He in *. done.
Qed.
Lemma before_hit off : 0 <= off < ofs ft → content (fs1 ++ (t, ft) :: fs2) off = content fs1 off ∧ is_Some (content fs1 off).
Proof.
  intros Hoff. destruct hit_parts as (H1 & He & _). rewrite content_app. destruct (content_inside _ _ off H1) as [v ->]; [lia|]. by split; [|eexists].
Qed.
Lemma past_hit off : ofs ft <= off → content (fs1 ++ (t, ft) :: fs2) off = content ((t, ft) :: fs2) off.
Proof. intros Hoff. destruct hit_parts as (H1 & He & _). rewrite content_app. by rewrite (content_behind _ _ _ H1) by lia. Qed.
Lemma after_cut e : ofs ft + size ft <= e → ∀ off, e <= off →
  content (cut e (uncovered e fs2)) off = content (fs1 ++ (t, ft) :: fs2) off.
Proof.
  intros Hte off Hoff. destruct hit_parts as (H1 & He & Ho & Hs & H2 & _). rewrite past_hit by lia.
  erewrite cut_content by (done || lia). cbn. destruct (Z.ltb_spec off (ofs ft + size ft)); [lia|]. by rewrite andb_false_r.
Qed.
End Hit.
Lemma overlaid_hit fs1 t ft fs2 x fx d :
  tiled 0 (fs1 ++ (t, ft) :: fs2) → node fx = Some d → 0 < size fx → ofs ft <= ofs fx < ofs ft + size ft →
  let e := ofs fx + size fx in
  let pre := if ofs ft <? ofs fx then fs1 ++ [(t, set_size (ofs fx - ofs ft) ft)] else fs1 in
  ∀ y, let post := if e <? ofs ft + size ft then (y, NodeFrag (node ft) (ofs ft + size ft - e) e) :: fs2 else cut e (uncovered e fs2) in
  overlaid (fs1 ++ (t, ft) :: fs2) (ofs fx) (size fx) d (pre ++ (x, fx) :: post).
Proof.
  intros Hfs Hn Hx Ho e pre y post. destruct (hit_parts _ _ _ _ Hfs) as (H1 & He & Ho0 & Hs & H2 & Hext).
  assert (tiled 0 pre ∧ extent 0 pre = ofs fx) as [Hpre Hepre].
  { unfold pre. destruct (Z.ltb_spec (ofs ft) (ofs fx)); [|split; [done|lia]]. rewrite tiled_app, extent_app, He. unfold set_size. cbn. split_and!; [done|done|lia|done|lia]. }
  assert (tiled e post ∧ extent e post = Z.max (extent (ofs ft + size ft) fs2) e) as [Hpost Hepost].
  { unfold post. pose proof (extent_le _ _ H2). destruct (Z.ltb_spec e (ofs ft + size ft)).
    - cbn. replace (e + (ofs ft + size ft - e)) with (ofs ft + size ft) by lia. split_and!; [done|lia|done|lia].
    - pose proof (cut_tiled e _ _ ltac:(eassumption) H2) as [? ->]. split; [done|lia]. }
  apply overlaid_parts; try done; [by rewrite Hext|..].
  - intros off Hoff. unfold pre. destruct (Z.ltb_spec (ofs ft) (ofs fx)).
    + destruct (decide (off < ofs ft)).
      * destruct (before_hit _ _ _ _ Hfs off) as [-> [v Hv]]; [lia|]. by rewrite content_app, Hv.
      * rewrite (past_hit _ _ _ _ Hfs), content_app by lia. rewrite (content_behind _ _ _ H1) by lia. cbn.
        destruct (Z.leb_spec (ofs ft) off), (Z.ltb_spec off (ofs ft + (ofs fx - ofs ft))), (Z.ltb_spec off (ofs ft + size ft)); cbn; unfold set_size; cbn; try lia; done.
    + destruct (before_hit _ _ _ _ Hfs off) as [-> [v ->]]; [lia|done].
  - intros off Hoff. unfold post. destruct (Z.ltb_spec e (ofs ft + size ft)); [|by apply after_cut].
    rewrite (past_hit _ _ _ _ Hfs) by lia. cbn. replace (e + (ofs ft + size ft - e)) with (ofs ft + size ft) by lia.
    destruct (Z.leb_spec e off), (Z.leb_spec (ofs ft) off); try lia. done.
Qed.
End Adding.

(** ** The code that adds a fragment *)

Section AddingCode.
Import Rb Frag.
Abbreviation cell := (nat * node_frag)%type.

Lemma last_address (fs : list cell) y g : last ((fs ++ [(y, g)]).*1) = Some y.
Proof. rewrite fmap_app. apply last_snoc. Qed.
Lemma wp_attach s fs y g ex D mem lg (Q : Z → st → Prop) :
  state s fs ((y, g) :: ex) D mem lg → (∀ s', state s' (fs ++ [(y, g)]) ex D mem lg → Q 0 s') →
  wp (attach (Some y) (last fs.*1)) s Q.
Proof.
  intros Hs HQ. pose proof Hs as ([Hw _] & _).
  assert (∀ p, hole fs.*1 [] (PAny <$> ((y, g) :: ex).*1) (fragtree s) p →
    wp (on_tree (rb_link_node (Some y) (top p) (link_at p))) s
      (λ _ s', wp (on_tree (rb_insert_color (Some y));; mret 0) s' Q)) as Hlink.
  { intros p Hp. eapply (wp_link_at _ _ fs []); [by rewrite app_nil_r|exact Hp|].
    intros s1 Hh. apply wp_bind. eapply wp_insert_color; [exact Hh|]. intros s2 Hs2. by apply wp_ret, HQ. }
  unfold attach. apply wp_bind. destruct fs as [|[b fb] fs _] using rev_ind; cbn [fmap list_fmap last non_null].
  - apply (Hlink []). by apply hole_empty.
  - rewrite fmap_app in *. change ([(b, fb)].*1) with [b] in *. rewrite last_snoc. cbn [non_null].
    destruct (whole_focus _ b [] _ _ Hw) as (p & c & l & r & Hf). pose proof Hf as (_ & _ & _ & Hr).
    destruct r as [|cr lr z rr]; [|symmetry in Hr; apply app_nil in Hr as [Hr _]; cbn in Hr; by destruct (inorder lr)]. apply (Hlink (StepR c l b :: p)). by apply hole_right.
Qed.

(** How adding [(x, fx)] for the node [d] may end. *)
Definition adds (fs : list cell) (x : nat) (fx : node_frag) (d : nat) D mem lg (Q : Z → st → Prop) : Prop :=
  (∀ s' fs' D' mem' es,
     state s' fs' [] D' mem' (lg ++ es) → counted D' fs' → evolves D D' es → overlaid fs (ofs fx) (size fx) d fs' →
     (x, fx) ∈ fs' → mem' = mem ∨ mem = true :: mem' → Q 0 s') ∧
  (∀ s' es, head mem ≠ Some true → state s' fs [] D (tail mem) (lg ++ (Normal <$> es)) → Q (- ENOMEM) s').

Lemma adds_log fs x fx d D mem lg l Q : adds fs x fx d D mem lg Q → adds fs x fx d D mem (lg ++ (Normal <$> l)) Q.
Proof.
  intros [H1 H2]. split.
  - intros s' fs' D' mem' es Hs Hc He Ho Hx. rewrite <-app_assoc in Hs. eapply H1; [exact Hs|done|..|done|done].
    eapply evolves_trans; [apply evolves_normal|done].
  - intros s' es Hm Hs. rewrite <-app_assoc, <-fmap_app in Hs. by eapply H2.
Qed.
Lemma wp_same_page s fs x fx D mem lg d (Q : unit → st → Prop) b :
  state s fs [(x, fx)] D mem lg → counted D (fs ++ [(x, fx)]) → node fx = Some d → (b = true → fs ≠ []) →
  (∀ s' es, state s' fs [(x, fx)] D mem (lg ++ (Normal <$> es)) → Q tt s') →
  wp (if b : bool then tn ← fget node (last fs.*1); mark_normal_if tn;; mark_node_normal (Some x) else mret tt) s Q.
Proof.
  intros Hs Hc Hn Hb HQ. destruct b; [|apply wp_ret, (HQ s []); by rewrite app_nil_r].
  destruct fs as [|[y g] fs _] using rev_ind; [by destruct Hb|]. rewrite last_address.
  apply wp_bind. eapply (wp_fget _ _ _ _ _ _ _ y g); [exact Hs|set_solver|].
  apply wp_bind. eapply wp_mark_normal_if; [exact Hs|eapply (counted_known _ _ y g); [exact Hc|set_solver]|].
  clear Hs. intros s1 es Hs. eapply (wp_mark_node _ _ _ _ _ _ x fx d); [exact Hs|set_solver|done| |].
  { eapply (counted_known _ _ x fx); [exact Hc|set_solver|done]. }
  clear Hs. intros s2 r Hs. apply (HQ s2 (es ++ [r])). by rewrite fmap_app, app_assoc.
Qed.
Lemma wp_add_behind s fs x fx D mem lg d dn Q :
  state s fs [(x, fx)] D mem lg → counted D (fs ++ [(x, fx)]) → tiled 0 fs → extent 0 fs <= ofs fx →
  0 < size fx → ofs fx + size fx < 2 ^ 32 → node fx = Some d → D !! d = Some dn → dofs dn = ofs fx →
  adds fs x fx d D mem lg Q → wp (add_behind (last fs.*1) (extent 0 fs) (Some x)) s Q.
Proof.
  intros Hs Hc Ht He Hx Hxe Hn Hd Ho HQ. pose proof (extent_le _ _ Ht). unfold add_behind.
  apply wp_bind. eapply (wp_fget _ _ _ _ _ _ _ x fx); [exact Hs|set_solver|].
  apply wp_bind. eapply wp_same_page; [exact Hs|exact Hc|exact Hn| |].
  { intros Hb ->. by destruct (truthy (extent 0 [])) eqn:Hz. }
  clear Hs. intros s1 es Hs. apply (adds_log _ _ _ _ _ _ _ es) in HQ as [HQ HF].
  apply wp_bind. eapply (wp_fget _ _ _ _ _ _ _ x fx); [exact Hs|set_solver|]. rewrite Hn.
  apply wp_bind. eapply wp_dget; [exact Hs|exact Hd|]. rewrite Ho.
  destruct (Z.ltb_spec (extent 0 fs) (ofs fx)).
  - destruct (decide (head mem = Some true)) as [Hm|Hm].
    + destruct mem as [|[] mem]; [done| |done]. apply wp_bind. eapply wp_alloc; [exact Hs|]. clear Hs. intros s2 y Hs. cbn [non_null].
      apply wp_bind. eapply wp_fput_ex; [exact Hs|]. clear Hs. intros s3 Hs.
      apply wp_bind. eapply wp_fput_ex; [exact Hs|]. clear Hs. intros s4 Hs.
      apply wp_bind. eapply wp_fput_ex; [exact Hs|]. clear Hs. intros s5 Hs.
      unfold set_ofs, set_size, set_node in Hs. cbn [node size ofs] in Hs. rewrite u32_small in Hs by lia.
      apply wp_bind. eapply wp_attach; [exact Hs|]. clear Hs. intros s6 Hs.
      replace (Some y) with (last ((fs ++ [(y, NodeFrag None (ofs fx - extent 0 fs) (extent 0 fs))]).*1)) by apply last_address.
      eapply wp_attach; [exact Hs|]. clear Hs. intros s7 Hs.
      eapply (HQ s7 _ _ _ []); [by rewrite app_nil_r| |apply evolves_refl|by apply overlaid_behind|set_solver|by right].
      rewrite <-app_assoc. eapply counted_perm; [|apply (proj1 (counted_hole D (fs ++ [(x, fx)]) y (NodeFrag None (ofs fx - extent 0 fs) (extent 0 fs)) eq_refl)); exact Hc].
      solve_Permutation.
    + apply wp_bind. eapply wp_alloc_fails; [exact Hs|exact Hm|]. clear Hs. intros s2 Hs. cbn [non_null].
      apply wp_bind. eapply wp_free_frag; [exact Hs|]. clear Hs. intros s3 Hs. apply wp_ret. apply (HF s3 []); [done|]. by rewrite app_nil_r.
  - eapply wp_attach; [exact Hs|]. clear Hs. intros s2 Hs.
    eapply (HQ s2 _ _ _ []); [by rewrite app_nil_r|exact Hc|apply evolves_refl|apply overlaid_append; done || lia|set_solver|by left].
Qed.

(** One fragment more. *)
Lemma counted_add D fs x f d dn :
  counted D fs → node f = Some d → D !! d = Some dn → counted (<[d := set_frags (count d fs + 1) dn]> D) ((x, f) :: fs).
Proof.
  intros [Hk Hc] Hn Hd. split.
  - rewrite Forall_cons. split; [intros e; cbn; rewrite Hn; intros [= <-]; rewrite lookup_insert_eq; by eexists|].
    apply Forall_forall. intros [y g] Hy e He. rewrite Forall_forall in Hk. specialize (Hk _ Hy e He).
    destruct (decide (d = e)) as [<-|]; [rewrite lookup_insert_eq; by eexists|by rewrite lookup_insert_ne].
  - intros e en. cbn. destruct (decide (d = e)) as [<-|]; [rewrite lookup_insert_eq|rewrite lookup_insert_ne by done].
    + intros [= <-]. cbn. rewrite refers_self by done. lia.
    + intros He. rewrite (Hc _ _ He), (refers_other d) by done. lia.
Qed.
Lemma tiled_above o fs k : tiled o fs → k < o → Forall (λ c : cell, k < ofs c.2) fs.
Proof. intros Ht Hk. apply Forall_forall. intros [x f] Hin. pose proof (tiled_range _ _ _ _ Ht Hin). cbn. lia. Qed.
(** A second fragment for the node of a fragment that is there. *)
Lemma wp_share s fs ex D mem lg l y t ft g (Q : unit → st → Prop) :
  state s fs ex D mem lg → counted D l → (t, ft) ∈ l → node g = node ft → Z.of_nat (length l) + 1 < 2 ^ 32 →
  (∀ s' D', state s' fs ex D' mem lg → counted D' ((y, g) :: l) → evolves D D' [] → Q tt s') →
  wp (if non_null (node ft) then dput (λ d, set_frags (u32 (frags d + 1)) d) (node ft) else mret tt) s Q.
Proof.
  intros Hs Hc Hin Hg Hlen HQ. destruct (node ft) as [e|] eqn:Hn; cbn [non_null].
  - destruct (counted_known _ _ _ _ Hc Hin e Hn) as [en He]. pose proof (proj2 Hc _ _ He) as Hf.
    pose proof (count_length e l). pose proof (count_positive _ _ _ _ Hin Hn).
    eapply wp_dput; [exact Hs|exact He|]. clear Hs. intros s1 Hs. cbn beta in Hs. rewrite Hf, u32_small in Hs by lia.
    eapply HQ; [exact Hs|by eapply counted_add|]. apply evolves_insert; [done|lia|set_solver].
  - apply wp_ret. eapply (HQ s D); [done|by apply counted_hole|apply evolves_refl].
Qed.

Lemma counted_last D fs x f : counted D (fs ++ [(x, f)]) ↔ counted D ((x, f) :: fs).
Proof. split; apply counted_perm; solve_Permutation. Qed.

Section Hits.
Context (s : st) (fs1 fs2 : list cell) (t : nat) (ft : node_frag) (x : nat) (fx : node_frag).
Context (D : gmap nat full_dnode) (mem : list bool) (lg : list event) (d : nat) (Q : Z → st → Prop).
Context (Hs : state s (fs1 ++ (t, ft) :: fs2) [(x, fx)] D mem lg) (Hc : counted D ((fs1 ++ (t, ft) :: fs2) ++ [(x, fx)])).
Context (Ht : tiled 0 (fs1 ++ (t, ft) :: fs2)) (He : extent 0 (fs1 ++ (t, ft) :: fs2) < 2 ^ 32).
Context (Hx : 0 < size fx) (Hxe : ofs fx + size fx < 2 ^ 32) (Hn : node fx = Some d).
Context (HQ : adds (fs1 ++ (t, ft) :: fs2) x fx d D mem lg Q).

Lemma wp_add_inside : ofs ft < ofs fx < ofs ft + size ft → wp (add_inside (Some t) (Some x)) s Q.
Proof.
  intros Ho. destruct (hit_parts _ _ _ _ Ht) as (H1 & He1 & Ho0 & Hsz & H2 & Hext). pose proof (extent_le _ _ H2).
  unfold add_inside. apply wp_bind. eapply (wp_fget _ _ _ _ _ _ _ x fx); [exact Hs|set_solver|].
  apply wp_bind. eapply (wp_fget _ _ _ _ _ _ _ t ft); [exact Hs|set_solver|].
  apply wp_bind. eapply (wp_mark_node _ _ _ _ _ _ x fx d); [exact Hs|set_solver|done|eapply (counted_known _ _ x fx); [exact Hc|set_solver|done]|].
  clear Hs. intros s1 r Hs. apply wp_bind. eapply (wp_fget _ _ _ _ _ _ _ t ft); [exact Hs|set_solver|].
  apply wp_bind. eapply wp_mark_normal_if; [exact Hs|eapply (counted_known _ _ t ft); [exact Hc|set_solver]|].
  clear Hs. intros s2 es Hs. apply (adds_log _ _ _ _ _ _ _ (r :: es)) in HQ as [HQ' HF].
  rewrite <-app_assoc in Hs. change ([Normal r] ++ (Normal <$> es)) with (Normal <$> r :: es) in Hs.
  apply wp_bind. eapply (wp_frag_end _ _ _ _ _ _ t ft); [exact Hs|set_solver|]. rewrite u32_small by lia.
  apply wp_bind. eapply (wp_frag_end _ _ _ _ _ _ x fx); [exact Hs|set_solver|]. rewrite u32_small by lia.
  pose proof (overlaid_hit fs1 t ft fs2 x fx d Ht Hn Hx ltac:(lia)) as Hov. cbn zeta in Hov.
  rewrite (proj2 (Z.ltb_lt (ofs ft) (ofs fx))) in Hov by lia.
  assert (Forall (λ c : cell, ofs fx < ofs c.2) fs2) as Habove by (eapply tiled_above; [exact H2|lia]).
  destruct (Z.ltb_spec (ofs fx + size fx) (ofs ft + size ft)) as [Hlt|Hge].
  - destruct (decide (head mem = Some true)) as [Hm|Hm].
    + destruct mem as [|[] mem']; [done| |done]. apply wp_bind. eapply wp_alloc; [exact Hs|]. clear Hs. intros s3 y Hs. cbn [non_null].
      specialize (Hov y). set (g := NodeFrag (node ft) _ _) in Hov.
      apply wp_bind. eapply wp_fput_ex; [exact Hs|]. clear Hs. intros s4 Hs.
      apply wp_bind. eapply wp_fput_ex; [exact Hs|]. clear Hs. intros s5 Hs.
      apply wp_bind. eapply wp_fput_ex; [exact Hs|]. clear Hs. intros s6 Hs.
      rewrite u32_small in Hs by lia. change (set_node (node ft) _) with g in Hs.
      pose proof (tiled_length _ _ (proj1 Hov)) as Hlen. rewrite (proj1 (proj2 Hov)), !length_app in Hlen. cbn in Hlen.
      apply wp_bind. eapply (wp_share _ _ _ _ _ _ _ y t ft g); [exact Hs|exact Hc|set_solver|done|rewrite !length_app; cbn; lia|].
      clear Hs. intros s7 D' Hs Hc' Hev.
      apply wp_bind. eapply wp_fput; [exact Hs|]. clear Hs. intros s8 Hs. rewrite u32_small in Hs by lia.
      apply wp_bind. eapply (wp_insert_after _ _ _ _ _ x fx [(y, g)]); [eapply state_perm; [|exact Hs]; solve_Permutation|cbn; lia|done|].
      clear Hs. intros s9 Hs. rewrite (past_first fs1) in Hs.
      apply wp_bind. eapply (wp_insert_after _ _ _ _ _ y g []); [exact Hs|unfold g; cbn; lia|eapply tiled_above; [exact H2|unfold g; cbn; lia]|].
      clear Hs. intros s10 Hs. apply wp_ret. eapply (HQ' s10 _ D' _ []); [by rewrite app_nil_r| |exact Hev|exact Hov|set_solver|by right].
      rewrite <-app_assoc. cbn [app]. eapply (counted_same_node _ _ t ft); [done|]. eapply counted_perm; [|exact Hc']. solve_Permutation.
    + apply wp_bind. eapply wp_alloc_fails; [exact Hs|exact Hm|]. clear Hs. intros s3 Hs. cbn [non_null].
      apply wp_bind. eapply wp_free_frag; [exact Hs|]. clear Hs. intros s4 Hs. apply wp_ret. apply (HF s4 []); [done|]. by rewrite app_nil_r.
  - specialize (Hov 0%nat). apply wp_bind. eapply wp_fput; [exact Hs|]. clear Hs. intros s3 Hs. rewrite u32_small in Hs by lia.
    apply wp_bind. eapply (wp_insert_after _ _ _ _ _ x fx []); [exact Hs|cbn; lia|done|]. clear Hs. intros s4 Hs. rewrite (past_first fs1) in Hs.
    eapply wp_drop_covered; [exact Hs| |exact H2|lia|lia|lia|done|done| |congruence|lia|].
    + rewrite <-app_assoc. cbn [app]. eapply (counted_same_node _ _ t ft); [done|]. eapply counted_perm; [|exact Hc]. solve_Permutation.
    + pose proof (tiled_length _ _ Ht) as Hlen. rewrite !length_app in *. cbn in *. lia.
    + clear Hs. cbn zeta. intros s5 D' es' Hs Hc' Hev. eapply HQ'; [exact Hs|exact Hc'|exact Hev|exact Hov|set_solver|by left].
Qed.

Lemma wp_add_at_start : ofs ft = ofs fx → wp (add_at_start (Some t) (Some x)) s Q.
Proof.
  intros Ho. destruct (hit_parts _ _ _ _ Ht) as (H1 & He1 & Ho0 & Hsz & H2 & Hext). pose proof (extent_le _ _ H2).
  destruct HQ as [HQ' _]. unfold add_at_start. apply wp_bind. eapply wp_replace; [exact Hs|]. clear Hs. intros s1 Hs.
  apply wp_bind. eapply (wp_frag_end _ _ _ _ _ _ x fx); [exact Hs|set_solver|]. rewrite u32_small by lia.
  apply wp_bind. eapply (wp_frag_end _ _ _ _ _ _ t ft); [exact Hs|set_solver|]. rewrite u32_small by lia.
  pose proof (overlaid_hit fs1 t ft fs2 x fx d Ht Hn Hx ltac:(lia) t) as Hov. cbn zeta in Hov.
  rewrite (proj2 (Z.ltb_ge (ofs ft) (ofs fx))) in Hov by lia.
  assert (counted D ((fs1 ++ (x, fx) :: fs2) ++ [(t, ft)])) as Hc1 by (eapply counted_perm; [|exact Hc]; solve_Permutation).
  pose proof (tiled_length _ _ Ht) as Hlen. rewrite !length_app in Hlen. cbn in Hlen.
  destruct (Z.leb_spec (ofs ft + size ft) (ofs fx + size fx)) as [Hle|Hgt].
  - rewrite (proj2 (Z.ltb_ge _ _)) in Hov by exact Hle. apply wp_bind.
    eapply wp_obsolete; [exact Hs|exact Hc1|rewrite !length_app; cbn; lia|].
    clear Hs. intros s2 D2 es Hs Hc2 Hev. rewrite app_nil_r in Hc2.
    eapply wp_drop_covered; [exact Hs|exact Hc2|exact H2|lia|lia|lia|done|done|rewrite length_app; lia|congruence|lia|].
    clear Hs. cbn zeta. intros s3 D3 es3 Hs Hc3 Hev3. rewrite <-app_assoc in Hs.
    eapply HQ'; [exact Hs|exact Hc3|by eapply evolves_trans|exact Hov|set_solver|by left].
  - rewrite (proj2 (Z.ltb_lt _ _)) in Hov by exact Hgt.
    apply wp_bind. eapply (wp_fget _ _ _ _ _ _ _ x fx); [exact Hs|set_solver|].
    apply wp_bind. eapply wp_fput_ex; [exact Hs|]. clear Hs. intros s2 Hs.
    apply wp_bind. eapply wp_fput_ex; [exact Hs|]. clear Hs. intros s3 Hs.
    unfold set_ofs, set_size in Hs. cbn [node size ofs] in Hs. rewrite !u32_small in Hs by lia.
    replace (ofs ft + size fx) with (ofs fx + size fx) in Hs by lia.
    replace (size ft - size fx) with (ofs ft + size ft - (ofs fx + size fx)) in Hs by lia.
    apply wp_bind. eapply wp_insert_after; [exact Hs|cbn; lia|eapply tiled_above; [exact H2|cbn; lia]|].
    clear Hs. intros s4 Hs. apply wp_ret.
    eapply (HQ' s4 _ D _ []); [by rewrite app_nil_r| |apply evolves_refl|exact Hov|set_solver|by left].
    rewrite past_first in Hc |- *. rewrite (past_first fs1). eapply (counted_same_node _ _ t ft); [done|].
    eapply counted_perm; [|exact Hc1]. solve_Permutation.
Qed.
End Hits.

Lemma wp_add_frag s fs x fx D mem lg d dn Q :
  state s fs [(x, fx)] D mem lg → counted D (fs ++ [(x, fx)]) → tiled 0 fs → extent 0 fs < 2 ^ 32 →
  0 < size fx → 0 <= ofs fx → ofs fx + size fx < 2 ^ 32 → node fx = Some d → D !! d = Some dn → dofs dn = ofs fx →
  adds fs x fx d D mem lg Q → wp (jffs2_add_frag_to_fragtree (Some x)) s Q.
Proof.
  intros Hs Hc Ht He Hx Hx0 Hxe Hn Hd Ho HQ. unfold jffs2_add_frag_to_fragtree.
  apply wp_bind. eapply (wp_fget _ _ _ _ _ _ _ x fx); [exact Hs|set_solver|]. rewrite Hn.
  apply wp_bind. eapply wp_dget; [exact Hs|exact Hd|]. rewrite Ho.
  apply wp_bind. eapply wp_lookup; [exact Hs|done..|]. intros q Hq.
  apply wp_bind. destruct Hq as [(fs1 & t & ft & fs2 & -> & -> & Hoff)|[Hend ->]].
  - destruct (hit_parts _ _ _ _ Ht) as (H1 & He1 & Ho0 & Hsz & H2 & Hext). pose proof (extent_le _ _ H2). cbn [non_null].
    eapply (wp_frag_end _ _ _ _ _ _ t ft); [exact Hs|set_solver|]. rewrite u32_small by lia.
    apply wp_bind. eapply (wp_fget _ _ _ _ _ _ _ x fx); [exact Hs|set_solver|].
    destruct (Z.leb_spec (ofs ft + size ft) (ofs fx)); [lia|].
    apply wp_bind. eapply (wp_fget _ _ _ _ _ _ _ t ft); [exact Hs|set_solver|].
    destruct (Z.ltb_spec (ofs ft) (ofs fx)); [eapply wp_add_inside|eapply wp_add_at_start]; try done; lia.
  - assert (wp (if non_null (last fs.*1) then frag_end (last fs.*1) else mret 0) s (λ a s', a = extent 0 fs ∧ s' = s)) as Hle.
    { destruct fs as [|[y g] fs _] using rev_ind; [by apply wp_ret|]. rewrite last_address. cbn [non_null].
      eapply (wp_frag_end _ _ _ _ _ _ y g); [exact Hs|set_solver|]. split; [|done]. apply tiled_app in Ht as [H1 (Hg & ? & _)].
      pose proof (extent_le _ _ H1). rewrite extent_app in *. cbn in *. rewrite u32_small; lia. }
    eapply wp_mono; [|exact Hle]. cbn beta. intros a s' [-> ->].
    apply wp_bind. eapply (wp_fget _ _ _ _ _ _ _ x fx); [exact Hs|set_solver|].
    destruct (Z.leb_spec (extent 0 fs) (ofs fx)); [|lia]. by eapply wp_add_behind.
Qed.
End AddingCode.

(** ** Adding a node to an inode *)

Section Inode.
Import Rb Frag.
Abbreviation cell := (nat * node_frag)%type.

(** The fragments of an inode lie one behind the other from 0 on, below 4 GiB, in a red-black tree;
    every node counts the fragments that refer to it. *)
Record inode (s : st) (fs : list cell) (D : gmap nat full_dnode) (mem : list bool) (lg : list event) : Prop := {
  inode_state : state s fs [] D mem lg;
  inode_counted : counted D fs;
  inode_tiled : tiled 0 fs;
  inode_extent : extent 0 fs < 2 ^ 32 }.

(** A node with a fragment is one that some byte of the file comes from. *)
Lemma content_refers o fs d : tiled o fs → 0 < count d fs ↔ ∃ off, content fs off = Some (Some d).
Proof.
  revert o. induction fs as [|[x f] fs IH]; intros o Ht; cbn in *; [split; [lia|by intros [? ?]]|].
  destruct Ht as (Ho & Hs & Ht). unfold refers. cbn. case_bool_decide as Hn.
  - split; [intros _|intros _; pose proof (count_length d fs); lia]. exists (ofs f).
    rewrite Z.leb_refl, (proj2 (Z.ltb_lt _ _)) by lia. cbn. by rewrite Hn.
  - replace (0 + count d fs) with (count d fs) by lia. rewrite (IH _ Ht). split; intros [off Hoff]; exists off.
    + destruct (Z.leb_spec (ofs f) off), (Z.ltb_spec off (ofs f + size f)); cbn; try done.
      rewrite (content_outside _ _ _ Ht) in Hoff by lia. done.
    + destruct (_ && _); [congruence|done].
Qed.
Lemma content_node fs off d : content fs off = Some (Some d) → ∃ x f, (x, f) ∈ fs ∧ node f = Some d.
Proof.
  induction fs as [|[x f] fs IH]; cbn; [done|]. destruct (_ && _).
  - intros [= Hn]. exists x, f. set_solver.
  - intros (y & g & ? & ?)%IH. exists y, g. set_solver.
Qed.
Lemma inode_refers s fs D mem lg d dn :
  inode s fs D mem lg → D !! d = Some dn → 0 < frags dn ↔ ∃ off, content fs off = Some (Some d).
Proof. intros [_ Hc Ht _] Hd. rewrite (proj2 Hc _ _ Hd). by eapply content_refers. Qed.

Lemma mask_zero o : truthy (o &&& (PAGE_CACHE_SIZE - 1)) = true → o ≠ 0.
Proof. intros Hm ->. by rewrite Z.land_0_l in Hm. Qed.
(** The marks at the end of the function. *)
Lemma wp_mark_neighbours s fs1 x fx fs2 D mem lg d dn (Q : Z → st → Prop) :
  inode s (fs1 ++ (x, fx) :: fs2) D mem lg → node fx = Some d → D !! d = Some dn →
  (∀ s' es, state s' (fs1 ++ (x, fx) :: fs2) [] D mem (lg ++ (Normal <$> es)) → Q 0 s') →
  wp (no ← fget ofs (Some x);
      r ← dget raw (Some d);
      (if truthy (no &&& (PAGE_CACHE_SIZE - 1))
       then prev ← frag_prev (Some x); mark_ref_normal r;; pn ← fget node prev; mark_normal_if pn
       else mret tt);;
      ne ← frag_end (Some x);
      (if truthy (ne &&& (PAGE_CACHE_SIZE - 1))
       then
         next ← frag_next (Some x);
         if non_null next then mark_ref_normal r;; nn ← fget node next; mark_normal_if nn else mret tt
       else mret tt);;
      mret 0) s Q.
Proof.
  intros [Hs Hc Ht He] Hn Hd HQ. apply wp_bind. eapply (wp_fget _ _ _ _ _ _ _ x fx); [exact Hs|set_solver|].
  apply wp_bind. eapply wp_dget; [exact Hs|exact Hd|].
  assert (∀ b (k : unit → N Z), (b = true → fs1 ≠ []) →
    (∀ s' es, state s' (fs1 ++ (x, fx) :: fs2) [] D mem (lg ++ (Normal <$> es)) → wp (k tt) s' Q) →
    wp ((if b : bool then prev ← frag_prev (Some x); mark_ref_normal (raw dn);; pn ← fget node prev; mark_normal_if pn else mret tt) ≫= k) s Q) as Hprev.
  { intros [] k Hb Hk; apply wp_bind; [|apply wp_ret, (Hk s []); by rewrite app_nil_r].
    apply wp_bind. eapply wp_frag_prev; [exact Hs|]. destruct fs1 as [|[y g] fs1 _] using rev_ind; [by destruct Hb|].
    rewrite last_address. apply wp_bind. eapply wp_mark; [exact Hs|]. intros s1 Hs1.
    apply wp_bind. eapply (wp_fget _ _ _ _ _ _ _ y g); [exact Hs1|set_solver|].
    eapply wp_mark_normal_if; [exact Hs1|eapply (counted_known _ _ y g); [exact Hc|set_solver]|].
    intros s2 es Hs2. eapply (Hk s2 (raw dn :: es)). by rewrite <-(app_assoc lg) in Hs2. }
  apply Hprev; clear Hprev.
  { intros Hm%mask_zero ->. destruct Ht as [Ho _]. by cbn in Ho. }
  clear Hs. intros s1 es Hs. apply wp_bind. eapply (wp_frag_end _ _ _ _ _ _ x fx); [exact Hs|set_solver|].
  apply wp_bind. destruct (truthy _); [|apply wp_ret, wp_ret; by eapply HQ].
  apply wp_bind. eapply wp_frag_next; [exact Hs|]. destruct fs2 as [|[y g] fs2]; cbn [fmap list_fmap head non_null fst]; [apply wp_ret, wp_ret; by eapply HQ|].
  apply wp_bind. eapply wp_mark; [exact Hs|]. clear Hs. intros s2 Hs.
  apply wp_bind. eapply (wp_fget _ _ _ _ _ _ _ y g); [exact Hs|set_solver|].
  eapply wp_mark_normal_if; [exact Hs|eapply (counted_known _ _ y g); [exact Hc|set_solver]|].
  clear Hs. intros s3 es3 Hs. apply wp_ret. eapply (HQ s3 (es ++ raw dn :: es3)).
  rewrite fmap_app, fmap_cons, (app_assoc lg). rewrite <-(app_assoc (lg ++ _)) in Hs. exact Hs.
Qed.

Lemma wp_add_full_dnode s fs D mem lg d dn (Q : Z → st → Prop) :
  inode s fs D mem lg → D !! d = Some dn → frags dn = 0 → 0 <= dofs dn → 0 < dsize dn → dofs dn + dsize dn < 2 ^ 32 →
  (∀ s' fs' D' mem' es, inode s' fs' D' mem' (lg ++ es) → overlaid fs (dofs dn) (dsize dn) d fs' →
     evolves (<[d := set_frags 1 dn]> D) D' es → mem = true :: mem' ∨ mem = true :: true :: mem' → Q 0 s') →
  (∀ s' k mem' es, take 2 mem ≠ [true; true] → state s' fs [] (<[d := set_frags k dn]> D) mem' (lg ++ (Normal <$> es)) → Q (- ENOMEM) s') →
  wp (jffs2_add_full_dnode_to_inode (Some d)) s Q.
Proof.
  intros [Hs Hc Ht He] Hd Hf Ho0 Hsz Hend HQ HF. unfold jffs2_add_full_dnode_to_inode.
  apply wp_bind. eapply wp_dget; [exact Hs|exact Hd|]. destruct (Z.eqb_spec (dsize dn) 0); [lia|].
  destruct (decide (head mem = Some true)) as [Hm|Hm].
  2:{ apply wp_bind. eapply wp_alloc_fails; [exact Hs|exact Hm|]. intros s1 Hs1. apply wp_ret. eapply (HF s1 0 _ []).
      - destruct mem as [|[] [|? ?]]; [done|done|by destruct Hm|done..].
      - cbn. rewrite app_nil_r, insert_id; [exact Hs1|]. rewrite Hd. destruct dn. unfold set_frags. cbn in *. by subst. }
  destruct mem as [|[] mem]; [done| |done]. apply wp_bind. eapply wp_alloc; [exact Hs|]. clear Hs. intros s1 x Hs. cbn [non_null].
  apply wp_bind. eapply wp_dget; [exact Hs|exact Hd|].
  apply wp_bind. eapply wp_fput_ex; [exact Hs|]. clear Hs. intros s2 Hs.
  apply wp_bind. eapply wp_fput_ex; [exact Hs|]. clear Hs. intros s3 Hs.
  apply wp_bind. eapply wp_fput_ex; [exact Hs|]. clear Hs. intros s4 Hs.
  unfold set_node, set_size, set_ofs in Hs. cbn [node size ofs] in Hs. set (fx := NodeFrag (Some d) (dsize dn) (dofs dn)) in Hs.
  apply wp_bind. eapply wp_dput; [exact Hs|exact Hd|]. clear Hs. intros s5 Hs.
  assert (counted (<[d := set_frags 1 dn]> D) (fs ++ [(x, fx)])) as Hc1.
  { apply counted_last. pose proof (proj2 Hc _ _ Hd) as Hz. replace 1 with (count d fs + 1) by lia. by apply counted_add. }
  apply wp_bind. eapply (wp_add_frag _ fs x fx _ _ _ d); [exact Hs|exact Hc1|done|done|done|done|done|done|by apply lookup_insert_eq|done|].
  split.
  - clear Hs. intros s6 fs' D' mem' es Hs Hc' Hev Hov Hin Hmem. change (truthy 0) with false. cbn iota.
    apply list_elem_of_split in Hin as (fs1 & fs2 & ->). destruct (counted_known _ _ x fx Hc' ltac:(set_solver) d eq_refl) as [dn' Hd'].
    pose proof Hov as (Ht' & He' & _). assert (extent 0 (fs1 ++ (x, fx) :: fs2) < 2 ^ 32) by (rewrite He'; cbn; lia).
    eapply (wp_mark_neighbours _ fs1 x fx fs2 _ _ _ d); [by split|done|exact Hd'|].
    intros s7 es7 Hs7. rewrite <-(app_assoc lg) in Hs7. eapply HQ; [split; [exact Hs7|done..]|exact Hov| |].
    + eapply evolves_trans; [exact Hev|apply evolves_normal].
    + destruct Hmem as [-> | ->]; [by left|by right].
  - clear Hs. intros s6 es Hm2 Hs. change (truthy (- ENOMEM)) with true. cbn iota. apply wp_ret.
    eapply HF; [|exact Hs]. destruct mem as [|[] mem]; done.
Qed.
End Inode.

(** ** Truncation *)

Section Truncate.
Import Rb Frag.
Abbreviation cell := (nat * node_frag)%type.

(** The map up to [bound]: the last fragment is cut. *)
Fixpoint taken (bound : Z) (fs : list cell) : list cell :=
  match fs with
  | [] => []
  | (x, f) :: fs' =>
      if bound <=? ofs f then []
      else if bound <=? ofs f + size f then [(x, set_size (bound - ofs f) f)] else (x, f) :: taken bound fs'
  end.
Lemma taken_tiled bound o fs :
  tiled o fs → tiled o (taken bound fs) ∧ extent o (taken bound fs) = Z.max o (Z.min bound (extent o fs)).
Proof.
  revert o. induction fs as [|[x f] fs IH]; intros o; [cbn; lia|]. intros (Ho & Hs & Hl). pose proof (extent_le _ _ Hl).
  cbn [taken extent]. destruct (Z.leb_spec bound (ofs f)); [cbn; lia|].
  destruct (Z.leb_spec bound (ofs f + size f)); unfold set_size; cbn [tiled extent size ofs]; [lia|].
  destruct (IH _ Hl) as [Ht He]. rewrite He. split; [done|lia].
Qed.
Lemma taken_content bound o fs off : tiled o fs → content (taken bound fs) off = if off <? bound then content fs off else None.
Proof.
  revert o. induction fs as [|[x f] fs IH]; intros o; [by destruct (_ <? _)|]. intros (Ho & Hs & Hl). cbn [taken content].
  destruct (Z.leb_spec bound (ofs f)).
  { cbn. destruct (Z.ltb_spec off bound); [|done]. destruct (Z.leb_spec (ofs f) off); [lia|]. cbn. symmetry. eapply content_outside; [exact Hl|lia]. }
  destruct (Z.leb_spec bound (ofs f + size f)); unfold set_size; cbn [content node size ofs].
  - destruct (Z.leb_spec (ofs f) off), (Z.ltb_spec off (ofs f + (bound - ofs f))), (Z.ltb_spec off bound), (Z.ltb_spec off (ofs f + size f));
      cbn; try lia; try done. symmetry. eapply content_outside; [exact Hl|lia].
  - rewrite (IH _ Hl). destruct (Z.leb_spec (ofs f) off), (Z.ltb_spec off (ofs f + size f)), (Z.ltb_spec off bound); cbn; done || lia.
Qed.
Lemma taken_app bound o fs1 fs2 : tiled o (fs1 ++ fs2) → extent o fs1 < bound → taken bound (fs1 ++ fs2) = fs1 ++ taken bound fs2.
Proof.
  revert o. induction fs1 as [|[x f] fs1 IH]; intros o; [done|]. cbn [app tiled extent taken]. intros (Ho & Hs & Hl) He.
  pose proof Hl as [Hl1 _]%tiled_app. pose proof (extent_le _ _ Hl1).
  rewrite (proj2 (Z.leb_gt _ _)), (proj2 (Z.leb_gt _ _)) by lia. by rewrite (IH _ Hl).
Qed.
Lemma taken_hit bound fs1 x f fs2 :
  tiled 0 (fs1 ++ (x, f) :: fs2) → ofs f <= bound < ofs f + size f →
  taken bound (fs1 ++ (x, f) :: fs2) = fs1 ++ (if ofs f =? bound then [] else [(x, set_size (bound - ofs f) f)]).
Proof.
  intros Ht Hb. pose proof Ht as (H1 & Ho & Hs & _)%tiled_app. destruct (Z.eqb_spec (ofs f) bound) as [He|].
  - destruct fs1 as [|[y g] fs1 _] using rev_ind; [cbn; by rewrite (proj2 (Z.leb_le _ _)) by lia|].
    apply tiled_app in H1 as [H1 (Hog & Hg & _)]. rewrite extent_app in Ho. cbn [extent] in Ho.
    rewrite <-app_assoc in Ht |- *. rewrite (taken_app _ 0) by (done || lia). cbn [app taken].
    rewrite (proj2 (Z.leb_gt _ _)), (proj2 (Z.leb_le _ _)) by lia. rewrite app_nil_r. do 3 f_equal.
    destruct g. unfold set_size. cbn in *. f_equal. lia.
  - rewrite (taken_app _ 0) by (done || lia). cbn [taken]. by rewrite (proj2 (Z.leb_gt _ _)), (proj2 (Z.leb_le _ _)) by lia.
Qed.
Lemma taken_all bound o fs : tiled o fs → extent o fs <= bound → taken bound fs = fs.
Proof.
  revert o. induction fs as [|[x f] fs IH]; intros o; [done|]. cbn [tiled extent taken]. intros (Ho & Hs & Hl) He.
  pose proof (extent_le _ _ Hl). rewrite (proj2 (Z.leb_gt _ _)) by lia. destruct (Z.leb_spec bound (ofs f + size f)).
  - destruct fs as [|[y g] fs]; [|cbn in Hl, He; destruct Hl as (? & ? & Hl); apply extent_le in Hl; lia]. cbn in He.
    destruct f. unfold set_size. cbn in *. do 3 f_equal. lia.
  - by rewrite (IH _ Hl) by lia.
Qed.

Lemma truncate_loop_spec fuel s fs1 fs2 D mem lg o bound (Q : unit → st → Prop) :
  state s (fs1 ++ fs2) [] D mem lg → counted D (fs1 ++ fs2) → tiled o fs2 → bound <= o → Z.of_nat (length (fs1 ++ fs2)) < 2 ^ 32 →
  (length fs2 < fuel)%nat →
  (∀ s' D' es, state s' fs1 [] D' mem (lg ++ es) → counted D' fs1 → evolves D D' es → Q tt s') →
  wp (truncate_loop fuel (head fs2.*1) bound) s Q.
Proof.
  revert s fs2 D lg o. induction fuel as [|fuel IH]; intros s fs2 D lg o Hs Hc Ht Ho Hlen Hfuel HQ; [lia|]. cbn [truncate_loop].
  destruct fs2 as [|[x f] fs2]; cbn [fmap list_fmap head non_null fst]; change (base.fmap) with (@fmap list _).
  { rewrite app_nil_r in Hs, Hc. apply wp_ret. eapply (HQ s D []); [by rewrite app_nil_r|done|apply evolves_refl]. }
  destruct Ht as (Hx & Hsz & Hl).
  apply wp_bind. eapply (wp_fget _ _ _ _ _ _ _ x f); [exact Hs|set_solver|]. rewrite (proj2 (Z.leb_le _ _)) by lia.
  apply wp_bind. eapply wp_frag_next; [exact Hs|]. apply wp_bind. eapply wp_erase; [exact Hs|]. clear Hs. intros s1 Hs.
  rewrite length_app in Hlen. cbn in Hlen, Hfuel.
  apply wp_bind. eapply wp_obsolete; [exact Hs| |rewrite app_nil_r, length_app; lia|].
  { eapply counted_perm; [|exact Hc]. solve_Permutation. }
  clear Hs Hc. intros s2 D2 es Hs Hc Hev. rewrite app_nil_r in Hc.
  eapply IH; [exact Hs|exact Hc|exact Hl|lia|rewrite length_app; lia|lia|].
  intros s3 D3 es3 Hs3 Hc3 Hev3. rewrite <-app_assoc in Hs3. eapply HQ; [exact Hs3|exact Hc3|by eapply evolves_trans].
Qed.

Lemma list_bound s fs ex D mem lg : state s fs ex D mem lg → (length fs <= base.size (cells (fragtree s)))%nat.
Proof. intros ([(t & m & Hh & Hi & _) _] & _). apply size_tree in Hh. by rewrite Hi, length_fmap in Hh. Qed.
Lemma wp_truncate_loop s fs1 fs2 D mem lg o bound (Q : unit → st → Prop) :
  state s (fs1 ++ fs2) [] D mem lg → counted D (fs1 ++ fs2) → tiled o fs2 → bound <= o → Z.of_nat (length (fs1 ++ fs2)) < 2 ^ 32 →
  (∀ s' D' es, state s' fs1 [] D' mem (lg ++ es) → counted D' fs1 → evolves D D' es → Q tt s') →
  wp (loop_on_tree (λ n, truncate_loop n (head fs2.*1) bound)) s Q.
Proof.
  intros Hs Hc Ht Ho Hlen HQ. apply wp_loop. eapply truncate_loop_spec; [exact Hs|exact Hc|exact Ht|exact Ho|exact Hlen| |exact HQ].
  apply list_bound in Hs. rewrite length_app in Hs. lia.
Qed.

Lemma wp_truncate s fs D mem lg bound (Q : unit → st → Prop) :
  inode s fs D mem lg → 0 <= bound →
  (∀ s' D' es, inode s' (taken bound fs) D' mem (lg ++ es) → evolves D D' es → Q tt s') →
  wp (jffs2_truncate_fraglist bound) s Q.
Proof.
  intros [Hs Hc Ht He] Hb HQ. destruct (taken_tiled bound _ _ Ht) as [Ht' He'].
  assert (∀ s1 D' es, state s1 (taken bound fs) [] D' mem (lg ++ es) → counted D' (taken bound fs) → evolves D D' es → Q tt s1) as Hdone.
  { intros s1 D' es Hs1 Hc1. apply HQ. split; [exact Hs1|exact Hc1|exact Ht'|lia]. }
  clear HQ Ht' He'. pose proof (tiled_length _ _ Ht) as Hlen.
  unfold jffs2_truncate_fraglist. apply wp_bind. eapply wp_lookup; [exact Hs|exact Hb|exact Ht|exact He|].
  intros q [(fs1 & x & f & fs2 & -> & -> & Hin)|[Hout ->]].
  - rewrite (taken_hit _ _ _ _ _ Ht Hin) in Hdone. pose proof Ht as (Ht1 & Hxo & Hxs & Ht2)%tiled_app.
    pose proof (tiled_range _ _ x f Ht ltac:(set_solver)). cbn [non_null].
    apply wp_bind. apply wp_bind. eapply (wp_fget _ _ _ _ _ _ _ x f); [exact Hs|set_solver|].
    destruct (Z.eqb_spec (ofs f) bound).
    + apply wp_ret. rewrite app_nil_r in Hdone.
      eapply (wp_truncate_loop _ fs1 ((x, f) :: fs2) _ _ _ (extent 0 fs1)); [exact Hs|exact Hc|exact (conj Hxo (conj Hxs Ht2))|lia..|exact Hdone].
    + apply wp_bind. eapply (wp_frag_end _ _ _ _ _ _ x f); [exact Hs|set_solver|]. rewrite u32_small, (proj2 (Z.leb_le _ _)) by lia.
      apply wp_bind. eapply wp_fput; [exact Hs|]. clear Hs. intros s1 Hs. rewrite u32_small in Hs by lia.
      eapply wp_frag_next; [exact Hs|]. rewrite (past_first fs1) in Hs.
      eapply wp_truncate_loop; [exact Hs| |exact Ht2|lia| |exact Hdone].
      * rewrite <-past_first. by eapply counted_same_node; [|exact Hc].
      * rewrite !length_app in *. cbn in *. lia.
  - rewrite (taken_all _ _ _ Ht Hout) in Hdone. destruct fs as [|[x f] fs _] using rev_ind.
    { cbn. apply wp_bind, wp_ret. eapply (wp_truncate_loop _ [] [] _ _ _ bound); [exact Hs|exact Hc|exact I|apply Z.le_refl|cbn; lia|exact Hdone]. }
    pose proof (tiled_range _ _ x f Ht ltac:(set_solver)). rewrite extent_app in *. cbn [extent] in *. pose proof Ht as (Ht1 & Hxo & Hxs & _)%tiled_app.
    rewrite last_address. cbn [non_null].
    apply wp_bind. apply wp_bind. eapply (wp_fget _ _ _ _ _ _ _ x f); [exact Hs|set_solver|].
    rewrite (proj2 (Z.eqb_neq _ _)) by lia. apply wp_bind. eapply (wp_frag_end _ _ _ _ _ _ x f); [exact Hs|set_solver|]. rewrite u32_small by lia.
    apply wp_bind. assert (∀ s1, state s1 (fs ++ [(x, f)]) [] D mem lg → wp (frag_next (Some x)) s1 (λ q s2, wp (loop_on_tree (λ n, truncate_loop n q bound)) s2 Q)) as Hnext.
    { intros s1 Hs1. eapply wp_frag_next; [exact Hs1|]. cbn. eapply (wp_truncate_loop _ (fs ++ [(x, f)]) [] _ _ _ bound); [by rewrite app_nil_r|by rewrite app_nil_r|exact I|apply Z.le_refl|rewrite app_nil_r; lia|exact Hdone]. }
    destruct (Z.leb_spec bound (ofs f + size f)).
    + eapply wp_fput; [exact Hs|]. clear Hs. intros s1 Hs. rewrite u32_small in Hs by lia.
      replace (set_size (bound - ofs f) f) with f in Hs by (destruct f; unfold set_size; cbn in *; f_equal; lia). by apply Hnext.
    + by apply wp_ret, Hnext.
Qed.
End Truncate.

(** ** What a file is made of *)

Section File.
Import Rb Frag.
Abbreviation cell := (nat * node_frag)%type.

Lemma wp_run {A} (m : N A) s (Q : A → st → Prop) : wp m s Q ↔ ∃ a s', m s = Some (a, s') ∧ Q a s'.
Proof.
  unfold wp. destruct (m s) as [[a s']|]; split; [by eexists _, _|by intros (? & ? & [= -> ->] & ?)|done|by intros (? & ? & ? & ?)].
Qed.

Lemma evolves_here D d dn k D' es e en :
  D !! d = Some dn → frags dn = 0 → 0 < k → evolves (<[d := set_frags k dn]> D) D' es → e ≠ d → D !! e = Some en →
  match D' !! e with
  | Some en' => raw en' = raw en ∧ dofs en' = dofs en ∧ dsize en' = dsize en ∧ (0 < frags en ↔ 0 < frags en')
  | None => Obsolete (raw en) ∈ es ∧ 0 < frags en
  end.
Proof. intros _ _ _ (H & _) Hne He. apply H. by rewrite lookup_insert_ne. Qed.

(** [C22] Adding a node to the map of a file, on every branch of the code (a node behind the end with or
    without a hole before it, inside a fragment that is split in three, over the end of one and over
    several others, from the start of one).  From a map whose fragments lie one behind the other, each
    node knowing how many refer to it, either the function answers 0: the bytes of the node's range come
    from it, all others from where they came, a gap before it is a hole; the fragments tile the file
    again, the tree is a red-black tree, the counts are right; a node is freed and its reference marked
    obsolete exactly when no byte comes from it any more.  Or there was no memory for a fragment or two:
    the answer is -ENOMEM, and the file is what it was. *)
Theorem add_full_dnode_overlays s fs D mem lg d dn
    (Hi : inode s fs D mem lg) (Hd : D !! d = Some dn) (Hf : frags dn = 0)
    (Ho : 0 <= dofs dn) (Hn : 0 < dsize dn) (He : dofs dn + dsize dn < 2 ^ 32) :
  ∃ ret s', jffs2_add_full_dnode_to_inode (Some d) s = Some (ret, s') ∧
    ((ret = 0 ∧ ∃ fs' D' mem' es,
        inode s' fs' D' mem' (lg ++ es) ∧ overlaid fs (dofs dn) (dsize dn) d fs' ∧
        (∀ e en, D !! e = Some en → 0 < frags en →
           D' !! e = None ↔ ∀ off, content fs' off ≠ Some (Some e)) ∧
        (∀ e en, D !! e = Some en → D' !! e = None → Obsolete (raw en) ∈ es) ∧
        (∀ r, Obsolete r ∈ es → ∃ e en, D !! e = Some en ∧ raw en = r ∧ D' !! e = None)) ∨
     (ret = - ENOMEM ∧ take 2 mem ≠ [true; true] ∧ ∃ D' mem' es, state s' fs [] D' mem' (lg ++ (Normal <$> es)))).
Proof.
  apply wp_run. eapply wp_add_full_dnode; [done..| |].
  - intros s' fs' D' mem' es Hi' Hov Hev _. left. split; [done|]. exists fs', D', mem', es. split_and!; [done..| | |].
    + intros e en He' Hp. assert (e ≠ d) as Hne by (intros ->; rewrite Hd in He'; injection He' as <-; lia).
      pose proof (evolves_here _ _ _ 1 _ _ _ _ Hd Hf ltac:(lia) Hev Hne He') as H.
      destruct (D' !! e) as [en'|] eqn:HD'; [|split; [intros _|done]].
      * split; [done|]. intros Hno. destruct (proj1 (inode_refers _ _ _ _ _ _ _ Hi' HD')) as [off Hoff]; [tauto|].
        by destruct (Hno off).
      * intros off Hoff. pose proof (inode_counted _ _ _ _ _ Hi') as [Hk _].
        apply content_node in Hoff as (x & f & Hin & Hf'). rewrite Forall_forall in Hk.
        destruct (Hk _ Hin e Hf'). congruence.
    + intros e en He' HD'. destruct (decide (e = d)) as [->|Hne].
      * destruct Hev as (H & _). specialize (H d). rewrite lookup_insert_eq, HD' in H. rewrite Hd in He'. injection He' as <-. by apply (H _ eq_refl).
      * pose proof (evolves_here _ _ _ 1 _ _ _ _ Hd Hf ltac:(lia) Hev Hne He') as H. rewrite HD' in H. tauto.
    + intros r Hr. destruct Hev as (_ & H & _). destruct (H r Hr) as (e & en & Hl & Hr' & HD').
      destruct (decide (d = e)) as [<-|].
      * rewrite lookup_insert_eq in Hl. injection Hl as <-. by exists d, dn.
      * rewrite lookup_insert_ne in Hl by done. by exists e, en.
  - intros s' k mem' es Hm Hs. right. split_and!; [done..|]. by exists (<[d := set_frags k dn]> D), mem', es.
Qed.

(** A file of one fragment of ten bytes, with a node of four bytes to go inside it. *)
Definition one_fragment : list cell := [(1%nat, NodeFrag (Some 0%nat) 10 0)].
Definition two_nodes : gmap nat full_dnode := {[ 0%nat := FullDnode 5 0 10 1; 1%nat := FullDnode 6 3 4 0 ]}.
Definition small_file : st :=
  St (Heap (Some 1%nat) {[ 1%nat := Cell None RB_BLACK None None ]}) {[ 1%nat := NodeFrag (Some 0%nat) 10 0 ]} two_nodes
    (replicate 4 true) [].
Lemma small_file_inode : inode small_file one_fragment two_nodes (replicate 4 true) [].
Proof.
  split; [|split|by repeat split|cbn; lia].
  - split; [|done]. split; [|by repeat constructor].
    exists (Node RB_BLACK Leaf 1%nat Leaf), 1%nat. split; [|split; [reflexivity|by repeat econstructor]].
    split; [repeat constructor|]. apply (bool_decide_unpack _). vm_compute. exact I.
  - apply Forall_cons. split; [|constructor]. intros d [= <-]. by eexists.
  - intros d dn. unfold two_nodes. rewrite lookup_insert_Some, lookup_singleton_Some. by intros [[<- <-]|[_ [<- <-]]].
Qed.
Lemma add_full_dnode_overlays_witness :
  inode small_file one_fragment two_nodes (replicate 4 true) [] ∧ fst <$> jffs2_add_full_dnode_to_inode (Some 1%nat) small_file = Some 0 ∧
  ∃ s' fs' D' mem' es, inode s' fs' D' mem' es ∧ content fs' <$> [2; 3; 6; 7; 9; 10] =
    [Some (Some 0%nat); Some (Some 1%nat); Some (Some 1%nat); Some (Some 0%nat); Some (Some 0%nat); None] ∧ is_Some (D' !! 0%nat).
Proof.
  assert (fst <$> jffs2_add_full_dnode_to_inode (Some 1%nat) small_file = Some 0) as Hret by (vm_compute; reflexivity).
  split; [exact small_file_inode|split; [exact Hret|]].
  destruct (add_full_dnode_overlays small_file one_fragment two_nodes (replicate 4 true) [] 1 (FullDnode 6 3 4 0) small_file_inode)
    as (ret & s' & Hrun & [(_ & fs' & D' & mem' & es & Hi & Hov & Hfree & _)|(-> & _)]); [reflexivity|reflexivity|cbn; lia..| |].
  2:{ rewrite Hrun in Hret. discriminate Hret. }
  destruct Hov as (_ & _ & Hov). exists s', fs', D', mem', ([] ++ es). split; [exact Hi|]. split.
  - cbn [fmap list_fmap]. rewrite !Hov by lia. reflexivity.
  - destruct (D' !! 0%nat) eqn:HD; [by eexists|exfalso].
    destruct (Hfree 0%nat (FullDnode 5 0 10 1) eq_refl eq_refl) as [Hno _]. apply (Hno HD 2). rewrite Hov by lia. reflexivity.
Defined.
End File.
