(* ===== verification/Jffs2Node.v ===== *)
(** * Jffs2Node: nodes on the flash (include/linux/jffs2.h, fs/jffs2/read.c, write.c, writev.c)

    The raw node structures and their bytes, the flash as the code uses it, and the reading of the data
    of one node.  The byte order is that of the machine (JFFS2_NATIVE_ENDIAN), here little endian.  The checks
    that CONFIG_JFFS2_FS_DEBUG adds are left out (those of a write are in Jffs2Space.v). *)

From S2P Require Import Prelude Rbtree Jffs2Frag Jffs2Rtime Jffs2Rubin Jffs2Compr Crc32.

Definition JFFS2_MAGIC_BITMASK := 0x1985.
Definition JFFS2_NODETYPE_DIRENT := 0xe001.
Definition JFFS2_NODETYPE_INODE := 0xe002.
Definition JFFS2_MIN_DATA_LEN := 128.
Definition PAD (x : Z) : Z := u32 (x + 3) &&& 0xfffffffc.

(** ** The bytes of a packed structure *)

Module Layout.
Fixpoint le (width : nat) (v : Z) : list Z :=
  match width with O => [] | S width => v mod 256 :: le width (v / 256) end.
Fixpoint un_le (b : list Z) : Z := match b with [] => 0 | x :: b => x + 256 * un_le b end.
(** The fields of the given widths, one behind the other. *)
Fixpoint pack (ws : list nat) (vs : list Z) : list Z :=
  match ws, vs with w :: ws, v :: vs => le w v ++ pack ws vs | _, _ => [] end.
Fixpoint unpack (ws : list nat) (b : list Z) : list Z :=
  match ws with [] => [] | w :: ws => un_le (take w b) :: unpack ws (drop w b) end.

Record raw_inode := RawInode {
  magic : Z; nodetype : Z; totlen : Z; hdr_crc : Z; ino : Z; version : Z; mode : Z; uid : Z; gid : Z; isize : Z;
  atime : Z; mtime : Z; ctime : Z; offset : Z; csize : Z; dsize : Z; compr : Z; usercompr : Z; flags : Z;
  data_crc : Z; node_crc : Z }.
Definition inode_widths : list nat := [2; 2; 4; 4; 4; 4; 4; 2; 2; 4; 4; 4; 4; 4; 4; 4; 1; 1; 2; 4; 4]%nat.
Definition inode_fields (r : raw_inode) : list Z :=
  [magic r; nodetype r; totlen r; hdr_crc r; ino r; version r; mode r; uid r; gid r; isize r; atime r; mtime r;
   ctime r; offset r; csize r; dsize r; compr r; usercompr r; flags r; data_crc r; node_crc r].
Definition of_inode_fields (l : list Z) : raw_inode :=
  let f i := nth (Z.to_nat i) l 0 in
  RawInode (f 0) (f 1) (f 2) (f 3) (f 4) (f 5) (f 6) (f 7) (f 8) (f 9) (f 10) (f 11) (f 12) (f 13) (f 14) (f 15)
    (f 16) (f 17) (f 18) (f 19) (f 20).
Definition sizeof_raw_inode := 68.
Definition inode_bytes (r : raw_inode) : list Z := pack inode_widths (inode_fields r).
Definition inode_of_bytes (b : list Z) : raw_inode := of_inode_fields (unpack inode_widths b).
(** [crc32(0, ri, sizeof( *ri)-8)] and [crc32(0, ri, sizeof(struct jffs2_unknown_node)-4)] *)
Definition inode_crc (b : list Z) : Z := Crc.crc32 0 (take 60 b).
Definition header_crc (b : list Z) : Z := Crc.crc32 0 (take 8 b).
End Layout.

Section LayoutProofs.
Import Layout.

Lemma un_le_le w v : 0 <= v < 256 ^ Z.of_nat w → un_le (le w v) = v.
Proof.
  revert v. induction w as [|w IH]; intros v Hv; cbn [le un_le]; [cbn in Hv; lia|].
  rewrite Nat2Z.inj_succ, Z.pow_succ_r in Hv by lia. rewrite IH; Z.to_euclidean_division_equations; nia.
Qed.
Lemma length_le w v : length (le w v) = w.
Proof. revert v. induction w as [|w IH]; intros v; cbn; [done|]. by rewrite IH. Qed.
Lemma le_bytes w v : bytes (le w v).
Proof.
  revert v. induction w as [|w IH]; intros v; constructor; [|apply IH]. apply Z.mod_pos_bound. lia.
Qed.
(** A value that fits its field. *)
Definition fits (w : nat) (v : Z) : Prop := 0 <= v < 256 ^ Z.of_nat w.
Lemma unpack_pack ws vs rest : Forall2 fits ws vs → unpack ws (pack ws vs ++ rest) = vs.
Proof.
  induction 1 as [|w v ws vs Hv _ IH]; [done|]. cbn [pack unpack]. rewrite <-app_assoc.
  rewrite take_app_length', drop_app_length' by (by rewrite length_le). by rewrite un_le_le, IH.
Qed.
Lemma length_pack ws vs : length ws = length vs → length (pack ws vs) = sum_list ws.
Proof.
  revert vs. induction ws as [|w ws IH]; intros [|v vs] Hl; try done. cbn. rewrite length_app, length_le, IH; [done|]. by injection Hl.
Qed.
Lemma pack_bytes ws vs : bytes (pack ws vs).
Proof.
  revert vs. induction ws as [|w ws IH]; intros [|v vs]; try constructor. cbn. apply Forall_app_2; [apply le_bytes|apply IH].
Qed.

(** The fields of a raw inode are in range. *)
Definition well_formed (r : raw_inode) : Prop := Forall2 fits inode_widths (inode_fields r).
Lemma inode_of_bytes_bytes r rest : well_formed r → inode_of_bytes (inode_bytes r ++ rest) = r.
Proof. intros Hr. unfold inode_of_bytes, inode_bytes. rewrite unpack_pack by done. by destruct r. Qed.
Lemma length_inode_bytes r : length (inode_bytes r) = 68%nat.
Proof. by apply length_pack. Qed.
End LayoutProofs.

(** ** The state of an open file

    [Mtd]: the flash driver, [mtd->read] with its result and what it read ([*retlen] bytes), and
    [mtd->write] with its result, [*retlen] and the flash afterwards. *)

Class Mtd (F : Type) := {
  mtd_read : F → Z → Z → Z * list Z;
  mtd_write : F → Z → list Z → Z * Z * F }.

Definition ALLOC_NORMAL := 0.
Definition ALLOC_DELETION := 1.
Definition ALLOC_GC := 2.
Definition ALLOC_NORETRY := 3.
Definition ENOSPC := 28.

Module Node.
Import Rb Frag Layout.

Section Store.
Context {F : Type} `{!Mtd F}.

(** [struct jffs2_inode_info] and what it leads to: the fragments and the nodes of the file
    ([f->fragtree], the full dnodes, the memory that is left, the marks), [f->metadata],
    [f->highest_version], the raw references ([flash_offset], without its two low bits: the marks) and
    those in [f->inocache->nodes], the flash, the compressors, and the answers that
    [jffs2_reserve_space] will give: result, offset and length. *)
Record st := St {
  map : Frag.st; metadata : ptr; highest_version : Z; ref_at : gmap nat Z; nodes : list nat; flash : F;
  codecs : Compr.st; space : list (Z * Z * Z) }.
Abbreviation P := (SM st).
Definition with_map (m : Frag.st) (s : st) :=
  St m (metadata s) (highest_version s) (ref_at s) (nodes s) (flash s) (codecs s) (space s).
Definition with_metadata (p : ptr) (s : st) :=
  St (map s) p (highest_version s) (ref_at s) (nodes s) (flash s) (codecs s) (space s).
Definition with_version (v : Z) (s : st) :=
  St (map s) (metadata s) v (ref_at s) (nodes s) (flash s) (codecs s) (space s).
Definition with_refs (r : gmap nat Z) (s : st) :=
  St (map s) (metadata s) (highest_version s) r (nodes s) (flash s) (codecs s) (space s).
Definition with_nodes (l : list nat) (s : st) :=
  St (map s) (metadata s) (highest_version s) (ref_at s) l (flash s) (codecs s) (space s).
Definition with_flash (f : F) (s : st) :=
  St (map s) (metadata s) (highest_version s) (ref_at s) (nodes s) f (codecs s) (space s).
Definition with_codecs (c : Compr.st) (s : st) :=
  St (map s) (metadata s) (highest_version s) (ref_at s) (nodes s) (flash s) c (space s).
Definition with_space (l : list (Z * Z * Z)) (s : st) :=
  St (map s) (metadata s) (highest_version s) (ref_at s) (nodes s) (flash s) (codecs s) l.
Definition gets {A} (f : st → A) : P A := λ s, Some (f s, s).
Definition puts (f : st → st) : P unit := λ s, Some (tt, f s).
Definition on_map {A} (m : N A) : P A :=
  λ s, match m (map s) with Some (a, f) => Some (a, with_map f s) | None => None end.

(** One allocation: is there memory? *)
Definition set_memory (l : list bool) (f : Frag.st) : Frag.st := Frag.St (fragtree f) (frag_at f) (dnode_at f) l (marks f).
Definition alloc : N bool :=
  λ f, match memory f with [] => Some (false, f) | b :: l => Some (b, set_memory l f) end.
Definition set_dnodes (d : gmap nat full_dnode) (f : Frag.st) : Frag.st :=
  Frag.St (fragtree f) (frag_at f) d (memory f) (marks f).
Definition new_full_dnode : N ptr :=
  λ f, let x := fresh (elements (dom (dnode_at f))) in Some (Some x, set_dnodes (<[x := FullDnode 0 0 0 0]> (dnode_at f)) f).
Definition jffs2_alloc_full_dnode : N ptr := ok ← alloc; if ok : bool then new_full_dnode else mret None.
Definition new_raw_node_ref : P ptr :=
  λ s, let x := fresh (elements (dom (ref_at s))) in Some (Some x, with_refs (<[x := 0]> (ref_at s)) s).
Definition jffs2_alloc_raw_node_ref : P ptr := ok ← on_map alloc; if ok : bool then new_raw_node_ref else mret None.
Definition jffs2_free_raw_node_ref (r : nat) : P unit := puts (λ s, with_refs (delete r (ref_at s)) s).
Definition ref_offset (r : nat) : P Z := λ s, match ref_at s !! r with Some o => Some (o, s) | None => None end.

Definition jffs2_flash_read (ofs len : Z) : P (Z * list Z) := gets (λ s, mtd_read (flash s) ofs len).
(** [jffs2_flash_writev]: one write per vector, until one fails or is short. *)
Fixpoint mtd_fake_writev (f : F) (vecs : list (list Z)) (to totlen : Z) : Z * Z * F :=
  match vecs with
  | [] => (0, totlen, f)
  | v :: vecs =>
      let n := Z.of_nat (length v) in
      if n =? 0 then mtd_fake_writev f vecs to totlen
      else
        let '(ret, thislen, f) := mtd_write f to v in
        let totlen := totlen + thislen in
        if truthy ret || negb (thislen =? n) then (ret, totlen, f) else mtd_fake_writev f vecs (to + n) totlen
  end.
Definition jffs2_flash_writev (vecs : list (list Z)) (ofs : Z) : P (Z * Z) :=
  λ s, let '(ret, retlen, f) := mtd_fake_writev (flash s) vecs ofs 0 in Some ((ret, retlen), with_flash f s).
Definition jffs2_reserve_space : P (Z * Z * Z) :=
  λ s, match space s with [] => Some ((- ENOSPC, 0, 0), s) | a :: l => Some (a, with_space l s) end.

Definition decompress (comprtype : Z) (cdata : list Z) (cdatalen datalen : Z) : P (Z * list Z) :=
  λ s, match Compr.jffs2_decompress (codecs s) comprtype cdata cdatalen datalen with
       | Some (ret, data, c) => Some ((ret, data), with_codecs c s)
       | None => None
       end.

(** ** read.c: the bytes from [ofs] on of a node into [buf]; the answer has the buffer *)

(** [jffs2_read_dnode] once the header is read and checked: the four cases of its comment. *)
Definition read_dnode_data (ri : raw_inode) (o ri_dsize ri_csize : Z) (buf : list Z) (ofs len : Z) : P (Z * list Z) :=
  let direct := (compr ri =? JFFS2_COMPR_NONE) && (len =? ri_dsize) in
  ok ← (if direct then mret true else on_map alloc);
  if negb ok then mret (- ENOMEM, buf)
  else
    let partial := negb (compr ri =? JFFS2_COMPR_NONE) && (len <? ri_dsize) in
    ok ← (if negb partial then mret true else on_map alloc);
    if negb ok then mret (- ENOMEM, buf)
    else
      '(ret, readbuf) ← jffs2_flash_read (o + sizeof_raw_inode) ri_csize;
      if direct && (len <? Z.of_nat (length readbuf)) then fault
      else
        let buf := if direct then readbuf ++ drop (length readbuf) buf else buf in
        let ret := if negb (truthy ret) && negb (Z.of_nat (length readbuf) =? ri_csize) then - EIO else ret in
        if truthy ret then mret (ret, buf)
        else if negb (Crc.crc32 0 readbuf =? data_crc ri) then mret (- EIO, buf)
        else
          '(ret, data) ←
            (if negb (compr ri =? JFFS2_COMPR_NONE)
             then decompress (Z.lor (compr ri) (usercompr ri <<< 8)) readbuf ri_csize ri_dsize
             else mret (0, readbuf));
          let out := if (compr ri =? JFFS2_COMPR_NONE) || partial then buf else data ++ drop (length data) buf in
          if truthy ret then mret (ret, out)
          else if len <? ri_dsize
          then
            if (0 <=? ofs) && (ofs + len <=? Z.of_nat (length data))
            then mret (0, take (Z.to_nat len) (drop (Z.to_nat ofs) data)) else fault
          else mret (0, out).
Definition jffs2_read_dnode (fd : ptr) (buf : list Z) (ofs len : Z) : P (Z * list Z) :=
  ok ← on_map alloc;
  if negb ok then mret (- ENOMEM, buf)
  else
    r ← on_map (dget raw fd);
    o ← ref_offset r;
    '(ret, b) ← jffs2_flash_read o sizeof_raw_inode;
    if truthy ret then mret (ret, buf)
    else if negb (Z.of_nat (length b) =? sizeof_raw_inode) then mret (- EIO, buf)
    else
      let ri := inode_of_bytes b in
      if negb (inode_crc b =? node_crc ri) then mret (- EIO, buf)
      else
        let swapped := (compr ri =? JFFS2_COMPR_ZERO) && negb (truthy (dsize ri)) && truthy (csize ri) in
        let ri_dsize := if swapped then csize ri else dsize ri in
        let ri_csize := if swapped then 0 else csize ri in
        if compr ri =? JFFS2_COMPR_ZERO then mret (0, replicate (Z.to_nat len) 0)
        else read_dnode_data ri o ri_dsize ri_csize buf ofs len.

(** [jffs2_read_inode_range] from a fragment on; the answer has what is written behind [buf]. *)
Fixpoint read_range (fuel : nat) (frag : ptr) (buf : list Z) (offset end_ : Z) : P (Z * list Z) :=
  match fuel with
  | O => fault
  | S fuel =>
      if offset <? end_
      then
        fo ← (if non_null frag then on_map (fget Frag.ofs frag) else mret 0);
        if negb (non_null frag) || (offset <? fo)
        then
          let holesize := u32 (end_ - offset) in
          let holesize := if non_null frag then Z.min holesize (u32 (fo - offset)) else holesize in
          '(ret, rest) ← read_range fuel frag (drop (Z.to_nat holesize) buf) (u32 (offset + holesize)) end_;
          mret (ret, replicate (Z.to_nat holesize) 0 ++ rest)
        else
          node ← on_map (fget node frag);
          fsize ← on_map (fget size frag);
          if negb (non_null node)
          then
            let holeend := Z.min end_ (u32 (fo + fsize)) in
            let holesize := u32 (holeend - offset) in
            next ← on_map (frag_next frag);
            '(ret, rest) ← read_range fuel next (drop (Z.to_nat holesize) buf) holeend end_;
            mret (ret, replicate (Z.to_nat holesize) 0 ++ rest)
          else
            let fragofs := u32 (offset - fo) in
            let readlen := Z.min (u32 (fsize - fragofs)) (u32 (end_ - offset)) in
            no ← on_map (dget dofs node);
            '(ret, data) ← jffs2_read_dnode node (take (Z.to_nat readlen) buf) (u32 (fragofs + fo - no)) readlen;
            if truthy ret then mret (ret, replicate (Z.to_nat readlen) 0 ++ drop (Z.to_nat readlen) buf)
            else
              next ← on_map (frag_next frag);
              '(ret, rest) ← read_range fuel next (drop (Z.to_nat readlen) buf) (u32 (offset + readlen)) end_;
              mret (ret, data ++ rest)
      else mret (0, buf)
  end.
Definition jffs2_read_inode_range (buf : list Z) (offset len : Z) : P (Z * list Z) :=
  frag ← on_map (jffs2_lookup_node_frag offset);
  read_range (S (S (Z.to_nat len))) frag buf offset (u32 (offset + len)).

(** ** write.c *)

Definition with_node_version (v crc : Z) (r : raw_inode) : raw_inode :=
  RawInode (magic r) (nodetype r) (totlen r) (hdr_crc r) (ino r) v (mode r) (uid r) (gid r) (isize r) (atime r)
    (mtime r) (ctime r) (offset r) (csize r) (dsize r) (compr r) (usercompr r) (flags r) (data_crc r) crc.
Definition next_version : P Z := v ← gets highest_version; let v := u32 (v + 1) in puts (with_version v);; mret v.

(** [jffs2_write_dnode] from [retry:] to the result of the write, with what is done about the raw
    reference either way: [None] when the node is on the flash, or the failed result. *)
Definition write_once (retried : bool) (ri : raw_inode) (data : list Z) (flash_ofs alloc_mode : Z) (fn raw : nat) :
    P (raw_inode * option Z) :=
  let datalen := Z.of_nat (length data) in
  on_map (dput (λ d, FullDnode raw (Frag.dofs d) (Frag.dsize d) (frags d)) (Some fn));;
  puts (λ s, with_refs (<[raw := flash_ofs]> (ref_at s)) s);;
  hv ← gets highest_version;
  ri ← (if negb (alloc_mode =? ALLOC_GC) && (version ri <? hv)
        then
          if retried
          then v ← next_version; let ri := with_node_version v (node_crc ri) ri in
               mret (with_node_version v (inode_crc (inode_bytes ri)) ri)
          else fault
        else mret ri);
  '(ret, retlen) ← jffs2_flash_writev (if datalen =? 0 then [inode_bytes ri] else [inode_bytes ri; data]) flash_ofs;
  if truthy ret || negb (retlen =? sizeof_raw_inode + datalen)
  then
    (if truthy retlen then on_map (mark (Physical raw));; on_map (jffs2_mark_node_obsolete raw) else jffs2_free_raw_node_ref raw);;
    mret (ri, Some ret)
  else
    on_map (mark (if (PAGE_CACHE_SIZE <=? dsize ri)
                     || negb (truthy (offset ri &&& (PAGE_CACHE_SIZE - 1))) && (u32 (dsize ri + offset ri) =? isize ri)
                  then Pristine raw else Normal raw));;
    on_map (mark (Physical raw));;
    puts (λ s, with_nodes (raw :: nodes s) s);;
    mret (ri, None).
(** The loop around it, with [tries] more tries; the answer is the raw inode as it is now and the node,
    or an error. *)
Fixpoint write_attempt (tries : nat) (ri : raw_inode) (data : list Z) (flash_ofs alloc_mode : Z) (fn raw : nat) :
    P (raw_inode * (Z + nat)) :=
  '(ri, r) ← write_once (tries =? 0)%nat ri data flash_ofs alloc_mode fn raw;
  let yield_error ret := on_map (jffs2_free_full_dnode (Some fn));; mret (ri, inl (if truthy ret then ret else - EIO)) in
  match r, tries with
  | None, _ => mret (ri, inr fn)
  | Some ret, O => yield_error ret
  | Some ret, S tries =>
      if alloc_mode =? ALLOC_NORETRY then yield_error ret
      else
        raw ← jffs2_alloc_raw_node_ref;
        match raw with
        | Some raw =>
            '(ret, flash_ofs, _) ← jffs2_reserve_space;
            if truthy ret then jffs2_free_raw_node_ref raw;; yield_error ret
            else write_attempt tries ri data flash_ofs alloc_mode fn raw
        | None => yield_error ret
        end
  end.
Definition jffs2_write_dnode (ri : raw_inode) (data : list Z) (flash_ofs alloc_mode : Z) : P (raw_inode * (Z + nat)) :=
  raw ← jffs2_alloc_raw_node_ref;
  match raw with
  | None => mret (ri, inl (- ENOMEM))
  | Some raw =>
      fn ← on_map jffs2_alloc_full_dnode;
      match fn with
      | None => jffs2_free_raw_node_ref raw;; mret (ri, inl (- ENOMEM))
      | Some fn =>
          on_map (dput (λ d, FullDnode (Frag.raw d) (offset ri) (dsize ri) 0) (Some fn));;
          write_attempt 1 ri data flash_ofs alloc_mode fn raw
      end
  end.

Section WriteRange.
(** The kernel's allocator as the compressors use it, and [f->inocache->ino]. *)
Context (kmalloc : nat → Z → option (list Z)) (inocache_ino : Z).

Definition compress (data : list Z) (datalen cdatalen : Z) : P (Z * list Z * Z * Z) :=
  λ s, match Compr.jffs2_compress kmalloc (codecs s) data datalen cdatalen with
       | Some (ret, out, dl, cl, c) => Some ((ret, out, dl, cl), with_codecs c s)
       | None => None
       end.
(** The raw inode of a node with [datalen] bytes from [ofs] on: the header with its checksum, the rest,
    and the two other checksums. *)
Definition fill_header (ri : raw_inode) (cdatalen : Z) : raw_inode :=
  RawInode JFFS2_MAGIC_BITMASK JFFS2_NODETYPE_INODE (u32 (sizeof_raw_inode + cdatalen)) (hdr_crc ri) (ino ri) (version ri)
    (mode ri) (uid ri) (gid ri) (isize ri) (atime ri) (mtime ri) (ctime ri) (offset ri) (csize ri) (dsize ri) (compr ri)
    (usercompr ri) (flags ri) (data_crc ri) (node_crc ri).
Definition fill_body (ri : raw_inode) (v ofs datalen cdatalen comprtype : Z) : raw_inode :=
  RawInode (magic ri) (nodetype ri) (totlen ri) (header_crc (inode_bytes ri)) inocache_ino v
    (mode ri) (uid ri) (gid ri) (Z.max (isize ri) (u32 (ofs + datalen))) (atime ri) (mtime ri) (ctime ri) ofs cdatalen datalen
    (comprtype &&& 255) ((comprtype >>> 8) &&& 255) (flags ri) (data_crc ri) (node_crc ri).
Definition fill_checks (ri : raw_inode) (cdata : list Z) : raw_inode :=
  RawInode (magic ri) (nodetype ri) (totlen ri) (hdr_crc ri) (ino ri) (version ri) (mode ri) (uid ri) (gid ri) (isize ri)
    (atime ri) (mtime ri) (ctime ri) (offset ri) (csize ri) (dsize ri) (compr ri) (usercompr ri) (flags ri)
    (Crc.crc32 0 cdata) (inode_crc (inode_bytes ri)).

(** [jffs2_write_inode_range] from [retry:] to the node on the flash; the answer has the node and the
    number of bytes it took, or the error and whether it is one to be retried. *)
Definition write_chunk (ri : raw_inode) (buf : list Z) (ofs writelen : Z) : P (raw_inode * (Z * bool + nat * Z)) :=
  '(ret, phys_ofs, alloclen) ← jffs2_reserve_space;
  if truthy ret then mret (ri, inl (ret, false))
  else
    let datalen := Z.min writelen (PAGE_CACHE_SIZE - (ofs &&& (PAGE_CACHE_SIZE - 1))) in
    let cdatalen := Z.min (u32 (alloclen - sizeof_raw_inode)) datalen in
    '(comprtype, comprbuf, datalen, cdatalen) ← compress (take (Z.to_nat datalen) buf) datalen cdatalen;
    if Z.of_nat (length comprbuf) <? cdatalen then fault
    else
      let cdata := take (Z.to_nat cdatalen) comprbuf in
      v ← next_version;
      let ri := fill_checks (fill_body (fill_header ri cdatalen) v ofs datalen cdatalen comprtype) cdata in
      '(ri, r) ← jffs2_write_dnode ri cdata phys_ofs ALLOC_NORETRY;
      mret (ri, match r with inr fn => inr (fn, datalen) | inl e => inl (e, true) end).
Fixpoint write_node (tries : nat) (ri : raw_inode) (buf : list Z) (ofs writelen : Z) : P (raw_inode * (Z + nat * Z)) :=
  '(ri, r) ← write_chunk ri buf ofs writelen;
  match r, tries with
  | inr fd, _ => mret (ri, inr fd)
  | inl (_, true), S tries => write_node tries ri buf ofs writelen
  | inl (e, _), _ => mret (ri, inl e)
  end.
(** [if (f->metadata) { jffs2_mark_node_obsolete(...); ...; f->metadata = NULL; }] *)
Definition forget_node (fn : nat) : N unit :=
  r ← dget raw (Some fn); jffs2_mark_node_obsolete r;; jffs2_free_full_dnode (Some fn).
Definition drop_metadata : P unit :=
  m ← gets metadata;
  match m with Some m => on_map (forget_node m);; puts (with_metadata None) | None => mret tt end.
(** The loop; the answer is the result and [*retlen]. *)
Fixpoint write_range (fuel : nat) (ri : raw_inode) (buf : list Z) (ofs writelen writtenlen : Z) : P (Z * Z) :=
  match fuel with
  | O => fault
  | S fuel =>
      if writelen =? 0 then mret (0, writtenlen)
      else
        '(ri, r) ← write_node 1 ri buf ofs writelen;
        match r with
        | inl e => mret (e, writtenlen)
        | inr (fn, datalen) =>
            ret ← on_map (jffs2_add_full_dnode_to_inode (Some fn));
            drop_metadata;;
            if truthy ret then on_map (forget_node fn);; mret (ret, writtenlen)
            else if datalen =? 0 then mret (- EIO, writtenlen)
            else
              write_range fuel ri (drop (Z.to_nat datalen) buf) (u32 (ofs + datalen)) (u32 (writelen - datalen))
                (u32 (writtenlen + datalen))
        end
  end.
Definition jffs2_write_inode_range (ri : raw_inode) (buf : list Z) (ofs writelen : Z) : P (Z * Z) :=
  write_range (S (Z.to_nat writelen)) ri buf ofs writelen 0.
End WriteRange.
End Store.
End Node.
