(* ===== verification/Jffs2File.v ===== *)
(** * Jffs2File: what a file of JFFS2 holds (fs/jffs2/read.c, write.c)

    The reading and writing of ranges of a file, against the file as a map from offsets to bytes. *)

From S2P Require Import Prelude Rbtree Jffs2Frag Jffs2Rtime Jffs2Rubin Jffs2Compr Crc32 Jffs2Node.

Section Contents.
Import Rb Frag Layout Node.
Context {F : Type} `{!Mtd F}.
Abbreviation cell := (nat * node_frag)%type.
Abbreviation file := (st (F := F)).

(** What is known of the flash: a read that succeeds and is not short gives the bytes [b] at [ofs]. *)
Definition stored (f : F) (o : Z) (b : list Z) : Prop :=
  ∀ ofs n got i v, mtd_read f ofs n = (0, got) → Z.of_nat (length got) = n → b !! i = Some v →
    0 <= o + Z.of_nat i - ofs < n → got !! Z.to_nat (o + Z.of_nat i - ofs) = Some v.
Lemma stored_app f o b b' : stored f o (b ++ b') ↔ stored f o b ∧ stored f (o + Z.of_nat (length b)) b'.
Proof.
  split.
  - intros H. split; intros ofs n got i v Hr Hl Hv Hi.
    + eapply H; [exact Hr|done|by apply lookup_app_l_Some|done].
    + replace (o + Z.of_nat (length b) + Z.of_nat i) with (o + Z.of_nat (length b + i)) in * by lia.
      eapply H; [exact Hr|done| |done]. rewrite lookup_app_r by lia. rewrite <-Hv. f_equal. lia.
  - intros [H1 H2] ofs n got i v Hr Hl [Hv|[Hge Hv]]%lookup_app_Some Hi; [by eapply H1|].
    replace (o + Z.of_nat i) with (o + Z.of_nat (length b) + Z.of_nat (i - length b)) in * by lia. by eapply H2.
Qed.
Lemma stored_read f o b i n got :
  stored f o b → 0 <= i → 0 <= n → i + n <= Z.of_nat (length b) → mtd_read f (o + i) n = (0, got) → Z.of_nat (length got) = n →
  got = take (Z.to_nat n) (drop (Z.to_nat i) b).
Proof.
  intros H Hi Hn Hb Hr Hl. apply list_eq. intros j. destruct (decide (Z.of_nat j < n)).
  - rewrite lookup_take_lt, lookup_drop by lia. destruct (lookup_lt_is_Some_2 b (Z.to_nat i + j)) as [v Hv]; [lia|]. rewrite Hv.
    replace j with (Z.to_nat (o + Z.of_nat (Z.to_nat i + j) - (o + i))) at 1 by lia. eapply H; [exact Hr|done|done|lia].
  - rewrite lookup_take_ge by lia. apply lookup_ge_None. lia.
Qed.
Definition reliable (f : F) : Prop := ∀ ofs n, 0 <= n → ∃ got, mtd_read f ofs n = (0, got) ∧ Z.of_nat (length got) = n.
(** A read never gives more than was asked for. *)
Definition bounded (f : F) : Prop := ∀ ofs n, 0 <= n → Z.of_nat (length (mtd_read f ofs n).2) <= n.

Context (codes : list Compr.jffs2_compressor).
Definition codecs_ok (c : Compr.st) : Prop :=
  Forall2 same_code codes (Compr.compressor_list c) ∧ Forall buffer_ok (Compr.compressor_list c).

(** The node at [o] holds the bytes [b] of the file from [start] on. *)
Record node_at (f : F) (o start : Z) (b : list Z) (ri : raw_inode) (cdata : list Z) : Prop := {
  node_stored : stored f o (inode_bytes ri ++ cdata);
  node_formed : well_formed ri;
  node_checked : node_crc ri = inode_crc (inode_bytes ri);
  node_data_checked : data_crc ri = Crc.crc32 0 cdata;
  node_csize : csize ri = Z.of_nat (length cdata);
  node_dsize : dsize ri = Z.of_nat (length b);
  node_offset : offset ri = start;
  node_filled : 0 < dsize ri;
  node_plain : compr ri = JFFS2_COMPR_NONE → cdata = b;
  node_data :
    if compr ri =? JFFS2_COMPR_ZERO then b = replicate (length b) 0
    else ∀ c, codecs_ok c → ∃ c', codecs_ok c' ∧
      Compr.jffs2_decompress c (Z.lor (compr ri) (usercompr ri <<< 8)) cdata (csize ri) (dsize ri) = Some (0, b, c') }.

(** A file in memory: its map, the compressors and, for each node of the map, its bytes on the flash. *)
Record opened (s : file) (fs : list cell) (D : gmap nat full_dnode) (mem : list bool) (lg : list event) (data : nat → list Z) : Prop := {
  opened_inode : inode (map s) fs D mem lg;
  opened_codecs : codecs_ok (codecs s);
  opened_bounded : bounded (flash s);
  opened_nodes : ∀ d dn, D !! d = Some dn → 0 < frags dn → ∃ o ri cdata, ref_at s !! raw dn = Some o ∧
    node_at (flash s) o (Frag.dofs dn) (data d) ri cdata ∧ Frag.dsize dn = dsize ri;
  opened_within : ∀ off d, content fs off = Some (Some d) → ∃ dn, D !! d = Some dn ∧ Frag.dofs dn <= off < Frag.dofs dn + Frag.dsize dn }.

(** The file: the byte at each offset; a hole reads as zeroes. *)
Definition byte_at (fs : list cell) (D : gmap nat full_dnode) (data : nat → list Z) (off : Z) : Z :=
  match content fs off with
  | Some (Some d) => match D !! d with Some dn => nth (Z.to_nat (off - Frag.dofs dn)) (data d) 0 | None => 0 end
  | _ => 0
  end.
Definition bytes_at (fs : list cell) D data (off len : Z) : list Z :=
  (λ i, byte_at fs D data (off + Z.of_nat i)) <$> seq 0 (Z.to_nat len).

(** The state after some reading: only the memory and the compressors have changed. *)
Definition only_read (s s' : file) : Prop :=
  fragtree (map s') = fragtree (map s) ∧ frag_at (map s') = frag_at (map s) ∧ dnode_at (map s') = dnode_at (map s) ∧
  marks (map s') = marks (map s) ∧ metadata s' = metadata s ∧ highest_version s' = highest_version s ∧
  ref_at s' = ref_at s ∧ nodes s' = nodes s ∧ flash s' = flash s ∧ space s' = space s.
Lemma only_read_refl (s : file) : only_read s s.
Proof. done. Qed.
Lemma only_read_trans s1 s2 s3 : only_read s1 s2 → only_read s2 s3 → only_read s1 s3.
Proof. unfold only_read. intros. destruct_and!. split_and!; congruence. Qed.

Lemma wp_on_map {A} (m : N A) s (Q : A → file → Prop) : wp m (map s) (λ a f, Q a (with_map f s)) → wp (on_map m) s Q.
Proof. unfold wp, on_map. by destruct (m (map s)) as [[a f]|]. Qed.
Lemma wp_gets {A} (f : file → A) s (Q : A → file → Prop) : Q (f s) s → wp (gets f) s Q.
Proof. done. Qed.
Lemma with_map_same (s : file) : with_map (map s) s = s.
Proof. by destruct s. Qed.

(** One request for memory. *)
Definition drew (mem mem' : list bool) (ok : bool) : Prop := mem = ok :: mem' ∨ mem = [] ∧ mem' = [] ∧ ok = false.
Lemma wp_alloc_memory s fs D mem lg data (Q : bool → file → Prop) :
  opened s fs D mem lg data →
  (∀ ok mem' s', drew mem mem' ok → opened s' fs D mem' lg data → only_read s s' → Q ok s') → wp (on_map alloc) s Q.
Proof.
  intros [[Hs Hc Ht He] Hco Hb Hn Hw] HQ. apply wp_on_map. unfold wp, alloc. pose proof Hs as (Hsh & Hd & Hm & Hl). rewrite Hm.
  destruct mem as [|ok mem].
  - eapply (HQ false []); [by right| |done]. rewrite with_map_same. by split.
  - eapply (HQ ok mem); [by left| |done]. by split; [split|..].
Qed.

(** Enough memory for [n] requests. *)
Definition plenty (n : Z) (mem : list bool) : Prop := n <= Z.of_nat (length mem) ∧ Forall (eq true) mem.
Lemma plenty_drew n mem mem' ok : drew mem mem' ok → plenty n mem → 0 < n → ok = true ∧ plenty (n - 1) mem'.
Proof.
  intros [->|(-> & -> & ->)] [Hl Hall] Hn; [|cbn in Hl; lia]. apply Forall_cons in Hall as [<- Hall].
  split; [done|]. split; [cbn in Hl; lia|done].
Qed.
Lemma plenty_less n k mem : plenty n mem → k <= n → plenty k mem.
Proof. intros [? ?] ?. split; [lia|done]. Qed.
Lemma skip_plenty (n k : Z) mem : k <= n → (plenty n mem → plenty k mem).
Proof. intros. by eapply plenty_less. Qed.

Lemma wp_ref_offset (s : file) r o (Q : Z → file → Prop) : ref_at s !! r = Some o → Q o s → wp (ref_offset r) s Q.
Proof. intros Hr HQ. unfold wp, ref_offset. by rewrite Hr. Qed.
Lemma wp_flash_read s ofs n (Q : Z * list Z → file → Prop) : Q (mtd_read (flash s) ofs n) s → wp (jffs2_flash_read ofs n) s Q.
Proof. done. Qed.
Lemma wp_raw (s : file) fs D mem lg data d dn (Q : nat → file → Prop) :
  opened s fs D mem lg data → D !! d = Some dn → Q (Frag.raw dn) s → wp (on_map (dget Frag.raw (Some d))) s Q.
Proof.
  intros [[Hs _ _ _] _ _ _ _] Hd HQ. apply wp_on_map. eapply wp_dget; [exact Hs|exact Hd|]. by rewrite with_map_same.
Qed.

(** A decompression of the data of a node. *)
Lemma wp_decompress s fs D mem lg data o start b ri cdata (Q : Z * list Z → file → Prop) :
  opened s fs D mem lg data → node_at (flash s) o start b ri cdata → compr ri ≠ JFFS2_COMPR_ZERO →
  (∀ s', opened s' fs D mem lg data → only_read s s' → Q (0, b) s') →
  wp (decompress (Z.lor (compr ri) (usercompr ri <<< 8)) cdata (csize ri) (dsize ri)) s Q.
Proof.
  intros [Hi Hco Hb Hn Hw] Hnode Hc HQ. pose proof (node_data _ _ _ _ _ _ Hnode) as Hd.
  destruct (Z.eqb_spec (compr ri) JFFS2_COMPR_ZERO); [done|]. destruct (Hd _ Hco) as (c' & Hc' & Hrun).
  unfold wp, decompress. rewrite Hrun. apply HQ; [|done]. by split.
Qed.

(** What a read of the header and of the data of a node give, if they succeed. *)
Lemma read_header f o start b ri cdata got :
  node_at f o start b ri cdata → mtd_read f o sizeof_raw_inode = (0, got) → Z.of_nat (length got) = sizeof_raw_inode →
  inode_of_bytes got = ri ∧ inode_crc got = node_crc ri.
Proof.
  intros [Hs Hf Hc _ _ _ _ _ _ _] Hr Hl. pose proof (length_inode_bytes ri) as Hlen.
  rewrite (stored_read _ _ _ 0 sizeof_raw_inode got Hs); [|lia|done|rewrite length_app, Hlen; unfold sizeof_raw_inode; lia|by rewrite Z.add_0_r|done].
  rewrite drop_0. unfold sizeof_raw_inode. change (Z.to_nat 68) with 68%nat. rewrite take_app_length' by done.
  split; [|done]. pose proof (inode_of_bytes_bytes ri [] Hf) as H. by rewrite app_nil_r in H.
Qed.
Lemma read_body f o start b ri cdata got :
  node_at f o start b ri cdata → mtd_read f (o + sizeof_raw_inode) (csize ri) = (0, got) → Z.of_nat (length got) = csize ri → got = cdata.
Proof.
  intros [Hs _ _ _ Hcs _ _ _ _ _] Hr Hl. pose proof (length_inode_bytes ri) as Hlen.
  rewrite (stored_read _ _ _ sizeof_raw_inode (csize ri) got Hs); [|unfold sizeof_raw_inode; lia|lia| |done|done].
  - unfold sizeof_raw_inode. change (Z.to_nat 68) with 68%nat. rewrite drop_app_length' by done. rewrite Hcs, Nat2Z.id. by apply take_ge.
  - rewrite length_app, Hlen. unfold sizeof_raw_inode. lia.
Qed.
(** A slice of a node. *)
Definition slice (b : list Z) (ofs len : Z) : list Z := take (Z.to_nat len) (drop (Z.to_nat ofs) b).
Lemma slice_zeros n ofs len : 0 <= ofs → 0 <= len → ofs + len <= Z.of_nat n → slice (replicate n 0) ofs len = replicate (Z.to_nat len) 0.
Proof. intros. unfold slice. rewrite drop_replicate, take_replicate. f_equal. lia. Qed.
Lemma slice_all b len : len = Z.of_nat (length b) → slice b 0 len = b.
Proof. intros ->. unfold slice. rewrite Nat2Z.id. by apply take_ge. Qed.
Lemma length_slice b ofs len : 0 <= ofs → 0 <= len → ofs + len <= Z.of_nat (length b) → Z.of_nat (length (slice b ofs len)) = len.
Proof. intros. unfold slice. rewrite length_take, length_drop. lia. Qed.

(** An operation that may fail for want of memory or of the flash: it gives [good] or an error. *)
Definition outcome (n : Z) (mem : list bool) (f : F) (ret : Z) (good : Prop) : Prop :=
  ret = 0 ∧ good ∨ ret ≠ 0 ∧ ¬ (plenty n mem ∧ reliable f).
Definition spends (k : Z) (mem mem' : list bool) : Prop := ∀ n, plenty n mem → k <= n → plenty (n - k) mem'.
Lemma spends_drew mem mem' ok : drew mem mem' ok → spends 1 mem mem'.
Proof. intros Hd n Hp Hn. eapply plenty_drew; [exact Hd|exact Hp|lia]. Qed.
Lemma spends_trans j k m1 m2 m3 : spends j m1 m2 → spends k m2 m3 → 0 <= k → spends (j + k) m1 m3.
Proof. intros H1 H2 Hk n Hp Hn. replace (n - (j + k)) with (n - j - k) by lia. apply H2; [apply H1; [done|lia]|lia]. Qed.
Lemma spends_more j k m1 m2 : spends j m1 m2 → j <= k → spends k m1 m2.
Proof. intros H Hk n Hp Hn. eapply plenty_less; [apply (H n Hp); lia|lia]. Qed.
Lemma spends_none mem : spends 0 mem mem.
Proof. intros n Hp _. by rewrite Z.sub_0_r. Qed.
Lemma failed_draw n mem mem' f : drew mem mem' false → 0 < n → ¬ (plenty n mem ∧ reliable f).
Proof. intros Hd Hn [Hp _]. by destruct (plenty_drew _ _ _ _ Hd Hp Hn). Qed.
Lemma failed_read n mem f ofs len ret got :
  mtd_read f ofs len = (ret, got) → 0 <= len → ret ≠ 0 ∨ Z.of_nat (length got) ≠ len → ¬ (plenty n mem ∧ reliable f).
Proof. intros Hr Hl Hne [_ Hf]. destruct (Hf ofs len Hl) as (got' & Hg & Hlen). rewrite Hr in Hg. injection Hg as -> ->. by destruct Hne. Qed.

(** What the reading of a node has to establish. *)
Definition node_read s fs D mem lg data b ofs len (Q : Z * list Z → file → Prop) : Prop :=
  ∀ ret out mem' s', opened s' fs D mem' lg data → only_read s s' → spends 3 mem mem' →
    outcome 3 mem (flash s) ret (out = slice b ofs len) → Q (ret, out) s'.

Section ReadNode.
Context (s : file) (fs : list cell) (D : gmap nat full_dnode) (mem : list bool) (lg : list event) (data : nat → list Z).
Context (o start : Z) (b : list Z) (ri : raw_inode) (cdata buf : list Z) (ofs len : Z) (Q : Z * list Z → file → Prop).
Context (Hlen : 0 <= len) (Hofs : 0 <= ofs) (Hin : ofs + len <= Z.of_nat (length b)) (Hbuf : Z.of_nat (length buf) = len).
Context (Hnode : node_at (flash s) o start b ri cdata) (Hnonzero : compr ri ≠ JFFS2_COMPR_ZERO).

Lemma wp_node_alloc (skip : bool) s1 mem1 (R : bool → file → Prop) :
  opened s1 fs D mem1 lg data →
  (∀ ok mem2 s2, opened s2 fs D mem2 lg data → only_read s1 s2 → spends 1 mem1 mem2 →
     (ok = false → ∀ n f, 0 < n → ¬ (plenty n mem1 ∧ reliable f)) → R ok s2) →
  wp (if skip then mret true else on_map alloc) s1 R.
Proof.
  intros Ho HR. destruct skip.
  - apply wp_ret. eapply HR; [exact Ho|done| |done]. eapply spends_more; [apply spends_none|lia].
  - eapply wp_alloc_memory; [exact Ho|]. intros ok mem2 s2 Hd Ho2 Hr. eapply HR; [exact Ho2|exact Hr|by eapply spends_drew|].
    intros -> n f Hn. by eapply failed_draw.
Qed.
Lemma wp_read_data_after s1 mem1 got :
  opened s1 fs D mem1 lg data → only_read s s1 → spends 3 mem mem1 → got = cdata →
  node_read s fs D mem lg data b ofs len Q →
  let direct := (compr ri =? JFFS2_COMPR_NONE) && (len =? dsize ri) in
  let partial := negb (compr ri =? JFFS2_COMPR_NONE) && (len <? dsize ri) in
  let buf' := if direct then got ++ drop (length got) buf else buf in
  wp ('(ret, data) ←
        (if negb (compr ri =? JFFS2_COMPR_NONE)
         then decompress (Z.lor (compr ri) (usercompr ri <<< 8)) got (csize ri) (dsize ri)
         else mret (0, got));
      let out := if (compr ri =? JFFS2_COMPR_NONE) || partial then buf' else data ++ drop (length data) buf' in
      if truthy ret then mret (ret, out)
      else if len <? dsize ri
      then
        if (0 <=? ofs) && (ofs + len <=? Z.of_nat (length data))
        then mret (0, take (Z.to_nat len) (drop (Z.to_nat ofs) data)) else fault
      else mret (0, out)) s1 Q.
Proof.
  intros Ho Hr Hsp -> HQ direct partial buf'. pose proof (node_dsize _ _ _ _ _ _ Hnode) as Hds.
  assert (∀ s2 d, opened s2 fs D mem1 lg data → only_read s1 s2 → d = b →
    wp (let out := if (compr ri =? JFFS2_COMPR_NONE) || partial then buf' else d ++ drop (length d) buf' in
      if truthy 0 then mret (0, out)
      else if len <? dsize ri
      then if (0 <=? ofs) && (ofs + len <=? Z.of_nat (length d)) then mret (0, take (Z.to_nat len) (drop (Z.to_nat ofs) d)) else fault
      else mret (0, out)) s2 Q) as Hend.
  { intros s2 d Ho2 Hr2 ->. cbv zeta. change (truthy 0) with false. cbv iota. destruct (Z.ltb_spec len (dsize ri)).
    - rewrite (proj2 (Z.leb_le _ _)), (proj2 (Z.leb_le _ _)) by lia. apply wp_ret. eapply HQ; [exact Ho2|by eapply only_read_trans|exact Hsp|by left].
    - assert (ofs = 0 ∧ len = dsize ri) as [Hz He] by lia. apply wp_ret. eapply HQ; [exact Ho2|by eapply only_read_trans|exact Hsp|left; split; [done|]].
      rewrite Hz, slice_all by lia. unfold partial, buf', direct. rewrite He, Z.eqb_refl.
      destruct (Z.eqb_spec (compr ri) JFFS2_COMPR_NONE) as [Hc|Hc]; cbn [andb orb negb].
      + rewrite (node_plain _ _ _ _ _ _ Hnode Hc), drop_ge, app_nil_r by lia. done.
      + rewrite drop_ge, app_nil_r by lia. done. }
  apply wp_bind. destruct (Z.eqb_spec (compr ri) JFFS2_COMPR_NONE) as [Hc|Hc]; cbn [negb].
  - apply wp_ret. eapply Hend; [exact Ho|done|by eapply node_plain].
  - eapply wp_decompress; [exact Ho| |done|].
    + destruct Hr as (_ & _ & _ & _ & _ & _ & _ & _ & -> & _). exact Hnode.
    + intros s2 Ho2 Hr2. by eapply Hend.
Qed.

Lemma failed_later k mem1 n f : spends k mem mem1 → k + n <= 3 → 0 <= n → ¬ (plenty n mem1 ∧ reliable f) → ¬ (plenty 3 mem ∧ reliable f).
Proof. intros Hs Hk Hn Hno [Hp Hf]. apply Hno. split; [|done]. eapply plenty_less; [apply (Hs 3 Hp); lia|lia]. Qed.

Lemma wp_read_dnode_data s1 mem1 :
  opened s1 fs D mem1 lg data → only_read s s1 → spends 1 mem mem1 → node_read s fs D mem lg data b ofs len Q →
  wp (read_dnode_data ri o (dsize ri) (csize ri) buf ofs len) s1 Q.
Proof.
  intros Ho Hr Hsp HQ. unfold read_dnode_data.
  assert (∀ ret out mem2 s2, opened s2 fs D mem2 lg data → only_read s s2 → spends 3 mem mem2 → ret ≠ 0 →
    ¬ (plenty 3 mem ∧ reliable (flash s)) → Q (ret, out) s2) as Herr.
  { intros ret out mem2 s2 Ho2 Hr2 Hs2 Hne Hno. eapply HQ; [exact Ho2|exact Hr2|exact Hs2|by right]. }
  apply wp_bind. eapply wp_node_alloc; [exact Ho|]. intros ok mem2 s2 Ho2 Hr2 Hs2 Hno.
  assert (spends 2 mem mem2) as Hsp2 by (by apply (spends_trans 1 1 _ mem1)).
  pose proof (only_read_trans _ _ _ Hr Hr2) as Hr02. destruct ok; cbn [negb].
  2:{ apply wp_ret. eapply Herr; [exact Ho2|exact Hr02|by apply (spends_more 2)|done|]. eapply (failed_later 1 mem1 1); [exact Hsp|lia..|by apply Hno]. }
  apply wp_bind.
  eapply wp_node_alloc; [exact Ho2|]. intros ok mem3 s3 Ho3 Hr3 Hs3 Hno3.
  assert (spends 3 mem mem3) as Hsp3 by (by apply (spends_trans 2 1 _ mem2)).
  pose proof (only_read_trans _ _ _ Hr02 Hr3) as Hr03. destruct ok; cbn [negb].
  2:{ apply wp_ret. eapply Herr; [exact Ho3|exact Hr03|done|done|]. eapply (failed_later 2 mem2 1); [exact Hsp2|lia..|by apply Hno3]. }
  apply wp_bind, wp_flash_read. assert (flash s3 = flash s) as -> by apply Hr03.
  destruct (mtd_read (flash s) (o + sizeof_raw_inode) (csize ri)) as [ret got] eqn:Hread.
  pose proof (node_csize _ _ _ _ _ _ Hnode) as Hcs. pose proof (node_dsize _ _ _ _ _ _ Hnode) as Hds.
  assert (Z.of_nat (length got) <= csize ri) as Hgot.
  { pose proof (opened_bounded _ _ _ _ _ _ Ho3 (o + sizeof_raw_inode) (csize ri) ltac:(lia)) as Hb.
    assert (flash s3 = flash s) as Hf by apply Hr03. rewrite Hf, Hread in Hb. exact Hb. }
  destruct ((compr ri =? JFFS2_COMPR_NONE) && (len =? dsize ri) && (len <? Z.of_nat (length got))) eqn:Hover.
  { exfalso. apply andb_true_iff in Hover as [[Hc%Z.eqb_eq Hl%Z.eqb_eq]%andb_true_iff Hlt%Z.ltb_lt].
    pose proof (node_plain _ _ _ _ _ _ Hnode Hc) as ->. lia. }
  pose proof (λ k, failed_read k mem _ _ _ _ _ Hread ltac:(lia)) as Hfail.
  set (ret' := if negb (truthy ret) && _ then _ else ret). destruct (truthy ret') eqn:Hret.
  { apply wp_ret. eapply Herr; [exact Ho3|exact Hr03|done|by apply truthy_spec|]. apply Hfail.
    destruct (truthy ret) eqn:Hz; [left; by apply truthy_spec|right]. unfold ret' in Hret. cbn [negb andb] in Hret.
    destruct (Z.eqb_spec (Z.of_nat (length got)) (csize ri)); [|done]. cbn in Hret. congruence. }
  assert (ret = 0 ∧ Z.of_nat (length got) = csize ri) as [Hr0 Hl0].
  { unfold ret' in Hret. destruct (truthy ret) eqn:Hz; [cbn in Hret; congruence|]. apply truthy_false in Hz. split; [done|].
    destruct (Z.eqb_spec (Z.of_nat (length got)) (csize ri)); [done|]. by cbn in Hret. }
  rewrite Hr0 in Hread. pose proof (read_body _ _ _ _ _ _ _ Hnode Hread Hl0) as ->.
  rewrite (node_data_checked _ _ _ _ _ _ Hnode), Z.eqb_refl. cbn [negb]. by eapply (wp_read_data_after s3 mem3 cdata).
Qed.
End ReadNode.

Lemma wp_read_dnode s fs D mem lg data d dn buf ofs len (Q : Z * list Z → file → Prop) :
  opened s fs D mem lg data → D !! d = Some dn → 0 < frags dn → 0 <= ofs → 0 <= len → ofs + len <= Frag.dsize dn → Z.of_nat (length buf) = len →
  node_read s fs D mem lg data (data d) ofs len Q → wp (jffs2_read_dnode (Some d) buf ofs len) s Q.
Proof.
  intros Ho Hd Hfr Hofs Hlen Hin Hbuf HQ. destruct (opened_nodes _ _ _ _ _ _ Ho d dn Hd Hfr) as (o & ri & cdata & Hraw & Hnode & Hsize).
  pose proof (node_dsize _ _ _ _ _ _ Hnode) as Hds. pose proof (node_filled _ _ _ _ _ _ Hnode) as Hpos.
  unfold jffs2_read_dnode. apply wp_bind. eapply wp_alloc_memory; [exact Ho|]. intros ok mem1 s1 Hdrew Ho1 Hr1.
  assert (spends 3 mem mem1) as Hsp by (eapply spends_more; [by eapply spends_drew|lia]). destruct ok; cbn [negb].
  2:{ apply wp_ret. eapply HQ; [exact Ho1|exact Hr1|exact Hsp|right; split; [done|by eapply failed_draw]]. }
  apply wp_bind. eapply wp_raw; [exact Ho1|exact Hd|]. assert (ref_at s1 = ref_at s ∧ flash s1 = flash s) as [Hre Hfl] by (split; apply Hr1).
  apply wp_bind. eapply wp_ref_offset; [by rewrite Hre|]. apply wp_bind, wp_flash_read. rewrite Hfl.
  destruct (mtd_read (flash s) o sizeof_raw_inode) as [ret got] eqn:Hread. pose proof (λ k, failed_read k mem _ _ _ _ _ Hread ltac:(done)) as Hfail.
  destruct (truthy ret) eqn:Hret.
  { apply wp_ret. eapply HQ; [exact Ho1|exact Hr1|exact Hsp|right]. apply truthy_spec in Hret. split; [done|]. apply Hfail. by left. }
  destruct (Z.eqb_spec (Z.of_nat (length got)) sizeof_raw_inode) as [Hl|Hl]; cbn [negb].
  2:{ apply wp_ret. eapply HQ; [exact Ho1|exact Hr1|exact Hsp|right; split; [done|apply Hfail; by right]]. }
  apply truthy_false in Hret. rewrite Hret in Hread. destruct (read_header _ _ _ _ _ _ _ Hnode Hread Hl) as [-> ->].
  rewrite Z.eqb_refl. cbn [negb]. assert (truthy (dsize ri) = true) as -> by (apply truthy_spec; lia).
  rewrite andb_false_r. cbn [andb]. destruct (Z.eqb_spec (compr ri) JFFS2_COMPR_ZERO) as [Hz|Hz].
  - apply wp_ret. eapply HQ; [exact Ho1|exact Hr1|exact Hsp|left; split; [done|]].
    pose proof (node_data _ _ _ _ _ _ Hnode) as Hdata. rewrite Hz in Hdata. cbn in Hdata. rewrite Hdata. symmetry. apply slice_zeros; lia.
  - eapply (wp_read_dnode_data s fs D mem lg data o _ (data d) ri cdata);
      first [exact Hnode|exact Hz|exact Ho1|exact Hr1|exact HQ|by eapply spends_drew|lia].
Qed.

(** ** Ranges *)

Lemma formed_offset ri : well_formed ri → 0 <= offset ri.
Proof. intros H. pose proof (Forall2_lookup_lr _ _ _ 13 _ _ H eq_refl eq_refl) as [? _]. done. Qed.

Lemma wp_map_fget {A} (f : node_frag → A) s fs D mem lg data x v (Q : A → file → Prop) :
  opened s fs D mem lg data → (x, v) ∈ fs → Q (f v) s → wp (on_map (fget f (Some x))) s Q.
Proof.
  intros [[Hs _ _ _] _ _ _ _] Hx HQ. apply wp_on_map. eapply wp_fget; [exact Hs|by rewrite app_nil_r|]. by rewrite with_map_same.
Qed.
Lemma wp_map_dget {A} (f : full_dnode → A) s fs D mem lg data d dn (Q : A → file → Prop) :
  opened s fs D mem lg data → D !! d = Some dn → Q (f dn) s → wp (on_map (dget f (Some d))) s Q.
Proof.
  intros [[Hs _ _ _] _ _ _ _] Hd HQ. apply wp_on_map. eapply wp_dget; [exact Hs|exact Hd|]. by rewrite with_map_same.
Qed.
Lemma wp_map_next s fs1 x f fs2 D mem lg data (Q : ptr → file → Prop) :
  opened s (fs1 ++ (x, f) :: fs2) D mem lg data → Q (head fs2.*1) s → wp (on_map (frag_next (Some x))) s Q.
Proof.
  intros [[Hs _ _ _] _ _ _ _] HQ. apply wp_on_map. eapply wp_frag_next; [exact Hs|]. by rewrite with_map_same.
Qed.
Lemma wp_map_lookup s fs D mem lg data offset (Q : ptr → file → Prop) :
  opened s fs D mem lg data → 0 <= offset → (∀ q, found fs offset q → Q q s) → wp (on_map (jffs2_lookup_node_frag offset)) s Q.
Proof.
  intros [[Hs _ Ht He] _ _ _ _] Ho HQ. apply wp_on_map. eapply wp_lookup; [exact Hs|exact Ho|exact Ht|exact He|].
  intros q Hq. rewrite with_map_same. by apply HQ.
Qed.

Lemma content_at fs1 x f fs2 off :
  tiled 0 (fs1 ++ (x, f) :: fs2) → ofs f <= off < ofs f + size f → content (fs1 ++ (x, f) :: fs2) off = Some (node f).
Proof.
  intros (H1 & Ho & Hs & H2)%tiled_app Hoff. rewrite content_app, (content_outside 0 fs1) by (done || lia). cbn.
  by rewrite (proj2 (Z.leb_le _ _)), (proj2 (Z.ltb_lt _ _)) by lia.
Qed.
Lemma frag_within s fs1 x f fs2 D mem lg data d :
  opened s (fs1 ++ (x, f) :: fs2) D mem lg data → node f = Some d →
  ∃ dn, D !! d = Some dn ∧ 0 < frags dn ∧ Frag.dofs dn <= ofs f ∧ ofs f + size f <= Frag.dofs dn + Frag.dsize dn.
Proof.
  intros [[_ Hc Ht _] _ _ _ Hw] Hn. pose proof (tiled_range _ _ x f Ht ltac:(set_solver)) as (H0 & Hs & _).
  destruct (Hw (ofs f) d) as (dn & Hd & H1); [by rewrite (content_at _ x f), Hn by (done || lia)|].
  destruct (Hw (ofs f + size f - 1) d) as (dn' & Hd' & H2); [by rewrite (content_at _ x f), Hn by (done || lia)|].
  assert (dn' = dn) as -> by congruence. exists dn. split; [done|].
  rewrite (proj2 Hc _ _ Hd). split; [|lia]. eapply (count_positive d _ x f); [set_solver|exact Hn].
Qed.

Lemma length_bytes_at fs D data off len : length (bytes_at fs D data off len) = Z.to_nat len.
Proof. unfold bytes_at. by rewrite length_fmap, length_seq. Qed.
Lemma bytes_at_lookup fs D data off len i :
  bytes_at fs D data off len !! i = if decide (i < Z.to_nat len)%nat then Some (byte_at fs D data (off + Z.of_nat i)) else None.
Proof.
  unfold bytes_at. rewrite list_lookup_fmap. destruct (decide _) as [Hi|Hi].
  - by rewrite (lookup_seq_lt _ _ _ Hi).
  - by rewrite lookup_seq_ge by lia.
Qed.
Lemma bytes_at_split fs D data off k len : 0 <= k <= len → bytes_at fs D data off len = bytes_at fs D data off k ++ bytes_at fs D data (off + k) (len - k).
Proof.
  intros Hk. apply list_eq. intros i. destruct (decide (i < Z.to_nat k)%nat) as [Hi|Hi].
  - rewrite lookup_app_l by (rewrite length_bytes_at; lia). rewrite !bytes_at_lookup, !decide_True by lia. done.
  - rewrite lookup_app_r by (rewrite length_bytes_at; lia). rewrite length_bytes_at, !bytes_at_lookup.
    destruct (decide (i < Z.to_nat len)%nat); [rewrite decide_True by lia; do 2 f_equal; lia|by rewrite decide_False by lia].
Qed.
Lemma bytes_at_zeros fs D data off len :
  (∀ i, off <= i < off + len → content fs i = Some None ∨ content fs i = None) → bytes_at fs D data off len = replicate (Z.to_nat len) 0.
Proof.
  intros Hz. apply list_eq. intros i. rewrite bytes_at_lookup. destruct (decide _) as [Hi|Hi].
  - rewrite lookup_replicate_2 by done. unfold byte_at. by destruct (Hz (off + Z.of_nat i)) as [-> | ->]; [lia|..].
  - symmetry. apply lookup_ge_None. rewrite length_replicate. lia.
Qed.
Lemma bytes_at_slice fs D data off len d dn :
  D !! d = Some dn → Frag.dofs dn <= off → off + len <= Frag.dofs dn + Z.of_nat (length (data d)) →
  (∀ i, off <= i < off + len → content fs i = Some (Some d)) → bytes_at fs D data off len = slice (data d) (off - Frag.dofs dn) len.
Proof.
  intros Hd Ho Hl Hc. apply list_eq. intros i. rewrite bytes_at_lookup. unfold slice. destruct (decide _) as [Hi|Hi].
  - rewrite lookup_take_lt by lia. rewrite lookup_drop. unfold byte_at. rewrite Hc, Hd by lia.
    destruct (data d !! (Z.to_nat (off - Frag.dofs dn) + i)%nat) as [v|] eqn:Hv; [|apply lookup_ge_None in Hv; lia].
    rewrite (nth_lookup_Some _ _ _ v); [done|]. rewrite <-Hv. f_equal. lia.
  - rewrite lookup_take_ge; [done|]. lia.
Qed.

(** Where the loop stands: at the fragment that holds the offset, at the end of the last one, or past it. *)
Definition stands (fs1 rest : list cell) (off : Z) : Prop :=
  match rest with
  | [] => extent 0 fs1 <= off
  | (x, f) :: rest' => ofs f <= off ∧ (off < ofs f + size f ∨ rest' = [] ∧ off = ofs f + size f)
  end.
Definition steps_left (rest : list cell) (off e : Z) : Z :=
  e - off + match rest with [] => 1 | (x, f) :: _ => if off <? ofs f + size f then 1 else 2 end.
Lemma stands_next fs1 x f rest off :
  tiled 0 (fs1 ++ (x, f) :: rest) → off = ofs f + size f → stands (fs1 ++ [(x, f)]) rest off.
Proof.
  intros (H1 & Ho & Hs & H2)%tiled_app ->. destruct rest as [|[y g] rest]; cbn in *.
  - rewrite extent_app. cbn. lia.
  - destruct H2 as (? & ? & _). lia.
Qed.
Lemma steps_left_next fs1 x f rest off e :
  tiled 0 (fs1 ++ (x, f) :: rest) → off = ofs f + size f → steps_left rest off e <= e - off + 1.
Proof.
  intros (H1 & Ho & Hs & H2)%tiled_app ->. unfold steps_left. destruct rest as [|[y g] rest]; [lia|].
  destruct H2 as (? & ? & _). rewrite (proj2 (Z.ltb_lt _ _)) by lia. lia.
Qed.

Definition range_read s fs D mem lg data off e n (Q : Z * list Z → file → Prop) : Prop :=
  ∀ ret out mem' s', opened s' fs D mem' lg data → only_read s s' → spends n mem mem' →
    outcome n mem (flash s) ret (out = bytes_at fs D data off (e - off)) → Q (ret, out) s'.
Definition reads_on (n : Z) fs D lg data e (fuel : nat) : Prop :=
  ∀ s fs1 rest mem buf off Q, fs = fs1 ++ rest → opened s fs D mem lg data → 0 <= off → off <= e → e < 2 ^ 32 →
    stands fs1 rest off → steps_left rest off e <= Z.of_nat fuel → Z.of_nat (length buf) = e - off →
    range_read s fs D mem lg data off e n Q → wp (read_range fuel (head rest.*1) buf off e) s Q.

(** One round that gives [k] bytes after [spent] requests for memory. *)
Lemma range_step n fuel fs D lg data e s s1 mem mem1 fs1 rest buf off k out1 Q :
  reads_on n fs D lg data e fuel → fs = fs1 ++ rest → opened s1 fs D mem1 lg data → only_read s s1 → spends 3 mem mem1 →
  0 <= k → 0 <= off → off + k <= e → e < 2 ^ 32 → stands fs1 rest (off + k) → steps_left rest (off + k) e <= Z.of_nat fuel →
  Z.of_nat (length buf) = e - off → 0 <= n → out1 = bytes_at fs D data off k →
  range_read s fs D mem lg data off e (3 + n) Q →
  wp ('(ret, rest) ← read_range fuel (head rest.*1) (drop (Z.to_nat k) buf) (off + k) e; mret (ret, out1 ++ rest)) s1 Q.
Proof.
  intros Hloop Hfs Ho Hr Hsp Hk Hoff Hke He Hst Hsteps Hbuf Hn -> HQ. apply wp_bind.
  eapply Hloop; [exact Hfs|exact Ho|lia..|exact Hst|exact Hsteps|rewrite length_drop; lia|].
  intros ret out mem2 s2 Ho2 Hr2 Hsp2 Hout. apply wp_ret. eapply HQ; [exact Ho2|by eapply only_read_trans|by eapply spends_trans|].
  assert (flash s1 = flash s) as Hf by apply Hr. rewrite Hf in Hout. destruct Hout as [[-> ->]|[Hne Hno]].
  - left. split; [done|]. rewrite (bytes_at_split _ _ _ off k (e - off)) by lia. do 2 f_equal. lia.
  - right. split; [done|]. intros [Hp Hrel]. apply Hno. split; [|done]. eapply plenty_less; [apply (Hsp _ Hp); lia|lia].
Qed.

Lemma spends_zero mem : spends 3 mem mem.
Proof. eapply spends_more; [apply spends_none|lia]. Qed.
(** The last round fills what lies past the last fragment. *)
Lemma range_past n fuel fs D lg data e s mem fs1 buf off Q :
  reads_on n fs D lg data e fuel → fs = fs1 → opened s fs D mem lg data → 0 <= off → off < e → e < 2 ^ 32 → extent 0 fs1 <= off →
  e - off + 1 <= Z.of_nat (S fuel) → Z.of_nat (length buf) = e - off → 0 <= n → range_read s fs D mem lg data off e (3 + n) Q →
  wp (read_range (S fuel) None buf off e) s Q.
Proof.
  intros Hloop -> Ho Hoff Hlt He Hext Hfuel Hbuf Hn HQ. cbn [read_range non_null negb orb]. rewrite (proj2 (Z.ltb_lt _ _)) by done.
  apply wp_bind, wp_ret. rewrite (u32_small (e - off)) by lia. replace (off + (e - off)) with e by lia. rewrite (u32_small e) by lia.
  pose proof (inode_tiled _ _ _ _ _ (opened_inode _ _ _ _ _ _ Ho)) as Ht.
  pose proof (range_step n fuel fs1 D lg data e s s mem mem fs1 [] buf off (e - off) (replicate (Z.to_nat (e - off)) 0) Q) as Hstep.
  replace (off + (e - off)) with e in Hstep by lia. apply Hstep; [done|by rewrite app_nil_r|done|done|apply spends_zero|lia|lia|lia|lia|cbn; lia|unfold steps_left; lia|lia|lia| |done].
  symmetry. apply bytes_at_zeros. intros j Hj. right. eapply content_outside; [exact Ht|lia].
Qed.
(** A round at a hole. *)
Lemma range_hole n fuel fs D lg data e s mem fs1 x f rest buf off Q :
  reads_on n fs D lg data e fuel → fs = fs1 ++ (x, f) :: rest → opened s fs D mem lg data → 0 <= off → off < e → e < 2 ^ 32 →
  stands fs1 ((x, f) :: rest) off → steps_left ((x, f) :: rest) off e <= Z.of_nat (S fuel) → Z.of_nat (length buf) = e - off → 0 <= n →
  node f = None → range_read s fs D mem lg data off e (3 + n) Q →
  wp (let holeend := Z.min e (u32 (ofs f + size f)) in
      let holesize := u32 (holeend - off) in
      next ← on_map (frag_next (Some x));
      '(ret, rest) ← read_range fuel next (drop (Z.to_nat holesize) buf) holeend e;
      mret (ret, replicate (Z.to_nat holesize) 0 ++ rest)) s Q.
Proof.
  intros Hloop Hfs Ho Hoff Hlt He [Hst1 Hst2] Hsteps Hbuf Hn Hnode HQ.
  pose proof (opened_inode _ _ _ _ _ _ Ho) as [_ _ Ht Hext]. rewrite Hfs in Ht, Hext.
  pose proof (tiled_range _ _ x f Ht ltac:(set_solver)) as Hrange. rewrite (u32_small (ofs f + size f)) by lia. cbv zeta.
  remember (Z.min e (ofs f + size f) - off) as k eqn:Hkdef. assert (0 <= k) as Hk by lia. rewrite (u32_small k) by lia.
  replace (Z.min e (ofs f + size f)) with (off + k) by lia.
  apply wp_bind. rewrite Hfs in Ho. eapply wp_map_next; [exact Ho|]. rewrite <-Hfs in Ho.
  assert (bytes_at fs D data off k = replicate (Z.to_nat k) 0) as Hz.
  { apply bytes_at_zeros. intros j Hj. left. rewrite Hfs, <-Hnode. apply content_at; [done|lia]. }
  unfold steps_left in Hsteps. assert (e - off + 1 <= Z.of_nat (S fuel)) as Hfuel by (destruct (off <? ofs f + size f); lia). destruct (decide (off + k = e)) as [Hend|Hend].
  - destruct fuel as [|fuel]; [lia|]. cbn [read_range]. rewrite Hend, Z.ltb_irrefl. apply wp_ret.
    eapply (HQ 0 _ mem s); [done|done|eapply spends_more; [apply spends_none|lia]|left; split; [done|]].
    rewrite drop_ge, app_nil_r, <-Hz by lia. f_equal. lia.
  - assert (off + k = ofs f + size f) as Hnext by lia. eapply (range_step n fuel fs D lg data e s s mem mem (fs1 ++ [(x, f)]) rest);
      [exact Hloop|by rewrite <-app_assoc|exact Ho|done|apply spends_zero|done|done|lia|done|by apply stands_next| |done|done|done|done].
    rewrite (steps_left_next fs1 x f) by done. revert Hsteps. destruct (Z.ltb_spec off (ofs f + size f)); lia.
Qed.

(** A round at a fragment of a node. *)
Lemma range_node n fuel fs D lg data e s mem fs1 x f d rest buf off Q :
  reads_on n fs D lg data e fuel → fs = fs1 ++ (x, f) :: rest → opened s fs D mem lg data → 0 <= off → off < e → e < 2 ^ 32 →
  stands fs1 ((x, f) :: rest) off → steps_left ((x, f) :: rest) off e <= Z.of_nat (S fuel) → Z.of_nat (length buf) = e - off → 0 <= n →
  node f = Some d → range_read s fs D mem lg data off e (3 + n) Q →
  wp (let fragofs := u32 (off - ofs f) in
      let readlen := Z.min (u32 (size f - fragofs)) (u32 (e - off)) in
      no ← on_map (dget Frag.dofs (Some d));
      '(ret, data) ← jffs2_read_dnode (Some d) (take (Z.to_nat readlen) buf) (u32 (fragofs + ofs f - no)) readlen;
      if truthy ret then mret (ret, replicate (Z.to_nat readlen) 0 ++ drop (Z.to_nat readlen) buf)
      else
        next ← on_map (frag_next (Some x));
        '(ret, rest) ← read_range fuel next (drop (Z.to_nat readlen) buf) (u32 (off + readlen)) e;
        mret (ret, data ++ rest)) s Q.
Proof.
  intros Hloop Hfs Ho Hoff Hlt He [Hst1 Hst2] Hsteps Hbuf Hn Hnode HQ.
  pose proof (opened_inode _ _ _ _ _ _ Ho) as [_ _ Ht Hext]. rewrite Hfs in Ht, Hext.
  pose proof (tiled_range _ _ x f Ht ltac:(set_solver)) as Hrange.
  destruct (frag_within s fs1 x f rest D mem lg data d) as (dn & Hd & Hfr & Hw1 & Hw2); [by rewrite <-Hfs|done|].
  destruct (opened_nodes _ _ _ _ _ _ Ho d dn Hd Hfr) as (o & ri & cdata & _ & Hna & Hsize). pose proof (node_dsize _ _ _ _ _ _ Hna) as Hds.
  assert (0 <= Frag.dofs dn) as Hdofs by (rewrite <-(node_offset _ _ _ _ _ _ Hna); apply (formed_offset ri), Hna).
  cbv zeta. rewrite (u32_small (off - ofs f)), (u32_small (size f - (off - ofs f))), (u32_small (e - off)) by lia.
  remember (Z.min (size f - (off - ofs f)) (e - off)) as k eqn:Hkdef. assert (0 <= k) as Hk by lia.
  apply wp_bind. eapply wp_map_dget; [exact Ho|exact Hd|].
  replace (off - ofs f + ofs f - Frag.dofs dn) with (off - Frag.dofs dn) by lia. rewrite (u32_small (off - Frag.dofs dn)) by lia.
  apply wp_bind. eapply wp_read_dnode; [exact Ho|exact Hd|exact Hfr|lia|exact Hk|lia|rewrite length_take; lia|].
  intros ret out mem1 s1 Ho1 Hr1 Hsp1 [[-> ->]|[Hne Hno]]; cycle 1.
  { apply truthy_spec in Hne. rewrite Hne. apply wp_ret. eapply HQ; [exact Ho1|exact Hr1| |right; split; [by apply truthy_spec|]].
    - eapply spends_more; [exact Hsp1|lia].
    - intros [Hp Hrel]. apply Hno. split; [|done]. eapply plenty_less; [exact Hp|lia]. }
  change (truthy 0) with false. cbv iota. apply wp_bind. rewrite Hfs in Ho1. eapply wp_map_next; [exact Ho1|]. rewrite <-Hfs in Ho1.
  rewrite (u32_small (off + k)) by lia.
  assert (slice (data d) (off - Frag.dofs dn) k = bytes_at fs D data off k) as ->.
  { symmetry. apply bytes_at_slice with (dn := dn); [done|lia|lia|]. intros j Hj. rewrite Hfs, <-Hnode. apply content_at; [done|lia]. }
  unfold steps_left in Hsteps. assert (e - off + 1 <= Z.of_nat (S fuel)) as Hfuel by (destruct (off <? ofs f + size f); lia).
  destruct (decide (off + k = e)) as [Hend|Hend].
  - destruct fuel as [|fuel]; [lia|]. cbn [read_range]. rewrite Hend, Z.ltb_irrefl. apply wp_ret.
    eapply (HQ 0); [exact Ho1|exact Hr1|eapply spends_more; [exact Hsp1|lia]|left; split; [done|]].
    rewrite drop_ge, app_nil_r by lia. f_equal. lia.
  - eapply (range_step n fuel fs D lg data e s s1 mem mem1 (fs1 ++ [(x, f)]) rest);
      [exact Hloop|by rewrite <-app_assoc|exact Ho1|exact Hr1|exact Hsp1|done|done|lia|done|apply stands_next; [done|lia]| |done|done|done|done].
    rewrite (steps_left_next fs1 x f) by (done || lia). revert Hsteps. destruct (Z.ltb_spec off (ofs f + size f)); lia.
Qed.

Lemma reads_on_all n fs D lg data e fuel : 3 * Z.of_nat fuel <= n → reads_on n fs D lg data e fuel.
Proof.
  revert n. induction fuel as [|fuel IH]; intros n Hn s fs1 rest mem buf off Q Hfs Ho Hoff Hle He Hst Hsteps Hbuf HQ.
  { exfalso. unfold steps_left in Hsteps. destruct rest as [|[x f] rest]; [|destruct (_ <? _)]; lia. }
  destruct (Z.ltb_spec off e) as [Hlt|Hge]; cycle 1.
  { cbn [read_range]. rewrite (proj2 (Z.ltb_ge _ _)) by lia. apply wp_ret.
    eapply (HQ 0); [exact Ho|done|eapply spends_more; [apply spends_none|lia]|left; split; [done|]].
    assert (length buf = 0%nat) as Hb by lia. apply nil_length_inv in Hb as ->. replace (e - off) with 0 by lia. done. }
  pose proof (IH (n - 3) ltac:(lia)) as Hloop. replace n with (3 + (n - 3)) in HQ by lia.
  destruct rest as [|[x f] rest]; cbn [fmap list_fmap head].
  - rewrite app_nil_r in Hfs. unfold steps_left in Hsteps.
    eapply (range_past (n - 3) fuel fs); [exact Hloop|exact Hfs|exact Ho|done|done|done|exact Hst|done|done|lia|exact HQ].
  - cbn [read_range fst non_null negb orb]. rewrite (proj2 (Z.ltb_lt _ _)) by done. apply wp_bind.
    eapply (wp_map_fget _ _ _ _ _ _ _ x f); [exact Ho|rewrite Hfs; set_solver|]. pose proof Hst as [Hst1 _].
    rewrite (proj2 (Z.ltb_ge _ _)) by lia. apply wp_bind. eapply (wp_map_fget _ _ _ _ _ _ _ x f); [exact Ho|rewrite Hfs; set_solver|].
    apply wp_bind. eapply (wp_map_fget _ _ _ _ _ _ _ x f); [exact Ho|rewrite Hfs; set_solver|].
    destruct (node f) as [d|] eqn:Hnode; cbn [non_null negb].
    + by eapply (range_node (n - 3) fuel fs); try done; lia.
    + by eapply (range_hole (n - 3) fuel fs); try done; lia.
Qed.

(** [jffs2_read_inode_range], as its callers see it. *)
Lemma wp_read_inode_range s fs D mem lg data buf offset len :
  opened s fs D mem lg data → 0 <= offset → 0 <= len → offset + len < 2 ^ 32 →
  Z.of_nat (length buf) = len → fs = [] ∨ offset <= extent 0 fs →
  wp (jffs2_read_inode_range buf offset len) s (λ a s', ∃ mem', opened s' fs D mem' lg data ∧ only_read s s' ∧
    outcome (3 * (len + 2)) mem (flash s) a.1 (a.2 = bytes_at fs D data offset len)).
Proof.
  intros Ho Hoff Hlen Hend Hbuf Hin.
  unfold jffs2_read_inode_range. apply wp_bind. eapply wp_map_lookup; [exact Ho|done|]. intros q Hq. rewrite u32_small by lia.
  pose proof (opened_inode _ _ _ _ _ _ Ho) as [_ _ Ht _].
  assert (∃ fs1 rest, fs = fs1 ++ rest ∧ q = head rest.*1 ∧ stands fs1 rest offset) as (fs1 & rest & Hfs & -> & Hst).
  { destruct Hq as [(fs1 & x & f & fs2 & -> & -> & Hx)|[Hx ->]]; [exists fs1, ((x, f) :: fs2); split_and!; [done..|split; [lia|left; lia]]|].
    destruct fs as [|[x f] fs _] using rev_ind; [by exists [], []|]. rewrite last_address. exists fs, [(x, f)]. split_and!; [done..|].
    apply tiled_app in Ht as [_ (Hf & Hsz & _)]. destruct Hin as [Hin|Hin]; [by destruct fs|]. rewrite extent_app in *. cbn in *. split; [lia|right; split; [done|lia]]. }
  pose proof (reads_on_all (3 * (len + 2)) fs D lg data (offset + len) (S (S (Z.to_nat len)))) as Hall.
  eapply Hall; [lia|exact Hfs|exact Ho|lia..|exact Hst| |lia|].
  - unfold steps_left. destruct rest as [|[x f] rest]; [|destruct (_ <? _)]; lia.
  - intros ret out mem' s' Ho' Hr _ Hout. exists mem'. split_and!; [done..|]. by replace (offset + len - offset) with len in Hout by lia.
Qed.
End Contents.
