(* ===== verification/Jffs2Write.v ===== *)
(** * Jffs2Write: writing to a file of JFFS2 (fs/jffs2/write.c, writev.c)

    A write changes the bytes of its range and no others, however it is cut into nodes, compressed,
    retried or given up. *)

From S2P Require Import Prelude Rbtree Jffs2Frag Jffs2Rtime Jffs2Rubin Jffs2Compr Crc32 Jffs2Node Jffs2File.

(** What the driver promises about the flash: a read gives no more than was asked for; bytes written in
    full to erased flash are stored; what lies elsewhere stays. *)
Class Lawful (F : Type) `{!Mtd F} : Prop := {
  law_bounded f : bounded f;
  law_program f o b f' : mtd_write f o b = (0, Z.of_nat (length b), f') → stored f o (replicate (length b) 255) → stored f' o b;
  law_elsewhere f o b ret n f' o' b' :
    mtd_write f o b = (ret, n, f') → stored f o' b' →
    o' + Z.of_nat (length b') <= o ∨ o + Z.of_nat (length b) <= o' → stored f' o' b';
  law_retlen f o b ret n f' : mtd_write f o b = (ret, n, f') → 0 <= n <= Z.of_nat (length b) }.

Section Writing.
Import Rb Frag Layout Node.
Context {F : Type} `{!Mtd F} `{!Lawful F}.
Abbreviation cell := (nat * node_frag)%type.
Abbreviation file := (st (F := F)).

(** ** The flash *)

Definition apart (o n : Z) (g : Z * Z * Z) : Prop := g.1.1 = 0 → o + n <= g.1.2 ∨ g.1.2 + g.2 <= o.
Definition blank (f : F) (o : Z) (n : nat) : Prop := stored f o (replicate n 255).
(** The room that [jffs2_reserve_space] grants: erased, and enough for a node with some data. *)
Definition fresh_room (f : F) (g : Z * Z * Z) : Prop :=
  g.1.1 = 0 → 0 <= g.1.2 ∧ sizeof_raw_inode + JFFS2_MIN_DATA_LEN <= g.2 < 2 ^ 32 ∧ blank f g.1.2 (Z.to_nat g.2).
(** The driver never fails on erased flash. *)
Definition durable : Prop := ∀ (f : F) o b, blank f o (length b) → ∃ f', mtd_write f o b = (0, Z.of_nat (length b), f').

Lemma blank_less f o n m : blank f o n → (m ≤ n)%nat → blank f o m.
Proof.
  intros H Hm. unfold blank in *. replace n with (m + (n - m))%nat in H by lia. rewrite replicate_add in H. by apply stored_app in H as [? _].
Qed.
Lemma blank_from f o n k : blank f o n → (k ≤ n)%nat → blank f (o + Z.of_nat k) (n - k).
Proof.
  intros H Hk. unfold blank in *. replace n with (k + (n - k))%nat in H by lia. rewrite replicate_add in H. apply stored_app in H as [_ H].
  by rewrite length_replicate in H.
Qed.
Lemma stored_nil (f : F) o : stored f o [].
Proof. intros ofs n got i v _ _ Hv. by rewrite lookup_nil in Hv. Qed.

(** What a write of [n] bytes at [o] may leave. *)
Definition touched (f f' : F) (o n : Z) : Prop :=
  ∀ o' b', stored f o' b' → o' + Z.of_nat (length b') <= o ∨ o + n <= o' → stored f' o' b'.
Lemma touched_trans f f1 f2 o n1 n2 : 0 <= n1 → 0 <= n2 → touched f f1 o n1 → touched f1 f2 (o + n1) n2 → touched f f2 o (n1 + n2).
Proof. intros ? ? H1 H2 o' b' Hs Ho. apply H2; [apply H1; [done|lia]|lia]. Qed.
Lemma touched_more f f' o n m : touched f f' o n → n <= m → touched f f' o m.
Proof. intros H Hm o' b' Hs Ho. apply H; [done|lia]. Qed.
Lemma fresh_room_touched f f' o n g : touched f f' o n → apart o n g → fresh_room f g → fresh_room f' g.
Proof.
  intros Ht Ha Hg H0. destruct (Hg H0) as (? & Hl & Hb). split_and!; [lia..|]. apply Ht; [exact Hb|].
  rewrite length_replicate. destruct (Ha H0); unfold sizeof_raw_inode, JFFS2_MIN_DATA_LEN in Hl; lia.
Qed.

(** One vector, and the two of a node. *)
Lemma write_vector f o b n ret k f' :
  blank f o n → (length b ≤ n)%nat → mtd_write f o b = (ret, k, f') →
  touched f f' o (Z.of_nat (length b)) ∧ 0 <= k <= Z.of_nat (length b) ∧ (ret = 0 → k = Z.of_nat (length b) → stored f' o b) ∧
  blank f' (o + Z.of_nat (length b)) (n - length b).
Proof.
  intros Hb Hn Hw. assert (touched f f' o (Z.of_nat (length b))) as Ht by (intros o' b' Hs Ho; by eapply law_elsewhere).
  split_and!; [done|by eapply (law_retlen f o b)..| |].
  - intros -> ->. eapply law_program; [exact Hw|by eapply blank_less].
  - apply Ht; [by apply blank_from|lia].
Qed.
Lemma write_vectors f o hdr data ret k f' n :
  hdr ≠ [] → blank f o n → (length hdr + length data ≤ n)%nat →
  mtd_fake_writev f (if Z.of_nat (length data) =? 0 then [hdr] else [hdr; data]) o 0 = (ret, k, f') →
  touched f f' o (Z.of_nat (length hdr + length data)) ∧
  (ret = 0 → k = Z.of_nat (length hdr + length data) → stored f' o (hdr ++ data)) ∧
  (durable → ret = 0 ∧ k = Z.of_nat (length hdr + length data)).
Proof.
  intros Hne Hb Hn. assert (Z.of_nat (length hdr) =? 0 = false) as Hh by (apply Z.eqb_neq; by destruct hdr).
  assert (durable → ∀ f b m o, blank f o m → (length b ≤ m)%nat → ∃ f', mtd_write f o b = (0, Z.of_nat (length b), f')) as Hgood.
  { intros Hd g b m o' Hg Hm. apply Hd. by eapply blank_less. }
  destruct (mtd_write f o hdr) as [[r1 k1] f1] eqn:Hw. destruct (write_vector f o hdr n _ _ _ Hb ltac:(lia) Hw) as (Ht & Hk & Hs & Hb1).
  destruct (Z.eqb_spec (Z.of_nat (length data)) 0) as [Hz|Hz]; cbn [mtd_fake_writev]; rewrite Hh, Hw, Z.add_0_l.
  - assert (data = []) as -> by (by destruct data). rewrite app_nil_r, Nat.add_0_r.
    assert (durable → r1 = 0 ∧ k1 = Z.of_nat (length hdr)) as Hd.
    { intros Hd. destruct (Hgood Hd f hdr n o) as [f2 Hw2]; [done|lia|]. rewrite Hw in Hw2. by injection Hw2 as -> ->. }
    assert (r1 = 0 → k1 = Z.of_nat (length hdr) → (truthy r1 || negb (k1 =? Z.of_nat (length hdr))) = false) as Hok
      by (intros -> ->; by rewrite Z.eqb_refl).
    destruct (truthy r1 || _) eqn:Hbad; intros [= <- <- <-].
    + split_and!; [done|intros H1 H2; pose proof (Hok H1 H2); congruence|exact Hd].
    + apply orb_false_iff in Hbad as [Hr _]. apply truthy_false in Hr. subst r1. split_and!; [done|by apply Hs|intros D; split; [done|by apply Hd]].
  - destruct (Z.eqb_spec k1 (Z.of_nat (length hdr))) as [Hk1|Hk1]; cbn [negb]; rewrite ?orb_true_r, ?orb_false_r; cycle 1.
    { intros [= <- <- <-]. split_and!; [eapply touched_more; [exact Ht|lia]|lia|]. intros Hd. destruct (Hgood Hd f hdr n o) as [f2 Hw2]; [done|lia|].
      rewrite Hw in Hw2. by injection Hw2 as _ ->. }
    destruct (truthy r1) eqn:Hr1.
    { intros [= <- <- <-]. apply truthy_spec in Hr1. split_and!; [eapply touched_more; [exact Ht|lia]|done|]. intros Hd.
      destruct (Hgood Hd f hdr n o) as [f2 Hw2]; [done|lia|]. rewrite Hw in Hw2. by injection Hw2 as -> _. }
    apply truthy_false in Hr1. specialize (Hs Hr1 Hk1). rewrite (proj2 (Z.eqb_neq _ _)) by done.
    destruct (mtd_write f1 _ data) as [[r2 k2] f2] eqn:Hw2.
    destruct (write_vector f1 _ data (n - length hdr) _ _ _ Hb1 ltac:(lia) Hw2) as (Ht2 & Hk2 & Hs2 & _).
    assert (touched f f2 o (Z.of_nat (length hdr + length data))) as Ht12.
    { rewrite Nat2Z.inj_add. eapply touched_trans; [lia|lia|exact Ht|exact Ht2]. }
    assert (stored f2 o hdr) as Hs' by (apply Ht2; [done|lia]).
    assert (durable → r2 = 0 ∧ k2 = Z.of_nat (length data)) as Hd.
    { intros Hd. destruct (Hgood Hd f1 data _ _ Hb1) as [f3 Hw3]; [lia|]. rewrite Hw2 in Hw3. by injection Hw3 as -> ->. }
    destruct (truthy r2 || negb (k2 =? Z.of_nat (length data))) eqn:Hbad; intros [= <- <- <-].
    + split_and!; [done| |].
      * intros -> Hkk. assert (k2 = Z.of_nat (length data)) as -> by lia. by rewrite Z.eqb_refl in Hbad.
      * intros D. destruct (Hd D) as [-> ->]. by rewrite Z.eqb_refl in Hbad.
    + apply orb_false_iff in Hbad as [Hr Hq]. apply truthy_false in Hr. apply negb_false_iff, Z.eqb_eq in Hq. subst r2.
      split_and!; [done| |intros D; split; [done|lia]]. intros _ _. apply stored_app. split; [done|by apply Hs2].
Qed.

(** ** A file that can be written *)

Context (codes : list Compr.jffs2_compressor).

(** The node [d] is on the flash, apart from the room that is still to be granted. *)
Definition node_ok (s : file) (data : nat → list Z) (d : nat) (dn : full_dnode) : Prop :=
  ∃ o ri cdata, ref_at s !! Frag.raw dn = Some o ∧ node_at codes (flash s) o (Frag.dofs dn) (data d) ri cdata ∧
    Frag.dsize dn = Layout.dsize ri ∧ Forall (apart o (sizeof_raw_inode + Z.of_nat (length cdata))) (space s).
Fixpoint rooms_apart (sp : list (Z * Z * Z)) : Prop :=
  match sp with [] => True | g :: sp => (g.1.1 = 0 → Forall (apart g.1.2 g.2) sp) ∧ rooms_apart sp end.
Record writable (s : file) (fs : list cell) (D : gmap nat full_dnode) (mem : list bool) (lg : list event) (data : nat → list Z) : Prop := {
  w_inode : inode (map s) fs D mem lg;
  w_codecs : codecs_ok codes (codecs s);
  w_nodes : ∀ d dn, D !! d = Some dn → 0 < frags dn → node_ok s data d dn;
  w_within : ∀ off d, content fs off = Some (Some d) → ∃ dn, D !! d = Some dn ∧ Frag.dofs dn <= off < Frag.dofs dn + Frag.dsize dn;
  w_room : Forall (fresh_room (flash s)) (space s);
  w_apart : rooms_apart (space s);
  w_metadata : ∀ m, metadata s = Some m → ∃ mn, D !! m = Some mn ∧ frags mn = 0 }.
Lemma writable_opened s fs D mem lg data : writable s fs D mem lg data → opened codes s fs D mem lg data.
Proof.
  intros [Hi Hc Hn Hw _ _ _]. split; [done|done|apply law_bounded| |done].
  intros d dn Hd Hf. destruct (Hn d dn Hd Hf) as (o & ri & cdata & ? & ? & ? & _). by exists o, ri, cdata.
Qed.
Lemma writable_map s m fs D mem mem' lg lg' data : writable s fs D mem lg data → inode m fs D mem' lg' → writable (with_map m s) fs D mem' lg' data.
Proof. by intros [? ? ? ? ? ? ?] Hi; split. Qed.
(** While a room is held, it is as if it was still to be granted. *)
Definition holding (o l : Z) (s : file) fs D mem lg data : Prop := writable (with_space ((0, o, l) :: space s) s) fs D mem lg data.
Lemma holding_writable o l s fs D mem lg data : holding o l s fs D mem lg data → writable s fs D mem lg data.
Proof.
  intros [Hi Hc Hn Hw Hr Ha Hm]. split; [done|done| |done|by apply Forall_cons in Hr as [_ ?]|by destruct Ha|done].
  intros d dn Hd Hf. destruct (Hn d dn Hd Hf) as (o' & ri & cdata & ? & ? & ? & Hap). exists o', ri, cdata. by apply Forall_cons in Hap as [_ ?].
Qed.

Lemma wp_draw_map (m : Frag.st) fs D mem lg (Q : bool → Frag.st → Prop) :
  inode m fs D mem lg → (∀ ok mem' m', drew mem mem' ok → inode m' fs D mem' lg → Q ok m') → wp alloc m Q.
Proof.
  intros [Hs Hc Ht He] HQ. unfold wp, alloc. pose proof Hs as (Hsh & Hd & Hm & Hl). rewrite Hm.
  destruct mem as [|ok mem]; [eapply (HQ false []); [by right|by split]|].
  eapply (HQ ok mem); [by left|]. by split.
Qed.
Lemma wp_draw (s : file) fs D mem lg (Q : bool → file → Prop) :
  inode (map s) fs D mem lg → (∀ ok mem' m, drew mem mem' ok → inode m fs D mem' lg → Q ok (with_map m s)) → wp (on_map alloc) s Q.
Proof. intros Hi HQ. apply wp_on_map. by eapply wp_draw_map. Qed.
Lemma fresh_absent {A} (m : gmap nat A) : m !! fresh (elements (dom m)) = None.
Proof. apply not_elem_of_dom. intros Hin%elem_of_elements. by destruct (infinite_is_fresh (elements (dom m))). Qed.
Lemma known_count D fs d : counted D fs → D !! d = None → count d fs = 0.
Proof.
  intros [Hk _] Hd. induction fs as [|[x f] fs IH]; [done|]. apply Forall_cons in Hk as [Hf Hk]. cbn [count]. rewrite IH by done.
  unfold refers. case_bool_decide as Hn; [|done]. destruct (Hf d Hn). congruence.
Qed.
Lemma counted_new D fs d dn : counted D fs → D !! d = None → frags dn = 0 → counted (<[d := dn]> D) fs.
Proof.
  intros Hc Hd Hf. pose proof Hc as [Hk Hn]. split.
  - eapply Forall_impl; [exact Hk|]. intros [x f] Hx e He. destruct (Hx e He) as [en Hen]. rewrite lookup_insert_ne by congruence. by eexists.
  - intros e en. destruct (decide (d = e)) as [<-|]; [rewrite lookup_insert_eq; intros [= <-]|rewrite lookup_insert_ne by done; apply Hn].
    by rewrite (known_count _ _ _ Hc Hd).
Qed.
Lemma counted_forget D fs d dn : counted D fs → D !! d = Some dn → frags dn = 0 → counted (delete d D) fs.
Proof.
  intros [Hk Hn] Hd Hf. split.
  - rewrite Forall_forall in *. intros [x f] Hin e He. destruct (Hk _ Hin e He) as [en Hen]. destruct (decide (d = e)) as [<-|]; [|rewrite lookup_delete_ne by done; by eexists].
    pose proof (count_positive d fs x f Hin He). rewrite <-(Hn _ _ Hd) in *. lia.
  - intros e en. destruct (decide (d = e)) as [<-|]; [by rewrite lookup_delete_eq|rewrite lookup_delete_ne by done; apply Hn].
Qed.
Lemma inode_dnodes m fs D D' mem lg :
  inode m fs D mem lg → counted D' fs → inode (set_dnodes D' m) fs D' mem lg.
Proof.
  intros [(Hsh & Hd & Hm & Hl) Hc Ht He] Hc'. by split.
Qed.
Lemma wp_alloc_dnode (m : Frag.st) fs D mem lg (Q : ptr → Frag.st → Prop) :
  inode m fs D mem lg →
  (∀ mem' m', drew mem mem' false → inode m' fs D mem' lg → Q None m') →
  (∀ mem' m' fn, drew mem mem' true → D !! fn = None → inode m' fs (<[fn := FullDnode 0 0 0 0]> D) mem' lg → Q (Some fn) m') →
  wp jffs2_alloc_full_dnode m Q.
Proof.
  intros Hi HF HQ. unfold jffs2_alloc_full_dnode. apply wp_bind. eapply wp_draw_map; [exact Hi|].
  intros [] mem' m' Hd Hi'; [|apply wp_ret; by eapply HF]. unfold wp, new_full_dnode.
  assert (dnode_at m' = D) as HD by apply Hi'. pose proof (fresh_absent (dnode_at m')) as Hf. rewrite HD in *.
  eapply HQ; [exact Hd|exact Hf|]. eapply inode_dnodes; [exact Hi'|]. apply counted_new; [apply Hi'|exact Hf|done].
Qed.
Lemma inode_marks m fs D mem lg e :
  inode m fs D mem lg → inode (Frag.St (fragtree m) (frag_at m) (dnode_at m) (memory m) (marks m ++ [e])) fs D mem (lg ++ [e]).
Proof.
  intros [(Hsh & Hd & Hm & Hl) Hc Ht He]. split; [split_and!; [by destruct Hsh|done..|cbn; by rewrite Hl]|done..].
Qed.

(** ** Writing a node *)

Lemma wp_mark_map e (s : file) fs D mem lg (Q : unit → file → Prop) :
  inode (map s) fs D mem lg → (∀ m, inode m fs D mem (lg ++ [e]) → Q tt (with_map m s)) → wp (on_map (mark e)) s Q.
Proof. intros Hi HQ. apply wp_on_map. apply HQ. by apply inode_marks. Qed.
Lemma wp_dput_map f (s : file) fs D mem lg d dn (Q : unit → file → Prop) :
  inode (map s) fs D mem lg → D !! d = Some dn → frags (f dn) = frags dn →
  (∀ m, inode m fs (<[d := f dn]> D) mem lg → Q tt (with_map m s)) → wp (on_map (dput f (Some d))) s Q.
Proof.
  intros [Hs Hc Ht He] Hd Hf HQ. apply wp_on_map. eapply wp_dput; [exact Hs|exact Hd|]. intros m Hm. apply HQ. split; [done| |done..].
  destruct Hc as [Hk Hn]. split.
  - eapply Forall_impl; [exact Hk|]. intros [x g] Hx e Hg. destruct (Hx e Hg) as [en Hen].
    destruct (decide (d = e)) as [<-|]; [rewrite lookup_insert_eq|rewrite lookup_insert_ne by done]; by eexists.
  - intros e en. destruct (decide (d = e)) as [<-|]; [rewrite lookup_insert_eq; intros [= <-]; rewrite Hf|rewrite lookup_insert_ne by done]; by apply Hn.
Qed.
Lemma wp_forget_map (s : file) fs D mem lg d dn (Q : unit → file → Prop) :
  inode (map s) fs D mem lg → D !! d = Some dn → frags dn = 0 →
  (∀ m, inode m fs (delete d D) mem lg → Q tt (with_map m s)) → wp (on_map (jffs2_free_full_dnode (Some d))) s Q.
Proof.
  intros [Hs Hc Ht He] Hd Hf HQ. apply wp_on_map. eapply wp_free_dnode; [exact Hs|exact Hd|]. intros m Hm. apply HQ.
  split; [done|by eapply counted_forget|done..].
Qed.

(** Flash that was written in a room that is given up or filled. *)
Lemma node_ok_step s s' o l data d dn n :
  node_ok (with_space ((0, o, l) :: space s) s) data d dn → touched (flash s) (flash s') o n → n <= l →
  ref_at s' !! Frag.raw dn = ref_at s !! Frag.raw dn → space s' = space s → node_ok s' data d dn.
Proof.
  intros (o' & ri & cdata & Hr & Hn & Hd & Ha) Ht Hl Hr' Hs. exists o', ri, cdata. cbn in *.
  apply Forall_cons in Ha as [Ha Hsp]. rewrite Hr', Hs. split_and!; [done| |done|done].
  destruct Hn as [Hst ? ? ? ? ? ? ? ? ?]. split; try done. apply Ht; [exact Hst|].
  rewrite length_app, length_inode_bytes. destruct (Ha eq_refl); unfold sizeof_raw_inode in *; cbn in *; lia.
Qed.
Lemma rooms_step (f f' : F) o l sp n :
  touched f f' o n → n <= l → Forall (apart o l) sp → Forall (fresh_room f) sp → Forall (fresh_room f') sp.
Proof.
  intros Ht Hl Ha Hr. rewrite Forall_forall in *. intros g Hg. eapply fresh_room_touched; [exact Ht| |by apply Hr].
  intros H0. destruct (Ha g Hg H0); lia.
Qed.

(** A room that was written to: the rest of the file is as it was. *)
Lemma room_used s s' fs D D' mem mem' lg lg' data o l n :
  holding o l s fs D mem lg data → touched (flash s) (flash s') o n → n <= l →
  inode (map s') fs D' mem' lg' → codecs s' = codecs s → space s' = space s → metadata s' = metadata s →
  (∀ d dn, D' !! d = Some dn → 0 < frags dn → D !! d = Some dn ∧ ref_at s' !! Frag.raw dn = ref_at s !! Frag.raw dn) →
  (∀ d dn, D !! d = Some dn → D' !! d = Some dn) → writable s' fs D' mem' lg' data.
Proof.
  intros [Hi Hc Hn Hw Hr Ha Hm] Ht Hl Hi' Hcs Hsp Hmd HD' HD. cbn in *. destruct Ha as [Ha1 Ha2]. split.
  - done.
  - by rewrite Hcs.
  - intros d dn Hd Hf. destruct (HD' d dn Hd Hf) as [Hd0 Href]. by eapply node_ok_step; [eapply Hn| | | |].
  - intros off d Hoff. destruct (Hw off d Hoff) as (dn & Hd & ?). exists dn. by split; [apply HD|].
  - rewrite Hsp. apply Forall_cons in Hr as [_ Hr]. eapply rooms_step; [exact Ht|exact Hl|by apply Ha1|done].
  - by rewrite Hsp.
  - rewrite Hmd. intros m Hmm. destruct (Hm m Hmm) as (mn & ? & ?). exists mn. by split; [apply HD|].
Qed.

Section Attempt.
Context (o l : Z) (s0 : file) (fs : list cell) (D : gmap nat full_dnode) (mem0 : list bool) (lg0 : list event) (data : nat → list Z).
Context (Hold : holding o l s0 fs D mem0 lg0 data).
Context (ri : raw_inode) (cd : list Z) (fn raw : nat) (dn0 : full_dnode).
Context (Hroom : sizeof_raw_inode + Z.of_nat (length cd) <= l) (Hfn : D !! fn = None) (Hraw : ref_at s0 !! raw = None) (Hfr : frags dn0 = 0).

(** The state on the way: the new node and its reference are allocated. *)
Record begun (dn : full_dnode) (s : file) (r : Z) (mem : list bool) (lg : list event) : Prop := {
  begun_inode : inode (map s) fs (<[fn := dn]> D) mem lg;
  begun_flash : flash s = flash s0;
  begun_refs : ref_at s = <[raw := r]> (ref_at s0);
  begun_rest : codecs s = codecs s0 ∧ space s = space s0 ∧ metadata s = metadata s0 }.
Lemma old_ref d dn : D !! d = Some dn → 0 < frags dn → Frag.raw dn ≠ raw.
Proof. intros Hd Hf Hr. destruct (w_nodes _ _ _ _ _ _ Hold d dn Hd Hf) as (o' & ri' & cd' & Href & _). cbn in Href. congruence. Qed.
Lemma begun_writable s f' mem lg m refs :
  codecs s = codecs s0 → space s = space s0 → metadata s = metadata s0 → flash s = f' →
  touched (flash s0) f' o (sizeof_raw_inode + Z.of_nat (length cd)) →
  map s = m → ref_at s = refs → (∀ r, r ≠ raw → refs !! r = ref_at s0 !! r) → inode m fs D mem lg → writable s fs D mem lg data.
Proof.
  intros Hc Hs Hm <- Ht <- <- Hr Hi. eapply room_used; [exact Hold|exact Ht|exact Hroom|exact Hi|done..| |done].
  intros d dn Hd Hf. split; [done|]. apply Hr. by eapply old_ref.
Qed.

Lemma apart_less o' n n' g : apart o' n g → n' <= n → apart o' n' g.
Proof. intros H Hn H0. destruct (H H0); lia. Qed.
Lemma wp_write_once retried s r0 mem lg (Q : raw_inode * option Z → file → Prop) :
  begun dn0 s r0 mem lg → Layout.version ri = highest_version s →
  (∀ s' ret dn lg' refs, ¬ durable → inode (map s') fs (<[fn := dn]> D) mem lg' → frags dn = 0 →
     touched (flash s0) (flash s') o (sizeof_raw_inode + Z.of_nat (length cd)) →
     codecs s' = codecs s0 → space s' = space s0 → metadata s' = metadata s0 → ref_at s' = refs → (∀ r, r ≠ raw → refs !! r = ref_at s0 !! r) →
     Q (ri, Some ret) s') →
  (∀ s' lg', writable s' fs (<[fn := FullDnode raw (Frag.dofs dn0) (Frag.dsize dn0) 0]> D) mem lg' data → ref_at s' !! raw = Some o →
    stored (flash s') o (inode_bytes ri ++ cd) → Forall (apart o (sizeof_raw_inode + Z.of_nat (length cd))) (space s') →
    space s' = space s0 → metadata s' = metadata s0 → Q (ri, None) s') →
  wp (write_once retried ri cd o ALLOC_NORETRY fn raw) s Q.
Proof.
  intros [Hi Hf Hr (Hc & Hs & Hm)] Hv HF HW. unfold write_once. change (ALLOC_NORETRY =? ALLOC_GC) with false. cbn [negb andb].
  apply wp_bind. eapply wp_dput_map; [exact Hi|by apply lookup_insert_eq|done|]. clear Hi. intros m Hi. rewrite insert_insert_eq, Hfr in Hi.
  apply wp_bind. unfold wp at 1. cbn [puts]. apply wp_bind, wp_gets. cbn [highest_version with_refs with_map].
  rewrite Hv, Z.ltb_irrefl. apply wp_bind, wp_ret, wp_bind. unfold wp at 1, jffs2_flash_writev. cbn [flash with_refs with_map].
  destruct (mtd_fake_writev _ _ _ _) as [[ret k] f'] eqn:Hwrite. pose proof (w_room _ _ _ _ _ _ Hold) as [Hg _]%Forall_cons. cbn in Hg.
  destruct (Hg eq_refl) as (Ho & Hl & Hblank). cbn [fst snd] in *. rewrite Hf in Hwrite.
  assert (length (inode_bytes ri) = 68%nat) as Hlen by apply length_inode_bytes.
  assert (inode_bytes ri ≠ []) as Hne by (intros H0; by rewrite H0 in Hlen).
  assert (length (inode_bytes ri) + length cd ≤ Z.to_nat l)%nat as Hfit by (unfold sizeof_raw_inode in *; lia).
  destruct (write_vectors _ _ _ _ _ _ _ (Z.to_nat l) Hne Hblank Hfit Hwrite) as (Ht & Hst & Hdur).
  replace (Z.of_nat (length (inode_bytes ri) + length cd)) with (sizeof_raw_inode + Z.of_nat (length cd)) in * by (unfold sizeof_raw_inode; lia).
  set (dn := FullDnode raw (Frag.dofs dn0) (Frag.dsize dn0) 0) in *.
  destruct (truthy ret || _) eqn:Hbad.
  - assert (¬ durable) as Hno by (intros D0; destruct (Hdur D0) as [-> ->]; by rewrite Z.eqb_refl in Hbad).
    apply wp_bind. destruct (truthy k).
    + apply wp_bind. eapply wp_mark_map; [exact Hi|]. clear Hi. intros m1 Hi. eapply wp_mark_map; [exact Hi|]. clear Hi. intros m2 Hi.
      apply wp_ret. eapply (HF _ _ dn); [exact Hno|exact Hi|done|exact Ht|done..|]. cbn. intros r Hr0. by rewrite lookup_insert_ne, Hr, lookup_insert_ne.
    + unfold wp at 1. cbn [jffs2_free_raw_node_ref puts]. apply wp_ret.
      eapply (HF _ _ dn); [exact Hno|exact Hi|done|exact Ht|done..|]. cbn. intros r Hr0. by rewrite lookup_delete_ne, lookup_insert_ne, Hr, lookup_insert_ne.
  - apply orb_false_iff in Hbad as [Hret Hk]. apply truthy_false in Hret. apply negb_false_iff, Z.eqb_eq in Hk.
    apply wp_bind. eapply wp_mark_map; [exact Hi|]. clear Hi. intros m1 Hi. apply wp_bind. eapply wp_mark_map; [exact Hi|]. clear Hi. intros m2 Hi.
    apply wp_bind. unfold wp at 1. cbn [puts]. apply wp_ret. eapply HW; [|cbn; by apply lookup_insert_eq|by apply Hst| |done|done].
    + eapply room_used; [exact Hold|exact Ht|exact Hroom|exact Hi|done..| |].
      * intros d dn' Hd Hfr'. destruct (decide (d = fn)) as [->|]; [rewrite lookup_insert_eq in Hd; injection Hd as <-; cbn in Hfr'; lia|].
        rewrite lookup_insert_ne in Hd by done. split; [done|]. cbn. pose proof (old_ref _ _ Hd Hfr'). by rewrite lookup_insert_ne, Hr, lookup_insert_ne.
      * intros d dn' Hd. rewrite lookup_insert_ne; [done|]. intros ->. congruence.
    + cbn. rewrite Hs. destruct (w_apart _ _ _ _ _ _ Hold) as [Ha _]. eapply Forall_impl; [by apply Ha|]. intros g Hgap. cbn in Hgap. eapply apart_less; [exact Hgap|lia].
Qed.
End Attempt.

Lemma holding_map o l (s : file) m fs D mem mem' lg lg' data :
  holding o l s fs D mem lg data → inode m fs D mem' lg' → holding o l (with_map m s) fs D mem' lg' data.
Proof. intros H Hi. exact (writable_map _ m _ _ _ _ _ _ _ H Hi). Qed.
Lemma wp_write_dnode ri cd o l s fs D mem lg data (Q : raw_inode * (Z + nat) → file → Prop) :
  holding o l s fs D mem lg data → sizeof_raw_inode + Z.of_nat (length cd) <= l → Layout.version ri = highest_version s →
  (∀ s' e mem' lg', e ≠ 0 → ¬ (plenty 2 mem ∧ durable) → writable s' fs D mem' lg' data → space s' = space s → spends 2 mem mem' →
     Q (ri, inl e) s') →
  (∀ s' fn raw mem' lg', D !! fn = None → spends 2 mem mem' →
     writable s' fs (<[fn := FullDnode raw (Layout.offset ri) (Layout.dsize ri) 0]> D) mem' lg' data → ref_at s' !! raw = Some o →
     stored (flash s') o (inode_bytes ri ++ cd) → Forall (apart o (sizeof_raw_inode + Z.of_nat (length cd))) (space s') →
     space s' = space s → metadata s' ≠ Some fn → Q (ri, inr fn) s') →
  wp (jffs2_write_dnode ri cd o ALLOC_NORETRY) s Q.
Proof.
  intros Hh Hroom Hv HF HW. unfold jffs2_write_dnode, jffs2_alloc_raw_node_ref. apply wp_bind, wp_bind.
  eapply wp_draw; [exact (w_inode _ _ _ _ _ _ Hh)|]. intros ok mem1 m1 Hd1 Hi1. pose proof (holding_map _ _ _ _ _ _ _ _ _ _ _ Hh Hi1) as Hh1.
  pose proof (spends_drew _ _ _ Hd1) as Hs1. destruct ok.
  2:{ apply wp_ret, wp_ret. eapply (HF _ _ mem1 lg); [done| |by eapply holding_writable|done|eapply spends_more; [exact Hs1|lia]].
      intros [Hp _]. by destruct (plenty_drew _ _ _ _ Hd1 Hp). }
  unfold wp at 1. cbn [new_raw_node_ref with_map ref_at]. pose proof (fresh_absent (ref_at s)) as Hraw. set (raw := fresh (elements (dom (ref_at s)))) in *.
  set (s1 := with_refs _ _). apply wp_bind, wp_on_map. eapply wp_alloc_dnode; [exact Hi1| |].
  - intros mem2 m2 Hd2 Hi2. apply wp_bind. unfold wp at 1. cbn [jffs2_free_raw_node_ref puts]. apply wp_ret.
    pose proof (holding_map _ _ _ m2 _ _ _ _ _ _ _ Hh Hi2) as Hh2. eapply (HF _ _ mem2 lg); [done| | |done|].
    + intros [Hp _]. destruct (plenty_drew _ _ _ _ Hd1 Hp) as [_ Hp1]; [lia|]. by destruct (plenty_drew _ _ _ _ Hd2 Hp1).
    + unfold s1. cbn. rewrite delete_insert_id by done. replace (with_refs _ _) with (with_map m2 s) by done. by eapply holding_writable.
    + apply (spends_trans 1 1 _ mem1); [done|by eapply spends_drew|lia].
  - intros mem2 m2 fn Hd2 Hfn Hi2. apply wp_bind. eapply wp_dput_map; [exact Hi2|by apply lookup_insert_eq|done|].
    intros m3 Hi3. rewrite insert_insert_eq in Hi3. cbn [Frag.raw] in Hi3. set (dn0 := FullDnode 0 (Layout.offset ri) (Layout.dsize ri) 0) in *.
    unfold write_attempt. fold (write_attempt (F := F)). change (1 =? 0)%nat with false. change (ALLOC_NORETRY =? ALLOC_NORETRY) with true.
    assert (spends 2 mem mem2) as Hs2 by (apply (spends_trans 1 1 _ mem1); [done|by eapply spends_drew|lia]).
    apply wp_bind. eapply (wp_write_once o l s fs D mem lg data Hh ri cd fn raw dn0 Hroom Hfn Hraw eq_refl); [split; [exact Hi3|done..]|done| |].
    + intros s' ret dn lg' refs Hno Hi' Hfr Ht Hc Hs Hm Hr Hrefs. cbn [snd]. cbv iota beta. apply wp_bind.
      eapply wp_forget_map; [exact Hi'|by apply lookup_insert_eq|exact Hfr|]. intros m4 Hi4. rewrite delete_insert_id in Hi4 by done.
      apply wp_ret. eapply (HF _ _ mem2 lg'); [|by intros [_ ?]| |exact Hs|exact Hs2].
      * destruct (truthy ret) eqn:Hz; [by apply truthy_spec|done].
      * eapply (begun_writable o l s fs D mem lg data Hh cd raw Hroom Hraw); try done; cbn; done.
    + intros s' lg' Hw Hr Hst Ha Hs Hm. cbv iota beta. apply wp_ret. eapply HW; [exact Hfn|exact Hs2|exact Hw|done..|].
      rewrite Hm. intros Hmf. destruct (w_metadata _ _ _ _ _ _ Hh fn Hmf) as (mn & Hmn & _). congruence.
Qed.

(** ** The node in the map of the file *)

Lemma wp_forget (m : Frag.st) fs D mem lg d dn (Q : unit → Frag.st → Prop) :
  state m fs [] D mem lg → D !! d = Some dn → (∀ m' lg', state m' fs [] (delete d D) mem lg' → Q tt m') → wp (forget_node d) m Q.
Proof.
  intros Hs Hd HQ. unfold forget_node. apply wp_bind. eapply wp_dget; [exact Hs|exact Hd|]. apply wp_bind.
  eapply wp_mark; [exact Hs|]. clear Hs. intros m1 Hs. eapply wp_free_dnode; [exact Hs|exact Hd|]. intros m2 Hs2. by eapply HQ.
Qed.
Definition dropped (md : option nat) (D : gmap nat full_dnode) : gmap nat full_dnode := match md with Some m => delete m D | None => D end.
Lemma wp_drop_metadata (s : file) fs D mem lg (Q : unit → file → Prop) :
  state (map s) fs [] D mem lg → (∀ m, metadata s = Some m → is_Some (D !! m)) →
  (∀ m' lg', state m' fs [] (dropped (metadata s) D) mem lg' → Q tt (with_metadata None (with_map m' s))) → wp drop_metadata s Q.
Proof.
  intros Hs Hm HQ. unfold drop_metadata. apply wp_bind, wp_gets. destruct (metadata s) as [m|] eqn:Hmd.
  - destruct (Hm m eq_refl) as [mn Hmn]. apply wp_bind, wp_on_map. eapply wp_forget; [exact Hs|exact Hmn|]. intros m' lg' Hs'. by eapply HQ.
  - apply wp_ret. replace s with (with_metadata None (with_map (map s) s)); [by eapply HQ|]. destruct s. cbn in *. by subst.
Qed.

(** What was written: the bytes [b] from [ofs] on, and nothing else. *)
Definition wrote fs D data (ofs : Z) (b : list Z) fs' D' data' : Prop :=
  (∀ off, 0 <= off → byte_at fs' D' data' off =
     if (ofs <=? off) && (off <? ofs + Z.of_nat (length b)) then nth (Z.to_nat (off - ofs)) b 0 else byte_at fs D data off) ∧
  extent 0 fs' = match b with [] => extent 0 fs | _ => Z.max (extent 0 fs) (ofs + Z.of_nat (length b)) end.
Lemma wrote_nil fs D data ofs : wrote fs D data ofs [] fs D data.
Proof.
  split; [|done]. intros off _. cbn [length Z.of_nat]. rewrite Z.add_0_r.
  destruct (Z.leb_spec ofs off), (Z.ltb_spec off ofs); cbn [andb]; try reflexivity; lia.
Qed.
Lemma wrote_app fs D data ofs b1 fs1 D1 data1 b2 fs2 D2 data2 :
  wrote fs D data ofs b1 fs1 D1 data1 → wrote fs1 D1 data1 (ofs + Z.of_nat (length b1)) b2 fs2 D2 data2 →
  wrote fs D data ofs (b1 ++ b2) fs2 D2 data2.
Proof.
  intros [H1 E1] [H2 E2]. split.
  - intros off Hoff. rewrite H2, H1 by done. rewrite length_app.
    destruct (Z.leb_spec ofs off), (Z.leb_spec (ofs + Z.of_nat (length b1)) off), (Z.ltb_spec off (ofs + Z.of_nat (length b1))),
      (Z.ltb_spec off (ofs + Z.of_nat (length b1) + Z.of_nat (length b2))), (Z.ltb_spec off (ofs + Z.of_nat (length b1 + length b2)));
      cbn [andb]; try lia; try reflexivity; [rewrite app_nth2 by lia; f_equal; lia|by rewrite app_nth1 by lia].
  - rewrite E2, E1. destruct b1 as [|a b1]; [destruct b2; [done|]; cbn [app length]; f_equal; lia|].
    destruct b2 as [|a' b2]; [by rewrite app_nil_r|]. cbn [app]. cbn [length]. rewrite length_app. cbn [length]. lia.
Qed.

(** ** A node takes its place in the file *)

Lemma content_known D fs off d : counted D fs → content fs off = Some (Some d) → ∃ dn, D !! d = Some dn.
Proof. intros Hc (x & f & Hin & Hf)%content_node. exact (counted_known _ _ _ _ Hc Hin d Hf). Qed.
Lemma dropped_some md D d (dn : full_dnode) : dropped md D !! d = Some dn → D !! d = Some dn ∧ md ≠ Some d.
Proof.
  destruct md as [m|]; cbn; [|by intros ->]. intros [Hne Hd]%lookup_delete_Some. split; [done|congruence].
Qed.
Lemma counted_dropped md D fs :
  counted D fs → (∀ m, md = Some m → ∃ mn, D !! m = Some mn ∧ frags mn = 0) → counted (dropped md D) fs.
Proof. destruct md as [m|]; [|done]. intros Hc Hm. destruct (Hm m eq_refl) as (mn & Hmn & Hf). by eapply counted_forget. Qed.
Lemma dropped_node md D fs off d :
  counted D fs → (∀ m, md = Some m → ∃ mn, D !! m = Some mn ∧ frags mn = 0) → content fs off = Some (Some d) →
  dropped md D !! d = D !! d.
Proof.
  intros Hc Hm Hd. destruct (content_known _ _ _ _ (counted_dropped _ _ _ Hc Hm) Hd) as [dn Hdn].
  rewrite Hdn. symmetry. by apply (dropped_some md).
Qed.
Lemma byte_at_dropped md D fs data off :
  counted D fs → (∀ m, md = Some m → ∃ mn, D !! m = Some mn ∧ frags mn = 0) →
  byte_at fs (dropped md D) data off = byte_at fs D data off.
Proof. intros Hc Hm. unfold byte_at. destruct (content fs off) as [[d|]|] eqn:Hd; try done. by rewrite (dropped_node _ _ _ _ _ Hc Hm Hd). Qed.
Lemma evolves_back D D' es d dn' :
  evolves D D' es → D' !! d = Some dn' → ∃ dn, D !! d = Some dn ∧ Frag.raw dn' = Frag.raw dn ∧ Frag.dofs dn' = Frag.dofs dn ∧
    Frag.dsize dn' = Frag.dsize dn ∧ (0 < frags dn ↔ 0 < frags dn').
Proof.
  intros (H1 & _ & H3) Hd. destruct (D !! d) as [dn|] eqn:HD; [|rewrite (H3 _ HD) in Hd; done].
  specialize (H1 _ _ HD). rewrite Hd in H1. by exists dn.
Qed.
(** A node without fragments stays one. *)
Lemma evolves_idle D D' es fs d dn :
  evolves D D' es → counted D' fs → D !! d = Some dn → frags dn = 0 → ∃ dn', D' !! d = Some dn' ∧ frags dn' = 0.
Proof.
  intros (H & _) [_ Hn] Hd Hf. specialize (H _ _ Hd). destruct (D' !! d) as [dn'|] eqn:Hd'; [|lia]. exists dn'. split; [done|].
  pose proof (Hn _ _ Hd'). pose proof (count_length d fs). lia.
Qed.

(** A node of the bytes [b], on the flash. *)
Definition placed (s : file) (raw : nat) (ofs : Z) (b : list Z) : Prop :=
  ∃ o ri cd, ref_at s !! raw = Some o ∧ node_at codes (flash s) o ofs b ri cd ∧ Z.of_nat (length b) = Layout.dsize ri ∧
    Forall (apart o (sizeof_raw_inode + Z.of_nat (length cd))) (space s).

Section Placing.
Context (s : file) (fs : list cell) (D : gmap nat full_dnode) (mem : list bool) (lg : list event) (data : nat → list Z).
Context (fn raw : nat) (ofs : Z) (b : list Z).
Abbreviation dl := (Z.of_nat (length b)).
Abbreviation D1 := (<[fn := FullDnode raw ofs dl 0]> D).
Context (Hw : writable s fs D1 mem lg data) (Hfn : D !! fn = None) (Hmd : metadata s ≠ Some fn) (Hp : placed s raw ofs b).
Definition with_data : nat → list Z := λ d, if decide (d = fn) then b else data d.

Lemma old_counted : counted D fs.
Proof.
  rewrite <-(delete_insert_id D fn (FullDnode raw ofs dl 0) Hfn).
  eapply counted_forget; [exact (inode_counted _ _ _ _ _ (w_inode _ _ _ _ _ _ Hw))|by apply lookup_insert_eq|done].
Qed.
Lemma old_metadata m : metadata s = Some m → ∃ mn, D !! m = Some mn ∧ frags mn = 0.
Proof.
  intros Hm. destruct (w_metadata _ _ _ _ _ _ Hw m Hm) as (mn & Hmn & ?). exists mn. split; [|done].
  rewrite lookup_insert_ne in Hmn by congruence. done.
Qed.
Lemma stays_writable m mem' lg' :
  state m fs [] (dropped (metadata s) D) mem' lg' → writable (with_metadata None (with_map m s)) fs (dropped (metadata s) D) mem' lg' data.
Proof.
  intros Hs. pose proof Hw as [[_ _ Ht He] Hc Hn Hwi Hr Ha _]. pose proof old_counted as Hcd. pose proof old_metadata as Hm.
  split; [split; [exact Hs|by apply counted_dropped|exact Ht|exact He]|done| | |done..].
  - intros d dn [Hd _]%dropped_some Hf. eapply (Hn d dn); [|exact Hf]. rewrite lookup_insert_ne; [done|]. intros ->. congruence.
  - intros off d Hoff. destruct (Hwi off d Hoff) as (dn & Hd & ?). exists dn. rewrite (dropped_node _ _ _ _ _ Hcd Hm Hoff). split; [|done].
    destruct (content_known _ _ _ _ Hcd Hoff) as [dn' Hd']. rewrite lookup_insert_ne in Hd; [done|]. intros ->. congruence.
Qed.

Context (fs' : list cell) (D' : gmap nat full_dnode) (es : list event).
Context (Hov : overlaid fs ofs dl fn fs') (Hev : evolves (<[fn := set_frags 1 (FullDnode raw ofs dl 0)]> D1) D' es) (Hc' : counted D' fs').

Lemma place_lookup d dn' :
  D' !! d = Some dn' → ∃ dn, D1 !! d = Some dn ∧ Frag.raw dn' = Frag.raw dn ∧ Frag.dofs dn' = Frag.dofs dn ∧
    Frag.dsize dn' = Frag.dsize dn ∧ (d ≠ fn → 0 < frags dn' → 0 < frags dn).
Proof.
  intros Hd. destruct (evolves_back _ _ _ _ _ Hev Hd) as (dn & Hdn & ? & ? & ? & Hfr). rewrite insert_insert_eq in Hdn.
  destruct (decide (d = fn)) as [->|].
  - rewrite lookup_insert_eq in Hdn |- *. injection Hdn as <-. by eexists.
  - rewrite lookup_insert_ne in Hdn |- * by done. exists dn. split_and!; try done. tauto.
Qed.
Lemma place_metadata m : metadata s = Some m → ∃ mn, D' !! m = Some mn ∧ frags mn = 0.
Proof.
  intros Hm. destruct (old_metadata m Hm) as (mn & Hmn & Hf). eapply evolves_idle; [exact Hev|exact Hc'| |exact Hf].
  rewrite insert_insert_eq, lookup_insert_ne; [done|]. intros ->. congruence.
Qed.
Lemma place_content off d :
  0 <= off → content fs' off = Some (Some d) → (d = fn ∧ ofs <= off < ofs + dl) ∨ (d ≠ fn ∧ content fs off = Some (Some d) ∧ ¬ ofs <= off < ofs + dl).
Proof.
  intros Hoff. rewrite (proj2 (proj2 Hov)) by done. destruct (Z.leb_spec ofs off), (Z.ltb_spec off (ofs + dl)); cbn [andb]; try (intros [= <-]; by left);
    (destruct (content fs off) as [v|] eqn:Hv; [intros [= ->]; right; split; [|split; [done|lia]]|by destruct (_ <? _)]);
    intros ->; destruct (content_known _ _ _ _ old_counted Hv); congruence.
Qed.

Lemma content_positive l off v : tiled 0 l → content l off = Some v → 0 <= off.
Proof. intros Ht Hv. destruct (Z.le_gt_cases 0 off) as [|Hlt]; [done|]. rewrite (content_outside 0 l off Ht) in Hv; [done|lia]. Qed.
Lemma place_writable m mem' lg' :
  0 <= ofs → 0 < dl → extent 0 fs' < 2 ^ 32 → state m fs' [] (dropped (metadata s) D') mem' lg' →
  writable (with_metadata None (with_map m s)) fs' (dropped (metadata s) D') mem' lg' with_data.
Proof.
  intros Ho Hl He Hs. pose proof Hw as [_ Hc Hn Hwi Hr Ha _]. pose proof place_metadata as Hm. pose proof Hov as [Ht _].
  split; [split; [exact Hs|by apply counted_dropped|exact Ht|exact He]|exact Hc| | |exact Hr|exact Ha|done].
  - intros d dn [Hd _]%dropped_some Hf. destruct (place_lookup d dn Hd) as (d0 & Hd0 & Hraw & Hofs & Hsz & Hfr).
    unfold node_ok. rewrite Hraw, Hofs, Hsz. unfold with_data. destruct (decide (d = fn)) as [->|Hne]; [|exact (Hn d d0 Hd0 (Hfr Hne Hf))].
    rewrite lookup_insert_eq in Hd0. injection Hd0 as <-. cbn. destruct Hp as (o & ri & cd & ? & ? & ? & ?). by exists o, ri, cd.
  - intros off d Hoff. pose proof (content_positive _ _ _ Ht Hoff) as H0. rewrite (dropped_node _ _ _ _ _ Hc' Hm Hoff).
    destruct (content_known _ _ _ _ Hc' Hoff) as [dn Hd]. exists dn. split; [done|].
    destruct (place_lookup d dn Hd) as (d0 & Hd0 & _ & Hofs & Hsz & _). rewrite Hofs, Hsz.
    destruct (place_content off d H0 Hoff) as [[-> Hin]|(Hne & Hold & _)].
    + rewrite lookup_insert_eq in Hd0. injection Hd0 as <-. done.
    + destruct (Hwi off d Hold) as (d1 & Hd1 & Hin). congruence.
Qed.
Lemma place_wrote : 0 < dl → wrote fs D data ofs b fs' (dropped (metadata s) D') with_data.
Proof.
  intros Hl. split.
  2:{ rewrite (proj1 (proj2 Hov)). by destruct b. }
  intros off Hoff. rewrite byte_at_dropped by (done || apply place_metadata). unfold byte_at at 1.
  destruct (content fs' off) as [[d|]|] eqn:Hd.
  - destruct (content_known _ _ _ _ Hc' Hd) as [dn Hdn]. rewrite Hdn. destruct (place_lookup d dn Hdn) as (d0 & Hd0 & _ & -> & _).
    unfold with_data. destruct (place_content off d Hoff Hd) as [[-> Hin]|(Hne & Hold & Hout)].
    + rewrite lookup_insert_eq in Hd0. injection Hd0 as <-. rewrite decide_True by done. cbn [Frag.dofs].
      by rewrite (proj2 (Z.leb_le _ _)), (proj2 (Z.ltb_lt _ _)) by lia.
    + rewrite decide_False by done. rewrite lookup_insert_ne in Hd0 by done. unfold byte_at. rewrite Hold, Hd0.
      destruct (Z.leb_spec ofs off), (Z.ltb_spec off (ofs + dl)); cbn [andb]; try reflexivity; lia.
  - rewrite (proj2 (proj2 Hov)) in Hd by done. destruct ((_ <=? _) && _); [done|]. unfold byte_at.
    by destruct (content fs off) as [[?|]|].
  - rewrite (proj2 (proj2 Hov)) in Hd by done. destruct ((_ <=? _) && _); [done|]. unfold byte_at.
    by destruct (content fs off) as [[?|]|].
Qed.
End Placing.

Lemma dropped_new md (D : gmap nat full_dnode) fn dn :
  D !! fn = None → md ≠ Some fn → dropped md (<[fn := dn]> D) !! fn = Some dn ∧ delete fn (dropped md (<[fn := dn]> D)) = dropped md D.
Proof.
  intros Hfn Hmd. destruct md as [m|]; cbn; [|by rewrite lookup_insert_eq, delete_insert_id].
  assert (m ≠ fn) by congruence. rewrite delete_insert_ne, lookup_insert_eq, delete_insert_id; [done| |done]. by rewrite lookup_delete_ne.
Qed.
Lemma wp_place {A} (K : SM file A) (e : Z → A) (s : file) fs D mem lg data fn raw ofs b (Q : A → file → Prop) :
  writable s fs (<[fn := FullDnode raw ofs (Z.of_nat (length b)) 0]> D) mem lg data → D !! fn = None → metadata s ≠ Some fn → placed s raw ofs b →
  0 <= ofs → 0 < Z.of_nat (length b) → ofs + Z.of_nat (length b) < 2 ^ 32 →
  (∀ s' fs' D' mem' lg' data', writable s' fs' D' mem' lg' data' → wrote fs D data ofs b fs' D' data' → spends 2 mem mem' →
     space s' = space s → wp K s' Q) →
  (∀ s' D' mem' lg', writable s' fs D' mem' lg' data → wrote fs D data ofs [] fs D' data → ¬ plenty 2 mem → Q (e (- ENOMEM)) s') →
  wp (ret ← on_map (jffs2_add_full_dnode_to_inode (Some fn)); drop_metadata;;
      if truthy ret then on_map (forget_node fn);; mret (e ret) else K) s Q.
Proof.
  intros Hw Hfn Hmd Hp Ho Hl He HK HF. pose proof (w_inode _ _ _ _ _ _ Hw) as Hi.
  apply wp_bind, wp_on_map. eapply wp_add_full_dnode; [exact Hi|by apply lookup_insert_eq|done|exact Ho|exact Hl|exact He| |].
  - intros m fs' D' mem' es Hi' Hov Hev Hmem. pose proof (inode_counted _ _ _ _ _ Hi') as Hc'.
    apply wp_bind. eapply (wp_drop_metadata (with_map m s)); [exact (inode_state _ _ _ _ _ Hi')| |].
    { intros x Hx. destruct (place_metadata s fs D mem lg data fn raw ofs b Hw Hfn Hmd fs' D' es Hov Hev Hc' x Hx) as (xn & -> & _). by eexists. }
    intros m' lg' Hs'. change (truthy 0) with false. cbv iota. eapply HK; [|by eapply place_wrote| |done].
    + eapply (place_writable s fs D mem lg data fn raw ofs b Hw Hfn Hmd Hp fs' D' es Hov Hev Hc'); [exact Ho|exact Hl|apply Hi'|exact Hs'].
    + destruct Hmem as [-> | ->]; [eapply (spends_more 1 2); [eapply spends_drew; by left|lia]|].
      eapply (spends_trans 1 1 _ (true :: mem')); [eapply spends_drew; by left|eapply spends_drew; by left|lia].
  - intros m k mem' es Hmem Hs. rewrite insert_insert_eq in Hs. apply wp_bind. eapply (wp_drop_metadata (with_map m s)); [exact Hs| |].
    { intros x Hx. destruct (old_metadata s fs D mem lg data fn raw ofs b Hw Hmd x Hx) as (xn & Hxn & _). cbn in Hx. rewrite lookup_insert_ne by congruence. by eexists. }
    intros m' lg' Hs'. change (truthy (- ENOMEM)) with true. cbv iota. apply wp_bind, wp_on_map.
    change (metadata (with_map m s)) with (metadata s) in Hs'.
    destruct (dropped_new (metadata s) D fn (set_frags k (FullDnode raw ofs (Z.of_nat (length b)) 0)) Hfn Hmd) as [Hl1 Hl2].
    eapply wp_forget; [exact Hs'|exact Hl1|]. rewrite Hl2. intros m2 lg2 Hs2. apply wp_ret. eapply HF.
    + exact (stays_writable s fs D mem lg data fn raw ofs b Hw Hfn Hmd m2 mem' lg2 Hs2).
    + pose proof (wrote_nil fs D data ofs) as [H1 H2]. split; [|done]. intros off Hoff. rewrite <-H1 by done.
      eapply byte_at_dropped; [by eapply (old_counted s fs D mem lg data fn raw ofs b)|by eapply (old_metadata s fs D mem lg data fn raw ofs b)].
    + intros [Hlen Hall]. destruct mem as [|[] [|[] ?]]; cbn in Hlen; try lia; try done.
      * apply Forall_cons in Hall as [_ [? _]%Forall_cons]. done.
      * by apply Forall_cons in Hall as [? _].
      * by apply Forall_cons in Hall as [? _].
Qed.

(** ** Filling in a node *)

Section Filling.
Context (kmalloc : nat → Z → option (list Z)) (inocache_ino : Z).
Context (kmalloc_size : ∀ n size b, kmalloc n size = Some b → Z.of_nat (length b) = size ∧ bytes b).
Context (Hcodes : coherent 1 codes) (Hino : 0 <= inocache_ino < 2 ^ 32).

Lemma pack_app ws vs ws' vs' : length ws = length vs → pack (ws ++ ws') (vs ++ vs') = pack ws vs ++ pack ws' vs'.
Proof. revert vs. induction ws as [|w ws IH]; intros [|v vs] Hl; try done. cbn. rewrite IH by (by injection Hl). by rewrite app_assoc. Qed.
Lemma inode_crc_checks ri cd : inode_crc (inode_bytes (fill_checks ri cd)) = inode_crc (inode_bytes ri).
Proof.
  assert (∀ r, take 60 (inode_bytes r) = pack (take 19 inode_widths) (take 19 (inode_fields r))) as H.
  { intros r. unfold inode_bytes.
    change inode_widths with (take 19 inode_widths ++ drop 19 inode_widths) at 1.
    change (inode_fields r) with (take 19 (inode_fields r) ++ drop 19 (inode_fields r)) at 1.
    rewrite pack_app by done. rewrite take_app_length'; [done|by rewrite length_pack]. }
  unfold inode_crc. by rewrite !H.
Qed.
Lemma crc_fits b : bytes b → fits 4 (Crc.crc32 0 b).
Proof. intros Hb. unfold fits. rewrite crc32_bits by (done || lia). by apply crc32_range. Qed.
Lemma bytes_take k b : bytes b → bytes (take k b).
Proof. apply Forall_take. Qed.

(** The filled raw inode of a node. *)
Definition filled (ri : raw_inode) (v ofs dl cl comprtype : Z) (cd : list Z) : raw_inode :=
  fill_checks (fill_body inocache_ino (fill_header ri cl) v ofs dl cl comprtype) cd.
Lemma filled_formed ri v ofs dl cl comprtype cd :
  well_formed ri → fits 4 v → fits 4 ofs → fits 4 dl → fits 4 cl → bytes cd → well_formed (filled ri v ofs dl cl comprtype cd).
Proof.
  intros Hw Hv Ho Hd Hc Hcd. unfold well_formed in *. unfold inode_widths, inode_fields in *.
  assert (∀ z, fits 1 (z &&& 255)) as Hb by (intros z; unfold fits; change 255 with (Z.ones 8); rewrite Z.land_ones by lia; apply (Z.mod_pos_bound z 256); lia).
  assert (∀ z, fits 4 (u32 z)) as Hu by (intros z; apply u32_range).
  repeat (apply Forall2_cons in Hw as [? Hw]).
  unfold filled, fill_checks, fill_body, fill_header. cbn [magic nodetype totlen hdr_crc Layout.ino Layout.version mode uid gid isize atime mtime ctime Layout.offset csize Layout.dsize Layout.compr usercompr flags data_crc node_crc].
  repeat apply Forall2_cons_2; try done; try (apply crc_fits; unfold header_crc; try apply bytes_take; try apply pack_bytes; done).
  pose proof (Hu (ofs + dl)). unfold fits in *. lia.
Qed.

(** What [jffs2_compress] gives for the bytes [chunk]. *)
Definition packed (chunk : list Z) (dlen ct : Z) (out : list Z) (dl cl : Z) : Prop :=
  0 < dl <= Z.of_nat (length chunk) ∧ 0 < cl <= dlen ∧ cl <= Z.of_nat (length out) ∧ bytes out ∧ 0 <= ct < 128 ∧ ct ≠ JFFS2_COMPR_ZERO ∧
  (ct = JFFS2_COMPR_NONE → take (Z.to_nat cl) out = take (Z.to_nat dl) chunk) ∧
  ∀ c, codecs_ok codes c → ∃ c', codecs_ok codes c' ∧
    Compr.jffs2_decompress c ct (take (Z.to_nat cl) out) cl dl = Some (0, take (Z.to_nat dl) chunk, c').
Lemma wp_compress (s : file) chunk dlen (Q : Z * list Z * Z * Z → file → Prop) :
  codecs_ok codes (codecs s) → bytes chunk → Z.of_nat (length chunk) <= 4096 → 1 <= dlen <= Z.of_nat (length chunk) →
  (∀ ct out dl cl c, packed chunk dlen ct out dl cl → codecs_ok codes c → Q (ct, out, dl, cl) (with_codecs c s)) →
  wp (compress kmalloc chunk (Z.of_nat (length chunk)) dlen) s Q.
Proof.
  intros [Hsame Hbuf] Hb Hl Hd HQ. pose proof (coherent_same 1 _ _ Hcodes Hsame Hbuf) as Hco.
  destruct (compress_recoverable kmalloc kmalloc_size 1 chunk (Z.of_nat (length chunk)) dlen Hb eq_refl Hl Hd ltac:(lia) (codecs s) Hco)
    as (ct & out & dl & cl & c & Hrun & Hdl & Hcl & (Hct & Hol & Hob & Hnone & Hzero) & Hs' & Hb' & Hdec).
  unfold wp, compress. rewrite Hrun. apply HQ; [|split; [eapply same_codes_trans; [exact Hsame|exact Hs']|done]].
  split_and!; try done; try lia. intros t [Ht Htb].
  destruct (Hdec t) as (t' & Hrun' & Ht' & Htb'); [eapply same_codes_trans; [apply same_codes_sym; exact Hsame|exact Ht]|done|].
  exists t'. split; [|done]. split; [eapply same_codes_trans; [exact Hsame|exact Ht']|done].
Qed.

Lemma compr_bits ct : 0 <= ct < 128 → ct &&& 255 = ct ∧ (ct >>> 8) &&& 255 = 0 ∧ Z.lor ct (0 <<< 8) = ct.
Proof.
  intros H. change 255 with (Z.ones 8). rewrite !Z.land_ones, Z.shiftr_div_pow2, Z.shiftl_0_l, Z.lor_0_r by lia.
  split_and!; [apply Z.mod_small; lia|by rewrite (Z.div_small ct) by lia|done].
Qed.
(** A node written from a packed chunk. *)
Lemma filled_node f o ri v ofs chunk dlen ct out dl cl :
  packed chunk dlen ct out dl cl → Z.of_nat (length chunk) <= 4096 → dlen <= 4096 → well_formed ri → fits 4 v → fits 4 ofs →
  let cd := take (Z.to_nat cl) out in let r := filled ri v ofs dl cl ct cd in
  well_formed r ∧ Layout.version r = v ∧ Layout.offset r = ofs ∧ Layout.dsize r = dl ∧ Z.of_nat (length cd) = cl ∧
  (stored f o (inode_bytes r ++ cd) → node_at codes f o ofs (take (Z.to_nat dl) chunk) r cd).
Proof.
  intros (Hdl & Hcl & Hol & Hob & Hct & Hzero & Hnone & Hdec) Hlen Hdlen Hw Hv Ho cd r.
  assert (Z.of_nat (length cd) = cl) as Hcd by (unfold cd; rewrite length_take; lia). destruct (compr_bits ct Hct) as (Hb1 & Hb2 & Hb3).
  assert (fits 4 dl ∧ fits 4 cl) as [Hfd Hfc] by (unfold fits; lia).
  assert (well_formed r) as Hr by (apply filled_formed; try done; by apply bytes_take).
  split; [exact Hr|]. do 3 (split; [reflexivity|]). split; [exact Hcd|].
  intros Hst. split; [exact Hst|exact Hr| |reflexivity|symmetry; exact Hcd| |reflexivity|change (0 < dl); lia| |].
  - exact (eq_sym (inode_crc_checks (fill_body inocache_ino (fill_header ri cl) v ofs dl cl ct) cd)).
  - change (Layout.dsize r) with dl. rewrite length_take. lia.
  - change (Layout.compr r) with (ct &&& 255). rewrite Hb1. exact Hnone.
  - change (Layout.compr r) with (ct &&& 255). change (usercompr r) with ((ct >>> 8) &&& 255). rewrite Hb1, Hb2, Hb3.
    destruct (Z.eqb_spec ct JFFS2_COMPR_ZERO); [done|]. intros c Hc. change (csize r) with cl. change (Layout.dsize r) with dl. by apply Hdec.
Qed.

(** Everything that [n] nodes need: memory and room. *)
Definition granted (n : Z) (sp : list (Z * Z * Z)) : Prop := n <= Z.of_nat (length sp) ∧ Forall (λ g, g.1.1 = 0) sp.
Definition rich (n : Z) (mem : list bool) (sp : list (Z * Z * Z)) : Prop := plenty (4 * n) mem ∧ granted n sp.

(** The size of the next chunk. *)
Lemma chunk_size ofs writelen : 0 < writelen → 0 < Z.min writelen (PAGE_CACHE_SIZE - (ofs &&& (PAGE_CACHE_SIZE - 1))) <= 4096.
Proof.
  intros Hw. assert (0 <= ofs &&& (PAGE_CACHE_SIZE - 1) < 4096).
  { unfold PAGE_CACHE_SIZE. change (4096 - 1) with (Z.ones 12). rewrite Z.land_ones by lia. apply (Z.mod_pos_bound ofs 4096). lia. }
  unfold PAGE_CACHE_SIZE in *. lia.
Qed.
Lemma wp_reserve (s : file) fs D mem lg data (Q : Z * Z * Z → file → Prop) :
  writable s fs D mem lg data →
  (∀ ret o l s', ret ≠ 0 → (∀ n, 0 < n → ¬ granted n (space s)) → writable s' fs D mem lg data → Q (ret, o, l) s') →
  (∀ o l sp, space s = (0, o, l) :: sp → holding o l (with_space sp s) fs D mem lg data → Q (0, o, l) (with_space sp s)) →
  wp jffs2_reserve_space s Q.
Proof.
  intros Hw HF HQ. unfold wp, jffs2_reserve_space. destruct (space s) as [|[[ret o] l] sp] eqn:Hsp.
  - eapply HF; [done| |exact Hw]. intros n Hn [Hl _]. cbn in Hl. lia.
  - destruct (decide (ret = 0)) as [->|Hne].
    + apply HQ; [done|]. unfold holding. cbn. rewrite <-Hsp. by destruct s.
    + eapply HF; [exact Hne| |].
      * intros n Hn [_ Hall]. by apply Forall_cons in Hall as [? _].
      * destruct Hw as [Hi Hc Hno Hwi Hr Ha Hm]. rewrite Hsp in *. split; try done; [|by apply Forall_cons in Hr as [_ ?]|by destruct Ha].
        intros d dn Hd Hf. destruct (Hno d dn Hd Hf) as (o' & ri & cd & ? & ? & ? & Hap). exists o', ri, cd. cbn.
        rewrite Hsp in Hap. by apply Forall_cons in Hap as [_ ?].
Qed.
Lemma holding_room o l s fs D mem lg data : holding o l s fs D mem lg data → sizeof_raw_inode + JFFS2_MIN_DATA_LEN <= l < 2 ^ 32.
Proof. intros H. pose proof (w_room _ _ _ _ _ _ H) as [Hg _]%Forall_cons. by destruct (Hg eq_refl) as (_ & ? & _). Qed.
Lemma holding_codecs o l (s : file) c fs D mem lg data :
  holding o l s fs D mem lg data → codecs_ok codes c → holding o l (with_codecs c s) fs D mem lg data.
Proof. by intros [? ? ? ? ? ? ?] Hc; split. Qed.
Lemma holding_version o l (s : file) v fs D mem lg data :
  holding o l s fs D mem lg data → holding o l (with_version v s) fs D mem lg data.
Proof. by intros [? ? ? ? ? ? ?]; split. Qed.

Lemma wp_next_version (s : file) (Q : Z → file → Prop) :
  Q (u32 (highest_version s + 1)) (with_version (u32 (highest_version s + 1)) s) → wp next_version s Q.
Proof. done. Qed.

(** How one try to write a chunk may end. *)
Definition gave_up {E} (err : E → Z) (fs : list cell) (D : gmap nat full_dnode) data (mem : list bool) (sp : list (Z * Z * Z))
    (Q : raw_inode * (E + nat * Z) → file → Prop) : Prop :=
  ∀ s' e ri' mem' lg', well_formed ri' → err e ≠ 0 → (durable → ∀ n, 0 < n → ¬ rich n mem sp) → writable s' fs D mem' lg' data →
    Q (ri', inl e) s'.
Definition stood {E} (fs : list cell) (D : gmap nat full_dnode) data (mem : list bool) (sp : list (Z * Z * Z)) (buf : list Z) (ofs : Z)
    (Q : raw_inode * (E + nat * Z) → file → Prop) : Prop :=
  ∀ s' ri' fn raw dl mem' lg', D !! fn = None → metadata s' ≠ Some fn → 0 < dl <= Z.of_nat (length buf) → well_formed ri' →
    writable s' fs (<[fn := FullDnode raw ofs dl 0]> D) mem' lg' data → placed s' raw ofs (take (Z.to_nat dl) buf) →
    (durable → ∀ n, 0 < n → rich n mem sp → plenty (4 * n - 2) mem' ∧ granted (n - 1) (space s')) →
    Q (ri', inr (fn, dl)) s'.

Lemma wp_write_chunk ri buf ofs s fs D mem lg data Q :
  writable s fs D mem lg data → well_formed ri → bytes buf → 0 < Z.of_nat (length buf) → fits 4 ofs →
  gave_up fst fs D data mem (space s) Q → stood fs D data mem (space s) buf ofs Q →
  wp (write_chunk kmalloc inocache_ino ri buf ofs (Z.of_nat (length buf))) s Q.
Proof.
  intros Hw Hri Hb Hlen Hofs HG HS. unfold write_chunk. apply wp_bind. eapply wp_reserve; [exact Hw| |].
  { intros ret o l s' Hne Hno Hw'. cbv iota beta. rewrite (proj2 (truthy_spec ret) Hne). apply wp_ret. eapply HG;
      [exact Hri|exact Hne|intros _ n Hn [_ Hg]; by apply (Hno n)|exact Hw']. }
  intros o l sp Hsp Hh. cbv iota beta. change (truthy 0) with false. cbv iota.
  pose proof (chunk_size ofs (Z.of_nat (length buf)) Hlen) as Hchunk. remember (Z.min (Z.of_nat (length buf)) _) as slen eqn:Hslen.
  pose proof (holding_room _ _ _ _ _ _ _ _ Hh) as Hroom. unfold sizeof_raw_inode, JFFS2_MIN_DATA_LEN in Hroom.
  set (chunk := take (Z.to_nat slen) buf). assert (Z.of_nat (length chunk) = slen) as Hl by (unfold chunk; rewrite length_take; lia).
  rewrite (u32_small (l - _)) by (unfold sizeof_raw_inode; lia). remember (Z.min (l - sizeof_raw_inode) slen) as dlen eqn:Hdlen.
  apply wp_bind. rewrite <-Hl. eapply wp_compress; [exact (w_codecs _ _ _ _ _ _ Hh)|by apply bytes_take|lia|unfold sizeof_raw_inode in *; lia|].
  intros ct out dl cl c Hpk Hc. cbv iota beta. pose proof Hpk as (Hdl & Hcl & Hol & Hob & _). rewrite (proj2 (Z.ltb_ge _ _)) by lia.
  cbv zeta. set (cd := take (Z.to_nat cl) out). apply wp_bind. apply wp_next_version. remember (u32 (highest_version _ + 1)) as v eqn:Heqv.
  assert (fits 4 v) as Hv by (rewrite Heqv; apply u32_range). assert (dlen <= slen ∧ slen <= 4096) as [Hds Hs4] by lia.
  destruct (filled_node (flash s) o ri v ofs chunk dlen ct out dl cl Hpk ltac:(lia) ltac:(lia) Hri Hv Hofs) as (Hr & Hrv & Hro & Hrd & Hcdl & Hnode).
  fold cd in Hr, Hrv, Hro, Hrd, Hcdl, Hnode. change (fill_checks _ cd) with (filled ri v ofs dl cl ct cd). set (r := filled ri v ofs dl cl ct cd) in *.
  assert (holding o l (with_version v (with_codecs c (with_space sp s))) fs D mem lg data) as Hh2 by (by apply holding_version, holding_codecs).
  apply wp_bind. eapply wp_write_dnode; [exact Hh2|unfold sizeof_raw_inode in *; lia|exact Hrv| |].
  - intros s' e mem' lg' Hne Hno Hw' Hs' Hsp'. cbv iota beta. apply wp_ret. eapply HG; [exact Hr|exact Hne| |exact Hw'].
    intros Hd n Hn [Hp _]. apply Hno. split; [eapply plenty_less; [exact Hp|lia]|exact Hd].
  - intros s' fn raw mem' lg' Hfn Hspd Hw' Href Hst Hap Hs' Hmd. cbv iota beta. apply wp_ret. rewrite Hro, Hrd in Hw'.
    assert (take (Z.to_nat dl) buf = take (Z.to_nat dl) chunk) as Htake by (unfold chunk; rewrite take_take; f_equal; lia).
    eapply HS; [exact Hfn|exact Hmd|lia|exact Hr|exact Hw'| |].
    + exists o, r, cd. rewrite Htake. destruct (filled_node (flash s') o ri v ofs chunk dlen ct out dl cl Hpk ltac:(lia) ltac:(lia) Hri Hv Hofs) as (_ & _ & _ & _ & _ & Hn2).
      split_and!; [exact Href|by apply Hn2|rewrite length_take, Hrd; lia|exact Hap].
    + intros Hd n Hn [Hp [Hgl Hga]]. rewrite Hs'. cbn [space with_version with_codecs with_space]. rewrite Hsp in Hgl, Hga. cbn in Hgl.
      apply Forall_cons in Hga as [_ Hga]. split; [eapply plenty_less; [apply (Hspd _ Hp); lia|lia]|split; [lia|done]].
Qed.
Lemma wp_write_node tries : ∀ ri buf ofs s fs D mem lg data Q,
  writable s fs D mem lg data → well_formed ri → bytes buf → 0 < Z.of_nat (length buf) → fits 4 ofs →
  gave_up id fs D data mem (space s) Q → stood fs D data mem (space s) buf ofs Q →
  wp (write_node kmalloc inocache_ino tries ri buf ofs (Z.of_nat (length buf))) s Q.
Proof.
  induction tries as [|tries IH]; intros ri buf ofs s fs D mem lg data Q Hw Hri Hb Hlen Hofs HG HS; cbn [write_node]; apply wp_bind;
    (eapply (wp_write_chunk ri buf ofs s fs D mem lg data); [exact Hw|exact Hri|exact Hb|exact Hlen|exact Hofs| |]).
  - intros s' [e b] ri' mem' lg' Hri' He Hno Hw'. cbv iota beta. by destruct b; apply wp_ret; eapply HG.
  - intros s' ri' fn raw dl mem' lg' Hfn Hmd Hdl Hri' Hw' Hp Hrich. cbv iota beta. apply wp_ret. by eapply HS.
  - intros s' [e b] ri' mem' lg' Hri' He Hno Hw'. cbv iota beta. destruct b; [|apply wp_ret; by eapply HG].
    apply (IH _ _ _ _ _ _ _ _ _ _ Hw' Hri' Hb Hlen Hofs).
    + intros s'' e' ri'' mem'' lg'' Hri'' He' _ Hw''. by eapply HG.
    + intros s'' ri'' fn raw dl mem'' lg'' Hfn Hmd Hdl Hri'' Hw'' Hp _. eapply HS; try done. intros Hd n Hn Hr. by destruct (Hno Hd n Hn).
  - intros s' ri' fn raw dl mem' lg' Hfn Hmd Hdl Hri' Hw' Hp Hrich. cbv iota beta. apply wp_ret. by eapply HS.
Qed.
(** ** The loop over the chunks *)

Definition range_done (n : Z) fs D data (mem : list bool) (sp : list (Z * Z * Z)) (buf : list Z) (ofs w0 : Z) (Q : Z * Z → file → Prop) : Prop :=
  ∀ s' ret w fs' D' mem' lg' data', writable s' fs' D' mem' lg' data' → (w ≤ length buf)%nat →
    wrote fs D data ofs (take w buf) fs' D' data' → (ret = 0 → w = length buf) → (ret ≠ 0 → durable → ¬ rich n mem sp) →
    Q (ret, w0 + Z.of_nat w) s'.
Lemma range_done_step n fs D data mem sp buf ofs w0 Q dl fs1 D1 data1 mem1 sp1 :
  (dl ≤ length buf)%nat → wrote fs D data ofs (take dl buf) fs1 D1 data1 → (durable → rich n mem sp → rich (n - 1) mem1 sp1) →
  range_done n fs D data mem sp buf ofs w0 Q →
  range_done (n - 1) fs1 D1 data1 mem1 sp1 (drop dl buf) (ofs + Z.of_nat dl) (w0 + Z.of_nat dl) Q.
Proof.
  intros Hdl Hw1 Hr HQ s' ret w fs' D' mem' lg' data' Hw Hle Hwr Hz Hnz. rewrite length_drop in *.
  replace (w0 + Z.of_nat dl + Z.of_nat w) with (w0 + Z.of_nat (dl + w)) by lia. eapply HQ; [exact Hw|lia| |lia|].
  - rewrite <-take_take_drop. eapply wrote_app; [exact Hw1|]. rewrite length_take_le by done. exact Hwr.
  - intros He Hd Hrich. exact (Hnz He Hd (Hr Hd Hrich)).
Qed.
Lemma wp_write_range fuel : ∀ n ri buf ofs w0 s fs D mem lg data Q,
  writable s fs D mem lg data → well_formed ri → bytes buf → 0 <= ofs → 0 <= w0 → ofs + Z.of_nat (length buf) < 2 ^ 32 →
  w0 + Z.of_nat (length buf) < 2 ^ 32 → (length buf < fuel)%nat → Z.of_nat (length buf) <= n →
  range_done n fs D data mem (space s) buf ofs w0 Q →
  wp (write_range kmalloc inocache_ino fuel ri buf ofs (Z.of_nat (length buf)) w0) s Q.
Proof.
  induction fuel as [|fuel IH]; [lia|]. intros n ri buf ofs w0 s fs D mem lg data Q Hw Hri Hb Ho Hw0 He Hwe Hf Hn HQ. cbn [write_range].
  destruct (Z.eqb_spec (Z.of_nat (length buf)) 0) as [Hz|Hz].
  { apply wp_ret. replace w0 with (w0 + Z.of_nat 0) by lia. eapply HQ; [exact Hw|lia|rewrite take_0; apply wrote_nil|lia|done]. }
  apply wp_bind. eapply (wp_write_node 1 ri buf ofs s fs D mem lg data); [exact Hw|exact Hri|exact Hb|lia|unfold fits; lia| |].
  - intros s' e ri' mem' lg' Hri' Hne Hno Hw'. cbv iota beta. apply wp_ret. replace w0 with (w0 + Z.of_nat 0) by lia.
    eapply HQ; [exact Hw'|lia|rewrite take_0; apply wrote_nil|done|]. intros _ Hd. apply (Hno Hd n). lia.
  - intros s1 ri' fn raw dl mem1 lg1 Hfn Hmd Hdl Hri' Hw1 Hp Hrich. cbv iota beta. destruct (Z_of_nat_complete dl ltac:(lia)) as [k ->].
    assert (length (take k buf) = k) as Hk by (rewrite length_take; lia).
    rewrite <-Hk in Hw1. rewrite Nat2Z.id in Hp.
    eapply (wp_place _ (λ ret, (ret, w0)) s1 fs D mem1 lg1 data fn raw ofs (take k buf)); [exact Hw1|exact Hfn|exact Hmd|exact Hp|lia..| |].
    + intros s2 fs2 D2 mem2 lg2 data2 Hw2 Hwr Hsp Hss. rewrite (proj2 (Z.eqb_neq _ _)) by lia. rewrite Nat2Z.id, !u32_small by lia.
      assert (Z.of_nat (length buf) - Z.of_nat k = Z.of_nat (length (drop k buf))) as -> by (rewrite length_drop; lia).
      assert (durable → rich n mem (space s) → rich (n - 1) mem2 (space s2)) as Hr.
      { intros Hd Hrn. destruct (Hrich Hd n ltac:(lia) Hrn) as [Hp1 Hg]. rewrite Hss. split; [|exact Hg].
        replace (4 * (n - 1)) with (4 * n - 2 - 2) by lia. apply Hsp; [exact Hp1|lia]. }
      eapply (IH (n - 1)); [exact Hw2|exact Hri'|by apply Forall_drop|lia|lia|rewrite length_drop; lia..|].
      exact (range_done_step n fs D data mem (space s) buf ofs w0 Q k fs2 D2 data2 mem2 (space s2) ltac:(lia) Hwr Hr HQ).
    + intros s2 D2 mem2 lg2 Hw2 Hwr Hno. replace w0 with (w0 + Z.of_nat 0) by lia.
      eapply HQ; [exact Hw2|lia|rewrite take_0; exact Hwr|unfold ENOMEM; lia|].
      intros _ Hd Hrn. destruct (Hrich Hd n ltac:(lia) Hrn) as [Hp1 _]. apply Hno. eapply plenty_less; [exact Hp1|lia].
Qed.
End Filling.
End Writing.
