(* ===== verification/Jffs2Io.v ===== *)
(** * Jffs2Io: the reads and writes of a file of JFFS2, end to end (fs/jffs2/read.c, write.c)

    What [jffs2_read_inode_range] and [jffs2_write_inode_range] do to a file seen as a map from offsets
    to bytes, and the two composed; and a flash, a registry of compressors and a file on which to run
    them. *)

From S2P Require Import Prelude Rbtree Jffs2Frag Jffs2Rtime Jffs2Rubin Jffs2Compr Crc32 Jffs2Node Jffs2File Jffs2Write.

(** A flash that never fails: every byte can be read and written. *)
Definition perfect : Type := Z → Z.
#[export] Instance perfect_mtd : Mtd perfect := {
  mtd_read f o n := (0, (λ i, f (o + Z.of_nat i)) <$> seq 0 (Z.to_nat n));
  mtd_write f o b := (0, Z.of_nat (length b),
    λ a, if (o <=? a) && (a <? o + Z.of_nat (length b)) then nth (Z.to_nat (a - o)) b 0 else f a) }.

Section Perfect.

Lemma perfect_read (f : perfect) ofs n i :
  0 <= i < n → (mtd_read f ofs n).2 !! Z.to_nat i = Some (f (ofs + i)).
Proof. intros Hi. cbn. rewrite list_lookup_fmap, lookup_seq_lt by lia. cbn. do 2 f_equal. lia. Qed.
Lemma perfect_stored (f : perfect) o b :
  stored f o b ↔ ∀ i v, b !! i = Some v → f (o + Z.of_nat i) = v.
Proof.
  split.
  - intros H i v Hv. specialize (H (o + Z.of_nat i) 1 _ i v eq_refl). rewrite Z.sub_diag in H.
    assert (Some (f (o + Z.of_nat i + 0)) = Some v) as [= <-]; [|f_equal; lia].
    rewrite <-(perfect_read f _ 1 0) by lia. apply H; [done|done|lia].
  - intros H ofs n got i v [= <-] _ Hv Hi. change (_ <$> _) with (mtd_read f ofs n).2. rewrite perfect_read by done.
    f_equal. rewrite <-(H i v Hv). f_equal. lia.
Qed.
#[export] Instance perfect_lawful : Lawful perfect.
Proof.
  split.
  - intros f ofs n Hn. cbn. rewrite length_fmap, length_seq. lia.
  - intros f o b f' [= <-] _. apply perfect_stored. intros i v Hv. pose proof (lookup_lt_Some _ _ _ Hv).
    rewrite (proj2 (Z.leb_le _ _)), (proj2 (Z.ltb_lt _ _)) by lia. cbn [andb].
    replace (Z.to_nat _) with i by lia. by apply nth_lookup_Some.
  - intros f o b ret n f' o' b' [= <- <- <-] Hs Ho. rewrite perfect_stored in *. intros i v Hv. rewrite <-(Hs i v Hv).
    pose proof (lookup_lt_Some _ _ _ Hv).
    destruct (Z.leb_spec o (o' + Z.of_nat i)), (Z.ltb_spec (o' + Z.of_nat i) (o + Z.of_nat (length b))); cbn [andb]; try reflexivity; lia.
  - intros f o b ret n f' [= <- <- <-]. lia.
Qed.
Lemma perfect_durable : durable (F := perfect).
Proof. intros f o b _. by eexists. Qed.
Lemma perfect_reliable (f : perfect) : reliable f.
Proof. intros ofs n Hn. eexists. split; [reflexivity|]. rewrite length_fmap, length_seq. lia. Qed.
End Perfect.

(** ** What the calls promise *)

Section Promises.
Import Rb Frag Layout Node.
Context {F : Type} `{!Mtd F} `{!Lawful F}.
Abbreviation cell := (nat * node_frag)%type.
Abbreviation file := (st (F := F)).

(** [C20] Reading a range of a file.  For every open file, wherever the range lies up to the end and
    however long it is: the call returns, the file is unchanged, and the answer is 0 with every byte
    of the range: from the data of the node that holds it, as it was written, or zero in a hole and past
    the end.  Otherwise it answers an error, and that only for want of memory or when the flash failed. *)
Theorem read_inode_range_reads codes (s : file) fs D mem lg data buf offset len
    (Ho : opened codes s fs D mem lg data) (Hoff : 0 <= offset) (Hlen : 0 <= len) (Hend : offset + len < 2 ^ 32)
    (Hbuf : Z.of_nat (length buf) = len) (Hin : fs = [] ∨ offset <= extent 0 fs) :
  ∃ ret out s' mem', jffs2_read_inode_range buf offset len s = Some ((ret, out), s') ∧
    opened codes s' fs D mem' lg data ∧ only_read s s' ∧
    (ret = 0 ∧ out = bytes_at fs D data offset len ∨ ret ≠ 0 ∧ ¬ (plenty (3 * (len + 2)) mem ∧ reliable (flash s))).
Proof.
  destruct (wp_inv _ _ _ (wp_read_inode_range codes s fs D mem lg data buf offset len Ho Hoff Hlen Hend Hbuf Hin))
    as ([ret out] & s' & Hrun & mem' & H).
  by exists ret, out, s', mem'.
Qed.

(** The compressors, the kernel's allocator and the inode number of the file to be written. *)
Context (codes : list Compr.jffs2_compressor) (kmalloc : nat → Z → option (list Z)) (inocache_ino : Z).
Context (kmalloc_size : ∀ n size b, kmalloc n size = Some b → Z.of_nat (length b) = size ∧ bytes b).
Context (Hcodes : coherent 1 codes) (Hino : 0 <= inocache_ino < 2 ^ 32).

Definition written (s : file) fs D data mem buf ofs (a : Z * Z) (s' : file) : Prop :=
  ∃ w fs' D' mem' lg' data', a.2 = Z.of_nat w ∧ writable codes s' fs' D' mem' lg' data' ∧ (w ≤ length buf)%nat ∧
    wrote fs D data ofs (take w buf) fs' D' data' ∧ (a.1 = 0 → w = length buf) ∧
    (a.1 ≠ 0 → durable (F := F) → ¬ rich (Z.of_nat (length buf)) mem (space s)).
Lemma wp_write_inode_range (s : file) fs D mem lg data ri buf ofs :
  writable codes s fs D mem lg data → well_formed ri → bytes buf → 0 <= ofs → ofs + Z.of_nat (length buf) < 2 ^ 32 →
  wp (jffs2_write_inode_range kmalloc inocache_ino ri buf ofs (Z.of_nat (length buf))) s (written s fs D data mem buf ofs).
Proof.
  intros Hw Hri Hb Ho He. unfold jffs2_write_inode_range.
  eapply (wp_write_range codes kmalloc inocache_ino kmalloc_size Hcodes Hino _ (Z.of_nat (length buf)));
    [exact Hw|exact Hri|exact Hb|exact Ho|lia|exact He|lia|lia|lia|].
  intros s' ret w fs' D' mem' lg' data' Hw' Hle Hwr Hz Hnz. exists w, fs', D', mem', lg', data'. by rewrite Z.add_0_l.
Qed.

(** [C19] Writing a range of a file, through every branch of the loop (chunks cut at the ends of the
    pages and to the room granted, compressed or not, retried, the metadata node given up, a node that
    finds no place in the map).  The compressors registered are any that are sound for every buffer from
    one byte on: a registry with rtime, which the default one is, is not, because rtime writes behind a
    buffer of one byte (compr_rtime.c:43), and a chunk can be that short.  From a file whose nodes are on
    the flash, with rooms of erased flash to be granted: the call returns; the first [w] bytes of the
    buffer are in the file at [ofs] and all other bytes are as before, a gap is a hole, and the file can be
    written and read again.  An answer of 0 says that all of the buffer was written; any other answer is
    given only when room or memory was refused or the flash failed. *)
Theorem write_inode_range_writes (s : file) fs D mem lg data ri buf ofs
    (Hw : writable codes s fs D mem lg data) (Hri : well_formed ri) (Hb : bytes buf) (Ho : 0 <= ofs)
    (He : ofs + Z.of_nat (length buf) < 2 ^ 32) :
  ∃ ret w s' fs' D' mem' lg' data',
    jffs2_write_inode_range kmalloc inocache_ino ri buf ofs (Z.of_nat (length buf)) s = Some ((ret, Z.of_nat w), s') ∧
    writable codes s' fs' D' mem' lg' data' ∧ (w ≤ length buf)%nat ∧ wrote fs D data ofs (take w buf) fs' D' data' ∧
    (ret = 0 → w = length buf) ∧ (ret ≠ 0 → durable (F := F) → ¬ rich (Z.of_nat (length buf)) mem (space s)).
Proof.
  destruct (wp_inv _ _ _ (wp_write_inode_range s fs D mem lg data ri buf ofs Hw Hri Hb Ho He))
    as ([ret z] & s' & Hrun & w & fs' & D' & mem' & lg' & data' & Hz & H). cbn in Hz. subst z.
  by exists ret, w, s', fs', D', mem', lg', data'.
Qed.

Lemma wrote_bytes fs D data ofs b fs' D' data' :
  0 <= ofs → wrote fs D data ofs b fs' D' data' → bytes_at fs' D' data' ofs (Z.of_nat (length b)) = b.
Proof.
  intros Ho [H _]. apply list_eq. intros i. rewrite bytes_at_lookup, Nat2Z.id. destruct (decide _) as [Hi|Hi].
  - rewrite H, (proj2 (Z.leb_le _ _)), (proj2 (Z.ltb_lt _ _)) by lia. cbn [andb]. replace (Z.to_nat _) with i by lia.
    destruct (lookup_lt_is_Some_2 b i Hi) as [v Hv]. rewrite Hv. f_equal. by apply nth_lookup_Some.
  - symmetry. apply lookup_ge_None. lia.
Qed.
(** A range that holds [b] reads as [b]. *)
Lemma reads_back (s : file) fs D mem lg data b room ofs :
  writable codes s fs D mem lg data → 0 <= ofs → ofs + Z.of_nat (length b) < 2 ^ 32 → length room = length b →
  bytes_at fs D data ofs (Z.of_nat (length b)) = b → ofs <= extent 0 fs →
  ∃ ret out s', jffs2_read_inode_range room ofs (Z.of_nat (length b)) s = Some ((ret, out), s') ∧
    (ret = 0 ∧ out = b ∨ ret ≠ 0 ∧ ¬ (plenty (3 * (Z.of_nat (length b) + 2)) (memory (map s)) ∧ reliable (flash s))).
Proof.
  intros Hw Ho He Hroom Hb Hx. pose proof (writable_opened _ _ _ _ _ _ _ Hw) as Hop.
  destruct (wp_inv _ _ _ (wp_read_inode_range codes s fs D mem lg data room ofs (Z.of_nat (length b)) Hop Ho ltac:(lia) He
    ltac:(lia) (or_intror Hx))) as ([ret out] & s' & Hrun & mem' & _ & _ & H).
  exists ret, out, s'. split; [exact Hrun|]. assert (memory (map s) = mem) as -> by apply (inode_state _ _ _ _ _ (w_inode _ _ _ _ _ _ _ Hw)).
  unfold outcome in H. cbn in H. by rewrite Hb in H.
Qed.
Lemma wrote_beside fs D data ofs b fs' D' data' o n :
  wrote fs D data ofs b fs' D' data' → 0 <= o → 0 <= n → o + n <= ofs ∨ ofs + Z.of_nat (length b) <= o →
  bytes_at fs' D' data' o n = bytes_at fs D data o n ∧ extent 0 fs <= extent 0 fs'.
Proof.
  intros [H He] Ho Hn Hd. split; [|rewrite He; destruct b; lia]. apply list_eq. intros i. rewrite !bytes_at_lookup.
  destruct (decide _) as [Hi|]; [|done]. rewrite H by lia.
  destruct (Z.leb_spec ofs (o + Z.of_nat i)), (Z.ltb_spec (o + Z.of_nat i) (ofs + Z.of_nat (length b))); cbn [andb]; try reflexivity; lia.
Qed.
(** [C21] What is written is what is read, with any compressors that are sound for every buffer from one
    byte on (so not with rtime, which the default registry has and which writes behind a buffer of one
    byte).  After a write of a range that is not empty that answers 0, a read of the range answers 0 with
    the bytes written, or an error for want of memory or because the flash failed; and the same bytes are
    in the range after any later write beside it. *)
Theorem write_then_read (s : file) fs D mem lg data ri buf ofs room ret w s1
    (Hw : writable codes s fs D mem lg data) (Hri : well_formed ri) (Hb : bytes buf) (Ho : 0 <= ofs)
    (He : ofs + Z.of_nat (length buf) < 2 ^ 32) (Hn : buf ≠ []) (Hroom : length room = length buf)
    (Hrun : jffs2_write_inode_range kmalloc inocache_ino ri buf ofs (Z.of_nat (length buf)) s = Some ((ret, w), s1))
    (Hret : ret = 0) :
  (∃ ret' out s2, jffs2_read_inode_range room ofs (Z.of_nat (length buf)) s1 = Some ((ret', out), s2) ∧
    (ret' = 0 ∧ out = buf ∨ ret' ≠ 0 ∧ ¬ (plenty (3 * (Z.of_nat (length buf) + 2)) (memory (map s1)) ∧ reliable (flash s1)))) ∧
  ∀ ri2 buf2 ofs2 w2 s2, well_formed ri2 → bytes buf2 → 0 <= ofs2 → ofs2 + Z.of_nat (length buf2) < 2 ^ 32 →
    ofs2 + Z.of_nat (length buf2) <= ofs ∨ ofs + Z.of_nat (length buf) <= ofs2 →
    jffs2_write_inode_range kmalloc inocache_ino ri2 buf2 ofs2 (Z.of_nat (length buf2)) s1 = Some (w2, s2) →
    ∃ ret' out s3, jffs2_read_inode_range room ofs (Z.of_nat (length buf)) s2 = Some ((ret', out), s3) ∧ (ret' = 0 → out = buf).
Proof.
  destruct (wp_inv _ _ _ (wp_write_inode_range s fs D mem lg data ri buf ofs Hw Hri Hb Ho He))
    as ([r z] & s1' & Hrun' & k & fs1 & D1 & mem1 & lg1 & data1 & _ & Hw1 & _ & Hwr & Hall & _). cbn in Hall.
  rewrite Hrun in Hrun'. injection Hrun' as <- <- <-. rewrite (Hall Hret), firstn_all in Hwr. pose proof (wrote_bytes _ _ _ _ _ _ _ _ Ho Hwr) as Hbuf.
  assert (ofs <= extent 0 fs1) as Hx by (destruct Hwr as [_ ->]; destruct buf; [done|]; cbn [length]; lia).
  split; [exact (reads_back s1 fs1 D1 mem1 lg1 data1 buf room ofs Hw1 Ho He Hroom Hbuf Hx)|].
  intros ri2 buf2 ofs2 w2 s2 Hri2 Hb2 Ho2 He2 Hd Hrun2.
  destruct (wp_inv _ _ _ (wp_write_inode_range s1 fs1 D1 mem1 lg1 data1 ri2 buf2 ofs2 Hw1 Hri2 Hb2 Ho2 He2))
    as (a2 & s2' & Hrun2' & k2 & fs2 & D2 & mem2 & lg2 & data2 & _ & Hw2 & Hk2 & Hwr2 & _).
  rewrite Hrun2 in Hrun2'. injection Hrun2' as <- <-.
  destruct (wrote_beside _ _ _ _ _ _ _ _ ofs (Z.of_nat (length buf)) Hwr2) as [Hsame Hext]; [lia|lia|rewrite length_take; lia|].
  rewrite Hbuf in Hsame.
  destruct (reads_back s2 fs2 D2 mem2 lg2 data2 buf room ofs Hw2 Ho He Hroom Hsame ltac:(lia)) as (ret' & out & s3 & Hr & Hout).
  exists ret', out, s3. split; [exact Hr|]. by destruct Hout as [[_ ?]|[? _]].
Qed.
End Promises.

(** ** A file to run them on *)

Section Runs.
Import Rb Frag Layout Node.

(** A file just made: empty, with three rooms to be granted and memory for forty requests. *)
Definition only_dynrubin : Compr.st :=
  serve_all (Compr.St [] Compr.JFFS2_COMPR_MODE_SIZE 0 0 0 0) [Register Compr.jffs2_dynrubin_comp; Enable "dynrubin"].
Definition page_room (n : Z) : Z * Z * Z := (0, 4096 * n, 4096).
Definition new_file : st (F := perfect) :=
  St (Frag.St (Heap None ∅) ∅ ∅ (replicate 60 true) []) None 0 ∅ [] (λ _, 255) only_dynrubin (page_room <$> [0; 1; 2]).
Definition granting (n : nat) (size : Z) : option (list Z) := if size <? 0 then None else Some (replicate (Z.to_nat size) 170).
Definition no_inode : raw_inode := RawInode 0 0 0 0 7 0 33188 0 0 0 0 0 0 0 0 0 0 0 0 0 0.
Definition text : list Z := replicate 30 65 ++ [10].

Lemma granting_size n size b : granting n size = Some b → Z.of_nat (length b) = size ∧ bytes b.
Proof.
  unfold granting. destruct (Z.ltb_spec size 0); [done|]. intros [= <-].
  split; [rewrite length_replicate; lia|apply Forall_replicate; lia].
Qed.
Lemma only_dynrubin_coherent : coherent 1 (Compr.compressor_list only_dynrubin).
Proof.
  apply serve_all_coherent; [split; constructor|]. intros [|[|[|k]]] r [= <-]; [|exact I].
  split; [apply dynrubin_sound|]. split; [done|]. apply not_elem_of_nil.
Qed.
Lemma page_fresh n : 0 <= n → fresh_room (F := perfect) (λ _, 255) (page_room n).
Proof.
  intros Hn _. cbn. split; [lia|]. split; [unfold sizeof_raw_inode, JFFS2_MIN_DATA_LEN; lia|].
  apply perfect_stored. intros i v [<- _]%lookup_replicate. done.
Qed.
Definition code_of : list Compr.jffs2_compressor := Compr.compressor_list only_dynrubin.
Lemma new_file_writable : writable code_of new_file [] ∅ (replicate 60 true) [] (λ _, []).
Proof.
  split; cbn.
  - split; [|split; [constructor|done]|done|done].
    split; [|done]. split; [|constructor]. exists Leaf, 0%nat. split; [split; [repeat constructor|apply NoDup_singleton]|]. split; [done|constructor].
  - split; [apply same_codes_refl|apply only_dynrubin_coherent].
  - done.
  - done.
  - repeat (apply Forall_cons; split; [apply (page_fresh 0) || apply (page_fresh 1) || apply (page_fresh 2); lia|]). constructor.
  - split_and!; [intros _; repeat (apply Forall_cons; split; [intros _; cbn; lia|]); constructor..|done].
  - done.
Qed.

Abbreviation first_write := (jffs2_write_inode_range granting 7 no_inode text 4090 (Z.of_nat (length text))).
Example write_first : fst <$> first_write new_file = Some (0, 31).
Proof. vm_compute. reflexivity. Qed.
Definition after_write : st (F := perfect) := match first_write new_file with Some (_, s) => s | None => new_file end.
Example read_first : fst <$> jffs2_read_inode_range (replicate 40 0) 4080 40 after_write = Some (0, replicate 10 0 ++ take 30 text).
Proof. vm_compute. reflexivity. Qed.

Lemma no_inode_formed : well_formed no_inode.
Proof. unfold well_formed, fits, inode_widths, inode_fields. cbn. repeat (apply Forall2_cons_2; [lia|]). apply Forall2_nil_2. Qed.
Lemma text_bytes : bytes text.
Proof. unfold text. apply Forall_app. split; [apply Forall_replicate; lia|repeat constructor; lia]. Qed.
Lemma after_write_writable : ∃ fs D mem lg data, writable code_of after_write fs D mem lg data ∧ 4080 <= extent 0 fs.
Proof.
  destruct (wp_inv _ _ _ (wp_write_inode_range code_of granting 7 granting_size only_dynrubin_coherent ltac:(lia) new_file [] ∅
    (replicate 60 true) [] (λ _, []) no_inode text 4090 new_file_writable no_inode_formed text_bytes ltac:(lia) ltac:(cbn; lia)))
    as ([r z] & s' & Hrun & w & fs & D & mem & lg & data & Hz & Hw & _ & Hwr & Hall & _). cbn [fst snd] in *.
  pose proof write_first as Hr. rewrite Hrun in Hr. injection Hr as -> _.
  exists fs, D, mem, lg, data. split.
  - unfold after_write. rewrite Hrun. exact Hw.
  - destruct Hwr as [_ ->]. rewrite (Hall eq_refl), firstn_all. cbn. lia.
Qed.
Lemma read_inode_range_reads_witness :
  ∃ fs D mem lg data s', opened code_of after_write fs D mem lg data ∧
    jffs2_read_inode_range (replicate 40 0) 4080 40 after_write = Some ((0, bytes_at fs D data 4080 40), s') ∧ only_read after_write s'.
Proof.
  destruct after_write_writable as (fs & D & mem & lg & data & Hw & Hx). pose proof (writable_opened _ _ _ _ _ _ _ Hw) as Ho.
  destruct (read_inode_range_reads code_of after_write fs D mem lg data (replicate 40 0) 4080 40 Ho ltac:(lia) ltac:(lia) ltac:(lia) eq_refl (or_intror Hx))
    as (ret & out & s' & mem' & Hrun & _ & Hr & Hout).
  pose proof read_first as Hf. rewrite Hrun in Hf. injection Hf as -> _.
  destruct Hout as [[_ ->]|[Hne _]]; [|destruct Hne; reflexivity].
  exists fs, D, mem, lg, data, s'. split; [exact Ho|]. split; [exact Hrun|exact Hr].
Defined.
Lemma write_inode_range_writes_witness :
  ∃ s' fs' D' mem' lg' data', first_write new_file = Some ((0, 31), s') ∧ writable code_of s' fs' D' mem' lg' data' ∧
    bytes_at fs' D' data' 4090 31 = text ∧ byte_at fs' D' data' 4089 = 0 ∧ extent 0 fs' = 4121.
Proof.
  destruct (write_inode_range_writes code_of granting 7 granting_size only_dynrubin_coherent ltac:(lia) new_file [] ∅
    (replicate 60 true) [] (λ _, []) no_inode text 4090 new_file_writable no_inode_formed text_bytes ltac:(lia) ltac:(cbn; lia))
    as (ret & w & s' & fs' & D' & mem' & lg' & data' & Hrun & Hw & _ & Hwr & Hall & _).
  pose proof write_first as Hr. rewrite Hrun in Hr. injection Hr as -> Hz.
  pose proof (Hall eq_refl) as Hwl. rewrite Hwl in Hwr, Hrun. rewrite firstn_all in Hwr. exists s', fs', D', mem', lg', data'. split; [exact Hrun|]. split; [exact Hw|].
  split; [exact (wrote_bytes [] ∅ (λ _, []) 4090 text fs' D' data' ltac:(lia) Hwr)|].
  destruct Hwr as [H He]. split; [by rewrite H by lia|by rewrite He].
Defined.
Lemma first_run : jffs2_write_inode_range granting 7 no_inode text 4090 (Z.of_nat (length text)) new_file = Some ((0, 31), after_write).
Proof.
  pose proof write_first as Hr. unfold after_write.
  destruct (jffs2_write_inode_range _ _ _ _ _ _ new_file) as [[a s']|]; [|discriminate Hr]. injection Hr as ->. reflexivity.
Qed.
Example read_second : fst <$> jffs2_read_inode_range (replicate 31 0) 4090 (Z.of_nat (length text)) after_write = Some (0, text).
Proof. vm_compute. reflexivity. Qed.
Lemma write_then_read_witness :
  ∃ out s2, jffs2_read_inode_range (replicate 31 0) 4090 (Z.of_nat (length text)) after_write = Some ((0, out), s2) ∧ out = text.
Proof.
  destruct (write_then_read code_of granting 7 granting_size only_dynrubin_coherent ltac:(lia) new_file [] ∅
    (replicate 60 true) [] (λ _, []) no_inode text 4090 (replicate 31 0) 0 31 after_write new_file_writable no_inode_formed text_bytes
    ltac:(lia) ltac:(cbn; lia) ltac:(discriminate) eq_refl first_run eq_refl) as [(ret & out & s2 & Hread & Hout) _].
  pose proof read_second as Hf. rewrite Hread in Hf. injection Hf as -> _. destruct Hout as [[_ Hout]|[Hne _]]; [|destruct Hne; reflexivity].
  exists out, s2. split; [exact Hread|exact Hout].
Defined.
End Runs.
