(* ===== verification/Jffs2Dir.v ===== *)
(** * Jffs2Dir: the directories of JFFS2 (fs/jffs2/nodelist.c, write.c, dir.c)

    A directory is a list of dirents sorted by the hash of the name; every change of it is a new dirent
    on the flash with the next version, the last one of a name counts, and one with inode number 0 takes
    the name away.  The name lists, the nodes on the flash, and the calls: link, unlink, rmdir, rename,
    lookup and readdir.  The checks that CONFIG_JFFS2_FS_DEBUG adds to a write are left out. *)

From stdpp Require Import sorting.
From S2P Require Import Prelude Rbtree Jffs2Frag Jffs2Rtime Jffs2Rubin Jffs2Compr Crc32 Jffs2Node Jffs2File Jffs2Write Jffs2Io.

Definition DT_UNKNOWN := 0.
Definition DT_DIR := 4.
Definition DT_REG := 8.
Definition S_IFMT := 0xf000.
Definition S_ISDIR (mode : Z) : bool := (mode &&& S_IFMT) =? 0x4000.
Definition EPERM := 1.
Definition ENOTEMPTY := 39.

Module Dirent.
Import Rb Layout Node.

(** [struct jffs2_raw_dirent]; [unused] are its two unused bytes. *)
Record raw_dirent := RawDirent {
  magic : Z; nodetype : Z; totlen : Z; hdr_crc : Z; pino : Z; version : Z; ino : Z; mctime : Z; nsize : Z; type : Z;
  unused : Z; node_crc : Z; name_crc : Z }.
Definition dirent_widths : list nat := [2; 2; 4; 4; 4; 4; 4; 4; 1; 1; 2; 4; 4]%nat.
Definition dirent_fields (r : raw_dirent) : list Z :=
  [magic r; nodetype r; totlen r; hdr_crc r; pino r; version r; ino r; mctime r; nsize r; type r; unused r; node_crc r; name_crc r].
Definition of_dirent_fields (l : list Z) : raw_dirent :=
  let f i := nth (Z.to_nat i) l 0 in RawDirent (f 0) (f 1) (f 2) (f 3) (f 4) (f 5) (f 6) (f 7) (f 8) (f 9) (f 10) (f 11) (f 12).
Definition sizeof_raw_dirent := 40.
Definition dirent_bytes (r : raw_dirent) : list Z := pack dirent_widths (dirent_fields r).
Definition dirent_of_bytes (b : list Z) : raw_dirent := of_dirent_fields (unpack dirent_widths b).
(** [crc32(0, rd, sizeof( *rd)-8)] *)
Definition dirent_crc (b : list Z) : Z := Crc.crc32 0 (take 32 b).

(** [struct jffs2_full_dirent]: [name] is the buffer, of [namelen+1] bytes. *)
Record full_dirent := FullDirent { raw : nat; fversion : Z; fino : Z; nhash : Z; ftype : Z; name : list Z }.
#[export] Instance full_dirent_eq_dec : EqDecision full_dirent.
Proof. solve_decision. Defined.
(** The string at the start of a buffer, [strlen] and [strcmp(..) == 0]. *)
Fixpoint cstring (b : list Z) : list Z :=
  match b with [] => [] | x :: b => if x =? 0 then [] else x :: cstring b end.
Definition strlen (b : list Z) : Z := Z.of_nat (length (cstring b)).
Definition same_string (a b : list Z) : bool := bool_decide (cstring a = cstring b).

(** [jffs2_add_fd_to_list]: the list, and the node that becomes obsolete. *)
Fixpoint jffs2_add_fd_to_list (new : full_dirent) (prev : list full_dirent) : list full_dirent * option nat :=
  match prev with
  | [] => ([new], None)
  | d :: rest =>
      if nhash d <=? nhash new
      then
        if (nhash d =? nhash new) && same_string (name d) (name new)
        then if fversion new <? fversion d then (d :: rest, Some (raw new)) else (new :: rest, Some (raw d))
        else let '(l, o) := jffs2_add_fd_to_list new rest in (d :: l, o)
      else (new :: d :: rest, None)
  end.

(** The search of [jffs2_lookup]; [len] and [hash] are those of the name that is looked up. *)
Definition same_name (d : full_dirent) (target : list Z) : bool :=
  (strlen (name d) =? Z.of_nat (length target)) && bool_decide (take (length target) (name d) = target).
Fixpoint lookup_loop (l : list full_dirent) (hash : Z) (target : list Z) (fd : option full_dirent) : option full_dirent :=
  match l with
  | [] => fd
  | d :: l =>
      if nhash d <=? hash
      then
        lookup_loop l hash target
          (if (nhash d =? hash) && match fd with None => true | Some f => fversion f <? fversion d end && same_name d target
           then Some d else fd)
      else fd
  end.

(** [jffs2_readdir]: an entry as [filldir] gets it, and the loop from the dirent at [curofs+1] on. *)
Record entry := Entry { e_name : list Z; e_offset : Z; e_ino : Z; e_type : Z }.
Section Readdir.
Context {B : Type} (filldir : B → entry → option B).
Fixpoint readdir_loop (l : list full_dirent) (curofs offset : Z) (b : B) : Z * B :=
  match l with
  | [] => (offset, b)
  | fd :: l =>
      let curofs := curofs + 1 in
      if curofs <? offset then readdir_loop l curofs offset b
      else if fino fd =? 0 then readdir_loop l curofs (offset + 1) b
      else
        match filldir b (Entry (cstring (name fd)) offset (fino fd) (ftype fd)) with
        | None => (offset, b)
        | Some b => readdir_loop l curofs (offset + 1) b
        end
  end.
Definition dot : list Z := [46].
Definition dotdot : list Z := [46; 46].
Definition jffs2_readdir (i_ino parent_ino : Z) (dents : list full_dirent) (f_pos : Z) (b : B) : Z * B :=
  match (if f_pos =? 0 then option_map (pair 1) (filldir b (Entry dot 0 i_ino DT_DIR)) else Some (f_pos, b)) with
  | None => (f_pos, b)
  | Some (offset, b) =>
      match (if offset =? 1 then option_map (pair 2) (filldir b (Entry dotdot 1 parent_ino DT_DIR)) else Some (offset, b)) with
      | None => (offset, b)
      | Some (offset, b) => readdir_loop dents 1 offset b
      end
  end.
End Readdir.

(** ** The calls that write *)

(** [struct jffs2_inode_cache], [struct jffs2_inode_info] with what is used of its [struct inode]. *)
Record inode_cache := Cache { c_ino : Z; nlink : Z; c_nodes : list nat }.
Record inode_info := Inode {
  dents : list full_dirent; highest_version : Z; inocache : option inode_cache; i_ino : Z; i_mode : Z; i_nlink : Z }.
Definition with_dents (l : list full_dirent) (f : inode_info) :=
  Inode l (highest_version f) (inocache f) (i_ino f) (i_mode f) (i_nlink f).
Definition with_version (v : Z) (f : inode_info) := Inode (dents f) v (inocache f) (i_ino f) (i_mode f) (i_nlink f).
Definition with_cache (c : option inode_cache) (f : inode_info) := Inode (dents f) (highest_version f) c (i_ino f) (i_mode f) (i_nlink f).
Definition with_nlink (n : Z) (f : inode_info) := Inode (dents f) (highest_version f) (inocache f) (i_ino f) (i_mode f) (u32 n).

Section Calls.
Context {F : Type} `{!Mtd F}.

(** The inodes by address, beside the state of Jffs2Node.v: memory, raw references, flash, free space
    and the file that is open. *)
Record st := St { inodes : gmap nat inode_info; sys : Node.st (F := F) }.
Abbreviation D := (SM st).
Definition on_sys {A} (m : SM (Node.st (F := F)) A) : D A :=
  λ s, match m (sys s) with Some (a, y) => Some (a, St (inodes s) y) | None => None end.
Definition iget {A} (f : inode_info → A) (i : nat) : D A :=
  λ s, match inodes s !! i with Some v => Some (f v, s) | None => None end.
Definition iput (f : inode_info → inode_info) (i : nat) : D unit :=
  λ s, match inodes s !! i with Some v => Some (tt, St (<[i := f v]> (inodes s)) (sys s)) | None => None end.
(** [f->inocache], which is not a null pointer. *)
Definition cache (i : nat) : D inode_cache := c ← iget inocache i; match c with Some c => mret c | None => fault end.
Definition put_cache (f : inode_cache → inode_cache) (i : nat) : D unit :=
  c ← cache i; iput (with_cache (Some (f c))) i.
Definition add_node (r : nat) (c : inode_cache) : inode_cache := Cache (c_ino c) (nlink c) (r :: c_nodes c).
Definition set_nlink (n : Z) (c : inode_cache) : inode_cache := Cache (c_ino c) n (c_nodes c).
Definition alloc : D bool := on_sys (on_map Node.alloc).
Definition next_version (i : nat) : D Z :=
  v ← iget highest_version i; let v := u32 (v + 1) in iput (with_version v) i;; mret v.

(** The kernel's hash of a name, and what a new [struct jffs2_raw_dirent] holds. *)
Context (full_name_hash : list Z → Z) (slab_dirent : raw_dirent).

(** *** [jffs2_write_dirent] *)

Definition with_dirent_version (v crc : Z) (r : raw_dirent) : raw_dirent :=
  RawDirent (magic r) (nodetype r) (totlen r) (hdr_crc r) (pino r) v (ino r) (mctime r) (nsize r) (type r) (unused r) crc (name_crc r).
Definition with_full_version (v : Z) (d : full_dirent) : full_dirent := FullDirent (raw d) v (fino d) (nhash d) (ftype d) (name d).
Definition with_raw (r : nat) (d : full_dirent) : full_dirent := FullDirent r (fversion d) (fino d) (nhash d) (ftype d) (name d).
(** From [retry:] to the result of the write; [None] when the node is on the flash, or the failed result. *)
Definition write_once (retried : bool) (i : nat) (rd : raw_dirent) (dname : list Z) (flash_ofs alloc_mode : Z) (fd : full_dirent) (r : nat) :
    D (raw_dirent * full_dirent * option Z) :=
  let fd := with_raw r fd in
  on_sys (puts (λ s, with_refs (<[r := flash_ofs]> (ref_at s)) s));;
  hv ← iget highest_version i;
  '(rd, fd) ← (if negb (alloc_mode =? ALLOC_GC) && (version rd <? hv)
               then
                 if retried
                 then v ← next_version i; let rd := with_dirent_version v (node_crc rd) rd in
                      mret (with_dirent_version v (dirent_crc (dirent_bytes rd)) rd, with_full_version v fd)
                 else fault
               else mret (rd, fd));
  '(ret, retlen) ← on_sys (jffs2_flash_writev [dirent_bytes rd; dname] flash_ofs);
  if truthy ret || negb (retlen =? sizeof_raw_dirent + Z.of_nat (length dname))
  then
    on_sys (if truthy retlen then on_map (Frag.mark (Frag.Physical r));; on_map (Frag.jffs2_mark_node_obsolete r)
            else jffs2_free_raw_node_ref r);;
    mret (rd, fd, Some ret)
  else
    on_sys (on_map (Frag.mark (Frag.Pristine r)));;
    on_sys (on_map (Frag.mark (Frag.Physical r)));;
    put_cache (add_node r) i;;
    mret (rd, fd, None).
(** The loop around it, with [tries] more tries; the answer is an error or the dirent. *)
Fixpoint write_attempt (tries : nat) (i : nat) (rd : raw_dirent) (dname : list Z) (flash_ofs alloc_mode : Z) (fd : full_dirent) (r : nat) :
    D (Z + full_dirent) :=
  '(rd, fd, res) ← write_once (tries =? 0)%nat i rd dname flash_ofs alloc_mode fd r;
  let yield_error ret := mret (inl (if truthy ret then ret else - EIO)) in
  match res, tries with
  | None, _ => mret (inr fd)
  | Some ret, O => yield_error ret
  | Some ret, S tries =>
      r ← on_sys jffs2_alloc_raw_node_ref;
      match r with
      | Some r =>
          '(ret, flash_ofs, _) ← on_sys jffs2_reserve_space;
          if truthy ret then on_sys (jffs2_free_raw_node_ref r);; yield_error ret
          else write_attempt tries i rd dname flash_ofs alloc_mode fd r
      | None => yield_error ret
      end
  end.
Definition jffs2_write_dirent (i : nat) (rd : raw_dirent) (dname : list Z) (flash_ofs alloc_mode : Z) : D (Z + full_dirent) :=
  r ← on_sys jffs2_alloc_raw_node_ref;
  match r with
  | None => mret (inl (- ENOMEM))
  | Some r =>
      ok ← alloc;
      if negb ok then on_sys (jffs2_free_raw_node_ref r);; mret (inl (- ENOMEM))
      else
        write_attempt 1 i rd dname flash_ofs alloc_mode
          (FullDirent r (version rd) (ino rd) (full_name_hash (cstring dname)) (type rd) (dname ++ [0])) r
  end.

(** *** The raw dirent of a change: the header with its checksum, the rest, and the two other checksums *)

Definition fill_header (rd : raw_dirent) (namelen : Z) : raw_dirent :=
  RawDirent JFFS2_MAGIC_BITMASK JFFS2_NODETYPE_DIRENT (u32 (sizeof_raw_dirent + namelen)) (hdr_crc rd) (pino rd) (version rd) (ino rd)
    (mctime rd) (nsize rd) (type rd) (unused rd) (node_crc rd) (name_crc rd).
Definition fill_body (rd : raw_dirent) (dir_ino v target now namelen kind : Z) : raw_dirent :=
  RawDirent (magic rd) (nodetype rd) (totlen rd) (header_crc (dirent_bytes rd)) dir_ino v target now (u8 namelen) kind
    (unused rd) (node_crc rd) (name_crc rd).
Definition fill_checks (rd : raw_dirent) (dname : list Z) : raw_dirent :=
  RawDirent (magic rd) (nodetype rd) (totlen rd) (hdr_crc rd) (pino rd) (version rd) (ino rd) (mctime rd) (nsize rd) (type rd)
    (unused rd) (dirent_crc (dirent_bytes rd)) (Crc.crc32 0 dname).
Definition build_dirent (dir_ino v target now kind : Z) (dname : list Z) : raw_dirent :=
  let namelen := Z.of_nat (length dname) in
  fill_checks (fill_body (fill_header slab_dirent namelen) dir_ino v target now namelen kind) dname.
(** The dirent is written and filed in the directory, where it makes an older one obsolete. *)
Definition file_dirent (i : nat) (fd : full_dirent) : D unit :=
  l ← iget dents i;
  let '(l, o) := jffs2_add_fd_to_list fd l in
  iput (with_dents l) i;;
  match o with Some r => on_sys (on_map (Frag.jffs2_mark_node_obsolete r)) | None => mret tt end.
Definition change_name (i : nat) (target now kind : Z) (dname : list Z) (phys_ofs alloc_mode : Z) : D Z :=
  c ← cache i;
  v ← next_version i;
  r ← jffs2_write_dirent i (build_dirent (c_ino c) v target now kind dname) dname phys_ofs alloc_mode;
  match r with
  | inl e => mret e
  | inr fd => file_dirent i fd;; mret 0
  end.

(** *** write.c and dir.c; [now] is the answer of [get_seconds] *)

(** Memory for the raw dirent and room for the node, before anything else. *)
Definition with_room (k : Z → D Z) : D Z :=
  ok ← alloc;
  if negb ok then mret (- ENOMEM)
  else '(ret, phys_ofs, _) ← on_sys jffs2_reserve_space; if truthy ret then mret ret else k phys_ofs.
Definition jffs2_do_link (dir_f : nat) (target kind : Z) (dname : list Z) (now : Z) : D Z :=
  with_room (λ phys_ofs, change_name dir_f target now kind dname phys_ofs ALLOC_NORMAL).

(** The dirents of a directory that goes away. *)
Fixpoint obsolete_dents (l : list full_dirent) : D unit :=
  match l with [] => mret tt | fd :: l => on_sys (on_map (Frag.jffs2_mark_node_obsolete (raw fd)));; obsolete_dents l end.
Definition bury (dead_f : nat) : D unit :=
  c ← iget inocache dead_f;
  match c with
  | None => mret tt
  | Some c =>
      mode ← iget i_mode dead_f;
      (if S_ISDIR mode then l ← iget dents dead_f; obsolete_dents l;; iput (with_dents []) dead_f else mret tt);;
      put_cache (λ c, set_nlink (nlink c - 1) c) dead_f
  end.
Definition jffs2_do_unlink (dir_f : nat) (dname : list Z) (dead_f : option nat) (now : Z) : D Z :=
  with_room (λ phys_ofs,
    ret ← change_name dir_f 0 now DT_UNKNOWN dname phys_ofs ALLOC_DELETION;
    if truthy ret then mret ret
    else match dead_f with Some d => bury d | None => mret tt end;; mret 0).

Definition jffs2_unlink (dir_i : nat) (dname : list Z) (dead : nat) (now : Z) : D Z :=
  ret ← jffs2_do_unlink dir_i dname (Some dead) now;
  c ← iget inocache dead;
  match c with Some c => iput (with_nlink (nlink c)) dead | None => mret tt end;;
  mret ret.
(** [inode->i_nlink += d] and, if there is one, [f->inocache->nlink += d]. *)
Definition count_links (d : Z) (i : nat) : D unit := n ← iget i_nlink i; iput (with_nlink (n + d)) i.
Definition count_cached (d : Z) (i : nat) : D unit :=
  c ← iget inocache i; match c with Some _ => put_cache (λ c, set_nlink (nlink c + d) c) i | None => mret tt end.
Definition has_entries (l : list full_dirent) : bool := existsb (λ fd, negb (fino fd =? 0)) l.
Definition jffs2_rmdir (dir_i : nat) (dname : list Z) (dead : nat) (now : Z) : D Z :=
  l ← iget dents dead;
  if has_entries l then mret (- ENOTEMPTY)
  else
    ret ← jffs2_unlink dir_i dname dead now;
    (if truthy ret then mret tt else count_links (-1) dir_i);;
    mret ret.
Definition mode_type (mode : Z) : Z := let t := (mode &&& S_IFMT) >>> 12 in if truthy t then t else DT_REG.
Definition jffs2_link (old : nat) (dir_i : nat) (dname : list Z) (now : Z) : D Z :=
  c ← iget inocache old;
  match c with
  | None => mret (- EIO)
  | Some c =>
      mode ← iget i_mode old;
      if S_ISDIR mode then mret (- EPERM)
      else
        ret ← jffs2_do_link dir_i (c_ino c) (mode_type mode) dname now;
        (if truthy ret then mret tt
         else put_cache (λ c, set_nlink (nlink c + 1) c) old;; c ← cache old; iput (with_nlink (nlink c)) old);;
        mret ret
  end.
(** [jffs2_rename]: the new name; the victim loses a link, or the new parent wins one; the old name. *)
Definition victim_full (victim : option nat) : D bool :=
  match victim with
  | Some v => mode ← iget i_mode v; l ← iget dents v; mret (S_ISDIR mode && has_entries l)
  | None => mret false
  end.
Definition rename_links (victim : option nat) (mode : Z) (new_dir : nat) : D unit :=
  match victim with
  | Some v => count_links (-1) v;; count_cached (-1) v
  | None => if S_ISDIR mode then count_links 1 new_dir else mret tt
  end.
Definition rename_end (old_dir old : nat) (mode ret : Z) : D Z :=
  if truthy ret
  then count_links 1 old;; count_cached 1 old;; mret ret
  else (if S_ISDIR mode then count_links (-1) old_dir else mret tt);; mret 0.
Definition jffs2_rename (old_dir : nat) (old_name : list Z) (old : nat) (new_dir : nat) (new_name : list Z) (victim : option nat) (now now' : Z) : D Z :=
  full ← victim_full victim;
  if full : bool then mret (- ENOTEMPTY)
  else
    mode ← iget i_mode old;
    target ← iget i_ino old;
    ret ← jffs2_do_link new_dir target (mode_type mode) new_name now;
    if truthy ret then mret ret
    else
      rename_links victim mode new_dir;;
      ret ← jffs2_do_unlink old_dir old_name None now';
      rename_end old_dir old mode ret.

(** [jffs2_do_create]: the node of the new file, which is the open one, and its name. *)
Definition with_checks (data_crc : Z) (r : raw_inode) : raw_inode :=
  let r := RawInode (Layout.magic r) (Layout.nodetype r) (Layout.totlen r) (Layout.hdr_crc r) (Layout.ino r) (Layout.version r) (mode r)
    (uid r) (gid r) (isize r) (atime r) (mtime r) (ctime r) (offset r) (csize r) (dsize r) (compr r) (usercompr r) (flags r) data_crc
    (Layout.node_crc r) in
  with_node_version (Layout.version r) (inode_crc (inode_bytes r)) r.
Definition jffs2_do_create (dir_f : nat) (ri : raw_inode) (dname : list Z) : D Z :=
  '(ret, phys_ofs, _) ← on_sys jffs2_reserve_space;
  if truthy ret then mret ret
  else
    '(ri, r) ← on_sys (jffs2_write_dnode (with_checks 0 ri) [] phys_ofs ALLOC_NORMAL);
    match r with
    | inl e => mret e
    | inr fn =>
        on_sys (puts (with_metadata (Some fn)));;
        '(ret, phys_ofs, _) ← on_sys jffs2_reserve_space;
        if truthy ret then mret ret
        else
          ok ← alloc;
          if negb ok then mret (- ENOMEM)
          else change_name dir_f (Layout.ino ri) (ctime ri) DT_REG dname phys_ofs ALLOC_NORMAL
    end.

(** [jffs2_lookup]: no inode, the inode, or [-EIO] when [iget] does not find it. *)
Definition jffs2_lookup (dir_i : nat) (hash : Z) (target : list Z) (iget_finds : Z → bool) : D (Z + option Z) :=
  l ← iget dents dir_i;
  let ino := match lookup_loop l hash target None with Some fd => fino fd | None => 0 end in
  if truthy ino then if iget_finds ino then mret (inr (Some ino)) else mret (inl (- EIO)) else mret (inr None).
End Calls.
End Dirent.

(** ** The list of a directory *)

Section Lists.
Import Dirent.
Context (full_name_hash : list Z → Z).

Definition cname (d : full_dirent) : list Z := cstring (name d).
Definition hashed (d : full_dirent) : Prop := nhash d = full_name_hash (cname d).
(** Sorted by hash, no name twice. *)
Definition filed (l : list full_dirent) : Prop :=
  StronglySorted (λ a b, nhash a <= nhash b) l ∧ Forall hashed l ∧ NoDup (cname <$> l).

Inductive added (new : full_dirent) (l : list full_dirent) : list full_dirent * option nat → Prop :=
  | added_new l1 l2 : l = l1 ++ l2 → Forall (λ d, nhash d <= nhash new) l1 → Forall (λ d, nhash new < nhash d) l2 →
      cname new ∉ cname <$> l → added new l (l1 ++ new :: l2, None)
  | added_late l1 d l2 : l = l1 ++ d :: l2 → cname d = cname new → fversion new < fversion d → added new l (l, Some (raw new))
  | added_instead l1 d l2 : l = l1 ++ d :: l2 → cname d = cname new → fversion d <= fversion new → added new l (l1 ++ new :: l2, Some (raw d)).

Lemma filed_inv d l : filed (d :: l) → filed l ∧ hashed d ∧ Forall (λ e, nhash d <= nhash e) l ∧ cname d ∉ cname <$> l.
Proof. intros ([Hs Hall]%StronglySorted_inv & [Hh Hhs]%Forall_cons & [Hn Hnd]%NoDup_cons). done. Qed.
Lemma add_fd_added new l : hashed new → filed l → added new l (jffs2_add_fd_to_list new l).
Proof.
  intros Hn. induction l as [|d l IH]; intros Hf; cbn [jffs2_add_fd_to_list].
  { apply (added_new _ _ [] []); try constructor. set_solver. }
  apply filed_inv in Hf as (Hf & Hd & Hall & Hnew). unfold same_string. fold (cname d). fold (cname new).
  destruct (Z.leb_spec (nhash d) (nhash new)).
  - case_bool_decide as Hs; [|rewrite andb_false_r].
    + rewrite (proj2 (Z.eqb_eq _ _)) by (rewrite Hd, Hn; congruence). cbn [andb].
      destruct (Z.ltb_spec (fversion new) (fversion d)); [by apply (added_late _ _ [] d l)|by apply (added_instead _ _ [] d l)].
    + specialize (IH Hf). destruct (jffs2_add_fd_to_list new l) as [l' o].
      inversion IH as [l1 l2 -> H1 H2 Hno|l1 e l2 -> He Hv|l1 e l2 -> He Hv]; subst.
      * apply (added_new _ _ (d :: l1) l2); [done|by constructor|done|]. set_solver.
      * by apply (added_late _ _ (d :: l1) e l2).
      * by apply (added_instead _ _ (d :: l1) e l2).
  - apply (added_new _ _ [] (d :: l)); [done|constructor|constructor; [lia|]|].
    + eapply Forall_impl; [exact Hall|]. cbn. lia.
    + intros (e & He & Hin)%list_elem_of_fmap. assert (hashed e) as Hh.
      { apply elem_of_cons in Hin as [->|Hin]; [done|]. destruct Hf as (_ & Hh & _). rewrite Forall_forall in Hh. by apply Hh. }
      assert (nhash d <= nhash e); [|unfold hashed in *; rewrite He in Hn; lia].
      apply elem_of_cons in Hin as [->|Hin]; [lia|]. rewrite Forall_forall in Hall. by apply Hall.
Qed.
Lemma sorted_around (R : full_dirent → full_dirent → Prop) l1 d l2 :
  StronglySorted R (l1 ++ l2) → Forall (λ e, R e d) l1 → Forall (R d) l2 → StronglySorted R (l1 ++ d :: l2).
Proof.
  induction l1 as [|e l1 IH]; cbn; [by constructor|]. intros [Hs Hall]%StronglySorted_inv [He H1]%Forall_cons H2.
  constructor; [by apply IH|]. rewrite Forall_app in *. destruct Hall. split; [done|by constructor].
Qed.
Lemma sorted_swap (f : full_dirent → Z) l1 d e l2 :
  f d = f e → StronglySorted (λ a b, f a <= f b) (l1 ++ d :: l2) → StronglySorted (λ a b, f a <= f b) (l1 ++ e :: l2).
Proof.
  intros He. induction l1 as [|x l1 IH]; cbn; intros [Hs Hall]%StronglySorted_inv; constructor.
  - done.
  - eapply Forall_impl; [exact Hall|]. cbn. lia.
  - by apply IH.
  - rewrite Forall_app, Forall_cons in *. destruct Hall as (? & ? & ?). split_and!; [done|lia|done].
Qed.
Lemma filed_added new l r : hashed new → filed l → added new l r → filed r.1.
Proof.
  intros Hn (Hs & Hh & Hnd) [l1 l2 -> H1 H2 Hno|l1 d l2 -> He Hv|l1 d l2 -> He Hv]; cbn [fst]; [|done|].
  - apply Forall_app in Hh as [Hh1 Hh2]. split_and!.
    + apply sorted_around; [done|done|]. eapply Forall_impl; [exact H2|]. cbn. lia.
    + apply Forall_app. split; [done|by constructor].
    + rewrite fmap_app, fmap_cons, <-Permutation_middle, <-fmap_app. by constructor.
  - apply Forall_app in Hh as [Hh1 [Hd Hh2]%Forall_cons]. split_and!.
    + eapply sorted_swap; [|exact Hs]. unfold hashed in *. congruence.
    + apply Forall_app. split; [done|by constructor].
    + rewrite fmap_app, fmap_cons in *. by rewrite <-He.
Qed.

(** What the directory shows: names with inode number and type, without the deleted ones. *)
Definition listing (l : list full_dirent) : gmap (list Z) (Z * Z) :=
  list_to_map ((λ d, (cname d, (fino d, ftype d))) <$> filter (λ d, fino d ≠ 0) l).
Definition enter (d : full_dirent) (m : gmap (list Z) (Z * Z)) : gmap (list Z) (Z * Z) :=
  if fino d =? 0 then delete (cname d) m else <[cname d := (fino d, ftype d)]> m.
Lemma listing_absent l n : n ∉ cname <$> l → listing l !! n = None.
Proof.
  intros Hn. apply not_elem_of_list_to_map_1. intros (p & -> & (d & -> & Hd)%list_elem_of_fmap)%list_elem_of_fmap. cbn in Hn.
  apply list_elem_of_filter in Hd as [_ Hd]. apply Hn, list_elem_of_fmap. by exists d.
Qed.
Lemma listing_cons d l : cname d ∉ cname <$> l → listing (d :: l) = enter d (listing l).
Proof.
  intros Hd. unfold listing, enter. rewrite filter_cons. destruct (Z.eqb_spec (fino d) 0) as [Hz|Hz].
  - rewrite decide_False by tauto. symmetry. apply delete_id. by apply listing_absent.
  - by rewrite decide_True.
Qed.
Lemma listing_perm l l' : NoDup (cname <$> l) → l ≡ₚ l' → listing l = listing l'.
Proof.
  intros Hn Hp. apply list_to_map_proper; [|by rewrite Hp]. rewrite <-list_fmap_compose.
  change (NoDup (cname <$> filter (λ d, fino d ≠ 0) l)). eapply sublist_NoDup; [exact Hn|]. apply fmap_sublist, sublist_filter.
Qed.
Lemma enter_twice d e m : cname d = cname e → enter e (enter d m) = enter e m.
Proof.
  intros He. unfold enter. rewrite He. destruct (fino e =? 0), (fino d =? 0).
  - by rewrite delete_delete_eq.
  - by rewrite delete_insert_eq.
  - by rewrite insert_delete_eq.
  - by rewrite insert_insert_eq.
Qed.
Lemma NoDup_middle l1 d l2 : NoDup (cname <$> l1 ++ d :: l2) → cname d ∉ cname <$> l1 ++ l2 ∧ NoDup (cname <$> l1 ++ l2).
Proof. rewrite <-Permutation_middle, fmap_cons. apply NoDup_cons. Qed.
Lemma listing_middle l1 d l2 : NoDup (cname <$> l1 ++ d :: l2) → listing (l1 ++ d :: l2) = enter d (listing (l1 ++ l2)).
Proof.
  intros Hn. rewrite (listing_perm _ (d :: l1 ++ l2)) by (by rewrite ?Permutation_middle). apply listing_cons. by apply NoDup_middle.
Qed.
(** The newest dirent of a name decides. *)
Lemma listing_added new l r :
  NoDup (cname <$> l) → (∀ d, d ∈ l → fversion d <= fversion new) → added new l r → listing r.1 = enter new (listing l).
Proof.
  intros Hn Hv [l1 l2 -> H1 H2 Hno|l1 d l2 -> He Hlt|l1 d l2 -> He Hle]; cbn [fst].
  - apply listing_middle. rewrite <-Permutation_middle, fmap_cons. by constructor.
  - specialize (Hv d ltac:(set_solver)). lia.
  - rewrite (listing_middle l1 d l2) by done. rewrite enter_twice by done. apply listing_middle.
    rewrite fmap_app, fmap_cons in *. by rewrite <-He.
Qed.

(** ** The nodes of a directory, replayed *)

Definition replay (L : list full_dirent) : list full_dirent := foldl (λ l d, (jffs2_add_fd_to_list d l).1) [] L.
Definition newest (L : list full_dirent) (d : full_dirent) : Prop := d ∈ L ∧ ∀ e, e ∈ L → cname e = cname d → fversion e <= fversion d.
Definition versions_differ (L : list full_dirent) : Prop :=
  ∀ d e, d ∈ L → e ∈ L → cname d = cname e → fversion d = fversion e → d = e.
Lemma replay_snoc L d : replay (L ++ [d]) = (jffs2_add_fd_to_list d (replay L)).1.
Proof. unfold replay. by rewrite foldl_app. Qed.
Lemma filed_unique l d e : filed l → d ∈ l → e ∈ l → cname d = cname e → d = e.
Proof.
  intros (_ & _ & Hn) Hd He Hde. apply list_elem_of_lookup in Hd as [i Hi], He as [j Hj].
  assert (i = j) as ->; [|congruence]. eapply NoDup_lookup; [exact Hn|by rewrite list_lookup_fmap, Hi|by rewrite list_lookup_fmap, Hj, Hde].
Qed.
Lemma added_members new l r :
  filed l → added new l r →
  ∀ d, d ∈ r.1 ↔ (d ∈ l ∧ (cname d = cname new → fversion new < fversion d)) ∨ (d = new ∧ ∀ e, e ∈ l → cname e = cname new → fversion e <= fversion new).
Proof.
  intros Hf [l1 l2 -> H1 H2 Hno|l1 x l2 -> He Hv|l1 x l2 -> He Hv] d; cbn [fst].
  - assert (∀ e, e ∈ l1 ++ l2 → cname e ≠ cname new) as Hne.
    { intros e Hin He. apply Hno. rewrite <-He. by apply list_elem_of_fmap_2. }
    split.
    + intros Hd. assert (d = new ∨ d ∈ l1 ++ l2) as [->|Hin] by (rewrite elem_of_app in *; rewrite elem_of_cons in *; tauto).
      * right. split; [done|]. intros e He Hen. by destruct (Hne e He).
      * left. split; [done|]. intros Hdn. by destruct (Hne d Hin).
    + rewrite !elem_of_app, elem_of_cons. intros [[Hd _]|[-> _]]; [tauto|by right; left].
  - assert (∀ e, e ∈ l1 ++ x :: l2 → cname e = cname new → e = x) as Hx.
    { intros e Hin Hen. eapply filed_unique; [exact Hf|done| |congruence]. apply elem_of_app. right. left. }
    split.
    + intros Hd. left. split; [done|]. intros Hdn. by rewrite (Hx d Hd Hdn).
    + intros [[Hd _]|[-> Hall]]; [exact Hd|]. specialize (Hall x ltac:(apply elem_of_app; right; left) He). lia.
  - assert (NoDup (cname <$> l1 ++ x :: l2)) as Hnd by apply Hf. apply NoDup_middle in Hnd as [Hnx _].
    assert (∀ e, e ∈ l1 ++ l2 → cname e ≠ cname new) as Hne.
    { intros e Hin Hen. apply Hnx. rewrite He, <-Hen. by apply list_elem_of_fmap_2. }
    split.
    + intros Hd. assert (d = new ∨ d ∈ l1 ++ l2) as [->|Hin] by (rewrite elem_of_app in *; rewrite elem_of_cons in *; tauto).
      * right. split; [done|]. intros e [Hin|[->|Hin]%elem_of_cons]%elem_of_app Hen; [|done|]; destruct (Hne e); rewrite ?elem_of_app; tauto.
      * left. split; [apply elem_of_app in Hin; rewrite elem_of_app, elem_of_cons; tauto|]. intros Hdn. by destruct (Hne d Hin).
    + rewrite !elem_of_app, !elem_of_cons. intros [[[Hd|[->|Hd]] Hn]|[-> _]]; [tauto|specialize (Hn He); lia|tauto|by right; left].
Qed.
Lemma newest_exists L e : e ∈ L → ∃ d, newest L d ∧ cname d = cname e ∧ fversion e <= fversion d.
Proof.
  revert e. induction L as [|x L IH]; intros e He; [set_solver|].
  assert (∃ d, newest L d ∧ cname d = cname e ∧ (e ∈ L → fversion e <= fversion d) ∨ d = x ∧ cname e = cname x ∧ ∀ y, y ∈ L → cname y ≠ cname x) as [d Hd].
  { destruct (decide (e ∈ L)) as [Hin|Hout].
    - destruct (IH e Hin) as (d & ? & ? & ?). exists d. by left.
    - assert (e = x) as -> by set_solver. destruct (decide (Exists (λ y, cname y = cname x) L)) as [Hex|Hno].
      + apply Exists_exists in Hex as (y & Hy & Hyx). destruct (IH y Hy) as (d & ? & ? & ?). exists d. left. split_and!; [done|congruence|done].
      + exists x. right. split_and!; [done..|]. intros y Hy Hyx. apply Hno, Exists_exists. by exists y. }
  destruct Hd as [([Hd Hn] & Hde & Hle)|(-> & Hex & Hno)].
  - destruct (decide (cname x = cname d ∧ fversion d <= fversion x)) as [[Hxd Hxle]|Hlt].
    + exists x. split_and!; [|congruence|].
      * split; [set_solver|]. intros y [->|Hy]%elem_of_cons Hyx; [lia|]. specialize (Hn y Hy ltac:(congruence)). lia.
      * apply elem_of_cons in He as [->|He]; [lia|]. specialize (Hle He). lia.
    + assert (cname x = cname d → fversion x < fversion d) as Hxlt by (intros ?; apply Z.nle_gt; intros ?; by apply Hlt).
      exists d. split_and!; [|done|].
      * split; [set_solver|]. intros y [->|Hy]%elem_of_cons Hyd; [specialize (Hxlt Hyd); lia|by apply Hn].
      * apply elem_of_cons in He as [->|He]; [specialize (Hxlt (eq_sym Hde)); lia|by apply Hle].
  - exists x. assert (e = x) as -> by (apply elem_of_cons in He as [->|He]; [done|by destruct (Hno e He)]).
    split_and!; [|done|lia]. split; [set_solver|]. intros y [->|Hy]%elem_of_cons Hyx; [lia|by destruct (Hno y Hy)].
Qed.
Lemma replay_newest L : Forall hashed L → versions_differ L → filed (replay L) ∧ ∀ d, d ∈ replay L ↔ newest L d.
Proof.
  induction L as [|x L IH] using rev_ind; intros Hh Hv.
  { split; [split_and!; constructor|]. intros d. unfold newest. set_solver. }
  apply Forall_app in Hh as [Hh [Hx _]%Forall_cons]. destruct (IH Hh) as [Hf Hm]; [intros d e Hd He; apply Hv; set_solver|].
  rewrite replay_snoc. pose proof (add_fd_added x _ Hx Hf) as Ha. split; [by eapply filed_added|]. intros d.
  rewrite (added_members _ _ _ Hf Ha), Hm. unfold newest. setoid_rewrite elem_of_app. setoid_rewrite list_elem_of_singleton. split.
  - intros [[[Hd Hn] Hlt]|[-> Hn]].
    + split; [by left|]. intros e [He|Hex] Hed; [by apply Hn|subst e]. specialize (Hlt (eq_sym Hed)). lia.
    + split; [by right|]. intros e [He|Hex] Hed; [|subst; lia].
      destruct (newest_exists L e He) as (m & Hm' & Hme & Hle). specialize (Hn m ltac:(by apply Hm) ltac:(congruence)). lia.
  - intros [[Hd|Heq] Hn]; [|subst d; right; split; [done|]; intros e He Hed; apply Hn; [left; by apply Hm, He|done]].
    destruct (decide (cname x = cname d ∧ fversion d <= fversion x)) as [[Hxd Hle]|Hno].
    + assert (d = x) as ->; [|right; split; [done|]; intros e He Hed; apply Hn; [left; by apply Hm, He|done]].
      apply Hv; [set_solver|set_solver|done|]. specialize (Hn x (or_intror eq_refl) Hxd). lia.
    + left. split; [split; [done|]; intros e He Hed; apply Hn; [by left|done]|]. intros Hdx. apply Z.nle_gt. intros Hle. by apply Hno.
Qed.
(** The order in which the nodes are met does not matter, nor do obsolete ones. *)
Lemma replay_same L L' :
  Forall hashed L → versions_differ L → (∀ d, d ∈ L' → d ∈ L) → (∀ d, newest L d → d ∈ L') → replay L ≡ₚ replay L'.
Proof.
  intros Hh Hv Hsub Hall. destruct (replay_newest L Hh Hv) as [Hf Hm].
  assert (Forall hashed L') as Hh'. { rewrite Forall_forall in *. intros d Hd. by apply Hh, Hsub. }
  assert (versions_differ L') as Hv' by (intros d e Hd He; apply Hv; by apply Hsub).
  destruct (replay_newest L' Hh' Hv') as [Hf' Hm']. apply NoDup_Permutation.
  - destruct Hf as (_ & _ & Hn). by eapply NoDup_fmap_1.
  - destruct Hf' as (_ & _ & Hn). by eapply NoDup_fmap_1.
  - intros d. rewrite Hm, Hm'. split.
    + intros [Hd Hn]. split; [by apply Hall|]. intros e He. apply Hn. by apply Hsub.
    + intros [Hd Hn]. split; [by apply Hsub|]. intros e He Hed.
      destruct (newest_exists L e He) as (m & Hm0 & Hme & Hle). specialize (Hn m (Hall m Hm0) ltac:(congruence)). lia.
Qed.

(** ** Looking a name up *)

Lemma take_cstring b : take (length (cstring b)) b = cstring b.
Proof. induction b as [|x b IH]; [done|]. cbn [cstring]. destruct (x =? 0); [done|]. cbn. by rewrite IH. Qed.
Lemma same_name_spec d target : same_name d target = true ↔ cname d = target.
Proof.
  unfold same_name, strlen, cname. rewrite andb_true_iff, Z.eqb_eq, bool_decide_eq_true. split.
  - intros [Hl <-]. rewrite <-take_cstring at 1. f_equal. lia.
  - intros <-. split; [done|apply take_cstring].
Qed.
Lemma lookup_absent l target fd : target ∉ cname <$> l → lookup_loop l (full_name_hash target) target fd = fd.
Proof.
  induction l as [|d l IH]; intros Hn; [done|]. rewrite fmap_cons, not_elem_of_cons in Hn. destruct Hn as [Hd Hn].
  cbn [lookup_loop]. destruct (nhash d <=? _); [|done]. destruct (same_name d target) eqn:Hs.
  - apply same_name_spec in Hs. congruence.
  - rewrite andb_false_r. by apply IH.
Qed.
Lemma lookup_present l d : filed l → d ∈ l → lookup_loop l (full_name_hash (cname d)) (cname d) None = Some d.
Proof.
  induction l as [|e l IH]; intros Hf Hd; [set_solver|]. destruct (filed_inv _ _ Hf) as (Hfl & He & Hall & Hno). cbn [lookup_loop].
  destruct (decide (d = e)) as [->|Hde].
  - rewrite <-He, Z.leb_refl, Z.eqb_refl. cbn [andb]. rewrite (proj2 (same_name_spec e (cname e)) eq_refl). rewrite He. by apply lookup_absent.
  - assert (d ∈ l) as Hl by (apply elem_of_cons in Hd as [?|?]; done).
    assert (hashed d) as Hh by (destruct Hfl as (_ & Hh & _); rewrite Forall_forall in Hh; by apply Hh).
    rewrite Forall_forall in Hall. specialize (Hall d Hl). rewrite Hh in Hall.
    rewrite (proj2 (Z.leb_le _ _)) by done. destruct (same_name e (cname d)) eqn:Hs; [|rewrite andb_false_r; by apply IH].
    apply same_name_spec in Hs. destruct Hno. rewrite Hs. by apply list_elem_of_fmap_2.
Qed.
Lemma listing_member l d : filed l → d ∈ l → listing l !! cname d = if fino d =? 0 then None else Some (fino d, ftype d).
Proof.
  intros (_ & _ & Hn) (l1 & l2 & ->)%list_elem_of_split. rewrite listing_middle by done. apply NoDup_middle in Hn as [Hd _].
  unfold enter. destruct (fino d =? 0); [apply lookup_delete_eq|apply lookup_insert_eq].
Qed.

(** ** Reading the directory *)

(** The entries of a directory with the offset of each, and those from [pos] on. *)
Fixpoint shown (k : Z) (l : list full_dirent) : list entry :=
  match l with
  | [] => []
  | d :: l => if fino d =? 0 then shown (k + 1) l else Entry (cname d) k (fino d) (ftype d) :: shown (k + 1) l
  end.
Definition all_entries (ino pino : Z) (l : list full_dirent) : list entry :=
  Entry dot 0 ino DT_DIR :: Entry dotdot 1 pino DT_DIR :: shown 2 l.
Definition from (pos : Z) (es : list entry) : list entry := filter (λ e, pos <= e_offset e) es.
(** What is handed over, in order, until it is refused; the rest. *)
Fixpoint fill {B} (filldir : B → entry → option B) (b : B) (es : list entry) : B * list entry :=
  match es with
  | [] => (b, [])
  | e :: rest => match filldir b e with Some b => fill filldir b rest | None => (b, es) end
  end.
Lemma shown_offsets k l e : e ∈ shown k l → k <= e_offset e.
Proof.
  revert k. induction l as [|d l IH]; intros k; cbn; [set_solver|]. destruct (fino d =? 0).
  - intros H%IH. lia.
  - intros [->|H%IH]%elem_of_cons; cbn; lia.
Qed.
Lemma from_all pos es : (∀ e, e ∈ es → pos <= e_offset e) → from pos es = es.
Proof.
  induction es as [|e es IH]; intros H; [done|]. unfold from. rewrite filter_cons_True by (apply H; set_solver).
  f_equal. apply IH. set_solver.
Qed.
Lemma from_cons pos e es : from pos (e :: es) = if pos <=? e_offset e then e :: from pos es else from pos es.
Proof.
  unfold from. destruct (Z.leb_spec pos (e_offset e)); [by rewrite filter_cons_True|]. rewrite filter_cons_False; [done|lia].
Qed.
Lemma readdir_loop_fills {B} (filldir : B → entry → option B) l : ∀ curofs offset b pos' b',
  curofs + 1 <= offset → readdir_loop filldir l curofs offset b = (pos', b') →
  fill filldir b (from offset (shown (curofs + 1) l)) = (b', from pos' (shown (curofs + 1) l)) ∧ offset <= pos'.
Proof.
  induction l as [|d l IH]; intros curofs offset b pos' b' Ho; cbn [readdir_loop shown].
  - intros [= <- <-]. split; [done|lia].
  - destruct (Z.ltb_spec (curofs + 1) offset) as [Hlt|Hge].
    + intros Hr. destruct (IH (curofs + 1) offset _ _ _ ltac:(lia) Hr) as [Hf Hp]. split; [|done].
      destruct (fino d =? 0); [done|]. rewrite !from_cons. cbn [e_offset]. by rewrite !(proj2 (Z.leb_gt _ _)) by lia.
    + assert (offset = curofs + 1) as -> by lia. assert (∀ p, p <= curofs + 2 → from p (shown (curofs + 1 + 1) l) = shown (curofs + 1 + 1) l) as Hall.
      { intros p Hp. apply from_all. intros e He%shown_offsets. lia. }
      destruct (fino d =? 0).
      * intros Hr. destruct (IH (curofs + 1) (curofs + 1 + 1) _ _ _ ltac:(lia) Hr) as [Hf Hp]. rewrite (Hall (curofs + 1)) by lia. rewrite (Hall (curofs + 1 + 1)) in Hf by lia. split; [done|lia].
      * rewrite from_cons. cbn [e_offset]. rewrite Z.leb_refl. cbn [fill]. unfold cname at 1. destruct (filldir b _) as [b1|] eqn:Hb.
        -- intros Hr. destruct (IH (curofs + 1) (curofs + 1 + 1) _ _ _ ltac:(lia) Hr) as [Hf Hp]. rewrite (Hall (curofs + 1)) by lia. rewrite (Hall (curofs + 1 + 1)) in Hf by lia. split; [|lia].
           rewrite from_cons. cbn [e_offset]. by rewrite (proj2 (Z.leb_gt _ _)) by lia.
        -- intros [= <- <-]. split; [|lia]. rewrite from_cons. cbn [e_offset]. by rewrite Z.leb_refl.
Qed.
End Lists.

(** ** Directories on the flash *)

Section Worlds.
Import Rb Frag Layout Node Dirent.
Context {F : Type} `{!Mtd F} `{!Lawful F}.
Context (full_name_hash : list Z → Z).
Abbreviation sys_st := (Node.st (F := F)).
Abbreviation dirs := (Dirent.st (F := F)).

Definition name_ok (nm : list Z) : Prop := (0 < length nm ≤ 255)%nat ∧ Forall (λ c, 0 < c < 256) nm.
(** The node [rd] with the name [nm] behind it is whole and says what [d] says. *)
Record describes (rd : raw_dirent) (nm : list Z) (d : full_dirent) : Prop := {
  de_formed : Forall2 fits dirent_widths (dirent_fields rd);
  de_kind : nodetype rd = JFFS2_NODETYPE_DIRENT;
  de_totlen : totlen rd = sizeof_raw_dirent + Z.of_nat (length nm);
  de_nsize : nsize rd = Z.of_nat (length nm);
  de_crc : node_crc rd = dirent_crc (dirent_bytes rd) ∧ name_crc rd = Crc.crc32 0 nm;
  de_name : name_ok nm ∧ name d = nm ++ [0] ∧ nhash d = full_name_hash nm;
  de_version : version rd = fversion d;
  de_ino : ino rd = fino d;
  de_type : type rd = ftype d }.
Definition on_flash (y : sys_st) (d : full_dirent) : Prop :=
  ∃ o rd nm, ref_at y !! raw d = Some o ∧ stored (flash y) o (dirent_bytes rd ++ nm) ∧ describes rd nm d ∧
    Forall (apart o (sizeof_raw_dirent + Z.of_nat (length nm))) (space y).
(** Room for a dirent with a longest name. *)
Definition dir_room (f : F) (g : Z * Z * Z) : Prop :=
  g.1.1 = 0 → 0 <= g.1.2 ∧ sizeof_raw_dirent + 255 <= g.2 < 2 ^ 32 ∧ blank f g.1.2 (Z.to_nat g.2).

(** The directory [v], of which the dirents [L] were written, one after the other. *)
Record dir_ok (v : inode_info) (L : list full_dirent) : Prop := {
  do_dents : dents v = replay L;
  do_hashed : Forall (hashed full_name_hash) L;
  do_order : StronglySorted (λ a b, fversion a < fversion b) L;
  do_versions : Forall (λ d, fversion d <= highest_version v) L;
  do_highest : 0 <= highest_version v < 2 ^ 32;
  do_raws : NoDup (raw <$> L);
  do_cache : ∃ c, inocache v = Some c ∧ fits 4 (c_ino c) ∧ ∀ d, d ∈ L → raw d ∈ c_nodes c }.
(** The directories, each with what was written of it. *)
Abbreviation journals := (gmap nat (list full_dirent)).
Record world (s : dirs) (Ls : journals) : Prop := {
  wo_dirs : ∀ i L, Ls !! i = Some L → ∃ v, inodes s !! i = Some v ∧ dir_ok v L;
  wo_flash : ∀ i L d, Ls !! i = Some L → d ∈ L → on_flash (sys s) d;
  wo_room : Forall (dir_room (flash (sys s))) (space (sys s));
  wo_apart : rooms_apart (space (sys s)) }.

Lemma cstring_name nm : Forall (λ c, 0 < c < 256) nm → ∀ rest, cstring (nm ++ 0 :: rest) = nm.
Proof.
  induction 1 as [|c nm Hc _ IH]; intros rest; [done|]. cbn. rewrite (proj2 (Z.eqb_neq _ _)) by lia. by rewrite IH.
Qed.
Lemma cstring_plain nm : Forall (λ c, 0 < c < 256) nm → cstring nm = nm.
Proof. induction 1 as [|c nm Hc _ IH]; [done|]. cbn. rewrite (proj2 (Z.eqb_neq _ _)) by lia. by rewrite IH. Qed.
Lemma describes_cname rd nm d : describes rd nm d → cname d = nm.
Proof. intros Hd. destruct (de_name _ _ _ Hd) as ([_ Hb] & Hn & _). unfold cname. rewrite Hn. by apply cstring_name. Qed.
Lemma describes_hashed rd nm d : describes rd nm d → hashed full_name_hash d.
Proof. intros Hd. unfold hashed. rewrite (describes_cname rd nm d) by done. by apply Hd. Qed.
Lemma describes_raw r rd nm d : describes rd nm d → describes rd nm (with_raw r d).
Proof. intros []. by split. Qed.
Lemma order_differ L : StronglySorted (λ a b, fversion a < fversion b) L → versions_differ L.
Proof.
  induction 1 as [|x L _ IH Hall]; intros d e Hd He Hc Hv; [set_solver|]. rewrite Forall_forall in Hall.
  apply elem_of_cons in Hd as [->|Hd], He as [->|He]; [done|specialize (Hall _ He); lia|specialize (Hall _ Hd); lia|by apply IH].
Qed.
Lemma dir_filed v L : dir_ok v L → filed full_name_hash (dents v).
Proof. intros [-> Hh Ho _ _ _ _]. apply replay_newest; [done|by apply order_differ]. Qed.

(** The references that are in use, and what a step in a granted room leaves as it is. *)
Definition unused (r : nat) (Ls : journals) : Prop := ∀ i L d, Ls !! i = Some L → d ∈ L → raw d ≠ r.
Definition held (o l : Z) (s : dirs) (Ls : journals) : Prop := world (Dirent.St (inodes s) (with_space ((0, o, l) :: space (sys s)) (sys s))) Ls.
Lemma on_flash_step (y y' : sys_st) o l n d :
  on_flash (with_space ((0, o, l) :: space y) y) d → touched (flash y) (flash y') o n → n <= l → ref_at y' !! raw d = ref_at y !! raw d →
  space y' = space y → on_flash y' d.
Proof.
  intros (o' & rd & nm & Hr & Hst & Hde & [Ha Hrest]%Forall_cons) Ht Hn Hr' Hsp. exists o', rd, nm. rewrite Hr', Hsp. split_and!; [done| |done|done].
  apply Ht; [exact Hst|]. rewrite length_app. unfold dirent_bytes. rewrite length_pack by done. specialize (Ha eq_refl). cbn [fst snd] in Ha.
  unfold sizeof_raw_dirent in Ha. change (sum_list dirent_widths) with 40%nat. lia.
Qed.
Lemma dir_room_touched f f' o n g : touched f f' o n → apart o n g → dir_room f g → dir_room f' g.
Proof.
  intros Ht Ha Hg H0. destruct (Hg H0) as (? & Hl & Hb). split_and!; [lia..|]. apply Ht; [exact Hb|].
  rewrite length_replicate. destruct (Ha H0); unfold sizeof_raw_dirent in Hl; lia.
Qed.
Lemma held_step o l n (s s' : dirs) Ls :
  held o l s Ls → touched (flash (sys s)) (flash (sys s')) o n → n <= l → space (sys s') = space (sys s) → inodes s' = inodes s →
  (∀ i L d, Ls !! i = Some L → d ∈ L → ref_at (sys s') !! raw d = ref_at (sys s) !! raw d) → world s' Ls.
Proof.
  intros [Hd Hf [_ Hr]%Forall_cons Ha] Ht Hn Hsp Hin Hrefs. destruct Ha as [Ha1 Ha]. cbn in Ha1. specialize (Ha1 eq_refl). split.
  - intros i L HL. rewrite Hin. by apply Hd.
  - intros i L d HL Hin'. eapply on_flash_step; [by eapply Hf|exact Ht|exact Hn|by eapply Hrefs|exact Hsp].
  - rewrite Hsp. cbn in Hr, Ha1. rewrite Forall_forall in *. intros g Hg. eapply dir_room_touched; [exact Ht| |by apply Hr].
    intros H0. destruct (Ha1 g Hg H0); lia.
  - by rewrite Hsp.
Qed.
(** What is not looked at may change. *)
Lemma world_same (s s' : dirs) Ls :
  world s Ls → inodes s' = inodes s → flash (sys s') = flash (sys s) → space (sys s') = space (sys s) →
  (∀ i L d, Ls !! i = Some L → d ∈ L → ref_at (sys s') !! raw d = ref_at (sys s) !! raw d) → world s' Ls.
Proof.
  intros [Hd Hf Hr Ha] Hin Hfl Hsp Hrefs. split; [|intros i L d HL Hl|..]; rewrite ?Hin, ?Hfl, ?Hsp; try done.
  destruct (Hf i L d HL Hl) as (o & rd & nm & H1 & H2 & H3 & H4). exists o, rd, nm. rewrite (Hrefs i L d HL Hl), Hfl, Hsp. done.
Qed.
Lemma held_same o l (s s' : dirs) Ls :
  held o l s Ls → inodes s' = inodes s → flash (sys s') = flash (sys s) → space (sys s') = space (sys s) →
  (∀ i L d, Ls !! i = Some L → d ∈ L → ref_at (sys s') !! raw d = ref_at (sys s) !! raw d) → held o l s' Ls.
Proof. intros H Hin Hfl Hsp Hrefs. eapply world_same; [exact H|done|done|cbn; by rewrite Hsp|done]. Qed.
Lemma held_room o l (s : dirs) Ls :
  held o l s Ls → 0 <= o ∧ sizeof_raw_dirent + 255 <= l < 2 ^ 32 ∧ blank (flash (sys s)) o (Z.to_nat l) ∧ Forall (apart o l) (space (sys s)).
Proof. intros [_ _ [Hg _]%Forall_cons [Ha _]]. destruct (Hg eq_refl) as (? & ? & ?). cbn [fst snd] in *. split_and!; [lia|lia|lia|done|by apply Ha]. Qed.

(** *** One step after the other *)

Definition mem (s : dirs) : list bool := memory (map (sys s)).
Definition afford (n k : Z) (s : dirs) : Prop := plenty n (mem s) ∧ granted k (space (sys s)) ∧ durable (F := F).
(** From [s] to [s'] the allocations are at most [n] and the reservations [k]. *)
Definition cost (n k : Z) (s s' : dirs) : Prop := ∀ m j, n <= m → k <= j → afford m j s → afford (m - n) (j - k) s'.
Lemma cost_trans n1 k1 n2 k2 s s1 s2 : 0 <= n2 → 0 <= k2 → cost n1 k1 s s1 → cost n2 k2 s1 s2 → cost (n1 + n2) (k1 + k2) s s2.
Proof.
  intros ? ? H1 H2 m j Hm Hj Ha. replace (m - (n1 + n2)) with (m - n1 - n2) by lia. replace (j - (k1 + k2)) with (j - k1 - k2) by lia.
  apply H2; [lia|lia|]. apply H1; [lia|lia|done].
Qed.
Lemma afford_less n k n' k' s : afford n k s → 0 <= n' <= n → 0 <= k' <= k → afford n' k' s.
Proof. intros (Hp & [Hk Hg] & Hd) ? ?. split_and!; [eapply plenty_less; [exact Hp|lia]|split; [lia|done]|done]. Qed.
Lemma cost_none s s' : mem s' = mem s → space (sys s') = space (sys s) → cost 0 0 s s'.
Proof. intros Hm Hs m j _ _ Ha. unfold afford. rewrite Hm, Hs, !Z.sub_0_r. done. Qed.
Lemma cost_drew s s' ok : drew (mem s) (mem s') ok → space (sys s') = space (sys s) → cost 1 0 s s'.
Proof.
  intros Hd Hs m j Hm _ (Hp & Hg & Hdur). destruct (plenty_drew _ _ _ _ Hd Hp ltac:(lia)) as [_ Hp']. unfold afford. by rewrite Hs, Z.sub_0_r.
Qed.
Lemma cost_fails n k s s' : ¬ durable (F := F) → cost n k s s'.
Proof. intros Hno m j _ _ (_ & _ & Hd). done. Qed.

Lemma wp_on_sys {A} (m : SM sys_st A) (s : dirs) (Q : A → dirs → Prop) :
  wp m (sys s) (λ a y, Q a (Dirent.St (inodes s) y)) → wp (on_sys m) s Q.
Proof. unfold wp, on_sys. by destruct (m (sys s)) as [[a y]|]. Qed.
Lemma wp_iget {A} (f : inode_info → A) i (s : dirs) v (Q : A → dirs → Prop) : inodes s !! i = Some v → Q (f v) s → wp (iget f i) s Q.
Proof. intros Hv HQ. unfold wp, iget. by rewrite Hv. Qed.
Lemma wp_iput f i (s : dirs) v (Q : unit → dirs → Prop) :
  inodes s !! i = Some v → Q tt (Dirent.St (<[i := f v]> (inodes s)) (sys s)) → wp (iput f i) s Q.
Proof. intros Hv HQ. unfold wp, iput. by rewrite Hv. Qed.
Lemma wp_alloc_any (y : sys_st) (Q : bool → sys_st → Prop) :
  (∀ ok mem', drew (memory (map y)) mem' ok → Q ok (with_map (set_memory mem' (map y)) y)) → wp (on_map Node.alloc) y Q.
Proof.
  intros HQ. apply wp_on_map. unfold wp, Node.alloc. destruct (memory (map y)) as [|ok mem'] eqn:Hm.
  - replace (map y) with (set_memory [] (map y)) by (destruct (map y); cbn in *; by subst). apply HQ. by right.
  - apply HQ. by left.
Qed.
Lemma wp_mark_any e (y : sys_st) (Q : unit → sys_st → Prop) :
  (∀ m, memory m = memory (map y) → Q tt (with_map m y)) → wp (on_map (Frag.mark e)) y Q.
Proof. intros HQ. apply wp_on_map. unfold wp, Frag.mark. by apply HQ. Qed.

(** *** Writing one dirent *)

Lemma length_dirent_bytes rd : length (dirent_bytes rd) = 40%nat.
Proof. by apply length_pack. Qed.
Lemma wp_dirent_once retried i rd nm o l am fd r (s : dirs) Ls v c (Q : raw_dirent * full_dirent * option Z → dirs → Prop) :
  held o l s Ls → unused r Ls → inodes s !! i = Some v → inocache v = Some c → version rd = highest_version v →
  describes rd nm (with_raw r fd) → sizeof_raw_dirent + Z.of_nat (length nm) <= l →
  (∀ s' ret, ¬ durable (F := F) → world s' Ls → inodes s' = inodes s → space (sys s') = space (sys s) → Q (rd, with_raw r fd, Some ret) s') →
  (∀ s', world (Dirent.St (inodes s) (sys s')) Ls → inodes s' = <[i := with_cache (Some (add_node r c)) v]> (inodes s) →
     on_flash (sys s') (with_raw r fd) → space (sys s') = space (sys s) → mem s' = mem s → Q (rd, with_raw r fd, None) s') →
  wp (write_once retried i rd nm o am fd r) s Q.
Proof.
  intros Hh Hu Hv Hc Hver Hde Hl HF HW. unfold write_once. apply wp_bind, wp_on_sys. unfold wp at 1. cbn [puts].
  apply wp_bind. eapply wp_iget; [exact Hv|]. rewrite Hver, Z.ltb_irrefl, andb_false_r. apply wp_bind, wp_ret, wp_bind, wp_on_sys.
  unfold wp at 1, jffs2_flash_writev. cbn [flash with_refs sys inodes]. destruct (held_room _ _ _ _ Hh) as (Ho & Hlr & Hblank & Hap).
  destruct (mtd_fake_writev _ _ _ _) as [[ret k] f'] eqn:Hwrite. destruct (de_name _ _ _ Hde) as ([Hnm _] & _).
  pose proof (length_dirent_bytes rd) as Hlen. assert (dirent_bytes rd ≠ []) as Hne by (intros H0; by rewrite H0 in Hlen).
  assert (length (dirent_bytes rd) + length nm ≤ Z.to_nat l)%nat as Hfit by (unfold sizeof_raw_dirent in *; lia).
  destruct (write_vectors _ _ _ nm ret k f' _ Hne Hblank Hfit) as (Ht & Hst & Hdur).
  { rewrite (proj2 (Z.eqb_neq _ _)) by lia. exact Hwrite. }
  replace (Z.of_nat (length (dirent_bytes rd) + length nm)) with (sizeof_raw_dirent + Z.of_nat (length nm)) in * by (unfold sizeof_raw_dirent; lia).
  destruct (truthy ret || _) eqn:Hbad.
  - assert (¬ durable (F := F)) as Hno by (intros D0; destruct (Hdur D0) as [-> ->]; by rewrite Z.eqb_refl in Hbad).
    apply wp_bind, wp_on_sys. destruct (truthy k).
    + apply wp_bind, wp_mark_any. intros m1 _. apply wp_mark_any. intros m2 _. apply wp_ret.
      apply HF; [exact Hno|eapply held_step; [exact Hh|exact Ht|exact Hl|done..|]|done|done].
      intros j L d HL Hd. cbn. by rewrite lookup_insert_ne by (symmetry; by eapply Hu).
    + unfold wp at 1. cbn [jffs2_free_raw_node_ref puts]. apply wp_ret.
      apply HF; [exact Hno|eapply held_step; [exact Hh|exact Ht|exact Hl|done..|]|done|done].
      intros j L d HL Hd. cbn. by rewrite lookup_delete_ne, lookup_insert_ne by (symmetry; by eapply Hu).
  - apply orb_false_iff in Hbad as [Hret Hk]. apply truthy_false in Hret. apply negb_false_iff, Z.eqb_eq in Hk.
    apply wp_bind, wp_on_sys, wp_mark_any. intros m1 Hm1. apply wp_bind, wp_on_sys, wp_mark_any. intros m2 Hm2.
    apply wp_bind. unfold put_cache. apply wp_bind. unfold cache. apply wp_bind. eapply wp_iget; [exact Hv|]. rewrite Hc. apply wp_ret.
    eapply wp_iput; [exact Hv|]. apply wp_ret. apply HW; [| |exists o, rd, nm|..].
    + eapply held_step; [exact Hh|exact Ht|exact Hl|done..|]. intros j L d HL Hd. cbn. by rewrite lookup_insert_ne by (symmetry; by eapply Hu).
    + done.
    + cbn. split_and!; [by rewrite lookup_insert_eq|by apply Hst|done|].
      eapply Forall_impl; [exact Hap|]. intros g Hg H0. destruct (Hg H0); lia.
    + done.
    + unfold mem. cbn in *. congruence.
Qed.

Lemma wp_alloc_ref (y : sys_st) (Q : option nat → sys_st → Prop) :
  (∀ mem', drew (memory (map y)) mem' false → Q None (with_map (set_memory mem' (map y)) y)) →
  (∀ mem' r, drew (memory (map y)) mem' true → ref_at y !! r = None →
     Q (Some r) (with_refs (<[r := 0]> (ref_at y)) (with_map (set_memory mem' (map y)) y))) →
  wp jffs2_alloc_raw_node_ref y Q.
Proof.
  intros HF HW. unfold jffs2_alloc_raw_node_ref. apply wp_bind, wp_alloc_any. intros [] mem' Hd; [|by apply HF].
  unfold wp, new_raw_node_ref. apply HW; [done|]. apply fresh_absent.
Qed.
Lemma fresh_unused (s : dirs) Ls r : world s Ls → ref_at (sys s) !! r = None → unused r Ls.
Proof. intros Hw Hr i L d HL Hd He. destruct (wo_flash _ _ Hw i L d HL Hd) as (o & rd & nm & Href & _). congruence. Qed.
Lemma world_less g (s : dirs) Ls :
  world (Dirent.St (inodes s) (with_space (g :: space (sys s)) (sys s))) Ls → world s Ls.
Proof.
  intros [Hd Hf [_ Hr]%Forall_cons [_ Ha]]. split; [done| |done|done]. intros i L d HL Hin.
  destruct (Hf i L d HL Hin) as (o & rd & nm & H1 & H2 & H3 & [_ H4]%Forall_cons). by exists o, rd, nm.
Qed.
Lemma with_space_same (y : sys_st) : with_space (space y) y = y.
Proof. by destruct y. Qed.
Lemma wp_reserve_dir (s : dirs) Ls (Q : Z * Z * Z → dirs → Prop) :
  world s Ls →
  (∀ s' ret o l, ret ≠ 0 → world s' Ls → inodes s' = inodes s → ¬ granted 1 (space (sys s)) → Q (ret, o, l) s') →
  (∀ s' o l, held o l s' Ls → inodes s' = inodes s → ref_at (sys s') = ref_at (sys s) → cost 0 1 s s' → Q (0, o, l) s') →
  wp (on_sys jffs2_reserve_space) s Q.
Proof.
  intros Hw HF HW. apply wp_on_sys. unfold wp, jffs2_reserve_space. destruct (space (sys s)) as [|[[ret o] l] sp] eqn:Hsp.
  - eapply HF; [done|by destruct s|done|]. intros [Hn _]. cbn in Hn. lia.
  - assert (held_by : world (Dirent.St (inodes s) (with_space ((ret, o, l) :: sp) (sys s))) Ls) by (rewrite <-Hsp, with_space_same; by destruct s).
    destruct (decide (ret = 0)) as [->|Hret].
    + apply HW; [exact held_by|done|done|]. intros m j _ _ (Hp & [Hk Hg] & Hd). rewrite Hsp in Hk, Hg. cbn [length] in Hk. apply Forall_cons in Hg as [_ Hg].
      rewrite Z.sub_0_r. split_and!; [done| |done]. split; [cbn; lia|done].
    + eapply HF; [done|exact (world_less (ret, o, l) (Dirent.St (inodes s) (with_space sp (sys s))) Ls held_by)|done|]. by intros [_ [? _]%Forall_cons].
Qed.
Lemma refs_fresh (s : dirs) Ls r v :
  unused r Ls → ∀ i L d, Ls !! i = Some L → d ∈ L → <[r := v]> (ref_at (sys s)) !! raw d = ref_at (sys s) !! raw d.
Proof. intros Hu i L d HL Hd. by rewrite lookup_insert_ne by (symmetry; by eapply Hu). Qed.

Lemma wp_write_attempt tries : ∀ i rd nm o l am fd r (s : dirs) Ls v c (Q : Z + full_dirent → dirs → Prop),
  held o l s Ls → unused r Ls → inodes s !! i = Some v → inocache v = Some c → version rd = highest_version v →
  describes rd nm (with_raw r fd) → sizeof_raw_dirent + Z.of_nat (length nm) <= l →
  (∀ s' e, e ≠ 0 → ¬ durable (F := F) → world s' Ls → inodes s' = inodes s → Q (inl e) s') →
  (∀ s' r', unused r' Ls → world (Dirent.St (inodes s) (sys s')) Ls → inodes s' = <[i := with_cache (Some (add_node r' c)) v]> (inodes s) →
     on_flash (sys s') (with_raw r' fd) → cost 0 0 s s' → Q (inr (with_raw r' fd)) s') →
  wp (write_attempt tries i rd nm o am fd r) s Q.
Proof.
  induction tries as [|tries IH]; intros i rd nm o l am fd r s Ls v c Q Hh Hu Hv Hc Hver Hde Hl HF HW; cbn [write_attempt]; apply wp_bind;
    (eapply wp_dirent_once; [exact Hh|exact Hu|exact Hv|exact Hc|exact Hver|exact Hde|exact Hl| |]);
    cbv beta iota.
  2, 4: intros s' Hw Hin Hon Hsp Hm; apply wp_ret; by eapply HW, cost_none.
  all: intros s1 ret Hno Hw Hin Hsp;
    assert (He : (if truthy ret then ret else - EIO) ≠ 0) by (destruct (truthy ret) eqn:Ht; [by apply truthy_spec|done]).
  { apply wp_ret. by apply HF. }
  apply wp_bind, wp_on_sys, wp_alloc_ref.
  - intros mem' _. apply wp_ret. apply HF; [done|done|by eapply world_same|done].
  - intros mem' r' _ Hr'. pose proof (fresh_unused s1 Ls r' Hw Hr') as Hu'. apply wp_bind. eapply wp_reserve_dir.
    + eapply world_same; [exact Hw|done..|]. by apply (refs_fresh s1).
    + intros s2 ret2 o2 l2 Hret Hw2 Hin2 _. cbn [inodes] in Hin2. rewrite (proj2 (truthy_spec ret2)) by done. apply wp_bind, wp_on_sys. unfold wp at 1. cbn [jffs2_free_raw_node_ref puts].
      apply wp_ret. apply HF; [done|done| |cbn; congruence]. eapply world_same; [exact Hw2|done..|].
      intros j L d HL Hd. cbn. by rewrite lookup_delete_ne by (symmetry; by eapply Hu').
    + intros s2 o2 l2 Hh2 Hin2 Href2 Hcost. cbn [inodes] in Hin2. change (truthy 0) with false. cbv beta iota.
      destruct (held_room _ _ _ _ Hh2) as (_ & Hl2 & _). destruct (de_name _ _ _ Hde) as ([Hnm _] & _).
      eapply (IH i rd nm o2 l2 am (with_raw r fd) r' s2 Ls v c); [exact Hh2|exact Hu'|by rewrite Hin2, Hin|exact Hc|exact Hver|by apply (describes_raw r' _ _ (with_raw r fd))| | |].
      * unfold sizeof_raw_dirent in *. lia.
      * intros s' e Hne Hno' Hw' Hin'. apply HF; [done..|congruence].
      * intros s' r2 Hu2 Hw2 Hin' Hon _. rewrite Hin2, Hin in Hw2. apply HW; [done|done|congruence|done|by apply cost_fails].
Qed.

Lemma wp_write_dirent i rd nm o l am (s : dirs) Ls v c (Q : Z + full_dirent → dirs → Prop) :
  held o l s Ls → inodes s !! i = Some v → inocache v = Some c → version rd = highest_version v →
  (∀ r, describes rd nm (FullDirent r (version rd) (ino rd) (full_name_hash nm) (type rd) (nm ++ [0]))) →
  (∀ s' e, e ≠ 0 → ¬ afford 2 0 s → world s' Ls → inodes s' = inodes s → Q (inl e) s') →
  (∀ s' r, unused r Ls → world (Dirent.St (inodes s) (sys s')) Ls → inodes s' = <[i := with_cache (Some (add_node r c)) v]> (inodes s) →
     on_flash (sys s') (FullDirent r (version rd) (ino rd) (full_name_hash nm) (type rd) (nm ++ [0])) → cost 2 0 s s' →
     Q (inr (FullDirent r (version rd) (ino rd) (full_name_hash nm) (type rd) (nm ++ [0]))) s') →
  wp (jffs2_write_dirent full_name_hash i rd nm o am) s Q.
Proof.
  intros Hh Hv Hc Hver Hde HF HW. unfold jffs2_write_dirent. destruct (de_name _ _ _ (Hde 0%nat)) as ([Hnm Hb] & _).
  destruct (held_room _ _ _ _ Hh) as (_ & Hl & _). pose proof (world_less (0, o, l) s Ls Hh) as Hw0. apply wp_bind, wp_on_sys, wp_alloc_ref.
  - intros mem' Hd. apply wp_ret. apply HF; [done| |by eapply world_same|done].
    intros (Hp & _). by destruct (plenty_drew _ _ _ _ Hd Hp).
  - intros mem1 r Hd1 Hr. assert (unused r Ls) as Hu.
    { exact (fresh_unused s Ls r Hw0 Hr). }
    apply wp_bind. unfold alloc. apply wp_on_sys, wp_alloc_any. cbn [sys map with_refs with_map]. change (memory (set_memory mem1 (map (sys s)))) with mem1. intros [] mem2 Hd2; cbn [negb].
    + rewrite cstring_plain by done.
      eapply (wp_write_attempt 1 i rd nm o l am _ r _ Ls v c); [eapply held_same; [exact Hh|done..|]; by apply (refs_fresh s)|exact Hu|done|exact Hc|exact Hver|apply Hde| | |].
      * unfold sizeof_raw_dirent in *. lia.
      * intros s' e Hne Hno Hw Hin. apply HF; [done| |done|done]. by intros (_ & _ & Hd).
      * intros s' r' Hu' Hw Hin Hon Hcost. apply HW; [done|exact Hw|exact Hin|exact Hon|].
        apply (cost_trans 1 0 1 0 _ (Dirent.St (inodes s) (with_refs (<[r := 0]> (ref_at (sys s))) (with_map (set_memory mem1 (map (sys s))) (sys s)))));
          [done|done|by apply (cost_drew _ _ true)|].
        eapply (cost_trans 1 0 0 0); [done|done| |exact Hcost]. by apply (cost_drew _ _ true).
    + apply wp_bind, wp_on_sys. unfold wp at 1. cbn [jffs2_free_raw_node_ref puts]. apply wp_ret. apply HF; [done| | |done].
      * intros (Hp & _). destruct (plenty_drew _ _ _ _ Hd1 Hp) as [_ Hp1]; [lia|]. by destruct (plenty_drew _ _ _ _ Hd2 Hp1).
      * eapply world_same; [exact Hw0|done..|]. intros i' L d HL Hd. cbn. by rewrite delete_insert_id.
Qed.

(** *** Filing it *)

(** What a change of a directory leaves of the inodes; the version goes up by at most [n]. *)
Definition alike (n : Z) (v v' : inode_info) : Prop :=
  i_ino v' = i_ino v ∧ i_mode v' = i_mode v ∧ i_nlink v' = i_nlink v ∧ highest_version v' <= highest_version v + n ∧
  (λ c, (c_ino c, nlink c)) <$> inocache v' = (λ c, (c_ino c, nlink c)) <$> inocache v.
(** The link counts: of the inode, and of its cache when it has one. *)
Definition tally (v : inode_info) : Z * option Z := (i_nlink v, nlink <$> inocache v).
Definition counts (s : dirs) : gmap nat (Z * option Z) := tally <$> inodes s.
(** What the calls do to them. *)
Definition bump (d : Z) : nat → gmap nat (Z * option Z) → gmap nat (Z * option Z) := alter (λ p, (u32 (p.1 + d), p.2)).
Definition bump_cached (d : Z) : nat → gmap nat (Z * option Z) → gmap nat (Z * option Z) := alter (λ p, (p.1, Z.add d <$> p.2)).
Definition refresh : nat → gmap nat (Z * option Z) → gmap nat (Z * option Z) :=
  alter (λ p, (match p.2 with Some n => u32 n | None => p.1 end, p.2)).
Lemma counts_same (s s' : dirs) : inodes s' = inodes s → counts s' = counts s.
Proof. unfold counts. by intros ->. Qed.
Lemma counts_put i v v' g (s s' : dirs) :
  inodes s !! i = Some v → inodes s' = <[i := v']> (inodes s) → tally v' = g (tally v) → counts s' = alter g i (counts s).
Proof.
  intros Hv He Ht. unfold counts. rewrite He, fmap_insert, Ht. apply map_eq. intros j. destruct (decide (j = i)) as [->|Hj].
  - by rewrite lookup_insert_eq, lookup_alter_eq, lookup_fmap, Hv.
  - by rewrite lookup_insert_ne, lookup_alter_ne.
Qed.
Lemma counts_update i v v' (s s' : dirs) :
  inodes s !! i = Some v → inodes s' = <[i := v']> (inodes s) → tally v' = tally v → counts s' = counts s.
Proof.
  intros Hv He Ht. unfold counts. rewrite He, fmap_insert, Ht. apply insert_id. by rewrite lookup_fmap, Hv.
Qed.
Definition calm (n : Z) (s s' : dirs) : Prop :=
  counts s' = counts s ∧ ∀ j v, inodes s !! j = Some v → ∃ v', inodes s' !! j = Some v' ∧ alike n v v'.
Lemma calm_same n (s s' : dirs) : 0 <= n → inodes s' = inodes s → calm n s s'.
Proof. intros Hn He. split; [by apply counts_same|]. intros j v Hv. exists v. rewrite He. unfold alike. split_and!; (done || lia). Qed.
Lemma calm_update n i v v' (s s' : dirs) : 0 <= n → inodes s !! i = Some v → inodes s' = <[i := v']> (inodes s) → alike n v v' → calm n s s'.
Proof.
  intros Hn Hv He Ha. split.
  { eapply counts_update; [exact Hv|exact He|]. destruct Ha as (_ & _ & Hl & _ & Hc). unfold tally. rewrite Hl. f_equal.
    apply (f_equal (fmap snd)) in Hc. by rewrite <-!option_fmap_compose in Hc. }
  intros j w Hw. rewrite He. destruct (decide (j = i)) as [->|Hj].
  - exists v'. rewrite lookup_insert_eq. split; [done|congruence].
  - exists w. rewrite lookup_insert_ne by done. unfold alike. split_and!; (done || lia).
Qed.
Lemma calm_trans n1 n2 s s1 s2 : calm n1 s s1 → calm n2 s1 s2 → calm (n1 + n2) s s2.
Proof.
  intros [C1 H1] [C2 H2]. split; [congruence|]. intros j v Hv. destruct (H1 j v Hv) as (v1 & Hv1 & ? & ? & ? & ? & ?), (H2 j v1 Hv1) as (v2 & Hv2 & ? & ? & ? & ? & ?).
  exists v2. split; [done|]. split_and!; (congruence || lia).
Qed.

Lemma dir_filed_more v c L fd :
  dir_ok v L → inocache v = Some c → hashed full_name_hash fd → Forall (λ d, fversion d < fversion fd) L → fversion fd <= highest_version v →
  raw fd ∉ raw <$> L → dir_ok (with_dents (replay (L ++ [fd])) (with_cache (Some (add_node (raw fd) c)) v)) (L ++ [fd]).
Proof.
  intros [Hd Hh Ho Hv Hhv Hr (c' & Hc' & Hfit & Hnodes)] Hc Hfd Hlt Hle Hraw. split; cbn [with_dents with_cache dents highest_version inocache].
  - done.
  - apply Forall_app. split; [done|by constructor].
  - clear -Ho Hlt. induction L as [|d L IH]; cbn; [repeat constructor|]. apply StronglySorted_inv in Ho as [Ho Hall].
    apply Forall_cons in Hlt as [Hd Hlt]. constructor; [by apply IH|]. apply Forall_app. split; [done|by constructor].
  - apply Forall_app. split; [done|by constructor].
  - done.
  - rewrite fmap_app, NoDup_app. split_and!; [done|set_solver|apply NoDup_singleton].
  - exists (add_node (raw fd) c). assert (c' = c) as -> by congruence. split_and!; [done|done|].
    intros d [Hdl|Hdf]%elem_of_app; cbn; [right; by apply Hnodes|]. apply list_elem_of_singleton in Hdf as ->. left.
Qed.
Lemma wp_file_dirent i fd (s : dirs) I Ls L v c (Q : unit → dirs → Prop) :
  world (Dirent.St I (sys s)) Ls → Ls !! i = Some L → I !! i = Some v → inocache v = Some c →
  inodes s = <[i := with_cache (Some (add_node (raw fd) c)) v]> I → unused (raw fd) Ls → hashed full_name_hash fd →
  Forall (λ d, fversion d < fversion fd) L → fversion fd <= highest_version v → on_flash (sys s) fd →
  (∀ s', world s' (<[i := L ++ [fd]]> Ls) → calm 0 (Dirent.St I (sys s)) s' → cost 0 0 s s' → Q tt s') → wp (file_dirent i fd) s Q.
Proof.
  intros Hw HL Hv Hc Hin Hu Hfd Hlt Hle Hon HQ. destruct (wo_dirs _ _ Hw i L HL) as (v' & Hv' & Hok). cbn in Hv'. assert (v' = v) as -> by congruence.
  pose proof (dir_filed_more v c L fd Hok Hc Hfd Hlt Hle) as Hok'.
  assert (raw fd ∉ raw <$> L) as Hraw by (intros (d & Hd & Hin')%list_elem_of_fmap; by destruct (Hu i L d HL Hin')).
  specialize (Hok' Hraw). unfold file_dirent. apply wp_bind. eapply wp_iget; [rewrite Hin; apply lookup_insert_eq|]. cbn [dents with_cache].
  rewrite replay_snoc, <-(do_dents _ _ Hok) in Hok'. destruct (jffs2_add_fd_to_list fd (dents v)) as [l o]. cbn [fst] in Hok'.
  apply wp_bind. eapply wp_iput; [rewrite Hin; apply lookup_insert_eq|]. rewrite Hin, insert_insert_eq. set (v1 := with_dents l _) in *.
  assert (∀ y : sys_st, ref_at y = ref_at (sys s) → flash y = flash (sys s) → space y = space (sys s) →
    world (Dirent.St (<[i := v1]> I) y) (<[i := L ++ [fd]]> Ls)) as Hgoal.
  { intros y Hr Hf Hs. split; cbn [sys inodes]; rewrite ?Hf, ?Hs.
    - intros j Lj. destruct (decide (j = i)) as [->|Hj].
      + rewrite !lookup_insert_eq. intros [= <-]. by exists v1.
      + rewrite !lookup_insert_ne by done. apply Hw.
    - assert (∀ d, on_flash (sys s) d → on_flash y d) as Hsame by (unfold on_flash; by rewrite Hr, Hf, Hs).
      intros j Lj d. destruct (decide (j = i)) as [->|Hj].
      + rewrite lookup_insert_eq. intros [= <-] [Hd|Hd]%elem_of_app; apply Hsame; [exact (wo_flash _ _ Hw i L d HL Hd)|].
        by apply list_elem_of_singleton in Hd as ->.
      + rewrite lookup_insert_ne by done. intros HLj Hd. by apply Hsame, (wo_flash _ _ Hw j Lj).
    - apply (wo_room _ _ Hw).
    - apply (wo_apart _ _ Hw). }
  assert (∀ y, calm 0 (Dirent.St I (sys s)) (Dirent.St (<[i := v1]> I) y)) as Hcalm.
  { intros y. eapply calm_update; [done|exact Hv|done|]. unfold alike, v1. cbn. rewrite Hc. split_and!; try done. lia. }
  destruct o as [r|].
  - apply wp_on_sys, wp_mark_any. intros m Hm. apply HQ; [by apply Hgoal|apply Hcalm|by apply cost_none].
  - apply wp_ret. apply HQ; [by apply Hgoal|apply Hcalm|by apply cost_none].
Qed.

(** *** One name of a directory changes *)

Context (slab_dirent : raw_dirent) (slab_fits : fits 2 (Dirent.unused slab_dirent)).

#[local] Opaque Crc.crc32.
Lemma dirent_crc_checks rd nm : dirent_crc (dirent_bytes (fill_checks rd nm)) = dirent_crc (dirent_bytes rd).
Proof.
  assert (∀ r, take 32 (dirent_bytes r) = pack (take 11 dirent_widths) (take 11 (dirent_fields r))) as H.
  { intros r. unfold dirent_bytes.
    change dirent_widths with (take 11 dirent_widths ++ drop 11 dirent_widths) at 1.
    change (dirent_fields r) with (take 11 (dirent_fields r) ++ drop 11 (dirent_fields r)) at 1.
    rewrite pack_app by done. rewrite take_app_length'; [done|by rewrite length_pack]. }
  unfold dirent_crc. by rewrite !H.
Qed.
Lemma built_describes r dino v target now kind nm :
  fits 4 dino → fits 4 v → fits 4 target → fits 4 now → fits 1 kind → name_ok nm →
  describes (build_dirent slab_dirent dino v target now kind nm) nm (FullDirent r v target (full_name_hash nm) kind (nm ++ [0])).
Proof.
  intros Hd Hv Ht Hn Hk Hnm. pose proof Hnm as [Hlen Hb]. assert (bytes nm) as Hbytes by (eapply Forall_impl; [exact Hb|]; cbn; lia).
  assert (u8 (Z.of_nat (length nm)) = Z.of_nat (length nm)) as Hu8 by (apply u8_small; lia).
  assert (u32 (sizeof_raw_dirent + Z.of_nat (length nm)) = sizeof_raw_dirent + Z.of_nat (length nm)) as Hu32
    by (apply u32_small; unfold sizeof_raw_dirent; lia).
  split.
  - unfold build_dirent, fill_checks, fill_body, fill_header, dirent_fields, dirent_widths.
    cbn [magic nodetype totlen hdr_crc pino version ino mctime nsize type Dirent.unused node_crc name_crc]. rewrite Hu8, Hu32.
    repeat apply Forall2_cons_2; try assumption; try (by apply crc_fits); try (apply crc_fits, bytes_take, pack_bytes); try done; unfold fits, sizeof_raw_dirent; lia.
  - reflexivity.
  - exact Hu32.
  - exact Hu8.
  - split; [|reflexivity]. unfold build_dirent. rewrite dirent_crc_checks. reflexivity.
  - done.
  - reflexivity.
  - reflexivity.
  - reflexivity.
Qed.
Lemma listing_snoc v L d : dir_ok v (L ++ [d]) → listing (replay (L ++ [d])) = enter d (listing (replay L)).
Proof.
  intros [_ [Hh [Hd _]%Forall_cons]%Forall_app Ho _ _ _ _]. pose proof (order_differ _ Ho) as Hdiff.
  assert (versions_differ L) as Hv by (intros x y Hx Hy; apply Hdiff; set_solver).
  destruct (replay_newest full_name_hash L Hh Hv) as [Hf Hm]. rewrite replay_snoc. apply listing_added; [apply Hf| |by eapply add_fd_added].
  intros x [Hx _]%Hm. clear -Ho Hx. induction L as [|y L IH]; [set_solver|]. apply StronglySorted_inv in Ho as [Ho Hall].
  apply elem_of_cons in Hx as [->|Hx]; [|by apply IH]. apply Forall_app in Hall as [_ [Hlt _]%Forall_cons]. lia.
Qed.
(** The directory [i] as it is seen. *)
Definition shows (s : dirs) (i : nat) : gmap (list Z) (Z * Z) :=
  match inodes s !! i with Some v => listing (dents v) | None => ∅ end.
Lemma world_shows s Ls i L : world s Ls → Ls !! i = Some L → shows s i = listing (replay L).
Proof. intros Hw HL. destruct (wo_dirs _ _ Hw i L HL) as (v & Hv & Hok). unfold shows. by rewrite Hv, (do_dents _ _ Hok). Qed.

(** The dirent [d] for [nm] is the last one of the directory [i]. *)
Definition entered (s s' : dirs) (Ls : journals) (i : nat) (nm : list Z) (target kind : Z) : Prop :=
  ∃ L d, Ls !! i = Some L ∧ world s' (<[i := L ++ [d]]> Ls) ∧ cname d = nm ∧ fino d = target ∧ ftype d = kind ∧ calm 1 s s'.
Lemma dir_ok_version v L : dir_ok v L → highest_version v + 1 < 2 ^ 32 → dir_ok (Dirent.with_version (highest_version v + 1) v) L.
Proof.
  intros [Hd Hh Ho Hv Hhv Hr Hc] Hlt. split; cbn [Dirent.with_version dents highest_version inocache]; try done; [|lia].
  eapply Forall_impl; [exact Hv|]. cbn. lia.
Qed.
Lemma wp_change_name i target now kind nm o l am (s : dirs) Ls L v (Q : Z → dirs → Prop) :
  held o l s Ls → Ls !! i = Some L → inodes s !! i = Some v → highest_version v + 1 < 2 ^ 32 →
  fits 4 target → fits 4 now → fits 1 kind → name_ok nm →
  (∀ s' e, e ≠ 0 → ¬ afford 2 0 s → world s' Ls → calm 1 s s' → Q e s') →
  (∀ s', entered s s' Ls i nm target kind → cost 2 0 s s' → Q 0 s') →
  wp (change_name full_name_hash slab_dirent i target now kind nm o am) s Q.
Proof.
  intros Hh HL Hv Hlt Ht Hn Hk Hnm HF HW. destruct (wo_dirs _ _ Hh i L HL) as (v' & Hv' & Hok). cbn in Hv'. assert (v' = v) as -> by congruence.
  pose proof (do_highest _ _ Hok) as Hhv. destruct (do_cache _ _ Hok) as (c & Hc & Hfit & _). pose proof (dir_ok_version v L Hok Hlt) as Hok1.
  unfold change_name. apply wp_bind. unfold cache. apply wp_bind. eapply wp_iget; [exact Hv|]. rewrite Hc. apply wp_ret.
  apply wp_bind. unfold next_version. apply wp_bind. eapply wp_iget; [exact Hv|]. rewrite u32_small by lia.
  set (v1 := Dirent.with_version (highest_version v + 1) v) in *. apply wp_bind. eapply wp_iput; [exact Hv|]. apply wp_ret.
  set (s1 := Dirent.St (<[i := v1]> (inodes s)) (sys s)).
  assert (held o l s1 Ls) as Hh1.
  { destruct Hh as [H1 H2 H3 H4]. split; [|done..]. intros j Lj HLj. cbn. destruct (decide (j = i)) as [->|Hj].
    - rewrite lookup_insert_eq. exists v1. split; [done|]. congruence.
    - rewrite lookup_insert_ne by done. by apply H1. }
  assert (calm 1 s s1) as Hcalm1 by (by apply (calm_update 1 i v v1)).
  set (rd := build_dirent slab_dirent (c_ino c) (highest_version v + 1) target now kind nm).
  assert (∀ r, describes rd nm (FullDirent r (version rd) (ino rd) (full_name_hash nm) (type rd) (nm ++ [0]))) as Hde.
  { intros r. apply (built_describes r (c_ino c) (highest_version v + 1) target now kind nm); try done. unfold fits. change (256 ^ Z.of_nat 4) with (2 ^ 32). lia. }
  apply wp_bind. eapply (wp_write_dirent i rd nm o l am s1 Ls v1 c); [exact Hh1|apply lookup_insert_eq|exact Hc|done|exact Hde| |].
  - intros s' e Hne Hno Hw Hin. apply wp_ret. apply HF; [done|done|done|]. apply (calm_trans 1 0 s s1); [exact Hcalm1|by apply calm_same].
  - intros s2 r Hu Hw Hin Hon Hcost. set (fd := FullDirent r _ _ _ _ _) in *. pose proof (describes_hashed rd nm fd (Hde r)) as Hhash.
    apply wp_bind. eapply (wp_file_dirent i fd s2 (<[i := v1]> (inodes s)) Ls L v1 c); [exact Hw|exact HL|apply lookup_insert_eq|exact Hc|exact Hin|exact Hu|exact Hhash| | |exact Hon|].
    + eapply Forall_impl; [exact (do_versions _ _ Hok)|]. cbn. lia.
    + cbn. lia.
    + intros s3 Hw3 Hcalm3 Hcost3. apply wp_ret. apply HW.
      * exists L, fd. split_and!; [done|done|exact (describes_cname rd nm fd (Hde r))|done|done|]. apply (calm_trans 1 0 s s1); [exact Hcalm1|exact Hcalm3].
      * apply (cost_trans 2 0 0 0 s s2 s3); [done|done|exact Hcost|exact Hcost3].
Qed.

(** *** The calls *)

(** Directories as a tree of names, and the two changes of it. *)
Abbreviation tree := (nat → gmap (list Z) (Z * Z)).
Definition link_name (i : nat) (nm : list Z) (e : Z * Z) (T : tree) : tree := λ j, if decide (j = i) then <[nm := e]> (T j) else T j.
Definition unlink_name (i : nat) (nm : list Z) (T : tree) : tree := λ j, if decide (j = i) then delete nm (T j) else T j.
Definition same_tree (Ls : journals) (T T' : tree) : Prop := ∀ j, is_Some (Ls !! j) → T j = T' j.
Lemma same_tree_trans Ls T T1 T2 : same_tree Ls T T1 → same_tree Ls T1 T2 → same_tree Ls T T2.
Proof. intros H1 H2 j Hj. by rewrite H1, H2. Qed.
Lemma world_same_shows s s' Ls : world s Ls → world s' Ls → same_tree Ls (shows s') (shows s).
Proof. intros Hw Hw' j [L HL]. by rewrite (world_shows s Ls j L), (world_shows s' Ls j L). Qed.
Lemma entered_shows s s' Ls i nm target kind :
  world s Ls → entered s s' Ls i nm target kind →
  same_tree Ls (shows s') (if target =? 0 then unlink_name i nm (shows s) else link_name i nm (target, kind) (shows s)).
Proof.
  intros Hw (L & d & HL & Hw' & <- & <- & <- & _) j [Lj HLj]. destruct (decide (j = i)) as [->|Hj].
  - assert (Lj = L) as -> by congruence. rewrite (world_shows s' _ i (L ++ [d])) by (done || apply lookup_insert_eq).
    destruct (wo_dirs _ _ Hw' i (L ++ [d])) as (v & _ & Hok); [apply lookup_insert_eq|]. rewrite (listing_snoc v L d Hok). unfold enter.
    rewrite <-(world_shows s Ls i L Hw HL). destruct (fino d =? 0); unfold link_name, unlink_name; by rewrite decide_True.
  - rewrite (world_shows s' _ j Lj) by (rewrite ?lookup_insert_ne; done). rewrite <-(world_shows s Ls j Lj Hw HLj).
    destruct (fino d =? 0); unfold link_name, unlink_name; by rewrite decide_False.
Qed.
Lemma entered_from s s1 s' Ls i nm target kind : inodes s1 = inodes s → entered s1 s' Ls i nm target kind → entered s s' Ls i nm target kind.
Proof.
  intros Hin (L & d & HL & Hw' & H1 & H2 & H3 & Hcalm). exists L, d. split_and!; try done.
  apply (calm_trans 0 1 s s1); [by apply calm_same|done].
Qed.

Lemma wp_with_room (k : Z → SM dirs Z) (s : dirs) Ls (Q : Z → dirs → Prop) :
  world s Ls →
  (∀ s' e, e ≠ 0 → ¬ afford 1 1 s → world s' Ls → inodes s' = inodes s → Q e s') →
  (∀ s' o l, held o l s' Ls → inodes s' = inodes s → cost 1 1 s s' → wp (k o) s' Q) →
  wp (with_room k) s Q.
Proof.
  intros Hw HF HW. unfold with_room, alloc. apply wp_bind, wp_on_sys, wp_alloc_any. intros ok mem' Hd.
  set (s1 := Dirent.St _ _). assert (world s1 Ls) as Hw1 by (by eapply world_same).
  destruct ok; cbn [negb].
  - apply wp_bind. eapply wp_reserve_dir; [exact Hw1| |].
    + intros s2 ret o l Hret Hw2 Hin Hno. rewrite (proj2 (truthy_spec ret)) by done. apply wp_ret. apply HF; [done| |done|done].
      by intros (_ & Hg & _).
    + intros s2 o l Hh Hin _ Hcost. change (truthy 0) with false. cbv iota. apply (HW s2 o l); [done|done|].
      apply (cost_trans 1 0 0 1 s s1); [done|done|by apply (cost_drew _ _ true)|done].
  - apply wp_ret. apply HF; [done| |exact Hw1|done]. intros (Hp & _). by destruct (plenty_drew _ _ _ _ Hd Hp).
Qed.
Lemma wp_do_link i target kind nm now (s : dirs) Ls L v (Q : Z → dirs → Prop) :
  world s Ls → Ls !! i = Some L → inodes s !! i = Some v → highest_version v + 1 < 2 ^ 32 →
  fits 4 target → fits 4 now → fits 1 kind → name_ok nm →
  (∀ s' e, e ≠ 0 → ¬ afford 3 1 s → world s' Ls → calm 1 s s' → Q e s') →
  (∀ s', entered s s' Ls i nm target kind → cost 3 1 s s' → Q 0 s') →
  wp (jffs2_do_link full_name_hash slab_dirent i target kind nm now) s Q.
Proof.
  intros Hw HL Hv Hlt Ht Hn Hk Hnm HF HW. unfold jffs2_do_link. eapply wp_with_room; [exact Hw| |].
  - intros s' e Hne Hno Hw' Hin. apply HF; [done| |done|by apply calm_same]. intros Ha. apply Hno. eapply afford_less; [exact Ha|lia|lia].
  - intros s1 o l Hh Hin Hcost. eapply wp_change_name; [exact Hh|exact HL|by rewrite Hin|exact Hlt|done..| |].
    + intros s' e Hne Hno Hw' Hcalm. apply HF; [done| |done|]. { intros Ha. apply Hno. apply (Hcost 3 1); [lia|lia|done]. }
      apply (calm_trans 0 1 s s1); [by apply calm_same|done].
    + intros s' Hent Hcost'. apply HW; [by eapply entered_from|]. apply (cost_trans 1 1 2 0 s s1); done.
Qed.

(** The links of an inode, its directory left as it was. *)
Definition same_dir (v v' : inode_info) : Prop :=
  dents v' = dents v ∧ highest_version v' = highest_version v ∧ i_ino v' = i_ino v ∧ i_mode v' = i_mode v ∧
  (λ c, (c_ino c, c_nodes c)) <$> inocache v' = (λ c, (c_ino c, c_nodes c)) <$> inocache v.
Definition still (s s' : dirs) : Prop := sys s' = sys s ∧ ∀ j v, inodes s !! j = Some v → ∃ v', inodes s' !! j = Some v' ∧ same_dir v v'.
Lemma still_same (s s' : dirs) : sys s' = sys s → inodes s' = inodes s → still s s'.
Proof. intros Hy Hi. split; [done|]. intros j v Hv. exists v. by rewrite Hi. Qed.
Lemma still_trans s s1 s2 : still s s1 → still s1 s2 → still s s2.
Proof.
  intros [H1 I1] [H2 I2]. split; [congruence|]. intros j v Hv. destruct (I1 j v Hv) as (v1 & Hv1 & ? & ? & ? & ? & ?), (I2 j v1 Hv1) as (v2 & Hv2 & ? & ? & ? & ? & ?).
  exists v2. split; [done|]. split_and!; congruence.
Qed.
Lemma dir_ok_same v v' L : same_dir v v' → dir_ok v L → dir_ok v' L.
Proof.
  intros (Hd & Hh & _ & _ & Hc) [H1 H2 H3 H4 H5 H6 (c & H7 & H8 & H9)]. split; rewrite ?Hd, ?Hh; try done.
  rewrite H7 in Hc. destruct (inocache v') as [c'|]; [|done]. injection Hc as Ho Hn. exists c'. split_and!; [done|by rewrite Ho|by rewrite Hn].
Qed.
Lemma still_world s s' Ls : still s s' → world s Ls → world s' Ls.
Proof.
  intros [Hy Hi] [H1 H2 H3 H4]. split; rewrite ?Hy; try done. intros i L HL. destruct (H1 i L HL) as (v & Hv & Hok).
  destruct (Hi i v Hv) as (v' & Hv' & Hs). exists v'. split; [done|]. by eapply dir_ok_same.
Qed.
Lemma wp_iput_still f i (s : dirs) v (Q : unit → dirs → Prop) :
  inodes s !! i = Some v → same_dir v (f v) → (∀ s', still s s' → inodes s' = <[i := f v]> (inodes s) → Q tt s') → wp (iput f i) s Q.
Proof.
  intros Hv Hs HQ. eapply wp_iput; [exact Hv|]. apply HQ; [|done]. split; [done|]. cbn. intros j w Hw. destruct (decide (j = i)) as [->|Hj].
  - exists (f v). rewrite lookup_insert_eq. split; [done|]. congruence.
  - exists w. by rewrite lookup_insert_ne.
Qed.

(** The inode [d] goes away. *)
Definition lessened (dead : option nat) : gmap nat (Z * option Z) → gmap nat (Z * option Z) := match dead with Some d => bump_cached (-1) d | None => id end.
Definition buried (dead : option nat) (Ls : journals) : journals := match dead with Some d => delete d Ls | None => Ls end.
Lemma world_forget d w (s : dirs) (y : sys_st) Ls :
  world s Ls → ref_at y = ref_at (sys s) → flash y = flash (sys s) → space y = space (sys s) →
  world (Dirent.St (<[d := w]> (inodes s)) y) (delete d Ls).
Proof.
  intros [H1 H2 H3 H4] Hr Hf Hs. split; cbn [sys inodes]; rewrite ?Hf, ?Hs; try done.
  - intros i L (Hi & HL)%lookup_delete_Some. rewrite lookup_insert_ne by done. by apply H1.
  - intros i L x (Hi & HL)%lookup_delete_Some Hx. unfold on_flash. rewrite Hr, Hf, Hs. by apply (H2 i L).
Qed.
Lemma wp_obsolete_dents l : ∀ (s : dirs) (Q : unit → dirs → Prop),
  (∀ m, memory m = memory (map (sys s)) → Q tt (Dirent.St (inodes s) (with_map m (sys s)))) → wp (obsolete_dents l) s Q.
Proof.
  induction l as [|d l IH]; intros s Q HQ; cbn [obsolete_dents].
  - apply wp_ret. specialize (HQ (map (sys s)) eq_refl). by destruct s as [I []].
  - apply wp_bind, wp_on_sys, wp_mark_any. intros m Hm. apply IH. cbn. intros m' Hm'. apply HQ. congruence.
Qed.
Lemma wp_bury d (s : dirs) Ls w (Q : unit → dirs → Prop) :
  world s Ls → inodes s !! d = Some w →
  (∀ s' w', world s' (delete d Ls) → inodes s' = <[d := w']> (inodes s) → counts s' = bump_cached (-1) d (counts s) → cost 0 0 s s' → Q tt s') →
  wp (bury d) s Q.
Proof.
  intros Hw Hd HQ. unfold bury. apply wp_bind. eapply wp_iget; [exact Hd|]. destruct (inocache w) as [c|] eqn:Hc.
  2:{ apply wp_ret. apply (HQ s w); [|by rewrite insert_id|by apply (counts_put d w w); [|rewrite insert_id|unfold tally; rewrite Hc]|by apply cost_none].
      pose proof (world_forget d w s (sys s) Ls Hw eq_refl eq_refl eq_refl) as H. rewrite insert_id in H by done. by destruct s. }
  apply wp_bind. eapply wp_iget; [exact Hd|]. apply wp_bind.
  assert (∀ m w1, memory m = memory (map (sys s)) → inocache w1 = Some c → i_nlink w1 = i_nlink w →
    wp (put_cache (λ c, set_nlink (nlink c - 1) c) d) (Dirent.St (<[d := w1]> (inodes s)) (with_map m (sys s))) Q) as Hlast.
  { intros m w1 Hm Hc1 Hl1. unfold put_cache, cache. apply wp_bind, wp_bind. eapply wp_iget; [apply lookup_insert_eq|]. rewrite Hc1. apply wp_ret.
    eapply wp_iput; [apply lookup_insert_eq|]. cbn [inodes sys]. rewrite insert_insert_eq.
    eapply HQ; [by apply (world_forget d _ s)|reflexivity| |by apply cost_none].
    eapply counts_put; [exact Hd|reflexivity|]. unfold tally. cbn. rewrite Hl1, Hc. cbn. do 2 f_equal. lia. }
  destruct (S_ISDIR (i_mode w)).
  - apply wp_bind. eapply wp_iget; [exact Hd|]. apply wp_bind, wp_obsolete_dents. intros m Hm. eapply wp_iput; [exact Hd|]. by apply Hlast.
  - apply wp_ret. specialize (Hlast (map (sys s)) w eq_refl Hc eq_refl). rewrite insert_id in Hlast by done. by destruct s as [I []].
Qed.
Lemma wp_do_unlink i nm dead now (s : dirs) Ls L v (Q : Z → dirs → Prop) :
  world s Ls → Ls !! i = Some L → inodes s !! i = Some v → highest_version v + 1 < 2 ^ 32 → fits 4 now → name_ok nm →
  (∀ d, dead = Some d → d ≠ i ∧ is_Some (inodes s !! d)) →
  (∀ s' e, e ≠ 0 → ¬ afford 3 1 s → world s' Ls → calm 1 s s' → Q e s') →
  (∀ s' d, world s' (buried dead (<[i := L ++ [d]]> Ls)) → same_tree (buried dead Ls) (shows s') (unlink_name i nm (shows s)) →
     (∀ j, is_Some (inodes s !! j) → is_Some (inodes s' !! j)) → counts s' = lessened dead (counts s) → cost 3 1 s s' → Q 0 s') →
  wp (jffs2_do_unlink full_name_hash slab_dirent i nm dead now) s Q.
Proof.
  intros Hw HL Hv Hlt Hn Hnm Hdead HF HW. unfold jffs2_do_unlink. eapply wp_with_room; [exact Hw| |].
  - intros s' e Hne Hno Hw' Hin. apply HF; [done| |done|by apply calm_same]. intros Ha. apply Hno. eapply afford_less; [exact Ha|lia|lia].
  - intros s1 o l Hh Hin Hcost. apply wp_bind. eapply wp_change_name; [exact Hh|exact HL|by rewrite Hin|exact Hlt|done..| |].
    + intros s' e Hne Hno Hw' Hcalm. rewrite (proj2 (truthy_spec e)) by done. apply wp_ret. apply HF; [done| |done|].
      { intros Ha. apply Hno. apply (Hcost 3 1); [lia|lia|done]. } apply (calm_trans 0 1 s s1); [by apply calm_same|done].
    + intros s2 Hent2 Hcost2. change (truthy 0) with false. cbv iota. pose proof (entered_from s s1 s2 Ls _ _ _ _ Hin Hent2) as Hent.
      pose proof (entered_shows s s2 Ls i nm 0 DT_UNKNOWN Hw Hent) as Htree. destruct Hent as (L' & d & HL' & Hw2 & _ & _ & _ & Hcalm).
      assert (L' = L) as -> by congruence. assert (cost 3 1 s s2) as Hc by (by apply (cost_trans 1 1 2 0 s s1)).
      assert (∀ j, is_Some (inodes s !! j) → is_Some (inodes s2 !! j)) as Hstay.
      { intros j [w Hj]. destruct (proj2 Hcalm j w Hj) as (w' & Hj' & _). by exists w'. }
      apply wp_bind. destruct dead as [dd|].
      * destruct (Hdead dd eq_refl) as [Hdi Hdd]. destruct (Hstay dd Hdd) as [w Hdw]. eapply wp_bury; [exact Hw2|exact Hdw|].
        intros s3 w' Hw3 Hin3 Hcnt3 Hcost3. apply wp_ret. apply (HW s3 d); [exact Hw3| | |by rewrite Hcnt3, (proj1 Hcalm)|by apply (cost_trans 3 1 0 0 s s2)].
        -- cbn [buried]. intros j [Lj (Hj & HLj)%lookup_delete_Some]. transitivity (shows s2 j); [|apply Htree; by exists Lj].
           unfold shows. rewrite Hin3. by rewrite lookup_insert_ne.
        -- intros j Hj. rewrite Hin3. destruct (decide (j = dd)) as [->|Hne]; [by rewrite lookup_insert_eq|]. rewrite lookup_insert_ne by done. by apply Hstay.
      * apply wp_ret, wp_ret. apply (HW s2 d); [done..|exact (proj1 Hcalm)|done].
Qed.

(** *** Renaming *)

(** The journals of [Ls] with more at the end. *)
Definition grown (Ls Ls' : journals) : Prop :=
  (∀ j L, Ls !! j = Some L → ∃ M, Ls' !! j = Some (L ++ M)) ∧ ∀ j, is_Some (Ls' !! j) → is_Some (Ls !! j).
Lemma grown_refl Ls : grown Ls Ls.
Proof. split; [|done]. intros j L HL. exists []. by rewrite app_nil_r. Qed.
Lemma grown_trans Ls L1 L2 : grown Ls L1 → grown L1 L2 → grown Ls L2.
Proof.
  intros [H1 D1] [H2 D2]. split; [|intros j Hj; by apply D1, D2]. intros j L HL. destruct (H1 j L HL) as [M HM], (H2 j _ HM) as [M' HM'].
  exists (M ++ M'). by rewrite app_assoc.
Qed.
Lemma grown_insert Ls i L d : Ls !! i = Some L → grown Ls (<[i := L ++ [d]]> Ls).
Proof.
  intros HL. split.
  - intros j Lj HLj. destruct (decide (j = i)) as [->|Hj]; [exists [d]; rewrite lookup_insert_eq; congruence|].
    exists []. by rewrite lookup_insert_ne, app_nil_r.
  - intros j. destruct (decide (j = i)) as [->|Hj]; [by exists L|by rewrite lookup_insert_ne].
Qed.
Lemma same_tree_grown Ls Ls' T T' : grown Ls Ls' → same_tree Ls' T T' → same_tree Ls T T'.
Proof. intros [Hg _] Ht j [L HL]. destruct (Hg j L HL) as [M HM]. apply Ht. by exists (L ++ M). Qed.
Lemma unlink_tree Ls i nm T T' : same_tree Ls T T' → same_tree Ls (unlink_name i nm T) (unlink_name i nm T').
Proof. intros Ht j Hj. unfold unlink_name. by rewrite (Ht j Hj). Qed.
Lemma still_shows s s' Ls : world s Ls → still s s' → same_tree Ls (shows s') (shows s).
Proof. intros Hw Hs. by apply world_same_shows; [|eapply still_world]. Qed.
Lemma still_some s s' j : still s s' → is_Some (inodes s !! j) → is_Some (inodes s' !! j).
Proof. intros [_ H] [v Hv]. destruct (H j v Hv) as (v' & Hv' & _). by exists v'. Qed.

Lemma wp_count_cached d i (s : dirs) (Q : unit → dirs → Prop) :
  is_Some (inodes s !! i) → (∀ s', still s s' → counts s' = bump_cached d i (counts s) → Q tt s') → wp (count_cached d i) s Q.
Proof.
  intros [v Hv] HQ. unfold count_cached. apply wp_bind. eapply wp_iget; [exact Hv|].
  destruct (inocache v) as [c|] eqn:Hc.
  2:{ apply wp_ret, HQ; [by apply still_same|]. by apply (counts_put i v v); [|rewrite insert_id|unfold tally; rewrite Hc]. }
  unfold put_cache, cache. apply wp_bind, wp_bind. eapply wp_iget; [exact Hv|]. rewrite Hc. apply wp_ret.
  eapply wp_iput_still; [exact Hv| |intros s' Hs Hi; apply HQ; [exact Hs|]]; [unfold same_dir; cbn; by rewrite Hc|].
  eapply counts_put; [exact Hv|exact Hi|]. unfold tally. cbn. rewrite Hc. cbn. do 2 f_equal. lia.
Qed.
Lemma wp_count_links d i (s : dirs) (Q : unit → dirs → Prop) :
  is_Some (inodes s !! i) → (∀ s', still s s' → counts s' = bump d i (counts s) → Q tt s') → wp (count_links d i) s Q.
Proof.
  intros [v Hv] HQ. unfold count_links. apply wp_bind. eapply wp_iget; [exact Hv|].
  eapply wp_iput_still; [exact Hv|done|]. intros s' Hs Hi. apply HQ; [exact Hs|]. by eapply counts_put.
Qed.
(** The links of a rename: the victim loses one, in its inode and its cache, or a directory brings one to
    its new parent; the old parent of a directory loses one. *)
Definition moved_in (victim : option nat) (mode : Z) (nd : nat) (m : gmap nat (Z * option Z)) : gmap nat (Z * option Z) :=
  match victim with Some v => bump_cached (-1) v (bump (-1) v m) | None => if S_ISDIR mode then bump 1 nd m else m end.
Definition moved_out (mode : Z) (od : nat) (m : gmap nat (Z * option Z)) : gmap nat (Z * option Z) :=
  if S_ISDIR mode then bump (-1) od m else m.
Lemma wp_rename_links victim mode nd (s : dirs) (Q : unit → dirs → Prop) :
  (∀ v, victim = Some v → is_Some (inodes s !! v)) → is_Some (inodes s !! nd) →
  (∀ s', still s s' → counts s' = moved_in victim mode nd (counts s) → Q tt s') →
  wp (rename_links victim mode nd) s Q.
Proof.
  intros Hv Hnd HQ. unfold rename_links. destruct victim as [v|].
  - apply wp_bind, wp_count_links; [by apply Hv|]. intros s1 H1 C1. apply wp_count_cached; [eapply still_some; [exact H1|by apply Hv]|].
    intros s2 H2 C2. apply HQ; [by eapply still_trans|]. unfold moved_in. by rewrite C2, C1.
  - unfold moved_in in HQ. destruct (S_ISDIR mode); [by apply wp_count_links|by apply wp_ret, HQ; [apply still_same|]].
Qed.
Lemma wp_rename_end od old mode ret (s : dirs) (Q : Z → dirs → Prop) :
  is_Some (inodes s !! old) → is_Some (inodes s !! od) →
  (∀ s', still s s' → counts s' = (if ret =? 0 then moved_out mode od (counts s) else bump_cached 1 old (bump 1 old (counts s))) → Q ret s') →
  wp (rename_end od old mode ret) s Q.
Proof.
  intros Hold Hod HQ. unfold rename_end. destruct (truthy ret) eqn:Hr.
  - apply truthy_spec in Hr. rewrite (proj2 (Z.eqb_neq _ _) Hr) in HQ.
    apply wp_bind, wp_count_links; [exact Hold|]. intros s1 H1 C1. apply wp_bind, wp_count_cached; [by eapply still_some|].
    intros s2 H2 C2. apply wp_ret, HQ; [by eapply still_trans|by rewrite C2, C1].
  - apply truthy_false in Hr as ->. cbn [Z.eqb] in HQ. unfold moved_out in HQ. apply wp_bind.
    destruct (S_ISDIR mode); [|by apply wp_ret, wp_ret, HQ; [apply still_same|]].
    apply wp_count_links; [exact Hod|]. intros s1 H1 C1. by apply wp_ret, HQ.
Qed.

(** The inodes of a rename. *)
Record renames (s : dirs) (Ls : journals) (od old nd : nat) (victim : option nat) (vo : inode_info) : Prop := {
  re_world : world s Ls;
  re_old_dir : ∃ L v, Ls !! od = Some L ∧ inodes s !! od = Some v ∧ highest_version v + 2 < 2 ^ 32;
  re_new_dir : ∃ L v, Ls !! nd = Some L ∧ inodes s !! nd = Some v ∧ highest_version v + 2 < 2 ^ 32;
  re_old : inodes s !! old = Some vo;
  re_ino : fits 4 (i_ino vo) ∧ i_ino vo ≠ 0;
  re_victim : ∀ v, victim = Some v → is_Some (inodes s !! v) }.
Definition full_dir (s : dirs) (victim : option nat) : bool :=
  match victim ≫= (inodes s !!.) with Some v => S_ISDIR (i_mode v) && has_entries (dents v) | None => false end.
Lemma mode_type_fits m : fits 1 (mode_type m).
Proof.
  unfold mode_type. assert (0 <= (m &&& S_IFMT) >>> 12 < 16) as H.
  { rewrite Z.shiftr_div_pow2 by lia. assert (0 <= (m &&& S_IFMT) < 2 ^ 16); [|split; [apply Z.div_pos; lia|apply Z.div_lt_upper_bound; lia]].
    rewrite Z.land_comm. apply land_range; unfold S_IFMT; lia. }
  unfold fits. destruct (truthy _); cbn; unfold DT_REG; lia.
Qed.

(** What a rename does to the names and the links.  When the old name could not be taken away the file has
    both names and one link more. *)
Definition renamed (s s' : dirs) (Ls : journals) od oname old nd nname victim mode e (ret : Z) : Prop :=
  (∃ Ls', grown Ls Ls' ∧ world s' Ls') ∧
  (ret = 0 ∧ same_tree Ls (shows s') (unlink_name od oname (link_name nd nname e (shows s))) ∧
     counts s' = moved_out mode od (moved_in victim mode nd (counts s)) ∨
   ret ≠ 0 ∧ ¬ afford 6 2 s ∧
     (same_tree Ls (shows s') (shows s) ∧ counts s' = counts s ∨
      same_tree Ls (shows s') (link_name nd nname e (shows s)) ∧
        counts s' = bump_cached 1 old (bump 1 old (moved_in victim mode nd (counts s))))).
Lemma wp_victim_full victim (s : dirs) (Q : bool → dirs → Prop) :
  (∀ v, victim = Some v → is_Some (inodes s !! v)) → Q (full_dir s victim) s → wp (victim_full victim) s Q.
Proof.
  intros Hv HQ. unfold victim_full, full_dir in *. destruct victim as [v|]; [|by apply wp_ret]. destruct (Hv v eq_refl) as [w Hw].
  cbn in HQ. rewrite Hw in HQ. apply wp_bind. eapply wp_iget; [exact Hw|]. apply wp_bind. eapply wp_iget; [exact Hw|]. by apply wp_ret.
Qed.
(** From the link on: the links are counted and the old name goes. *)
Lemma wp_rename_unlinks od oname old nd nname victim vo mode now' kind (s s1 : dirs) Ls (Q : Z → dirs → Prop) :
  renames s Ls od old nd victim vo → entered s s1 Ls nd nname (i_ino vo) kind → cost 3 1 s s1 → fits 4 now' → name_ok oname →
  (∀ ret s', renamed s s' Ls od oname old nd nname victim mode (i_ino vo, kind) ret → Q ret s') →
  wp (rename_links victim mode nd;; ret ← jffs2_do_unlink full_name_hash slab_dirent od oname None now'; rename_end od old mode ret) s1 Q.
Proof.
  intros [Hw (Lo & v & HLo & Hv & Hver) (Ln & vn & HLn & Hvn & _) Hold [_ Hino] Hvic] Hent Hcost Hnow Hon HQ.
  pose proof (entered_shows s s1 Ls nd nname (i_ino vo) kind Hw Hent) as Htree. rewrite (proj2 (Z.eqb_neq _ _) Hino) in Htree.
  destruct Hent as (L & d & HL & Hw1 & _ & _ & _ & Hcalm). pose proof (grown_insert Ls nd L d HL) as Hgrow. set (Ls1 := <[nd := L ++ [d]]> Ls) in *.
  assert (∀ j, is_Some (inodes s !! j) → is_Some (inodes s1 !! j)) as Hstay.
  { intros j [w Hj]. destruct (proj2 Hcalm j w Hj) as (w' & Hj' & _). by exists w'. }
  apply wp_bind, wp_rename_links; [intros x Hx; by apply Hstay, Hvic|by apply Hstay; exists vn|]. intros s2 Hst Hcnt2. rewrite (proj1 Hcalm) in Hcnt2.
  destruct (proj2 Hcalm od v Hv) as (v1 & Hv1 & _ & _ & _ & Hver1 & _). pose proof Hst as [Hsys H12].
  destruct (H12 od v1 Hv1) as (v2 & Hv2 & _ & Hver2 & _).
  pose proof (still_world s1 s2 Ls1 Hst Hw1) as Hw2. pose proof (still_shows s1 s2 Ls1 Hw1 Hst) as Htree2.
  assert (same_tree Ls (shows s2) (link_name nd nname (i_ino vo, kind) (shows s))) as Hlinked.
  { eapply same_tree_trans; [by eapply same_tree_grown|exact Htree]. }
  assert (cost 3 1 s s2) as Hcost2.
  { apply (cost_trans 3 1 0 0 s s1); [done|done|done|]. apply cost_none; unfold mem; by rewrite Hsys. }
  pose proof Hgrow as [Hg _].
  destruct (Hg od Lo HLo) as [M HM].
  assert (∀ j, is_Some (inodes s !! j) → is_Some (inodes s2 !! j)) as Hstay2 by (intros j Hj; eapply still_some; [exact Hst|by apply Hstay]).
  apply wp_bind. eapply (wp_do_unlink od oname None now' s2 Ls1 (Lo ++ M) v2); [exact Hw2|exact HM|exact Hv2|lia|exact Hnow|exact Hon|done| |].
  - intros s3 e Hne Hno Hw3 Hcalm3. apply wp_rename_end.
    + destruct (Hstay2 old) as [w Hw']; [by exists vo|]. destruct (proj2 Hcalm3 old w Hw') as (w' & Hw'' & _). by exists w'.
    + destruct (proj2 Hcalm3 od v2 Hv2) as (w' & Hw' & _). by exists w'.
    + intros s4 H34 Hcnt4. apply HQ. split; [exists Ls1; split; [done|by eapply still_world]|]. right. split_and!; [done| |].
      { intros Ha. apply Hno. apply (Hcost2 6 2); [lia|lia|done]. }
      right. split; [|by rewrite Hcnt4, (proj2 (Z.eqb_neq _ _) Hne), (proj1 Hcalm3), Hcnt2]. eapply same_tree_trans; [|exact Hlinked]. eapply same_tree_grown; [exact Hgrow|].
      eapply same_tree_trans; [by eapply still_shows|by apply world_same_shows].
  - cbn [buried]. intros s3 d3 Hw3 Htree3 Hstay3 Hcnt3 _. apply wp_rename_end; [apply Hstay3, Hstay2; by exists vo|apply Hstay3; by exists v2|].
    intros s4 H34 Hcnt4. apply HQ. split; [eexists; split; [|by eapply still_world]; eapply grown_trans; [exact Hgrow|by eapply grown_insert]|].
    left. split_and!; [done| |by rewrite Hcnt4, Hcnt3, <-Hcnt2]. eapply same_tree_trans; [|by apply unlink_tree]. eapply same_tree_grown; [exact Hgrow|].
    eapply same_tree_trans; [|exact Htree3]. eapply same_tree_grown; [by eapply grown_insert|]. by eapply still_shows.
Qed.

(** Of two names the old one is gone and the new one is there. *)
Lemma renamed_names s s' Ls od oname old nd nname victim vo e ret :
  renames s Ls od old nd victim vo → (od, oname) ≠ (nd, nname) → renamed s s' Ls od oname old nd nname victim (i_mode vo) e ret →
  ret = 0 → shows s' od !! oname = None ∧ shows s' nd !! nname = Some e.
Proof.
  intros [_ (Lo & _ & HLo & _) (Ln & _ & HLn & _) _ _ _] Hne [_ [(_ & Ht & _)|(Hret & _)]] Hz; [|done].
  rewrite (Ht od), (Ht nd) by (by eexists). unfold unlink_name, link_name. rewrite decide_True by done. split; [apply lookup_delete_eq|].
  destruct (decide (nd = od)) as [->|Hd]; rewrite decide_True by done.
  - rewrite lookup_delete_ne by (intros ->; by apply Hne). apply lookup_insert_eq.
  - apply lookup_insert_eq.
Qed.
(** The end of a removal: the inode's links from its cache, and the link of ".." . *)
Lemma wp_rmdir_end dead i ret (s : dirs) (Q : Z → dirs → Prop) :
  is_Some (inodes s !! dead) → is_Some (inodes s !! i) →
  (∀ s', still s s' → counts s' = (if ret =? 0 then bump (-1) i (refresh dead (counts s)) else refresh dead (counts s)) → Q ret s') →
  wp (c ← iget inocache dead; match c with Some c => iput (with_nlink (nlink c)) dead | None => mret tt end;; mret ret) s
    (λ ret s', wp ((if truthy ret then mret tt else count_links (-1) i);; mret ret) s' Q).
Proof.
  intros [x Hx] Hi HQ. apply wp_bind. eapply wp_iget; [exact Hx|]. apply wp_bind.
  assert (∀ s2, still s s2 → counts s2 = refresh dead (counts s) →
    wp (mret ret) s2 (λ ret s', wp ((if truthy ret then mret tt else count_links (-1) i);; mret ret) s' Q)) as Hlast.
  { intros s2 H2 C2. apply wp_ret, wp_bind. destruct (truthy ret) eqn:Hr.
    - apply truthy_spec, Z.eqb_neq in Hr. rewrite Hr in HQ. by apply wp_ret, wp_ret, HQ.
    - apply truthy_false in Hr as ->. apply wp_count_links; [by eapply still_some|]. intros s3 H3 C3.
      apply wp_ret, HQ; [by eapply still_trans|]. cbn [Z.eqb]. by rewrite C3, C2. }
  destruct (inocache x) as [c|] eqn:Hc.
  - eapply wp_iput_still; [exact Hx|done|]. intros s2 H2 I2. apply Hlast; [exact H2|]. eapply counts_put; [exact Hx|exact I2|].
    unfold tally. cbn. by rewrite Hc.
  - apply wp_ret, Hlast; [by apply still_same|]. by apply (counts_put dead x x); [|rewrite insert_id|unfold tally; rewrite Hc].
Qed.

(** *** What the calls promise *)

(** [C9] Linking a name.  In a file system whose directories are on the flash, [jffs2_do_link]
    returns, through every branch (no memory, no room, a failed write, a retried one), as long as the
    directory's next version fits 32 bits: an answer of 0 says that the directory shows the name with the
    inode and the type, whatever was there before, and that every other name of every directory is as it
    was; any other answer is given only when memory or room was refused or the flash failed, and every
    directory is as it was.  The directories stay on the flash: what was written of each only grows; and no
    link count changes (that is for the caller). *)
Theorem link_adds_a_name (s : dirs) Ls i L v target kind nm now
    (Hw : world s Ls) (HL : Ls !! i = Some L) (Hv : inodes s !! i = Some v) (Hlt : highest_version v + 1 < 2 ^ 32)
    (Ht : fits 4 target) (Hnz : target ≠ 0) (Hn : fits 4 now) (Hk : fits 1 kind) (Hnm : name_ok nm) :
  ∃ ret s', jffs2_do_link full_name_hash slab_dirent i target kind nm now s = Some (ret, s') ∧
    (∃ Ls', grown Ls Ls' ∧ world s' Ls') ∧ counts s' = counts s ∧
    (ret = 0 ∧ same_tree Ls (shows s') (link_name i nm (target, kind) (shows s)) ∨
     ret ≠ 0 ∧ ¬ afford 3 1 s ∧ same_tree Ls (shows s') (shows s)).
Proof.
  apply (wp_inv (jffs2_do_link full_name_hash slab_dirent i target kind nm now)).
  eapply wp_do_link; [exact Hw|exact HL|exact Hv|exact Hlt|done..| |].
  - intros s' e Hne Hno Hw' [Hcnt _]. split; [by exists Ls; split; [apply grown_refl|]|]. split; [exact Hcnt|].
    right. split_and!; [done..|by apply world_same_shows].
  - intros s' Hent _. pose proof (entered_shows s s' Ls i nm target kind Hw Hent) as Htree. rewrite (proj2 (Z.eqb_neq _ _) Hnz) in Htree.
    destruct Hent as (L' & d & HL' & Hw' & _ & _ & _ & Hcnt & _). split; [|by split; [|left]]. eexists. split; [by apply grown_insert|exact Hw'].
Qed.

(** [C10] Removing a directory.  [jffs2_rmdir] of a directory that has an entry answers [-ENOTEMPTY]
    and changes nothing.  Otherwise it returns, through every branch (the parent's next version fits 32
    bits): an answer of 0 says that the name is gone from its directory, that every other name of every
    other directory is as it was and stays on the flash, that the cache of the removed inode has one link
    less and [i_nlink] is what the cache says, and that the parent has one link less; any other answer is
    given only when memory or room was refused or the flash failed, and every directory, the one to remove
    included, is as it was and stays on the flash, and so are the link counts (but that [i_nlink] of the
    inode is read anew from its cache, as the code does in either case). *)
Theorem rmdir_removes_a_name (s : dirs) Ls i L v dead w nm now
    (Hw : world s Ls) (HL : Ls !! i = Some L) (Hv : inodes s !! i = Some v) (Hlt : highest_version v + 1 < 2 ^ 32)
    (Hn : fits 4 now) (Hnm : name_ok nm) (Hdi : dead ≠ i) (Hd : inodes s !! dead = Some w) :
  ∃ ret s', jffs2_rmdir full_name_hash slab_dirent i nm dead now s = Some (ret, s') ∧
    if has_entries (dents w) then ret = - ENOTEMPTY ∧ s' = s
    else
      ret = 0 ∧ (∃ Ls', grown (delete dead Ls) Ls' ∧ world s' Ls') ∧
        same_tree (delete dead Ls) (shows s') (unlink_name i nm (shows s)) ∧
        counts s' = bump (-1) i (refresh dead (bump_cached (-1) dead (counts s))) ∨
      ret ≠ 0 ∧ ¬ afford 3 1 s ∧ world s' Ls ∧ same_tree Ls (shows s') (shows s) ∧ counts s' = refresh dead (counts s).
Proof.
  apply (wp_inv (jffs2_rmdir full_name_hash slab_dirent i nm dead now)). unfold jffs2_rmdir. apply wp_bind. eapply wp_iget; [exact Hd|].
  destruct (has_entries (dents w)); [by apply wp_ret|]. unfold jffs2_unlink.
  apply wp_bind, wp_bind. eapply (wp_do_unlink i nm (Some dead)); [exact Hw|exact HL|exact Hv|exact Hlt|done|done| | |].
  - intros x [= <-]. by split; [|exists w].
  - intros s2 e Hne Hno Hw2 Hcalm. destruct (proj2 Hcalm dead w Hd) as (w' & Hw' & _), (proj2 Hcalm i v Hv) as (v' & Hv' & _).
    apply wp_rmdir_end; [by exists w'|by exists v'|]. rewrite (proj2 (Z.eqb_neq _ _) Hne), (proj1 Hcalm). intros s' Hst Hcnt.
    right. split_and!; [done..|by eapply still_world|by apply world_same_shows; [|eapply still_world]|done].
  - cbn [buried lessened]. intros s2 d Hw2 Htree Hstay Hcnt2 _.
    assert (grown (delete dead Ls) (delete dead (<[i := L ++ [d]]> Ls))) as Hgrow.
    { rewrite delete_insert_ne by done. apply grown_insert. by rewrite lookup_delete_ne. }
    apply wp_rmdir_end; [apply Hstay; by exists w|apply Hstay; by exists v|]. cbn [Z.eqb]. rewrite Hcnt2. intros s' Hst Hcnt.
    left. split; [done|]. split; [eexists; split; [exact Hgrow|by eapply still_world]|]. split; [|exact Hcnt].
    eapply same_tree_trans; [|exact Htree]. eapply same_tree_grown; [exact Hgrow|by eapply still_shows].
Qed.

(** [C8] Renaming never loses the file.  [jffs2_rename] over a directory that has entries answers
    [-ENOTEMPTY] and changes nothing.  Otherwise, for two names that are not the same one (the kernel does
    not call it so) and directories with two versions left, it returns, through every branch.  An answer of
    0 says that the old name is gone and the new one, in the same directory or another, shows the inode
    with its type in the place of whatever it showed, that every other name is as it was, that the inode
    which had the new name (the caller's [victim]) has one link less in its inode and its cache, and that a
    directory takes the link of its ".." from its old parent, and brings it to its new one when it takes
    nobody's place.  Any other answer is given only when memory or room was
    refused or the flash failed, and then either nothing changed, no link count either, or the file has
    both names and one link more, in its inode and its cache, so that removing one of them does not delete
    it.  No other link count changes. *)
Theorem rename_moves_a_name (s : dirs) Ls od oname old nd nname victim vo now now'
    (Hr : renames s Ls od old nd victim vo) (Ho : name_ok oname) (Hn : name_ok nname) (Hne : (od, oname) ≠ (nd, nname))
    (Ht : fits 4 now) (Ht' : fits 4 now') :
  ∃ ret s', jffs2_rename full_name_hash slab_dirent od oname old nd nname victim now now' s = Some (ret, s') ∧
    if full_dir s victim then ret = - ENOTEMPTY ∧ s' = s
    else renamed s s' Ls od oname old nd nname victim (i_mode vo) (i_ino vo, mode_type (i_mode vo)) ret ∧
      (ret = 0 → shows s' od !! oname = None ∧ shows s' nd !! nname = Some (i_ino vo, mode_type (i_mode vo))).
Proof.
  apply (wp_inv (jffs2_rename full_name_hash slab_dirent od oname old nd nname victim now now')).
  pose proof Hr as [Hw _ (Ln & vn & HLn & Hvn & Hver) Hold [Hfit Hnz] Hvic].
  unfold jffs2_rename. apply wp_bind, wp_victim_full; [exact Hvic|]. destruct (full_dir s victim); [by apply wp_ret|].
  apply wp_bind. eapply wp_iget; [exact Hold|]. apply wp_bind. eapply wp_iget; [exact Hold|].
  apply wp_bind. eapply wp_do_link; [exact Hw|exact HLn|exact Hvn|lia|exact Hfit|exact Ht|apply mode_type_fits|exact Hn| |].
  - intros s1 e He Hno Hw1 [Hcnt _]. rewrite (proj2 (truthy_spec e)) by done. apply wp_ret. split; [|done]. split; [by exists Ls; split; [apply grown_refl|]|].
    right. split_and!; [done| |left; split; [by apply world_same_shows|done]]. intros Ha. apply Hno. eapply afford_less; [exact Ha|lia|lia].
  - intros s1 Hent Hcost. change (truthy 0) with false. cbv iota. eapply wp_rename_unlinks; [exact Hr|exact Hent|exact Hcost|exact Ht'|exact Ho|].
    intros ret s' Hren. split; [exact Hren|]. by eapply renamed_names.
Qed.

(** Looking a name up finds what the directory shows.  [jffs2_lookup] of a name, with its hash,
    answers the inode under which the directory shows it, the error [-EIO] when that inode cannot be
    read, and no inode when the directory does not show the name: when it has no dirent or the last one
    is a deletion; names of the same hash are told apart.  Nothing changes. *)
Theorem lookup_finds_the_name (s : dirs) Ls i L target finds (Hw : world s Ls) (HL : Ls !! i = Some L) :
  jffs2_lookup i (full_name_hash target) target finds s =
    Some (match shows s i !! target with Some (ino, _) => if finds ino then inr (Some ino) else inl (- EIO) | None => inr None end, s).
Proof.
  destruct (wo_dirs _ _ Hw i L HL) as (v & Hv & Hok). pose proof (dir_filed v L Hok) as Hf. unfold shows. rewrite Hv.
  unfold jffs2_lookup, mbind, SM_bind, iget. rewrite Hv. destruct (decide (target ∈ cname <$> dents v)) as [Hin|Hout].
  - apply list_elem_of_fmap in Hin as (d & -> & Hd). rewrite (lookup_present full_name_hash (dents v) d Hf Hd), (listing_member full_name_hash (dents v) d Hf Hd).
    unfold truthy. destruct (fino d =? 0); cbn [negb]; [done|]. by destruct (finds (fino d)).
  - by rewrite lookup_absent, listing_absent.
Qed.

(** Reading a directory in pieces.  From every position, whatever [filldir] takes before it
    refuses: [jffs2_readdir] hands over the entries from that position on, in order, up to the first that
    is refused ("." and ".." first, then the names that are not deleted, each with its own offset), and
    leaves the position from which exactly the others are still to come: no call skips an entry and none
    hands one over twice. *)
Theorem readdir_hands_over_in_order {B} (filldir : B → entry → option B) ino pino l f_pos b
    (Hpos : 0 <= f_pos) :
  ∃ pos' b', jffs2_readdir filldir ino pino l f_pos b = (pos', b') ∧ f_pos <= pos' ∧
    fill filldir b (from f_pos (all_entries ino pino l)) = (b', from pos' (all_entries ino pino l)).
Proof.
  assert (∀ p, p <= 2 → from p (shown 2 l) = shown 2 l) as Hall by (intros p Hp; apply from_all; intros e He%shown_offsets; lia).
  assert (∀ p b1, 2 <= p → ∃ pos' b', readdir_loop filldir l 1 p b1 = (pos', b') ∧ p <= pos' ∧
    fill filldir b1 (from p (shown 2 l)) = (b', from pos' (shown 2 l))) as Hloop.
  { intros p b1 Hp. destruct (readdir_loop filldir l 1 p b1) as [pos' b'] eqn:Hr.
    destruct (readdir_loop_fills filldir l 1 p b1 pos' b' ltac:(lia) Hr) as [? ?]. by exists pos', b'. }
  assert (∀ p, from p (all_entries ino pino l) =
    (if p <=? 0 then [Entry dot 0 ino DT_DIR] else []) ++ (if p <=? 1 then [Entry dotdot 1 pino DT_DIR] else []) ++ from p (shown 2 l)) as Hfrom.
  { intros p. unfold all_entries. rewrite !from_cons. cbn [e_offset]. by destruct (p <=? 0), (p <=? 1). }
  assert (∀ b1, ∃ pos' b', match option_map (pair 2) (filldir b1 (Entry dotdot 1 pino DT_DIR)) with
      | Some (offset, b2) => readdir_loop filldir l 1 offset b2 | None => (1, b1) end = (pos', b') ∧ 1 <= pos' ∧
    fill filldir b1 (Entry dotdot 1 pino DT_DIR :: shown 2 l) = (b', from pos' (all_entries ino pino l))) as Hdots.
  { intros b1. cbn [fill]. destruct (filldir b1 _) as [b2|]; cbn [option_map].
    - destruct (Hloop 2 b2 ltac:(lia)) as (pos' & b' & Hr & Hp & Hf). exists pos', b'. rewrite (Hall 2) in Hf by lia.
      rewrite Hfrom, !(proj2 (Z.leb_gt _ _)) by lia. split; [exact Hr|]. split; [lia|exact Hf].
    - exists 1, b1. rewrite Hfrom, (Hall 1) by lia. done. }
  unfold jffs2_readdir. rewrite Hfrom. destruct (Z.eqb_spec f_pos 0) as [->|H0]; [|destruct (Z.eqb_spec f_pos 1) as [->|H1]].
  - rewrite (Hall 0) by lia. cbn [Z.leb Z.compare app fill]. destruct (filldir b (Entry dot 0 ino DT_DIR)) as [b1|]; cbn [option_map].
    + destruct (Hdots b1) as (pos' & b' & Hr & Hp & Hf). exists pos', b'. split; [exact Hr|]. split; [lia|exact Hf].
    + exists 0, b. rewrite Hfrom, (Hall 0) by lia. done.
  - rewrite (Hall 1) by lia. destruct (Hdots b) as (pos' & b' & Hr & Hp & Hf). exists pos', b'. split; [exact Hr|]. split; [lia|exact Hf].
  - rewrite !(proj2 (Z.leb_gt _ _)) by lia. destruct (Hloop f_pos b ltac:(lia)) as (pos' & b' & Hr & Hp & Hf). exists pos', b'.
    rewrite Hfrom, !(proj2 (Z.leb_gt _ _)) by lia. split; [exact Hr|]. split; [lia|exact Hf].
Qed.
End Worlds.


(** ** Directories to run them on *)

Section Runs.
Import Rb Frag Layout Node Dirent.

(** A hash with collisions, what the allocator leaves in a raw dirent, and three inodes: the root
    directory, a file and an empty directory. *)
Definition byte_sum (b : list Z) : Z := u32 (foldr Z.add 0 b).
Definition old_dirent : raw_dirent := RawDirent 1 2 3 4 5 6 7 8 9 10 43690 11 12.
Definition three_inodes : gmap nat inode_info :=
  {[ 1%nat := Inode [] 0 (Some (Cache 1 1 [])) 1 0x41ed 2; 2%nat := Inode [] 0 (Some (Cache 7 1 [])) 7 0x81a4 1;
     3%nat := Inode [] 0 (Some (Cache 9 2 [])) 9 0x41ed 2 ]}.
Definition new_dirs : Dirent.st (F := perfect) := Dirent.St three_inodes new_file.
Definition no_journals : gmap nat (list full_dirent) := {[ 1%nat := []; 3%nat := [] ]}.
Definition ab : list Z := [97; 98].
Definition ba : list Z := [98; 97].

Lemma page_dir_room n : 0 <= n → dir_room (F := perfect) (λ _, 255) (page_room n).
Proof.
  intros Hn _. cbn. split; [lia|]. split; [unfold sizeof_raw_dirent; lia|].
  apply perfect_stored. intros i v [<- _]%lookup_replicate. done.
Qed.
Lemma empty_dir_ok ino links mode nl : 0 <= ino < 2 ^ 32 → dir_ok byte_sum (Inode [] 0 (Some (Cache ino links [])) ino mode nl) [].
Proof. intros Hi. split; try done; try constructor; cbn; try lia. exists (Cache ino links []). split_and!; [done|exact Hi|]. intros d []%not_elem_of_nil. Qed.
Lemma root_there : new_dirs.(inodes) !! 1%nat = Some (Inode [] 0 (Some (Cache 1 1 [])) 1 0x41ed 2).
Proof. reflexivity. Qed.
Lemma third_there : new_dirs.(inodes) !! 3%nat = Some (Inode [] 0 (Some (Cache 9 2 [])) 9 0x41ed 2).
Proof. reflexivity. Qed.
Lemma new_dirs_world : world byte_sum new_dirs no_journals.
Proof.
  split.
  - intros i L. unfold no_journals. intros [[<- <-]|[_ [<- <-]%lookup_singleton_Some]]%lookup_insert_Some; eexists; (split; [reflexivity|]); by apply empty_dir_ok.
  - intros i L d. unfold no_journals. intros [[<- <-]|[_ [<- <-]%lookup_singleton_Some]]%lookup_insert_Some Hd; by apply not_elem_of_nil in Hd.
  - cbn. repeat (apply Forall_cons; split; [apply (page_dir_room 0) || apply (page_dir_room 1) || apply (page_dir_room 2); lia|]). constructor.
  - apply (w_apart _ _ _ _ _ _ _ new_file_writable).
Qed.
Abbreviation link_ab := (jffs2_do_link byte_sum old_dirent 1 7 8 ab 1000).
Example link_runs : (λ r, (r.1, shows r.2 1 !! ab)) <$> link_ab new_dirs = Some (0, Some (7, 8)).
Proof. vm_compute. reflexivity. Qed.
Definition linked : Dirent.st (F := perfect) := match link_ab new_dirs with Some (_, s) => s | None => new_dirs end.
Lemma ab_ok : name_ok ab.
Proof. split; [cbn; lia|]. repeat constructor. Qed.
Lemma ba_ok : name_ok ba.
Proof. split; [cbn; lia|]. repeat constructor. Qed.
Lemma old_dirent_fits : fits 2 (Dirent.unused old_dirent).
Proof. unfold fits. cbn. lia. Qed.
Lemma small_fits w v : 0 <= v < 128 → (0 < w)%nat → fits w v.
Proof. intros Hv Hw. unfold fits. assert (256 ^ 1 <= 256 ^ Z.of_nat w) by (apply Z.pow_le_mono_r; lia). lia. Qed.

Lemma link_adds_a_name_witness :
  ∃ s', link_ab new_dirs = Some (0, s') ∧ shows s' 1 !! ab = Some (7, 8) ∧ shows s' 3 = ∅.
Proof.
  destruct (link_adds_a_name byte_sum old_dirent old_dirent_fits new_dirs no_journals 1 [] _ 7 8 ab 1000 new_dirs_world eq_refl root_there
    ltac:(cbn; lia) (small_fits 4 7 ltac:(lia) ltac:(lia)) ltac:(lia) ltac:(unfold fits; lia) (small_fits 1 8 ltac:(lia) ltac:(lia)) ab_ok)
    as (ret & s' & Hrun & _ & _ & Hout).
  pose proof link_runs as Hr. rewrite Hrun in Hr. injection Hr as -> _. exists s'. split; [exact Hrun|].
  destruct Hout as [[_ Ht]|[Hne _]]; [|destruct Hne; reflexivity]. split.
  - rewrite (Ht 1%nat) by (by eexists). reflexivity.
  - rewrite (Ht 3%nat) by (by eexists). reflexivity.
Defined.
Lemma linked_world : ∃ Ls, world byte_sum linked Ls ∧ grown no_journals Ls.
Proof.
  enough (wp link_ab new_dirs (λ ret s', ret = 0 → ∃ Ls, world byte_sum s' Ls ∧ grown no_journals Ls)) as (ret & s' & Hrun & H)%wp_inv.
  { pose proof link_runs as Hr. rewrite Hrun in Hr. injection Hr as -> _. unfold linked. rewrite Hrun. by apply H. }
  eapply (wp_do_link byte_sum old_dirent old_dirent_fits); [exact new_dirs_world|reflexivity|exact root_there|cbn; lia|apply small_fits; lia|unfold fits; lia|apply small_fits; lia|exact ab_ok| |].
  - intros s' e Hne _ _ _ He. done.
  - intros s' (L & d & HL & Hw & _) _ _. eexists. split; [exact Hw|by apply grown_insert].
Qed.

Lemma linked_version i : (i = 1 ∨ i = 3)%nat → ∃ v, inodes linked !! i = Some v ∧ highest_version v < 100.
Proof.
  intros Hi. assert ((λ v, highest_version v <? 100) <$> inodes linked !! i = Some true) as Hv by (destruct Hi as [-> | ->]; vm_compute; reflexivity).
  destruct (inodes linked !! i) as [v|]; [|discriminate Hv]. exists v. split; [reflexivity|]. injection Hv as Hv. by apply Z.ltb_lt.
Qed.
Lemma linked_file : inodes linked !! 2%nat = Some (Inode [] 0 (Some (Cache 7 1 [])) 7 0x81a4 1).
Proof. vm_compute. reflexivity. Qed.
Lemma linked_renames Ls : world byte_sum linked Ls → grown no_journals Ls →
  renames byte_sum linked Ls 1 2 3 None (Inode [] 0 (Some (Cache 7 1 [])) 7 0x81a4 1).
Proof.
  intros Hw [Hg _]. destruct (Hg 1%nat [] eq_refl) as [L1 H1], (Hg 3%nat [] eq_refl) as [L3 H3].
  destruct (linked_version 1) as (v1 & Hv1 & ?); [by left|]. destruct (linked_version 3) as (v3 & Hv3 & ?); [by right|]. split.
  - exact Hw.
  - exists L1, v1. split; [exact H1|]. split; [exact Hv1|lia].
  - exists L3, v3. split; [exact H3|]. split; [exact Hv3|lia].
  - exact linked_file.
  - split; [apply small_fits; cbn; lia|]. by cbn.
  - intros v Hv. discriminate Hv.
Qed.
Abbreviation rename_ab := (jffs2_rename byte_sum old_dirent 1 ab 2 3 ba None 1001 1002).
Example rename_runs : (λ r, (r.1, shows r.2 1 !! ab, shows r.2 3 !! ba)) <$> rename_ab linked = Some (0, None, Some (7, 8)).
Proof. vm_compute. reflexivity. Qed.
Lemma linked_counts : counts linked = {[ 1%nat := (2, Some 1); 2%nat := (1, Some 1); 3%nat := (2, Some 2) ]}.
Proof. vm_compute. reflexivity. Qed.
Lemma rename_moves_a_name_witness :
  ∃ s', rename_ab linked = Some (0, s') ∧ shows s' 3 !! ba = Some (7, 8) ∧ shows s' 1 !! ab = None ∧ counts s' !! 2%nat = Some (1, Some 1).
Proof.
  destruct linked_world as (Ls & Hw & Hg).
  destruct (rename_moves_a_name byte_sum old_dirent old_dirent_fits linked Ls 1 ab 2 3 ba None _ 1001 1002 (linked_renames Ls Hw Hg) ab_ok ba_ok
    ltac:(discriminate) ltac:(unfold fits; lia) ltac:(unfold fits; lia)) as (ret & s' & Hrun & [_ Hout] & Hnames).
  pose proof rename_runs as Hr. rewrite Hrun in Hr. injection Hr as -> _ _. exists s'. destruct (Hnames eq_refl) as [Hold Hnew].
  split; [exact Hrun|]. split; [exact Hnew|]. split; [exact Hold|]. destruct Hout as [(_ & _ & Hc)|[Hne _]]; [|destruct Hne; reflexivity].
  rewrite Hc, linked_counts. vm_compute. reflexivity.
Defined.

Abbreviation rmdir_ab := (jffs2_rmdir byte_sum old_dirent 1 ab 3 1003).
Example rmdir_runs : fst <$> rmdir_ab linked = Some 0.
Proof. vm_compute. reflexivity. Qed.
Lemma linked_third : ∃ w, inodes linked !! 3%nat = Some w ∧ has_entries (dents w) = false.
Proof.
  assert ((λ v, has_entries (dents v)) <$> inodes linked !! 3%nat = Some false) as Hv by (vm_compute; reflexivity).
  destruct (inodes linked !! 3%nat) as [v|]; [|discriminate Hv]. exists v. by injection Hv.
Qed.
Lemma rmdir_removes_a_name_witness :
  ∃ s', rmdir_ab linked = Some (0, s') ∧ shows s' 1 !! ab = None ∧ counts s' !! 3%nat = Some (1, Some 1) ∧ counts s' !! 1%nat = Some (1, Some 1).
Proof.
  destruct linked_world as (Ls & Hw & [Hg _]). destruct (Hg 1%nat [] eq_refl) as [L1 H1], linked_third as (w & Hw3 & Hempty).
  destruct (linked_version 1 (or_introl eq_refl)) as (v1 & Hv1 & Hver).
  destruct (rmdir_removes_a_name byte_sum old_dirent old_dirent_fits linked Ls 1 L1 v1 3 w ab 1003 Hw H1 Hv1 ltac:(lia) ltac:(unfold fits; lia) ab_ok
    ltac:(lia) Hw3) as (ret & s' & Hrun & Hout).
  pose proof rmdir_runs as Hr. rewrite Hrun in Hr. injection Hr as ->. exists s'. split; [exact Hrun|]. rewrite Hempty in Hout.
  destruct Hout as [(_ & _ & Ht & Hc)|[Hne _]]; [|destruct Hne; reflexivity]. split; [|rewrite Hc, linked_counts; split; vm_compute; reflexivity].
  rewrite (Ht 1%nat) by (exists L1; rewrite lookup_delete_ne; done). unfold unlink_name. rewrite decide_True by done. apply lookup_delete_eq.
Defined.

Lemma lookup_finds_the_name_witness :
  jffs2_lookup 1 (byte_sum ab) ab (λ _, true) linked = Some (inr (Some 7), linked) ∧
  jffs2_lookup 1 (byte_sum ba) ba (λ _, true) linked = Some (inr None, linked) ∧ byte_sum ab = byte_sum ba.
Proof.
  destruct linked_world as (Ls & Hw & [Hg _]). destruct (Hg 1%nat [] eq_refl) as [L1 H1].
  assert (shows linked 1 !! ab = Some (7, 8)) as Hab by (vm_compute; reflexivity).
  assert (shows linked 1 !! ba = None) as Hba by (vm_compute; reflexivity). split; [|split; [|reflexivity]].
  - rewrite (lookup_finds_the_name byte_sum linked Ls 1 _ ab (λ _, true) Hw H1), Hab. reflexivity.
  - rewrite (lookup_finds_the_name byte_sum linked Ls 1 _ ba (λ _, true) Hw H1), Hba. reflexivity.
Defined.

(** Two entries at a time; the third name is deleted. *)
Definition two_more (b : list Z) (e : entry) : option (list Z) := if (length b <? 2)%nat then Some (b ++ [e_ino e]) else None.
Definition some_dents : list full_dirent :=
  [FullDirent 0 1 7 1 8 [97; 0]; FullDirent 1 2 8 2 8 [98; 0]; FullDirent 2 4 0 3 0 [99; 0]; FullDirent 3 3 9 4 4 [100; 0]].
Lemma readdir_hands_over_in_order_witness :
  ∃ b', jffs2_readdir two_more 1 1 some_dents 3 [] = (6, b') ∧ b' = [8; 9].
Proof.
  destruct (readdir_hands_over_in_order two_more 1 1 some_dents 3 [] ltac:(lia)) as (pos' & b' & Hrun & _ & Hf).
  assert (jffs2_readdir two_more 1 1 some_dents 3 [] = (6, [8; 9])) as Hr by reflexivity. rewrite Hrun in Hr. injection Hr as -> _.
  exists b'. split; [exact Hrun|]. vm_compute in Hf. injection Hf as <-. reflexivity.
Defined.
End Runs.
