(* ===== verification/Jffs2Version.v ===== *)
(** * Jffs2Version: the nodes of an inode in the order of their versions (fs/jffs2/nodelist.c, readinode.c)

    While an inode is read its data nodes are kept in a temporary red-black tree by version.  The tree
    is filled by [jffs2_add_tn_to_tree] and eaten up from the left by the loop of
    [jffs2_do_read_inode_internal], which unlinks each node without rebalancing. *)

From stdpp Require Import sorting.
From S2P Require Import Prelude Rbtree Jffs2Frag Jffs2Node.

Module VTree.
Import Rb.

(** [struct jffs2_tmp_dnode_info]; its [rb] is a cell of the heap. *)
Record tmp_dnode_info := Tmp { fn : nat; version : Z }.
Record st := St { tn_tree : heap; tn_at : gmap nat tmp_dnode_info; inode : Frag.st }.
Abbreviation T := (SM st).

Definition on_tn {A} (m : M A) : T A :=
  λ s, match m (tn_tree s) with Some (a, h) => Some (a, St h (tn_at s) (inode s)) | None => None end.
Definition on_inode {A} (m : Frag.N A) : T A :=
  λ s, match m (inode s) with Some (a, f) => Some (a, St (tn_tree s) (tn_at s) f) | None => None end.
Definition tget {A} (f : tmp_dnode_info → A) (p : ptr) : T A :=
  λ s, match p ≫= (tn_at s !!.) with Some t => Some (f t, s) | None => None end.
Definition tput (f : tmp_dnode_info → tmp_dnode_info) (p : ptr) : T unit :=
  λ s, match p with
       | Some x =>
           match tn_at s !! x with Some t => Some (tt, St (tn_tree s) (<[x := f t]> (tn_at s)) (inode s)) | None => None end
       | None => None
       end.
Definition loop_on_tn {A} (loop : nat → T A) : T A := λ s, loop (S (S (size (cells (tn_tree s))))) s.

(** The slab cache. *)
Definition new_tmp : T ptr :=
  λ s, let x := fresh (elements (dom (cells (tn_tree s)))) in
       Some (Some x, St (Heap (root (tn_tree s)) (<[x := Cell None RB_RED None None]> (cells (tn_tree s)))) (<[x := Tmp 0 0]> (tn_at s)) (inode s)).
Definition jffs2_alloc_tmp_dnode_info : T ptr := ok ← on_inode Node.alloc; if ok : bool then new_tmp else mret None.
Definition jffs2_free_tmp_dnode_info (p : ptr) : T unit :=
  λ s, match p with
       | Some x =>
           match tn_at s !! x with
           | Some _ => Some (tt, St (Heap (root (tn_tree s)) (delete x (cells (tn_tree s)))) (delete x (tn_at s)) (inode s))
           | None => None
           end
       | None => None
       end.

(** [jffs2_add_tn_to_tree]: the descent, and the new node where it ends. *)
Fixpoint place (fuel : nat) (v : Z) (parent : ptr) (p : link) : T (ptr * link) :=
  match fuel with
  | O => fault
  | S fuel =>
      q ← on_tn (read_link p);
      if non_null q
      then v' ← tget version q; place fuel v q (if v <? v' then AtLeft q else AtRight q)
      else mret (parent, p)
  end.
Definition jffs2_add_tn_to_tree (tn : ptr) : T unit :=
  v ← tget version tn;
  '(parent, p) ← loop_on_tn (λ n, place n v None AtRoot);
  on_tn (rb_link_node tn parent p);;
  on_tn (rb_insert_color tn).

(** [jffs2_free_tmp_dnode_info_list]: [this] is freed before its [rb_parent] is read. *)
Fixpoint free_loop (fuel : nat) (this : ptr) : T unit :=
  match fuel with
  | O => fault
  | S fuel =>
      if non_null this
      then
        l ← on_tn (get rb_left this);
        if non_null l then free_loop fuel l
        else
          r ← on_tn (get rb_right this);
          if non_null r then free_loop fuel r
          else
            d ← tget fn this;
            on_inode (Frag.jffs2_free_full_dnode (Some d));;
            jffs2_free_tmp_dnode_info this;;
            parent ← on_tn (get rb_parent this);
            if negb (non_null parent) then mret tt
            else
              l ← on_tn (get rb_left parent);
              (if same l this then on_tn (put (set_left None) parent)
               else
                 r ← on_tn (get rb_right parent);
                 if same r this then on_tn (put (set_right None) parent) else fault);;
              free_loop fuel parent
      else mret tt
  end.
Definition jffs2_free_tmp_dnode_info_list : T unit :=
  r ← on_tn get_root;
  (λ s, free_loop (2 * size (cells (tn_tree s)) + 2) r s);;
  on_tn (set_root None).

(** [jffs2_do_read_inode_internal] from [next_tn:] to the end of the loop: the node leaves the tree, its
    right-hand child in its place; the answer is the next node. *)
Definition unlink (rb : ptr) : M ptr :=
  l ← get rb_left rb;
  if non_null l then fault
  else
    parent ← get rb_parent rb;
    left_child ← (if non_null parent then l ← get rb_left parent; mret (same l rb) else mret false);
    repl_rb ← (if left_child : bool then r ← get rb_right rb; when_ptr r (put (set_parent parent) r);; mret r else mret None);
    next ← rb_next rb;
    (if non_null parent
     then
       l ← get rb_left parent;
       if same l rb then put (set_left repl_rb) parent
       else
         r ← get rb_right parent;
         if same r rb then put (set_right repl_rb) parent else fault
     else
       r ← get rb_right rb;
       when_ptr r (put (set_parent None) r));;
    mret next.
Definition spend (rb : ptr) : T ptr := next ← on_tn (unlink rb); jffs2_free_tmp_dnode_info rb;; mret next.
End VTree.

(** ** The order of the versions *)

Section Versions.
Import Rb VTree.

(** The tree [ts] in order of version, beside the cells [fr]. *)
Definition ver (s : st) (x : nat) : Z := match tn_at s !! x with Some t => version t | None => 0 end.
Definition known (s : st) (L : list nat) : Prop := Forall (λ x, is_Some (tn_at s !! x)) L.

Lemma wp_on_tn {A} (m : M A) s (Q : A → st → Prop) :
  wp m (tn_tree s) (λ a h, Q a (St h (tn_at s) (inode s))) → wp (on_tn m) s Q.
Proof. unfold wp, on_tn. by destruct (m (tn_tree s)) as [[a h]|]. Qed.
Lemma wp_tget {A} (f : tmp_dnode_info → A) s x t (Q : A → st → Prop) : tn_at s !! x = Some t → Q (f t) s → wp (tget f (Some x)) s Q.
Proof. intros Hx HQ. unfold wp, tget. cbn. by rewrite Hx. Qed.
Lemma st_same s : St (tn_tree s) (tn_at s) (inode s) = s.
Proof. by destruct s. Qed.
Lemma wp_tn_get {A} (f : rb_node → A) s x n ps (Q : A → st → Prop) :
  holds (tn_tree s) (PCell x n :: ps) → Q (f n) s → wp (on_tn (get f (Some x))) s Q.
Proof. intros H HQ. apply wp_on_tn. eapply wp_get; [exact H|]. by rewrite st_same. Qed.
Lemma wp_read_link s p q fr (Q : ptr → st → Prop) :
  holds (tn_tree s) (PCtx p q :: fr) → Q q s → wp (on_tn (read_link (link_at p))) s Q.
Proof.
  intros H HQ. apply wp_on_tn. destruct p as [|[c x r|c l x] p]; cbn [link_at read_link].
  - eapply wp_get_root; [exact H|]. by rewrite st_same.
  - apply holds_stepL in H. eapply wp_get; [exact H|]. by rewrite st_same.
  - apply holds_stepR in H. eapply wp_get; [exact H|]. by rewrite st_same.
Qed.

Lemma sorted_split (s : st) L1 y L2 :
  StronglySorted (λ a b, ver s a <= ver s b) (L1 ++ y :: L2) → Forall (λ z, ver s z <= ver s y) L1 ∧ Forall (λ z, ver s y <= ver s z) L2.
Proof.
  induction L1 as [|z L1 IH]; cbn; intros [Hs Hall]%StronglySorted_inv; [done|].
  destruct (IH Hs) as [H1 H2]. split; [|done]. constructor; [|done]. rewrite Forall_forall in Hall. apply Hall. set_solver.
Qed.
Lemma place_spec fuel s v p t fr m (Q : ptr * link → st → Prop) :
  holds (tn_tree s) (PSub (top p) t :: PCtx p (ptr_of t) :: fr) → rbt (plug p t) RB_BLACK m →
  known s (inorder t) → StronglySorted (λ a b, ver s a <= ver s b) (before p ++ inorder t ++ after p) →
  Forall (λ z, ver s z <= v) (before p) → Forall (λ z, v < ver s z) (after p) → (depth t < fuel)%nat →
  (∀ L1 L2 q, L1 ++ L2 = before p ++ inorder t ++ after p → hole L1 L2 fr (tn_tree s) q →
     Forall (λ z, ver s z <= v) L1 → Forall (λ z, v < ver s z) L2 → Q (top q, link_at q) s) →
  wp (place fuel v (top p) (link_at p)) s Q.
Proof.
  revert p t. induction fuel as [|fuel IH]; intros p t H Hm Hk Hs Hb Ha Hd HQ; [lia|]. cbn [place].
  apply wp_bind. pull H (PCtx p _). eapply wp_read_link; [exact H|]. destruct t as [|c l y r]; cbn [ptr_of non_null].
  - apply wp_ret. eapply (HQ (before p) (after p)); [done| |done|done]. pull H (PSub _ Leaf). apply holds_leaf in H.
    split; [exact H|]. destruct (rbt_unplug p Leaf m Hm) as (d & n & Hp & Hl). inversion Hl; subst. by split_and!.
  - cbn [inorder depth] in *. apply Forall_app in Hk as [Hkl [[ty Hy] Hkr]%Forall_cons].
    apply wp_bind. eapply wp_tget; [exact Hy|]. assert (ver s y = version ty) as Hv by (unfold ver; by rewrite Hy). rewrite <-Hv.
    assert (before p ++ (inorder l ++ y :: inorder r) ++ after p = (before p ++ inorder l) ++ y :: inorder r ++ after p) as HL
      by (by rewrite <-!app_assoc).
    rewrite HL in Hs, HQ. destruct (sorted_split _ _ _ _ Hs) as [Hlo Hhi]. pull H (PSub (top p) _). pose proof H as H'. open_node H.
    destruct (Z.ltb_spec v (ver s y)).
    + pull H (PCtx p _). pull H (PSub (Some y) r). pull H (PCell y _). apply (holds_stepL _ c y r p (ptr_of l)) in H. pull H (PSub (Some y) l).
      eapply (IH (StepL c y r :: p) l); [exact H|exact Hm|exact Hkl| | | |lia|]; cbn [before after].
      * by rewrite <-app_assoc in Hs.
      * exact Hb.
      * constructor; [done|]. eapply Forall_impl; [exact Hhi|]. cbn. lia.
      * intros L1 L2 q HLq. apply HQ. by rewrite HLq, <-!app_assoc.
    + pull H (PCtx p _). pull H (PSub (Some y) l). pull H (PCell y _). apply (holds_stepR _ c l y p (ptr_of r)) in H. pull H (PSub (Some y) r).
      eapply (IH (StepR c l y :: p) r); [exact H|exact Hm|exact Hkr| | | |lia|]; cbn [before after].
      * rewrite <-!app_assoc in *. exact Hs.
      * rewrite app_assoc. apply Forall_app. split; [|by constructor]. eapply Forall_impl; [exact Hlo|]. cbn. lia.
      * exact Ha.
      * intros L1 L2 q HLq. apply HQ. by rewrite HLq, <-!app_assoc.
Qed.

(** The tree holds the nodes [L], each with its version. *)
Definition ordered (s : st) (L : list nat) (fr : list piece) : Prop :=
  whole L fr (tn_tree s) ∧ known s L ∧ StronglySorted (λ a b, ver s a <= ver s b) L.
Lemma wp_loop_tn {A} (loop : nat → T A) s Q : wp (loop (S (S (size (cells (tn_tree s)))))) s Q → wp (loop_on_tn loop) s Q.
Proof. done. Qed.
Lemma known_same (s s' : st) L : tn_at s' = tn_at s → known s L → known s' L.
Proof. unfold known. by intros ->. Qed.
Lemma sorted_same (s s' : st) L :
  tn_at s' = tn_at s → StronglySorted (λ a b, ver s a <= ver s b) L → StronglySorted (λ a b, ver s' a <= ver s' b) L.
Proof. unfold ver. by intros ->. Qed.
Lemma sorted_insert (s : st) L1 x L2 :
  StronglySorted (λ a b, ver s a <= ver s b) (L1 ++ L2) → Forall (λ z, ver s z <= ver s x) L1 → Forall (λ z, ver s x < ver s z) L2 →
  StronglySorted (λ a b, ver s a <= ver s b) (L1 ++ x :: L2).
Proof.
  induction L1 as [|y L1 IH]; cbn.
  - intros Hs _ H2. constructor; [done|]. eapply Forall_impl; [exact H2|]. cbn. lia.
  - intros [Hs Hall]%StronglySorted_inv [Hy H1]%Forall_cons H2. constructor; [by apply IH|].
    rewrite Forall_app in *. destruct Hall as [? Hall]. split; [done|]. by constructor.
Qed.
Lemma wp_add_tn s L x t n fr (Q : unit → st → Prop) :
  ordered s L (PCell x n :: fr) → tn_at s !! x = Some t →
  (∀ s' L1 L2, L = L1 ++ L2 → ordered s' (L1 ++ x :: L2) fr → tn_at s' = tn_at s → inode s' = inode s → Q tt s') →
  wp (jffs2_add_tn_to_tree (Some x)) s Q.
Proof.
  intros (Hw & Hk & Hs) Hx HQ. unfold jffs2_add_tn_to_tree. apply wp_bind. eapply wp_tget; [exact Hx|].
  assert (ver s x = version t) as <- by (unfold ver; by rewrite Hx).
  destruct Hw as (tr & m & H & <- & Hm). apply wp_bind, wp_loop_tn.
  eapply (place_spec _ s (ver s x) [] tr (PCell x n :: fr)); [exact H|exact Hm|exact Hk|cbn; by rewrite app_nil_r|constructor|constructor| |].
  { pose proof (size_tree _ _ _ _ H). pose proof (depth_size tr). lia. }
  cbn [before after app]. rewrite app_nil_r. intros L1 L2 q HL Hh H1 H2. cbv iota beta.
  apply wp_bind, wp_on_tn. eapply wp_link; [exact Hh|]. intros h1 Hl. apply wp_on_tn. eapply wp_rb_insert_color; [exact Hl|].
  intros h2 Hw2. eapply HQ; [by symmetry| |done|done]. split; [exact Hw2|]. rewrite <-HL in *.
  apply Forall_app in Hk as [Hk1 Hk2]. split; [apply Forall_app; split; [done|constructor; [by eexists|done]]|].
  by apply (sorted_same s), sorted_insert.
Qed.

(** ** Eating the tree from the left *)

(** The pieces between a position and a root that hangs from nothing. *)
Fixpoint spine (p : list step) (hole : ptr) : list piece :=
  match p with
  | [] => []
  | StepL c x r :: p => PCell x (Cell (top p) c (ptr_of r) hole) :: PSub (Some x) r :: spine p (Some x)
  | StepR c l x :: p => PCell x (Cell (top p) c hole (ptr_of l)) :: PSub (Some x) l :: spine p (Some x)
  end.
Lemma holds_spine h p t fr : holds h (PSub None (plug p t) :: fr) ↔ holds h (PSub (top p) t :: spine p (ptr_of t) ++ fr).
Proof.
  revert t. induction p as [|[c x r|c l x] p IH]; intros t; cbn [spine app]; [done|..].
  - change (plug (StepL c x r :: p) t) with (plug p (Node c t x r)). rewrite IH. cbn [ptr_of]. rewrite holds_node.
    split; apply holds_perm; solve_Permutation.
  - change (plug (StepR c l x :: p) t) with (plug p (Node c l x t)). rewrite IH. cbn [ptr_of]. rewrite holds_node.
    split; apply holds_perm; solve_Permutation.
Qed.
Definition leftwards (p : list step) : Prop := Forall (λ s, match s with StepL _ _ _ => True | StepR _ _ _ => False end) p.
Lemma leftwards_before p : leftwards p → before p = [].
Proof. induction 1 as [|[c x r|] p Hx _ IH]; [done|exact IH|done]. Qed.
Lemma leftmost_node t : t ≠ Leaf → ∃ p c x r, t = plug p (Node c Leaf x r) ∧ leftwards p.
Proof.
  induction t as [|c l IHl x r _]; [done|]. intros _. destruct l as [|cl ll y rl]; [by exists [], c, x, r; split; [|constructor]|].
  destruct IHl as (p & c' & y' & r' & Hl & Hp); [done|]. exists (p ++ [StepL c x r]), c', y', r'. rewrite plug_app, <-Hl.
  split; [done|]. apply Forall_app. split; [done|]. by repeat constructor.
Qed.
Definition remaining (h : heap) (L : list nat) (fr : list piece) : Prop := ∃ t, holds h (PSub None t :: fr) ∧ inorder t = L.
Lemma whole_remaining L fr h : whole L fr h → ∃ q, remaining h L (PCtx [] q :: fr).
Proof. intros (t & m & H & Ht & _). by exists (ptr_of t), t. Qed.
Lemma remaining_cons h x L fr :
  remaining h (x :: L) fr → ∃ p c r, leftwards p ∧ L = inorder r ++ after p ∧ holds h (PSub (top p) (Node c Leaf x r) :: spine p (Some x) ++ fr).
Proof.
  intros (t & H & Ht). destruct (leftmost_node t) as (p & c & y & r & -> & Hp); [by intros ->|].
  rewrite inorder_plug, (leftwards_before _ Hp) in Ht. cbn in Ht. injection Ht as -> <-. exists p, c, r. split_and!; [done|done|].
  by apply (holds_spine h p (Node c Leaf x r) fr).
Qed.

(** The walk from the leftmost node. *)
Lemma next_below h par c l y r ps fuel (Q : ptr → heap → Prop) :
  holds h (PSub par (Node c l y r) :: ps) → (length (inorder (Node c l y r)) ≤ fuel)%nat → Q (head (inorder (Node c l y r))) h →
  wp (leftmost fuel (Some y)) h Q.
Proof.
  intros H Hf HQ. eapply leftmost_spec; [exact H|exact Hf|]. intros q d m rm Hq Hb. rewrite Hq in HQ.
  by rewrite inorder_plug, Hb in HQ.
Qed.
Lemma wp_unlink_root h c x r fr (Q : ptr → heap → Prop) :
  holds h (PSub None (Node c Leaf x r) :: fr) → (∀ h', remaining h' (inorder r) (PAny x :: fr) → Q (head (inorder r)) h') →
  wp (unlink (Some x)) h Q.
Proof.
  intros H HQ. unfold unlink. open_node H. wp_steps. cbn [non_null]. wp_steps. cbn [non_null]. wp_steps.
  unfold rb_next. wp_step. wp_step. pull H (PSub (Some x) Leaf). apply holds_leaf in H.
  assert (∀ h', holds h' (PCell x (Cell None c (ptr_of r) None) :: PSub None r :: fr) → remaining h' (inorder r) (PAny x :: fr)) as Hdone.
  { intros h' H'. exists r. split; [|done]. pull H' (PCell x _). assert (holds h' (PAny x :: PSub None r :: fr)) as H2 by (apply holds_any; by eexists).
    by pull H2 (PSub None r). }
  destruct r as [|cr lr y rr]; cbn [ptr_of non_null]; apply wp_fueled.
  - cbn [ascend]. wp_steps. cbn [non_null]. wp_steps. unfold when_ptr. cbn [non_null]. wp_steps. apply HQ, Hdone.
    pull H (PSub (Some x) Leaf). apply holds_leaf in H. pull H (PCell x _). apply (holds_leaf _ None) in H. by pull H (PCell x _).
  - pull H (PSub (Some x) _). eapply next_below; [exact H|pose proof (size_tree _ _ _ _ H); lia|]. cbn [non_null]. wp_steps.
    eapply (wp_reparent _ (Some x) None (Node cr lr y rr)); [by pull H (PSub (Some x) _)|]. clear H. intros h' H. wp_steps. apply HQ, Hdone.
    by pull H (PCell x _).
Qed.
Lemma wp_unlink_left h c x r d y s p fr (Q : ptr → heap → Prop) :
  holds h (PSub (Some y) (Node c Leaf x r) :: PCell y (Cell (top p) d (ptr_of s) (Some x)) :: PSub (Some y) s :: fr) →
  (∀ h', holds h' (PAny x :: PSub (Some y) r :: PCell y (Cell (top p) d (ptr_of s) (ptr_of r)) :: PSub (Some y) s :: fr) →
     Q (head (inorder r ++ [y])) h') →
  wp (unlink (Some x)) h Q.
Proof.
  intros H HQ. unfold unlink. open_node H. wp_steps. cbn [non_null]. wp_steps. cbn [non_null]. wp_steps.
  eapply (wp_reparent _ (Some x) (Some y) r); [by pull H (PSub (Some x) r)|]. clear H. intros h1 H. wp_steps.
  unfold rb_next. wp_step. wp_step.
  assert (∀ q, q = head (inorder r ++ [y]) → ∀ h, holds h (PSub (Some y) r :: PCell x (Cell (Some y) c (ptr_of r) None) :: PSub (Some x) Leaf
     :: PCell y (Cell (top p) d (ptr_of s) (Some x)) :: PSub (Some y) s :: fr) → wp (
     (l ← get rb_left (Some y); if same l (Some x) then put (set_left (ptr_of r)) (Some y)
       else r0 ← get rb_right (Some y); if same r0 (Some x) then put (set_right (ptr_of r)) (Some y) else fault);; mret q) h Q) as Hend.
  { intros q -> hh H'. wp_steps. apply HQ. pull H' (PSub (Some x) Leaf). apply holds_leaf in H'. pull H' (PCell x _).
    eapply (holds_perm _ (PAny x :: PCell y _ :: PSub (Some y) r :: PSub (Some y) s :: fr)); [solve_Permutation|].
    apply holds_any. eexists. eapply holds_perm; [|exact H']. solve_Permutation. }
  destruct r as [|cr lr z rr]; cbn [ptr_of non_null]; apply wp_fueled.
  - cbn [ascend]. wp_step. wp_step. cbn [non_null]. wp_step. wp_step. pull H (PSub (Some y) s). pull H (PCell x _).
    rewrite (same_ne (Some x)) by (by eapply cell_ptr_ne). apply wp_ret. eapply Hend; [done|].
    eapply holds_perm; [|exact H]. solve_Permutation.
  - pull H (PSub (Some y) (Node _ _ _ _)). eapply next_below; [exact H|pose proof (size_tree _ _ _ _ H); lia|].
    apply Hend; [|eapply holds_perm; [|exact H]; solve_Permutation]. cbn [inorder]. by destruct (inorder lr).
Qed.
Lemma wp_spend s x L fr (Q : ptr → st → Prop) :
  remaining (tn_tree s) (x :: L) fr → is_Some (tn_at s !! x) →
  (∀ s', remaining (tn_tree s') L fr → tn_at s' = delete x (tn_at s) → inode s' = inode s → Q (head L) s') →
  wp (spend (Some x)) s Q.
Proof.
  intros H [t Hx] HQ. unfold spend. apply wp_bind, wp_on_tn.
  assert (∀ h, remaining h L (PAny x :: fr) → wp (jffs2_free_tmp_dnode_info (Some x);; mret (head L)) (St h (tn_at s) (inode s)) Q) as Hfree.
  { intros h (u & Hu & HL). apply wp_bind. unfold wp at 1, jffs2_free_tmp_dnode_info. cbn [VTree.tn_at]. rewrite Hx. apply wp_ret, HQ; [|done..].
    exists u. split; [|done]. pull Hu (PAny x). apply holds_any in Hu as [n Hu]. by eapply holds_free. }
  destruct (remaining_cons _ _ _ _ H) as (p & c & r & Hp & -> & H'). destruct p as [|[d y u|] p]; cbn [top spine app] in H'.
  - cbn [after] in *. rewrite app_nil_r in *. by eapply wp_unlink_root.
  - eapply wp_unlink_left; [exact H'|]. intros h Hh. replace (head (inorder r ++ [y])) with (head (inorder r ++ after (StepL d y u :: p)))
      by (by destruct (inorder r)).
    apply Hfree. exists (plug (StepL d y u :: p) r). split; [|by rewrite inorder_plug, leftwards_before].
    apply holds_spine. cbn [top spine app]. eapply holds_perm; [|exact Hh]. solve_Permutation.
  - by apply Forall_cons in Hp as [[] _].
Qed.

(** ** Giving up a tree *)

Lemma bind_none {S A B} (m : SM S A) (k : A → SM S B) s : (∀ a s', m s = Some (a, s') → k a s' = None) → (m ≫= k) s = None.
Proof. intros H. unfold mbind, SM_bind. destruct (m s) as [[a s']|] eqn:Hm; [by apply H|done]. Qed.
Lemma on_tn_get {A} (f : rb_node → A) x s a s' :
  on_tn (get f (Some x)) s = Some (a, s') → ∃ n, cells (tn_tree s) !! x = Some n ∧ a = f n ∧ s' = s.
Proof.
  unfold on_tn, get. destruct (cells (tn_tree s) !! x) as [n|] eqn:Hn; cbn; [|done]. intros [= <- <-].
  exists n. split_and!; [done..|]. by destruct s.
Qed.
Lemma free_loop_faults fuel s par t ps :
  holds (tn_tree s) (PSub par t :: ps) → t ≠ Leaf → free_loop fuel (ptr_of t) s = None.
Proof.
  revert par t ps. induction fuel as [|fuel IH]; intros par t ps H Hne; [done|]. destruct t as [|c l x r]; [done|].
  cbn [free_loop ptr_of non_null]. apply holds_node in H. pose proof H as [[Hx _]%Forall_cons _]. cbn in Hx.
  apply bind_none. intros a s' (n & Hn & -> & ->)%on_tn_get. assert (n = Cell par c (ptr_of r) (ptr_of l)) as -> by congruence. cbn [rb_left].
  destruct l as [|cl ll y rl]; [|cbn [ptr_of non_null]; pull H (PSub _ (Node cl _ _ _)); by eapply (IH _ (Node cl ll y rl))].
  cbn [ptr_of non_null]. apply bind_none. intros a s' (n & Hn' & -> & ->)%on_tn_get. cbn [ptr_of] in Hx. assert (n = Cell par c (ptr_of r) None) as -> by congruence. cbn [rb_right].
  destruct r as [|cr lr y rr]; [|cbn [ptr_of non_null]; pull H (PSub _ (Node cr _ _ _)); by eapply (IH _ (Node cr lr y rr))].
  cbn [ptr_of non_null]. apply bind_none. intros d s1 _. apply bind_none. intros [] s2 _. apply bind_none. intros [] s3 Hfree.
  apply bind_none. intros q s4 (n & Hgone & _)%on_tn_get. unfold jffs2_free_tmp_dnode_info in Hfree.
  destruct (VTree.tn_at s2 !! x); [|done]. injection Hfree as <-. cbn in Hgone. by rewrite lookup_delete_eq in Hgone.
Qed.
(** [C34] Giving up the nodes read so far, after an error in the middle of an inode, goes wrong: from every tree
    that is not empty [jffs2_free_tmp_dnode_info_list] frees a node and then follows the parent pointer in it,
    so that it never returns. *)
Theorem free_list_faults s L fr (Hw : whole L fr (tn_tree s)) (HL : L ≠ []) : jffs2_free_tmp_dnode_info_list s = None.
Proof.
  destruct Hw as (t & m & H & <- & _). unfold jffs2_free_tmp_dnode_info_list. pose proof H as [[_ [Hr _]%Forall_cons]%Forall_cons _]. cbn in Hr.
  apply bind_none. unfold on_tn, get_root. intros q s' [= <- <-]. rewrite Hr. apply bind_none. intros a s' Hf.
  erewrite free_loop_faults in Hf; [done|exact H|]. by intros ->.
Qed.
Lemma free_list_empty s fr Q : whole [] fr (tn_tree s) → Q tt s → wp jffs2_free_tmp_dnode_info_list s Q.
Proof.
  intros (t & m & H & Ht & _) HQ. destruct t as [|c l x r]; [|by destruct (app_cons_not_nil (inorder l) (inorder r) x)].
  pose proof H as [[_ [Hr _]%Forall_cons]%Forall_cons _]. cbn in Hr. unfold jffs2_free_tmp_dnode_info_list.
  apply wp_bind, wp_on_tn. unfold wp, get_root. rewrite Hr, st_same. apply wp_bind. unfold wp at 1.
  replace (2 * size (cells (tn_tree s)) + 2)%nat with (S (2 * size (cells (tn_tree s)) + 1)) by lia. cbn [free_loop non_null].
  apply wp_ret. unfold wp, on_tn, set_root. destruct s as [[rt cs] tns f]. cbn in *. by subst.
Qed.
Definition one_version : st :=
  St (Heap (Some 0%nat) {[ 0%nat := Cell None RB_BLACK None None ]}) {[ 0%nat := Tmp 5 1 ]} (Frag.St (Heap None ∅) ∅ {[ 5%nat := Frag.FullDnode 0 0 4 0 ]} [] []).
Lemma free_list_faults_witness : whole [0%nat] [] (tn_tree one_version) ∧ jffs2_free_tmp_dnode_info_list one_version = None.
Proof.
  assert (whole [0%nat] [] (tn_tree one_version)) as Hw.
  { exists (Node RB_BLACK Leaf 0%nat Leaf), 1%nat. split; [|split; [reflexivity|exact (rbt_black Leaf RB_BLACK 0%nat Leaf RB_BLACK 0%nat rbt_leaf rbt_leaf)]].
    split; [repeat constructor|]. cbn. repeat constructor; set_solver. }
  split; [exact Hw|]. apply (free_list_faults one_version [0%nat] [] Hw). discriminate.
Defined.
End Versions.
