(* ===== verification/Jffs2Mount.v ===== *)
(** * Jffs2Mount: reading an inode from its nodes on the flash (fs/jffs2/nodelist.c, readinode.c)

    What happens when an inode is first used after mounting: its nodes are read and checked, the dirents
    go into the list of the directory and the data nodes into a tree by version, from which the map of
    the file is built; and what happens when the inode is given up again. *)

From stdpp Require Import sorting.
From S2P Require Import Prelude Rbtree Jffs2Frag Jffs2Rtime Jffs2Rubin Jffs2Compr Crc32 Jffs2Node Jffs2File Jffs2Write Jffs2Io Jffs2Dir Jffs2Version.

Definition REF_UNCHECKED := 0.
Definition REF_OBSOLETE := 1.
Definition REF_PRISTINE := 2.
Definition REF_NORMAL := 3.
Definition INO_STATE_CHECKING := 1.
Definition INO_STATE_PRESENT := 2.
Definition INO_STATE_CHECKEDABSENT := 3.
Definition INO_STATE_READING := 5.
Definition INO_STATE_CLEARING := 6.
Definition JFFS2_COMPAT_MASK := 0xc000.
Definition JFFS2_NODE_ACCURATE := 0x2000.
Definition JFFS2_FEATURE_INCOMPAT := 0xc000.
Definition JFFS2_FEATURE_ROCOMPAT := 0x8000.
Definition JFFS2_FEATURE_RWCOMPAT_COPY := 0x4000.
Definition S_IFDIR := 0x4000.
Definition S_IFREG := 0x8000.
Definition S_IFLNK := 0xa000.
Definition S_IFBLK := 0x6000.
Definition S_IFCHR := 0x2000.

Module Mount.
Import Rb Layout Dirent.

(** [struct jffs2_raw_node_ref]: [flash_offset] in its two parts, and [__totlen]. *)
Record raw_ref := Ref { r_offset : Z; r_flags : Z; r_totlen : Z }.
Definition set_flags (v : Z) (r : raw_ref) : raw_ref := Ref (r_offset r) v (r_totlen r).
(** [struct jffs2_inode_cache] without its nodes; [cached]: it is in the hash lists. *)
Record inode_cache := Cache { c_ino : Z; c_nlink : Z; c_state : Z; cached : bool }.

Section Inode.
Context {F : Type} `{!Mtd F}.

(** The state: the tree of data nodes with the map of the file and the memory; the raw references
    and those of the inode, in the order of [next_in_ino]; the flash; the sizes of each block and of all,
    used and unchecked; the inode; and what [jffs2_get_inode_nodes] finds ([ret_fd], [latest_mctime],
    [mctime_ver]). *)
Record st := St {
  tns : VTree.st; refs : gmap nat raw_ref; chain : list nat; flash : F; blocks : gmap Z (Z * Z); total : Z * Z;
  icache : inode_cache; metadata : ptr; highest_version : Z; dents : list full_dirent; target : option (list Z);
  ret_fd : list full_dirent; latest_mctime : Z; mctime_ver : Z }.
Abbreviation W := (SM st).
Definition with_tns (t : VTree.st) (s : st) := St t (refs s) (chain s) (flash s) (blocks s) (total s) (icache s) (metadata s) (highest_version s) (dents s) (target s) (ret_fd s) (latest_mctime s) (mctime_ver s).
Definition with_refs (r : gmap nat raw_ref) (s : st) := St (tns s) r (chain s) (flash s) (blocks s) (total s) (icache s) (metadata s) (highest_version s) (dents s) (target s) (ret_fd s) (latest_mctime s) (mctime_ver s).
Definition with_sizes (b : gmap Z (Z * Z)) (t : Z * Z) (s : st) := St (tns s) (refs s) (chain s) (flash s) b t (icache s) (metadata s) (highest_version s) (dents s) (target s) (ret_fd s) (latest_mctime s) (mctime_ver s).
Definition with_icache (c : inode_cache) (s : st) := St (tns s) (refs s) (chain s) (flash s) (blocks s) (total s) c (metadata s) (highest_version s) (dents s) (target s) (ret_fd s) (latest_mctime s) (mctime_ver s).
Definition with_metadata (m : ptr) (s : st) := St (tns s) (refs s) (chain s) (flash s) (blocks s) (total s) (icache s) m (highest_version s) (dents s) (target s) (ret_fd s) (latest_mctime s) (mctime_ver s).
Definition with_highest (v : Z) (s : st) := St (tns s) (refs s) (chain s) (flash s) (blocks s) (total s) (icache s) (metadata s) v (dents s) (target s) (ret_fd s) (latest_mctime s) (mctime_ver s).
Definition with_dents (l : list full_dirent) (s : st) := St (tns s) (refs s) (chain s) (flash s) (blocks s) (total s) (icache s) (metadata s) (highest_version s) l (target s) (ret_fd s) (latest_mctime s) (mctime_ver s).
Definition with_target (t : option (list Z)) (s : st) := St (tns s) (refs s) (chain s) (flash s) (blocks s) (total s) (icache s) (metadata s) (highest_version s) (dents s) t (ret_fd s) (latest_mctime s) (mctime_ver s).
Definition with_found (l : list full_dirent) (s : st) := St (tns s) (refs s) (chain s) (flash s) (blocks s) (total s) (icache s) (metadata s) (highest_version s) (dents s) (target s) l (latest_mctime s) (mctime_ver s).
Definition with_mctime (t v : Z) (s : st) := St (tns s) (refs s) (chain s) (flash s) (blocks s) (total s) (icache s) (metadata s) (highest_version s) (dents s) (target s) (ret_fd s) t v.
Definition gets {A} (f : st → A) : W A := λ s, Some (f s, s).
Definition puts (f : st → st) : W unit := λ s, Some (tt, f s).
Definition on_tns {A} (m : SM VTree.st A) : W A :=
  λ s, match m (tns s) with Some (a, t) => Some (a, with_tns t s) | None => None end.
Definition on_map {A} (m : Frag.N A) : W A := on_tns (VTree.on_inode m).
Definition alloc : W bool := on_map Node.alloc.
Definition rget {A} (f : raw_ref → A) (r : nat) : W A := λ s, match refs s !! r with Some v => Some (f v, s) | None => None end.
Definition rput (f : raw_ref → raw_ref) (r : nat) : W unit :=
  λ s, match refs s !! r with Some v => Some (tt, with_refs (<[r := f v]> (refs s)) s) | None => None end.
Definition jffs2_flash_read (ofs len : Z) : W (Z * list Z) := gets (λ s, mtd_read (flash s) ofs len).
Definition mark_obsolete (r : nat) : W unit := on_map (Frag.jffs2_mark_node_obsolete r);; rput (set_flags REF_OBSOLETE) r.
Definition set_state (v : Z) : W unit :=
  c ← gets icache; puts (with_icache (Cache (c_ino c) (c_nlink c) v (cached c))).

(** The kernel's hash of a name, [c->sector_size], [c->flags & JFFS2_SB_FLAG_RO], what is on the
    stack where [node] lies, and [rb_first]. *)
Context (full_name_hash : list Z → Z) (sector_size : Z) (read_only : bool) (stack_node : list Z) (rb_first : heap → ptr).

(** ** nodelist.c *)

(** [jffs2_first_valid_node]: the references from the first one that is not obsolete on. *)
Fixpoint jffs2_first_valid_node (l : list nat) : W (list nat) :=
  match l with
  | [] => mret []
  | r :: rest => v ← rget r_flags r; if v =? REF_OBSOLETE then jffs2_first_valid_node rest else mret l
  end.
Definition file_dirent (fd : full_dirent) : W unit :=
  l ← gets ret_fd;
  let '(l, o) := jffs2_add_fd_to_list fd l in
  puts (with_found l);;
  match o with Some r => mark_obsolete r | None => mret tt end.
(** [read_direntry]: the rest of the name, when [node] does not hold all of it. *)
Definition rest_of_name (ref : nat) (nsize read : Z) : W (Z + list Z) :=
  if read <? nsize + sizeof_raw_dirent
  then
    o ← rget r_offset ref;
    let wanted := nsize - (read - sizeof_raw_dirent) in
    '(err, got) ← jffs2_flash_read (o + read) wanted;
    if negb (Z.of_nat (length got) =? wanted) && negb (truthy err) then mret (inl (- EIO))
    else if truthy err then mret (inl (- EIO)) else mret (inr got)
  else mret (inr []).
Definition read_direntry (ref : nat) (node : list Z) (read : Z) : W Z :=
  v ← rget r_flags ref;
  if (v =? REF_UNCHECKED) || (v =? REF_OBSOLETE) then fault
  else
    let rd := dirent_of_bytes node in
    if negb (PAD (nsize rd + sizeof_raw_dirent) =? PAD (Dirent.totlen rd)) then mret 1
    else
      ok ← alloc;
      if negb ok then mret (- ENOMEM)
      else
        latest ← gets mctime_ver;
        (if latest <? Dirent.version rd then puts (with_mctime (mctime rd) (Dirent.version rd)) else mret tt);;
        let have := take (Z.to_nat (Z.min (nsize rd) (read - sizeof_raw_dirent))) (drop 40 node) in
        r ← rest_of_name ref (nsize rd) read;
        match r with
        | inl e => mret e
        | inr more =>
            let nm := have ++ more in
            file_dirent (FullDirent ref (Dirent.version rd) (Dirent.ino rd) (full_name_hash nm) (type rd) (nm ++ [0]));;
            mret 0
        end.

(** [read_dnode], the checks of a node that was not checked before; 0 when it is good.  The flash
    cannot be read in place: [mtd->point] is a null pointer. *)
Definition check_data (ref : nat) (rd : raw_inode) : W Z :=
  if negb (compr rd =? JFFS2_COMPR_ZERO) && truthy (csize rd)
  then
    ok ← alloc;
    if negb ok then mret (- ENOMEM)
    else
      o ← rget r_offset ref;
      '(err, got) ← jffs2_flash_read (o + sizeof_raw_inode) (csize rd);
      let err := if negb (Z.of_nat (length got) =? csize rd) && negb (truthy err) then - EIO else err in
      if truthy err then mret err
      else if Crc.crc32 0 got =? data_crc rd then mret 0 else mret 1
  else mret 0.
Definition account (o len : Z) : W unit :=
  b ← gets blocks;
  t ← gets total;
  match b !! (o / sector_size) with
  | Some (used, unchecked) =>
      puts (with_sizes (<[o / sector_size := (u32 (used + len), u32 (unchecked - len))]> b) (u32 (t.1 + len), u32 (t.2 - len)))
  | None => fault
  end.
Definition check_node (ref : nat) (node : list Z) (rd : raw_inode) : W Z :=
  if negb (inode_crc node =? Layout.node_crc rd) then mret 1
  else if (isize rd <? offset rd) || negb (PAD (csize rd + sizeof_raw_inode) =? PAD (Layout.totlen rd)) then mret 1
  else
    ret ← check_data ref rd;
    if truthy ret then mret ret
    else
      o ← rget r_offset ref;
      len ← rget r_totlen ref;
      account o len;;
      rput (set_flags
        (if (PAGE_CACHE_SIZE <=? dsize rd)
            || negb (truthy (offset rd &&& (PAGE_CACHE_SIZE - 1))) && (u32 (dsize rd + offset rd) =? isize rd)
         then REF_PRISTINE else REF_NORMAL)) ref;;
      mret 0.
Definition read_dnode (ref : nat) (node : list Z) : W Z :=
  v ← rget r_flags ref;
  if v =? REF_OBSOLETE then fault
  else
    let rd := inode_of_bytes node in
    ret ← (if v =? REF_UNCHECKED then check_node ref node rd else mret 0);
    if truthy ret then mret ret
    else
      tn ← on_tns VTree.jffs2_alloc_tmp_dnode_info;
      if negb (non_null tn) then mret (- ENOMEM)
      else
        fn ← on_map Node.jffs2_alloc_full_dnode;
        match fn with
        | None => on_tns (VTree.jffs2_free_tmp_dnode_info tn);; mret (- ENOMEM)
        | Some fn =>
            on_tns (VTree.tput (λ _, VTree.Tmp fn (Layout.version rd)) tn);;
            let swapped := (compr rd =? JFFS2_COMPR_ZERO) && negb (truthy (dsize rd)) && truthy (csize rd) in
            on_map (Frag.dput (λ d, Frag.FullDnode ref (offset rd) (if swapped then csize rd else dsize rd) (Frag.frags d)) (Some fn));;
            on_tns (VTree.jffs2_add_tn_to_tree tn);;
            mret 0
        end.
(** [read_unknown]; the first bytes of [node] are the [struct jffs2_unknown_node]. *)
Definition nodetype_of (node : list Z) : Z := un_le (take 2 (drop 2 node)).
Definition read_unknown (ref : nat) (node : list Z) : W Z :=
  v ← rget r_flags ref;
  if v =? REF_UNCHECKED then fault
  else
    let kind := Z.lor JFFS2_NODE_ACCURATE (nodetype_of node) in
    let un := take 2 node ++ le 2 kind ++ drop 4 node in
    if negb (header_crc un =? un_le (take 4 (drop 8 node))) then mret 1
    else
      let feature := kind &&& JFFS2_COMPAT_MASK in
      if feature =? JFFS2_FEATURE_INCOMPAT then fault
      else if feature =? JFFS2_FEATURE_ROCOMPAT then if read_only then mret 0 else fault
      else if feature =? JFFS2_FEATURE_RWCOMPAT_COPY then mret 0
      else mret 1.

(** [jffs2_get_inode_nodes]: what becomes of one node: the next one, [free_out], or a return. *)
Inductive verdict := Go | FreeOut (e : Z) | Leave (e : Z).
Definition settle (ref : nat) (err : Z) (highest : option Z) : W verdict :=
  if err =? 1 then mark_obsolete ref;; mret Go
  else if truthy err then mret (FreeOut err)
  else
    (match highest with
     | Some v => hv ← gets highest_version; if hv <? v then puts (with_highest v) else mret tt
     | None => mret tt
     end);;
    mret Go.
Definition visit (ref : nat) (node : list Z) (retlen : Z) : W verdict :=
  if nodetype_of node =? JFFS2_NODETYPE_DIRENT
  then
    if retlen <? sizeof_raw_dirent then mret (FreeOut (- EIO))
    else err ← read_direntry ref node retlen; settle ref err (Some (Dirent.version (dirent_of_bytes node)))
  else if nodetype_of node =? JFFS2_NODETYPE_INODE
  then
    if retlen <? sizeof_raw_inode then mret (FreeOut (- EIO))
    else err ← read_dnode ref node; settle ref err (Some (Layout.version (inode_of_bytes node)))
  else
    if retlen <? 12 then mret (Leave (- EIO))
    else err ← read_unknown ref node; settle ref err None.
Definition free_out (e : Z) : W Z := on_tns VTree.jffs2_free_tmp_dnode_info_list;; puts (with_found []);; mret e.
Fixpoint nodes_loop (fuel : nat) (valid_ref : list nat) (node : list Z) : W Z :=
  match fuel with
  | O => fault
  | S fuel =>
      match valid_ref with
      | [] => mret 0
      | ref :: rest =>
          valid_ref ← jffs2_first_valid_node rest;
          o ← rget r_offset ref;
          len ← rget r_totlen ref;
          '(err, got) ← jffs2_flash_read o (Z.min len sizeof_raw_inode);
          let node := got ++ drop (length got) node in
          if truthy err then free_out err
          else
            v ← visit ref node (Z.of_nat (length got));
            match v with Go => nodes_loop fuel valid_ref node | FreeOut e => free_out e | Leave e => mret e end
      end
  end.
Definition jffs2_get_inode_nodes : W Z :=
  t ← gets latest_mctime;
  puts (with_mctime t 0);;
  puts (with_found []);;
  on_tns (VTree.on_tn (set_root None));;
  l ← gets chain;
  valid_ref ← jffs2_first_valid_node l;
  nodes_loop (S (length l)) valid_ref stack_node.

(** [jffs2_kill_fragtree]; [c]: the nodes are obsolete. *)
Fixpoint kill_loop (fuel : nat) (frag : ptr) (c : bool) : Frag.N unit :=
  match fuel with
  | O => fault
  | S fuel =>
      if negb (non_null frag) then mret tt
      else
        l ← Frag.on_tree (get rb_left frag);
        if non_null l then kill_loop fuel l c
        else
          r ← Frag.on_tree (get rb_right frag);
          if non_null r then kill_loop fuel r c
          else
            n ← Frag.fget Frag.node frag;
            (if non_null n
             then
               Frag.dput (λ d, Frag.set_frags (u32 (Frag.frags d - 1)) d) n;;
               left ← Frag.dget Frag.frags n;
               if left =? 0
               then (if c then r ← Frag.dget Frag.raw n; Frag.jffs2_mark_node_obsolete r else mret tt);; Frag.jffs2_free_full_dnode n
               else mret tt
             else mret tt);;
            parent ← Frag.on_tree (get rb_parent frag);
            (if non_null parent
             then
               l ← Frag.on_tree (get rb_left parent);
               if same l frag then Frag.on_tree (put (set_left None) parent) else Frag.on_tree (put (set_right None) parent)
             else mret tt);;
            Frag.jffs2_free_node_frag frag;;
            kill_loop fuel parent c
  end.
Definition jffs2_kill_fragtree (c : bool) : Frag.N unit :=
  root ← Frag.on_tree get_root;
  ((λ s, kill_loop (2 * size (cells (Frag.fragtree s)) + 2) root c s) : Frag.N unit).

(** ** readinode.c *)

Definition jffs2_do_clear_inode : W unit :=
  ic ← gets icache;
  let deleted := negb (truthy (c_nlink ic)) in
  let checking := c_state ic =? INO_STATE_CHECKING in
  (if checking then mret tt else set_state INO_STATE_CLEARING);;
  m ← gets metadata;
  (if non_null m
   then (if deleted then r ← on_map (Frag.dget Frag.raw m); on_map (Frag.jffs2_mark_node_obsolete r) else mret tt);;
        on_map (Frag.jffs2_free_full_dnode m)
   else mret tt);;
  on_map (jffs2_kill_fragtree deleted);;
  puts (with_target None);;
  puts (with_dents []);;
  if checking then mret tt
  else
    set_state INO_STATE_CHECKEDABSENT;;
    l ← gets chain;
    match l with
    | [] => ic ← gets icache; puts (with_icache (Cache (c_ino ic) (c_nlink ic) (c_state ic) false))
    | _ => mret tt
    end.

(** The loop of [jffs2_do_read_inode_internal]; [fn] and [mdata_ver] are its variables; the answer is
    [fn] at the end. *)
Definition drop_metadata (m : nat) : W unit := on_map (Node.forget_node m);; puts (with_metadata None).
Definition place_node (fn : nat) (version mdata_ver : Z) : W Z :=
  n ← on_map (Frag.dget Frag.dsize (Some fn));
  if truthy n then on_map (Frag.jffs2_add_full_dnode_to_inode (Some fn));; mret mdata_ver
  else puts (with_metadata (Some fn));; mret version.
Definition eat_node (fn : nat) (version mdata_ver : Z) : W (nat * Z) :=
  m ← gets metadata;
  match m with
  | None => v ← place_node fn version mdata_ver; mret (fn, v)
  | Some m =>
      if mdata_ver <=? version then drop_metadata m;; v ← place_node fn version 0; mret (fn, v)
      else on_map (Node.forget_node fn);; mret (m, mdata_ver)
  end.
Fixpoint eat_loop (fuel : nat) (rb : ptr) (fn : ptr) (mdata_ver : Z) : W ptr :=
  match fuel with
  | O => fault
  | S fuel =>
      if negb (non_null rb) then mret fn
      else
        new ← on_tns (VTree.tget VTree.fn rb);
        version ← on_tns (VTree.tget VTree.version rb);
        '(fn, mdata_ver) ← eat_node new version mdata_ver;
        rb ← on_tns (VTree.spend rb);
        eat_loop fuel rb (Some fn) mdata_ver
  end.
Definition set_state_if_reading (v : Z) : W unit :=
  ic ← gets icache; if c_state ic =? INO_STATE_READING then set_state v else mret tt.
Definition set_mode (mode : Z) (r : raw_inode) : raw_inode :=
  RawInode (Layout.magic r) (Layout.nodetype r) (Layout.totlen r) (Layout.hdr_crc r) (Layout.ino r) 0 mode 0 0 0 0 0 0 (offset r)
    (csize r) (dsize r) (compr r) (usercompr r) (flags r) (data_crc r) (Layout.node_crc r).
Definition set_times (t : Z) (r : raw_inode) : raw_inode :=
  RawInode (Layout.magic r) (Layout.nodetype r) (Layout.totlen r) (Layout.hdr_crc r) (Layout.ino r) (Layout.version r) (mode r) (uid r) (gid r)
    (isize r) (atime r) t t (offset r) (csize r) (dsize r) (compr r) (usercompr r) (flags r) (data_crc r) (Layout.node_crc r).
Definition set_isize (n : Z) (r : raw_inode) : raw_inode :=
  RawInode (Layout.magic r) (Layout.nodetype r) (Layout.totlen r) (Layout.hdr_crc r) (Layout.ino r) (Layout.version r) (mode r) (uid r) (gid r)
    n (atime r) (mtime r) (ctime r) (offset r) (csize r) (dsize r) (compr r) (usercompr r) (flags r) (data_crc r) (Layout.node_crc r).
Definition drop_inode (e : Z) (latest : raw_inode) : W (Z * raw_inode) := jffs2_do_clear_inode;; mret (e, latest).
Definition present (latest : raw_inode) : W (Z * raw_inode) := set_state_if_reading INO_STATE_PRESENT;; mret (0, latest).
(** No data node at all. *)
Definition no_nodes (latest : raw_inode) : W (Z * raw_inode) :=
  ic ← gets icache;
  l ← gets ret_fd;
  if negb (c_ino ic =? 1) && match l with [] => true | _ => false end
  then set_state_if_reading INO_STATE_CHECKEDABSENT;; mret (- EIO, latest)
  else present (set_mode (Z.lor S_IFDIR 0x1ed) latest).
(** A link, or a device: the one node of it becomes the metadata. *)
Definition special_inode (latest : raw_inode) : W (Z * raw_inode) :=
  m ← gets metadata;
  first ← on_map (λ f, Some (rb_first (Frag.fragtree f), f));
  next ← (if non_null m || negb (non_null first) then mret None else on_map (Frag.frag_next first));
  if non_null m || negb (non_null first) || non_null next then drop_inode (- EIO) latest
  else
    n ← on_map (Frag.fget Frag.node first);
    puts (with_metadata n);;
    on_map (Frag.jffs2_free_node_frag first);;
    on_map (Frag.on_tree (set_root None));;
    present latest.
Definition read_target (fn : nat) (latest : raw_inode) : W (Z * raw_inode) :=
  ok ← alloc;
  if negb ok then drop_inode (- ENOMEM) latest
  else
    r ← on_map (Frag.dget Frag.raw (Some fn));
    o ← rget r_offset r;
    '(ret, got) ← jffs2_flash_read (o + sizeof_raw_inode) (csize latest);
    let short := negb (Z.of_nat (length got) =? csize latest) in
    if truthy ret || short then drop_inode (- (if short then - EIO else ret)) latest
    else puts (with_target (Some (got ++ [0])));; special_inode latest.
Definition finish_inode (fn : nat) (latest : raw_inode) : W (Z * raw_inode) :=
  let kind := mode latest &&& S_IFMT in
  if kind =? S_IFDIR
  then
    ver ← gets mctime_ver;
    t ← gets latest_mctime;
    present (if Layout.version latest <? ver then set_times t latest else latest)
  else if kind =? S_IFREG then on_map (Frag.jffs2_truncate_fraglist (isize latest));; present latest
  else if kind =? S_IFLNK
  then
    let latest := if truthy (isize latest) then latest else set_isize (dsize latest) latest in
    ic ← gets icache;
    if c_state ic =? INO_STATE_CHECKING then special_inode latest else read_target fn latest
  else if (kind =? S_IFBLK) || (kind =? S_IFCHR) then special_inode latest
  else present latest.
(** The answer is the result and the latest node, which is [latest] where it was not set. *)
Definition jffs2_do_read_inode_internal (latest : raw_inode) : W (Z * raw_inode) :=
  ret ← jffs2_get_inode_nodes;
  if truthy ret then set_state_if_reading INO_STATE_CHECKEDABSENT;; mret (ret, latest)
  else
    l ← gets ret_fd;
    puts (with_dents l);;
    rb ← on_tns (λ t, Some (rb_first (VTree.tn_tree t), t));
    fn ← (λ s, eat_loop (S (size (VTree.tn_at (tns s)))) rb None 0 s);
    match fn with
    | None => no_nodes latest
    | Some fn =>
        r ← on_map (Frag.dget Frag.raw (Some fn));
        o ← rget r_offset r;
        '(ret, got) ← jffs2_flash_read o sizeof_raw_inode;
        if truthy ret || negb (Z.of_nat (length got) =? sizeof_raw_inode) then drop_inode (if truthy ret then ret else - EIO) latest
        else
          let latest := inode_of_bytes got in
          if negb (inode_crc got =? Layout.node_crc latest) then drop_inode (- EIO) latest
          else finish_inode fn latest
    end.
End Inode.
End Mount.

Section Entries.
Import Dirent.
Lemma add_fd_subset new l x : x ∈ (jffs2_add_fd_to_list new l).1 → x = new ∨ x ∈ l.
Proof.
  induction l as [|d l IH]; cbn [jffs2_add_fd_to_list]; [set_solver|]. destruct (nhash d <=? nhash new); [|set_solver]. destruct (_ && _).
  - destruct (fversion new <? fversion d); cbn [fst]; set_solver.
  - destruct (jffs2_add_fd_to_list new l) as [l' o]. cbn [fst] in *. intros [->|Hx]%elem_of_cons; [set_solver|]. destruct (IH Hx); set_solver.
Qed.
Lemma replay_subset L x : x ∈ replay L → x ∈ L.
Proof.
  induction L as [|d L IH] using rev_ind; [done|]. rewrite replay_snoc. intros [->|Hx]%add_fd_subset; [set_solver|]. apply elem_of_app. left. by apply IH.
Qed.
End Entries.

(** ** The nodes of an inode, as they are on the flash *)

Section Loading.
Import Rb Frag Layout Dirent Mount.
Context {F : Type} `{!Mtd F}.
Context (full_name_hash : list Z → Z) (sector_size : Z) (read_only : bool) (stack_node : list Z).
Context (Hstack : length stack_node = 68%nat).
Abbreviation inode_st := (Mount.st (F := F)).
Abbreviation cell := (nat * node_frag)%type.

(** What lies at a reference: a data node with its compressed data, or a dirent with its name. *)
Inductive found := Data (ri : raw_inode) (cd : list Z) | Name (rd : raw_dirent) (nm : list Z).
Record data_good (b : gmap Z (Z * Z)) (f : F) (o tl : Z) (ri : raw_inode) (cd : list Z) : Prop := {
  dg_stored : stored f o (inode_bytes ri ++ cd);
  dg_formed : well_formed ri;
  dg_kind : Layout.nodetype ri = JFFS2_NODETYPE_INODE;
  dg_crc : Layout.node_crc ri = inode_crc (inode_bytes ri);
  dg_data_crc : data_crc ri = Crc.crc32 0 cd;
  dg_csize : csize ri = Z.of_nat (length cd);
  dg_isize : offset ri <= isize ri;
  dg_pad : PAD (csize ri + sizeof_raw_inode) = PAD (Layout.totlen ri);
  dg_len : sizeof_raw_inode <= tl;
  dg_hole : dsize ri = 0 → csize ri = 0;
  dg_end : offset ri + dsize ri < 2 ^ 32;
  dg_block : is_Some (b !! (o / sector_size)) }.
Definition dirent_of (r : nat) (rd : raw_dirent) (nm : list Z) : full_dirent :=
  FullDirent r (Dirent.version rd) (Dirent.ino rd) (full_name_hash nm) (type rd) (nm ++ [0]).
Record name_good (f : F) (o fl tl : Z) (r : nat) (rd : raw_dirent) (nm : list Z) : Prop := {
  ng_checked : fl ≠ REF_UNCHECKED;
  ng_stored : stored f o (dirent_bytes rd ++ nm);
  ng_describes : describes full_name_hash rd nm (dirent_of r rd nm);
  ng_len : sizeof_raw_dirent <= tl }.
Context (nd : nat → found).
Definition good (R : gmap nat raw_ref) (b : gmap Z (Z * Z)) (f : F) (r : nat) : Prop :=
  ∃ o fl tl, R !! r = Some (Ref o fl tl) ∧
    match nd r with Data ri cd => data_good b f o tl ri cd | Name rd nm => name_good f o fl tl r rd nm end.

(** *** Steps *)

Definition frags_of (s : inode_st) : Frag.st := VTree.inode (tns s).
Definition with_frags (m : Frag.st) (t : VTree.st) : VTree.st := VTree.St (VTree.tn_tree t) (VTree.tn_at t) m.
Lemma wp_on_tns {A} (m : SM VTree.st A) (s : inode_st) (Q : A → inode_st → Prop) :
  wp m (tns s) (λ a t, Q a (with_tns t s)) → wp (on_tns m) s Q.
Proof. unfold wp, on_tns. by destruct (m (tns s)) as [[a t]|]. Qed.
Lemma wp_on_inode {A} (m : Frag.N A) (t : VTree.st) (Q : A → VTree.st → Prop) :
  wp m (VTree.inode t) (λ a f, Q a (with_frags f t)) → wp (VTree.on_inode m) t Q.
Proof. unfold wp, VTree.on_inode. by destruct (m (VTree.inode t)) as [[a f]|]. Qed.
Lemma wp_on_frags {A} (m : Frag.N A) (s : inode_st) (Q : A → inode_st → Prop) :
  wp m (frags_of s) (λ a f, Q a (with_tns (with_frags f (tns s)) s)) → wp (on_map m) s Q.
Proof. intros H. by apply wp_on_tns, wp_on_inode. Qed.
Lemma wp_rget {A} (f : raw_ref → A) r (s : inode_st) v (Q : A → inode_st → Prop) : refs s !! r = Some v → Q (f v) s → wp (rget f r) s Q.
Proof. intros Hv HQ. unfold wp, rget. by rewrite Hv. Qed.
Lemma wp_rput f r (s : inode_st) v (Q : unit → inode_st → Prop) :
  refs s !! r = Some v → Q tt (with_refs (<[r := f v]> (refs s)) s) → wp (rput f r) s Q.
Proof. intros Hv HQ. unfold wp, rput. by rewrite Hv. Qed.
Lemma wp_read_flash (s : inode_st) o n (Q : Z * list Z → inode_st → Prop) :
  reliable (flash s) → 0 <= n → (∀ got, mtd_read (flash s) o n = (0, got) → Z.of_nat (length got) = n → Q (0, got) s) →
  wp (jffs2_flash_read o n) s Q.
Proof. intros Hf Hn HQ. destruct (Hf o n Hn) as (got & Hr & Hl). unfold wp, jffs2_flash_read, gets. rewrite Hr. by apply HQ. Qed.
Lemma wp_gets_m {A} (f : inode_st → A) s (Q : A → inode_st → Prop) : Q (f s) s → wp (gets f) s Q.
Proof. done. Qed.
Lemma wp_puts f (s : inode_st) (Q : unit → inode_st → Prop) : Q tt (f s) → wp (puts f) s Q.
Proof. done. Qed.
(** A successful read from the start of something stored. *)
Lemma stored_prefix f o b n got m :
  stored f o b → mtd_read f o n = (0, got) → Z.of_nat (length got) = n → (m ≤ length b)%nat → Z.of_nat m <= n → take m got = take m b.
Proof.
  intros Hs Hr Hl Hm Hn. apply list_eq. intros i. destruct (decide (i < m)%nat).
  - rewrite !lookup_take_lt by done. destruct (lookup_lt_is_Some_2 b i) as [v Hv]; [lia|]. rewrite Hv.
    replace i with (Z.to_nat (o + Z.of_nat i - o)) at 1 by lia. by eapply Hs; [exact Hr|exact Hl|exact Hv|lia].
  - rewrite !lookup_take_ge; [done|lia|lia].
Qed.

(** *** A data node *)

(** A node in memory has the range that its node on the flash has. *)
Definition described (dn : full_dnode) : Prop := ∃ ri cd, nd (Frag.raw dn) = Data ri cd ∧ dofs dn = offset ri ∧ Frag.dsize dn = dsize ri.
(** The data nodes [R], by version, in the tree; the map of the file is still empty. *)
Record loaded (s : inode_st) (L R : list nat) (D : gmap nat full_dnode) (mem : list bool) (lg : list event) : Prop := {
  lo_tree : ordered (tns s) L [];
  lo_map : inode (frags_of s) [] D mem lg;
  lo_nodes : Forall2 (λ x r, ∃ d ri cd, nd r = Data ri cd ∧ VTree.tn_at (tns s) !! x = Some (VTree.Tmp d (Layout.version ri)) ∧
    D !! d = Some (FullDnode r (offset ri) (dsize ri) 0)) L R;
  lo_distinct : NoDup R;
  lo_only : ∀ d dn, D !! d = Some dn → described dn }.
(** Nothing but the tree, the map and the sizes, and the flags of [r]. *)
Record beside (r : nat) (s s' : inode_st) : Prop := {
  be_refs : ∀ q, q ≠ r → refs s' !! q = refs s !! q;
  be_ref : ∀ v, refs s !! r = Some v → ∃ v', refs s' !! r = Some v' ∧ r_offset v' = r_offset v;
  be_rest : chain s' = chain s ∧ flash s' = flash s ∧ icache s' = icache s ∧ metadata s' = metadata s ∧
    highest_version s' = highest_version s ∧ dents s' = dents s ∧ target s' = target s ∧ ret_fd s' = ret_fd s ∧
    latest_mctime s' = latest_mctime s ∧ mctime_ver s' = mctime_ver s;
  be_blocks : ∀ b, is_Some (blocks s !! b) → is_Some (blocks s' !! b) }.
Lemma beside_tns r t (s : inode_st) : beside r s (with_tns t s).
Proof. split; try done. by intros v Hv; exists v. Qed.
Lemma beside_trans r s s1 s2 : beside r s s1 → beside r s1 s2 → beside r s s2.
Proof.
  intros [A1 B1 C1 D1] [A2 B2 C2 D2]. split.
  - intros q Hq. by rewrite A2, A1.
  - intros v Hv. destruct (B1 v Hv) as (v1 & Hv1 & E1), (B2 v1 Hv1) as (v2 & Hv2 & E2). exists v2. split; [done|congruence].
  - destruct_and!. split_and!; congruence.
  - intros b Hb. by apply D2, D1.
Qed.
Lemma loaded_same s s' L R D mem lg : tns s' = tns s → loaded s L R D mem lg → loaded s' L R D mem lg.
Proof. intros Ht [H1 H2 H3 H4 H5]. split; unfold frags_of; rewrite ?Ht; done. Qed.
Lemma loaded_map s m L R D mem mem' lg lg' : loaded s L R D mem lg → inode m [] D mem' lg' →
  loaded (with_tns (with_frags m (tns s)) s) L R D mem' lg'.
Proof. intros [H1 H2 H3 H4 H5] Hm. split; done. Qed.
Lemma wp_alloc_one (s : inode_st) fs D mem lg (Q : bool → inode_st → Prop) :
  inode (frags_of s) fs D mem lg → plenty 1 mem →
  (∀ mem' m, spends 1 mem mem' → inode m fs D mem' lg → Q true (with_tns (with_frags m (tns s)) s)) → wp (on_map Node.alloc) s Q.
Proof.
  intros Hi Hp HQ. apply wp_on_frags. eapply wp_draw_map; [exact Hi|]. intros ok mem' m Hd Hi'.
  destruct (plenty_drew _ _ _ _ Hd Hp) as [-> _]; [lia|]. eapply HQ; [by eapply spends_drew|exact Hi'].
Qed.

Lemma wp_check_data r o fl tl ri cd (s : inode_st) L R D mem lg (Q : Z → inode_st → Prop) :
  loaded s L R D mem lg → refs s !! r = Some (Ref o fl tl) → data_good (blocks s) (flash s) o tl ri cd → reliable (flash s) → plenty 1 mem →
  (∀ t mem', loaded (with_tns t s) L R D mem' lg → spends 1 mem mem' → Q 0 (with_tns t s)) →
  wp (check_data r ri) s Q.
Proof.
  intros Hl Hr Hg Hrel Hp HQ. unfold check_data. destruct (_ && _).
  - apply wp_bind. eapply wp_alloc_one; [exact (lo_map _ _ _ _ _ _ Hl)|exact Hp|]. intros mem' m Hs Hm. cbn [negb].
    pose proof (loaded_map s m L R D mem mem' lg lg Hl Hm) as Hl'. apply wp_bind. eapply wp_rget; [exact Hr|].
    apply wp_bind, wp_read_flash; [exact Hrel|rewrite (dg_csize _ _ _ _ _ _ Hg); lia|]. cbn [r_offset]. intros got Hread Hlen.
    rewrite Hlen, Z.eqb_refl. cbn [negb andb]. change (truthy 0) with false. cbv iota.
    assert (got = cd) as ->.
    { pose proof (dg_stored _ _ _ _ _ _ Hg) as Hst. pose proof (length_inode_bytes ri) as H68. rewrite (stored_read _ _ _ sizeof_raw_inode (csize ri) got Hst); [|unfold sizeof_raw_inode; lia|rewrite (dg_csize _ _ _ _ _ _ Hg); lia| |exact Hread|exact Hlen].
      - unfold sizeof_raw_inode. change (Z.to_nat 68) with 68%nat. rewrite drop_app_length' by done.
        rewrite (dg_csize _ _ _ _ _ _ Hg), Nat2Z.id. by apply take_ge.
      - rewrite length_app, length_inode_bytes, (dg_csize _ _ _ _ _ _ Hg). unfold sizeof_raw_inode. lia. }
    rewrite (dg_data_crc _ _ _ _ _ _ Hg), Z.eqb_refl. apply wp_ret. by eapply HQ.
  - apply wp_ret. specialize (HQ (tns s) mem). replace (with_tns (tns s) s) with s in HQ by (by destruct s).
    apply HQ; [done|]. eapply spends_more; [apply spends_none|lia].
Qed.
Lemma wp_check_node r o fl tl ri cd (s : inode_st) L R D mem lg (Q : Z → inode_st → Prop) :
  loaded s L R D mem lg → refs s !! r = Some (Ref o fl tl) → data_good (blocks s) (flash s) o tl ri cd → reliable (flash s) → plenty 1 mem →
  (∀ s' mem', loaded s' L R D mem' lg → beside r s s' → spends 1 mem mem' → Q 0 s') →
  wp (check_node sector_size r (inode_bytes ri) ri) s Q.
Proof.
  intros Hl Hr Hg Hrel Hp HQ. unfold check_node. rewrite (dg_crc _ _ _ _ _ _ Hg), Z.eqb_refl. cbn [negb].
  rewrite (proj2 (Z.ltb_ge _ _) (dg_isize _ _ _ _ _ _ Hg)), (dg_pad _ _ _ _ _ _ Hg), Z.eqb_refl. cbn [orb negb].
  apply wp_bind. eapply wp_check_data; [exact Hl|exact Hr|exact Hg|exact Hrel|exact Hp|]. intros t mem' Hl' Hs. change (truthy 0) with false. cbv iota.
  apply wp_bind. eapply wp_rget; [exact Hr|]. apply wp_bind. eapply wp_rget; [exact Hr|]. cbn [r_offset r_totlen].
  apply wp_bind. unfold account. apply wp_bind, wp_gets_m, wp_bind, wp_gets_m. cbn [blocks with_tns].
  destruct (dg_block _ _ _ _ _ _ Hg) as [[used unchecked] Hb]. rewrite Hb. apply wp_puts.
  apply wp_bind. eapply wp_rput; [exact Hr|]. apply wp_ret. eapply HQ; [by apply (loaded_same (with_tns t s))|split|exact Hs].
  - intros q Hq. cbn. by rewrite lookup_insert_ne.
  - intros v Hv. cbn. rewrite lookup_insert_eq. eexists. split; [reflexivity|]. rewrite Hr in Hv. by injection Hv as <-.
  - done.
  - cbn. intros b Hb'. destruct (decide (b = o / sector_size)) as [->|]; [by rewrite lookup_insert_eq|by rewrite lookup_insert_ne].
Qed.

(** The new node of the tree. *)
Lemma whole_any_cell L x fr h : whole L (PAny x :: fr) h → ∃ n, whole L (PCell x n :: fr) h.
Proof. apply whole_any. Qed.
Lemma tree_dom L fr h x : whole L fr h → x ∈ L → is_Some (cells h !! x).
Proof.
  intros (t & m & [Hs _] & <- & _) Hx. apply Forall_cons in Hs as [Hs _]. apply (foot_dom _ (PSub None t) _ Hs). cbn. by apply list_elem_of_fmap_2.
Qed.
Lemma fresh_not_in (h : heap) L fr : whole L fr h → fresh (elements (dom (cells h))) ∉ L ∧ cells h !! fresh (elements (dom (cells h))) = None.
Proof.
  intros Hw. pose proof (fresh_absent (cells h)) as Hf. split; [|done]. intros Hin. destruct (tree_dom _ _ _ _ Hw Hin) as [n Hn]. congruence.
Qed.
Lemma ordered_tn_insert (t : VTree.st) L fr x v m :
  x ∉ L → ordered t L fr → ordered (VTree.St (VTree.tn_tree t) (<[x := v]> (VTree.tn_at t)) m) L fr.
Proof.
  intros Hx (Hw & Hk & Hs). split; [done|]. unfold known in *. rewrite !Forall_forall in *. split.
  - intros y Hy. cbn. rewrite lookup_insert_ne; [by apply Hk|]. by intros ->.
  - clear Hk Hw. unfold ver in *. induction L as [|y L IH]; [constructor|]. apply StronglySorted_inv in Hs as [Hs Hall].
    apply not_elem_of_cons in Hx as [Hxy Hx]. constructor; [by apply IH|]. rewrite Forall_forall in *. intros z Hz. cbn.
    rewrite !lookup_insert_ne; [by apply Hall|by intros ->|done].
Qed.

Lemma wp_new_tmp (t : VTree.st) L (Q : ptr → VTree.st → Prop) :
  ordered t L [] →
  (∀ x n h, x ∉ L → ordered (VTree.St h (<[x := VTree.Tmp 0 0]> (VTree.tn_at t)) (VTree.inode t)) L [PCell x n] →
     Q (Some x) (VTree.St h (<[x := VTree.Tmp 0 0]> (VTree.tn_at t)) (VTree.inode t))) →
  wp VTree.new_tmp t Q.
Proof.
  intros Ho HQ. pose proof Ho as (Hw & _ & _). destruct (fresh_not_in _ _ _ Hw) as [Hx Hnone]. unfold wp, VTree.new_tmp.
  set (x := fresh _) in *. pose proof (whole_alloc L [] (VTree.tn_tree t) x (Cell None RB_RED None None) Hw Hnone) as Ha.
  apply whole_any_cell in Ha as [n Ha]. eapply (HQ x n); [exact Hx|].
  destruct (ordered_tn_insert t L [] x (VTree.Tmp 0 0) (VTree.inode t) Hx Ho) as (_ & Hk & Hs). split; [exact Ha|]. by split.
Qed.
Lemma wp_set_dnode r o n (m : Frag.st) D mem lg fn (Q : unit → Frag.st → Prop) :
  inode m [] (<[fn := FullDnode 0 0 0 0]> D) mem lg → (∀ m', inode m' [] (<[fn := FullDnode r o n 0]> D) mem lg → Q tt m') →
  wp (Frag.dput (λ d, FullDnode r o n (frags d)) (Some fn)) m Q.
Proof.
  intros [Hs [_ Hc] Ht He] HQ. eapply wp_dput; [exact Hs|apply lookup_insert_eq|]. intros m' Hs'. rewrite insert_insert_eq in Hs'. apply HQ.
  split; [exact Hs'| |exact Ht|exact He]. split; [constructor|]. intros d dn. destruct (decide (d = fn)) as [->|Hd].
  - rewrite lookup_insert_eq. by intros [= <-].
  - rewrite lookup_insert_ne by done. intros Hdn. apply (Hc d). by rewrite lookup_insert_ne.
Qed.
Lemma nodes_stay (t t' : gmap nat VTree.tmp_dnode_info) (D D' : gmap nat full_dnode) L R :
  (∀ x, x ∈ L → t' !! x = t !! x) → (∀ d dn, D !! d = Some dn → D' !! d = Some dn) →
  Forall2 (λ x r, ∃ d ri cd, nd r = Data ri cd ∧ t !! x = Some (VTree.Tmp d (Layout.version ri)) ∧ D !! d = Some (FullDnode r (offset ri) (dsize ri) 0)) L R →
  Forall2 (λ x r, ∃ d ri cd, nd r = Data ri cd ∧ t' !! x = Some (VTree.Tmp d (Layout.version ri)) ∧ D' !! d = Some (FullDnode r (offset ri) (dsize ri) 0)) L R.
Proof.
  intros Ht HD. induction 1 as [|x r L R (d & ri & cd & Hn & Hx & Hd) _ IH]; constructor.
  - exists d, ri, cd. rewrite Ht by left. split_and!; [done|done|by apply HD].
  - apply IH. intros y Hy. apply Ht. by right.
Qed.
Lemma wp_read_dnode_good r o fl tl ri cd (s : inode_st) L R D mem lg (Q : Z → inode_st → Prop) :
  loaded s L R D mem lg → refs s !! r = Some (Ref o fl tl) → fl ≠ REF_OBSOLETE → nd r = Data ri cd → r ∉ R →
  data_good (blocks s) (flash s) o tl ri cd → reliable (flash s) → plenty 3 mem →
  (∀ s' L' R' D' mem', loaded s' L' R' D' mem' lg → R' ≡ₚ r :: R → beside r s s' → spends 3 mem mem' → Q 0 s') →
  wp (read_dnode sector_size r (inode_bytes ri)) s Q.
Proof.
  intros Hl Hr Hfl Hnd Hout Hg Hrel Hp HQ. unfold read_dnode. apply wp_bind. eapply wp_rget; [exact Hr|]. cbn [r_flags].
  rewrite (proj2 (Z.eqb_neq _ _)) by done.
  assert (inode_of_bytes (inode_bytes ri) = ri) as -> by (pose proof (inode_of_bytes_bytes ri [] (dg_formed _ _ _ _ _ _ Hg)) as H; by rewrite app_nil_r in H).
  apply wp_bind.
  assert (∀ s1 mem1, loaded s1 L R D mem1 lg → beside r s s1 → spends 1 mem mem1 →
    wp (tn ← on_tns VTree.jffs2_alloc_tmp_dnode_info;
      if negb (non_null tn) then mret (- ENOMEM)
      else fn ← on_map Node.jffs2_alloc_full_dnode;
        match fn with
        | None => on_tns (VTree.jffs2_free_tmp_dnode_info tn);; mret (- ENOMEM)
        | Some fn =>
            on_tns (VTree.tput (λ _, VTree.Tmp fn (Layout.version ri)) tn);;
            let swapped := (compr ri =? JFFS2_COMPR_ZERO) && negb (truthy (dsize ri)) && truthy (csize ri) in
            on_map (Frag.dput (λ d, Frag.FullDnode r (offset ri) (if swapped then csize ri else dsize ri) (Frag.frags d)) (Some fn));;
            on_tns (VTree.jffs2_add_tn_to_tree tn);;
            mret 0
        end) s1 Q) as Hrest.
  { intros s1 mem1 Hl1 Hb1 Hs1. assert (plenty 2 mem1) as Hp1 by (apply (Hs1 3); [done|lia]).
    pose proof Hl1 as [Hord Hmap Hnodes Hdist Honly]. apply wp_bind, wp_on_tns. unfold VTree.jffs2_alloc_tmp_dnode_info. apply wp_bind, wp_on_inode.
    eapply wp_draw_map; [exact Hmap|]. intros ok mem2 m Hd2 Hm. destruct (plenty_drew _ _ _ _ Hd2 Hp1) as [-> Hp2]; [lia|].
    eapply wp_new_tmp; [exact Hord|]. intros x n h Hx Hord2. cbn [non_null negb]. apply wp_bind, wp_on_frags.
    cbn [frags_of with_tns tns VTree.inode with_frags VTree.tn_at]. eapply wp_alloc_dnode; [exact Hm| |].
    { intros mem3 m3 Hd3 _. destruct (plenty_drew _ _ _ _ Hd3 Hp2) as [? _]; [lia|done]. }
    intros mem3 m3 fn Hd3 Hfn Hm3. apply wp_bind, wp_on_tns. unfold wp at 1, VTree.tput. cbn [with_tns tns with_frags VTree.tn_at].
    rewrite lookup_insert_eq, insert_insert_eq. cbn [VTree.tn_tree VTree.inode].
    assert ((compr ri =? JFFS2_COMPR_ZERO) && negb (truthy (dsize ri)) && truthy (csize ri) = false) as ->.
    { unfold truthy. destruct (Z.eqb_spec (dsize ri) 0) as [Hz|]; [|by rewrite andb_false_r]. rewrite (dg_hole _ _ _ _ _ _ Hg Hz). by rewrite andb_false_r. }
    apply wp_bind, wp_on_frags. eapply wp_set_dnode; [exact Hm3|]. intros m4 Hm4.
    apply wp_bind, wp_on_tns. cbn [with_tns tns with_frags VTree.tn_tree VTree.tn_at].
    destruct Hord2 as (Hw2 & Hk2 & Hsort2). eapply (wp_add_tn _ L x (VTree.Tmp fn (Layout.version ri)) n []).
    - apply (ordered_tn_insert (VTree.St h (VTree.tn_at (tns s1)) m4) L [PCell x n] x _ m4 Hx). destruct Hord as (_ & Hk & Hs). by split.
    - apply lookup_insert_eq.
    - intros t' L1 L2 HL Hord' Htn Hin. apply wp_ret. set (D' := <[fn := FullDnode r (offset ri) (dsize ri) 0]> D).
      assert (Forall2 (λ x r, ∃ d ri cd, nd r = Data ri cd ∧ VTree.tn_at t' !! x = Some (VTree.Tmp d (Layout.version ri)) ∧
        D' !! d = Some (FullDnode r (offset ri) (dsize ri) 0)) (L1 ++ L2) R) as HF.
      { rewrite <-HL. eapply nodes_stay; [| |exact Hnodes].
        - intros y Hy. rewrite Htn. cbn [VTree.tn_at with_frags tns with_tns]. rewrite lookup_insert_ne; [done|]. by intros ->.
        - intros d dn Hd. unfold D'. rewrite lookup_insert_ne; [done|]. intros ->. congruence. }
      apply Forall2_app_inv_l in HF as (R1 & R2 & HF1 & HF2 & HR).
      apply (HQ _ (L1 ++ x :: L2) (R1 ++ r :: R2) D' mem3).
      + split; [exact Hord'|unfold frags_of; cbn [tns with_tns]; by rewrite Hin| | |].
        * apply Forall2_app; [exact HF1|]. constructor; [|exact HF2]. exists fn, ri, cd. cbn [tns with_tns]. rewrite Htn. cbn [VTree.tn_at with_frags tns with_tns].
          unfold D'. by rewrite !lookup_insert_eq.
        * rewrite <-Permutation_middle. constructor; by rewrite <-HR.
        * intros d dn. unfold D'. destruct (decide (d = fn)) as [->|Hd].
          -- rewrite lookup_insert_eq. intros [= <-]. exists ri, cd. by split_and!.
          -- rewrite lookup_insert_ne by done. apply Honly.
      + by rewrite HR, Permutation_middle.
      + eapply beside_trans; [exact Hb1|]. apply (beside_tns r _ s1).
      + apply (spends_trans 1 2 _ mem1); [done| |lia]. apply (spends_trans 1 1 _ mem2); [by eapply spends_drew|by eapply spends_drew|lia]. }
  destruct (fl =? REF_UNCHECKED).
  - eapply wp_check_node; [exact Hl|exact Hr|exact Hg|exact Hrel|eapply plenty_less; [exact Hp|lia]|].
    intros s1 mem1 Hl1 Hb1 Hs1. change (truthy 0) with false. by eapply Hrest.
  - apply wp_ret. change (truthy 0) with false. eapply Hrest; [exact Hl| |eapply spends_more; [apply spends_none|lia]].
    pose proof (beside_tns r (tns s) s) as H. by destruct s.
Qed.

(** *** A dirent *)

Lemma add_fd_obsoletes new l q : (jffs2_add_fd_to_list new l).2 = Some q → q = raw new ∨ q ∈ raw <$> l.
Proof.
  induction l as [|d l IH]; cbn [jffs2_add_fd_to_list]; [done|]. destruct (nhash d <=? nhash new); [|done]. destruct (_ && _).
  - destruct (fversion new <? fversion d); intros [= <-]; [by left|]. right. left.
  - destruct (jffs2_add_fd_to_list new l) as [l' o]. cbn in *. intros Ho. destruct (IH Ho); [by left|]. right. by right.
Qed.
Lemma wp_mark_obsolete q (s : inode_st) fs D mem lg v (Q : unit → inode_st → Prop) :
  inode (frags_of s) fs D mem lg → refs s !! q = Some v →
  (∀ m, inode m fs D mem (lg ++ [Obsolete q]) →
     Q tt (with_refs (<[q := set_flags REF_OBSOLETE v]> (refs s)) (with_tns (with_frags m (tns s)) s))) →
  wp (mark_obsolete q) s Q.
Proof.
  intros Hi Hq HQ. unfold mark_obsolete. apply wp_bind, wp_on_frags. unfold Frag.jffs2_mark_node_obsolete, wp at 1, Frag.mark.
  eapply wp_rput; [exact Hq|]. apply HQ. by apply inode_marks.
Qed.
(** What the bytes read of a node say. *)
Lemma kind_of_bytes ws ws' node a b l : ws = 2%nat :: 2%nat :: ws' → unpack ws node = a :: b :: l → nodetype_of node = b.
Proof. intros -> [= _ Hb _]. exact Hb. Qed.
Lemma kind_of_inode ri rest : well_formed ri → nodetype_of (inode_bytes ri ++ rest) = Layout.nodetype ri.
Proof. intros Hf. eapply kind_of_bytes; [reflexivity|]. by apply unpack_pack. Qed.
Lemma dirent_of_bytes_bytes rd rest : Forall2 fits dirent_widths (dirent_fields rd) → dirent_of_bytes (dirent_bytes rd ++ rest) = rd.
Proof. intros Hf. unfold dirent_of_bytes, dirent_bytes. rewrite unpack_pack by done. by destruct rd. Qed.
Lemma kind_of_dirent rd rest : Forall2 fits dirent_widths (dirent_fields rd) → nodetype_of (dirent_bytes rd ++ rest) = Dirent.nodetype rd.
Proof. intros Hf. eapply kind_of_bytes; [reflexivity|]. by apply unpack_pack. Qed.

Lemma wp_rest_of_name r o fl tl rd nm k (s : inode_st) (Q : Z + list Z → inode_st → Prop) :
  refs s !! r = Some (Ref o fl tl) → name_good (flash s) o fl tl r rd nm → reliable (flash s) → (0 <= k)%Z →
  Q (inr (drop (Z.to_nat (Z.min (nsize rd) k)) nm)) s → wp (rest_of_name r (nsize rd) (sizeof_raw_dirent + k)) s Q.
Proof.
  intros Hr Hg Hrel Hk HQ. unfold rest_of_name. pose proof (de_nsize _ _ _ _ (ng_describes _ _ _ _ _ _ _ Hg)) as Hn.
  destruct (Z.ltb_spec (sizeof_raw_dirent + k) (nsize rd + sizeof_raw_dirent)).
  - apply wp_bind. eapply wp_rget; [exact Hr|]. cbn [r_offset]. replace (nsize rd - (sizeof_raw_dirent + k - sizeof_raw_dirent)) with (nsize rd - k) by lia.
    apply wp_bind, wp_read_flash; [exact Hrel|lia|]. intros got Hread Hlen. rewrite Hlen, Z.eqb_refl. cbn [negb andb]. change (truthy 0) with false. cbv iota.
    apply wp_ret. rewrite Z.min_r in HQ by lia. pose proof (length_dirent_bytes rd) as H40.
    rewrite (stored_read _ _ _ (sizeof_raw_dirent + k) (nsize rd - k) got (ng_stored _ _ _ _ _ _ _ Hg)); [|unfold sizeof_raw_dirent; lia|lia| |exact Hread|exact Hlen].
    + rewrite drop_app_ge by (unfold sizeof_raw_dirent; lia). replace (Z.to_nat (sizeof_raw_dirent + k) - length (dirent_bytes rd))%nat with (Z.to_nat k) by (unfold sizeof_raw_dirent; lia).
      rewrite take_ge; [done|]. rewrite length_drop. lia.
    + rewrite length_app. unfold sizeof_raw_dirent. lia.
  - apply wp_ret. rewrite Z.min_l in HQ by lia. rewrite drop_ge in HQ by lia. done.
Qed.
Lemma wp_read_direntry_good r o fl tl rd nm node k (s : inode_st) L R D mem lg (Q : Z → inode_st → Prop) :
  loaded s L R D mem lg → refs s !! r = Some (Ref o fl tl) → fl ≠ REF_OBSOLETE →
  name_good (flash s) o fl tl r rd nm → reliable (flash s) → plenty 1 mem → 0 <= k →
  take 40 node = dirent_bytes rd → take (Z.to_nat (Z.min (nsize rd) k)) (drop 40 node) = take (Z.to_nat (Z.min (nsize rd) k)) nm →
  (∀ e, e ∈ ret_fd s → is_Some (refs s !! raw e)) →
  (∀ s' mem' lg' refs', loaded s' L R D mem' lg' → spends 1 mem mem' →
     ret_fd s' = (jffs2_add_fd_to_list (dirent_of r rd nm) (ret_fd s)).1 → refs s' = refs' →
     (refs' = refs s ∨ ∃ q v, (q = r ∨ q ∈ raw <$> ret_fd s) ∧ refs s !! q = Some v ∧ refs' = <[q := set_flags REF_OBSOLETE v]> (refs s)) →
     chain s' = chain s ∧ flash s' = flash s ∧ icache s' = icache s ∧ metadata s' = metadata s ∧ dents s' = dents s ∧ target s' = target s ∧
     highest_version s' = highest_version s ∧ blocks s' = blocks s → Q 0 s') →
  wp (read_direntry full_name_hash r node (sizeof_raw_dirent + k)) s Q.
Proof.
  intros Hl Hr Hfl Hg Hrel Hp Hk H40 Hname Hin HQ. pose proof (ng_describes _ _ _ _ _ _ _ Hg) as Hde.
  unfold read_direntry. apply wp_bind. eapply wp_rget; [exact Hr|]. cbn [r_flags].
  rewrite !(proj2 (Z.eqb_neq _ _)) by (done || apply (ng_checked _ _ _ _ _ _ _ Hg)). cbn [orb].
  assert (dirent_of_bytes node = rd) as -> by (rewrite <-(take_drop 40 node), H40; apply dirent_of_bytes_bytes, (de_formed _ _ _ _ Hde)).
  rewrite (de_totlen _ _ _ _ Hde), (de_nsize _ _ _ _ Hde), Z.add_comm, Z.eqb_refl. cbn [negb].
  apply wp_bind. eapply wp_alloc_one; [exact (lo_map _ _ _ _ _ _ Hl)|exact Hp|]. intros mem1 m1 Hs1 Hm1. cbn [negb].
  pose proof (loaded_map s m1 L R D mem mem1 lg lg Hl Hm1) as Hl1. set (s1 := with_tns (with_frags m1 (tns s)) s) in *.
  apply wp_bind, wp_gets_m, wp_bind. replace (sizeof_raw_dirent + k - sizeof_raw_dirent) with k by lia.
  assert (∀ s2, loaded s2 L R D mem1 lg → refs s2 = refs s → ret_fd s2 = ret_fd s →
     chain s2 = chain s ∧ flash s2 = flash s ∧ icache s2 = icache s ∧ metadata s2 = metadata s ∧ dents s2 = dents s ∧ target s2 = target s ∧
     highest_version s2 = highest_version s ∧ blocks s2 = blocks s →
     wp (r0 ← rest_of_name r (Z.of_nat (length nm)) (sizeof_raw_dirent + k);
         match r0 with
         | inl e => mret e
         | inr more =>
             let nm0 := take (Z.to_nat (Z.min (Z.of_nat (length nm)) k)) (drop 40 node) ++ more in
             file_dirent (FullDirent r (Dirent.version rd) (Dirent.ino rd) (full_name_hash nm0) (type rd) (nm0 ++ [0]));; mret 0
         end) s2 Q) as Hrest.
  { intros s2 Hl2 Hr2 Hfd2 Hsame2. rewrite <-(de_nsize _ _ _ _ Hde). apply wp_bind. eapply wp_rest_of_name; [by rewrite Hr2| | |exact Hk|].
    - destruct Hsame2 as (_ & Hf & _). rewrite Hf. exact Hg.
    - destruct Hsame2 as (_ & Hf & _). by rewrite Hf.
    - rewrite Hname, take_drop. cbv beta iota zeta. fold (dirent_of r rd nm). apply wp_bind. unfold file_dirent.
      apply wp_bind, wp_gets_m. rewrite Hfd2. destruct (jffs2_add_fd_to_list (dirent_of r rd nm) (ret_fd s)) as [l o'] eqn:Hadd.
      pose proof (add_fd_obsoletes (dirent_of r rd nm) (ret_fd s)) as Hob. rewrite Hadd in Hob. cbn [snd] in Hob.
      apply wp_bind, wp_puts. assert (loaded (with_found l s2) L R D mem1 lg) as Hl3 by (by apply (loaded_same s2)). destruct o' as [q|].
      + destruct (Hob q eq_refl) as [Hq|Hq]; cbn [raw dirent_of] in Hq.
        * subst q. eapply wp_mark_obsolete; [exact (lo_map _ _ _ _ _ _ Hl3)|cbn; by rewrite Hr2|]. intros m Hm. apply wp_ret.
          eapply (HQ _ mem1); [|exact Hs1|reflexivity|reflexivity| |exact Hsame2].
          -- eapply loaded_same; [|exact (loaded_map _ m L R D mem1 mem1 lg _ Hl3 Hm)]. done.
          -- right. exists r, (Ref o fl tl). cbn. rewrite Hr2. split_and!; [by left|done|done].
        * apply list_elem_of_fmap in Hq as (e & -> & He). destruct (Hin e He) as [v Hv].
          eapply wp_mark_obsolete; [exact (lo_map _ _ _ _ _ _ Hl3)|cbn; by rewrite Hr2|]. intros m Hm. apply wp_ret.
          eapply (HQ _ mem1); [|exact Hs1|reflexivity|reflexivity| |exact Hsame2].
          -- eapply loaded_same; [|exact (loaded_map _ m L R D mem1 mem1 lg _ Hl3 Hm)]. done.
          -- right. exists (raw e), v. cbn. rewrite Hr2. split_and!; [right; by apply list_elem_of_fmap_2|done|done].
      + apply wp_ret, wp_ret. eapply (HQ _ mem1); [exact Hl3|exact Hs1|reflexivity|reflexivity| |exact Hsame2]. left. cbn. by rewrite Hr2. }
  destruct (mctime_ver s1 <? Dirent.version rd).
  - apply wp_puts, Hrest; [by apply (loaded_same s1)|done..].
  - apply wp_ret, Hrest; done.
Qed.

(** *** All the nodes, one after the other *)

Definition names (l : list nat) : list full_dirent :=
  omap (λ r, match nd r with Name rd nm => Some (dirent_of r rd nm) | Data _ _ => None end) l.
Definition is_data (r : nat) : Prop := match nd r with Data _ _ => True | Name _ _ => False end.
#[local] Instance is_data_dec r : Decision (is_data r).
Proof. unfold is_data. destruct (nd r); apply _. Defined.
Definition datas (l : list nat) : list nat := filter is_data l.
Definition version_of (r : nat) : Z := match nd r with Data ri _ => Layout.version ri | Name rd _ => Dirent.version rd end.


Context (s0 : inode_st) (mem0 : list bool).
Record inv (s : inode_st) (done : list nat) : Prop := {
  in_rest : chain s = chain s0 ∧ flash s = flash s0 ∧ icache s = icache s0 ∧ metadata s = metadata s0 ∧ dents s = dents s0 ∧ target s = target s0;
  in_refs : ∀ q, q ∉ done → refs s !! q = refs s0 !! q;
  in_offsets : ∀ q v, refs s0 !! q = Some v → ∃ v', refs s !! q = Some v' ∧ r_offset v' = r_offset v;
  in_blocks : ∀ b, is_Some (blocks s0 !! b) → is_Some (blocks s !! b);
  in_found : ret_fd s = replay (names done);
  in_highest : highest_version s = foldl Z.max (highest_version s0) (version_of <$> done);
  in_known : Forall (λ q, is_Some (refs s0 !! q)) done;
  in_loaded : ∃ L R D mem lg, loaded s L R D mem lg ∧ R ≡ₚ datas done ∧ spends (3 * Z.of_nat (length done)) mem0 mem }.

Lemma names_raw l d : d ∈ names l → raw d ∈ l.
Proof.
  unfold names. intros (r & Hr & Hd)%list_elem_of_omap. destruct (nd r); [done|]. by injection Hd as <-.
Qed.
Lemma wp_settle_ok r v (s : inode_st) (Q : verdict → inode_st → Prop) :
  Q Go (if highest_version s <? v then with_highest v s else s) → wp (settle r 0 (Some v)) s Q.
Proof.
  intros HQ. unfold settle. cbn [Z.eqb]. change (truthy 0) with false. apply wp_bind, wp_bind, wp_gets_m. destruct (highest_version s <? v).
  - apply wp_puts, wp_ret, HQ.
  - apply wp_ret, wp_ret, HQ.
Qed.
Lemma inv_raise v r (s : inode_st) done :
  version_of r = v → is_Some (refs s0 !! r) →
  (chain s = chain s0 ∧ flash s = flash s0 ∧ icache s = icache s0 ∧ metadata s = metadata s0 ∧ dents s = dents s0 ∧ target s = target s0) →
  (∀ q, q ∉ done ++ [r] → refs s !! q = refs s0 !! q) →
  (∀ q w, refs s0 !! q = Some w → ∃ w', refs s !! q = Some w' ∧ r_offset w' = r_offset w) →
  (∀ b, is_Some (blocks s0 !! b) → is_Some (blocks s !! b)) →
  ret_fd s = replay (names (done ++ [r])) →
  highest_version s = foldl Z.max (highest_version s0) (version_of <$> done) → Forall (λ q, is_Some (refs s0 !! q)) done →
  (∃ L R D mem lg, loaded s L R D mem lg ∧ R ≡ₚ datas (done ++ [r]) ∧ spends (3 * Z.of_nat (length (done ++ [r]))) mem0 mem) →
  inv (if highest_version s <? v then with_highest v s else s) (done ++ [r]).
Proof.
  intros Hv Hr H1 H2 H3 H4 H5 H6 H7 H8.
  assert (Z.max (highest_version s) v = foldl Z.max (highest_version s0) (version_of <$> done ++ [r])) as Hmax.
  { rewrite fmap_app, foldl_app, <-H6. cbn. by rewrite Hv. }
  assert (Forall (λ q, is_Some (refs s0 !! q)) (done ++ [r])) as H7' by (apply Forall_app; split; [done|by constructor]).
  destruct (Z.ltb_spec (highest_version s) v).
  - split; try done. { rewrite <-Hmax. cbn. lia. } destruct H8 as (L & R & D & mem & lg & Hl & ? & ?). exists L, R, D, mem, lg.
    split_and!; [by apply (loaded_same s)|done|done].
  - split; try done. rewrite <-Hmax. lia.
Qed.
Lemma good_still (s : inode_st) done r o fl tl :
  inv s done → r ∉ done → refs s0 !! r = Some (Ref o fl tl) → good (refs s0) (blocks s0) (flash s0) r →
  refs s !! r = Some (Ref o fl tl) ∧
    match nd r with Data ri cd => data_good (blocks s) (flash s) o tl ri cd | Name rd nm => name_good (flash s) o fl tl r rd nm end.
Proof.
  intros Hi Hr Href (o' & fl' & tl' & Href' & Hg). rewrite (in_refs _ _ Hi r Hr). split; [done|].
  assert (o' = o ∧ fl' = fl ∧ tl' = tl) as (-> & -> & ->) by (rewrite Href in Href'; by injection Href').
  destruct (in_rest _ _ Hi) as (_ & -> & _). destruct (nd r); [|done]. destruct Hg. split; try done. by apply (in_blocks _ _ Hi).
Qed.
Lemma wp_visit_data r o fl tl ri cd done got old (s : inode_st) (Q : verdict → inode_st → Prop) :
  inv s done → r ∉ done → is_Some (refs s0 !! r) → refs s !! r = Some (Ref o fl tl) → fl ≠ REF_OBSOLETE → nd r = Data ri cd →
  data_good (blocks s) (flash s) o tl ri cd → reliable (flash s) → plenty (3 * Z.of_nat (length (done ++ [r]))) mem0 →
  mtd_read (flash s) o (Z.min tl sizeof_raw_inode) = (0, got) → Z.of_nat (length got) = Z.min tl sizeof_raw_inode → length old = 68%nat →
  (∀ s', inv s' (done ++ [r]) → Q Go s') →
  wp (visit full_name_hash sector_size read_only r (got ++ drop (length got) old) (Z.of_nat (length got))) s Q.
Proof.
  intros Hi Hout Hsome Hr Hfl Hnd Hg Hrel Hp Hread Hlen Hold HQ. pose proof (dg_len _ _ _ _ _ _ Hg) as Htl. rewrite Z.min_r in Hread, Hlen by lia.
  destruct (in_loaded _ _ Hi) as (L & R & D & mem & lg & Hl & HR & Hs). rewrite length_app in Hp. cbn [length] in Hp.
  assert (plenty 3 mem) as Hp3 by (replace 3 with (3 * Z.of_nat (length done + 1) - 3 * Z.of_nat (length done)) by lia; apply Hs; [exact Hp|lia]).
  assert (got = inode_bytes ri) as Hgot.
  { pose proof (length_inode_bytes ri) as H68. rewrite (stored_read _ _ _ 0 sizeof_raw_inode got (dg_stored _ _ _ _ _ _ Hg)); [|lia|done|rewrite length_app, H68; unfold sizeof_raw_inode; lia|by rewrite Z.add_0_r|done].
    rewrite drop_0. unfold sizeof_raw_inode. change (Z.to_nat 68) with 68%nat. by rewrite take_app_length' by done. }
  rewrite drop_ge, app_nil_r by (unfold sizeof_raw_inode in Hlen; lia). unfold visit.
  assert (nodetype_of got = JFFS2_NODETYPE_INODE) as ->.
  { rewrite Hgot, <-(app_nil_r (inode_bytes ri)), kind_of_inode by apply (dg_formed _ _ _ _ _ _ Hg). apply (dg_kind _ _ _ _ _ _ Hg). }
  change (JFFS2_NODETYPE_INODE =? JFFS2_NODETYPE_DIRENT) with false. change (JFFS2_NODETYPE_INODE =? JFFS2_NODETYPE_INODE) with true. cbv iota.
  rewrite Hlen, Z.ltb_irrefl. apply wp_bind. rewrite Hgot. eapply wp_read_dnode_good; [exact Hl|exact Hr|exact Hfl|exact Hnd| |exact Hg|exact Hrel|exact Hp3|].
  { rewrite HR. unfold datas. intros [_ H]%list_elem_of_filter. done. }
  intros s1 L' R' D' mem' Hl' HR' Hb Hs'.
  assert (inode_of_bytes (inode_bytes ri) = ri) as -> by (pose proof (inode_of_bytes_bytes ri [] (dg_formed _ _ _ _ _ _ Hg)) as H; by rewrite app_nil_r in H).
  apply wp_settle_ok, HQ. destruct (in_rest _ _ Hi) as (? & ? & ? & ? & ? & ?). destruct (be_rest _ _ _ Hb) as (? & ? & ? & ? & Hhv & ? & ? & Hfd & _).
  apply inv_raise; [unfold version_of; by rewrite Hnd|done|split_and!; congruence| | | | |rewrite Hhv; apply (in_highest _ _ Hi)|apply (in_known _ _ Hi)|].
  - intros q [Hq Hqr]%not_elem_of_app. rewrite (be_refs _ _ _ Hb) by set_solver. by apply (in_refs _ _ Hi).
  - intros q v Hv. destruct (in_offsets _ _ Hi q v Hv) as (v1 & Hv1 & He). destruct (decide (q = r)) as [->|Hq].
    + destruct (be_ref _ _ _ Hb v1 Hv1) as (v2 & Hv2 & He2). exists v2. split; [done|congruence].
    + exists v1. by rewrite (be_refs _ _ _ Hb).
  - intros b Hb'. by apply (be_blocks _ _ _ Hb), (in_blocks _ _ Hi).
  - rewrite Hfd, (in_found _ _ Hi). f_equal. unfold names. rewrite omap_app. cbn. rewrite Hnd. by rewrite app_nil_r.
  - exists L', R', D', mem', lg. split_and!; [done| |].
    + rewrite HR', HR. unfold datas. rewrite filter_app, filter_cons_True by (unfold is_data; by rewrite Hnd). cbn. by rewrite Permutation_app_comm.
    + rewrite length_app. cbn [length]. replace (3 * Z.of_nat (length done + 1)) with (3 * Z.of_nat (length done) + 3) by lia. by eapply spends_trans; [exact Hs|exact Hs'|].
Qed.

Lemma node_prefix f o b n got rest m :
  stored f o b → mtd_read f o n = (0, got) → Z.of_nat (length got) = n → (m ≤ length b)%nat → Z.of_nat m <= n → take m (got ++ rest) = take m b.
Proof. intros Hs Hr Hl Hm Hn. rewrite take_app_le by lia. by eapply stored_prefix. Qed.
Lemma names_snoc_name l r rd nm : nd r = Name rd nm → names (l ++ [r]) = names l ++ [dirent_of r rd nm].
Proof. intros Hr. unfold names. rewrite omap_app. cbn. by rewrite Hr. Qed.
Lemma datas_snoc_name l r rd nm : nd r = Name rd nm → datas (l ++ [r]) = datas l.
Proof. intros Hr. unfold datas. rewrite filter_app, filter_cons_False, filter_nil, app_nil_r; [done|]. unfold is_data. rewrite Hr. by intros []. Qed.
Lemma wp_visit_name r o fl tl rd nm done got old (s : inode_st) (Q : verdict → inode_st → Prop) :
  inv s done → r ∉ done → is_Some (refs s0 !! r) → refs s !! r = Some (Ref o fl tl) → fl ≠ REF_OBSOLETE → nd r = Name rd nm →
  name_good (flash s) o fl tl r rd nm → reliable (flash s) → plenty (3 * Z.of_nat (length (done ++ [r]))) mem0 →
  mtd_read (flash s) o (Z.min tl sizeof_raw_inode) = (0, got) → Z.of_nat (length got) = Z.min tl sizeof_raw_inode → length old = 68%nat →
  (∀ s', inv s' (done ++ [r]) → Q Go s') →
  wp (visit full_name_hash sector_size read_only r (got ++ drop (length got) old) (Z.of_nat (length got))) s Q.
Proof.
  intros Hi Hout Hsome Hr Hfl Hnd Hg Hrel Hp Hread Hlen Hold HQ. pose proof (ng_len _ _ _ _ _ _ _ Hg) as Htl. pose proof (ng_describes _ _ _ _ _ _ _ Hg) as Hde.
  destruct (in_loaded _ _ Hi) as (L & R & D & mem & lg & Hl & HR & Hs). rewrite length_app in Hp. cbn [length] in Hp.
  assert (plenty 1 mem) as Hp1.
  { eapply plenty_less; [apply (Hs (3 * Z.of_nat (length done + 1))); [exact Hp|lia]|lia]. }
  pose proof (length_dirent_bytes rd) as H40. pose proof (de_nsize _ _ _ _ Hde) as Hn. pose proof (ng_stored _ _ _ _ _ _ _ Hg) as Hst.
  assert (40 <= Z.min tl sizeof_raw_inode) as Hmin by (unfold sizeof_raw_inode, sizeof_raw_dirent in *; lia).
  set (node := got ++ drop (length got) old).
  assert (∀ m, (m ≤ length nm)%nat → Z.of_nat (40 + m) <= Z.min tl sizeof_raw_inode → take (40 + m) node = dirent_bytes rd ++ take m nm) as Hpre.
  { intros m Hm Hm'. unfold node. rewrite (node_prefix _ _ _ _ got _ (40 + m) Hst Hread Hlen); [|rewrite length_app; lia|done].
    rewrite <-H40 at 1. apply take_app_add. }
  assert (take 40 node = dirent_bytes rd) as Hhead by (pose proof (Hpre 0%nat ltac:(lia) ltac:(lia)) as H; by rewrite take_0, app_nil_r in H).
  unfold visit. fold node. assert (nodetype_of node = JFFS2_NODETYPE_DIRENT) as ->.
  { rewrite <-(take_drop 40 node), Hhead, kind_of_dirent by apply (de_formed _ _ _ _ Hde). apply (de_kind _ _ _ _ Hde). }
  change (JFFS2_NODETYPE_DIRENT =? JFFS2_NODETYPE_DIRENT) with true. cbv iota. rewrite Hlen.
  rewrite (proj2 (Z.ltb_ge _ _)) by (unfold sizeof_raw_dirent; lia). apply wp_bind. set (k := Z.min tl sizeof_raw_inode - sizeof_raw_dirent).
  replace (Z.min tl sizeof_raw_inode) with (sizeof_raw_dirent + k) by (unfold k; lia).
  eapply wp_read_direntry_good; [exact Hl|exact Hr|exact Hfl|exact Hg|exact Hrel|exact Hp1|unfold k, sizeof_raw_dirent; lia|exact Hhead| | |].
  { set (m := Z.to_nat (Z.min (nsize rd) k)). assert ((m ≤ length nm)%nat ∧ Z.of_nat (40 + m) <= Z.min tl sizeof_raw_inode) as [Hm Hm'] by (unfold m, k, sizeof_raw_dirent; lia).
    pose proof (Hpre m Hm Hm') as H. apply (f_equal (drop 40)) in H. rewrite <-take_drop_commute in H. rewrite drop_app_length' in H by done. exact H. }
  { intros e He. rewrite (in_found _ _ Hi) in He. apply replay_subset, names_raw in He. pose proof (in_known _ _ Hi) as Hk. rewrite Forall_forall in Hk.
    destruct (Hk _ He) as [v Hv]. destruct (in_offsets _ _ Hi _ v Hv) as (v' & -> & _). by eexists. }
  intros s' mem' lg' R1 Hl' Hs' Hfd Hr1 Hch Hsame. subst R1.
  assert (dirent_of_bytes node = rd) as -> by (rewrite <-(take_drop 40 node), Hhead; apply dirent_of_bytes_bytes, (de_formed _ _ _ _ Hde)).
  apply wp_settle_ok, HQ. destruct (in_rest _ _ Hi) as (? & ? & ? & ? & ? & ?). destruct Hsame as (? & ? & ? & ? & ? & ? & Hhv & Hbl).
  assert (∀ q, q ≠ r → q ∉ done → refs s' !! q = refs s !! q) as Hother.
  { intros q Hq Hqd. destruct Hch as [->|(q' & v & Hq' & Hv & ->)]; [done|]. apply lookup_insert_ne. intros ->.
    destruct Hq' as [|Hq']; [done|]. apply list_elem_of_fmap in Hq' as (e & -> & He). rewrite (in_found _ _ Hi) in He. by apply replay_subset, names_raw in He. }
  apply inv_raise; [unfold version_of; by rewrite Hnd|done|split_and!; congruence| | | | |rewrite Hhv; apply (in_highest _ _ Hi)|apply (in_known _ _ Hi)|].
  - intros q [Hq Hqr]%not_elem_of_app. rewrite Hother by set_solver. by apply (in_refs _ _ Hi).
  - intros q w Hw. destruct (in_offsets _ _ Hi q w Hw) as (v1 & Hv1 & He). destruct Hch as [->|(q' & v & _ & Hv & ->)]; [by exists v1|].
    destruct (decide (q' = q)) as [->|Hq]; [|rewrite lookup_insert_ne by done; by exists v1]. rewrite lookup_insert_eq. eexists. split; [reflexivity|]. cbn. congruence.
  - rewrite Hbl. apply (in_blocks _ _ Hi).
  - by rewrite Hfd, (in_found _ _ Hi), (names_snoc_name _ _ _ _ Hnd), replay_snoc.
  - exists L, R, D, mem', lg'. split_and!; [done| |].
    + by rewrite (datas_snoc_name _ _ _ _ Hnd).
    + rewrite length_app. cbn [length]. replace (3 * Z.of_nat (length done + 1)) with (3 * Z.of_nat (length done) + 3) by lia.
      eapply spends_trans; [exact Hs|eapply spends_more; [exact Hs'|lia]|lia].
Qed.

(** The references that are not obsolete when the inode is read. *)
Definition alive (r : nat) : Prop := match refs s0 !! r with Some v => r_flags v ≠ REF_OBSOLETE | None => False end.
#[local] Instance alive_dec r : Decision (alive r).
Proof. unfold alive. destruct (refs s0 !! r); apply _. Defined.
Definition readable (r : nat) : Prop := is_Some (refs s0 !! r) ∧ (alive r → good (refs s0) (blocks s0) (flash s0) r).
Lemma wp_first_valid (s : inode_st) l (Q : list nat → inode_st → Prop) :
  Forall (λ q, is_Some (refs s0 !! q) ∧ refs s !! q = refs s0 !! q) l →
  (∀ l1 l', l = l1 ++ l' → filter alive l' = filter alive l → match l' with [] => True | r :: _ => alive r end → Q l' s) →
  wp (jffs2_first_valid_node l) s Q.
Proof.
  revert Q. induction l as [|r l IH]; intros Q Hl HQ; cbn [jffs2_first_valid_node]; [by apply (HQ [])|].
  apply Forall_cons in Hl as [[[v Hv] Hr] Hl]. rewrite Hv in Hr. apply wp_bind. eapply wp_rget; [exact Hr|]. destruct (Z.eqb_spec (r_flags v) REF_OBSOLETE) as [He|He].
  - apply IH; [done|]. intros l1 l' -> Hf Hh. apply (HQ (r :: l1)); [done| |done]. rewrite filter_cons_False; [done|]. unfold alive. rewrite Hv. by intros [].
  - apply wp_ret. apply (HQ []); [done|done|]. unfold alive. by rewrite Hv.
Qed.
Lemma wp_visit_good r o fl tl done got old (s : inode_st) (Q : verdict → inode_st → Prop) :
  inv s done → r ∉ done → refs s0 !! r = Some (Ref o fl tl) → alive r → good (refs s0) (blocks s0) (flash s0) r →
  reliable (flash s) → plenty (3 * Z.of_nat (length (done ++ [r]))) mem0 →
  mtd_read (flash s) o (Z.min tl sizeof_raw_inode) = (0, got) → Z.of_nat (length got) = Z.min tl sizeof_raw_inode → length old = 68%nat →
  (∀ s', inv s' (done ++ [r]) → Q Go s') →
  wp (visit full_name_hash sector_size read_only r (got ++ drop (length got) old) (Z.of_nat (length got))) s Q.
Proof.
  intros Hi Hout Hr Ha Hgood Hrel Hp Hread Hlen Hold HQ. destruct (good_still _ _ _ _ _ _ Hi Hout Hr Hgood) as [Hr' Hg].
  unfold alive in Ha. rewrite Hr in Ha. destruct (nd r) eqn:Hnd; [eapply wp_visit_data|eapply wp_visit_name]; eauto.
Qed.
Lemma good_length r o fl tl : good (refs s0) (blocks s0) (flash s0) r → refs s0 !! r = Some (Ref o fl tl) → 40 <= tl.
Proof.
  intros (o' & fl' & tl' & Hr' & Hg) Hr. assert (tl' = tl) as -> by (rewrite Hr in Hr'; by injection Hr').
  destruct (nd r); [pose proof (dg_len _ _ _ _ _ _ Hg) as H; unfold sizeof_raw_inode in H; lia|apply (ng_len _ _ _ _ _ _ _ Hg)].
Qed.
Lemma wp_nodes_loop fuel : ∀ todo done old (s : inode_st) (Q : Z → inode_st → Prop),
  inv s done → match todo with [] => True | r :: _ => alive r end → NoDup todo → (∀ r, r ∈ todo → r ∉ done ∧ readable r) →
  reliable (flash s0) → plenty (3 * Z.of_nat (length (done ++ filter alive todo))) mem0 → length old = 68%nat → (length todo < fuel)%nat →
  (∀ s', inv s' (done ++ filter alive todo) → Q 0 s') →
  wp (nodes_loop full_name_hash sector_size read_only fuel todo old) s Q.
Proof.
  induction fuel as [|fuel IH]; intros todo done old s Q Hi Hhd Hnd Htodo Hrel Hp Hold Hfuel HQ; [lia|]. cbn [nodes_loop].
  destruct todo as [|r rest]; [apply wp_ret, HQ; by rewrite app_nil_r|]. apply NoDup_cons in Hnd as [Hrr Hnd].
  destruct (Htodo r) as [Hout [[v Hv] Hgood]]; [left|]. specialize (Hgood Hhd). destruct v as [o fl tl].
  pose proof (good_length _ _ _ _ Hgood Hv) as Htl. destruct (in_rest _ _ Hi) as (_ & Hfl & _).
  rewrite filter_cons_True in Hp, HQ by done.
  assert (refs s !! r = Some (Ref o fl tl)) as Hr by (by rewrite (in_refs _ _ Hi)).
  apply wp_bind, wp_first_valid.
  { rewrite Forall_forall. intros q Hq. destruct (Htodo q) as [Hqd [Hqs _]]; [by right|]. split; [done|by apply (in_refs _ _ Hi)]. }
  intros l1 l' -> Hfl' Hhd'. rewrite <-Hfl' in Hp, HQ. apply wp_bind. eapply wp_rget; [exact Hr|]. apply wp_bind. eapply wp_rget; [exact Hr|].
  cbn [r_offset r_totlen]. apply wp_bind, wp_read_flash; [by rewrite Hfl|unfold sizeof_raw_inode; lia|]. intros got Hread Hlen.
  change (truthy 0) with false. cbv iota zeta. apply wp_bind.
  eapply wp_visit_good; [exact Hi|exact Hout|exact Hv|exact Hhd|exact Hgood|by rewrite Hfl| |exact Hread|exact Hlen|exact Hold|].
  { eapply plenty_less; [exact Hp|]. rewrite !length_app. cbn. lia. }
  intros s' Hi'. cbv beta iota. eapply IH; [exact Hi'|exact Hhd'| | |exact Hrel| | | |].
  - by apply NoDup_app in Hnd as (_ & _ & ?).
  - intros q Hq. destruct (Htodo q) as [Hqd Hqr]; [right; by apply elem_of_app; right|]. split; [|done]. apply not_elem_of_app. split; [done|].
    apply not_elem_of_cons. split; [|apply not_elem_of_nil]. intros ->. apply Hrr, elem_of_app. by right.
  - by rewrite <-app_assoc.
  - rewrite length_app, length_drop. unfold sizeof_raw_inode in Hlen. lia.
  - rewrite length_cons, length_app in Hfuel. lia.
  - intros s2. rewrite <-app_assoc. apply HQ.
Qed.

(** An inode that is about to be read: its references are there, its flash answers, and nothing of it is in
    memory yet. *)
Definition valid : list nat := filter alive (chain s0).
Record starts : Prop := {
  sa_tree : whole [] [] (VTree.tn_tree (tns s0));
  sa_map : ∃ lg, inode (frags_of s0) [] ∅ mem0 lg;
  sa_chain : NoDup (chain s0);
  sa_readable : ∀ r, r ∈ chain s0 → readable r;
  sa_flash : reliable (flash s0) }.
Lemma wp_get_inode_nodes (Q : Z → inode_st → Prop) :
  starts → plenty (3 * Z.of_nat (length valid)) mem0 → (∀ s', inv s' valid → Q 0 s') → wp (jffs2_get_inode_nodes full_name_hash sector_size read_only stack_node) s0 Q.
Proof.
  intros [Htree [lg Hmap] Hchain Hread Hrel] Hp HQ. unfold jffs2_get_inode_nodes.
  apply wp_bind, wp_gets_m, wp_bind, wp_puts, wp_bind, wp_puts, wp_bind, wp_on_tns, wp_on_tn.
  assert (holds (VTree.tn_tree (tns s0)) [PCtx [] None; PSub None Leaf]) as Hh.
  { destruct Htree as (t & m & H & Ht & _). destruct t as [|c l x r]; [|by apply app_nil in Ht as [_ [=]]]. eapply holds_perm; [|exact H]. solve_Permutation. }
  eapply wp_set_root; [exact Hh|]. intros h Hh'. apply wp_bind, wp_gets_m. apply wp_bind, wp_first_valid.
  { rewrite Forall_forall. intros q Hq. destruct (Hread q Hq) as [Hs _]. by split. }
  cbn [chain with_tns with_found with_mctime]. intros l1 l' Hl Hf Hhd.
  eapply (wp_nodes_loop _ l' []); [|exact Hhd| | |exact Hrel| |exact Hstack| |].
  - split; [done|done|by intros q v Hv; exists v|done|done|done|constructor|]. exists [], [], ∅, mem0, lg. split_and!; [|done|apply spends_none].
    split; [|exact Hmap|constructor|constructor|done]. split; [|by split; constructor].
    exists Leaf, 0%nat. split; [|split; [done|by constructor]]. eapply holds_perm; [|exact Hh']. solve_Permutation.
  - rewrite Hl in Hchain. by apply NoDup_app in Hchain as (_ & _ & ?).
  - intros r Hr. split; [apply not_elem_of_nil|]. apply Hread. rewrite Hl. set_solver.
  - by rewrite app_nil_l, Hf.
  - rewrite Hl, length_app. lia.
  - intros s'. rewrite app_nil_l, Hf. apply HQ.
Qed.
End Loading.
