(* ===== verification/Jffs2Inode.v ===== *)
(** * Jffs2Inode: the inode in memory against its nodes on the flash (fs/jffs2/readinode.c)

    What reading the nodes of an inode gives: at every offset of a file the newest node that covers it,
    and the entries of a directory as its own operations left them. *)

From stdpp Require Import sorting.
From S2P Require Import Prelude Rbtree Jffs2Frag Jffs2Rtime Jffs2Rubin Jffs2Compr Crc32 Jffs2Node Jffs2File Jffs2Write Jffs2Io Jffs2Dir Jffs2Version Jffs2Mount.

Section Evolving.
Import Rb Frag.
Lemma counted_nonneg D fs d dn : counted D fs → D !! d = Some dn → 0 <= frags dn.
Proof. intros [_ H] Hd. rewrite (H _ _ Hd). apply count_length. Qed.
Lemma evolves_from D d dn D' es e en' : D !! d = Some dn → evolves (<[d := set_frags 1 dn]> D) D' es → D' !! e = Some en' →
  ∃ en, D !! e = Some en ∧ Frag.raw en' = Frag.raw en ∧ dofs en' = dofs en ∧ Frag.dsize en' = Frag.dsize en.
Proof.
  intros Hd Hev He. destruct (evolves_back _ _ _ _ _ Hev He) as (en & Hen & Hr & Ho & Hs & _). destruct (decide (e = d)) as [->|Hne].
  - rewrite lookup_insert_eq in Hen. injection Hen as <-. exists dn. by split_and!.
  - rewrite lookup_insert_ne in Hen by done. exists en. by split_and!.
Qed.
End Evolving.

Section Eating.
Import Rb Frag Layout Dirent Mount.
Context {F : Type} `{!Mtd F}.
Context (nd : nat → found).
Abbreviation inode_st := (Mount.st (F := F)).
Abbreviation cell := (nat * node_frag)%type.

(** *** The newest node at each offset *)

Definition covers (off : Z) (r : nat) : Prop :=
  match nd r with Data ri _ => offset ri <= off < offset ri + dsize ri | Name _ _ => False end.
#[local] Instance covers_dec off r : Decision (covers off r).
Proof. unfold covers. destruct (nd r); apply _. Defined.
Definition newest_at (R : list nat) (off : Z) : option nat := foldl (λ a r, if decide (covers off r) then Some r else a) None R.
(** Where the last of the data ends. *)
Definition node_end (r : nat) : Z :=
  match nd r with Data ri _ => if dsize ri =? 0 then 0 else offset ri + dsize ri | Name _ _ => 0 end.
Definition furthest (R : list nat) : Z := foldl (λ e r, Z.max e (node_end r)) 0 R.
Definition reaches (r : nat) : Prop :=
  match nd r with Data ri _ => 0 <= offset ri ∧ 0 <= dsize ri ∧ offset ri + dsize ri < 2 ^ 32 | Name _ _ => False end.
Lemma covers_data off r ri cd : nd r = Data ri cd → covers off r ↔ offset ri <= off < offset ri + dsize ri.
Proof. unfold covers. by intros ->. Qed.
Lemma newest_at_snoc R r off : newest_at (R ++ [r]) off = if decide (covers off r) then Some r else newest_at R off.
Proof. unfold newest_at. by rewrite foldl_app. Qed.
Lemma furthest_snoc R r : furthest (R ++ [r]) = Z.max (furthest R) (node_end r).
Proof. unfold furthest. by rewrite foldl_app. Qed.
Lemma furthest_ge R : 0 <= furthest R.
Proof. induction R as [|r R IH] using rev_ind; [done|]. rewrite furthest_snoc. lia. Qed.
Lemma furthest_end R q : q ∈ R → node_end q <= furthest R.
Proof.
  induction R as [|r R IH] using rev_ind; [set_solver|]. rewrite furthest_snoc. intros [Hq| ->%list_elem_of_singleton]%elem_of_app; [specialize (IH Hq)|]; lia.
Qed.
Lemma furthest_bound R : Forall reaches R → furthest R < 2 ^ 32.
Proof.
  induction R as [|r R IH] using rev_ind; intros H; [done|]. apply Forall_app in H as [H [Hr _]%Forall_cons]. rewrite furthest_snoc.
  specialize (IH H). unfold reaches, node_end in *. destruct (nd r); [|done]. destruct (_ =? 0); lia.
Qed.
Lemma newest_at_in R off r : newest_at R off = Some r → r ∈ R ∧ covers off r.
Proof.
  induction R as [|q R IH] using rev_ind; [done|]. rewrite newest_at_snoc. destruct (decide _) as [Hc|].
  - intros [= <-]. split; [set_solver|done].
  - intros [H ?]%IH. split; [set_solver|done].
Qed.
Lemma newest_at_none R off : newest_at R off = None → ∀ r, r ∈ R → ¬ covers off r.
Proof.
  induction R as [|q R IH] using rev_ind; intros H r; [set_solver|]. rewrite newest_at_snoc in H. destruct (decide _); [done|].
  intros [Hr| ->%list_elem_of_singleton]%elem_of_app; [by apply IH|done].
Qed.
(** In the order of the versions the newest one is the last. *)
Definition by_version (R : list nat) : Prop := StronglySorted (λ a b, version_of nd a <= version_of nd b) R.
Lemma by_version_snoc R r : by_version (R ++ [r]) → by_version R ∧ ∀ q, q ∈ R → version_of nd q <= version_of nd r.
Proof.
  induction R as [|x R IH]; cbn; [set_solver by constructor|]. intros [Hs Hall]%StronglySorted_inv. destruct (IH Hs) as [H1 H2].
  rewrite Forall_app, Forall_singleton in Hall. destruct Hall as [Hx Hr]. split; [by constructor|]. intros q [->|Hq]%elem_of_cons; [done|by apply H2].
Qed.
Lemma newest_at_newest R off r q : by_version R → newest_at R off = Some r → q ∈ R → covers off q → version_of nd q <= version_of nd r.
Proof.
  induction R as [|x R IH] using rev_ind; intros Hs; [done|]. rewrite newest_at_snoc. apply by_version_snoc in Hs as [Hs Hx].
  destruct (decide _) as [Hc|Hc].
  - intros [= <-] [Hq| ->%list_elem_of_singleton]%elem_of_app _; [by apply Hx|lia].
  - intros Hr [Hq| ->%list_elem_of_singleton]%elem_of_app Hcov; [by apply IH|done].
Qed.

(** *** The map of the file while it is built *)

(** The map built from the nodes [R]. *)
Record mapped (m : Frag.st) (fs : list cell) (D : gmap nat full_dnode) (mem : list bool) (lg : list event) (R : list nat) : Prop := {
  mp_inode : inode m fs D mem lg;
  mp_known : ∀ d dn, D !! d = Some dn → described nd dn;
  mp_content : ∀ off, 0 <= off →
    match newest_at R off with
    | Some r => ∃ d dn, content fs off = Some (Some d) ∧ D !! d = Some dn ∧ Frag.raw dn = r
    | None => content fs off = if off <? furthest R then Some None else None
    end;
  mp_extent : extent 0 fs = furthest R }.
Lemma mapped_owner m fs D mem lg R d dn : mapped m fs D mem lg R → D !! d = Some dn → 0 < frags dn → Frag.dsize dn ≠ 0.
Proof.
  intros [Hi Hk Hc _] Hd Hf Hz. apply (inode_refers _ _ _ _ _ _ _ Hi Hd) in Hf as [off Hoff]. assert (0 <= off).
  { destruct (Z.lt_ge_cases off 0); [|done]. rewrite (content_outside 0) in Hoff; [done|apply (inode_tiled _ _ _ _ _ Hi)|by left]. }
  specialize (Hc off ltac:(done)). destruct (newest_at R off) as [r|] eqn:Hr.
  - destruct Hc as (d' & dn' & Hd' & Hdn' & Hraw). rewrite Hoff in Hd'. injection Hd' as <-. rewrite Hd in Hdn'. injection Hdn' as <-.
    destruct (Hk _ _ Hd) as (ri & cd & Hnd & _ & Hs). destruct (newest_at_in _ _ _ Hr) as [_ Hcov]. unfold covers in Hcov. rewrite <-Hraw, Hnd in Hcov. lia.
  - rewrite Hoff in Hc. by destruct (off <? furthest R).
Qed.
Lemma mapped_unused m fs D mem lg R d dn : mapped m fs D mem lg R → D !! d = Some dn → Frag.dsize dn = 0 → frags dn = 0.
Proof.
  intros Hm Hd Hz. pose proof (counted_nonneg _ _ _ _ (inode_counted _ _ _ _ _ (mp_inode _ _ _ _ _ _ Hm)) Hd).
  destruct (Z.lt_ge_cases 0 (frags dn)) as [Hf|]; [|lia]. by pose proof (mapped_owner _ _ _ _ _ _ _ _ Hm Hd Hf).
Qed.
(** What becomes of the nodes when others are placed or dropped. *)
Definition stays (D D' : gmap nat full_dnode) (d : nat) : Prop := ∀ e en, e ≠ d → D !! e = Some en → frags en = 0 → D' !! e = Some en.
Lemma evolves_stays D d dn D' es fs' :
  evolves (<[d := set_frags 1 dn]> D) D' es → counted D' fs' → stays D D' d.
Proof.
  intros [H _] Hc e en He Hen Hf. specialize (H e en). rewrite lookup_insert_ne in H by done. specialize (H Hen).
  destruct (D' !! e) as [en'|] eqn:Hen'; [|lia]. destruct H as (Hr & Ho & Hs & Hfr). pose proof (counted_nonneg _ _ _ _ Hc Hen').
  f_equal. destruct en, en'. cbn in *. f_equal; [congruence..|lia].
Qed.
Lemma described_same dn dn' : described nd dn → Frag.raw dn' = Frag.raw dn → dofs dn' = dofs dn → Frag.dsize dn' = Frag.dsize dn → described nd dn'.
Proof. intros (ri & cd & ? & ? & ?) Hr Ho Hs. exists ri, cd. rewrite Hr, Ho, Hs. done. Qed.
Lemma overlaid_newest fs (D : gmap nat full_dnode) R d dn (D' : gmap nat full_dnode) fs' r ri cd :
  (∀ off, 0 <= off →
    match newest_at R off with
    | Some r => ∃ d dn, content fs off = Some (Some d) ∧ D !! d = Some dn ∧ Frag.raw dn = r
    | None => content fs off = if off <? furthest R then Some None else None
    end) → D !! d = Some dn → Frag.raw dn = r → nd r = Data ri cd → dofs dn = offset ri → Frag.dsize dn = dsize ri → 0 <= offset ri → 0 < dsize ri →
  overlaid fs (offset ri) (dsize ri) d fs' →
  (∀ off e, content fs' off = Some (Some e) → ∃ en', D' !! e = Some en' ∧ ∃ en, D !! e = Some en ∧ Frag.raw en' = Frag.raw en) →
  ∀ off, 0 <= off →
    match newest_at (R ++ [r]) off with
    | Some q => ∃ d dn, content fs' off = Some (Some d) ∧ D' !! d = Some dn ∧ Frag.raw dn = q
    | None => content fs' off = if off <? furthest (R ++ [r]) then Some None else None
    end.
Proof.
  intros Hc Hd Hraw Hnd Ho Hs Hof Hds (_ & _ & Hov) HD' off Hoff. specialize (Hc off Hoff). specialize (Hov off Hoff). specialize (HD' off).
  pose proof (covers_data off r ri cd Hnd) as Hcd. rewrite newest_at_snoc, furthest_snoc. unfold node_end. rewrite Hnd. rewrite (proj2 (Z.eqb_neq (dsize ri) 0)) by lia.
  destruct (decide _) as [Hcov|Hcov]; rewrite Hcd in Hcov.
  - rewrite (proj2 (Z.leb_le _ _)), (proj2 (Z.ltb_lt _ _)) in Hov by lia. cbn [andb] in Hov. destruct (HD' _ Hov) as (en' & He' & en & He & Hr).
    exists d, en'. split_and!; [done|done|]. rewrite Hd in He. injection He as <-. by rewrite Hr.
  - assert ((offset ri <=? off) && (off <? offset ri + dsize ri) = false) as Hb.
    { destruct (Z.leb_spec (offset ri) off), (Z.ltb_spec off (offset ri + dsize ri)); [lia|done..]. }
    rewrite Hb in Hov. destruct (newest_at R off) as [q|] eqn:Hq.
    + destruct Hc as (e & en & Hce & He & Hen). rewrite Hce in Hov. destruct (HD' _ Hov) as (en' & He' & en2 & He2 & Hr).
      exists e, en'. rewrite He in He2. injection He2 as <-. split_and!; [done|done|congruence].
    + rewrite Hc in Hov. rewrite Hov. apply andb_false_iff in Hb. rewrite Z.leb_gt, Z.ltb_ge in Hb.
      repeat case_match; lia || done.
Qed.
Lemma plenty_two mem : plenty 2 mem → take 2 mem = [true; true].
Proof.
  intros [Hl Ha]. destruct mem as [|a [|b mem]]; [cbn in Hl; lia..|]. apply Forall_cons in Ha as [<- Ha]. by apply Forall_cons in Ha as [<- _].
Qed.
Lemma wp_add_next m fs D mem lg R d dn r (Q : Z → Frag.st → Prop) :
  mapped m fs D mem lg R → D !! d = Some dn → Frag.raw dn = r → frags dn = 0 → reaches r → Frag.dsize dn ≠ 0 → plenty 2 mem →
  (∀ m' fs' D' mem' lg' dn', mapped m' fs' D' mem' lg' (R ++ [r]) → spends 2 mem mem' → stays D D' d →
     D' !! d = Some dn' → Frag.raw dn' = r → Frag.dsize dn' ≠ 0 → Q 0 m') →
  wp (jffs2_add_full_dnode_to_inode (Some d)) m Q.
Proof.
  intros [Hi Hk Hc Hx] Hd Hraw Hf Hreach Hs Hp HQ. destruct (Hk _ _ Hd) as (ri & cd & Hnd & Ho & Hsz). rewrite Hraw in Hnd.
  unfold reaches in Hreach. rewrite Hnd in Hreach. destruct Hreach as (Hr1 & Hr2 & Hr3).
  eapply wp_add_full_dnode; [exact Hi|exact Hd|exact Hf|by rewrite Ho|lia|by rewrite Ho, Hsz| |].
  2:{ intros m' k mem' es Hne _. by rewrite plenty_two in Hne. }
  intros m' fs' D' mem' es Hi' Hov Hev Hmem. rewrite Ho, Hsz in Hov. pose proof (inode_counted _ _ _ _ _ Hi') as Hc'.
  assert (∀ off e, content fs' off = Some (Some e) → ∃ en', D' !! e = Some en' ∧ ∃ en, D !! e = Some en ∧ Frag.raw en' = Frag.raw en) as Hback.
  { intros off e He. destruct (content_known _ _ _ _ (inode_counted _ _ _ _ _ Hi') He) as [en' Hen']. exists en'. split; [done|].
    destruct (evolves_from _ _ _ _ _ _ _ Hd Hev Hen') as (en & Hen & Hr & _). by exists en. }
  assert (content fs' (offset ri) = Some (Some d)) as Hdc.
  { destruct Hov as (_ & _ & Hov). rewrite Hov by lia. by rewrite (proj2 (Z.leb_le _ _)), (proj2 (Z.ltb_lt _ _)) by lia. }
  destruct (content_known _ _ _ _ (inode_counted _ _ _ _ _ Hi') Hdc) as [dn' Hdn']. destruct (evolves_from _ _ _ _ _ _ _ Hd Hev Hdn') as (dn1 & Hd1 & Hr' & _ & Hs').
  rewrite Hd in Hd1. injection Hd1 as <-. eapply (HQ m' fs' D' mem' _ dn'); [|destruct Hmem as [-> | ->]|by eapply evolves_stays|exact Hdn'|congruence|congruence].
  - split; [exact Hi'| | |].
    + intros e en' He. destruct (evolves_from _ _ _ _ _ _ _ Hd Hev He) as (en & Hen & ? & ? & ?). by eapply described_same; [by apply (Hk e)|..].
    + eapply overlaid_newest; [exact Hc|exact Hd|exact Hraw|exact Hnd|exact Ho|exact Hsz|exact Hr1|lia|exact Hov|exact Hback].
    + destruct Hov as (_ & -> & _). rewrite furthest_snoc, Hx. unfold node_end. rewrite Hnd, (proj2 (Z.eqb_neq (dsize ri) 0)) by lia. done.
  - eapply spends_more; [eapply spends_drew; by left|lia].
  - eapply (spends_trans 1 1); [eapply spends_drew; by left|eapply spends_drew; by left|lia].
Qed.
(** A node without data does not change the map, nor does dropping one. *)
Lemma mapped_empty m fs D mem lg R r ri cd : mapped m fs D mem lg R → nd r = Data ri cd → dsize ri = 0 → mapped m fs D mem lg (R ++ [r]).
Proof.
  intros [Hi Hk Hc Hx] Hnd Hz. assert (furthest (R ++ [r]) = furthest R) as Hfu.
  { rewrite furthest_snoc. unfold node_end. rewrite Hnd, Hz, Z.eqb_refl. pose proof (furthest_ge R). lia. }
  split; [done|done| |by rewrite Hfu]. intros off Hoff. rewrite newest_at_snoc, Hfu. rewrite decide_False; [by apply Hc|].
  rewrite (covers_data off r ri cd Hnd). lia.
Qed.
Lemma wp_forget_mapped m fs D mem lg R d dn (Q : unit → Frag.st → Prop) :
  mapped m fs D mem lg R → D !! d = Some dn → Frag.dsize dn = 0 →
  (∀ m' lg', mapped m' fs (delete d D) mem lg' R → Q tt m') → wp (Node.forget_node d) m Q.
Proof.
  intros Hm Hd Hz HQ. pose proof (mapped_unused _ _ _ _ _ _ _ _ Hm Hd Hz) as Hf. destruct Hm as [Hi Hk Hc Hx]. destruct Hi as [Hs Hco Ht He].
  eapply wp_forget; [exact Hs|exact Hd|]. intros m' lg' Hs'. apply (HQ m' lg').
  assert (∀ off e, content fs off = Some (Some e) → e ≠ d) as Hne.
  { intros off e (x & f & Hin & Hn)%content_node ->. pose proof (count_positive _ _ _ _ Hin Hn). destruct Hco as [_ Hco]. rewrite (Hco _ _ Hd) in Hf. lia. }
  split; [split; [exact Hs'| |exact Ht|exact He]| | |exact Hx].
  - destruct Hco as [Hk1 Hk2]. split; [|intros e en [_ Hen]%lookup_delete_Some; by apply Hk2]. rewrite Forall_forall in *. intros [x f] Hin e Hn.
    rewrite lookup_delete_ne; [by apply (Hk1 (x, f) Hin)|]. intros <-. pose proof (count_positive _ _ _ _ Hin Hn). rewrite (Hk2 _ _ Hd) in Hf. lia.
  - intros e en [_ Hen]%lookup_delete_Some. by apply (Hk e).
  - intros off Hoff. specialize (Hc off Hoff). destruct (newest_at R off) as [r|]; [|done]. destruct Hc as (e & en & Hce & Hen & Hr).
    exists e, en. split_and!; [done| |done]. rewrite lookup_delete_ne; [done|]. intros <-. by apply (Hne off d).
Qed.

(** *** The nodes in the order of their versions *)

Definition with_map (m : Frag.st) (md : ptr) (s : inode_st) : inode_st := with_metadata md (with_tns (with_frags m (tns s)) s).
Lemma with_map_id (s : inode_st) : with_map (frags_of s) (metadata s) s = s.
Proof. by destruct s as [[? ? ?]]. Qed.
Definition last_eaten (D : gmap nat full_dnode) (md : ptr) (mver : Z) (R : list nat) (fn : ptr) : Prop :=
  match last R, fn with
  | None, None => md = None ∧ mver = 0
  | Some r, Some d => ∃ dn, D !! d = Some dn ∧ Frag.raw dn = r ∧
      if Frag.dsize dn =? 0 then md = Some d ∧ mver = version_of nd r else md = None ∧ mver = 0
  | _, _ => False
  end.
Definition pending (t : VTree.st) (D : gmap nat full_dnode) (x r : nat) : Prop :=
  ∃ d ri cd, nd r = Data ri cd ∧ VTree.tn_at t !! x = Some (VTree.Tmp d (Layout.version ri)) ∧ D !! d = Some (FullDnode r (offset ri) (dsize ri) 0).
Lemma wp_place_node s fs D mem lg R d r ri cd (Q : Z → inode_st → Prop) :
  mapped (frags_of s) fs D mem lg R → D !! d = Some (FullDnode r (offset ri) (dsize ri) 0) → nd r = Data ri cd → reaches r → plenty 2 mem →
  metadata s = None →
  (∀ m fs' D' mem' lg' md mv, mapped m fs' D' mem' lg' (R ++ [r]) → spends 2 mem mem' → stays D D' d →
     last_eaten D' md mv (R ++ [r]) (Some d) → Q mv (with_map m md s)) →
  wp (place_node d (Layout.version ri) 0) s Q.
Proof.
  intros Hm Hd Hnd Hr Hp Hmd HQ. unfold place_node. apply wp_bind, wp_on_frags. eapply wp_dget; [exact (inode_state _ _ _ _ _ (mp_inode _ _ _ _ _ _ Hm))|exact Hd|].
  fold (with_frags (frags_of s) (tns s)). replace (with_tns (with_frags (frags_of s) (tns s)) s) with s by (by destruct s as [[? ? ?]]).
  cbn [Frag.dsize]. unfold truthy. destruct (Z.eqb_spec (dsize ri) 0) as [Hz|Hz]; cbn [negb].
  - apply wp_bind, wp_puts, wp_ret. replace (with_metadata (Some d) s) with (with_map (frags_of s) (Some d) s) by (by destruct s as [[? ? ?]]).
    eapply HQ; [by eapply mapped_empty|eapply spends_more; [apply spends_none|lia]|by intros e en _ He _|].
    unfold last_eaten. rewrite last_snoc. eexists. split; [exact Hd|]. cbn [Frag.raw Frag.dsize]. rewrite Hz, Z.eqb_refl. unfold version_of. by rewrite Hnd.
  - apply wp_bind, wp_on_frags. eapply wp_add_next; [exact Hm|exact Hd|reflexivity|reflexivity|exact Hr|exact Hz|exact Hp|].
    intros m fs' D' mem' lg' dn' Hm' Hs' Hst Hdn' Hraw Hsz. apply wp_ret.
    replace (with_tns (with_frags m (tns s)) s) with (with_map m None s) by (unfold with_map; rewrite <-Hmd; by destruct s as [[? ? ?]]).
    eapply HQ; [exact Hm'|exact Hs'|exact Hst|]. unfold last_eaten. rewrite last_snoc. exists dn'. rewrite (proj2 (Z.eqb_neq _ _) Hsz). done.
Qed.
Lemma pending_stays t t' (D D' : gmap nat full_dnode) L R : Forall2 (pending t D) L R → (∀ x, x ∈ L → VTree.tn_at t' !! x = VTree.tn_at t !! x) →
  (∀ e en, Frag.raw en ∈ R → D !! e = Some en → frags en = 0 → D' !! e = Some en) → Forall2 (pending t' D') L R.
Proof.
  intros H. induction H as [|x r L R (e & ri & cd & Hn & Hx & He) _ IH]; intros Ht HD; constructor.
  - exists e, ri, cd. rewrite Ht by left. split_and!; [done|done|]. apply HD; [by left|done|done].
  - apply IH; [intros y Hy; apply Ht; by right|]. intros e' en Hr. apply HD. by right.
Qed.
Lemma wp_eat_node s fs D mem lg L R1 R2 r d ri cd fn mver (Q : nat * Z → inode_st → Prop) :
  mapped (frags_of s) fs D mem lg R1 → D !! d = Some (FullDnode r (offset ri) (dsize ri) 0) → nd r = Data ri cd → reaches r → plenty 2 mem →
  NoDup (R1 ++ r :: R2) → by_version (R1 ++ r :: R2) → Forall2 (pending (tns s) D) L R2 → last_eaten D (metadata s) mver R1 fn →
  (∀ m fs' D' mem' lg' md mv, mapped m fs' D' mem' lg' (R1 ++ [r]) → spends 2 mem mem' → Forall2 (pending (tns s) D') L R2 →
     last_eaten D' md mv (R1 ++ [r]) (Some d) → Q (d, mv) (with_map m md s)) →
  wp (eat_node d (Layout.version ri) mver) s Q.
Proof.
  intros Hm Hd Hnd Hr Hp Hdis Hver Hpend Hlast HQ. unfold eat_node. apply wp_bind, wp_gets_m.
  apply NoDup_app in Hdis as (_ & Hdis & [Hr2 _]%NoDup_cons).
  assert (∀ e en, Frag.raw en ∈ R2 → D !! e = Some en → e ≠ d) as Hed by (intros e en Hen He ->; rewrite Hd in He; injection He as <-; done).
  destruct (metadata s) as [x|] eqn:Hmd.
  - unfold last_eaten in Hlast. destruct (last R1) as [q|] eqn:Hq, fn as [d0|]; [|done|done|by destruct Hlast].
    destruct Hlast as (dn & Hdn & Hraw & Hlast). destruct (Z.eqb_spec (Frag.dsize dn) 0) as [Hz|]; [|by destruct Hlast]. destruct Hlast as [[= ->] ->].
    apply last_Some in Hq as [R0 ->].
    rewrite (proj2 (Z.leb_le _ _)). 2:{ rewrite <-app_assoc in Hver. cbn in Hver.
      assert (by_version ((R0 ++ [q]) ++ [r])) as Hv.
      { unfold by_version in *. rewrite <-app_assoc. cbn. replace (R0 ++ q :: r :: R2) with ((R0 ++ [q; r]) ++ R2) in Hver by (by rewrite <-app_assoc). by apply StronglySorted_app in Hver as (_ & ? & _). }
      apply by_version_snoc in Hv as [_ Hv]. specialize (Hv q ltac:(set_solver)). unfold version_of at 2 in Hv. by rewrite Hnd in Hv. }
    assert (d0 ≠ d) as Hne. { intros ->. rewrite Hd in Hdn. injection Hdn as <-. cbn in Hraw. apply (Hdis q); [set_solver|rewrite Hraw; left]. }
    apply wp_bind. unfold drop_metadata. apply wp_bind, wp_on_frags. eapply wp_forget_mapped; [exact Hm|exact Hdn|exact Hz|]. intros m lg' Hm'.
    apply wp_puts. apply wp_bind. eapply wp_place_node; [exact Hm'|rewrite lookup_delete_ne by done; exact Hd|exact Hnd|exact Hr|exact Hp|done|].
    intros m2 fs' D' mem' lg2 md mv Hm2 Hs2 Hst Hl. apply wp_ret.
    assert (∀ a b, with_map m2 md (with_metadata a (with_tns (with_frags b (tns s)) s)) = with_map m2 md s) as -> by (intros; by destruct s as [[? ? ?]]).
    eapply HQ; [exact Hm2|exact Hs2| |exact Hl]. eapply (pending_stays _ _ _ _ _ _); [exact Hpend|done|]. intros e en Hen He Hf. apply Hst; [by eapply Hed|rewrite lookup_delete_ne; [done|]|done].
    intros <-. rewrite Hdn in He. injection He as <-. apply (Hdis q); [set_solver|]. rewrite <-Hraw. by right.
  - assert (mver = 0) as ->.
    { unfold last_eaten in Hlast. destruct (last R1), fn; [|done|done|by destruct Hlast]. destruct Hlast as (dn & _ & _ & Hl). destruct (_ =? 0); by destruct Hl. }
    apply wp_bind. eapply wp_place_node; [exact Hm|exact Hd|exact Hnd|exact Hr|exact Hp|exact Hmd|].
    intros m2 fs' D' mem' lg2 md mv Hm2 Hs2 Hst Hl. apply wp_ret. eapply HQ; [exact Hm2|exact Hs2| |exact Hl].
    eapply (pending_stays _ _ _ _ _ _); [exact Hpend|done|]. intros e en Hen He Hf. apply Hst; [by eapply Hed|done|done].
Qed.
Lemma wp_tmp {A} (f : VTree.tmp_dnode_info → A) s x t (Q : A → inode_st → Prop) :
  VTree.tn_at (tns s) !! x = Some t → Q (f t) s → wp (on_tns (VTree.tget f (Some x))) s Q.
Proof. intros Ht HQ. apply wp_on_tns. eapply wp_tget; [exact Ht|]. by destruct s. Qed.
Lemma wp_eat_loop fuel : ∀ L2 R2 R1 (s : inode_st) fs D mem lg fn mver fr (Q : ptr → inode_st → Prop),
  mapped (frags_of s) fs D mem lg R1 → remaining (VTree.tn_tree (tns s)) L2 fr → NoDup L2 → Forall2 (pending (tns s) D) L2 R2 →
  Forall reaches R2 → NoDup (R1 ++ R2) → by_version (R1 ++ R2) → last_eaten D (metadata s) mver R1 fn →
  plenty (2 * Z.of_nat (length R2)) mem → (length L2 < fuel)%nat →
  (∀ t fs' D' mem' lg' md mv fn', mapped (VTree.inode t) fs' D' mem' lg' (R1 ++ R2) → spends (2 * Z.of_nat (length R2)) mem mem' →
     last_eaten D' md mv (R1 ++ R2) fn' → Q fn' (with_metadata md (with_tns t s))) →
  wp (eat_loop fuel (head L2) fn mver) s Q.
Proof.
  induction fuel as [|fuel IH]; intros L2 R2 R1 s fs D mem lg fn mver fr Q Hm Hrem Hnd Hpend Hre Hdis Hver Hlast Hp Hfuel HQ; [lia|].
  destruct Hpend as [|x r L2 R2 (d & ri & cd & Hr & Hx & Hd) Hpend]; cbn [eat_loop head non_null negb].
  - apply wp_ret. replace s with (with_metadata (metadata s) (with_tns (tns s) s)) by (by destruct s). rewrite app_nil_r in HQ.
    eapply HQ; [exact Hm|apply spends_none|exact Hlast].
  - apply Forall_cons in Hre as [Hrr Hre]. apply NoDup_cons in Hnd as [Hxl Hnd]. cbn [length] in Hp.
    apply wp_bind. eapply wp_tmp; [exact Hx|]. apply wp_bind. eapply wp_tmp; [exact Hx|]. cbn [VTree.fn VTree.version].
    apply wp_bind. eapply wp_eat_node; [exact Hm|exact Hd|exact Hr|exact Hrr|eapply plenty_less; [exact Hp|lia]|exact Hdis|exact Hver|exact Hpend|exact Hlast|].
    intros m fs' D' mem' lg' md mv Hm' Hs' Hpend' Hlast'. cbv beta iota. apply wp_bind, wp_on_tns.
    eapply wp_spend; [exact Hrem|by eexists|]. intros t Ht Htn Hin.
    rewrite !(cons_middle r R1 R2), (app_assoc R1 [r] R2) in Hdis, Hver. eapply (IH L2 R2 (R1 ++ [r])).
    + unfold frags_of. cbn [tns with_tns]. rewrite Hin. exact Hm'.
    + exact Ht.
    + exact Hnd.
    + eapply pending_stays; [exact Hpend'| |done]. intros y Hy. cbn [tns with_tns]. rewrite Htn, lookup_delete_ne; [done|]. by intros ->.
    + exact Hre.
    + exact Hdis.
    + exact Hver.
    + exact Hlast'.
    + replace (2 * Z.of_nat (length R2)) with (2 * Z.of_nat (S (length R2)) - 2) by lia. apply Hs'; [exact Hp|lia].
    + cbn [length] in Hfuel. lia.
    + intros t2 fs2 D2 mem2 lg2 md2 mv2 fn2 Hm2 Hs2 Hl2. rewrite <-app_assoc in Hm2, Hl2. cbn [app] in Hm2, Hl2.
      replace (with_metadata md2 (with_tns t2 (with_tns t (with_map m md s)))) with (with_metadata md2 (with_tns t2 s)) by (by destruct s).
      eapply HQ; [exact Hm2| |exact Hl2]. cbn [length]. replace (2 * Z.of_nat (S (length R2))) with (2 + 2 * Z.of_nat (length R2)) by lia.
      eapply spends_trans; [exact Hs'|exact Hs2|lia].
Qed.
End Eating.

Section Reading.
Import Rb Frag Layout Dirent Mount.
Context {F : Type} `{!Mtd F}.
Context (full_name_hash : list Z → Z) (sector_size : Z) (read_only : bool) (stack_node : list Z) (rb_first : heap → ptr).
Context (Hstack : length stack_node = 68%nat).
Context (Hfirst : ∀ h L fr, whole L fr h → rb_first h = head L).
Context (nd : nat → found).
Abbreviation inode_st := (Mount.st (F := F)).
Abbreviation cell := (nat * node_frag)%type.
Context (s0 : inode_st) (mem0 : list bool).
Abbreviation live := (valid s0).
Abbreviation found_inv := (inv full_name_hash nd s0 mem0).
Abbreviation ready := (starts full_name_hash sector_size nd s0 mem0).

Lemma known_length (m : gmap nat VTree.tmp_dnode_info) L : NoDup L → Forall (λ x, is_Some (m !! x)) L → (length L ≤ base.size m)%nat.
Proof.
  intros Hn Hk. rewrite <-size_dom, <-(size_list_to_set (C := gset nat) L) by done. apply subseteq_size. intros x Hx%elem_of_list_to_set.
  rewrite Forall_forall in Hk. by apply elem_of_dom, Hk.
Qed.
(** The order of the tree is that of the versions on the flash. *)
Lemma tree_by_version (t : VTree.st) D L R :
  Forall2 (pending nd t D) L R → StronglySorted (λ a b, ver t a <= ver t b) L → by_version nd R.
Proof.
  induction 1 as [|x r L R (d & ri & cd & Hn & Hx & _) HF IH]; intros Hs; [constructor|].
  apply StronglySorted_inv in Hs as [Hs Hall]. constructor; [by apply IH|]. clear -Hn Hx HF Hall.
  induction HF as [|y q L R (e & rj & ce & Hq & Hy & _) HF IH]; constructor.
  - apply Forall_cons in Hall as [Hxy _]. unfold ver in Hxy. rewrite Hx, Hy in Hxy. unfold version_of. by rewrite Hn, Hq.
  - apply IH. by apply Forall_cons in Hall as [_ ?].
Qed.
Lemma formed_dsize ri : well_formed ri → 0 <= dsize ri.
Proof. intros H. pose proof (Forall2_lookup_lr _ _ _ 15 _ _ H eq_refl eq_refl) as [? _]. done. Qed.
Lemma formed_isize ri : well_formed ri → 0 <= isize ri.
Proof. intros H. pose proof (Forall2_lookup_lr _ _ _ 9 _ _ H eq_refl eq_refl) as [? _]. done. Qed.

Lemma live_good r : ready → r ∈ live → ∃ o fl tl, refs s0 !! r = Some (Ref o fl tl) ∧
  match nd r with Data ri cd => data_good sector_size (blocks s0) (flash s0) o tl ri cd | Name rd nm => name_good full_name_hash (flash s0) o fl tl r rd nm end.
Proof. intros Hst [Ha Hin]%list_elem_of_filter. by apply (sa_readable _ _ _ _ _ Hst r Hin). Qed.
Lemma data_live r : ready → r ∈ datas nd live → ∃ o fl tl ri cd, refs s0 !! r = Some (Ref o fl tl) ∧ nd r = Data ri cd ∧
  data_good sector_size (blocks s0) (flash s0) o tl ri cd.
Proof.
  intros Hst [Hd Hin]%list_elem_of_filter. destruct (live_good r Hst Hin) as (o & fl & tl & Hr & Hg). unfold is_data in Hd.
  destruct (nd r) as [ri cd|]; [|done]. by exists o, fl, tl, ri, cd.
Qed.
Lemma data_reaches r : ready → r ∈ datas nd live → reaches nd r.
Proof.
  intros Hst Hr. destruct (data_live r Hst Hr) as (o & fl & tl & ri & cd & _ & Hn & Hg). unfold reaches. rewrite Hn.
  split_and!; [by eapply formed_offset, dg_formed|by eapply formed_dsize, dg_formed|by eapply dg_end].
Qed.
(** What reading the nodes leaves of the rest. *)
Record kept (s : inode_st) : Prop := {
  kp_rest : chain s = chain s0 ∧ flash s = flash s0 ∧ target s = target s0;
  kp_found : ret_fd s = replay (names full_name_hash nd live);
  kp_offsets : ∀ q v, refs s0 !! q = Some v → ∃ v', refs s !! q = Some v' ∧ r_offset v' = r_offset v;
  kp_highest : highest_version s = foldl Z.max (highest_version s0) (version_of nd <$> live) }.
Lemma inv_kept s : found_inv s live → kept s.
Proof.
  intros Hi. destruct (in_rest _ _ _ _ _ _ Hi) as (? & ? & _ & _ & _ & ?). split; [done|apply (in_found _ _ _ _ _ _ Hi)|apply (in_offsets _ _ _ _ _ _ Hi)|apply (in_highest _ _ _ _ _ _ Hi)].
Qed.
Lemma kept_same s s' : kept s → chain s' = chain s → flash s' = flash s → target s' = target s → ret_fd s' = ret_fd s →
  refs s' = refs s → highest_version s' = highest_version s → kept s'.
Proof. intros [(? & ? & ?) ? ? ?] ? ? ? ? Hr ?. split; [split_and!; congruence|congruence|by rewrite Hr|congruence]. Qed.
Definition nodes_read (s : inode_st) : Prop :=
  ∃ L R D mem lg, loaded nd s L R D mem lg ∧ R ≡ₚ datas nd live ∧ spends (3 * Z.of_nat (length live)) mem0 mem.

(** The nodes in the order in which they are eaten. *)
Record order (R : list nat) : Prop := { or_perm : R ≡ₚ datas nd live; or_version : by_version nd R; or_distinct : NoDup R }.
Lemma order_length R : order R → (length R ≤ length live)%nat.
Proof. intros [Hp _ _]. rewrite (Permutation_length Hp). apply length_filter. Qed.
Lemma wp_build (s : inode_st) (Q : ptr → inode_st → Prop) :
  ready → metadata s = None → nodes_read s → plenty (5 * Z.of_nat (length live)) mem0 →
  (∀ t fs D mem lg R md mv fn, order R → mapped nd (VTree.inode t) fs D mem lg R → last_eaten nd D md mv R fn →
     spends (5 * Z.of_nat (length live)) mem0 mem → Q fn (with_metadata md (with_tns t s))) →
  wp (on_tns (λ t, Some (rb_first (VTree.tn_tree t), t))) s
    (λ rb s, wp (λ s, eat_loop (S (base.size (VTree.tn_at (tns s)))) rb None 0 s) s Q).
Proof.
  intros Hst Hmd Hi Hp HQ. destruct Hi as (L & R & D & mem & lg & [Htree Hmap Hnodes Hdis Honly] & HR & Hs).
  destruct Htree as (Hw & Hk & Hsort). assert (Forall2 (pending nd (tns s) D) L R) as Hpend by exact Hnodes.
  pose proof (tree_by_version _ _ _ _ Hpend Hsort) as Hver.
  assert (order R) as Ho by done.
  apply wp_on_tns. unfold wp at 1. replace (with_tns (tns s) s) with s by (by destruct s). rewrite (Hfirst _ _ _ Hw).
  destruct (whole_remaining _ _ _ Hw) as [q Hrem]. pose proof (order_length R Ho) as Hlen.
  change (wp (eat_loop (S (base.size (VTree.tn_at (tns s)))) (head L) None 0) s Q).
  eapply (wp_eat_loop nd _ L R []); [|exact Hrem|by eapply whole_nodup|exact Hpend| |exact Hdis|exact Hver| | | |].
  - split; [exact Hmap|exact Honly| |done]. intros off Hoff. cbn. by rewrite (proj2 (Z.ltb_ge _ _)).
  - rewrite Forall_forall. intros r Hr. apply data_reaches; [done|]. by rewrite <-HR.
  - unfold last_eaten. by cbn.
  - eapply plenty_less; [apply (Hs _ Hp); lia|lia].
  - pose proof (known_length _ _ (whole_nodup _ _ _ Hw) Hk). lia.
  - intros t fs' D' mem' lg' md mv fn' Hm' Hs' Hl'. eapply HQ; [exact Ho|exact Hm'|exact Hl'|].
    eapply spends_more; [eapply spends_trans; [exact Hs|exact Hs'|lia]|lia].
Qed.

(** The inode once its nodes are in memory; [fn] is the last of them. *)
Record built (s : inode_st) (fs : list cell) (D : gmap nat full_dnode) (mem : list bool) (lg : list event) (R : list nat) (fn : ptr) : Prop := {
  bu_order : order R;
  bu_map : mapped nd (frags_of s) fs D mem lg R;
  bu_last : ∃ mv, last_eaten nd D (metadata s) mv R fn;
  bu_kept : kept s;
  bu_icache : icache s = icache s0;
  bu_dents : dents s = replay (names full_name_hash nd live);
  bu_memory : spends (5 * Z.of_nat (length live)) mem0 mem }.
Abbreviation read_inode := (jffs2_do_read_inode_internal full_name_hash sector_size read_only stack_node rb_first).
Definition go_on (fn : ptr) (latest : raw_inode) : SM inode_st (Z * raw_inode) :=
  match fn with
  | None => no_nodes latest
  | Some fn =>
      r ← on_map (Frag.dget Frag.raw (Some fn));
      o ← rget r_offset r;
      '(ret, got) ← jffs2_flash_read o sizeof_raw_inode;
      if truthy ret || negb (Z.of_nat (length got) =? sizeof_raw_inode) then drop_inode (if truthy ret then ret else - EIO) latest
      else
        let latest := inode_of_bytes got in
        if negb (inode_crc got =? Layout.node_crc latest) then drop_inode (- EIO) latest
        else finish_inode rb_first fn latest
  end.
Lemma wp_read_inode latest (Q : Z * raw_inode → inode_st → Prop) :
  ready → metadata s0 = None → plenty (5 * Z.of_nat (length live)) mem0 →
  (∀ s fs D mem lg R fn, built s fs D mem lg R fn → wp (go_on fn latest) s Q) → wp (read_inode latest) s0 Q.
Proof.
  intros Hst Hmd Hp HQ. unfold jffs2_do_read_inode_internal. apply wp_bind.
  eapply wp_get_inode_nodes; [exact Hstack|exact Hst|eapply plenty_less; [exact Hp|lia]|]. intros s Hi. change (truthy 0) with false. cbv iota.
  apply wp_bind, wp_gets_m, wp_bind, wp_puts. set (s1 := with_dents (ret_fd s) s).
  assert (metadata s1 = None) as Hmd1 by (destruct (in_rest _ _ _ _ _ _ Hi) as (_ & _ & _ & Hm & _); cbn; congruence).
  assert (nodes_read s1) as Hr1.
  { destruct (in_loaded _ _ _ _ _ _ Hi) as (L & R & D & mem & lg & Hl & ?). exists L, R, D, mem, lg. split; [by apply (loaded_same nd s)|done]. }
  apply wp_bind. eapply wp_mono; [intros rb s2 H; apply wp_bind; exact H|]. cbv beta.
  eapply (wp_build s1 (λ fn s, wp (go_on fn latest) s Q)); [exact Hst|exact Hmd1|exact Hr1|exact Hp|].
  intros t fs D mem lg R md mv fn Ho Hm Hl Hs. eapply HQ. split; [exact Ho|exact Hm|by exists mv| | | |exact Hs].
  - by apply (kept_same s); [apply inv_kept|..].
  - by destruct (in_rest _ _ _ _ _ _ Hi) as (_ & _ & ? & _).
  - cbn. by rewrite (in_found _ _ _ _ _ _ Hi).
Qed.

Lemma built_last s fs D mem lg R fn : built s fs D mem lg R fn →
  (R = [] ∧ fn = None) ∨ ∃ R' r d dn, R = R' ++ [r] ∧ fn = Some d ∧ D !! d = Some dn ∧ Frag.raw dn = r.
Proof.
  intros [_ _ [mv Hl] _ _ _ _]. unfold last_eaten in Hl. destruct (last R) as [r|] eqn:Hr, fn as [d|]; try done.
  - apply last_Some in Hr as [R' ->]. destruct Hl as (dn & Hd & Hraw & _). right. by exists R', r, d, dn.
  - left. by apply last_None in Hr.
Qed.
Lemma wp_inode_dget {A} (f : full_dnode → A) s fs D mem lg d dn (Q : A → inode_st → Prop) :
  inode (frags_of s) fs D mem lg → D !! d = Some dn → Q (f dn) s → wp (on_map (Frag.dget f (Some d))) s Q.
Proof.
  intros Hi Hd HQ. apply wp_on_frags. eapply wp_dget; [apply (inode_state _ _ _ _ _ Hi)|exact Hd|]. by destruct s as [[? ? ?]].
Qed.
(** The last node is read once more. *)
Lemma wp_go_on s fs D mem lg R d dn r ri cd latest (Q : Z * raw_inode → inode_st → Prop) :
  ready → built s fs D mem lg R (Some d) → D !! d = Some dn → Frag.raw dn = r → r ∈ R → nd r = Data ri cd →
  wp (finish_inode rb_first d ri) s Q → wp (go_on (Some d) latest) s Q.
Proof.
  intros Hst Hb Hd Hraw Hin Hnd HQ. unfold go_on. apply wp_bind. eapply wp_inode_dget; [apply (mp_inode _ _ _ _ _ _ _ (bu_map _ _ _ _ _ _ _ Hb))|exact Hd|].
  rewrite Hraw. rewrite (or_perm _ (bu_order _ _ _ _ _ _ _ Hb)) in Hin. destruct (data_live r Hst Hin) as (o & fl & tl & ri' & cd' & Href & Hnd' & Hg).
  assert (ri' = ri ∧ cd' = cd) as [-> ->] by (rewrite Hnd in Hnd'; by injection Hnd').
  destruct (kp_offsets _ (bu_kept _ _ _ _ _ _ _ Hb) _ _ Href) as (v & Hv & Ho). cbn in Ho.
  apply wp_bind. eapply wp_rget; [exact Hv|]. rewrite Ho. destruct (kp_rest _ (bu_kept _ _ _ _ _ _ _ Hb)) as (_ & Hfl & _).
  apply wp_bind, wp_read_flash; [rewrite Hfl; apply (sa_flash _ _ _ _ _ Hst)|done|]. intros got Hread Hlen. rewrite Hlen, Z.eqb_refl.
  change (truthy 0) with false. cbv iota zeta. cbn [negb orb]. rewrite Hfl in Hread.
  assert (got = inode_bytes ri) as ->.
  { pose proof (length_inode_bytes ri) as H68. rewrite (stored_read _ _ _ 0 sizeof_raw_inode got (dg_stored _ _ _ _ _ _ _ Hg)); [|lia|done|rewrite length_app, H68; unfold sizeof_raw_inode; lia|by rewrite Z.add_0_r|done].
    rewrite drop_0. unfold sizeof_raw_inode. change (Z.to_nat 68) with 68%nat. by rewrite take_app_length' by done. }
  assert (inode_of_bytes (inode_bytes ri) = ri) as ->.
  { pose proof (inode_of_bytes_bytes ri [] (dg_formed _ _ _ _ _ _ _ Hg)) as H. by rewrite app_nil_r in H. }
  rewrite (dg_crc _ _ _ _ _ _ _ Hg), Z.eqb_refl. cbn [negb]. exact HQ.
Qed.
Lemma wp_present latest s (Q : Z * raw_inode → inode_st → Prop) :
  (∀ ic, (ic = if c_state (icache s) =? INO_STATE_READING then Mount.Cache (Mount.c_ino (icache s)) (Mount.c_nlink (icache s)) INO_STATE_PRESENT (cached (icache s)) else icache s) →
     Q (0, latest) (with_icache ic s)) → wp (present latest) s Q.
Proof.
  intros HQ. unfold present, set_state_if_reading. apply wp_bind, wp_bind, wp_gets_m. destruct (c_state (icache s) =? INO_STATE_READING) eqn:He.
  - apply wp_bind, wp_gets_m, wp_puts, wp_ret. by apply HQ.
  - apply wp_ret, wp_ret. specialize (HQ (icache s) eq_refl). by destruct s.
Qed.

(** *** Files and directories *)

Definition latest_node (r : nat) : Prop := r ∈ datas nd live ∧ ∀ q, q ∈ datas nd live → q ≠ r → version_of nd q < version_of nd r.
Definition newest_cover (off : Z) (q : nat) : Prop :=
  q ∈ datas nd live ∧ covers nd off q ∧ ∀ p, p ∈ datas nd live → covers nd off p → version_of nd p <= version_of nd q.
(** The inode [s] of size [size]: at every offset below it the newest node that covers the offset. *)
Record mounted (s : inode_st) (size : Z) (fs : list cell) (D : gmap nat full_dnode) (mem : list bool) : Prop := {
  mo_inode : ∃ lg, inode (frags_of s) fs D mem lg;
  mo_content : ∀ off, 0 <= off →
    match content fs off with
    | Some (Some d) => off < size ∧ ∃ dn, D !! d = Some dn ∧ newest_cover off (Frag.raw dn)
    | _ => size <= off ∨ ∀ q, q ∈ datas nd live → ¬ covers nd off q
    end;
  mo_extent : ∀ q, q ∈ datas nd live → Z.min size (node_end nd q) <= extent 0 fs;
  mo_known : ∀ d dn, D !! d = Some dn → described nd dn;
  mo_kept : kept s;
  mo_dents : dents s = replay (names full_name_hash nd live);
  mo_icache : icache s = if c_state (icache s0) =? INO_STATE_READING
    then Mount.Cache (Mount.c_ino (icache s0)) (Mount.c_nlink (icache s0)) INO_STATE_PRESENT (cached (icache s0)) else icache s0;
  mo_memory : spends (5 * Z.of_nat (length live)) mem0 mem }.
Lemma order_last R r : order R → latest_node r → ∃ R', R = R' ++ [r].
Proof.
  intros [Hp Hv Hn] [Hr Hmax]. destruct (last R) as [q|] eqn:Hq.
  - apply last_Some in Hq as [R' ->]. exists R'. destruct (decide (q = r)) as [->|Hne]; [done|exfalso].
    apply by_version_snoc in Hv as [_ Hv]. rewrite <-Hp in Hr. apply elem_of_app in Hr as [Hr|Hr%list_elem_of_singleton]; [|done].
    specialize (Hv r Hr). specialize (Hmax q). rewrite <-Hp in Hmax. specialize (Hmax ltac:(set_solver) Hne). lia.
  - apply last_None in Hq as ->. rewrite <-Hp in Hr. by apply not_elem_of_nil in Hr.
Qed.
(** The map built from the nodes in order, seen without the order. *)
Lemma mapped_newest m fs D mem lg R off : order R → mapped nd m fs D mem lg R → 0 <= off →
  match content fs off with
  | Some (Some d) => ∃ dn, D !! d = Some dn ∧ newest_cover off (Frag.raw dn)
  | _ => ∀ q, q ∈ datas nd live → ¬ covers nd off q
  end.
Proof.
  intros [Hp Hv Hn] Hm Hoff. pose proof (mp_content _ _ _ _ _ _ _ Hm off Hoff) as Hc. destruct (newest_at nd R off) as [r|] eqn:Hr.
  - destruct Hc as (d & dn & -> & Hd & Hraw). exists dn. split; [done|]. rewrite Hraw. destruct (newest_at_in _ _ _ _ Hr) as [Hin Hcov].
    split_and!; [by rewrite <-Hp|done|]. intros q Hq Hqc. rewrite <-Hp in Hq. by eapply newest_at_newest.
  - assert (∀ q, q ∈ datas nd live → ¬ covers nd off q) as Hno by (intros q Hq; rewrite <-Hp in Hq; by eapply newest_at_none).
    rewrite Hc. by destruct (off <? furthest nd R).
Qed.
Lemma built_go_on latest r ri cd (Q : Z * raw_inode → inode_st → Prop) :
  ready → metadata s0 = None → plenty (5 * Z.of_nat (length live)) mem0 → latest_node r → nd r = Data ri cd →
  (∀ s fs D mem lg R d, built s fs D mem lg R (Some d) → wp (finish_inode rb_first d ri) s Q) → wp (read_inode latest) s0 Q.
Proof.
  intros Hst Hmd Hp Hr Hnd HQ. apply wp_read_inode; [done..|]. intros s fs D mem lg R fn Hb.
  destruct (order_last _ _ (bu_order _ _ _ _ _ _ _ Hb) Hr) as [R' HR].
  destruct (built_last _ _ _ _ _ _ _ Hb) as [[-> _]|(R2 & r' & d & dn & HR2 & -> & Hd & Hraw)]; [by destruct R'|].
  rewrite HR in HR2. apply app_inj_tail in HR2 as [<- <-]. eapply wp_go_on; [exact Hst|exact Hb|exact Hd|exact Hraw|set_solver|exact Hnd|]. by eapply HQ.
Qed.
Lemma wp_mount_file latest r ri cd (Q : Z * raw_inode → inode_st → Prop) :
  ready → metadata s0 = None → plenty (5 * Z.of_nat (length live)) mem0 → latest_node r → nd r = Data ri cd → (mode ri &&& S_IFMT) = S_IFREG →
  (∀ s fs D mem, mounted s (isize ri) fs D mem → Q (0, ri) s) → wp (read_inode latest) s0 Q.
Proof.
  intros Hst Hmd Hp Hr Hnd Hmode HQ. eapply built_go_on; [done..|]. intros s fs D mem lg R d Hb.
  unfold finish_inode. rewrite Hmode. change (S_IFREG =? S_IFDIR) with false. change (S_IFREG =? S_IFREG) with true. cbv iota.
  destruct (data_live r Hst (proj1 Hr)) as (o & fl & tl & ri' & cd' & _ & Hnd' & Hg). assert (ri' = ri) as -> by (rewrite Hnd in Hnd'; by injection Hnd').
  pose proof (formed_isize _ (dg_formed _ _ _ _ _ _ _ Hg)) as Hsz. pose proof (bu_map _ _ _ _ _ _ _ Hb) as Hm.
  apply wp_bind, wp_on_frags. eapply wp_truncate; [exact (mp_inode _ _ _ _ _ _ _ Hm)|exact Hsz|]. intros m D' es Hi' Hev.
  apply wp_present. intros ic Hic. apply (HQ _ (taken (isize ri) fs) D' mem). split; [by eexists| | | |by apply (kept_same s); [apply Hb|..]|apply (bu_dents _ _ _ _ _ _ _ Hb)| |apply (bu_memory _ _ _ _ _ _ _ Hb)].
  - intros off Hoff. rewrite (taken_content _ 0) by apply (inode_tiled _ _ _ _ _ (mp_inode _ _ _ _ _ _ _ Hm)).
    destruct (Z.ltb_spec off (isize ri)) as [Hlt|]; [|by left]. pose proof (mapped_newest _ _ _ _ _ _ off (bu_order _ _ _ _ _ _ _ Hb) Hm Hoff) as Hc.
    destruct (content fs off) as [[d0|]|] eqn:Hcd; [|by right|by right]. split; [done|]. destruct Hc as (dn & Hd & Hn).
    assert (content (taken (isize ri) fs) off = Some (Some d0)) as Hcd' by (rewrite (taken_content _ 0) by apply (inode_tiled _ _ _ _ _ (mp_inode _ _ _ _ _ _ _ Hm)); by rewrite (proj2 (Z.ltb_lt _ _))).
    destruct (content_known _ _ _ _ (inode_counted _ _ _ _ _ Hi') Hcd') as [dn' Hd']. destruct (evolves_back _ _ _ _ _ Hev Hd') as (dn2 & Hd2 & Hraw & _).
    rewrite Hd in Hd2. injection Hd2 as <-. exists dn'. by rewrite Hraw.
  - intros q Hq. destruct (taken_tiled (isize ri) _ _ (inode_tiled _ _ _ _ _ (mp_inode _ _ _ _ _ _ _ Hm))) as [_ ->].
    rewrite (mp_extent _ _ _ _ _ _ _ Hm). rewrite <-(or_perm _ (bu_order _ _ _ _ _ _ _ Hb)) in Hq. pose proof (furthest_end nd _ _ Hq). lia.
  - intros e en He. destruct (evolves_back _ _ _ _ _ Hev He) as (en0 & Hen0 & ? & ? & ? & _). eapply described_same; [by apply (mp_known _ _ _ _ _ _ _ Hm e)|done..].
  - cbn. rewrite Hic. cbn. by rewrite (bu_icache _ _ _ _ _ _ _ Hb).
Qed.
Definition all_dirs : Prop := ∀ r ri cd, r ∈ datas nd live → nd r = Data ri cd → (mode ri &&& S_IFMT) = S_IFDIR.
Record mounted_dir (s : inode_st) : Prop := {
  md_dents : dents s = replay (names full_name_hash nd live);
  md_highest : highest_version s = foldl Z.max (highest_version s0) (version_of nd <$> live);
  md_icache : icache s = if c_state (icache s0) =? INO_STATE_READING
    then Mount.Cache (Mount.c_ino (icache s0)) (Mount.c_nlink (icache s0)) INO_STATE_PRESENT (cached (icache s0)) else icache s0 }.
Lemma wp_present_dir latest s fs D mem lg R fn (Q : Z * raw_inode → inode_st → Prop) :
  built s fs D mem lg R fn → (∀ s', mounted_dir s' → Q (0, latest) s') → wp (present latest) s Q.
Proof.
  intros Hb HQ. apply wp_present. intros ic Hic. apply HQ. split; cbn.
  - apply (bu_dents _ _ _ _ _ _ _ Hb).
  - apply (kp_highest _ (bu_kept _ _ _ _ _ _ _ Hb)).
  - by rewrite Hic, (bu_icache _ _ _ _ _ _ _ Hb).
Qed.
Lemma wp_mount_dir latest (Q : Z * raw_inode → inode_st → Prop) :
  ready → metadata s0 = None → plenty (5 * Z.of_nat (length live)) mem0 → all_dirs →
  (datas nd live = [] → Mount.c_ino (icache s0) = 1 ∨ replay (names full_name_hash nd live) ≠ []) →
  (∀ l s, mounted_dir s → (mode l &&& S_IFMT) = S_IFDIR → Q (0, l) s) → wp (read_inode latest) s0 Q.
Proof.
  intros Hst Hmd Hp Hdirs Hnone HQ. apply wp_read_inode; [done..|]. intros s fs D mem lg R fn Hb.
  pose proof (or_perm _ (bu_order _ _ _ _ _ _ _ Hb)) as HR. destruct (built_last _ _ _ _ _ _ _ Hb) as [[-> ->]|(R' & r & d & dn & -> & -> & Hd & Hraw)].
  - unfold go_on, no_nodes. apply wp_bind, wp_gets_m, wp_bind, wp_gets_m. rewrite (bu_icache _ _ _ _ _ _ _ Hb), (kp_found _ (bu_kept _ _ _ _ _ _ _ Hb)).
    apply Permutation_nil_l in HR. destruct (Hnone (eq_sym HR)) as [-> | Hne].
    + cbn [Z.eqb Pos.eqb negb andb]. eapply wp_present_dir; [exact Hb|]. intros s' Hs'. by apply HQ.
    + replace (match replay (names full_name_hash nd live) with [] => true | _ :: _ => false end) with false by (by destruct (replay _)).
      rewrite andb_false_r. eapply wp_present_dir; [exact Hb|]. intros s' Hs'. by apply HQ.
  - assert (r ∈ datas nd live) as Hin by (rewrite <-HR; set_solver). destruct (data_live r Hst Hin) as (_ & _ & _ & ri & cd & _ & Hnd & _).
    eapply wp_go_on; [exact Hst|exact Hb|exact Hd|exact Hraw|set_solver|exact Hnd|]. pose proof (Hdirs r ri cd Hin Hnd) as Hmode.
    unfold finish_inode. rewrite Hmode. change (S_IFDIR =? S_IFDIR) with true. cbv iota. apply wp_bind, wp_gets_m, wp_bind, wp_gets_m.
    eapply wp_present_dir; [exact Hb|]. intros s' Hs'. apply HQ; [done|]. by destruct (_ <? _).
Qed.
End Reading.
