(* ===== verification/Jffs2Remount.v ===== *)
(** * Jffs2Remount: what a directory and a file are after the next mount (fs/jffs2/readinode.c, read.c, dir.c)

    The reading of an inode composed with the operations that wrote its nodes: a directory shows the
    names it showed before, and a file reads as the newest node that covers each byte. *)

From stdpp Require Import sorting.
From S2P Require Import Prelude Rbtree Jffs2Frag Jffs2Rtime Jffs2Rubin Jffs2Compr Crc32 Jffs2Node Jffs2File Jffs2Write Jffs2Io Jffs2Dir Jffs2Version Jffs2Mount Jffs2Inode.

Section Remount.
Import Rb Frag Layout Dirent Mount.
Context {F : Type} `{!Mtd F}.
Context (full_name_hash : list Z → Z) (sector_size : Z) (read_only : bool) (stack_node : list Z) (rb_first : heap → ptr).
Context (Hstack : length stack_node = 68%nat).
Context (Hfirst : ∀ h L fr, whole L fr h → rb_first h = head L).
Abbreviation inode_st := (Mount.st (F := F)).
Abbreviation read_inode := (jffs2_do_read_inode_internal full_name_hash sector_size read_only stack_node rb_first).

(** *** The bytes of a file *)

Section Bytes.
Context (nd : nat → found) (s0 : inode_st) (mem0 : list bool).
Abbreviation live := (valid s0).
Context (codes : list Compr.jffs2_compressor) (bytes_of : nat → list Z).
(** What is written in the nodes, [bytes_of], can be read. *)
Definition decodes : Prop := ∀ q o fl tl ri cd, q ∈ datas nd live → refs s0 !! q = Some (Ref o fl tl) → nd q = Data ri cd → 0 < dsize ri →
  node_at codes (flash s0) o (offset ri) (bytes_of q) ri cd.
(** The byte of the file at [off]: that of the newest node that covers it. *)
Definition file_byte (size off v : Z) : Prop :=
  (off < size ∧ ∃ q ri cd, newest_cover nd s0 off q ∧ nd q = Data ri cd ∧ v = nth (Z.to_nat (off - offset ri)) (bytes_of q) 0) ∨
  ((size <= off ∨ ∀ q, q ∈ datas nd live → ¬ covers nd off q) ∧ v = 0).
(** The inode as [jffs2_read_inode_range] takes it. *)
Definition as_file (s : inode_st) (c : Compr.st) (space : list (Z * Z * Z)) : Node.st :=
  Node.St (frags_of s) (metadata s) (highest_version s) (r_offset <$> refs s) (chain s) (flash s) c space.
Definition data_of (D : gmap nat full_dnode) (d : nat) : list Z := match D !! d with Some dn => bytes_of (Frag.raw dn) | None => [] end.
Lemma mounted_opened s size fs D mem c space :
  starts full_name_hash sector_size nd s0 mem0 → decodes → codecs_ok codes c → bounded (flash s0) →
  mounted full_name_hash nd s0 mem0 s size fs D mem → ∃ lg, opened codes (as_file s c space) fs D mem lg (data_of D).
Proof.
  intros Hst Hdec Hc Hb Hm. destruct (mo_inode _ _ _ _ _ _ _ _ _ Hm) as [lg Hi]. exists lg.
  destruct (kp_rest _ _ _ _ (mo_kept _ _ _ _ _ _ _ _ _ Hm)) as (_ & Hfl & _).
  assert (∀ off d, content fs off = Some (Some d) → 0 <= off) as Hpos.
  { intros off d H. destruct (Z.lt_ge_cases off 0); [|done]. rewrite (content_outside 0) in H; [done|apply (inode_tiled _ _ _ _ _ Hi)|by left]. }
  assert (∀ off d, content fs off = Some (Some d) → ∃ dn o fl tl ri cd, D !! d = Some dn ∧ Frag.raw dn ∈ datas nd live ∧ refs s0 !! Frag.raw dn = Some (Ref o fl tl) ∧
    nd (Frag.raw dn) = Data ri cd ∧ dofs dn = offset ri ∧ Frag.dsize dn = dsize ri ∧ offset ri <= off < offset ri + dsize ri) as Howner.
  { intros off d Hd. pose proof (mo_content _ _ _ _ _ _ _ _ _ Hm off (Hpos off d Hd)) as H. rewrite Hd in H. destruct H as (_ & dn & Hdn & Hin & Hcov & _).
    destruct (data_live _ _ _ _ _ _ Hst Hin) as (o & fl & tl & ri & cd & Hr & Hnd & _).
    destruct (mo_known _ _ _ _ _ _ _ _ _ Hm _ _ Hdn) as (ri' & cd' & Hnd' & Ho & Hs). rewrite Hnd in Hnd'. injection Hnd' as <- <-.
    exists dn, o, fl, tl, ri, cd. rewrite (covers_data nd _ _ _ _ Hnd) in Hcov. destruct Hcov. by split_and!. }
  split; [exact Hi|exact Hc|by cbn; rewrite Hfl| |].
  - intros d dn Hd Hf. apply (inode_refers _ _ _ _ _ _ _ Hi Hd) in Hf as [off Hoff].
    destruct (Howner off d Hoff) as (dn' & o & fl & tl & ri & cd & Hd' & Hin & Hr & Hnd & Ho & Hs & Hcov). rewrite Hd in Hd'. injection Hd' as <-.
    destruct (kp_offsets _ _ _ _ (mo_kept _ _ _ _ _ _ _ _ _ Hm) _ _ Hr) as (v & Hv & Hvo). exists o, ri, cd. cbn [as_file Node.ref_at Node.flash].
    rewrite lookup_fmap, Hv, Hfl. split; [cbn; by rewrite Hvo|]. split; [|done]. rewrite Ho. unfold data_of. rewrite Hd. eapply Hdec; [exact Hin|exact Hr|exact Hnd|lia].
  - intros off d Hoff. destruct (Howner off d Hoff) as (dn & o & fl & tl & ri & cd & Hd & _ & _ & _ & Ho & Hs & Hcov). exists dn. split; [done|lia].
Qed.
Lemma mounted_byte s size fs D mem off : mounted full_name_hash nd s0 mem0 s size fs D mem → 0 <= off → file_byte size off (byte_at fs D (data_of D) off).
Proof.
  intros Hm Hoff. pose proof (mo_content _ _ _ _ _ _ _ _ _ Hm off Hoff) as H. unfold byte_at. destruct (content fs off) as [[d|]|]; [|by right|by right].
  destruct H as (Hlt & dn & Hd & Hn). left. split; [done|]. destruct (mo_known _ _ _ _ _ _ _ _ _ Hm _ _ Hd) as (ri & cd & Hnd & Ho & _).
  exists (Frag.raw dn), ri, cd. unfold data_of. by rewrite Hd, Ho.
Qed.
(** [C6] A file after the next mount.  Given are the nodes of an inode on the flash, in whatever order
    their references are and whether checked before or not, every one that is not obsolete readable with its
    checksums and decodable, and one of them, a data node of a regular file, with a version above that of all
    the others.  Provided that every read of the flash succeeds in full and that no allocation is refused
    among the first five for each node (without memory for a fragment the code loses the node and says
    nothing, readinode.c:450): [jffs2_do_read_inode_internal] answers 0 with the newest node.  When memory
    also lasts for reading (three allocations for each byte asked for and six more),
    [jffs2_read_inode_range] then answers 0 for every range that starts at 0, or not behind [isize] and
    not behind the end of the last node, and gives at each offset below [isize] of the newest node the
    byte of the newest node that covers the offset, and zeroes where there is none and behind [isize]. *)
Theorem mounted_file_reads latest r ri cd
    (Hst : starts full_name_hash sector_size nd s0 mem0) (Hmd : metadata s0 = None)
    (Hr : latest_node nd s0 r) (Hnd : nd r = Data ri cd) (Hmode : (mode ri &&& S_IFMT) = S_IFREG)
    (Hdec : decodes) (Hb : bounded (flash s0)) (Hp : plenty (5 * Z.of_nat (length live)) mem0) :
  ∃ s', read_inode latest s0 = Some ((0, ri), s') ∧
    ∀ c space buf ofs len, codecs_ok codes c → 0 <= ofs → 0 <= len → ofs + len < 2 ^ 32 → Z.of_nat (length buf) = len →
      plenty (5 * Z.of_nat (length live) + 3 * (len + 2)) mem0 →
      (ofs = 0 ∨ ofs <= isize ri ∧ ∃ q, q ∈ datas nd live ∧ ofs <= node_end nd q) →
      ∃ out s2, Node.jffs2_read_inode_range buf ofs len (as_file s' c space) = Some ((0, out), s2) ∧
        Z.of_nat (length out) = len ∧ ∀ i v, out !! i = Some v → file_byte (isize ri) (ofs + Z.of_nat i) v.
Proof.
  assert (wp (read_inode latest) s0 (λ a s, a = (0, ri) ∧ ∃ fs D mem, mounted full_name_hash nd s0 mem0 s (isize ri) fs D mem)) as (a & s' & Hrun & -> & fs & D & mem & Hm)%wp_inv.
  { eapply wp_mount_file; [exact Hstack|exact Hfirst|exact Hst|exact Hmd|exact Hp|exact Hr|exact Hnd|exact Hmode|]. intros s fs D mem Hm. split; [done|]. by exists fs, D, mem. }
  exists s'. split; [exact Hrun|]. intros c space buf ofs len Hc Ho Hl He Hbuf Hpl Hin.
  destruct (mounted_opened _ _ _ _ _ c space Hst Hdec Hc Hb Hm) as [lg Hop].
  assert (ofs <= extent 0 fs) as Hx.
  { pose proof (extent_le 0 fs (inode_tiled _ _ _ _ _ (opened_inode _ _ _ _ _ _ _ Hop))). destruct Hin as [->|(Hs & q & Hq & Hqe)]; [lia|].
    pose proof (mo_extent _ _ _ _ _ _ _ _ _ Hm q Hq). lia. }
  destruct (wp_inv _ _ _ (wp_read_inode_range codes _ fs D mem lg _ buf ofs len Hop Ho Hl He Hbuf (or_intror Hx)))
    as ([ret out] & s2 & Hread & mem' & _ & _ & Hout). cbn [fst snd] in Hout.
  destruct Hout as [[-> ->]|[_ []]].
  - exists (bytes_at fs D (data_of D) ofs len), s2. split; [exact Hread|]. split; [rewrite length_bytes_at; lia|]. intros i v Hv.
    rewrite bytes_at_lookup in Hv. destruct (decide _); [|done]. injection Hv as <-. eapply mounted_byte; [exact Hm|lia].
  - split; [|cbn [as_file Node.flash]; destruct (kp_rest _ _ _ _ (mo_kept _ _ _ _ _ _ _ _ _ Hm)) as (_ & -> & _); apply (sa_flash _ _ _ _ _ Hst)].
    replace (3 * (len + 2)) with (5 * Z.of_nat (length live) + 3 * (len + 2) - 5 * Z.of_nat (length live)) by lia.
    apply (mo_memory _ _ _ _ _ _ _ _ _ Hm); [exact Hpl|lia].
Qed.
End Bytes.

(** *** The names of a directory *)

Lemma choose_on (P : nat → found → Prop) (l : list nat) : (∀ r, r ∈ l → ∃ f, P r f) → ∃ nd, ∀ r, r ∈ l → P r (nd r).
Proof.
  induction l as [|r l IH]; intros H.
  - exists (λ _, Name (dirent_of_bytes []) []). intros r []%not_elem_of_nil.
  - destruct IH as [nd Hnd]; [intros q Hq; apply H; by right|]. destruct (H r) as [f Hf]; [left|].
    exists (λ q, if decide (q = r) then f else nd q). intros q [->|Hq]%elem_of_cons; [by rewrite decide_True|].
    destruct (decide (q = r)) as [->|]; [done|by apply Hnd].
Qed.
(** The directory [L] as its nodes lie on the flash when [s0] is read: each reference is one of the entries,
    checked and where it was written, or a data node of a directory. *)
Record unmounted (w : Dirent.st (F := F)) (L : list full_dirent) (s0 : inode_st) (mem0 : list bool) : Prop := {
  um_flash : flash s0 = Node.flash (sys w) ∧ reliable (flash s0);
  um_empty : whole [] [] (VTree.tn_tree (tns s0)) ∧ (∃ lg, inode (frags_of s0) [] ∅ mem0 lg) ∧ metadata s0 = None;
  um_chain : NoDup (chain s0);
  um_refs : ∀ r, r ∈ chain s0 → ∃ o fl tl, refs s0 !! r = Some (Ref o fl tl) ∧
    ((∃ d, d ∈ L ∧ raw d = r ∧ Node.ref_at (sys w) !! r = Some o ∧ fl ≠ REF_UNCHECKED ∧ sizeof_raw_dirent <= tl) ∨
     (∃ ri cd, (∀ d, d ∈ L → raw d ≠ r) ∧ data_good sector_size (blocks s0) (flash s0) o tl ri cd ∧ (mode ri &&& S_IFMT) = S_IFDIR));
  um_newest : ∀ d, newest L d → ∃ v, raw d ∈ chain s0 ∧ refs s0 !! raw d = Some v ∧ r_flags v ≠ REF_OBSOLETE;
  um_root : (∃ r v, r ∈ chain s0 ∧ refs s0 !! r = Some v ∧ r_flags v ≠ REF_OBSOLETE ∧ ∀ d, d ∈ L → raw d ≠ r) ∨ Mount.c_ino (icache s0) = 1;
  um_memory : plenty (5 * Z.of_nat (length (chain s0))) mem0 }.
(** What is found at a reference. *)
Definition finds (L : list full_dirent) (s0 : inode_st) (r : nat) (f : found) : Prop :=
  ∃ o fl tl, refs s0 !! r = Some (Ref o fl tl) ∧
    match f with
    | Data ri cd => data_good sector_size (blocks s0) (flash s0) o tl ri cd ∧ (mode ri &&& S_IFMT) = S_IFDIR ∧ ∀ d, d ∈ L → raw d ≠ r
    | Name rd nm => name_good full_name_hash (flash s0) o fl tl r rd nm ∧ dirent_of full_name_hash r rd nm ∈ L
    end.
Lemma describes_dirent rd nm d : describes full_name_hash rd nm d → dirent_of full_name_hash (raw d) rd nm = d.
Proof.
  intros Hd. destruct (de_name _ _ _ _ Hd) as (_ & Hn & Hh). pose proof (de_version _ _ _ _ Hd) as Hv. pose proof (de_ino _ _ _ _ Hd) as Hi.
  pose proof (de_type _ _ _ _ Hd) as Ht. destruct d. unfold dirent_of. cbn in *. congruence.
Qed.
Lemma unmounted_finds w Ls i L s0 mem0 : world full_name_hash w Ls → Ls !! i = Some L → unmounted w L s0 mem0 →
  ∃ nd, ∀ r, r ∈ chain s0 → finds L s0 r (nd r).
Proof.
  intros Hw HL Hu. apply choose_on. intros r Hr. destruct (um_refs _ _ _ _ Hu r Hr) as (o & fl & tl & Href & [(d & Hd & Hraw & Ho & Hfl & Htl)|(ri & cd & Hno & Hg & Hm)]).
  - destruct (wo_flash _ _ _ Hw i L d HL Hd) as (o' & rd & nm & Ho' & Hst & Hde & _). rewrite Hraw, Ho in Ho'. injection Ho' as <-.
    destruct (um_flash _ _ _ _ Hu) as [Hf _]. rewrite <-Hf in Hst. exists (Name rd nm), o, fl, tl. split; [done|].
    rewrite <-Hraw, (describes_dirent rd nm d Hde). split; [by split; rewrite ?(describes_dirent rd nm d Hde)|done].
  - by exists (Data ri cd), o, fl, tl.
Qed.
Lemma finds_dirs nd L s0 d : (∀ r, r ∈ chain s0 → finds L s0 r (nd r)) → d ∈ names full_name_hash nd (valid s0) → d ∈ L.
Proof.
  intros Hf (r & [_ Hr]%list_elem_of_filter & Hd)%list_elem_of_omap. destruct (Hf r Hr) as (o & fl & tl & _ & H). destruct (nd r); [done|].
  injection Hd as <-. apply H.
Qed.
Lemma finds_newest nd w L s0 mem0 d : unmounted w L s0 mem0 → NoDup (raw <$> L) → (∀ r, r ∈ chain s0 → finds L s0 r (nd r)) → newest L d → d ∈ names full_name_hash nd (valid s0).
Proof.
  intros Hu Hn Hf Hd. destruct (um_newest _ _ _ _ Hu d Hd) as (v & Hc & Hv & Ha). apply list_elem_of_omap. exists (raw d). split.
  - apply list_elem_of_filter. split; [|done]. unfold alive. by rewrite Hv.
  - destruct (Hf _ Hc) as (o & fl & tl & _ & H). destruct (nd (raw d)) as [ri cd|rd nm] eqn:Hnd.
    + destruct H as (_ & _ & Hno). by destruct (Hno d (proj1 Hd)).
    + destruct H as [_ Hin]. f_equal. destruct Hd as [Hd _]. apply list_elem_of_lookup in Hin as [i Hi], Hd as [j Hj].
      assert (i = j) as ->; [|congruence]. eapply (NoDup_lookup _ _ _ (raw d) Hn); [by rewrite list_lookup_fmap, Hi|by rewrite list_lookup_fmap, Hj].
Qed.
Lemma finds_ready nd w L s0 mem0 : unmounted w L s0 mem0 → (∀ r, r ∈ chain s0 → finds L s0 r (nd r)) →
  starts full_name_hash sector_size nd s0 mem0 ∧ all_dirs nd s0.
Proof.
  intros Hu Hf. destruct (um_empty _ _ _ _ Hu) as (He1 & He2 & _). split.
  - split; [done|done|apply (um_chain _ _ _ _ Hu)| |apply (um_flash _ _ _ _ Hu)]. intros r Hr. destruct (Hf r Hr) as (o & fl & tl & Href & HH). split; [by eexists|].
    intros _. exists o, fl, tl. split; [done|]. destruct (nd r); apply HH.
  - intros r ri cd [_ [_ Hr]%list_elem_of_filter]%list_elem_of_filter Hnd. destruct (Hf r Hr) as (o & fl & tl & _ & H). rewrite Hnd in H. apply H.
Qed.
Lemma finds_root nd w L s0 mem0 : unmounted w L s0 mem0 → (∀ r, r ∈ chain s0 → finds L s0 r (nd r)) → datas nd (valid s0) = [] → Mount.c_ino (icache s0) = 1.
Proof.
  intros Hu Hf Hnil. destruct (um_root _ _ _ _ Hu) as [(r & v & Hr & Hv & Ha & Hno)|]; [exfalso|done].
  assert (r ∈ datas nd (valid s0)) as Hin; [|rewrite Hnil in Hin; by apply not_elem_of_nil in Hin].
  destruct (Hf r Hr) as (o & fl & tl & _ & H). apply list_elem_of_filter. split; [|apply list_elem_of_filter; split; [unfold alive; by rewrite Hv|done]].
  unfold is_data. destruct (nd r) as [|rd nm]; [done|]. destruct H as [_ H']. by apply Hno in H'.
Qed.
Lemma foldl_max_above h l v : v ∈ l → v <= foldl Z.max h l.
Proof.
  induction l as [|x l IH] using rev_ind; [by intros []%not_elem_of_nil|]. rewrite foldl_app. cbn. intros [Hv| ->%list_elem_of_singleton]%elem_of_app; [specialize (IH Hv)|]; lia.
Qed.
Lemma highest_above h nd l d : d ∈ names full_name_hash nd l → fversion d <= foldl Z.max h (version_of nd <$> l).
Proof.
  intros (r & Hr & Hd)%list_elem_of_omap. apply foldl_max_above. apply list_elem_of_fmap. exists r. split; [|done]. unfold version_of.
  destruct (nd r); [done|]. by injection Hd as <-.
Qed.
(** [C7] A directory after the next mount.  Whatever was done to it before, and whichever of its obsolete nodes
    are still there: when its nodes are read again, every read of the flash succeeds in full and no
    allocation is refused among the first five for each node, [jffs2_do_read_inode_internal] answers 0 for a
    directory whose list is the old one up to the order of equal hashes; it shows every name with the inode
    number and type it showed before, and the next version given out is above that of every entry read.  Every
    reference is to an entry, checked and where it was written, or to a good data node of a directory; the
    newest entry of each name is still a valid node among them, and so is a data node, unless the directory
    is the root, which may have none. *)
Theorem remounted_directory w Ls i L v s0 mem0 latest
    (Hw : world full_name_hash w Ls) (HL : Ls !! i = Some L) (Hv : inodes w !! i = Some v) (Hu : unmounted w L s0 mem0) :
  ∃ l s', read_inode latest s0 = Some ((0, l), s') ∧ (mode l &&& S_IFMT) = S_IFDIR ∧ Mount.dents s' ≡ₚ Dirent.dents v ∧
    listing (Mount.dents s') = shows w i ∧ ∀ d, d ∈ Mount.dents s' → fversion d <= Mount.highest_version s'.
Proof.
  destruct (unmounted_finds w Ls i L s0 mem0 Hw HL Hu) as [nd Hf]. destruct (finds_ready _ _ _ _ _ Hu Hf) as [Hst Hdirs].
  destruct (wo_dirs _ _ _ Hw i L HL) as (v' & Hv' & Hok). rewrite Hv in Hv'. injection Hv' as <-.
  pose proof (order_differ _ (do_order _ _ _ Hok)) as Hdiff. destruct (um_empty _ _ _ _ Hu) as (_ & _ & Hmd).
  assert (replay L ≡ₚ replay (names full_name_hash nd (valid s0))) as Hp.
  { apply (replay_same full_name_hash); [apply (do_hashed _ _ _ Hok)|exact Hdiff|intros d; by apply finds_dirs|]. intros d.
    by apply (finds_newest nd w L s0 mem0 d Hu (do_raws _ _ _ Hok)). }
  assert (wp (read_inode latest) s0 (λ a s, a.1 = 0 ∧ (mode a.2 &&& S_IFMT) = S_IFDIR ∧ mounted_dir full_name_hash nd s0 s)) as (a & s' & Hrun & H0 & Hm & Hd)%wp_inv.
  { eapply wp_mount_dir; [exact Hstack|exact Hfirst|exact Hst|exact Hmd| |exact Hdirs| |].
    - eapply plenty_less; [apply (um_memory _ _ _ _ Hu)|]. assert (length (valid s0) ≤ length (chain s0))%nat by apply length_filter. lia.
    - intros Hnil. left. by eapply finds_root.
    - intros l s Hd Hm. by split_and!. }
  destruct a as [ret l]. cbn in *. subst ret. exists l, s'. split; [exact Hrun|]. split; [exact Hm|].
  assert (Mount.dents s' ≡ₚ Dirent.dents v) as Hdents by (by rewrite (md_dents _ _ _ _ Hd), (do_dents _ _ _ Hok)). split; [exact Hdents|]. split.
  - unfold shows. rewrite Hv. symmetry. apply listing_perm; [|done]. apply (dir_filed _ _ _ Hok).
  - intros d Hin. rewrite (md_dents _ _ _ _ Hd) in Hin. apply replay_subset in Hin. rewrite (md_highest _ _ _ _ Hd).
    by apply highest_above.
Qed.
End Remount.

(** ** A file and a directory to run them on *)

Section Runs.
Import Rb Frag Layout Dirent Mount.

(** A walk to the first node of a tree. *)
Definition first_of (h : heap) : ptr :=
  match root h with
  | None => None
  | Some x => match leftmost (base.size (cells h)) (Some x) h with Some (p, _) => p | None => None end
  end.
Lemma first_of_whole h L fr : whole L fr h → first_of h = head L.
Proof.
  intros (t & m & H & <- & _). pose proof (size_tree _ _ _ _ H) as Hsz. assert (root h = ptr_of t) as Hroot.
  { destruct H as [Hs _]. apply Forall_cons in Hs as [_ Hs]. by apply Forall_cons in Hs as [Hs _]. }
  unfold first_of. rewrite Hroot. destruct t as [|c l x r]; [done|]. cbn [ptr_of].
  assert (wp (leftmost (base.size (cells h)) (Some x)) h (λ q _, q = head (inorder (Node c l x r)))) as (q & h' & -> & Hq)%wp_inv; [|exact Hq].
  by eapply next_below.
Qed.

Definition signed (r : raw_inode) : raw_inode :=
  RawInode (Layout.magic r) (Layout.nodetype r) (Layout.totlen r) (Layout.hdr_crc r) (Layout.ino r) (Layout.version r) (mode r) (uid r) (gid r)
    (isize r) (atime r) (mtime r) (ctime r) (offset r) (csize r) (dsize r) (compr r) (usercompr r) (flags r) (data_crc r) (inode_crc (inode_bytes r)).
Definition plain_node (version size start : Z) (b : list Z) : raw_inode :=
  let n := Z.of_nat (length b) in
  signed (RawInode JFFS2_MAGIC_BITMASK JFFS2_NODETYPE_INODE (68 + n) 0 7 version 0x81a4 0 0 size 0 0 0 start n n 0 0 0 (Crc.crc32 0 b) 0).
Definition eight_a : list Z := replicate 8 65.
Definition four_b : list Z := replicate 4 66.
Definition older : raw_inode := plain_node 1 8 0 eight_a.
Definition newer : raw_inode := plain_node 2 7 4 four_b.
Definition image (l : list Z) : perfect := λ a, nth (Z.to_nat a) l 255.
Definition two_on_flash : perfect := image (inode_bytes older ++ eight_a ++ inode_bytes newer ++ four_b).
Lemma image_stored pre b post : stored (image (pre ++ b ++ post)) (Z.of_nat (length pre)) b.
Proof.
  apply perfect_stored. intros i v Hv. unfold image. replace (Z.to_nat _) with (length pre + i)%nat by lia.
  apply nth_lookup_Some. rewrite lookup_app_r by lia. replace (length pre + i - length pre)%nat with i by lia. by apply lookup_app_l_Some.
Qed.
Definition node_found (r : nat) : found := match r with O => Data older eight_a | _ => Data newer four_b end.
(** The older node is behind the newer one in the list of the inode, and neither has been checked. *)
Definition unread : Mount.st (F := perfect) :=
  Mount.St (VTree.St (Heap None ∅) ∅ (Node.map new_file)) {[ 0%nat := Ref 0 REF_UNCHECKED 76; 1%nat := Ref 76 REF_UNCHECKED 72 ]} [1%nat; 0%nat]
    two_on_flash {[ 0 := (0, 148) ]} (0, 148) (Mount.Cache 7 1 INO_STATE_READING true) None 0 [] None [] 0 0.
Definition fits_b (w : nat) (v : Z) : bool := (0 <=? v) && (v <? 256 ^ Z.of_nat w).
Lemma fits_checked ws l : forallb (λ p, fits_b p.1 p.2) (zip ws l) = true → length ws = length l → Forall2 fits ws l.
Proof.
  revert l. induction ws as [|w ws IH]; intros [|v l] Hb Hl; try discriminate; [constructor|]. cbn in Hb. apply andb_prop in Hb as [Hw Hb].
  constructor; [|apply IH; [exact Hb|by injection Hl]]. unfold fits_b in Hw. cbn [fst snd] in Hw. unfold fits. lia.
Qed.
Lemma older_formed : well_formed older.
Proof. apply fits_checked; vm_compute; reflexivity. Qed.
Lemma newer_formed : well_formed newer.
Proof. apply fits_checked; vm_compute; reflexivity. Qed.
Lemma older_stored : stored two_on_flash 0 (inode_bytes older ++ eight_a).
Proof. unfold two_on_flash. rewrite (app_assoc (inode_bytes older)). apply (image_stored [] (inode_bytes older ++ eight_a)). Qed.
Lemma newer_stored : stored two_on_flash 76 (inode_bytes newer ++ four_b).
Proof.
  unfold two_on_flash. replace (inode_bytes older ++ eight_a ++ inode_bytes newer ++ four_b) with ((inode_bytes older ++ eight_a) ++ (inode_bytes newer ++ four_b) ++ [])
    by (by rewrite app_nil_r, !app_assoc).
  change 76 with (Z.of_nat (length (inode_bytes older ++ eight_a))). apply image_stored.
Qed.
Lemma older_good : data_good 4096 {[ 0 := (0, 148) ]} two_on_flash 0 76 older eight_a.
Proof.
  split; [exact older_stored|exact older_formed|reflexivity|vm_compute; reflexivity|reflexivity|reflexivity|vm_compute; discriminate|reflexivity|vm_compute; discriminate|vm_compute; discriminate|vm_compute; reflexivity|].
  exists (0, 148). reflexivity.
Qed.
Lemma newer_good : data_good 4096 {[ 0 := (0, 148) ]} two_on_flash 76 72 newer four_b.
Proof.
  split; [exact newer_stored|exact newer_formed|reflexivity|vm_compute; reflexivity|reflexivity|reflexivity|vm_compute; discriminate|reflexivity|vm_compute; discriminate|vm_compute; discriminate|vm_compute; reflexivity|].
  exists (0, 148). reflexivity.
Qed.
Lemma unread_starts : starts byte_sum 4096 node_found unread (replicate 60 true).
Proof.
  split.
  - exists Leaf, 0%nat. split; [split; [repeat constructor|apply NoDup_singleton]|]. split; [done|constructor].
  - exists []. exact (w_inode _ _ _ _ _ _ _ new_file_writable).
  - by repeat constructor; set_solver.
  - intros r Hr. cbn in Hr. apply elem_of_cons in Hr as [-> |Hr]; [|apply list_elem_of_singleton in Hr as ->].
    + split; [by eexists|]. intros _. exists 76, REF_UNCHECKED, 72. split; [reflexivity|exact newer_good].
    + split; [by eexists|]. intros _. exists 0, REF_UNCHECKED, 76. split; [reflexivity|exact older_good].
  - apply perfect_reliable.
Qed.
Lemma plain_decodes b c :
  codecs_ok code_of c →
  ∃ c', codecs_ok code_of c' ∧ Compr.jffs2_decompress c (Z.lor 0 (0 <<< 8)) b (Z.of_nat (length b)) (Z.of_nat (length b)) = Some (0, b, c').
Proof.
  intros Hc. unfold Compr.jffs2_decompress. change (Z.lor 0 (0 <<< 8)) with 0. change ((0 &&& 255) <=? JFFS2_COMPR_ZLIB) with true. cbv iota.
  change ((0 &&& 255) &&& 255 =? JFFS2_COMPR_NONE) with true. cbv iota. rewrite Z.leb_refl, Nat2Z.id, firstn_all. eexists. split; [|reflexivity]. exact Hc.
Qed.
Definition bytes_found (r : nat) : list Z := match r with O => eight_a | _ => four_b end.
Lemma unread_decodes : decodes node_found unread code_of bytes_found.
Proof.
  intros q o fl tl ri cd Hq Hr Hn _. destruct q as [|[|q]].
  - injection Hr as <- _ _. injection Hn as <- <-. split; [exact older_stored|exact older_formed|vm_compute; reflexivity|reflexivity..|vm_compute; reflexivity|done|]. change (compr older =? JFFS2_COMPR_ZERO) with false. cbv iota. intros c. apply (plain_decodes eight_a c).
  - injection Hr as <- _ _. injection Hn as <- <-. split; [exact newer_stored|exact newer_formed|vm_compute; reflexivity|reflexivity..|vm_compute; reflexivity|done|]. change (compr newer =? JFFS2_COMPR_ZERO) with false. cbv iota. intros c. apply (plain_decodes four_b c).
  - apply list_elem_of_filter in Hq as [_ [_ Hq]%list_elem_of_filter]. cbn in Hq. set_solver.
Qed.
Lemma newer_latest : latest_node node_found unread 1.
Proof.
  split; [apply list_elem_of_filter; split; [exact I|]; apply list_elem_of_filter; split; [vm_compute; discriminate|left]|].
  intros q [_ [_ Hq]%list_elem_of_filter]%list_elem_of_filter Hne. cbn in Hq. apply elem_of_cons in Hq as [-> |Hq]; [done|].
  apply list_elem_of_singleton in Hq as ->. reflexivity.
Qed.
Abbreviation read_unread := (jffs2_do_read_inode_internal byte_sum 4096 false (replicate 68 170) first_of no_inode unread).
Abbreviation read_again s := (Node.jffs2_read_inode_range (replicate 9 0) 0 9 (as_file s only_dynrubin [])).
Example unread_reads : match read_unread with Some (_, s) => fst <$> read_again s | None => None end = Some (0, [65; 65; 65; 65; 66; 66; 66; 0; 0]).
Proof. vm_compute. reflexivity. Qed.
Lemma mounted_file_reads_witness :
  ∃ s' s2, read_unread = Some ((0, newer), s') ∧ read_again s' = Some ((0, [65; 65; 65; 65; 66; 66; 66; 0; 0]), s2) ∧
    file_byte node_found unread bytes_found 7 5 66.
Proof.
  destruct (mounted_file_reads byte_sum 4096 false (replicate 68 170) first_of eq_refl first_of_whole node_found unread (replicate 60 true)
    code_of bytes_found no_inode 1 newer four_b unread_starts eq_refl newer_latest eq_refl eq_refl unread_decodes) as (s' & Hrun & Hread).
  - intros ofs n Hn. cbn. rewrite length_fmap, length_seq. lia.
  - split; [vm_compute; discriminate|]. by repeat constructor.
  - destruct (Hread only_dynrubin [] (replicate 9 0) 0 9 (w_codecs _ _ _ _ _ _ _ new_file_writable) ltac:(lia) ltac:(lia) ltac:(lia) eq_refl) as (out & s2 & H2 & _ & Hbytes).
    + split; [vm_compute; discriminate|]. by repeat constructor.
    + by left.
    + pose proof unread_reads as Hr. rewrite Hrun, H2 in Hr. injection Hr as ->. exists s', s2. split; [exact Hrun|]. split; [exact H2|]. exact (Hbytes 5%nat 66 eq_refl).
Defined.

(** The directory of [linked], with the node of its one entry on the flash. *)
Definition only_entry : full_dirent :=
  match inodes linked !! 1%nat with Some v => default (FullDirent 0 0 0 0 0 []) (head (Dirent.dents v)) | None => FullDirent 0 0 0 0 0 [] end.
Lemma linked_journal : ∃ Ls, world byte_sum linked Ls ∧ Ls !! 1%nat = Some [only_entry].
Proof.
  enough (wp (jffs2_do_link byte_sum old_dirent 1 7 8 ab 1000) new_dirs (λ ret s', ret = 0 → ∃ d Ls, world byte_sum s' Ls ∧ Ls !! 1%nat = Some [d])) as (ret & s' & Hrun & H)%wp_inv.
  { pose proof link_runs as Hr. rewrite Hrun in Hr. injection Hr as -> _. destruct (H eq_refl) as (d & Ls & Hw & HL). exists Ls.
    assert (linked = s') as <- by (unfold linked; by rewrite Hrun). split; [exact Hw|]. destruct (wo_dirs _ _ _ Hw 1%nat _ HL) as (v & Hv & Hok).
    unfold only_entry. rewrite Hv, (do_dents _ _ _ Hok). done. }
  eapply (wp_do_link byte_sum old_dirent old_dirent_fits); [exact new_dirs_world|reflexivity|exact root_there|cbn; lia|apply small_fits; lia|unfold fits; lia|apply small_fits; lia|exact ab_ok| |].
  - intros s' e Hne _ _ _ He. done.
  - intros s' (L & d & HL & Hw & _) _ _. cbn in HL. injection HL as <-. exists d. eexists. split; [exact Hw|]. apply lookup_insert_eq.
Qed.
Definition unread_dir : Mount.st (F := perfect) :=
  Mount.St (VTree.St (Heap None ∅) ∅ (Node.map new_file)) {[ raw only_entry := Ref (default 0 (Node.ref_at (sys linked) !! raw only_entry)) REF_PRISTINE 44 ]} [raw only_entry]
    (Node.flash (sys linked)) ∅ (0, 0) (Mount.Cache 1 1 INO_STATE_READING true) None 0 [] None [] 0 0.
Lemma unread_dir_unmounted : unmounted 4096 linked [only_entry] unread_dir (replicate 60 true).
Proof.
  destruct unread_starts as [Htree Hmap _ _ _]. split.
  - split; [reflexivity|apply perfect_reliable].
  - split; [exact Htree|]. split; [exact Hmap|reflexivity].
  - apply NoDup_singleton.
  - intros r Hr. apply list_elem_of_singleton in Hr as ->. exists 0, REF_PRISTINE, 44.
    assert (Node.ref_at (sys linked) !! raw only_entry = Some 0) as Ho by (vm_compute; reflexivity). split.
    + unfold unread_dir. cbn [refs]. rewrite Ho. apply lookup_singleton_eq.
    + left. exists only_entry. split_and!; [left|done|exact Ho|done|vm_compute; discriminate].
  - intros d [->%list_elem_of_singleton _]. eexists. split; [left|]. split; [apply lookup_singleton_eq|]. done.
  - by right.
  - split; [vm_compute; discriminate|]. by repeat constructor.
Qed.
Abbreviation read_dir := (jffs2_do_read_inode_internal byte_sum 4096 false (replicate 68 170) first_of no_inode unread_dir).
Lemma remounted_directory_witness : ∃ l s', read_dir = Some ((0, l), s') ∧ listing (Mount.dents s') !! ab = Some (7, 8).
Proof.
  destruct linked_journal as (Ls & Hw & HL). destruct (wo_dirs _ _ _ Hw 1%nat _ HL) as (v & Hv & _).
  destruct (remounted_directory byte_sum 4096 false (replicate 68 170) first_of eq_refl first_of_whole linked Ls 1 [only_entry] v unread_dir (replicate 60 true) no_inode
    Hw HL Hv unread_dir_unmounted) as (l & s' & Hrun & _ & _ & Hshow & _).
  exists l, s'. split; [exact Hrun|]. rewrite Hshow. vm_compute. reflexivity.
Defined.
End Runs.
