(* ===== verification/Jffs2Space.v ===== *)
(** * Jffs2Space: the space of the flash (fs/jffs2/nodemgmt.c, erase.c, and the checks of debug.c and debug.h)

    The erase blocks with the nodes in each of them, the lists the blocks are on, the sums of the
    superblock, and the functions that change them: reserving room, reporting a node, marking one
    obsolete, erasing.  The configuration is the one of the other files: no write buffer
    (os-linux.h without CONFIG_JFFS2_FS_WRITEBUFFER: a node can be marked obsolete on the flash, the clean
    marker is a node of the block) and CONFIG_JFFS2_FS_DEBUG 1, its default in debug.h, so that the
    sanity and the paranoia checks are compiled in; a check that fails is BUG(), here [fault]. *)

From S2P Require Import Prelude Jffs2Frag Jffs2Compr Jffs2Node Crc32.

(** The superblock fields that are computed once, at mount. *)
Class Geometry := {
  sector_size : Z; cleanmarker_size : Z; nr_blocks : Z; flash_size : Z; resv_blocks_write : Z; resv_blocks_deletion : Z;
  resv_blocks_gctrigger : Z; resv_blocks_gcbad : Z; nospc_dirty_size : Z }.

(** [mtd->erase]: what the flash holds once the block is erased, which is when the driver calls back with
    MTD_ERASE_DONE.  The result of the call, and when the driver calls back, are the environment's. *)
Class Eraser (F : Type) := mtd_erased : F → Z → Z → F.

Module Space.
Definition EINVAL := 22.
Definition EAGAIN := 11.
Definition EINTR := 4.

(** ** Data *)

(** The five sizes of [struct jffs2_eraseblock], which [struct jffs2_sb_info] has as sums. *)
Record sizes := Sizes { unchecked_size : Z; used_size : Z; dirty_size : Z; wasted_size : Z; free_size : Z }.
Inductive kind := Unchecked | Used | Dirty | Wasted | Free.
#[export] Instance kind_eq_dec : EqDecision kind.
Proof. solve_decision. Defined.
Definition get (k : kind) (z : sizes) : Z :=
  match k with
  | Unchecked => unchecked_size z | Used => used_size z | Dirty => dirty_size z | Wasted => wasted_size z | Free => free_size z
  end.
Definition upd (k : kind) (f : Z → Z) (z : sizes) : sizes :=
  let '(Sizes u s d w r) := z in
  match k with
  | Unchecked => Sizes (f u) s d w r | Used => Sizes u (f s) d w r | Dirty => Sizes u s (f d) w r
  | Wasted => Sizes u s d (f w) r | Free => Sizes u s d w (f r)
  end.

(** [struct jffs2_eraseblock]; [phys] is the list from [first_node] over [next_phys] to [last_node]. *)
Record eraseblock := Block { offset : Z; size : sizes; phys : list nat; gc_node : option nat }.
Definition on_size (f : sizes → sizes) (j : eraseblock) : eraseblock := Block (offset j) (f (size j)) (phys j) (gc_node j).
Definition on_phys (f : list nat → list nat) (j : eraseblock) : eraseblock := Block (offset j) (size j) (f (phys j)) (gc_node j).
Definition with_gc_node (p : option nat) (j : eraseblock) : eraseblock := Block (offset j) (size j) (phys j) p.

(** [struct jffs2_raw_node_ref]: the chain of the nodes of an inode ends in the inode cache. *)
Inductive link := Null | ToRef (r : nat) | ToCache (i : nat).
#[export] Instance link_eq_dec : EqDecision link.
Proof. solve_decision. Defined.
Record raw_ref := Ref { flash_offset : Z; totlen : Z; next_in_ino : link }.
Definition REF_UNCHECKED := 0.
Definition REF_OBSOLETE := 1.
Definition REF_PRISTINE := 2.
Definition REF_NORMAL := 3.
Definition ref_flags (x : raw_ref) : Z := flash_offset x &&& 3.
Definition ref_offset (x : raw_ref) : Z := flash_offset x &&& 0xfffffffc.
Definition ref_obsolete (x : raw_ref) : bool := flash_offset x &&& 3 =? REF_OBSOLETE.
Definition with_next (l : link) (x : raw_ref) : raw_ref := Ref (flash_offset x) (totlen x) l.
Definition with_flags (fl : Z) (x : raw_ref) : raw_ref := Ref (ref_offset x ||| fl) (totlen x) (next_in_ino x).
Definition add_totlen (n : Z) (x : raw_ref) : raw_ref := Ref (flash_offset x) (u32 (totlen x + n)) (next_in_ino x).

(** [struct jffs2_inode_cache]; [hashed]: it is on its list of [inocache_list]. *)
Record inode_cache := Cache { nodes : link; nlink : Z; state : Z; hashed : bool }.
Definition INO_STATE_READING := 5.
Definition INO_STATE_CLEARING := 6.
Definition with_nodes (l : link) (c : inode_cache) : inode_cache := Cache l (nlink c) (state c) (hashed c).

(** The lists of the superblock. *)
Inductive list_name :=
  | clean_list | very_dirty_list | dirty_list | erasable_list | erasable_pending_wbuf_list | erasing_list
  | erase_pending_list | erase_complete_list | free_list | bad_list | bad_used_list.
#[export] Instance list_name_eq_dec : EqDecision list_name.
Proof. solve_decision. Defined.
Definition list_names : list list_name :=
  [clean_list; very_dirty_list; dirty_list; erasable_list; erasable_pending_wbuf_list; erasing_list;
   erase_pending_list; erase_complete_list; free_list; bad_list; bad_used_list].

(** What the environment decides: whether an allocation has memory, what [jiffies] is, the result and
    the [fail_addr] of an [mtd->erase], and the callbacks that come each time
    [erase_completion_lock] is free (block, done or not, [fail_addr]).  When a list is used up there is
    memory, [mtd->erase] accepts, and all erases that are under way succeed. *)
Record environment := Env {
  memory : list bool; jiffies : list Z; erase_answers : list (Z * Z); callbacks : list (list (nat * bool * Z)) }.

(** [PAD], [ISDIRTY], [VERYDIRTY] of nodelist.h. *)
Definition JFFS2_SB_FLAG_SCANNING := 2.
Definition JFFS2_SB_FLAG_BUILDING := 4.
Definition ISDIRTY (n : Z) : bool := Layout.sizeof_raw_inode + JFFS2_MIN_DATA_LEN <? n.
Definition JFFS2_NODE_ACCURATE := 0x2000.
Definition JFFS2_NODETYPE_CLEANMARKER := 0x2003.
Definition PAGE_SIZE := 4096.
Definition header_widths : list nat := [2; 2; 4; 4]%nat.
Definition sizeof_unknown_node := 12.

Section Store.
Context {F : Type} `{!Mtd F} `{!Eraser F} `{!Geometry}.

Definition VERYDIRTY (n : Z) : bool := sector_size / 2 <=? n.

(** [struct jffs2_sb_info].  A block is its index in [c->blocks]. *)
Record sb := Sb {
  blocks : list eraseblock; lists : list_name → list nat; nextblock : option nat; gcblock : option nat; total : sizes;
  erasing_size : Z; bad_size : Z; nr_free_blocks : Z; nr_erasing_blocks : Z; refs : gmap nat raw_ref;
  caches : gmap nat inode_cache; flags : Z; readonly : bool; flash : F; env : environment }.
Definition on_blocks (f : list eraseblock → list eraseblock) (s : sb) : sb :=
  Sb (f (blocks s)) (lists s) (nextblock s) (gcblock s) (total s) (erasing_size s) (bad_size s) (nr_free_blocks s) (nr_erasing_blocks s)
    (refs s) (caches s) (flags s) (readonly s) (flash s) (env s).
Definition on_lists (f : (list_name → list nat) → list_name → list nat) (s : sb) : sb :=
  Sb (blocks s) (f (lists s)) (nextblock s) (gcblock s) (total s) (erasing_size s) (bad_size s) (nr_free_blocks s) (nr_erasing_blocks s)
    (refs s) (caches s) (flags s) (readonly s) (flash s) (env s).
Definition on_nextblock (f : option nat → option nat) (s : sb) : sb :=
  Sb (blocks s) (lists s) (f (nextblock s)) (gcblock s) (total s) (erasing_size s) (bad_size s) (nr_free_blocks s) (nr_erasing_blocks s)
    (refs s) (caches s) (flags s) (readonly s) (flash s) (env s).
Definition on_gcblock (f : option nat → option nat) (s : sb) : sb :=
  Sb (blocks s) (lists s) (nextblock s) (f (gcblock s)) (total s) (erasing_size s) (bad_size s) (nr_free_blocks s) (nr_erasing_blocks s)
    (refs s) (caches s) (flags s) (readonly s) (flash s) (env s).
Definition on_total (f : sizes → sizes) (s : sb) : sb :=
  Sb (blocks s) (lists s) (nextblock s) (gcblock s) (f (total s)) (erasing_size s) (bad_size s) (nr_free_blocks s) (nr_erasing_blocks s)
    (refs s) (caches s) (flags s) (readonly s) (flash s) (env s).
Definition on_erasing_size (f : Z → Z) (s : sb) : sb :=
  Sb (blocks s) (lists s) (nextblock s) (gcblock s) (total s) (f (erasing_size s)) (bad_size s) (nr_free_blocks s) (nr_erasing_blocks s)
    (refs s) (caches s) (flags s) (readonly s) (flash s) (env s).
Definition on_bad_size (f : Z → Z) (s : sb) : sb :=
  Sb (blocks s) (lists s) (nextblock s) (gcblock s) (total s) (erasing_size s) (f (bad_size s)) (nr_free_blocks s) (nr_erasing_blocks s)
    (refs s) (caches s) (flags s) (readonly s) (flash s) (env s).
Definition on_nr_free_blocks (f : Z → Z) (s : sb) : sb :=
  Sb (blocks s) (lists s) (nextblock s) (gcblock s) (total s) (erasing_size s) (bad_size s) (f (nr_free_blocks s)) (nr_erasing_blocks s)
    (refs s) (caches s) (flags s) (readonly s) (flash s) (env s).
Definition on_nr_erasing_blocks (f : Z → Z) (s : sb) : sb :=
  Sb (blocks s) (lists s) (nextblock s) (gcblock s) (total s) (erasing_size s) (bad_size s) (nr_free_blocks s) (f (nr_erasing_blocks s))
    (refs s) (caches s) (flags s) (readonly s) (flash s) (env s).
Definition on_refs (f : gmap nat raw_ref → gmap nat raw_ref) (s : sb) : sb :=
  Sb (blocks s) (lists s) (nextblock s) (gcblock s) (total s) (erasing_size s) (bad_size s) (nr_free_blocks s) (nr_erasing_blocks s)
    (f (refs s)) (caches s) (flags s) (readonly s) (flash s) (env s).
Definition on_caches (f : gmap nat inode_cache → gmap nat inode_cache) (s : sb) : sb :=
  Sb (blocks s) (lists s) (nextblock s) (gcblock s) (total s) (erasing_size s) (bad_size s) (nr_free_blocks s) (nr_erasing_blocks s)
    (refs s) (f (caches s)) (flags s) (readonly s) (flash s) (env s).
Definition on_flash (f : F → F) (s : sb) : sb :=
  Sb (blocks s) (lists s) (nextblock s) (gcblock s) (total s) (erasing_size s) (bad_size s) (nr_free_blocks s) (nr_erasing_blocks s)
    (refs s) (caches s) (flags s) (readonly s) (f (flash s)) (env s).
Definition on_env (f : environment → environment) (s : sb) : sb :=
  Sb (blocks s) (lists s) (nextblock s) (gcblock s) (total s) (erasing_size s) (bad_size s) (nr_free_blocks s) (nr_erasing_blocks s)
    (refs s) (caches s) (flags s) (readonly s) (flash s) (f (env s)).

Abbreviation P := (SM sb).
Definition gets {A} (f : sb → A) : P A := λ s, Some (f s, s).
Definition puts (f : sb → sb) : P unit := λ s, Some (tt, f s).
Definition block (b : nat) : P eraseblock := λ s, match blocks s !! b with Some j => Some (j, s) | None => None end.
Definition raw (r : nat) : P raw_ref := λ s, match refs s !! r with Some x => Some (x, s) | None => None end.
Definition cache (i : nat) : P inode_cache := λ s, match caches s !! i with Some c => Some (c, s) | None => None end.
Definition on_block (b : nat) (f : eraseblock → eraseblock) : P unit := puts (on_blocks (alter f b)).
Definition on_raw (r : nat) (f : raw_ref → raw_ref) : P unit := puts (on_refs (alter f r)).

(** [list_del(&jeb->list)], [list_add] and [list_add_tail]: a block is on one list at most. *)
Definition list_del (b : nat) : P unit :=
  λ s, if existsb (λ n, bool_decide (b ∈ lists s n)) list_names
       then Some (tt, on_lists (λ l n, filter (λ x, x ≠ b) (l n)) s) else None.
Definition list_add (b : nat) (n : list_name) : P unit := puts (on_lists (λ l m, if decide (m = n) then b :: l m else l m)).
Definition list_add_tail (b : nat) (n : list_name) : P unit :=
  puts (on_lists (λ l m, if decide (m = n) then l m ++ [b] else l m)).
Definition on_list (b : nat) (n : list_name) : P bool := gets (λ s, bool_decide (b ∈ lists s n)).

(** [jeb->x_size += n], [c->x_size += n], and both. *)
Definition add32 (n x : Z) : Z := u32 (x + n).
Definition charge_block (k : kind) (b : nat) (n : Z) : P unit := on_block b (on_size (upd k (add32 n))).
Definition charge_total (k : kind) (n : Z) : P unit := puts (on_total (upd k (add32 n))).
Definition charge (k : kind) (b : nat) (n : Z) : P unit := charge_block k b n;; charge_total k n.
Definition set_size (k : kind) (b : nat) (n : Z) : P unit := on_block b (on_size (upd k (λ _, n))).
Definition set_nextblock (p : option nat) : P unit := puts (on_nextblock (λ _, p)).
Definition set_gcblock (p : option nat) : P unit := puts (on_gcblock (λ _, p)).

(** The environment. *)
Definition take_memory (e : environment) : environment := Env (tail (memory e)) (jiffies e) (erase_answers e) (callbacks e).
Definition take_jiffies (e : environment) : environment := Env (memory e) (tail (jiffies e)) (erase_answers e) (callbacks e).
Definition take_answer (e : environment) : environment := Env (memory e) (jiffies e) (tail (erase_answers e)) (callbacks e).
Definition take_callbacks (e : environment) : environment := Env (memory e) (jiffies e) (erase_answers e) (tail (callbacks e)).
Definition kmalloc : P bool :=
  ok ← gets (λ s, match memory (env s) with [] => true | m :: _ => m end); puts (on_env take_memory);; mret ok.
Definition get_jiffies : P Z :=
  j ← gets (λ s, match jiffies (env s) with [] => 1 | j :: _ => j end); puts (on_env take_jiffies);; mret j.
Definition jffs2_flash_read (ofs len : Z) : P (Z * list Z) := gets (λ s, mtd_read (flash s) ofs len).
Definition jffs2_flash_write (ofs : Z) (b : list Z) : P (Z * Z) :=
  λ s, let '(ret, retlen, f) := mtd_write (flash s) ofs b in Some ((ret, retlen), on_flash (λ _, f) s).
Definition jffs2_flash_direct_writev (vecs : list (list Z)) (ofs : Z) : P (Z * Z) :=
  λ s, let '(ret, retlen, f) := Node.mtd_fake_writev (flash s) vecs ofs 0 in Some ((ret, retlen), on_flash (λ _, f) s).
(** [jffs2_alloc_raw_node_ref], [jffs2_free_raw_node_ref]; what is freed twice is a fault. *)
Definition jffs2_alloc_raw_node_ref : P (option nat) :=
  ok ← kmalloc;
  if ok : bool then
    r ← gets (λ s, fresh (elements (dom (refs s))));
    puts (on_refs <[r := Ref 0 0 Null]>);; mret (Some r)
  else mret None.
Definition jffs2_free_raw_node_ref (r : nat) : P unit :=
  λ s, match refs s !! r with Some _ => Some (tt, on_refs (delete r) s) | None => None end.

(** ** debug.h, debug.c and nodelist.h: checks *)

(** [ref_totlen], with the check that is compiled in. *)
Definition ref_totlen (b r : nat) : P Z :=
  x ← raw r; if flash_offset x / sector_size =? Z.of_nat b then mret (totlen x) else fault.
Definition jffs2_dbg_acct_sanity_check_nolock (b : nat) : P unit :=
  j ← block b; s ← gets id;
  let z := size j in
  let t := total s in
  if negb (u32 (used_size z + dirty_size z + free_size z + wasted_size z + unchecked_size z) =? sector_size) then fault
  else if negb (u32 (used_size t + dirty_size t + free_size t + erasing_size s + bad_size s + wasted_size t + unchecked_size t) =? flash_size)
  then fault else mret tt.
Fixpoint tally (b : nat) (ofs : Z) (l : list nat) (used unchecked : Z) : P (Z * Z) :=
  match l with
  | [] => mret (used, unchecked)
  | r :: l =>
      n ← ref_totlen b r; x ← raw r;
      if (flash_offset x <? ofs) || (u32 (ofs + sector_size) <? flash_offset x) then fault
      else if ref_flags x =? REF_UNCHECKED then tally b ofs l used (u32 (unchecked + n))
      else if negb (ref_obsolete x) then tally b ofs l (u32 (used + n)) unchecked
      else tally b ofs l used unchecked
  end.
Definition jffs2_dbg_acct_paranoia_check_nolock (b : nat) : P unit :=
  j ← block b;
  '(my_used, my_unchecked) ← tally b (offset j) (phys j) 0 0;
  if negb (my_used =? used_size (size j)) || negb (my_unchecked =? unchecked_size (size j)) then fault else mret tt.
Definition acct_checks (b : nat) : P unit := jffs2_dbg_acct_sanity_check_nolock b;; jffs2_dbg_acct_paranoia_check_nolock b.

(** ** The chain of the nodes of an inode *)

(** Where a link is stored: [&ic->nodes] or [&ref->next_in_ino]. *)
Inductive slot := NodesOf (i : nat) | NextOf (r : nat).
#[export] Instance slot_eq_dec : EqDecision slot.
Proof. solve_decision. Defined.
Definition get_slot (p : slot) : P link :=
  match p with NodesOf i => c ← cache i; mret (nodes c) | NextOf r => x ← raw r; mret (next_in_ino x) end.
Definition set_slot (p : slot) (l : link) : P unit :=
  match p with NodesOf i => puts (on_caches (alter (with_nodes l) i)) | NextOf r => on_raw r (with_next l) end.
(** Enough turns for any chain. *)
Definition chain_fuel : P nat := gets (λ s, S (S (S (2 * base.size (refs s))))).

(** [jffs2_raw_ref_to_ic] *)
Fixpoint raw_ref_to_ic (fuel : nat) (r : nat) : P nat :=
  match fuel with
  | O => fault
  | S fuel =>
      x ← raw r;
      match next_in_ino x with Null => fault | ToRef r' => raw_ref_to_ic fuel r' | ToCache i => mret i end
  end.
(** [for (p = &ic->nodes; *p != ref; p = &( *p)->next_in_ino)] *)
Fixpoint find_slot (fuel : nat) (p : slot) (r : nat) : P slot :=
  match fuel with
  | O => fault
  | S fuel =>
      l ← get_slot p;
      match l with ToRef x => if decide (x = r) then mret p else find_slot fuel (NextOf x) r | _ => fault end
  end.
(** [jffs2_del_ino_cache]: off the hash list; freed unless it is being read or cleared. *)
Definition jffs2_del_ino_cache (i : nat) : P unit :=
  c ← cache i;
  puts (on_caches (alter (λ c, Cache (nodes c) (nlink c) (state c) false) i));;
  if negb (state c =? INO_STATE_READING) && negb (state c =? INO_STATE_CLEARING) then puts (on_caches (delete i)) else mret tt.
Definition drop_unused_cache (i : nat) : P unit :=
  c ← cache i;
  if bool_decide (nodes c = ToCache i) && (nlink c =? 0) then jffs2_del_ino_cache i else mret tt.

(** ** nodemgmt.c: [jffs2_mark_node_obsolete] *)

(** Lines 418 to 456: the sizes; the answer is [addedsize]. *)
Definition account_obsolete (b r : nat) : P Z :=
  len ← ref_totlen b r; x ← raw r; j ← block b;
  let k := if ref_flags x =? REF_UNCHECKED then Unchecked else Used in
  if get k (size j) <? len then fault
  else
    charge k b (- len);;
    j ← block b; next ← gets nextblock;
    let w := wasted_size (size j) in
    addedsize ←
      (if (truthy (dirty_size (size j)) || ISDIRTY (u32 (w + len))) && negb (bool_decide (next = Some b)) then
         charge Dirty b len;;
         if truthy w then
           bad ← on_list b bad_used_list;
           if bad : bool then mret 0 else charge Dirty b w;; charge Wasted b (- w);; mret (len + w)
         else mret len
       else charge Wasted b len;; mret 0);
    on_raw r (with_flags REF_OBSOLETE);; mret addedsize.

(** Lines 483 to 528: the lists. *)
Definition refile (b : nat) (addedsize : Z) : P unit :=
  j ← block b; s ← gets id;
  let z := size j in
  if decide (nextblock s = Some b) then mret tt
  else if (used_size z =? 0) && (unchecked_size z =? 0) then
    (if decide (gcblock s = Some b) then set_gcblock None else list_del b);;
    j ← get_jiffies;
    if truthy (j &&& 127) then list_add_tail b erase_pending_list;; puts (on_nr_erasing_blocks (add32 1))
    else list_add_tail b erasable_list
  else if decide (gcblock s = Some b) then mret tt
  else if ISDIRTY (dirty_size z) && negb (ISDIRTY (u32 (dirty_size z - addedsize))) then
    list_del b;; list_add_tail b dirty_list
  else if VERYDIRTY (dirty_size z) && negb (VERYDIRTY (u32 (dirty_size z - addedsize))) then
    list_del b;; list_add_tail b very_dirty_list
  else mret tt.

(** Lines 542 to 572: the node on the flash; false is [goto out_erase_sem]. *)
Definition obliterate (b r : nat) : P bool :=
  x ← raw r;
  '(ret, n) ← jffs2_flash_read (ref_offset x) sizeof_unknown_node;
  if truthy ret then mret false
  else if negb (Z.of_nat (length n) =? sizeof_unknown_node) then mret false
  else
    let f i := nth i (Layout.unpack header_widths n) 0 in
    len ← ref_totlen b r;
    if negb (Jffs2Node.PAD (f 2%nat) =? Jffs2Node.PAD len) then mret false
    else if negb (truthy (f 1%nat &&& JFFS2_NODE_ACCURATE)) then mret false
    else
      let n := Layout.pack header_widths [f 0%nat; f 1%nat &&& ~~~ JFFS2_NODE_ACCURATE; f 2%nat; f 3%nat] in
      '(ret, retlen) ← jffs2_flash_write (ref_offset x) n;
      if truthy ret then mret false else mret (retlen =? sizeof_unknown_node).

(** Lines 583 to 600: off the chain of its inode. *)
Definition leave_inode (r : nat) : P unit :=
  x ← raw r;
  match next_in_ino x with
  | Null => mret tt
  | next =>
      fuel ← chain_fuel;
      ic ← raw_ref_to_ic fuel r; p ← find_slot fuel (NodesOf ic) r;
      set_slot p next;; on_raw r (with_next Null);; drop_unused_cache ic
  end.

(** [ref->next_phys], and the node whose [next_phys] is [ref]. *)
Fixpoint next_phys (r : nat) (l : list nat) : option nat :=
  match l with [] => None | x :: l => if decide (x = r) then head l else next_phys r l end.
Fixpoint prev_phys (r : nat) (l : list nat) : option nat :=
  match l with x :: (y :: _) as l' => if decide (y = r) then Some x else prev_phys r l' | _ => None end.
(** [n] goes, its bytes are those of [p] now. *)
Definition absorb (b p n : nat) : P unit :=
  y ← raw n; on_raw p (add_totlen (totlen y));;
  on_block b (on_phys (filter (λ x, x ≠ n)));;
  on_block b (λ j, if decide (gc_node j = Some n) then with_gc_node (Some p) j else j);;
  jffs2_free_raw_node_ref n.
(** Lines 605 to 621 and 625 to 646: merging with the next and with the previous node. *)
Definition merge_next (b r : nat) : P unit :=
  j ← block b;
  match next_phys r (phys j) with
  | None => mret tt
  | Some n => y ← raw n; if ref_obsolete y && bool_decide (next_in_ino y = Null) then absorb b r n else mret tt
  end.
Definition merge_prev (b r : nat) : P unit :=
  j ← block b;
  if decide (head (phys j) = Some r) then mret tt
  else
    match prev_phys r (phys j) with
    | None => fault
    | Some p => x ← raw r; y ← raw p; if ref_obsolete y && bool_decide (next_in_ino x = Null) then absorb b p r else mret tt
    end.

(** ** erase.c: the end of an erase *)

(** [jffs2_erase_succeeded], [jffs2_erase_failed] without NAND's bad block table, [jffs2_erase_callback]. *)
Definition jffs2_erase_succeeded (b : nat) : P unit := list_del b;; list_add_tail b erase_complete_list.
Definition jffs2_erase_failed (b : nat) : P unit :=
  puts (on_erasing_size (add32 (- sector_size)));; puts (on_bad_size (add32 sector_size));;
  list_del b;; list_add b bad_list;; puts (on_nr_erasing_blocks (add32 (-1))).
Definition jffs2_erase_callback (b : nat) (done : bool) : P unit :=
  if done then jffs2_erase_succeeded b else jffs2_erase_failed b.

(** [erase_completion_lock] is free: the driver calls back for erases that are under way; those that it
    calls done it has done. *)
Definition erase_done (b : nat) : P unit := j ← block b; puts (on_flash (λ f, mtd_erased f (offset j) sector_size)).
Fixpoint deliver (l : list (nat * bool * Z)) : P unit :=
  match l with
  | [] => mret tt
  | (b, done, _) :: l =>
      busy ← on_list b erasing_list;
      (if busy : bool then (if done : bool then erase_done b else mret tt);; jffs2_erase_callback b done else mret tt);;
      deliver l
  end.
Definition spin_unlock : P unit :=
  l ← gets (λ s, match callbacks (env s) with [] => map (λ b, (b, true, 0)) (lists s erasing_list) | l :: _ => l end);
  puts (on_env take_callbacks);; deliver l.

(** [jffs2_mark_node_obsolete] *)
Definition jffs2_mark_node_obsolete (ref : option nat) : P unit :=
  match ref with
  | None => mret tt
  | Some r =>
      x ← raw r;
      if ref_obsolete x then mret tt
      else
        let blocknr := flash_offset x / sector_size in
        if nr_blocks <=? blocknr then fault
        else
          let b := Z.to_nat blocknr in
          addedsize ← account_obsolete b r;
          acct_checks b;;
          s ← gets id;
          if truthy (flags s &&& JFFS2_SB_FLAG_SCANNING) then spin_unlock
          else
            refile b addedsize;; spin_unlock;;
            if readonly s || truthy (flags s &&& JFFS2_SB_FLAG_BUILDING) then mret tt
            else
              go_on ← obliterate b r;
              if go_on : bool then leave_inode r;; merge_next b r;; merge_prev b r else mret tt
  end.

(** ** erase.c *)

(** The block goes back to the head of [erase_pending_list] (lines 60 to 67 and 89 to 96). *)
Definition refile_pending (b : nat) : P unit :=
  list_del b;; list_add b erase_pending_list;;
  puts (on_erasing_size (add32 (- sector_size)));; charge_total Dirty sector_size;; set_size Dirty b sector_size.
(** [jffs2_erase_block]: [c->mtd->erase] may call back before it returns. *)
Definition jffs2_erase_block (b : nat) : P unit :=
  ok ← kmalloc;
  if negb ok then refile_pending b
  else
    '(ret, _) ← gets (λ s, match erase_answers (env s) with [] => (0, 0) | a :: _ => a end);
    puts (on_env take_answer);;
    if negb (truthy ret) then spin_unlock
    else if (ret =? - ENOMEM) || (ret =? - EAGAIN) then refile_pending b
    else jffs2_erase_failed b.

(** [SECTOR_ADDR] *)
Definition SECTOR_ADDR (x : Z) : Z := x &&& u32 (~~~ (sector_size - 1)).
(** [jffs2_remove_node_refs_from_ino_list]: [prev] and [ic] are the local variables. *)
Fixpoint remove_refs_loop (fuel : nat) (b_offset : Z) (r : nat) (prev : slot) (ic : option nat) : P (option nat) :=
  match fuel with
  | O => fault
  | S fuel =>
      l ← get_slot prev;
      match l with
      | Null => fault
      | ToCache i => remove_refs_loop fuel b_offset r (NodesOf i) (Some i)
      | ToRef this =>
          x ← raw this;
          if decide (next_in_ino x = Null) then fault
          else if SECTOR_ADDR (flash_offset x) =? b_offset then
            set_slot prev (next_in_ino x);; on_raw this (with_next Null);;
            if decide (this = r) then mret ic else remove_refs_loop fuel b_offset r prev ic
          else remove_refs_loop fuel b_offset r (NextOf this) ic
      end
  end.
Definition jffs2_remove_node_refs_from_ino_list (r : nat) (b : nat) : P unit :=
  j ← block b; fuel ← chain_fuel;
  ic ← remove_refs_loop fuel (offset j) r (NextOf r) None;
  match ic with None => mret tt | Some i => drop_unused_cache i end.
(** [jffs2_free_all_node_refs]: [l] is the list from [jeb->first_node] on. *)
Fixpoint free_refs (b : nat) (l : list nat) : P unit :=
  match l with
  | [] => mret tt
  | r :: l =>
      on_block b (on_phys (λ _, l));;
      x ← raw r;
      (if decide (next_in_ino x = Null) then mret tt else jffs2_remove_node_refs_from_ino_list r b);;
      jffs2_free_raw_node_ref r;; free_refs b l
  end.
Definition jffs2_free_all_node_refs (b : nat) : P unit := j ← block b; free_refs b (phys j).

(** [jffs2_block_check_erase]: the result, and [*bad_offset].  [words] looks for a word that is not all
    ones; a goto fail leaves [ret] as the last read set it. *)
Fixpoint word_blank (n : nat) (l : list Z) : bool :=
  match n with O => true | S n => match l with [] => true | x :: l => (x =? 255) && word_blank n l end end.
Fixpoint words (fuel : nat) (l : list Z) (i : Z) : option Z :=
  match fuel, l with
  | S fuel, _ :: _ => if word_blank 4 l then words fuel (drop 4 l) (i + 4) else Some i
  | _, _ => None
  end.
Fixpoint check_pages (fuel : nat) (ofs last ret bad : Z) : P (Z * Z) :=
  match fuel with
  | O => fault
  | S fuel =>
      if negb (ofs <? last) then mret (0, bad)
      else
        let readlen := Z.min PAGE_SIZE (last - ofs) in
        '(ret, buf) ← jffs2_flash_read ofs readlen;
        if truthy ret then mret (ret, ofs)
        else if negb (Z.of_nat (length buf) =? readlen) then mret (ret, ofs)
        else
          match words (length buf) buf 0 with
          | Some i => mret (ret, ofs + i)
          | None => check_pages fuel (ofs + readlen) last ret ofs
          end
  end.
Definition jffs2_block_check_erase (b : nat) : P (Z * Z) :=
  ok ← kmalloc;
  if negb ok then mret (- EAGAIN, 0)
  else
    j ← block b;
    check_pages (S (Z.to_nat sector_size)) (offset j) (u32 (offset j + sector_size)) (- EIO) 0.

(** [jffs2_mark_erased_block]: its three ways out, then the function.  The block is on no list. *)
Definition refile_complete (b : nat) : P unit := list_add b erase_complete_list.
Definition file_bad (b : nat) : P unit := list_add b erasing_list;; jffs2_erase_failed b.
Definition file_free (b : nat) (l : list nat) (free : Z) (used : Z) : P unit :=
  on_block b (on_phys (λ _, l));; set_size Free b free;; set_size Used b used;; set_size Dirty b 0;; set_size Wasted b 0;;
  puts (on_erasing_size (add32 (- sector_size)));; charge_total Free free;; charge_total Used used;;
  acct_checks b;;
  list_add_tail b free_list;; puts (on_nr_erasing_blocks (add32 (-1)));; puts (on_nr_free_blocks (add32 1));; spin_unlock.
Definition clean_marker : list Z :=
  let h := [JFFS2_MAGIC_BITMASK; JFFS2_NODETYPE_CLEANMARKER; cleanmarker_size] in
  Layout.pack header_widths (h ++ [Crc.crc32 0 (Layout.pack [2; 2; 4]%nat h)]).
Definition jffs2_mark_erased_block (b : nat) : P unit :=
  '(code, _) ← jffs2_block_check_erase b;
  if code =? - EAGAIN then refile_complete b
  else if code =? - EIO then file_bad b
  else if cleanmarker_size =? 0 then file_free b [] sector_size 0
  else
    marker_ref ← jffs2_alloc_raw_node_ref;
    match marker_ref with
    | None => refile_complete b
    | Some r =>
        j ← block b;
        '(ret, retlen) ← jffs2_flash_direct_writev [clean_marker] (offset j);
        if truthy ret || negb (retlen =? sizeof_unknown_node) then jffs2_free_raw_node_ref r;; file_bad b
        else
          on_raw r (λ _, Ref (offset j ||| REF_NORMAL) cleanmarker_size Null);;
          file_free b [r] (u32 (sector_size - cleanmarker_size)) cleanmarker_size
    end.

(** [jffs2_erase_pending_blocks]: a block taken from [erase_pending_list] (lines 129 to 143), then the loop. *)
Definition start_erase (b : nat) : P unit :=
  list_del b;;
  puts (on_erasing_size (add32 sector_size));;
  j ← block b;
  charge Wasted b (- wasted_size (size j));; charge Free b (- free_size (size j));;
  charge Used b (- used_size (size j));; charge Dirty b (- dirty_size (size j));;
  jffs2_free_all_node_refs b;;
  list_add b erasing_list;; jffs2_erase_block b.
Fixpoint erase_loop (fuel : nat) (count : Z) : P unit :=
  match fuel with
  | O => fault
  | S fuel =>
      s ← gets id;
      match lists s erase_complete_list, lists s erase_pending_list with
      | b :: _, _ =>
          list_del b;; spin_unlock;; jffs2_mark_erased_block b;;
          if count - 1 =? 0 then mret tt else erase_loop fuel (count - 1)
      | [], b :: _ => start_erase b;; erase_loop fuel count
      | [], [] => spin_unlock
      end
  end.
(** What the environment can still do against us, and enough turns. *)
Definition misfortunes (e : environment) : nat := length (memory e) + length (erase_answers e) + length (callbacks e).
Definition erase_fuel : P nat :=
  gets (λ s, (1 + 3 * misfortunes (env s) + 2 * length (lists s erase_pending_list) + length (lists s erasing_list) +
              length (lists s erase_complete_list))%nat).
Definition jffs2_erase_pending_blocks (count : Z) : P unit := fuel ← erase_fuel; erase_loop fuel count.

(** ** nodemgmt.c: reserving room *)

(** The end of the block is skipped and the block filed (lines 180 to 212). *)
Definition file_nextblock (b : nat) : P unit :=
  j ← block b;
  charge Wasted b (free_size (size j));; charge Free b (- free_size (size j));;
  j ← block b;
  (if ISDIRTY (u32 (wasted_size (size j) + dirty_size (size j))) then
     charge Dirty b (wasted_size (size j));; charge Wasted b (- wasted_size (size j));;
     j ← block b;
     list_add_tail b (if VERYDIRTY (dirty_size (size j)) then very_dirty_list else dirty_list)
   else list_add_tail b clean_list);;
  set_nextblock None.
(** No free block (lines 219 to 259). *)
Definition erase_for_room : P (Z * Z * Z) :=
  s ← gets id;
  (match lists s erasable_list with
   | e :: _ =>
       if nr_erasing_blocks s =? 0 then
         list_del e;; list_add_tail e erase_pending_list;; puts (on_nr_erasing_blocks (add32 1))
       else mret tt
   | [] => mret tt
   end);;
  s ← gets id;
  if (nr_erasing_blocks s =? 0) && bool_decide (lists s erasable_pending_wbuf_list ≠ []) then mret (- EAGAIN, 0, 0)
  else if nr_erasing_blocks s =? 0 then mret (- ENOSPC, 0, 0)
  else spin_unlock;; jffs2_erase_pending_blocks 1;; mret (- EAGAIN, 0, 0).
(** The answer (lines 270 to 285); a clean marker in front of the room becomes obsolete. *)
Definition grant (b : nat) : P (Z * Z * Z) :=
  j ← block b;
  let ofs := u32 (offset j + (sector_size - free_size (size j))) in
  let len := free_size (size j) in
  (if truthy cleanmarker_size && (used_size (size j) =? cleanmarker_size) then
     match phys j with
     | [] => fault
     | r :: _ =>
         x ← raw r;
         if decide (next_in_ino x = Null) then spin_unlock;; jffs2_mark_node_obsolete (Some r) else mret tt
     end
   else mret tt);;
  mret (0, ofs, len).
(** [jffs2_do_reserve_space]: result, [*ofs] and [*len]. *)
Fixpoint do_reserve_loop (fuel : nat) (minsize : Z) : P (Z * Z * Z) :=
  match fuel with
  | O => fault
  | S fuel =>
      next ← gets nextblock;
      (match next with
       | Some b => j ← block b; if free_size (size j) <? minsize then file_nextblock b else mret tt
       | None => mret tt
       end);;
      s ← gets id;
      match nextblock s with
      | Some b => grant b
      | None =>
          match lists s free_list with
          | [] => erase_for_room
          | b :: _ =>
              list_del b;; set_nextblock (Some b);; puts (on_nr_free_blocks (add32 (-1)));;
              j ← block b;
              if negb (free_size (size j) =? u32 (sector_size - cleanmarker_size)) then do_reserve_loop fuel minsize
              else grant b
          end
      end
  end.
Definition jffs2_do_reserve_space (minsize : Z) : P (Z * Z * Z) :=
  fuel ← gets (λ s, S (S (length (lists s free_list)))); do_reserve_loop fuel minsize.

(** [jffs2_reserve_space_gc] *)
Fixpoint gc_reserve_loop (fuel : nat) (minsize : Z) : P (Z * Z * Z) :=
  match fuel with
  | O => fault
  | S fuel =>
      '(ret, ofs, len) ← jffs2_do_reserve_space minsize;
      if ret =? - EAGAIN then gc_reserve_loop fuel minsize else spin_unlock;; mret (ret, ofs, len)
  end.
Definition reserve_fuel : P nat :=
  gets (λ s, (3 + 3 * misfortunes (env s) + 3 * length (lists s erasable_list) + 2 * length (lists s erase_pending_list) +
              length (lists s erasing_list) + length (lists s erase_complete_list))%nat).
Definition jffs2_reserve_space_gc (minsize : Z) : P (Z * Z * Z) :=
  fuel ← reserve_fuel; gc_reserve_loop fuel (PAD minsize).

(** The two conditions of [jffs2_reserve_space] and its decision before a pass of the collector:
    [Some false] is -ENOSPC, [Some true] leaves the inner loop, [None] collects. *)
Definition low_on_dirty (s : sb) : bool :=
  u32 (dirty_size (total s) + erasing_size s - nr_erasing_blocks s * sector_size + unchecked_size (total s)) <? nospc_dirty_size.
Definition low_on_available (s : sb) : bool :=
  u32 (free_size (total s) + dirty_size (total s) + erasing_size s + unchecked_size (total s)) / sector_size <=? resv_blocks_write.
Definition before_pass (prio : Z) (s : sb) : option bool :=
  if low_on_dirty s || low_on_available s
  then Some ((prio =? ALLOC_DELETION) && (resv_blocks_deletion <=? u32 (nr_free_blocks s + nr_erasing_blocks s)))
  else None.
(** [jffs2_reserve_space]; [jffs2_garbage_collect_pass] is the parameter [pass], [signal_pending] is
    [signals].  The answers of the passes and of [jffs2_do_reserve_space] share the fuel. *)
Definition few_blocks (s : sb) : bool := u32 (nr_free_blocks s + nr_erasing_blocks s) <? resv_blocks_write.
Fixpoint reserve_loop (pass : P Z) (signals : P bool) (fuel : nat) (prio minsize : Z) : P (Z * Z * Z) :=
  match fuel with
  | O => fault
  | S fuel =>
      s ← gets id;
      match (if few_blocks s then before_pass prio s else Some true) with
      | Some false => spin_unlock;; mret (- ENOSPC, 0, 0)
      | Some true =>
          '(ret, ofs, len) ← jffs2_do_reserve_space minsize;
          if ret =? - EAGAIN then reserve_loop pass signals fuel prio minsize else spin_unlock;; mret (ret, ofs, len)
      | None =>
          spin_unlock;;
          ret ← pass;
          if truthy ret then mret (ret, 0, 0)
          else
            pending ← signals;
            if pending : bool then mret (- EINTR, 0, 0) else reserve_loop pass signals fuel prio minsize
      end
  end.
Definition jffs2_reserve_space (pass : P Z) (signals : P bool) (fuel : nat) (minsize prio : Z) : P (Z * Z * Z) :=
  reserve_loop pass signals fuel prio (PAD minsize).

(** [jffs2_add_physical_node_ref] *)
Definition jffs2_add_physical_node_ref (new : nat) : P Z :=
  x ← raw new;
  let b := Z.to_nat (flash_offset x / sector_size) in
  j ← block b; len ← ref_totlen b new; next ← gets nextblock;
  if (bool_decide (next ≠ None) || negb (ref_obsolete x)) &&
     (negb (bool_decide (next = Some b)) || negb (ref_offset x =? u32 (offset j + (sector_size - free_size (size j)))))
  then jffs2_free_raw_node_ref new;; mret (- EINVAL)
  else
    on_block b (on_phys (λ l, l ++ [new]));;
    charge Free b (- len);; charge (if ref_obsolete x then Dirty else Used) b len;;
    j ← block b;
    (if (free_size (size j) =? 0) && (dirty_size (size j) =? 0) && negb (ISDIRTY (wasted_size (size j)))
     then list_add_tail b clean_list;; set_nextblock None else mret tt);;
    acct_checks b;; spin_unlock;; mret 0.

(** ** write.c: the books of [jffs2_write_dnode] *)

Definition or_flags (fl : Z) (x : raw_ref) : raw_ref := Ref (flash_offset x ||| fl) (totlen x) (next_in_ino x).
(** The reference of a node of [len] bytes at [ofs]; the second allocation is the full node. *)
Definition prepare_raw (ofs len : Z) : P (option nat) :=
  raw ← jffs2_alloc_raw_node_ref;
  match raw with
  | None => mret None
  | Some r =>
      ok ← kmalloc;
      if negb ok then jffs2_free_raw_node_ref r;; mret None
      else on_raw r (λ x, Ref ofs (PAD len) (next_in_ino x));; mret (Some r)
  end.
(** The write failed: what it may have spoilt is reported as an obsolete node. *)
Definition report_failed (r : nat) (retlen : Z) : P unit :=
  if truthy retlen then
    on_raw r (with_next Null);; on_raw r (or_flags REF_OBSOLETE);;
    jffs2_add_physical_node_ref r;; jffs2_mark_node_obsolete (Some r)
  else jffs2_free_raw_node_ref r.
(** The write succeeded: the node is reported and goes to the head of the list of its inode. *)
Definition report_written (r : nat) (fl : Z) (i : nat) : P unit :=
  on_raw r (or_flags fl);; jffs2_add_physical_node_ref r;;
  raw r;; c ← cache i;
  on_raw r (with_next (nodes c));; puts (on_caches (alter (with_nodes (ToRef r)) i));; spin_unlock.
(** debug.c: [__jffs2_dbg_prewrite_paranoia_check]; data that is already there is BUG(). *)
Definition jffs2_dbg_prewrite_paranoia_check (ofs len : Z) : P unit :=
  ok ← kmalloc;
  if negb ok then mret tt
  else
    '(ret, buf) ← jffs2_flash_read ofs len;
    if truthy ret || negb (Z.of_nat (length buf) =? len) then mret tt
    else if existsb (λ x, negb (x =? 255)) buf then fault else mret tt.
(** The check of D1 at the head of the function: the CRC of the header that begins the node. *)
Definition header_good (node : list Z) : bool := nth 3 (Layout.unpack header_widths node) 0 =? Layout.header_crc node.
(** [jffs2_write_dnode] with [ALLOC_NORETRY]; [fl] is REF_PRISTINE or REF_NORMAL, by what the node covers. *)
Definition store_node (i : nat) (fl : Z) (vecs : list (list Z)) (ofs : Z) : P Z :=
  let len := Z.of_nat (length (concat vecs)) in
  if negb (header_good (concat vecs)) then fault
  else
    jffs2_dbg_prewrite_paranoia_check ofs len;;
    raw ← prepare_raw ofs len;
    match raw with
    | None => mret (- ENOMEM)
    | Some r =>
        '(ret, retlen) ← jffs2_flash_direct_writev vecs ofs;
        if truthy ret || negb (retlen =? len) then report_failed r retlen;; mret (if truthy ret then ret else - EIO)
        else report_written r fl i;; mret 0
    end.

(** [jffs2_thread_should_wake] *)
Definition jffs2_thread_should_wake (s : sb) : Z :=
  if truthy (unchecked_size (total s)) then 1
  else
    let dirty := u32 (dirty_size (total s) + erasing_size s - nr_erasing_blocks s * sector_size) in
    c_bool ((u32 (nr_free_blocks s + nr_erasing_blocks s) <? resv_blocks_gctrigger) && (nospc_dirty_size <? dirty)).
End Store.

(** build.c: [jffs2_calc_trigger_levels]; the reserves are [uint8_t]. *)
Definition jffs2_calc_trigger_levels (sector_size cleanmarker_size nr_blocks flash_size : Z) : Geometry :=
  let size := u32 (u32 (flash_size / 50 + u32 (nr_blocks * 100)) + (sector_size - 1)) in
  let write := u8 (2 + size / sector_size) in
  Build_Geometry sector_size cleanmarker_size nr_blocks flash_size write 2 (u8 (write + 1)) 0 (u32 (sector_size + flash_size / 100)).
End Space.
