(* ===== verification/Jffs2Books.v ===== *)
(** * Jffs2Books: what the books of the flash say (fs/jffs2/nodelist.h, debug.c, debug.h)

    The invariant of the state of Jffs2Space.v.  The sizes of a block are those of its nodes, which lie in it
    one behind the other ([jeb_ok]); the sums of the superblock are the sums over the blocks ([books]); each
    block is in one place ([placed]) and what it holds fits the place ([shaped]); the counters count
    ([counted]); the chains of the inodes hold the nodes that say they belong to one ([chained]);
    and where the next nodes go the flash is blank ([unspoilt]). *)

From S2P Require Import Prelude Jffs2Frag Jffs2Compr Jffs2Node Jffs2File Jffs2Write Crc32 Jffs2Space.

(** ** Arithmetic *)

Lemma u32_add_l a b : u32 (u32 a + b) = u32 (a + b).
Proof. unfold u32. apply Z.add_mod_idemp_l. lia. Qed.
Lemma u32_add_r a b : u32 (a + u32 b) = u32 (a + b).
Proof. unfold u32. apply Z.add_mod_idemp_r. lia. Qed.
Lemma u32_sub_r a b : u32 (a - u32 b) = u32 (a - b).
Proof. unfold u32. apply Zminus_mod_idemp_r. Qed.

Definition zsum (l : list Z) : Z := foldr Z.add 0 l.
Lemma zsum_cons x l : zsum (x :: l) = x + zsum l.
Proof. done. Qed.
#[local] Opaque zsum.
Lemma zsum_app l l' : zsum (l ++ l') = zsum l + zsum l'.
Proof. induction l as [|x l IH]; [done|]. rewrite <-app_comm_cons, !zsum_cons. lia. Qed.
Lemma zsum_alter {A} (g : A → Z) (f : A → A) (b : nat) (l : list A) j :
  l !! b = Some j → zsum (g <$> alter f b l) = zsum (g <$> l) + (g (f j) - g j).
Proof.
  revert b. induction l as [|x l IH]; intros [|b] Hb; try done.
  - injection Hb as ->. change (alter f 0%nat (j :: l)) with (f j :: l). rewrite !fmap_cons, !zsum_cons. lia.
  - change (alter f (S b) (x :: l)) with (x :: alter f b l). rewrite !fmap_cons, !zsum_cons, (IH _ Hb). lia.
Qed.
Lemma zsum_bound l m : Forall (λ x, 0 <= x <= m) l → 0 <= zsum l <= Z.of_nat (length l) * m.
Proof. induction 1; [done|]. rewrite zsum_cons. cbn [length]. lia. Qed.
Lemma zsum_nonneg l : Forall (λ x, 0 <= x) l → 0 <= zsum l.
Proof. induction 1; [done|]. rewrite zsum_cons. lia. Qed.
Lemma zsum_In l x : Forall (λ x, 0 <= x) l → x ∈ l → 0 <= zsum l - x.
Proof.
  induction 1 as [|y l Hy Hl IH]; [by intros ?%elem_of_nil|]. rewrite zsum_cons.
  pose proof (zsum_nonneg l Hl).
  intros [->|Hx]%elem_of_cons; [lia|]. specialize (IH Hx). lia.
Qed.

(** ** Sizes *)

Section Sizes.
Import Space.
Definition sum (z : sizes) : Z := used_size z + dirty_size z + free_size z + wasted_size z + unchecked_size z.
Lemma get_upd k k' f z : get k (upd k' f z) = if decide (k = k') then f (get k z) else get k z.
Proof. by destruct z, k, k'. Qed.
Lemma get_upd_eq k f z : get k (upd k f z) = f (get k z).
Proof. by destruct z, k. Qed.
Lemma get_upd_ne k k' f z : k ≠ k' → get k (upd k' f z) = get k z.
Proof. by destruct z, k, k'. Qed.
Lemma sum_upd k f z : sum (upd k f z) = sum z + (f (get k z) - get k z).
Proof. destruct z, k; cbn; unfold sum; cbn; lia. Qed.
Definition nonneg (z : sizes) : Prop := ∀ k, 0 <= get k z.
Lemma get_le_sum k z : nonneg z → get k z <= sum z.
Proof. intros H. pose proof (H Unchecked). pose proof (H Used). pose proof (H Dirty). pose proof (H Wasted). pose proof (H Free). destruct z, k; unfold sum; cbn in *; lia. Qed.
(** [n] bytes more of one kind. *)
Definition plus (k : kind) (n : Z) : sizes → sizes := upd k (λ x, x + n).
Lemma get_plus k k' n z : get k (plus k' n z) = get k z + (if decide (k = k') then n else 0).
Proof. unfold plus. rewrite get_upd. cbv beta. case_decide; lia. Qed.
Lemma sum_plus k n z : sum (plus k n z) = sum z + n.
Proof. unfold plus. rewrite sum_upd. cbv beta. lia. Qed.
Lemma add32_plus k n z : 0 <= get k z + n < 2 ^ 32 → upd k (add32 n) z = plus k n z.
Proof. intros H. unfold plus, add32. destruct z, k; cbn in *; f_equal; apply u32_small; lia. Qed.
Lemma set_plus k n z : upd k (λ _, n) z = plus k (n - get k z) z.
Proof. destruct z, k; unfold plus; cbn; f_equal; lia. Qed.
Lemma sizes_eq z z' : (∀ k, get k z = get k z') → z = z'.
Proof.
  intros H. pose proof (H Unchecked). pose proof (H Used). pose proof (H Dirty). pose proof (H Wasted). pose proof (H Free).
  destruct z, z'; cbn in *. congruence.
Qed.
Lemma on_size_on_size f g j : on_size f (on_size g j) = on_size (λ z, f (g z)) j.
Proof. done. Qed.
End Sizes.

(** ** References *)

Section References.
Import Space.
(** An address of the flash and a padded length. *)
Definition ref_ok (x : raw_ref) : Prop := 0 <= flash_offset x < 2 ^ 32 ∧ totlen x mod 4 = 0.
Lemma land_3 v : v &&& 3 = v mod 4.
Proof. exact (Z.land_ones v 2 ltac:(lia)). Qed.
Lemma land_align v : 0 <= v < 2 ^ 32 → v &&& 0xfffffffc = v - v mod 4.
Proof.
  intros Hv. change 0xfffffffc with (Z.ones 30 <<< 2). assert ((v &&& (Z.ones 30 <<< 2)) = v >>> 2 <<< 2) as ->.
  { apply Z.bits_inj'. intros i Hi. rewrite Z.land_spec, testbit_field by lia. destruct (Z.leb_spec 2 i).
    - rewrite Z.shiftl_spec, Z.shiftr_spec by lia. replace (i - 2 + 2) with i by lia. destruct (Z.ltb_spec i (2 + 30)); [by rewrite andb_true_r|].
      by rewrite (testbit_above v 32 i) by lia.
    - by rewrite Z.shiftl_spec_low, andb_false_r by lia. }
  rewrite Z.shiftl_mul_pow2, Z.shiftr_div_pow2 by lia. change (2 ^ 2) with 4. Z.to_euclidean_division_equations. lia.
Qed.
Lemma ref_flags_mod x : ref_flags x = flash_offset x mod 4.
Proof. apply land_3. Qed.
Lemma ref_offset_eq x : ref_ok x → ref_offset x = flash_offset x - flash_offset x mod 4.
Proof. intros [Hx _]. by apply land_align. Qed.
Lemma ref_obsolete_flags x : ref_obsolete x = (ref_flags x =? REF_OBSOLETE).
Proof. done. Qed.
(** An offset and the two bits beside it. *)
Lemma lor_flags o fl : 0 <= fl < 4 → o mod 4 = 0 → o ||| fl = o + fl.
Proof.
  intros Hf Ho. rewrite Z.add_nocarry_lxor, Z.lxor_lor; [done|..].
  all: apply Z.bits_inj'; intros i Hi; rewrite Z.land_spec, Z.bits_0; destruct (Z.lt_ge_cases i 2) as [Hi2|Hi2].
  all: try (rewrite (testbit_above fl 2 i), andb_false_r; [done|lia..]).
  all: rewrite <-(Z.mod_pow2_bits_low o 2 i) by lia; change (2 ^ 2) with 4; by rewrite Ho, Z.bits_0.
Qed.
Lemma made_ref o fl n l : 0 <= fl < 4 → 0 <= o → o + 4 <= 2 ^ 32 → o mod 4 = 0 → n mod 4 = 0 →
  let x := Ref (o ||| fl) n l in ref_ok x ∧ ref_offset x = o ∧ ref_flags x = fl.
Proof.
  intros Hf Ho Ho' Hm Hn x. assert (flash_offset x = o + fl) as Hx by (by apply lor_flags).
  assert (ref_ok x) as Hok by (split; [rewrite Hx; lia|done]). split; [done|]. rewrite ref_offset_eq, ref_flags_mod, Hx by done.
  rewrite Z.add_mod, Hm, Z.add_0_l, Zmod_mod, (Z.mod_small fl) by lia. lia.
Qed.
Lemma ref_offset_aligned x : ref_ok x → ref_offset x mod 4 = 0 ∧ 0 <= ref_offset x ∧ ref_offset x + 4 <= 2 ^ 32 ∧ flash_offset x = ref_offset x + ref_flags x ∧ 0 <= ref_flags x < 4.
Proof.
  intros Hx. rewrite ref_offset_eq, ref_flags_mod by done. destruct Hx as [Hx _]. Z.to_euclidean_division_equations. lia.
Qed.
Lemma with_flags_ref fl x : 0 <= fl < 4 → ref_ok x → ref_ok (with_flags fl x) ∧ ref_offset (with_flags fl x) = ref_offset x ∧ ref_flags (with_flags fl x) = fl.
Proof. intros Hf Hx. destruct (ref_offset_aligned x Hx) as (? & ? & ? & _). apply made_ref; try done. apply Hx. Qed.

(** What the bytes of a node are charged as, while it is on the list of its block. *)
Definition class_of (x : raw_ref) : kind := if ref_flags x =? REF_UNCHECKED then Unchecked else if ref_obsolete x then Dirty else Used.
Definition live (R : gmap nat raw_ref) (k : kind) (l : list nat) : Z :=
  zsum ((λ r, match R !! r with Some x => if decide (class_of x = k) then totlen x else 0 | None => 0 end) <$> l).
(** The nodes [l] lie between [lo] and [hi], in this order, and do not overlap; each has room for a header. *)
Fixpoint spans (R : gmap nat raw_ref) (lo : Z) (l : list nat) (hi : Z) : Prop :=
  match l with
  | [] => lo <= hi
  | r :: l => ∃ x, R !! r = Some x ∧ ref_ok x ∧ 12 <= totlen x ∧ lo <= ref_offset x ∧ spans R (ref_offset x + totlen x) l hi
  end.

Lemma spans_le R lo l hi : spans R lo l hi → lo <= hi.
Proof. revert lo. induction l as [|r l IH]; intros lo; [done|]. intros (x & _ & _ & ? & ? & H%IH). lia. Qed.
Lemma spans_weaken R lo lo' l hi hi' : lo' <= lo → hi <= hi' → spans R lo l hi → spans R lo' l hi'.
Proof.
  revert lo lo'. induction l as [|r l IH]; intros lo lo' Hlo Hhi; cbn; [lia|].
  intros (x & ? & ? & ? & ? & H). exists x. split_and!; try done; [lia|]. by eapply (IH _ _ (Z.le_refl _) Hhi).
Qed.
Lemma spans_app R lo l l' hi : spans R lo (l ++ l') hi ↔ ∃ mid, spans R lo l mid ∧ spans R mid l' hi.
Proof.
  revert lo. induction l as [|r l IH]; intros lo; cbn.
  - split; [intros H; exists lo; split; [lia|done]|intros (m & ? & H); by eapply spans_weaken].
  - split.
    + intros (x & ? & ? & ? & ? & (m & ? & ?)%IH). exists m. split; [|done]. by exists x.
    + intros (m & (x & ? & ? & ? & ? & ?) & ?). exists x. split_and!; try done. apply IH. by exists m.
Qed.
Lemma spans_elem R lo l hi r : spans R lo l hi → r ∈ l → ∃ x, R !! r = Some x ∧ ref_ok x ∧ 12 <= totlen x ∧ lo <= ref_offset x ∧ ref_offset x + totlen x <= hi.
Proof.
  intros H (l1 & l2 & ->)%list_elem_of_split. apply spans_app in H as (m & H1%spans_le & x & ? & ? & ? & ? & H2%spans_le).
  exists x. split_and!; [done..|lia|lia].
Qed.
Lemma spans_NoDup R lo l hi : spans R lo l hi → NoDup l.
Proof.
  revert lo. induction l as [|r l IH]; intros lo; [constructor|]. intros (x & Hx & ? & ? & ? & H). constructor; [|by eapply IH].
  intros Hr. destruct (spans_elem _ _ _ _ _ H Hr) as (y & Hy & ? & ? & ? & ?). simplify_eq. lia.
Qed.
(** Only the offsets and the lengths matter. *)
Definition same_place (R R' : gmap nat raw_ref) (l : list nat) : Prop :=
  ∀ r x, r ∈ l → R !! r = Some x → ∃ x', R' !! r = Some x' ∧ (ref_ok x → ref_ok x') ∧ ref_offset x' = ref_offset x ∧ totlen x' = totlen x.
Lemma spans_same R R' lo l hi : same_place R R' l → spans R lo l hi → spans R' lo l hi.
Proof.
  revert lo. induction l as [|r l IH]; intros lo Hs; [done|]. intros (x & Hx & ? & ? & ? & H).
  destruct (Hs r x) as (x' & Hx' & Hok & Ho & Ht); [left|done|]. exists x'. rewrite Ho, Ht. split_and!; try done; [by apply Hok|].
  apply IH; [|done]. intros r' y ?. apply Hs. by right.
Qed.
Definition same_class (R R' : gmap nat raw_ref) (l : list nat) : Prop :=
  ∀ r x, r ∈ l → R !! r = Some x → ∃ x', R' !! r = Some x' ∧ class_of x' = class_of x ∧ totlen x' = totlen x.
Lemma live_same R R' k l : same_class R R' l → (∀ r, r ∈ l → is_Some (R !! r)) → live R' k l = live R k l.
Proof.
  intros Hs Hd. unfold live. f_equal. apply list_fmap_ext. intros i r Hr%list_elem_of_lookup_2. destruct (Hd r Hr) as [x Hx].
  destruct (Hs r x Hr Hx) as (x' & Hx' & Hc & Ht). by rewrite Hx, Hx', Hc, Ht.
Qed.
Lemma live_cons R k r l x : R !! r = Some x → live R k (r :: l) = (if decide (class_of x = k) then totlen x else 0) + live R k l.
Proof. intros Hx. unfold live. rewrite fmap_cons, zsum_cons. by rewrite Hx. Qed.
Lemma live_app R k l l' : live R k (l ++ l') = live R k l + live R k l'.
Proof. unfold live. by rewrite fmap_app, zsum_app. Qed.
Lemma live_nonneg R k l lo hi : spans R lo l hi → 0 <= live R k l.
Proof.
  intros H. unfold live. apply zsum_nonneg, Forall_fmap, Forall_forall. intros q Hq.
  destruct (spans_elem _ _ _ _ _ H Hq) as (y & Hy & _ & ? & _). cbn. rewrite Hy. case_decide; lia.
Qed.
Lemma live_elem R k l x r lo hi : spans R lo l hi → r ∈ l → R !! r = Some x → class_of x = k → totlen x <= live R k l.
Proof.
  intros H Hr Hx Hk. unfold live. assert (totlen x ∈ (λ r, match R !! r with Some x => if decide (class_of x = k) then totlen x else 0 | None => 0 end) <$> l) as Hin.
  { apply list_elem_of_fmap. exists r. split; [|done]. by rewrite Hx, decide_True. }
  apply zsum_In in Hin; [lia|]. apply Forall_fmap, Forall_forall. intros q Hq. destruct (spans_elem _ _ _ _ _ H Hq) as (y & Hy & ? & ? & ?).
  cbn. rewrite Hy. case_decide; lia.
Qed.
End References.

(** ** Chains *)

Section Chains.
Import Space.
(** From the link [l] over the nodes [ns] to the link [l']. *)
Fixpoint seg (R : gmap nat raw_ref) (l : link) (ns : list nat) (l' : link) : Prop :=
  match ns with [] => l = l' | r :: ns => l = ToRef r ∧ ∃ x, R !! r = Some x ∧ seg R (next_in_ino x) ns l' end.
Definition chain (R : gmap nat raw_ref) (c : inode_cache) (ns : list nat) (i : nat) : Prop := seg R (nodes c) ns (ToCache i).
(** The list of every cache ends in it, and a node that says it belongs to an inode is on a list. *)
Definition chained (R : gmap nat raw_ref) (C : gmap nat inode_cache) : Prop :=
  (∀ i c, C !! i = Some c → ∃ ns, chain R c ns i) ∧
  (∀ r x, R !! r = Some x → next_in_ino x ≠ Null → ∃ i c ns, C !! i = Some c ∧ chain R c ns i ∧ r ∈ ns).

Lemma seg_app R l a b l' : seg R l (a ++ b) l' ↔ ∃ m, seg R l a m ∧ seg R m b l'.
Proof.
  revert l. induction a as [|r a IH]; intros l; cbn; [split; [by exists l|by intros (m & -> & ?)]|]. split.
  - intros (-> & x & Hx & (m & ? & ?)%IH). exists m. split; [|done]. split; [done|]. by exists x.
  - intros (m & (-> & x & Hx & ?) & ?). split; [done|]. exists x. split; [done|]. apply IH. by exists m.
Qed.
Lemma seg_frame R R' l ns l' : (∀ r x, r ∈ ns → R !! r = Some x → ∃ x', R' !! r = Some x' ∧ next_in_ino x' = next_in_ino x) → seg R l ns l' → seg R' l ns l'.
Proof.
  revert l. induction ns as [|r ns IH]; intros l Hf; [done|]. intros (-> & x & Hx & H). split; [done|].
  destruct (Hf r x) as (x' & ? & Hn); [left|done|]. exists x'. split; [done|]. rewrite Hn. apply IH; [|done]. intros r' y ?. apply Hf. by right.
Qed.
Lemma seg_det R l ns ns' i i' : seg R l ns (ToCache i) → seg R l ns' (ToCache i') → ns = ns' ∧ i = i'.
Proof.
  revert l ns'. induction ns as [|r ns IH]; intros l [|r' ns']; cbn.
  - intros -> [= ->]. done.
  - intros -> [? _]. done.
  - intros [-> _] ?. done.
  - intros (-> & x & Hx & H) ([= <-] & x' & Hx' & H'). simplify_eq. destruct (IH _ _ H H') as [-> ->]. done.
Qed.
Lemma seg_NoDup R l ns i : seg R l ns (ToCache i) → NoDup ns.
Proof.
  revert l. induction ns as [|r ns IH]; intros l H; [constructor|]. pose proof H as (-> & x & Hx & H'). constructor; [|by eapply IH].
  intros (a & b & ->)%list_elem_of_split. apply seg_app in H' as (m & _ & Hr). pose proof Hr as [-> _].
  destruct (seg_det _ _ _ _ _ _ H Hr) as [Heq _]. apply (f_equal length) in Heq. cbn in Heq. rewrite length_app in Heq. cbn in Heq. lia.
Qed.
Lemma seg_elem R l ns i r : seg R l ns (ToCache i) → r ∈ ns → ∃ x, R !! r = Some x ∧ next_in_ino x ≠ Null.
Proof.
  intros H (a & b & ->)%list_elem_of_split. apply seg_app in H as (m & _ & -> & x & Hx & H). exists x. split; [done|].
  destruct b; cbn in H; [by rewrite H|]. by destruct H as [-> _].
Qed.
(** A node is on one list only. *)
Lemma chain_disjoint R i c ns i' c' ns' r : chain R c ns i → chain R c' ns' i' → r ∈ ns → r ∈ ns' → i = i'.
Proof.
  intros H H' (a & b & ->)%list_elem_of_split (a' & b' & ->)%list_elem_of_split. apply seg_app in H as (m & _ & H).
  apply seg_app in H' as (m' & _ & H'). pose proof H as [-> _]. pose proof H' as [-> _]. by destruct (seg_det _ _ _ _ _ _ H H').
Qed.
End Chains.

(** ** The invariant *)

(** What the superblock says of the flash: sectors of a power of two, less than 4 GB, room for a marker. *)
Class Geometric `{!Geometry} : Prop := {
  geo_sector : ∃ k, 2 <= k ∧ sector_size = 2 ^ k;
  geo_flash : flash_size = nr_blocks * sector_size;
  geo_blocks : 0 <= nr_blocks;
  geo_size : flash_size < 2 ^ 32;
  geo_marker : cleanmarker_size = 0 ∨ 12 <= cleanmarker_size <= sector_size;
  geo_aligned : cleanmarker_size mod 4 = 0 }.

(** What the driver promises besides [Lawful]: a write of which it says that nothing was written has changed
    nothing, and an erase leaves ones, and the rest as it was. *)
Class Erasable (F : Type) `{!Mtd F} `{!Eraser F} : Prop := {
  law_write :: Lawful F;
  law_unwritten f o b ret f' o' b' : mtd_write f o b = (ret, 0, f') → stored f o' b' → stored f' o' b';
  law_erased f o n : blank (mtd_erased f o n) o (Z.to_nat n);
  law_kept f o n o' b' : stored f o' b' → o' + Z.of_nat (length b') <= o ∨ o + n <= o' → stored (mtd_erased f o n) o' b' }.

(** The lists of blocks that hold nodes. *)
Abbreviation use_lists := [Space.clean_list; Space.very_dirty_list; Space.dirty_list; Space.erasable_list; Space.bad_used_list].

Section Invariant.
Import Space.
Context {F : Type} `{!Mtd F} `{!Eraser F} {Geo : Geometry} {Lawful_geo : Geometric}.
Abbreviation state := (sb (F := F)).

Definition column (k : kind) (l : list eraseblock) : Z := zsum ((λ j, get k (size j)) <$> l).
Definition books (s : state) : Prop := ∀ k, get k (total s) = u32 (column k (blocks s)).
Definition balance (s : state) : Z := sum (total s) + erasing_size s + bad_size s.
Definition places (s : state) : list nat := option_list (nextblock s) ++ option_list (gcblock s) ++ (list_names ≫= lists s).
(** [h]: the block that a function holds in its hands. *)
Definition placed (h : list nat) (s : state) : Prop :=
  h ++ places s ≡ₚ seq 0 (length (blocks s)) ∧ Z.of_nat (length (blocks s)) = nr_blocks.
Record jeb_ok (R : gmap nat raw_ref) (b : nat) (j : eraseblock) : Prop := JebOk {
  ok_offset : offset j = Z.of_nat b * sector_size;
  ok_sizes : nonneg (size j);
  ok_aligned : free_size (size j) mod 4 = 0;
  ok_spans : spans R (offset j) (phys j) (offset j + sector_size - free_size (size j));
  ok_used : used_size (size j) = live R Used (phys j);
  ok_unchecked : unchecked_size (size j) = live R Unchecked (phys j) }.
Definition full (j : eraseblock) : Prop := sum (size j) = sector_size.
Definition emptied (j : eraseblock) : Prop := size j = Sizes 0 0 0 0 0 ∧ phys j = [].
Definition shape (R : gmap nat raw_ref) (n : list_name) (j : eraseblock) : Prop :=
  match n with
  | erasing_list | erase_complete_list | bad_list => emptied j
  | erase_pending_list | erasable_list => full j ∧ used_size (size j) = 0 ∧ unchecked_size (size j) = 0
  | free_list =>
      full j ∧ free_size (size j) = sector_size - cleanmarker_size ∧ used_size (size j) = cleanmarker_size ∧
      ∀ r x, r ∈ phys j → R !! r = Some x → next_in_ino x = Null
  | erasable_pending_wbuf_list => False
  | _ => full j
  end.
Definition shaped (h : list nat) (s : state) : Prop :=
  (∀ n b j, b ∈ lists s n → blocks s !! b = Some j → shape (refs s) n j) ∧
  (∀ b j, b ∈ h → blocks s !! b = Some j → emptied j) ∧
  (∀ b j, nextblock s = Some b ∨ gcblock s = Some b → blocks s !! b = Some j → full j).
Definition count (s : state) (n : list_name) : Z := Z.of_nat (length (lists s n)).
Record counted (h : list nat) (s : state) : Prop := Counted {
  ct_free : nr_free_blocks s = u32 (count s free_list);
  ct_erasing : nr_erasing_blocks s =
    u32 (Z.of_nat (length h) + count s erase_pending_list + count s erasing_list + count s erase_complete_list);
  ct_erasing_size : erasing_size s = u32 (sector_size * (Z.of_nat (length h) + count s erasing_list + count s erase_complete_list));
  ct_bad : bad_size s = u32 (sector_size * count s bad_list) }.
(** Where the next nodes go the flash is blank: behind the nodes of the open block and of the free ones, and
    in the blocks whose erase has succeeded. *)
Definition writable_tail (f : F) (j : eraseblock) : Prop :=
  blank f (offset j + sector_size - free_size (size j)) (Z.to_nat (free_size (size j))).
Definition unspoilt (s : state) : Prop := ∀ b j, blocks s !! b = Some j →
  (nextblock s = Some b ∨ b ∈ lists s free_list → writable_tail (flash s) j) ∧
  (b ∈ lists s erase_complete_list → blank (flash s) (offset j) (Z.to_nat sector_size)).
Record inv (h : list nat) (s : state) : Prop := Inv {
  inv_books : books s;
  inv_balance : u32 (balance s) = flash_size;
  inv_placed : placed h s;
  inv_shaped : shaped h s;
  inv_counted : counted h s;
  inv_blocks : ∀ b j, blocks s !! b = Some j → jeb_ok (refs s) b j;
  inv_chained : chained (refs s) (caches s);
  inv_unspoilt : unspoilt s }.

(** ** The checks of the code find nothing *)

Lemma sector_pos : 4 <= sector_size.
Proof. destruct geo_sector as (k & Hk & ->). change 4 with (2 ^ 2). apply Z.pow_le_mono_r; lia. Qed.
Lemma sector_aligned : sector_size mod 4 = 0.
Proof.
  destruct geo_sector as (k & Hk & ->). replace k with (k - 2 + 2) by lia. rewrite Z.pow_add_r by lia. apply Z.mod_mul. lia.
Qed.
Lemma block_bounds (s : state) h b j : placed h s → blocks s !! b = Some j → (Z.of_nat b + 1) * sector_size <= flash_size.
Proof. intros [_ Hl] Hb%lookup_lt_Some. rewrite geo_flash. pose proof sector_pos. nia. Qed.
Lemma in_block R b j r : jeb_ok R b j → (Z.of_nat b + 1) * sector_size <= flash_size → r ∈ phys j → ∃ x,
  R !! r = Some x ∧ ref_ok x ∧ 12 <= totlen x ∧ offset j <= ref_offset x ∧ ref_offset x + totlen x <= offset j + sector_size - free_size (size j) ∧
  flash_offset x / sector_size = Z.of_nat b ∧ offset j <= flash_offset x <= offset j + sector_size.
Proof.
  intros Hj Hb Hr. destruct (spans_elem _ _ _ _ _ (ok_spans _ _ _ Hj) Hr) as (x & Hx & Hok & Ht & Hlo & Hhi). exists x.
  pose proof (ok_sizes _ _ _ Hj Free) as Hfree. cbn in Hfree. pose proof sector_pos. pose proof (ok_offset _ _ _ Hj).
  destruct (ref_offset_aligned x Hok) as (Ha & ? & ? & Hf & ?).
  assert (offset j mod 4 = 0) as Hj4 by (rewrite (ok_offset _ _ _ Hj), Z.mul_mod, sector_aligned, Z.mul_0_r by lia; done).
  assert (ref_offset x + 4 <= offset j + sector_size) as Hend.
  { pose proof sector_aligned as Hs4. clear - Ha Hj4 Hs4 Hhi Hfree Ht. Z.to_euclidean_division_equations; lia. }
  split_and!; try done; try lia. symmetry. apply (Z.div_unique_pos _ _ _ (flash_offset x - offset j)); lia.
Qed.
Lemma full_le k j b R : jeb_ok R b j → full j → 0 <= get k (size j) <= sector_size.
Proof. intros Hj Hf. pose proof (get_le_sum k (size j) (ok_sizes _ _ _ Hj)). pose proof (ok_sizes _ _ _ Hj k). unfold full in Hf. lia. Qed.
Lemma sector_small (s : state) h b j : placed h s → blocks s !! b = Some j → 0 <= Z.of_nat b * sector_size ∧ Z.of_nat b * sector_size + sector_size < 2 ^ 32.
Proof. intros Hp Hb. pose proof (block_bounds _ _ _ _ Hp Hb). pose proof geo_size. pose proof sector_pos. nia. Qed.

Lemma ref_totlen_eq b r x (s : state) : refs s !! r = Some x → flash_offset x / sector_size = Z.of_nat b → ref_totlen b r s = Some (totlen x, s).
Proof. intros Hx Hb. unfold ref_totlen, raw, mbind, SM_bind. rewrite Hx, Hb, Z.eqb_refl. done. Qed.
Lemma tally_eq b ofs (s : state) l u c :
  (∀ r, r ∈ l → ∃ x, refs s !! r = Some x ∧ flash_offset x / sector_size = Z.of_nat b ∧ ofs <= flash_offset x <= ofs + sector_size) →
  0 <= ofs → ofs + sector_size < 2 ^ 32 → 0 <= u < 2 ^ 32 → 0 <= c < 2 ^ 32 →
  tally b ofs l u c s = Some ((u32 (u + live (refs s) Used l), u32 (c + live (refs s) Unchecked l)), s).
Proof.
  intros Hl Ho Hs. pose proof sector_pos. revert u c. induction l as [|r l IH]; intros u c Hu Hc; cbn [tally].
  - unfold live. rewrite !fmap_nil. change (zsum []) with 0. by rewrite !Z.add_0_r, !u32_small.
  - destruct (Hl r) as (x & Hx & Hb & Hr); [left|]. rewrite !(live_cons _ _ _ _ _ Hx). unfold mbind, SM_bind. rewrite (ref_totlen_eq _ _ _ _ Hx Hb).
    unfold raw at 1. rewrite Hx. rewrite (proj2 (Z.ltb_ge (flash_offset x) ofs)), (u32_small (ofs + _)), (proj2 (Z.ltb_ge _ (flash_offset x))) by lia.
    cbn [orb]. unfold class_of. specialize (IH (λ r' Hr', Hl r' (list_elem_of_further _ _ _ Hr'))). pose proof (u32_range (c + totlen x)). pose proof (u32_range (u + totlen x)).
    destruct (ref_flags x =? REF_UNCHECKED); [|destruct (ref_obsolete x)]; cbn [negb]; rewrite IH by done; repeat case_decide; try done; by rewrite ?u32_add_l, ?Z.add_0_l, ?Z.add_assoc.
Qed.
Lemma acct_checks_eq b j h (s : state) :
  placed h s → blocks s !! b = Some j → jeb_ok (refs s) b j → full j → u32 (balance s) = flash_size → acct_checks b s = Some (tt, s).
Proof.
  intros Hp Hb Hj Hf Hbal. pose proof (full_le Used _ _ _ Hj Hf). pose proof (full_le Unchecked _ _ _ Hj Hf). cbn [get] in *.
  pose proof (sector_small _ _ _ _ Hp Hb). pose proof sector_pos. pose proof (block_bounds _ _ _ _ Hp Hb) as Hbb.
  unfold acct_checks, jffs2_dbg_acct_sanity_check_nolock, jffs2_dbg_acct_paranoia_check_nolock, block, gets, mbind, SM_bind. rewrite Hb. cbn [id].
  unfold full, sum in Hf. rewrite Hf, u32_small, Z.eqb_refl by lia. cbn [negb].
  replace (used_size (total s) + _ + _ + _ + _ + _ + _) with (balance s) by (unfold balance, sum; lia). rewrite Hbal, Z.eqb_refl. cbn [negb mret SM_ret].
  rewrite Hb, tally_eq; [|intros r Hr; destruct (in_block _ _ _ _ Hj Hbb Hr) as (x & ? & _ & _ & _ & _ & ? & ?); by exists x|rewrite (ok_offset _ _ _ Hj); lia..|lia|lia].
  rewrite !Z.add_0_l, <-(ok_used _ _ _ Hj), <-(ok_unchecked _ _ _ Hj), !u32_small, !Z.eqb_refl by lia. done.
Qed.

(** *** What the collector relies on *)

(** The node is in the chain of the inode. *)
Definition owns (s : state) (i r : nat) : Prop := ∃ c ns, caches s !! i = Some c ∧ chain (refs s) c ns i ∧ r ∈ ns.
Lemma owns_det (s : state) i i' r : owns s i r → owns s i' r → i = i'.
Proof. intros (c & ns & _ & Hn & Hr) (c' & ns' & _ & Hn' & Hr'). by eapply chain_disjoint. Qed.
Lemma owns_chain (s : state) i r c ns : owns s i r → caches s !! i = Some c → chain (refs s) c ns i → r ∈ ns.
Proof. intros (c' & ns' & Hc & Hn & Hr) Hc' Hn'. simplify_eq. by destruct (seg_det _ _ _ _ _ _ Hn Hn') as [-> _]. Qed.
(** The node is what it was, and whose it was. *)
Definition same_node (s s' : state) (r : nat) : Prop :=
  (∀ x, refs s !! r = Some x → ∃ x', refs s' !! r = Some x' ∧ flash_offset x' = flash_offset x ∧ totlen x' = totlen x) ∧
  (∀ i, owns s i r → owns s' i r).
Lemma same_node_eq (s s' : state) r : refs s' = refs s → caches s' = caches s → same_node s s' r.
Proof. intros Hr Hc. split; [intros x Hx; rewrite Hr; by exists x|unfold owns; by rewrite Hr, Hc]. Qed.
Lemma same_node_trans (s s1 s2 : state) r : same_node s s1 r → same_node s1 s2 r → same_node s s2 r.
Proof.
  intros [H1 O1] [H2 O2]. split; [|auto]. intros x (x1 & Hx1 & ? & ?)%H1. destruct (H2 x1 Hx1) as (x2 & ? & ? & ?). exists x2. split_and!; [done|congruence..].
Qed.
Definition dead (R : gmap nat raw_ref) (r : nat) : Prop := ∀ x, R !! r = Some x → ref_obsolete x = true.
(** [gc_node] is a node of the block, and those in front of it are obsolete. *)
Definition gc_ready (R : gmap nat raw_ref) (j : eraseblock) : Prop :=
  ∃ l1 r l2, phys j = l1 ++ r :: l2 ∧ gc_node j = Some r ∧ ∀ q, q ∈ l1 → dead R q.
Record collectable (s : state) : Prop := Collectable {
  co_lists : ∀ n b j, n ∈ use_lists → b ∈ lists s n → blocks s !! b = Some j → phys j ≠ [];
  co_next : ∀ b j, nextblock s = Some b → blocks s !! b = Some j → phys j ≠ [] ∨ free_size (size j) = sector_size;
  co_gc : ∀ b j, gcblock s = Some b → blocks s !! b = Some j → gc_ready (refs s) j }.
(** No node is unchecked. *)
Definition checked (s : state) : Prop := ∀ b j, blocks s !! b = Some j → unchecked_size (size j) = 0.
Lemma checked_insert (s s' : state) b j' : blocks s' = <[b := j']> (blocks s) → unchecked_size (size j') = 0 → checked s → checked s'.
Proof. intros Hb Hj Hs b' i. rewrite Hb. intros [(-> & <- & _)|[_ Hi]]%list_lookup_insert_Some; [done|by eapply Hs]. Qed.
End Invariant.
