(* ===== verification/Jffs2Account.v ===== *)
(** * Jffs2Account: blocks, lists and sums move together (fs/jffs2/nodemgmt.c, erase.c)

    The steps of the functions of Jffs2Space.v, each with what it does to the parts of the invariant of
    Jffs2Books.v: a block from list to list, bytes from one size to another, the sizes and the lists of
    [jffs2_mark_node_obsolete], and the end of an erase. *)

From S2P Require Import Prelude Jffs2Frag Jffs2Compr Jffs2Node Jffs2File Jffs2Write Crc32 Jffs2Space Jffs2Books.

(** ** Lists without an element *)

Lemma filter_ne_id (b : nat) (l : list nat) : b ∉ l → filter (λ x, x ≠ b) l = l.
Proof.
  induction l as [|x l IH]; [done|]. intros [Hx Hb]%not_elem_of_cons. rewrite filter_cons, decide_True by done. by rewrite IH.
Qed.
Lemma filter_ne_perm (b : nat) (l : list nat) : NoDup l → b ∈ l → l ≡ₚ b :: filter (λ x, x ≠ b) l.
Proof.
  induction 1 as [|x l Hx Hl IH]; [by intros ?%elem_of_nil|]. rewrite filter_cons. intros [->|Hb]%elem_of_cons.
  - rewrite decide_False by (by intros ?). by rewrite filter_ne_id.
  - rewrite decide_True by (by intros ->). rewrite (IH Hb) at 1. constructor.
Qed.
Lemma bind_filter {A} (f : A → list nat) (P : nat → Prop) `{!∀ x, Decision (P x)} l : (l ≫= λ n, filter P (f n)) = filter P (l ≫= f).
Proof. induction l as [|x l IH]; [done|]. rewrite !bind_cons, filter_app. by f_equal. Qed.
Lemma NoDup_bind_elem {A B} (f : A → list B) l x y b : NoDup (l ≫= f) → x ∈ l → y ∈ l → b ∈ f x → b ∈ f y → x = y.
Proof.
  intros Hd Hx Hy Hbx Hby. revert Hd Hx Hy. induction l as [|z l IH]; [by intros _ ?%elem_of_nil|]. rewrite bind_cons.
  intros (Hz & Hdisj & Hl)%NoDup_app [->|Hx]%elem_of_cons [->|Hy]%elem_of_cons; try done; [| |by apply IH].
  all: exfalso; eapply (Hdisj b); [eassumption|]; apply list_elem_of_bind; eauto.
Qed.
Lemma NoDup_bind_in {A B} (f : A → list B) l x : NoDup (l ≫= f) → x ∈ l → NoDup (f x).
Proof.
  induction l as [|z l IH]; [by intros _ ?%elem_of_nil|]. rewrite bind_cons. intros (Hz & _ & Hl)%NoDup_app [->|Hx]%elem_of_cons; [done|by apply IH].
Qed.
(** One more element in one of the lists. *)
Lemma bind_add {A} `{!EqDecision A} (f g : A → list nat) l n b :
  NoDup l → n ∈ l → g n ≡ₚ b :: f n → (∀ m, m ≠ n → g m = f m) → (l ≫= g) ≡ₚ b :: (l ≫= f).
Proof.
  induction 1 as [|x l Hx Hl IH]; [by intros ?%elem_of_nil|]. intros Hn Hg Ho. rewrite !bind_cons. apply elem_of_cons in Hn as [<-|Hn].
  - rewrite Hg. cbn. f_equiv. f_equiv. apply reflexive_eq, Forall_bind_ext, Forall_forall. intros m Hm. apply Ho. by intros ->.
  - rewrite IH by done. rewrite (Ho x) by (by intros ->). by rewrite Permutation_middle.
Qed.
Lemma in_names (n : Space.list_name) : n ∈ Space.list_names.
Proof. unfold Space.list_names. destruct n; set_solver. Qed.
Lemma NoDup_names : NoDup Space.list_names.
Proof. repeat (constructor; [set_solver|]). constructor. Qed.

Section Places.
Import Space.
Context {F : Type} `{!Mtd F} `{!Eraser F} `{!Erasable F} {Geo : Geometry} {Lawful_geo : Geometric}.
Abbreviation state := (sb (F := F)).

Definition without (b : nat) (s : state) : state := on_lists (λ l n, filter (λ x, x ≠ b) (l n)) s.
Definition added (b : nat) (n : list_name) (s : state) : state := on_lists (λ l m, if decide (m = n) then b :: l m else l m) s.
Definition added_tail (b : nat) (n : list_name) (s : state) : state := on_lists (λ l m, if decide (m = n) then l m ++ [b] else l m) s.

Lemma list_del_eq b n (s : state) : b ∈ lists s n → list_del b s = Some (tt, without b s).
Proof.
  intros Hb. unfold list_del. rewrite (proj2 (existsb_exists _ _)); [done|]. exists n. split; [apply list_elem_of_In, in_names|by apply bool_decide_eq_true].
Qed.

(** *** The place of a block *)
Lemma placed_NoDup h (s : state) : placed h s → NoDup (h ++ places s).
Proof. intros [Hp _]. rewrite Hp. apply NoDup_seq. Qed.
Lemma placed_lists h (s : state) : placed h s → NoDup (list_names ≫= lists s).
Proof. intros (_ & _ & Hd)%placed_NoDup%NoDup_app. unfold places in Hd. by apply NoDup_app in Hd as (_ & _ & (_ & _ & Hd)%NoDup_app). Qed.
Lemma placed_list h (s : state) n : placed h s → NoDup (lists s n).
Proof. intros Hd%placed_lists. eapply NoDup_bind_in; [exact Hd|apply in_names]. Qed.
Lemma one_list h (s : state) n m b : placed h s → b ∈ lists s n → b ∈ lists s m → n = m.
Proof. intros Hd%placed_lists Hn Hm. eapply NoDup_bind_elem; [exact Hd|apply in_names..|exact Hn|exact Hm]. Qed.
Lemma listed_places (s : state) n b : b ∈ lists s n → b ∈ places s.
Proof. intros Hb. unfold places. rewrite !elem_of_app. right. right. apply list_elem_of_bind. exists n. split; [done|apply in_names]. Qed.
Lemma listed_alone h (s : state) n b : placed h s → b ∈ lists s n → b ∉ h ∧ nextblock s ≠ Some b ∧ gcblock s ≠ Some b.
Proof.
  intros Hp Hb. pose proof (placed_NoDup _ _ Hp) as (_ & Hh & Hd)%NoDup_app. pose proof (listed_places _ _ _ Hb) as Hpl.
  assert (b ∈ list_names ≫= lists s) as Hbl by (apply list_elem_of_bind; exists n; split; [done|apply in_names]).
  unfold places in Hd. apply NoDup_app in Hd as (_ & Hn & (_ & Hg & _)%NoDup_app). split_and!.
  - intros Hbh. by apply (Hh b).
  - intros Hbn. apply (Hn b); [by rewrite Hbn; left|]. apply elem_of_app. by right.
  - intros Hbg. apply (Hg b); [by rewrite Hbg; left|done].
Qed.
Lemma open_alone h (s : state) b : placed h s → nextblock s = Some b ∨ gcblock s = Some b → b ∉ h ∧ ∀ n, b ∉ lists s n.
Proof.
  intros Hp Ho. split; [|intros n Hb; destruct (listed_alone _ _ _ _ Hp Hb) as (_ & ? & ?); tauto].
  pose proof (placed_NoDup _ _ Hp) as (_ & Hh & _)%NoDup_app. intros Hb. apply (Hh b Hb). unfold places. rewrite !elem_of_app.
  destruct Ho as [->| ->]; [left|right; left]; left.
Qed.
Lemma block_place h (s : state) b j : placed h s → blocks s !! b = Some j →
  b ∈ h ∨ nextblock s = Some b ∨ gcblock s = Some b ∨ ∃ n, b ∈ lists s n.
Proof.
  intros [Hp _] Hb%lookup_lt_Some. assert (b ∈ h ++ places s) as Hin by (rewrite Hp; apply elem_of_seq; lia).
  unfold places in Hin. rewrite !elem_of_app, list_elem_of_bind in Hin.
  destruct Hin as [?|[Hn|[Hg|(n & ? & _)]]]; [by left|destruct (nextblock s); [|by apply elem_of_nil in Hn]|destruct (gcblock s); [|by apply elem_of_nil in Hg]|eauto].
  - apply list_elem_of_singleton in Hn as ->. auto.
  - apply list_elem_of_singleton in Hg as ->. auto.
Qed.
Lemma place_block h (s : state) b : placed h s → b ∈ h ++ places s → ∃ j, blocks s !! b = Some j.
Proof. intros [Hp _]. rewrite Hp. intros [_ Hb]%elem_of_seq. by apply lookup_lt_is_Some. Qed.

Lemma placed_without h (s : state) n b : placed h s → b ∈ lists s n → placed (b :: h) (without b s).
Proof.
  intros Hp Hb. destruct (listed_alone _ _ _ _ Hp Hb) as (_ & Hn & Hg). pose proof (placed_lists _ _ Hp) as Hd.
  destruct Hp as [Hp Hl]. split; [|done]. change (blocks (without b s)) with (blocks s). rewrite <-Hp.
  assert (places (without b s) = option_list (nextblock s) ++ option_list (gcblock s) ++ filter (λ x, x ≠ b) (list_names ≫= lists s)) as ->
    by (unfold places; do 2 f_equal; apply bind_filter).
  unfold places. rewrite (filter_ne_perm b (list_names ≫= lists s)) at 2; [|done|apply list_elem_of_bind; exists n; split; [done|apply in_names]].
  solve_Permutation.
Qed.
Lemma placed_add h (s s' : state) n b :
  placed (b :: h) s → lists s' n ≡ₚ b :: lists s n → (∀ m, m ≠ n → lists s' m = lists s m) →
  nextblock s' = nextblock s → gcblock s' = gcblock s → blocks s' = blocks s → placed h s'.
Proof.
  intros [Hp Hl] Hn Ho Hnb Hg Hb. split; rewrite Hb; [|done]. rewrite <-Hp. unfold places. rewrite Hnb, Hg.
  rewrite (bind_add (lists s) (lists s') list_names n b NoDup_names (in_names n) Hn Ho). solve_Permutation.
Qed.
Lemma placed_added h (s : state) n b : placed (b :: h) s → placed h (added b n s).
Proof. intros Hp. eapply (placed_add h s _ n); [done|..|done|done|done]; cbn; [by rewrite decide_True|by intros m ?; rewrite decide_False]. Qed.
Lemma placed_added_tail h (s : state) n b : placed (b :: h) s → placed h (added_tail b n s).
Proof.
  intros Hp. eapply (placed_add h s _ n); [done|..|done|done|done]; cbn; [rewrite decide_True by done; by rewrite Permutation_app_comm|by intros m ?; rewrite decide_False].
Qed.
Lemma placed_close_next h (s : state) b : placed h s → nextblock s = Some b → placed (b :: h) (on_nextblock (λ _, None) s).
Proof. intros [Hp Hl] Hn. split; [|done]. cbn [blocks on_nextblock]. rewrite <-Hp. unfold places. cbn [lists nextblock gcblock on_nextblock on_gcblock]. rewrite Hn. cbn [option_list option_rect]. solve_Permutation. Qed.
Lemma placed_open_next h (s : state) b : placed (b :: h) s → nextblock s = None → placed h (on_nextblock (λ _, Some b) s).
Proof. intros [Hp Hl] Hn. split; [|done]. cbn [blocks on_nextblock]. rewrite <-Hp. unfold places. cbn [lists nextblock gcblock on_nextblock on_gcblock]. rewrite Hn. cbn [option_list option_rect]. solve_Permutation. Qed.
Lemma placed_close_gc h (s : state) b : placed h s → gcblock s = Some b → placed (b :: h) (on_gcblock (λ _, None) s).
Proof. intros [Hp Hl] Hn. split; [|done]. cbn [blocks on_gcblock]. rewrite <-Hp. unfold places. cbn [lists nextblock gcblock on_nextblock on_gcblock]. rewrite Hn. cbn [option_list option_rect]. solve_Permutation. Qed.

(** *** Counting *)
Lemma count_without h (s : state) n b m : placed h s → b ∈ lists s n → count (without b s) m = count s m - (if decide (m = n) then 1 else 0).
Proof.
  intros Hp Hb. unfold count, without. cbn. case_decide as Hm.
  - subst m. pose proof (filter_ne_perm b (lists s n) (placed_list _ _ n Hp) Hb) as Hf%Permutation_length. cbn in Hf. lia.
  - rewrite filter_ne_id; [lia|]. intros Hbm. by apply Hm, (one_list h s m n b).
Qed.
Lemma count_added (s : state) n b m : count (added b n s) m = count s m + (if decide (m = n) then 1 else 0).
Proof. unfold count, added. cbn. case_decide; cbn [length]; lia. Qed.
Lemma count_added_tail (s : state) n b m : count (added_tail b n s) m = count s m + (if decide (m = n) then 1 else 0).
Proof. unfold count, added_tail. cbn. case_decide; rewrite ?length_app; cbn [length]; lia. Qed.

(** *** What lies where *)
Lemma shaped_without h (s : state) b : shaped h s → shaped h (without b s).
Proof. intros (Hl & Hh & Ho). split_and!; [|done|done]. intros n b' j [_ Hb']%list_elem_of_filter. by apply Hl. Qed.
Lemma shaped_add h (s s' : state) n b :
  shaped h s → (∀ j, blocks s !! b = Some j → shape (refs s) n j) → (∀ m x, x ∈ lists s' m → x ∈ lists s m ∨ (m = n ∧ x = b)) →
  nextblock s' = nextblock s → gcblock s' = gcblock s → blocks s' = blocks s → refs s' = refs s → shaped h s'.
Proof.
  intros (Hl & Hh & Ho) Hn Hi Hnb Hg Hb Hr. split_and!; rewrite ?Hb, ?Hr, ?Hnb, ?Hg; [|done|done].
  intros m x j [Hx|[-> ->]]%Hi Hj; [by eapply Hl|by apply Hn].
Qed.
Lemma shaped_added h (s : state) n b : shaped h s → (∀ j, blocks s !! b = Some j → shape (refs s) n j) → shaped h (added b n s).
Proof. intros Hs Hn. eapply (shaped_add h s _ n b); try done. intros m x. cbn. case_decide; [|by left]. subst. intros [->|?]%elem_of_cons; [by right|by left]. Qed.
Lemma shaped_added_tail h (s : state) n b : shaped h s → (∀ j, blocks s !! b = Some j → shape (refs s) n j) → shaped h (added_tail b n s).
Proof.
  intros Hs Hn. eapply (shaped_add h s _ n b); try done. intros m x. cbn. case_decide; [|by left]. subst.
  intros [?| ->%list_elem_of_singleton]%elem_of_app; [by left|by right].
Qed.
Lemma shaped_less h h' (s : state) : shaped h s → (∀ b, b ∈ h' → b ∈ h) → shaped h' s.
Proof. intros (Hl & Hh & Ho) Hs. split_and!; [done| |done]. intros b j Hb. by apply Hh, Hs. Qed.
Lemma shaped_hand h (s : state) b : shaped h s → (∀ j, blocks s !! b = Some j → emptied j) → shaped (b :: h) s.
Proof. intros (Hl & Hh & Ho) He. split_and!; [done| |done]. intros x j [->|Hx]%elem_of_cons; [by apply He|by apply Hh]. Qed.
Lemma shaped_close_next h (s : state) : shaped h s → shaped h (on_nextblock (λ _, None) s).
Proof. intros (Hl & Hh & Ho). split_and!; [done|done|]. cbn. intros b j [?|?]; [done|]. apply Ho. by right. Qed.
Lemma shaped_close_gc h (s : state) : shaped h s → shaped h (on_gcblock (λ _, None) s).
Proof. intros (Hl & Hh & Ho). split_and!; [done|done|]. cbn. intros b j [?|?]; [|done]. apply Ho. by left. Qed.
Lemma shaped_open_next h (s : state) b : shaped h s → (∀ j, blocks s !! b = Some j → full j) → shaped h (on_nextblock (λ _, Some b) s).
Proof. intros (Hl & Hh & Ho) Hf. split_and!; [done|done|]. cbn. intros x j [[= <-]|?]; [by apply Hf|]. apply Ho. by right. Qed.
End Places.

(** ** Steps of a program *)

Section Steps.
Import Space.
Context {F : Type} `{!Mtd F} `{!Eraser F} `{!Erasable F} {Geo : Geometry} {Lawful_geo : Geometric}.
Abbreviation state := (sb (F := F)).
Abbreviation P := (SM state).

Lemma wp_eq {S A} (m : SM S A) s a s' (Q : A → S → Prop) : m s = Some (a, s') → Q a s' → wp m s Q.
Proof. unfold wp. by intros ->. Qed.
Lemma wp_then {S A B} (m : SM S A) (k : A → SM S B) s a s' Q : m s = Some (a, s') → wp (k a) s' Q → wp (m ≫= k) s Q.
Proof. intros H ?. apply wp_bind. by eapply wp_eq. Qed.
Lemma wp_assoc {S A B C} (m : SM S A) (k : A → SM S B) (k' : B → SM S C) s Q :
  wp (m ≫= λ x, k x ≫= k') s Q → wp ((m ≫= k) ≫= k') s Q.
Proof. unfold wp, mbind, SM_bind. by destruct (m s) as [[a s']|]. Qed.
Lemma wp_sb_gets {A B} (f : state → A) (k : A → P B) s Q : wp (k (f s)) s Q → wp (gets f ≫= k) s Q.
Proof. done. Qed.
Lemma wp_sb_puts {B} (f : state → state) (k : unit → P B) s Q : wp (k tt) (f s) Q → wp (puts f ≫= k) s Q.
Proof. done. Qed.
Lemma wp_ret_bind {S A B} (a : A) (k : A → SM S B) s Q : wp (k a) s Q → wp (mret a ≫= k) s Q.
Proof. done. Qed.
Lemma wp_block {B} b j (k : eraseblock → P B) (s : state) Q : blocks s !! b = Some j → wp (k j) s Q → wp (block b ≫= k) s Q.
Proof. intros Hb. apply wp_then. unfold block. by rewrite Hb. Qed.
Lemma wp_ref {B} r x (k : raw_ref → P B) (s : state) Q : refs s !! r = Some x → wp (k x) s Q → wp (raw r ≫= k) s Q.
Proof. intros Hb. apply wp_then. unfold raw. by rewrite Hb. Qed.
Lemma wp_cache {B} i c (k : inode_cache → P B) (s : state) Q : caches s !! i = Some c → wp (k c) s Q → wp (cache i ≫= k) s Q.
Proof. intros Hb. apply wp_then. unfold cache. by rewrite Hb. Qed.
Lemma wp_list_del {B} b n (k : unit → P B) (s : state) Q : b ∈ lists s n → wp (k tt) (without b s) Q → wp (list_del b ≫= k) s Q.
Proof. intros Hb. by apply wp_then, (list_del_eq b n). Qed.
Lemma wp_list_add {B} b n (k : unit → P B) (s : state) Q : wp (k tt) (added b n s) Q → wp (list_add b n ≫= k) s Q.
Proof. done. Qed.
Lemma wp_list_add_tail {B} b n (k : unit → P B) (s : state) Q : wp (k tt) (added_tail b n s) Q → wp (list_add_tail b n ≫= k) s Q.
Proof. done. Qed.
Lemma wp_free {B} r x (k : unit → P B) (s : state) Q : refs s !! r = Some x → wp (k tt) (on_refs (delete r) s) Q → wp (jffs2_free_raw_node_ref r ≫= k) s Q.
Proof. intros Hr. unfold wp, jffs2_free_raw_node_ref, mbind, SM_bind. by rewrite Hr. Qed.
Lemma wp_ref_totlen {B} b r x (k : Z → P B) (s : state) Q :
  refs s !! r = Some x → flash_offset x / sector_size = Z.of_nat b → wp (k (totlen x)) s Q → wp (ref_totlen b r ≫= k) s Q.
Proof. intros Hx Hb. by apply wp_then, ref_totlen_eq. Qed.

Lemma sb_ext (s s' : state) :
  blocks s = blocks s' → lists s = lists s' → nextblock s = nextblock s' → gcblock s = gcblock s' → total s = total s' →
  erasing_size s = erasing_size s' → bad_size s = bad_size s' → nr_free_blocks s = nr_free_blocks s' →
  nr_erasing_blocks s = nr_erasing_blocks s' → refs s = refs s' → caches s = caches s' → flags s = flags s' →
  readonly s = readonly s' → flash s = flash s' → env s = env s' → s = s'.
Proof. destruct s, s'. cbn. by intros -> -> -> -> -> -> -> -> -> -> -> -> -> -> ->. Qed.

(** *** A block and the sums *)
Lemma alter_is_insert {A} (f : A → A) (l : list A) b j : l !! b = Some j → alter f b l = <[b := f j]> l.
Proof. revert b. induction l as [|x l IH]; intros [|b] Hb; try done; cbn in *; [by injection Hb as ->|]. f_equal. by apply IH. Qed.
(** The state with this block and these sums. *)
Definition rebooked (b : nat) (j : eraseblock) (T : sizes) (s : state) : state := on_total (λ _, T) (on_blocks (λ l, <[b := j]> l) s).
Lemma rebooked_id b j (s : state) : blocks s !! b = Some j → rebooked b j (total s) s = s.
Proof. intros Hb. destruct s. unfold rebooked, on_total, on_blocks. cbn in *. f_equal. by rewrite list_insert_id. Qed.
Lemma rebooked_block b j j0 T (s : state) : blocks s !! b = Some j0 → blocks (rebooked b j T s) !! b = Some j.
Proof. intros Hb. apply list_lookup_insert_eq. by eapply lookup_lt_Some. Qed.
Lemma column_insert k (s : state) b j j0 : blocks s !! b = Some j0 → column k (<[b := j]> (blocks s)) = column k (blocks s) + (get k (size j) - get k (size j0)).
Proof. intros Hb. unfold column. rewrite <-(alter_is_insert (λ _, j) _ _ _ Hb). by apply (zsum_alter (λ j, get k (size j)) (λ _, j)). Qed.

(** The books balance with a block that has [B] bytes to charge somewhere. *)
Definition accounted (B : Z) (s : state) : Prop := books s ∧ u32 (balance s) = u32 (flash_size + B).
Lemma wp_charge {A} k b n j j0 T (s : state) B (K : unit → P A) Q :
  blocks s !! b = Some j0 → accounted B (rebooked b j T s) → 0 <= get k (size j) + n < 2 ^ 32 →
  (∀ T', accounted (B + n) (rebooked b (on_size (plus k n) j) T' s) → wp (K tt) (rebooked b (on_size (plus k n) j) T' s) Q) →
  wp (charge k b n ≫= K) (rebooked b j T s) Q.
Proof.
  intros Hb [Hbk Hbal] Hr HQ. eapply wp_then; [reflexivity|]. pose proof (rebooked_block b j j0 T s Hb) as Hj.
  assert (on_total (upd k (add32 n)) (on_blocks (alter (on_size (upd k (add32 n))) b) (rebooked b j T s)) =
          rebooked b (on_size (plus k n) j) (upd k (add32 n) T) s) as ->.
  { unfold rebooked, on_total, on_blocks. cbn. f_equal. rewrite (alter_is_insert _ _ _ _ Hj). unfold rebooked, on_total, on_blocks. cbn.
    rewrite list_insert_insert_eq. f_equal. unfold on_size. by rewrite add32_plus. }
  apply HQ. split.
  - intros k'. cbn [total blocks rebooked on_total on_blocks]. rewrite get_upd. specialize (Hbk k'). cbn [total blocks rebooked on_total on_blocks] in Hbk.
    rewrite (column_insert k' s b _ j0 Hb). rewrite (column_insert k' s b _ j0 Hb) in Hbk. cbn [size on_size]. rewrite get_plus. unfold add32.
    case_decide; rewrite Hbk, ?u32_add_l; f_equal; lia.
  - unfold balance in *. cbn [total erasing_size bad_size rebooked on_total on_blocks] in *. rewrite sum_upd. unfold add32.
    replace (sum T + (u32 (get k T + n) - get k T) + erasing_size s + bad_size s) with (sum T + erasing_size s + bad_size s - get k T + u32 (get k T + n)) by lia.
    rewrite u32_add_r. replace (_ - get k T + (get k T + n)) with ((sum T + erasing_size s + bad_size s) + n) by lia.
    rewrite <-u32_add_l, Hbal, u32_add_l. f_equal. lia.
Qed.
Lemma inv_accounted h (s : state) : inv h s → accounted 0 s.
Proof. intros Hi. split; [apply Hi|]. rewrite (inv_balance _ _ Hi), Z.add_0_r, u32_small; [done|]. pose proof geo_size. rewrite geo_flash in *. pose proof geo_blocks. pose proof sector_pos. nia. Qed.
Lemma accounted_balance (s : state) : accounted 0 s → u32 (balance s) = flash_size.
Proof. intros [_ ->]. rewrite Z.add_0_r. apply u32_small. pose proof geo_size. rewrite geo_flash in *. pose proof geo_blocks. pose proof sector_pos. nia. Qed.
End Steps.

(** ** The nodes of one block change *)

Section Patching.
Import Space.
Context {F : Type} `{!Mtd F} `{!Eraser F} `{!Erasable F} {Geo : Geometry} {Lawful_geo : Geometric}.
Abbreviation state := (sb (F := F)).

(** Nothing but the blocks, the references, the sums of the five sizes, the caches, the flash. *)
Record same_lists (s s' : state) : Prop := SameLists {
  sl_lists : lists s' = lists s; sl_next : nextblock s' = nextblock s; sl_gc : gcblock s' = gcblock s;
  sl_free : nr_free_blocks s' = nr_free_blocks s; sl_erasing : nr_erasing_blocks s' = nr_erasing_blocks s;
  sl_size : erasing_size s' = erasing_size s; sl_bad : bad_size s' = bad_size s }.
Lemma same_lists_refl (s : state) : same_lists s s.
Proof. done. Qed.
Lemma same_lists_trans (s s1 s2 : state) : same_lists s s1 → same_lists s1 s2 → same_lists s s2.
Proof. intros [] []. split; congruence. Qed.
(** No node joins an inode. *)
Definition no_joining (R R' : gmap nat raw_ref) : Prop :=
  ∀ r x', R' !! r = Some x' → next_in_ino x' ≠ Null → ∃ x, R !! r = Some x ∧ next_in_ino x ≠ Null.
Lemma shape_no_joining R R' n j : no_joining R R' → shape R n j → shape R' n j.
Proof.
  intros Hq. destruct n; try done. intros (? & ? & ? & Hn). split_and!; try done. intros r x' Hr Hx'.
  destruct (decide (next_in_ino x' = Null)) as [|Hne]; [done|]. destruct (Hq r x' Hx' Hne) as (x & Hx & Hxn). by destruct (Hxn (Hn r x Hr Hx)).
Qed.
Lemma counted_same h (s s' : state) : same_lists s s' → counted h s → counted h s'.
Proof. intros [Hl ? ? Hf He Hs Hb] []. split; unfold count in *; rewrite ?Hl, ?Hf, ?He, ?Hs, ?Hb; done. Qed.
Lemma placed_eq h (s s' : state) : lists s' = lists s → nextblock s' = nextblock s → gcblock s' = gcblock s →
  length (blocks s') = length (blocks s) → placed h s → placed h s'.
Proof. intros Hl Hn Hg Hlen [Hp ?]. unfold placed, places in *. by rewrite Hl, Hn, Hg, Hlen. Qed.
Lemma placed_same h (s s' : state) : same_lists s s' → length (blocks s') = length (blocks s) → placed h s → placed h s'.
Proof. intros [Hl Hn Hg _ _ _ _]. by apply placed_eq. Qed.

(** What is stored in the block stays stored. *)
Definition preserved (b : nat) (s s' : state) : Prop := ∀ o l,
  Z.of_nat b * sector_size <= o → o + Z.of_nat (length l) <= Z.of_nat b * sector_size + sector_size → stored (flash s) o l → stored (flash s') o l.
Lemma preserved_flash b (s s' : state) : flash s' = flash s → preserved b s s'.
Proof. intros He o l _ _. by rewrite He. Qed.
Lemma preserved_trans b (s s1 s2 : state) : preserved b s s1 → preserved b s1 s2 → preserved b s s2.
Proof. intros H1 H2 o l Ho Hl Hs. by apply H2, H1. Qed.
Lemma preserved_touched b b' (s s' : state) o n : touched (flash s) (flash s') o n → b' ≠ b →
  Z.of_nat b * sector_size <= o → o + n <= Z.of_nat b * sector_size + sector_size → preserved b' s s'.
Proof. intros Ht Hne Ho Hn o' l Ho' Hl. pose proof sector_pos. intros Hs. apply Ht; [done|]. assert (b' < b ∨ b < b')%nat as [?|?] by lia; [left|right]; nia. Qed.
Lemma preserved_tail b (s s' : state) j : preserved b s s' → offset j = Z.of_nat b * sector_size → 0 <= free_size (size j) <= sector_size →
  writable_tail (flash s) j → writable_tail (flash s') j.
Proof. intros Hp Ho Hf. apply Hp; rewrite ?length_replicate; lia. Qed.
Lemma preserved_blank b (s s' : state) o : preserved b s s' → o = Z.of_nat b * sector_size →
  blank (flash s) o (Z.to_nat sector_size) → blank (flash s') o (Z.to_nat sector_size).
Proof. intros Hp Ho. pose proof sector_pos. apply Hp; rewrite ?length_replicate; lia. Qed.
Lemma tail_bounds h (s : state) b j : inv h s → blocks s !! b = Some j → nextblock s = Some b ∨ b ∈ lists s free_list → 0 <= free_size (size j) <= sector_size.
Proof.
  intros Hi Hb Hz. destruct (inv_shaped _ _ Hi) as (Hl & _ & Ho). apply (full_le Free _ _ _ (inv_blocks _ _ Hi _ _ Hb)).
  destruct Hz as [Hz|Hz]; [by eapply Ho; [left|]|]. by destruct (Hl free_list b j Hz Hb).
Qed.
(** Where the next nodes may go there is no more than before, and what is there is what was there. *)
Lemma unspoilt_mono h (s s' : state) : inv h s →
  (∀ b j', blocks s' !! b = Some j' → ∃ j, blocks s !! b = Some j ∧ offset j' = offset j ∧
     (nextblock s' = Some b ∨ b ∈ lists s' free_list →
        writable_tail (flash s') j' ∨ free_size (size j') = free_size (size j) ∧ (nextblock s = Some b ∨ b ∈ lists s free_list) ∧ preserved b s s') ∧
     (b ∈ lists s' erase_complete_list → blank (flash s') (offset j) (Z.to_nat sector_size) ∨ b ∈ lists s erase_complete_list ∧ preserved b s s')) →
  unspoilt s'.
Proof.
  intros Hi H b j' Hb'. destruct (H b j' Hb') as (j & Hb & Ho & Hz & Hc). pose proof (ok_offset _ _ _ (inv_blocks _ _ Hi _ _ Hb)) as Hoff.
  destruct (inv_unspoilt _ _ Hi b j Hb) as [Uz Uc]. split.
  - intros [?|(Hf & Hin & Hp)]%Hz; [done|]. pose proof (tail_bounds h s b j Hi Hb Hin). unfold writable_tail. rewrite Ho, Hf.
    by apply (preserved_tail b s s' j), Uz.
  - rewrite Ho. intros [?|[Hin Hp]]%Hc; [done|]. by apply (preserved_blank b s s'), Uc.
Qed.
Lemma unspoilt_same h (s s' : state) : inv h s → flash s' = flash s → blocks s' = blocks s →
  (∀ b, nextblock s' = Some b ∨ b ∈ lists s' free_list → nextblock s = Some b ∨ b ∈ lists s free_list) →
  (∀ b, b ∈ lists s' erase_complete_list → b ∈ lists s erase_complete_list) → unspoilt s'.
Proof.
  intros Hi Hf Hb Hz Hc. apply (unspoilt_mono h s); [done|]. intros b j. rewrite Hb. intros Hj. exists j. split_and!; [done|done|..].
  - intros Hin%Hz. right. split_and!; [done|done|by apply preserved_flash].
  - intros Hin%Hc. right. split; [done|by apply preserved_flash].
Qed.
Lemma unspoilt_insert h (s s' : state) b j j' : inv h s → same_lists s s' → flash s' = flash s → blocks s !! b = Some j → blocks s' = <[b := j']> (blocks s) →
  offset j' = offset j → free_size (size j') = free_size (size j) → unspoilt s'.
Proof.
  intros Hi [Hsl Hsn _ _ _ _ _] Hfl Hb Hbl Ho Hf. apply (unspoilt_mono h s); [done|]. intros y i. rewrite Hbl, Hsn, Hsl.
  intros [(-> & <- & _)|[Hne Hi']]%list_lookup_insert_Some; [exists j|exists i]; (split_and!; [done|done|intros ?; right; split_and!; [done|done|by apply preserved_flash]|
    intros ?; right; split; [done|by apply preserved_flash]]).
Qed.

(** One block is another, and the references of the other blocks are what they were to them. *)
Lemma inv_patch h (s s' : state) b j j' :
  inv h s → same_lists s s' → blocks s !! b = Some j → blocks s' = <[b := j']> (blocks s) → accounted 0 s' →
  jeb_ok (refs s') b j' → no_joining (refs s) (refs s') →
  (∀ b' i, b' ≠ b → blocks s !! b' = Some i → jeb_ok (refs s') b' i) →
  (∀ n, b ∈ lists s n → shape (refs s) n j → shape (refs s') n j') → (emptied j → emptied j') → (full j → full j') →
  chained (refs s') (caches s') → unspoilt s' → inv h s'.
Proof.
  intros Hi Hs Hb Hbl Hacc Hj Hq Ho Hsh Hem Hfu Hch Hun. assert (length (blocks s') = length (blocks s)) as Hlen by (by rewrite Hbl, length_insert).
  assert (∀ b' i, blocks s' !! b' = Some i → (b' = b ∧ i = j') ∨ (b' ≠ b ∧ blocks s !! b' = Some i)) as Hlook.
  { intros b' i. rewrite Hbl. intros [(-> & <- & _)|[]]%list_lookup_insert_Some; auto. }
  split; [apply Hacc|by apply accounted_balance|by eapply placed_same, Hi| |by eapply counted_same, Hi| |done|done].
  - destruct (inv_shaped _ _ Hi) as (Hl & Hh & Hop). destruct Hs as [Hsl Hsn Hsg _ _ _ _]. split_and!; rewrite ?Hsl, ?Hsn, ?Hsg.
    + intros n b' i Hn [[-> ->]|[Hne Hi']]%Hlook; [by eauto|]. by eapply shape_no_joining, Hl.
    + intros b' i Hn [[-> ->]|[Hne Hi']]%Hlook; eauto.
    + intros b' i Hn [[-> ->]|[Hne Hi']]%Hlook; eauto.
  - intros b' i [[-> ->]|[Hne Hi']]%Hlook; [done|by apply Ho].
Qed.

Lemma jeb_ok_agree R R' b j : same_place R R' (phys j) → same_class R R' (phys j) → jeb_ok R b j → jeb_ok R' b j.
Proof.
  intros Hp Hc Hj. assert (∀ r, r ∈ phys j → is_Some (R !! r)) as Hd.
  { intros r Hr. destruct (spans_elem _ _ _ _ _ (ok_spans _ _ _ Hj) Hr) as (x & -> & _). done. }
  destruct Hj as [Hoff Hz Ha Hspans Hu Hc']. split; [done|done|done|by eapply spans_same| |]; by rewrite (live_same R R') by done.
Qed.
Lemma same_except R R' l : (∀ r, r ∈ l → R' !! r = R !! r) → same_place R R' l ∧ same_class R R' l.
Proof. intros H. split; intros r x Hr Hx; exists x; rewrite H by done; done. Qed.
Lemma jeb_ok_insert R b j r x : r ∉ phys j → jeb_ok R b j → jeb_ok (<[r := x]> R) b j.
Proof. intros Hr. destruct (same_except R (<[r := x]> R) (phys j)) as [? ?]; [|by apply jeb_ok_agree]. intros q Hq. apply lookup_insert_ne. by intros ->. Qed.
Lemma jeb_ok_delete R b j r : r ∉ phys j → jeb_ok R b j → jeb_ok (delete r R) b j.
Proof. intros Hr. destruct (same_except R (delete r R) (phys j)) as [? ?]; [|by apply jeb_ok_agree]. intros q Hq. apply lookup_delete_ne. by intros ->. Qed.
Lemma live_insert R k l r x x' : NoDup l → r ∈ l → R !! r = Some x →
  live (<[r := x']> R) k l = live R k l - (if decide (class_of x = k) then totlen x else 0) + (if decide (class_of x' = k) then totlen x' else 0).
Proof.
  intros Hd (l1 & l2 & ->)%list_elem_of_split Hx. apply NoDup_app in Hd as (_ & H1 & [H2 _]%NoDup_cons).
  assert (∀ l, r ∉ l → live (<[r := x']> R) k l = live R k l) as Hsame.
  { intros l Hr. unfold live. f_equal. apply list_fmap_ext. intros i q Hq%list_elem_of_lookup_2. by rewrite lookup_insert_ne by (by intros ->). }
  rewrite !live_app, (live_cons _ _ _ _ _ Hx), (live_cons _ _ _ l2 x') by apply lookup_insert_eq.
  rewrite !Hsame; [lia|done|]. intros Hr. apply (H1 r Hr). left.
Qed.
(** A node is on the list of one block. *)
Lemma phys_disjoint h (s : state) b j b' j' r :
  inv h s → blocks s !! b = Some j → blocks s !! b' = Some j' → r ∈ phys j → r ∈ phys j' → b = b'.
Proof.
  intros Hi Hb Hb' Hr Hr'. pose proof (block_bounds _ _ _ _ (inv_placed _ _ Hi) Hb) as H1. pose proof (block_bounds _ _ _ _ (inv_placed _ _ Hi) Hb') as H2.
  destruct (in_block _ _ _ _ (inv_blocks _ _ Hi _ _ Hb) H1 Hr) as (x & Hx & _ & _ & _ & _ & Hd & _).
  destruct (in_block _ _ _ _ (inv_blocks _ _ Hi _ _ Hb') H2 Hr') as (x' & Hx' & _ & _ & _ & _ & Hd' & _). simplify_eq. lia.
Qed.
Lemma others_insert h (s : state) b j r x : inv h s → blocks s !! b = Some j → r ∈ phys j →
  ∀ b' i, b' ≠ b → blocks s !! b' = Some i → jeb_ok (<[r := x]> (refs s)) b' i.
Proof.
  intros Hi Hb Hr b' i Hne Hb'. apply jeb_ok_insert; [|by eapply inv_blocks]. intros Hr'. apply Hne. symmetry. by eapply phys_disjoint.
Qed.
End Patching.

(** ** Lines 418 to 456: the sizes *)

Section Obsolete.
Import Space.
Context {F : Type} `{!Mtd F} `{!Eraser F} `{!Erasable F} {Geo : Geometry} {Lawful_geo : Geometric}.
Abbreviation state := (sb (F := F)).
Abbreviation P := (SM state).

(** Where the block of a valid node is, while the node is in use. *)
Definition in_use (b : nat) (s : state) : Prop :=
  nextblock s = Some b ∨ gcblock s = Some b ∨ ∃ n, n ∈ [clean_list; very_dirty_list; dirty_list; bad_used_list] ∧ b ∈ lists s n.
Lemma live_block h (s : state) b j r x :
  inv h s → blocks s !! b = Some j → r ∈ phys j → refs s !! r = Some x → ref_obsolete x = false → b ∉ lists s free_list →
  full j ∧ in_use b s.
Proof.
  intros Hi Hb Hr Hx Hobs Hfree. pose proof (inv_blocks _ _ Hi _ _ Hb) as Hj. destruct (inv_shaped _ _ Hi) as (Hl & Hh & Ho).
  destruct (spans_elem _ _ _ _ _ (ok_spans _ _ _ Hj) Hr) as (x' & Hx' & _ & Ht & _). rewrite Hx in Hx'. injection Hx' as <-.
  assert (¬ emptied j) as Hne by (intros [_ He]; rewrite He in Hr; by apply elem_of_nil in Hr).
  assert (used_size (size j) = 0 → unchecked_size (size j) = 0 → False) as Hu.
  { rewrite (ok_used _ _ _ Hj), (ok_unchecked _ _ _ Hj). intros H1 H2.
    pose proof (live_elem _ (class_of x) _ _ _ _ _ (ok_spans _ _ _ Hj) Hr Hx eq_refl) as H. unfold class_of in H. rewrite Hobs in H.
    destruct (ref_flags x =? REF_UNCHECKED); lia. }
  destruct (block_place _ _ _ _ (inv_placed _ _ Hi) Hb) as [?|[?|[?|(n & Hn)]]].
  - by destruct (Hne (Hh _ _ H Hb)).
  - split; [by eauto|]. by left.
  - split; [by eauto|]. right; by left.
  - pose proof (Hl _ _ _ Hn Hb) as Hsh. unfold in_use.
    destruct n; try done; cbn in Hsh; try (destruct Hsh as (? & ? & ?); by exfalso; apply Hu); split; try done; right; right; eexists; (split; [|exact Hn]); set_solver.
Qed.

(** What marking costs: [n] bytes of [k] are dirty or wasted. *)
Record spent (k : kind) (n : Z) (j j' : eraseblock) : Prop := Spent {
  sp_offset : offset j' = offset j; sp_phys : phys j' = phys j; sp_gc : gc_node j' = gc_node j;
  sp_nonneg : nonneg (size j'); sp_sum : sum (size j') = sum (size j); sp_free : free_size (size j') = free_size (size j);
  sp_used : used_size (size j') = used_size (size j) - (if decide (k = Used) then n else 0);
  sp_unchecked : unchecked_size (size j') = unchecked_size (size j) - (if decide (k = Unchecked) then n else 0) }.

Lemma nonneg_get z : nonneg z → 0 <= unchecked_size z ∧ 0 <= used_size z ∧ 0 <= dirty_size z ∧ 0 <= wasted_size z ∧ 0 <= free_size z.
Proof. intros H. pose proof (H Unchecked). pose proof (H Used). pose proof (H Dirty). pose proof (H Wasted). pose proof (H Free). done. Qed.
Lemma nonneg_intro u s d w f : 0 <= u → 0 <= s → 0 <= d → 0 <= w → 0 <= f → nonneg (Sizes u s d w f).
Proof. intros ? ? ? ? ? []; done. Qed.
(** A block with its sizes in the open, for arithmetic on them. *)
Ltac open_sizes j :=
  let H := fresh in
  repeat match goal with Hn : nonneg (size j) |- _ => pose proof (nonneg_get _ Hn); clear Hn end;
  destruct j as [? [? ? ? ? ?] ? ?]; unfold full, sum in *; cbn in *.
Ltac spent_sizes := split; cbn; try done; try (apply nonneg_intro; lia); unfold sum; cbn; repeat case_decide; try done; lia.

Lemma waste_or_dirty h b j j0 k len T (s : state) (bad : bool) B :
  blocks s !! b = Some j0 → (k = Unchecked ∨ k = Used) → 0 < len <= get k (size j) → nonneg (size j) → sum (size j) < 2 ^ 32 →
  B + len = 0 → accounted B (rebooked b (on_size (plus k (- len)) j) T s) → placed h s →
  let w := wasted_size (size j) in
  wp (if bad then
        charge Dirty b len;;
        if truthy w then
          bad ← on_list b bad_used_list;
          if bad : bool then mret 0 else charge Dirty b w;; charge Wasted b (- w);; mret (len + w)
        else mret len
      else charge Wasted b len;; mret 0) (rebooked b (on_size (plus k (- len)) j) T s)
    (λ _ s', ∃ j' T', s' = rebooked b j' T' s ∧ accounted 0 s' ∧ spent k len j j').
Proof.
  intros Hb Hk Hlen Hz Hsum HB Hacc Hp w. subst w. pose proof (nonneg_get _ Hz) as Hn. clear Hz. destruct j as [o [u us d w f] ph gc]. unfold sum in Hsum. cbn in Hsum, Hn. cbn [wasted_size size].
  destruct bad; [destruct (truthy w)|].
  - eapply wp_charge; [done..| |]; [destruct Hk as [-> | ->]; cbn in *; lia|]. intros T1 H1. apply wp_sb_gets. case_bool_decide; cbv beta iota.
    + apply wp_ret. eexists _, T1. split; [done|]. split; [by replace 0 with (B + len)|]. destruct Hk as [-> | ->]; cbn in *; spent_sizes.
    + eapply wp_charge; [done..| |]; [destruct Hk as [-> | ->]; cbn in *; lia|]. intros T2 H2.
      eapply wp_charge; [done..| |]; [destruct Hk as [-> | ->]; cbn in *; lia|]. intros T3 H3.
      apply wp_ret. eexists _, T3. split; [done|]. split; [by replace 0 with (B + len + w + - w) by lia|]. destruct Hk as [-> | ->]; cbn in *; spent_sizes.
  - eapply wp_charge; [done..| |]; [destruct Hk as [-> | ->]; cbn in *; lia|]. intros T1 H1. apply wp_ret. eexists _, T1. split; [done|].
    split; [by replace 0 with (B + len)|]. destruct Hk as [-> | ->]; cbn in *; spent_sizes.
  - eapply wp_charge; [done..| |]; [destruct Hk as [-> | ->]; cbn in *; lia|]. intros T1 H1. apply wp_ret. eexists _, T1. split; [done|].
    split; [by replace 0 with (B + len)|]. destruct Hk as [-> | ->]; cbn in *; spent_sizes.
Qed.
Record same_rest (s s' : state) : Prop := SameRest {
  sr_caches : caches s' = caches s; sr_flags : flags s' = flags s; sr_readonly : readonly s' = readonly s; sr_flash : flash s' = flash s;
  sr_env : env s' = env s }.
Lemma obsolete_class x : ref_ok x → ref_ok (with_flags REF_OBSOLETE x) ∧ ref_offset (with_flags REF_OBSOLETE x) = ref_offset x ∧
  class_of (with_flags REF_OBSOLETE x) = Dirty ∧ ref_obsolete (with_flags REF_OBSOLETE x) = true.
Proof.
  intros Hx. destruct (with_flags_ref REF_OBSOLETE x ltac:(done) Hx) as (? & ? & Hf). split_and!; try done.
  - unfold class_of. rewrite ref_obsolete_flags, Hf. done.
  - by rewrite ref_obsolete_flags, Hf.
Qed.
Lemma class_live x : ref_obsolete x = false → class_of x = if ref_flags x =? REF_UNCHECKED then Unchecked else Used.
Proof. unfold class_of. by intros ->. Qed.
(** The block once one of its nodes is obsolete. *)
Lemma spent_ok R b j j' r x : jeb_ok R b j → r ∈ phys j → R !! r = Some x → ref_obsolete x = false → spent (class_of x) (totlen x) j j' →
  jeb_ok (<[r := with_flags REF_OBSOLETE x]> R) b j'.
Proof.
  intros Hj Hr Hx Hobs [Ho Hp _ Hz Hsum Hf Hu Hc]. pose proof (spans_NoDup _ _ _ _ (ok_spans _ _ _ Hj)) as Hd.
  destruct (spans_elem _ _ _ _ _ (ok_spans _ _ _ Hj) Hr) as (y & Hy & Hok & _). rewrite Hx in Hy. injection Hy as <-.
  destruct (obsolete_class x Hok) as (Hok' & Hoff & Hcl & _). split; rewrite ?Ho, ?Hp, ?Hf, ?Hu, ?Hc; [apply Hj|done|apply Hj| | |].
  - eapply spans_same; [|apply Hj]. intros q y Hq Hy. destruct (decide (q = r)) as [->|Hne].
    + exists (with_flags REF_OBSOLETE x). rewrite lookup_insert_eq. simplify_eq. by split_and!.
    + exists y. by rewrite lookup_insert_ne.
  - rewrite (live_insert _ _ _ _ _ _ Hd Hr Hx), Hcl, (ok_used _ _ _ Hj). repeat case_decide; try done; lia.
  - rewrite (live_insert _ _ _ _ _ _ Hd Hr Hx), Hcl, (ok_unchecked _ _ _ Hj). repeat case_decide; try done; lia.
Qed.
Lemma chained_with_flags R C r x fl : R !! r = Some x → chained R C → chained (<[r := with_flags fl x]> R) C.
Proof.
  intros Hx [H1 H2]. assert (∀ l ns l', seg R l ns l' → seg (<[r := with_flags fl x]> R) l ns l') as Hseg.
  { intros l ns l'. apply seg_frame. intros q y _ Hy. destruct (decide (q = r)) as [->|Hne]; [|exists y; by rewrite lookup_insert_ne].
    exists (with_flags fl x). rewrite lookup_insert_eq. by simplify_eq. }
  split.
  - intros i c Hc. destruct (H1 i c Hc) as [ns Hn]. exists ns. by apply Hseg.
  - intros q y Hy Hn. assert (∃ z, R !! q = Some z ∧ next_in_ino z ≠ Null) as (z & Hz & Hzn).
    { destruct (decide (q = r)) as [->|Hne]; [rewrite lookup_insert_eq in Hy; injection Hy as <-; by exists x|].
      rewrite lookup_insert_ne in Hy by done. by exists y. }
    destruct (H2 q z Hz Hzn) as (i & c & ns & ? & ? & ?). exists i, c, ns. split_and!; try done. by apply Hseg.
Qed.
Lemma no_joining_insert R r x x' : R !! r = Some x → (next_in_ino x' ≠ Null → next_in_ino x ≠ Null) → no_joining R (<[r := x']> R).
Proof.
  intros Hx Hn q y. destruct (decide (q = r)) as [->|Hne].
  - rewrite lookup_insert_eq. intros [= <-] ?. exists x. split; [done|by apply Hn].
  - rewrite lookup_insert_ne by done. eauto.
Qed.

(** The state once the sizes are those of a block whose node [r] is obsolete. *)
Definition marked (b : nat) (j : eraseblock) (r : nat) (x : raw_ref) (s s' : state) : Prop :=
  same_lists s s' ∧ same_rest s s' ∧ refs s' = <[r := with_flags REF_OBSOLETE x]> (refs s) ∧
  ∃ j', blocks s' = <[b := j']> (blocks s) ∧ offset j' = offset j ∧ phys j' = phys j ∧ gc_node j' = gc_node j ∧ full j' ∧
    free_size (size j') = free_size (size j) ∧ unchecked_size (size j') <= unchecked_size (size j).
Lemma account_obsolete_ok h (s : state) b j r x :
  inv h s → blocks s !! b = Some j → r ∈ phys j → refs s !! r = Some x → ref_obsolete x = false → b ∉ lists s free_list →
  wp (account_obsolete b r) s (λ _ s', inv h s' ∧ marked b j r x s s').
Proof.
  intros Hi Hb Hr Hx Hobs Hfree. destruct (live_block _ _ _ _ _ _ Hi Hb Hr Hx Hobs Hfree) as [Hfull Huse].
  pose proof (inv_blocks _ _ Hi _ _ Hb) as Hj. pose proof (block_bounds _ _ _ _ (inv_placed _ _ Hi) Hb) as Hbb.
  destruct (in_block _ _ _ _ Hj Hbb Hr) as (y & Hy & Hok & Ht & _ & _ & Hdiv & _). rewrite Hx in Hy. injection Hy as <-.
  pose proof (live_elem _ (class_of x) _ _ _ _ _ (ok_spans _ _ _ Hj) Hr Hx eq_refl) as Hle.
  assert (class_of x = Unchecked ∨ class_of x = Used) as Hk by (rewrite class_live by done; destruct (ref_flags x =? REF_UNCHECKED); auto).
  assert (totlen x <= get (class_of x) (size j)) as Hge by (destruct Hk as [Hk|Hk]; rewrite Hk in *; cbn; rewrite ?(ok_used _ _ _ Hj), ?(ok_unchecked _ _ _ Hj); lia).
  unfold account_obsolete. eapply wp_ref_totlen; [done..|]. eapply wp_ref; [done|]. eapply wp_block; [done|]. cbv zeta. rewrite <-(class_live x Hobs).
  rewrite (proj2 (Z.ltb_ge _ _)) by lia. pose proof (full_le (class_of x) _ _ _ Hj Hfull). pose proof (sector_small _ _ _ _ (inv_placed _ _ Hi) Hb).
  rewrite <-(rebooked_id b j s Hb) at 1. eapply wp_charge; [done|rewrite rebooked_id by done; by eapply inv_accounted|lia|]. intros T1 H1.
  eapply wp_block; [by eapply rebooked_block|]. apply wp_sb_gets. apply wp_bind. cbv zeta.
  assert (wasted_size (size (on_size (plus (class_of x) (- totlen x)) j)) = wasted_size (size j) ∧
          dirty_size (size (on_size (plus (class_of x) (- totlen x)) j)) = dirty_size (size j)) as [-> ->].
  { destruct j as [? [] ? ?]. by destruct Hk as [-> | ->]. }
  eapply wp_mono; [|eapply (waste_or_dirty h b j j (class_of x) (totlen x) T1 s _ (- totlen x)); try done; try lia; [apply Hj|unfold full in Hfull; lia|apply Hi]].
  cbn beta. intros added s' (j' & T' & -> & Hacc & Hsp). eapply wp_then; [reflexivity|]. apply wp_ret.
  set (s' := on_refs _ _). assert (refs s' = <[r := with_flags REF_OBSOLETE x]> (refs s)) as Hrefs.
  { subst s'. cbn. clear - Hx. apply map_eq. intros q. destruct (decide (q = r)) as [->|Hne];
      [by rewrite lookup_alter_eq, lookup_insert_eq, Hx|by rewrite lookup_alter_ne, lookup_insert_ne]. }
  assert (same_lists s s') as Hsl by done. pose proof (spent_ok _ _ _ _ _ _ Hj Hr Hx Hobs Hsp) as Hj'.
  assert (full j') as Hfull' by (unfold full; by rewrite (sp_sum _ _ _ _ Hsp)).
  split; [|split_and!; [done|done|done|exists j'; destruct Hsp as [? ? ? ? ? ? ? Hun]; rewrite Hun; split_and!; try done; case_decide; lia]].
  eapply inv_patch; [done|exact Hsl|exact Hb|done|exact Hacc|by rewrite Hrefs|rewrite Hrefs; by eapply no_joining_insert|rewrite Hrefs; by eapply others_insert| |..|done| |].
  - intros n Hn. destruct (inv_shaped _ _ Hi) as (Hl & _ & _).
    destruct Huse as [Hu|[Hu|(m & Hm & Hbm)]]; [by destruct (listed_alone _ _ _ _ (inv_placed _ _ Hi) Hn) as (_ & ? & _)|by destruct (listed_alone _ _ _ _ (inv_placed _ _ Hi) Hn) as (_ & _ & ?)|].
    rewrite <-(one_list _ _ _ _ _ (inv_placed _ _ Hi) Hbm Hn). intros _. set_unfold in Hm. by destruct Hm as [-> |[-> |[-> |[-> |[]]]]].
  - intros [_ He]. rewrite He in Hr. by apply elem_of_nil in Hr.
  - rewrite Hrefs. apply chained_with_flags; [done|apply Hi].
  - destruct Hsp as [Ho _ _ _ _ Hf _ _]. by apply (unspoilt_insert h s s' b j j').
Qed.
End Obsolete.

(** ** Lines 483 to 528: the lists *)

Section Refiling.
Import Space.
Context {F : Type} `{!Mtd F} `{!Eraser F} `{!Erasable F} {Geo : Geometry} {Lawful_geo : Geometric}.
Abbreviation state := (sb (F := F)).
Abbreviation P := (SM state).

(** What no change of the lists touches. *)
Record kept (s s' : state) : Prop := Kept {
  kp_blocks : blocks s' = blocks s; kp_refs : refs s' = refs s; kp_caches : caches s' = caches s; kp_flags : flags s' = flags s;
  kp_readonly : readonly s' = readonly s; kp_next : nextblock s' = nextblock s;
  kp_flash : ∀ b, b ∉ lists s erasing_list → preserved b s s'; kp_erasing : ∀ b, b ∈ lists s' erasing_list → b ∈ lists s erasing_list;
  kp_misfortunes : (misfortunes (env s') <= misfortunes (env s))%nat }.
Lemma kept_lists (s s' : state) : blocks s' = blocks s → refs s' = refs s → caches s' = caches s → flags s' = flags s → readonly s' = readonly s →
  nextblock s' = nextblock s → flash s' = flash s → (∀ b, b ∈ lists s' erasing_list → b ∈ lists s erasing_list) →
  (misfortunes (env s') <= misfortunes (env s))%nat → kept s s'.
Proof. intros ? ? ? ? ? ? Hf ? ?. split; try done. intros b _. by apply preserved_flash. Qed.
Lemma kept_refl (s : state) : kept s s.
Proof. by apply kept_lists. Qed.
Lemma kept_trans (s s1 s2 : state) : kept s s1 → kept s1 s2 → kept s s2.
Proof.
  intros [? ? ? ? ? ? F1 E1 ?] [? ? ? ? ? ? F2 E2 ?]. split; try congruence; [|auto|lia]. intros b Hb. eapply preserved_trans; [by apply F1|]. apply F2. auto.
Qed.

(** The lists change, the counters follow. *)
Lemma inv_lists h h' (s s' : state) :
  inv h s → blocks s' = blocks s → refs s' = refs s → caches s' = caches s → total s' = total s →
  u32 (erasing_size s' + bad_size s') = u32 (erasing_size s + bad_size s) →
  placed h' s' → shaped h' s' → counted h' s' → unspoilt s' → inv h' s'.
Proof.
  intros Hi Hb Hr Hc Ht Hsz Hp Hs Hn Hun. split; [|..|done|done|done| | |done].
  - intros k. rewrite Ht, Hb. apply Hi.
  - rewrite <-(inv_balance _ _ Hi). unfold balance. rewrite Ht, <-!Z.add_assoc, <-u32_add_r, Hsz, u32_add_r. done.
  - rewrite Hb, Hr. apply Hi.
  - rewrite Hr, Hc. apply Hi.
Qed.
Lemma inv_move h (s s' : state) k :
  inv h s → blocks s' = blocks s → refs s' = refs s → caches s' = caches s → total s' = total s →
  erasing_size s' = erasing_size s → bad_size s' = bad_size s → nr_free_blocks s' = nr_free_blocks s →
  nr_erasing_blocks s' = u32 (nr_erasing_blocks s + k) →
  (∀ m, m ∈ [erasing_list; erase_complete_list; free_list; bad_list] → count s' m = count s m) →
  count s' erase_pending_list = count s erase_pending_list + k → placed h s' → shaped h s' → unspoilt s' → inv h s'.
Proof.
  intros Hi Hb Hr Hc Ht Hes Hbs Hf He Hm Hpe Hp Hs Hun. eapply (inv_lists h h); try done; [by rewrite Hes, Hbs|].
  destruct (inv_counted _ _ Hi) as [Cf Ce Cs Cb]. split; rewrite ?Hf, ?He, ?Hes, ?Hbs, ?Hpe, ?Hm by set_solver; try done.
  rewrite Ce, u32_add_l. f_equal. lia.
Qed.

(** From one list to another that is counted as the first. *)
Definition uncounted (n : list_name) : Prop := n ∈ [clean_list; very_dirty_list; dirty_list; erasable_list; bad_used_list].
Lemma counted_first m k : (k = 0 ∧ uncounted m ∨ k = 1 ∧ m = erase_pending_list) → m ∉ [free_list; erase_complete_list].
Proof. unfold uncounted. intros [[_ H]|[_ ->]]; [|set_solver]. set_solver. Qed.
(** Blocks move to a list from which nothing is written. *)
Lemma unspoilt_relisted h (s s' : state) m : inv h s → flash s' = flash s → blocks s' = blocks s →
  (∀ b, nextblock s' = Some b → nextblock s = Some b) → m ∉ [free_list; erase_complete_list] →
  (∀ x y, y ∈ lists s' x → x = m ∨ y ∈ lists s x) → unspoilt s'.
Proof.
  intros Hi Hf Hb Hn Hm Hl. apply (unspoilt_same h s); try done.
  - intros b [Hb'|[<-|?]%Hl]; [left; by apply Hn|set_solver|by right].
  - intros b [<-|?]%Hl; [set_solver|done].
Qed.
Lemma inv_relist h (s : state) b n m k :
  inv h s → b ∈ lists s n → uncounted n → (k = 0 ∧ uncounted m ∨ k = 1 ∧ m = erase_pending_list) →
  (∀ j, blocks s !! b = Some j → shape (refs s) m j) →
  inv h (on_nr_erasing_blocks (λ x, u32 (x + k)) (added_tail b m (without b s))).
Proof.
  intros Hi Hb Hn Hm Hsh. assert (∀ x, count (added_tail b m (without b s)) x = count s x - (if decide (x = n) then 1 else 0) + (if decide (x = m) then 1 else 0)) as Hcount.
  { intros x. by rewrite count_added_tail, (count_without h s n) by (done || apply Hi). }
  eapply (inv_move h s _ k); try done.
  - intros x Hx. etransitivity; [exact (Hcount x)|]. unfold uncounted in *. destruct (decide (x = n)) as [->|]; [exfalso; clear -Hn Hx; destruct n; set_solver|].
    destruct (decide (x = m)) as [->|]; [exfalso; clear -Hm Hx; destruct Hm as [[_ ?]|[_ ->]]; [destruct m; set_solver|set_solver]|lia].
  - etransitivity; [exact (Hcount _)|]. rewrite (decide_False (P := erase_pending_list = n)) by (intros <-; clear -Hn; unfold uncounted in Hn; set_solver).
    case_decide as Hd; destruct Hm as [[-> ?]|[-> ->]]; try lia; [subst m; clear -H; unfold uncounted in H; set_solver|done].
  - apply (placed_added_tail h), (placed_without h _ n); [apply Hi|done].
  - apply (shaped_added_tail h); [|done]. apply shaped_without, Hi.
  - apply (unspoilt_relisted h s _ m); [done..|by eapply counted_first|]. intros x y. cbn. case_decide; [by left|]. intros [_ ?]%list_elem_of_filter. by right.
Qed.
Lemma inv_close_gc h (s : state) b m k :
  inv h s → gcblock s = Some b → (k = 0 ∧ uncounted m ∨ k = 1 ∧ m = erase_pending_list) → (∀ j, blocks s !! b = Some j → shape (refs s) m j) →
  inv h (on_nr_erasing_blocks (λ x, u32 (x + k)) (added_tail b m (on_gcblock (λ _, None) s))).
Proof.
  intros Hi Hg Hm Hsh. eapply (inv_move h s _ k); try done.
  - intros x Hx. etransitivity; [apply (count_added_tail (on_gcblock (λ _, None) s))|]. unfold uncounted in Hm.
    destruct (decide (x = m)) as [->|]; [exfalso; clear -Hm Hx; destruct Hm as [[_ ?]|[_ ->]]; [destruct m; set_solver|set_solver]|]. unfold count. cbn. lia.
  - etransitivity; [apply (count_added_tail (on_gcblock (λ _, None) s))|]. unfold count. cbn [lists on_gcblock].
    case_decide as Hd; destruct Hm as [[-> ?]|[-> ->]]; try lia; [subst m; clear -H; unfold uncounted in H; set_solver|done].
  - apply (placed_added_tail h), (placed_close_gc h); [apply Hi|done].
  - apply (shaped_added_tail h); [|done]. apply shaped_close_gc, Hi.
  - apply (unspoilt_relisted h s _ m); [done..|by eapply counted_first|]. intros x y. cbn. case_decide; [by left|by right].
Qed.
Lemma nr_erasing_id h (s s' : state) : inv h s → nr_erasing_blocks s' = nr_erasing_blocks s → on_nr_erasing_blocks (λ x, u32 (x + 0)) s' = s'.
Proof.
  intros Hi He. destruct s'. unfold on_nr_erasing_blocks. cbn in *. f_equal. by rewrite He, (ct_erasing _ _ (inv_counted _ _ Hi)), Z.add_0_r, u32_idemp.
Qed.
Lemma inv_env h (s : state) f : inv h s → inv h (on_env f s).
Proof. intros Hi. destruct Hi. split; try done. by apply (counted_same h s). Qed.
Lemma inv_flash h (s : state) f : inv h s → unspoilt (on_flash (λ _, f) s) → inv h (on_flash (λ _, f) s).
Proof. intros Hi Hun. destruct Hi. split; try done. by apply (counted_same h s). Qed.
(** Nothing was written. *)
Lemma inv_unwritten h (s : state) f : inv h s → (∀ o l, stored (flash s) o l → stored f o l) → inv h (on_flash (λ _, f) s).
Proof. intros Hi Hf. apply inv_flash; [done|]. intros b j Hb. destruct (inv_unspoilt _ _ Hi b j Hb) as [Hz Hc]. split; [intros ?%Hz|intros ?%Hc]; by apply Hf. Qed.
(** A write to a block, in front of what is still to be written. *)
Lemma inv_touched h (s : state) b j o n f : inv h s → blocks s !! b = Some j → touched (flash s) f o n → 0 <= n →
  offset j <= o → o + n <= offset j + sector_size - free_size (size j) → b ∉ lists s erase_complete_list → inv h (on_flash (λ _, f) s).
Proof.
  intros Hi Hb Ht Hn Ho Hlen Hc. apply inv_flash; [done|]. pose proof (inv_blocks _ _ Hi _ _ Hb) as Hj. pose proof (ok_offset _ _ _ Hj) as Hoff.
  pose proof (ok_sizes _ _ _ Hj Free) as Hfr. cbn in Hfr. apply (unspoilt_mono h s); [done|]. intros y i Hy. exists i. destruct (decide (y = b)) as [->|Hne].
  - assert (i = j) as -> by (cbn in Hy; congruence). split_and!; [done|done| |done]. intros Hz. left. apply Ht; [by apply (inv_unspoilt _ _ Hi b j Hb)|]. right. lia.
  - assert (preserved y s (on_flash (λ _, f) s)) as Hp by (apply (preserved_touched b y s (on_flash (λ _, f) s) o n Ht Hne); lia). by split_and!; [..|right|right].
Qed.
Lemma wp_jiffies {B} (k : Z → P B) (s : state) Q : (∀ j, wp (k j) (on_env take_jiffies s) Q) → wp (get_jiffies ≫= k) s Q.
Proof. intros H. eapply wp_then; [reflexivity|apply H]. Qed.

(** Only this block moves, and only it is no longer collected. *)
Definition moved (b : nat) (s s' : state) : Prop :=
  (gcblock s' = gcblock s ∨ gcblock s = Some b ∧ gcblock s' = None) ∧
  ∀ n y, n ∈ use_lists → y ∈ lists s' n → y = b ∨ y ∈ lists s n.
Lemma moved_refl b (s : state) : moved b s s.
Proof. split; [by left|by right]. Qed.
Lemma moved_without b (s : state) : moved b s (without b s).
Proof. split; [by left|]. intros n y _ [_ Hy]%list_elem_of_filter. by right. Qed.
Lemma moved_close_gc b (s : state) : gcblock s = Some b → moved b s (on_gcblock (λ _, None) s).
Proof. intros Hg. split; [by right|]. intros n y _ Hy. by right. Qed.
Lemma moved_added b m (s s1 s' : state) : moved b s s1 → gcblock s' = gcblock s1 → lists s' = lists (added_tail b m s1) → moved b s s'.
Proof.
  intros [Hg Hl] Hg' Hl'. split; [by rewrite Hg'|]. intros n y Hn. rewrite Hl'. cbn. case_decide; [|by apply Hl]. intros [?| ->%list_elem_of_singleton]%elem_of_app; [by apply (Hl n)|by left].
Qed.
Lemma kept_without b (s : state) : kept s (without b s).
Proof. apply kept_lists; try done. by intros x [_ ?]%list_elem_of_filter. Qed.
Lemma kept_relisted (s s1 s' : state) b m : kept s s1 → s' = added_tail b m s1 → uncounted m → kept s s'.
Proof.
  intros Hk -> Hm. eapply kept_trans; [exact Hk|]. apply kept_lists; try done. intros x. cbn. rewrite decide_False; [done|].
  intros <-. unfold uncounted in Hm. set_solver.
Qed.
(** A completely dirty block, taken off its place. *)
Lemma refile_dirty_ok h (s s1 : state) b :
  kept s s1 → moved b s s1 → inv h (added_tail b erasable_list s1) →
  inv h (on_nr_erasing_blocks (add32 1) (added_tail b erase_pending_list s1)) →
  wp (j ← get_jiffies;
      if truthy (j &&& 127) then list_add_tail b erase_pending_list;; puts (on_nr_erasing_blocks (add32 1))
      else list_add_tail b erasable_list) s1 (λ _ s', inv h s' ∧ kept s s' ∧ moved b s s').
Proof.
  intros Hk Hm H0 H1. apply wp_jiffies. intros j. destruct (truthy (j &&& 127)).
  - eapply wp_then; [reflexivity|]. eapply wp_eq; [reflexivity|]. split_and!; [exact (inv_env _ _ take_jiffies H1)| |by eapply moved_added].
    eapply kept_trans; [exact Hk|by apply kept_lists].
  - eapply wp_eq; [reflexivity|]. split_and!; [exact (inv_env _ _ take_jiffies H0)| |by eapply moved_added].
    eapply kept_trans; [exact Hk|by apply kept_lists].
Qed.
(** From one list in use to another. *)
Lemma relist_ok h (s : state) b n m : inv h s → b ∈ lists s n → uncounted n → uncounted m → (∀ j, blocks s !! b = Some j → shape (refs s) m j) →
  wp (list_del b;; list_add_tail b m) s (λ _ s', inv h s' ∧ kept s s' ∧ moved b s s').
Proof.
  intros Hi Hb Hn Hm Hsh. eapply wp_list_del; [done|]. eapply wp_eq; [reflexivity|].
  split_and!; [|by eapply kept_relisted; [apply (kept_without b)|..]|by eapply moved_added; [apply moved_without|..]]. change (inv h (added_tail b m (without b s))).
  rewrite <-(nr_erasing_id h s (added_tail b m (without b s)) Hi eq_refl). eapply inv_relist; try done. by left.
Qed.
Lemma refile_ok h (s : state) b j added :
  inv h s → blocks s !! b = Some j → full j → in_use b s → wp (refile b added) s (λ _ s', inv h s' ∧ kept s s' ∧ moved b s s').
Proof.
  intros Hi Hb Hf Hu. unfold refile. eapply wp_block; [done|]. apply wp_sb_gets. cbn [id]. cbv zeta.
  destruct (decide (nextblock s = Some b)) as [|Hnn]; [apply wp_ret; split_and!; [done|apply kept_refl|apply moved_refl]|]. destruct Hu as [Hu|Hu]; [done|].
  assert (∀ m, shape (refs s) m j → ∀ j', blocks s !! b = Some j' → shape (refs s) m j') as Hone by (intros m Hs j' Hj'; by simplify_eq).
  destruct (_ && _) eqn:Hz.
  - apply andb_true_iff in Hz as [Hz1%Z.eqb_eq Hz2%Z.eqb_eq]. destruct (decide (gcblock s = Some b)) as [Hg|Hg].
    + eapply wp_then; [reflexivity|]. apply refile_dirty_ok; [by apply kept_lists|by apply moved_close_gc| |eapply inv_close_gc; [done|done|by right|by apply Hone]].
      rewrite <-(nr_erasing_id h s (added_tail b erasable_list (on_gcblock (λ _, None) s)) Hi eq_refl). eapply inv_close_gc; [done|done|left; split; [done|unfold uncounted; set_solver]|by apply Hone].
    + destruct Hu as [Hu|(n & Hn & Hbn)]; [done|]. assert (uncounted n) as Hun by (unfold uncounted; clear -Hn; set_solver).
      eapply wp_then; [by eapply list_del_eq|]. apply refile_dirty_ok; [apply kept_without|apply moved_without| |eapply inv_relist; [done|done|done|by right|by apply Hone]].
      rewrite <-(nr_erasing_id h s (added_tail b erasable_list (without b s)) Hi eq_refl). eapply inv_relist; [done|done|done|left; split; [done|unfold uncounted; set_solver]|by apply Hone].
  - destruct (decide (gcblock s = Some b)) as [|Hg]; [apply wp_ret; split_and!; [done|apply kept_refl|apply moved_refl]|]. destruct Hu as [Hu|(n & Hn & Hbn)]; [done|].
    assert (uncounted n) as Hun by (unfold uncounted; clear -Hn; set_solver).
    destruct (ISDIRTY (dirty_size (size j)) && _); [|destruct (VERYDIRTY (dirty_size (size j)) && _); [|apply wp_ret; split_and!; [done|apply kept_refl|apply moved_refl]]];
      (apply (relist_ok h s b n); [done|done|done|unfold uncounted; set_solver|by apply Hone]).
Qed.

(** ** The end of an erase, and the points where it may come *)

(** Only blocks whose erase is under way move. *)
Record quiet (s s' : state) : Prop := Quiet {
  q_kept : kept s s'; q_gc : gcblock s' = gcblock s; q_free : nr_free_blocks s' = nr_free_blocks s; q_total : total s' = total s;
  q_lists : ∀ n, n ∉ [erasing_list; erase_complete_list; bad_list] → lists s' n = lists s n;
  q_busy : count s' erasing_list + count s' erase_complete_list <= count s erasing_list + count s erase_complete_list }.
Lemma quiet_refl (s : state) : quiet s s.
Proof. split; try done. apply kept_refl. Qed.
Lemma quiet_trans (s s1 s2 : state) : quiet s s1 → quiet s1 s2 → quiet s s2.
Proof.
  intros [K1 ? ? ? L1 ?] [K2 ? ? ? L2 ?]. split; [by eapply kept_trans|congruence..| |lia]. intros n Hn. by rewrite L2, L1.
Qed.
(** The state once the driver has erased the block. *)
Definition erased (j : eraseblock) (s : state) : state := on_flash (λ f, mtd_erased f (offset j) sector_size) s.
Lemma preserved_erased h (s : state) b j b' : inv h s → blocks s !! b = Some j → b' ≠ b → preserved b' s (erased j s).
Proof.
  intros Hi Hb Hne o l Ho Hl Hs. pose proof (ok_offset _ _ _ (inv_blocks _ _ Hi _ _ Hb)) as Hoff. pose proof sector_pos. apply law_kept; [done|].
  rewrite Hoff. assert (b' < b ∨ b < b')%nat as [?|?] by lia; [left|right]; nia.
Qed.
Lemma unspoilt_erased h (s s' : state) b j : inv h s → b ∈ lists s erasing_list → blocks s !! b = Some j → flash s' = flash (erased j s) →
  blocks s' = blocks s → nextblock s' = nextblock s → (∀ n y, n ∈ [free_list; erase_complete_list] → y ∈ lists s' n → y ∈ lists s n ∨ y = b ∧ n = erase_complete_list) →
  unspoilt s'.
Proof.
  intros Hi Hb Hj Hf Hbl Hn Hl. apply (unspoilt_mono h s); [done|]. intros y i. rewrite Hbl, Hn, Hf. intros Hy.
  assert (y ≠ b → preserved y s s') as Hp by (intros Hne o l Ho Hlen Hs; rewrite Hf; by apply (preserved_erased h s b j y)).
  destruct (listed_alone _ _ _ _ (inv_placed _ _ Hi) Hb) as (_ & Hbn & _). exists i. split_and!; [done|done|..].
  - intros Hz. right. assert (nextblock s = Some y ∨ y ∈ lists s free_list) as Hz' by (destruct Hz as [?|[?|[_ ?]]%Hl]; [by left|by right|done|set_solver]).
    split_and!; [done|done|]. apply Hp. intros ->. destruct Hz' as [?|Hz']; [done|]. by pose proof (one_list h s _ _ b (inv_placed _ _ Hi) Hb Hz').
  - intros [Hin|[-> _]]%Hl; [right|left|set_solver].
    + split; [done|]. apply Hp. intros ->. by pose proof (one_list h s _ _ b (inv_placed _ _ Hi) Hb Hin).
    + assert (i = j) as -> by congruence. apply law_erased.
Qed.
Lemma kept_erased h (s s' : state) b j : inv h s → b ∈ lists s erasing_list → blocks s !! b = Some j → kept (erased j s) s' → kept s s'.
Proof.
  intros Hi Hb Hj [? ? ? ? ? ? F1 E1 ?]. split; try done. intros y Hy. eapply preserved_trans; [|by apply F1]. apply (preserved_erased h s b); [done|done|by intros ->].
Qed.
Lemma erase_succeeded_ok h (s : state) b : inv h s → b ∈ lists s erasing_list →
  ∃ j, blocks s !! b = Some j ∧ (erase_done b;; jffs2_erase_succeeded b) s = Some (tt, added_tail b erase_complete_list (without b (erased j s))) ∧
    inv h (added_tail b erase_complete_list (without b (erased j s))) ∧ quiet s (added_tail b erase_complete_list (without b (erased j s))).
Proof.
  intros Hi Hb. destruct (place_block h s b (inv_placed _ _ Hi)) as [j Hj]; [apply elem_of_app; right; by eapply listed_places|]. exists j. split; [done|]. split.
  { unfold erase_done, block, mbind, SM_bind. rewrite Hj. change (jffs2_erase_succeeded b (erased j s) = Some (tt, added_tail b erase_complete_list (without b (erased j s)))).
    unfold jffs2_erase_succeeded, mbind, SM_bind. by rewrite (list_del_eq b erasing_list (erased j s) Hb). }
  set (s' := added_tail _ _ _). assert (∀ x, count s' x = count s x - (if decide (x = erasing_list) then 1 else 0) + (if decide (x = erase_complete_list) then 1 else 0)) as Hc.
  { intros x. subst s'. rewrite count_added_tail. change (count (without b (erased j s)) x) with (count (without b s) x). rewrite (count_without h s erasing_list); [done|apply Hi|done]. }
  split; [|split; [|done|done|done| |]].
  - eapply (inv_lists h); try done.
    + apply (placed_added_tail h (without b s)), (placed_without h _ erasing_list); [apply Hi|done].
    + apply (shaped_added_tail h (without b s)); [apply shaped_without, Hi|]. intros j' Hj'. destruct (inv_shaped _ _ Hi) as (Hl & _). exact (Hl _ _ _ Hb Hj').
    + destruct (inv_counted _ _ Hi) as [Cf Ce Cs Cb]. split; rewrite ?Hc; [etransitivity; [exact Cf|]|etransitivity; [exact Ce|]|etransitivity; [exact Cs|]|etransitivity; [exact Cb|]];
        repeat case_decide; try done; f_equal; lia.
    + apply (unspoilt_erased h s s' b j); try done. intros n y _. cbn. case_decide; [subst n; rewrite elem_of_app, list_elem_of_singleton|].
      * intros [[_ ?]%list_elem_of_filter| ->]; [by left|by right].
      * intros [_ ?]%list_elem_of_filter. by left.
  - apply (kept_erased h s s' b j); [done..|]. apply kept_lists; try done. intros x. cbn. by intros [_ ?]%list_elem_of_filter.
  - intros n Hn. subst s'. cbn. rewrite decide_False by set_solver. apply filter_ne_id. intros Hbn. apply Hn.
    rewrite (one_list h s n erasing_list b) by (done || apply Hi). set_solver.
  - rewrite !Hc. repeat case_decide; try done; lia.
Qed.
Lemma erase_failed_ok h (s : state) b : inv h s → b ∈ lists s erasing_list →
  wp (jffs2_erase_failed b) s (λ _ s', inv h s' ∧ quiet s s' ∧
    count s' erasing_list + count s' erase_complete_list < count s erasing_list + count s erase_complete_list).
Proof.
  intros Hi Hb. eapply wp_then; [reflexivity|]. eapply wp_then; [reflexivity|]. eapply wp_list_del; [done|].
  set (s' := on_nr_erasing_blocks (add32 (-1)) (added b bad_list (without b (on_bad_size (add32 sector_size) (on_erasing_size (add32 (- sector_size)) s))))).
  apply (wp_eq _ _ tt s'); [done|].
  assert (∀ x, count s' x = count s x - (if decide (x = erasing_list) then 1 else 0) + (if decide (x = bad_list) then 1 else 0)) as Hc.
  { intros x. etransitivity; [apply (count_added (without b s))|]. rewrite (count_without h s erasing_list); [done|apply Hi|done]. }
  destruct (inv_counted _ _ Hi) as [Cf Ce Cs Cb]. split_and!; [|split; [|done|done|done| |]|].
  - eapply (inv_lists h); try done.
    + subst s'. cbn. unfold add32. rewrite u32_add_l, u32_add_r. f_equal. lia.
    + apply (placed_added h), (placed_without h _ erasing_list); [apply Hi|done].
    + apply (shaped_added h (without b s)); [apply shaped_without, Hi|]. intros j Hj. destruct (inv_shaped _ _ Hi) as (Hl & _). exact (Hl _ _ _ Hb Hj).
    + split; rewrite ?Hc; repeat case_decide; try done; cbn; unfold add32; rewrite ?Cf, ?Ce, ?Cs, ?Cb, ?u32_add_l; f_equal; ring.
    + apply (unspoilt_relisted h s _ bad_list); [done..|set_solver|]. intros x y. cbn. case_decide; [by left|]. intros [_ ?]%list_elem_of_filter. by right.
  - apply kept_lists; try done. intros x. cbn. by intros [_ ?]%list_elem_of_filter.
  - intros n Hn. subst s'. cbn. rewrite decide_False by set_solver. apply filter_ne_id. intros Hbn. apply Hn.
    rewrite (one_list h s n erasing_list b) by (done || apply Hi). set_solver.
  - rewrite !Hc. repeat case_decide; try done; lia.
  - rewrite !Hc. repeat case_decide; try done; lia.
Qed.
Lemma deliver_ok h l (s : state) : inv h s → wp (deliver l) s (λ _ s', inv h s' ∧ quiet s s').
Proof.
  revert s. induction l as [|[[b ok] fail] l IH]; intros s Hi; [apply wp_ret; split; [done|apply quiet_refl]|]. cbn [deliver]. apply wp_sb_gets.
  assert (∀ (m : P unit), wp m s (λ _ s', inv h s' ∧ quiet s s') → wp (m;; deliver l) s (λ _ s', inv h s' ∧ quiet s s')) as Hstep.
  { intros m Hm. apply wp_bind. eapply wp_mono; [|exact Hm]. intros [] s1 [Hi1 Hq1]. eapply wp_mono; [|by apply IH]. intros [] s2 [Hi2 Hq2].
    split; [done|]. by eapply quiet_trans. }
  case_bool_decide as Hb; apply Hstep; [|apply wp_ret; split; [done|apply quiet_refl]]. destruct ok.
  { destruct (erase_succeeded_ok h s b Hi Hb) as (j & _ & Hrun & Hok). by eapply wp_eq. }
  eapply wp_mono; [|by apply erase_failed_ok]. by intros [] s' (? & ? & _).
Qed.
Lemma spin_unlock_ok h (s : state) : inv h s → wp spin_unlock s (λ _ s', inv h s' ∧ quiet s s').
Proof.
  intros Hi. unfold spin_unlock. apply wp_sb_gets. cbv beta. set (l := match callbacks (env s) with [] => _ | _ => _ end). eapply wp_then; [reflexivity|].
  eapply wp_mono; [|apply (deliver_ok h l (on_env take_callbacks s)), (inv_env h s _ Hi)]. intros [] s' [Hi' Hq]. split; [done|].
  eapply quiet_trans; [|exact Hq]. split; try done. apply kept_lists; try done. unfold misfortunes. cbn. destruct (callbacks (env s)); cbn; lia.
Qed.
(** A block moves to the list [m] and becomes another. *)
Lemma inv_rehome h h' (s s' : state) b j j' m :
  inv h s → blocks s !! b = Some j → blocks s' = <[b := j']> (blocks s) →
  (∀ n y, y ∈ lists s' n → (y ≠ b ∧ y ∈ lists s n) ∨ (y = b ∧ n = m)) → (∀ y, y ∈ h' → y ≠ b ∧ y ∈ h) →
  (∀ y, nextblock s' = Some y ∨ gcblock s' = Some y → y ≠ b ∧ (nextblock s = Some y ∨ gcblock s = Some y)) →
  placed h' s' → counted h' s' → accounted 0 s' → no_joining (refs s) (refs s') →
  (∀ b' i, b' ≠ b → blocks s !! b' = Some i → jeb_ok (refs s') b' i) → jeb_ok (refs s') b j' → shape (refs s') m j' →
  chained (refs s') (caches s') → flash s' = flash s → (∀ y, nextblock s' = Some y → nextblock s = Some y) →
  m ≠ erase_complete_list → (m = free_list → writable_tail (flash s) j') → inv h' s'.
Proof.
  intros Hi Hb Hbl Hl' Hh' Ho' Hp Hc Hacc Hq Ho Hj Hsh Hch Hf Hnx Hm Hfree.
  assert (∀ b' i, blocks s' !! b' = Some i → (b' = b ∧ i = j') ∨ (b' ≠ b ∧ blocks s !! b' = Some i)) as Hlook.
  { intros b' i. rewrite Hbl. intros [(-> & <- & _)|[]]%list_lookup_insert_Some; auto. }
  split; [apply Hacc|by apply accounted_balance|done| |done| |done|].
  - destruct (inv_shaped _ _ Hi) as (Hl & Hh & Hop). split_and!.
    + intros n y i [[Hy Hn]|[Hy ->]]%Hl' [[? ->]|[Hne Hi']]%Hlook; try done. by eapply shape_no_joining, Hl.
    + intros y i [Hy Hn]%Hh' [[? ->]|[Hne Hi']]%Hlook; [done|by eapply Hh].
    + intros y i [Hy Hn]%Ho' [[? ->]|[Hne Hi']]%Hlook; [done|by eapply Hop].
  - intros b' i [[-> ->]|[Hne Hi']]%Hlook; [done|by apply Ho].
  - intros y i Hy. rewrite Hf. apply Hlook in Hy as [[-> ->]|[Hne Hi']]; split.
    + intros [Hn|[[? _]|[_ Hn]]%Hl']; [by destruct (Ho' b (or_introl Hn))|done|by apply Hfree].
    + intros [[? _]|[_ Hn]]%Hl'; [done|by destruct Hm].
    + intros Hz. apply (inv_unspoilt _ _ Hi y i Hi'). destruct Hz as [Hn|[[_ ?]|[? _]]%Hl']; [left; by apply Hnx|by right|done].
    + intros [[_ ?]|[? _]]%Hl'; [by apply (inv_unspoilt _ _ Hi y i Hi')|done].
Qed.
End Refiling.
