(* ===== verification/Jffs2Obsolete.v ===== *)
(** * Jffs2Obsolete: a node leaves its inode (fs/jffs2/nodemgmt.c, erase.c, nodelist.c)

    The chain of an inode while nodes are taken out of it, one ([leave_inode]) or all those of a block
    ([jffs2_remove_node_refs_from_ino_list]); the merging of obsolete neighbours; and
    [jffs2_mark_node_obsolete] as a whole. *)

From S2P Require Import Prelude Jffs2Frag Jffs2Compr Jffs2Node Jffs2File Jffs2Write Crc32 Jffs2Space Jffs2Books Jffs2Account.

Section Unlinking.
Import Space.
Context {F : Type} `{!Mtd F} `{!Eraser F} `{!Erasable F} {Geo : Geometry} {Lawful_geo : Geometric}.
Abbreviation state := (sb (F := F)).
Abbreviation P := (SM state).

(** The link that follows the nodes [a] of the chain of cache [i]. *)
Definition slot_of (i : nat) (a : list nat) : slot := match last a with None => NodesOf i | Some q => NextOf q end.
Lemma slot_of_snoc i a q : slot_of i (a ++ [q]) = NextOf q.
Proof. unfold slot_of. by rewrite last_snoc. Qed.

(** Only [next_in_ino] changes, and no node joins. *)
Definition next_only (R R' : gmap nat raw_ref) : Prop :=
  ∀ q, match R !! q, R' !! q with
       | Some x, Some x' => flash_offset x' = flash_offset x ∧ totlen x' = totlen x ∧ (next_in_ino x = Null → next_in_ino x' = Null)
       | None, None => True
       | _, _ => False
       end.
Lemma next_only_refl R : next_only R R.
Proof. intros q. by destruct (R !! q). Qed.
Lemma next_only_trans R R1 R2 : next_only R R1 → next_only R1 R2 → next_only R R2.
Proof.
  intros H1 H2 q. specialize (H1 q). specialize (H2 q). destruct (R !! q), (R1 !! q), (R2 !! q); try done.
  destruct H1 as (? & ? & ?), H2 as (? & ? & ?). split_and!; [congruence..|auto].
Qed.
Lemma next_only_lookup R R' q x : next_only R R' → R !! q = Some x →
  ∃ x', R' !! q = Some x' ∧ flash_offset x' = flash_offset x ∧ totlen x' = totlen x ∧ (next_in_ino x = Null → next_in_ino x' = Null).
Proof. intros H Hq. specialize (H q). rewrite Hq in H. destruct (R' !! q) as [x'|]; [|done]. by exists x'. Qed.
Lemma next_only_back R R' q x' : next_only R R' → R' !! q = Some x' →
  ∃ x, R !! q = Some x ∧ flash_offset x' = flash_offset x ∧ totlen x' = totlen x ∧ (next_in_ino x = Null → next_in_ino x' = Null).
Proof. intros H Hq. specialize (H q). rewrite Hq in H. destruct (R !! q) as [x|]; [|done]. by exists x. Qed.
Lemma next_only_jeb R R' b j : next_only R R' → jeb_ok R b j → jeb_ok R' b j.
Proof.
  intros H. apply jeb_ok_agree; intros r x _ Hx; destruct (next_only_lookup _ _ _ _ H Hx) as (x' & Hx' & Hf & Ht & _); exists x'; (split; [done|]).
  - unfold ref_ok, ref_offset. by rewrite Hf, Ht.
  - unfold class_of, ref_flags, ref_obsolete. by rewrite Hf, Ht.
Qed.
Lemma next_only_joining R R' : next_only R R' → no_joining R R'.
Proof. intros H r x' Hx' Hn. destruct (next_only_back _ _ _ _ H Hx') as (x & Hx & _ & _ & Hj). exists x. split; [done|]. intros He. by apply Hn, Hj. Qed.

Lemma chain_length R l ns i : seg R l ns (ToCache i) → (length ns <= base.size R)%nat.
Proof.
  intros H. pose proof (seg_NoDup _ _ _ _ H) as Hd. rewrite <-size_dom, <-(size_list_to_set (C := gset nat) ns Hd). apply subseteq_size.
  intros r Hr%elem_of_list_to_set. destruct (seg_elem _ _ _ _ _ H Hr) as (x & Hx & _). by eapply elem_of_dom_2.
Qed.

(** *** Taking one node out *)
(** What the two stores [*p = this->next_in_ino; this->next_in_ino = NULL] leave. *)
Definition relink (p : slot) (l : link) (s : state) : state :=
  match p with NodesOf i => on_caches (alter (with_nodes l) i) s | NextOf q => on_refs (alter (with_next l) q) s end.
Definition unlinked (p : slot) (r : nat) (l : link) (s : state) : state := on_refs (alter (with_next Null) r) (relink p l s).
Lemma set_slot_eq p l (s : state) : set_slot p l s = Some (tt, relink p l s).
Proof. by destruct p. Qed.
Lemma get_slot_eq (s : state) i c (a : list nat) l :
  caches s !! i = Some c → seg (refs s) (nodes c) a l → get_slot (slot_of i a) s = Some (l, s).
Proof.
  intros Hc Hs. unfold slot_of, get_slot, cache, raw, mbind, SM_bind. destruct (last a) as [q|] eqn:Hl.
  - apply last_Some in Hl as [a' ->]. apply seg_app in Hs as (m & _ & -> & x & Hx & <-). by rewrite Hx.
  - apply last_None in Hl as ->. rewrite Hc. by rewrite <-Hs.
Qed.
Lemma unlinked_lookup p r l (s : state) k : p ≠ NextOf r →
  refs (unlinked p r l s) !! k =
    if decide (k = r) then with_next Null <$> refs s !! k else if decide (p = NextOf k) then with_next l <$> refs s !! k else refs s !! k.
Proof.
  intros Hp. unfold unlinked. cbn [refs on_refs]. destruct (decide (k = r)) as [->|Hk].
  - rewrite lookup_alter_eq. destruct p as [i|q]; cbn; [done|]. rewrite lookup_alter_ne; [done|]. by intros ->.
  - rewrite lookup_alter_ne by done. destruct p as [i|q]; cbn; [by rewrite decide_False by done|]. destruct (decide (NextOf q = NextOf k)) as [[= ->]|Hq].
    + by rewrite lookup_alter_eq.
    + rewrite lookup_alter_ne; [done|]. by intros ->.
Qed.
(** The cache of the same inode: only its list of nodes may differ. *)
Definition same_inode (c c' : inode_cache) : Prop := nlink c' = nlink c ∧ Space.state c' = Space.state c ∧ hashed c' = hashed c.
Lemma same_inode_trans c c1 c2 : same_inode c c1 → same_inode c1 c2 → same_inode c c2.
Proof. intros (? & ? & ?) (? & ? & ?). split_and!; congruence. Qed.
Lemma unlinked_cache i a r l (s : state) c : caches s !! i = Some c → ∃ c', caches (unlinked (slot_of i a) r l s) !! i = Some c' ∧
  same_inode c c' ∧ nodes c' = match last a with None => l | Some _ => nodes c end.
Proof.
  intros Hc. unfold slot_of. destruct (last a); cbn; [by exists c|]. exists (with_nodes l c). by rewrite lookup_alter_eq, Hc.
Qed.
Lemma unlinked_others i a r l (s : state) k : k ≠ i → caches (unlinked (slot_of i a) r l s) !! k = caches s !! k.
Proof. intros Hk. unfold slot_of. destruct (last a); cbn; [done|]. by rewrite lookup_alter_ne. Qed.
Lemma unlink_chain (s : state) i c a r ns x :
  caches s !! i = Some c → chain (refs s) c (a ++ r :: ns) i → refs s !! r = Some x →
  let s' := unlinked (slot_of i a) r (next_in_ino x) s in
  slot_of i a ≠ NextOf r ∧ ∃ c', caches s' !! i = Some c' ∧ same_inode c c' ∧ chain (refs s') c' (a ++ ns) i.
Proof.
  intros Hc Hch Hx s'. pose proof (seg_NoDup _ _ _ _ Hch) as Hd. apply NoDup_app in Hd as (Ha & Hdis & [Hr Hns]%NoDup_cons).
  assert (slot_of i a ≠ NextOf r) as Hp.
  { unfold slot_of. destruct (last a) as [q|] eqn:Hl; [|done]. intros [= ->]. apply last_Some in Hl as [a' ->]. apply (Hdis r); [apply elem_of_app; right; left|left]. }
  split; [done|]. destruct (unlinked_cache i a r (next_in_ino x) s c Hc) as (c' & Hc' & Hnl & Hno). exists c'. split_and!; [done|done|].
  assert (∀ l, r ∉ l → (∀ q, last a = Some q → q ∉ l) → ∀ n m, seg (refs s) n l m → seg (refs s') n l m) as Hframe.
  { intros l Hrl Hql n m. apply seg_frame. intros k y Hk Hy. exists y. split; [|done]. subst s'. rewrite unlinked_lookup by done.
    rewrite decide_False by (by intros ->). rewrite decide_False; [done|]. unfold slot_of. destruct (last a) as [q|]; [|done]. intros [= ->]. by apply (Hql k). }
  unfold chain in *. rewrite Hno. destruct (last a) as [q|] eqn:Hl.
  - pose proof Hl as Hl'. apply last_Some in Hl' as [a' ->]. apply seg_app in Hch as (m & Hm & -> & x' & Hx' & Hseg). rewrite Hx in Hx'. injection Hx' as <-.
    apply seg_app in Hm as (m & Hm & -> & y & Hy & Hyn). cbn in Hyn. apply NoDup_app in Ha as (Ha' & Hqa & _).
    apply seg_app. exists (next_in_ino x). split; [apply seg_app; exists (ToRef q); split|].
    + apply Hframe; [|intros q' [= <-] Hq; apply (Hqa q Hq); left|done]. intros Hra. apply (Hdis r); [apply elem_of_app; by left|left].
    + split; [done|]. exists (with_next (next_in_ino x) y). subst s'. rewrite unlinked_lookup by done. rewrite decide_False.
      * rewrite decide_True by (unfold slot_of; by rewrite Hl). by rewrite Hy.
      * intros ->. apply (Hdis r); [apply elem_of_app; right; left|left].
    + apply Hframe; [done| |done]. intros q' [= <-] Hq. apply (Hdis q); [apply elem_of_app; right; left|by right].
  - apply last_None in Hl as ->. destruct Hch as (_ & x' & Hx' & Hseg). rewrite Hx in Hx'. injection Hx' as <-. cbn [app]. by apply Hframe.
Qed.
Lemma unlinked_next_only p r x (s : state) : p ≠ NextOf r → refs s !! r = Some x → next_in_ino x ≠ Null →
  (∀ q y, p = NextOf q → refs s !! q = Some y → next_in_ino y ≠ Null) → next_only (refs s) (refs (unlinked p r (next_in_ino x) s)).
Proof.
  intros Hp Hx Hn Hq k. rewrite unlinked_lookup by done. destruct (refs s !! k) as [y|] eqn:Hy.
  - repeat case_decide; cbn; try done. split_and!; try done. intros He. by destruct (Hq k y).
  - by repeat case_decide.
Qed.
(** The chain that holds [r] loses it; nothing else happens. *)
Record taken_out (i : nat) (ns ns' : list nat) (s s' : state) : Prop := TakenOut {
  to_chained : chained (refs s') (caches s');
  to_next_only : next_only (refs s) (refs s');
  to_chain : ∃ c c', caches s !! i = Some c ∧ caches s' !! i = Some c' ∧ same_inode c c' ∧ chain (refs s) c ns i ∧ chain (refs s') c' ns' i;
  to_others : ∀ k, k ≠ i → caches s' !! k = caches s !! k;
  to_nodes : ∀ q, q ∈ ns → q ∉ ns' → ∃ x, refs s !! q = Some x ∧ refs s' !! q = Some (with_next Null x);
  to_owns : ∀ k q, (k = i → q ∈ ns') → owns s k q → owns s' k q;
  to_rest : ∃ R C, s' = on_refs (λ _, R) (on_caches (λ _, C) s) }.
Lemma unlink_ok (s : state) i c a r ns x :
  chained (refs s) (caches s) → caches s !! i = Some c → chain (refs s) c (a ++ r :: ns) i → refs s !! r = Some x →
  taken_out i (a ++ r :: ns) (a ++ ns) s (unlinked (slot_of i a) r (next_in_ino x) s).
Proof.
  intros [H1 H2] Hc Hch Hx. destruct (unlink_chain s i c a r ns x Hc Hch Hx) as (Hp & c' & Hc' & Hnl & Hch').
  set (s' := unlinked _ _ _ _) in *. pose proof (seg_NoDup _ _ _ _ Hch) as Hd.
  assert (next_in_ino x ≠ Null) as Hxn by (destruct (seg_elem _ _ _ _ r Hch) as (y & Hy & ?); [apply elem_of_app; right; left|by simplify_eq]).
  assert (∀ q, slot_of i a = NextOf q → q ∈ a) as Hsl.
  { intros q. unfold slot_of. destruct (last a) as [q'|] eqn:Hl; [|done]. intros [= ->]. apply last_Some in Hl as [a' ->]. apply elem_of_app. right. left. }
  assert (next_only (refs s) (refs s')) as Hno.
  { apply unlinked_next_only; try done. intros q y Hq%Hsl Hy. destruct (seg_elem _ _ _ _ q Hch) as (y' & Hy' & ?); [apply elem_of_app; by left|by simplify_eq]. }
  assert (∀ q, q ∉ a ++ [r] → refs s' !! q = refs s !! q) as Hsame.
  { intros q Hq. subst s'. rewrite unlinked_lookup by done. rewrite decide_False by (intros ->; apply Hq, elem_of_app; right; left).
    rewrite decide_False; [done|]. intros He. apply Hq, elem_of_app. left. by apply Hsl. }
  assert (∀ k ck nsk, k ≠ i → chain (refs s) ck nsk k → chain (refs s') ck nsk k) as Hother.
  { intros k ck nsk Hk. intros Hchk. eapply seg_frame; [|exact Hchk]. intros q y Hq Hy. exists y. split; [|done]. rewrite Hsame; [done|]. intros Hqa. apply Hk.
    apply (chain_disjoint (refs s) _ _ _ _ _ _ q Hchk Hch Hq). clear -Hqa. rewrite elem_of_app in *. destruct Hqa as [?|Hq%list_elem_of_singleton]; [by left|right; subst; left]. }
  assert (refs s' !! r = Some (with_next Null x)) as Hr' by (subst s'; rewrite unlinked_lookup by done; rewrite decide_True by done; by rewrite Hx).
  assert (∀ k, k ≠ i → caches s' !! k = caches s !! k) as Hoc by (intros k Hk; by apply unlinked_others).
  split; [split|done|by exists c, c'|done| | |].
  - intros k ck Hck. destruct (decide (k = i)) as [->|Hk]; [rewrite Hc' in Hck; injection Hck as <-; by exists (a ++ ns)|].
    rewrite Hoc in Hck by done. destruct (H1 k ck Hck) as [nsk Hn]. exists nsk. by apply Hother.
  - intros q y Hy Hyn. destruct (next_only_back _ _ _ _ Hno Hy) as (z & Hz & _ & _ & Hzn).
    destruct (H2 q z Hz) as (k & ck & nsk & Hck & Hchk & Hq); [intros He; by apply Hyn, Hzn|]. destruct (decide (k = i)) as [->|Hk].
    + exists i, c', (a ++ ns). split_and!; [done|done|]. rewrite Hc in Hck. injection Hck as <-. destruct (seg_det _ _ _ _ _ _ Hchk Hch) as [-> _].
      apply elem_of_app in Hq as [?|[->|?]%elem_of_cons]; [apply elem_of_app; by left| |apply elem_of_app; by right]. rewrite Hr' in Hy. by injection Hy as <-.
    + exists k, ck, nsk. rewrite Hoc by done. split_and!; [done|by apply Hother|done].
  - intros q Hq Hnq. assert (q = r) as ->; [|by exists x]. apply elem_of_app in Hq as [?|[->|?]%elem_of_cons]; [|done|]; destruct Hnq; apply elem_of_app; auto.
  - intros k q Hkq (ck & nsk & Hck & Hchk & Hq). destruct (decide (k = i)) as [->|Hk]; [exists c', (a ++ ns); split_and!; [done|done|by apply Hkq]|].
    exists ck, nsk. rewrite Hoc by done. split_and!; [done|by apply Hother|done].
  - unfold s', unlinked, relink. destruct (slot_of i a); destruct s; by eexists _, _.
Qed.
Lemma taken_out_trans i ns ns1 ns2 (s s1 s2 : state) :
  taken_out i ns ns1 s s1 → taken_out i ns1 ns2 s1 s2 → (∀ q, q ∈ ns1 → q ∈ ns) → (∀ q, q ∈ ns2 → q ∈ ns1) → taken_out i ns ns2 s s2.
Proof.
  intros [_ N1 (c & c1 & Hc & Hc1 & E1 & S1 & S1') O1 T1 W1 (R1 & C1 & ->)] [A2 N2 (c1' & c2 & Hc1' & Hc2 & E2 & S2 & S2') O2 T2 W2 (R2 & C2 & ->)] Hsub Hsub2.
  rewrite Hc1 in Hc1'. injection Hc1' as <-. split; [done|by eapply next_only_trans|exists c, c2; split_and!; try done; by eapply same_inode_trans| | | |].
  - intros k Hk. by rewrite O2, O1.
  - intros q Hq Hq2. destruct (decide (q ∈ ns1)) as [Hq1|Hq1].
    + destruct (T2 q Hq1 Hq2) as (x1 & Hx1 & Hx2). destruct (next_only_back _ _ _ _ N1 Hx1) as (x & Hx & Hf & Ht & _). exists x. split; [done|].
      rewrite Hx2. unfold with_next. by rewrite Hf, Ht.
    + destruct (T1 q Hq Hq1) as (x & Hx & Hx1). exists x. split; [done|]. destruct (next_only_lookup _ _ _ _ N2 Hx1) as (x2 & Hx2 & Hf & Ht & Hn).
      rewrite Hx2. specialize (Hn eq_refl). destruct x2. cbn in *. by subst.
  - intros k q Hkq Hq. apply W2; [done|]. apply W1; [|done]. intros Hk. by apply Hsub2, Hkq.
  - by exists R2, C2.
Qed.
Lemma taken_out_refl i c ns (s : state) : chained (refs s) (caches s) → caches s !! i = Some c → chain (refs s) c ns i → taken_out i ns ns s s.
Proof. intros H1 Hc Hch. split; [done|apply next_only_refl|by exists c, c|done|done|done|]. destruct s. by eexists _, _. Qed.

(** *** The cache of an inode without nodes *)
(** Nothing is left of the inode, nobody links to it, and it is not being read or cleared. *)
Definition forgotten (c : inode_cache) (ns : list nat) : bool :=
  bool_decide (ns = []) && (nlink c =? 0) && negb (Space.state c =? INO_STATE_READING) && negb (Space.state c =? INO_STATE_CLEARING).
Lemma forgotten_same c c' ns : same_inode c c' → forgotten c' ns = forgotten c ns.
Proof. intros (H1 & H2 & _). unfold forgotten. by rewrite H1, H2. Qed.
Lemma drop_unused_ok (s : state) i c ns : chained (refs s) (caches s) → caches s !! i = Some c → chain (refs s) c ns i →
  wp (drop_unused_cache i) s (λ _ s', ∃ C, s' = on_caches (λ _, C) s ∧ chained (refs s) C ∧
    (if forgotten c ns then C !! i = None else ∃ c', C !! i = Some c' ∧ nodes c' = nodes c ∧ nlink c' = nlink c ∧ Space.state c' = Space.state c) ∧
    (∀ k, k ≠ i → C !! k = caches s !! k) ∧ ∀ k q, owns s k q → owns s' k q).
Proof.
  intros [H1 H2] Hc Hch. unfold drop_unused_cache. eapply wp_cache; [done|].
  assert (bool_decide (nodes c = ToCache i) = bool_decide (ns = [])) as Hnil.
  { apply bool_decide_ext. destruct ns; [by split|]. destruct Hch as [-> _]. by split. }
  destruct (bool_decide (nodes c = ToCache i) && (nlink c =? 0)) eqn:Hd; rewrite Hnil in Hd; unfold forgotten; rewrite Hd.
  2: { apply wp_ret. exists (caches s). destruct s. split_and!; [done..|by exists c|done|done]. }
  clear Hnil. apply andb_true_iff in Hd as [Hn%bool_decide_eq_true Hz]. subst ns. cbn [andb].
  unfold jffs2_del_ino_cache. eapply wp_cache; [done|]. eapply wp_then; [reflexivity|].
  set (c1 := Cache (nodes c) (nlink c) (Space.state c) false).
  set (C1 := alter (λ c, Cache (nodes c) (nlink c) (Space.state c) false) i (caches s)).
  assert (∀ k, C1 !! k = if decide (k = i) then Some c1 else caches s !! k) as Hl.
  { intros k. unfold C1. destruct (decide (k = i)) as [->|Hk]; [by rewrite lookup_alter_eq, Hc|by rewrite lookup_alter_ne]. }
  assert (∀ q y, refs s !! q = Some y → next_in_ino y ≠ Null → ∃ k ck nsk, k ≠ i ∧ caches s !! k = Some ck ∧ chain (refs s) ck nsk k ∧ q ∈ nsk) as Helse.
  { intros q y Hy Hyn. destruct (H2 q y Hy Hyn) as (k & ck & nsk & Hck & Hchk & Hq). exists k, ck, nsk. split_and!; try done. intros ->.
    rewrite Hc in Hck. injection Hck as <-. destruct (seg_det _ _ _ _ _ _ Hchk Hch) as [-> _]. by apply elem_of_nil in Hq. }
  assert (∀ k q, owns s k q → k ≠ i) as Hown.
  { intros k q (ck & nsk & Hck & Hchk & Hq) ->. rewrite Hc in Hck. injection Hck as <-. destruct (seg_det _ _ _ _ _ _ Hchk Hch) as [-> _]. by apply elem_of_nil in Hq. }
  destruct (_ && _); [apply (wp_eq _ _ tt (on_caches (λ _, delete i C1) s)); [done|]|apply (wp_eq _ _ tt (on_caches (λ _, C1) s)); [done|]].
  - exists (delete i C1). split_and!; [done|split|apply lookup_delete_eq|intros k Hk; by rewrite lookup_delete_ne, Hl, decide_False|].
    + intros k ck [Hk Hck]%lookup_delete_Some. rewrite Hl, decide_False in Hck by done. by apply H1.
    + intros q y Hy Hyn. destruct (Helse q y Hy Hyn) as (k & ck & nsk & Hk & Hck & Hr). exists k, ck, nsk. by rewrite lookup_delete_ne, Hl, decide_False.
    + intros k q Hq. pose proof (Hown k q Hq) as Hk. destruct Hq as (ck & nsk & Hck & Hr). exists ck, nsk. cbn [caches on_caches]. by rewrite lookup_delete_ne, Hl, decide_False.
  - exists C1. split_and!; [done|split|exists c1; by rewrite Hl, decide_True|intros k Hk; by rewrite Hl, decide_False|].
    + intros k ck. rewrite Hl. case_decide; [intros [= <-]; subst k; exists []; exact Hch|apply H1].
    + intros q y Hy Hyn. destruct (Helse q y Hy Hyn) as (k & ck & nsk & Hk & Hck & Hr). exists k, ck, nsk. by rewrite Hl, decide_False.
    + intros k q Hq. pose proof (Hown k q Hq) as Hk. destruct Hq as (ck & nsk & Hck & Hr). exists ck, nsk. cbn [caches on_caches]. by rewrite Hl, decide_False.
Qed.

(** *** [leave_inode] *)
Lemma raw_ref_to_ic_eq (s : state) fuel r x ns i :
  refs s !! r = Some x → seg (refs s) (next_in_ino x) ns (ToCache i) → (length ns < fuel)%nat → raw_ref_to_ic fuel r s = Some (i, s).
Proof.
  revert r x ns. induction fuel as [|fuel IH]; intros r x ns Hx Hs Hf; [lia|]. cbn. unfold raw, mbind, SM_bind. rewrite Hx.
  destruct ns as [|q ns]; cbn in Hs; [by rewrite Hs|]. destruct Hs as (-> & y & Hy & Hs). eapply IH; [done..|]. cbn in Hf. lia.
Qed.
Lemma find_slot_eq (s : state) fuel i c a b r ns :
  caches s !! i = Some c → chain (refs s) c (a ++ b ++ r :: ns) i → r ∉ b → (length b < fuel)%nat →
  find_slot fuel (slot_of i a) r s = Some (slot_of i (a ++ b), s).
Proof.
  intros Hc. revert a b. induction fuel as [|fuel IH]; intros a b Hch Hr Hf; [lia|]. cbn [find_slot].
  pose proof Hch as (m & Ha & Hm)%seg_app. unfold mbind, SM_bind. rewrite (get_slot_eq s i c a m Hc Ha). destruct b as [|q b].
  - destruct Hm as [-> _]. rewrite decide_True by done. by rewrite app_nil_r.
  - destruct Hm as [-> _]. apply not_elem_of_cons in Hr as [Hq Hr]. rewrite decide_False by (by intros ->). rewrite <-(slot_of_snoc i a q).
    rewrite (IH (a ++ [q]) b); [by rewrite <-app_assoc|by rewrite <-app_assoc|done|cbn in Hf; lia].
Qed.
Lemma leave_inode_linked (s : state) r x : refs s !! r = Some x → next_in_ino x ≠ Null →
  leave_inode r s = (fuel ← chain_fuel; ic ← raw_ref_to_ic fuel r; p ← find_slot fuel (NodesOf ic) r;
                     set_slot p (next_in_ino x);; on_raw r (with_next Null);; drop_unused_cache ic) s.
Proof. intros Hx Hn. unfold leave_inode at 1, raw, mbind, SM_bind. rewrite Hx. by destruct (next_in_ino x). Qed.
Lemma leave_inode_ok (s : state) r x : chained (refs s) (caches s) → refs s !! r = Some x →
  wp (leave_inode r) s (λ _ s', ∃ R C, s' = on_refs (λ _, R) (on_caches (λ _, C) s) ∧ chained R C ∧ next_only (refs s) R ∧
    R !! r = Some (with_next Null x) ∧ ∀ k q, q ≠ r → owns s k q → owns s' k q).
Proof.
  intros Hchd Hx. destruct (decide (next_in_ino x = Null)) as [Hn|Hn].
  { unfold leave_inode. eapply wp_ref; [done|]. rewrite Hn. apply wp_ret. exists (refs s), (caches s).
    split_and!; [by destruct s|done|apply next_only_refl| |done]. rewrite Hx. unfold with_next. rewrite <-Hn. by destruct x. }
  unfold wp at 1. rewrite (leave_inode_linked _ _ _ Hx Hn). fold (wp (fuel ← chain_fuel; ic ← raw_ref_to_ic fuel r; p ← find_slot fuel (NodesOf ic) r;
                     set_slot p (next_in_ino x);; on_raw r (with_next Null);; drop_unused_cache ic) s).
  destruct (proj2 Hchd r x Hx Hn) as (i & c & ns & Hc & Hch & Hr). apply list_elem_of_split in Hr as (a & b & ->).
  pose proof (chain_length _ _ _ _ Hch) as Hlen. rewrite length_app in Hlen. cbn [length] in Hlen.
  pose proof (seg_NoDup _ _ _ _ Hch) as (_ & Hra & _)%NoDup_app. apply wp_sb_gets. cbv beta. set (fuel := S _).
  assert (seg (refs s) (next_in_ino x) b (ToCache i)) as Hb by (apply seg_app in Hch as (m & _ & _ & y & Hy & Hseg); by simplify_eq).
  eapply wp_then; [apply (raw_ref_to_ic_eq s fuel r x b i Hx Hb); lia|].
  eapply wp_then; [apply (find_slot_eq s fuel i c [] a r b Hc Hch); [intros Hin; apply (Hra r Hin); left|lia]|]. cbn [app].
  eapply wp_then; [apply set_slot_eq|]. eapply wp_then; [reflexivity|]. cbv beta.
  destruct (unlink_ok s i c a r b x Hchd Hc Hch Hx) as [T1 T2 (c0 & c' & _ & Hc' & _ & _ & Hch') _ T5 T6 (R & C & Hs')].
  change (on_refs (alter (with_next Null) r) (relink (slot_of i a) (next_in_ino x) s)) with (unlinked (slot_of i a) r (next_in_ino x) s).
  eapply wp_mono; [|by eapply drop_unused_ok]. intros [] s' (C' & -> & HC' & _ & _ & Hown). rewrite Hs' in *. exists R, C'. split_and!; [by destruct s|done|done| |].
  2: { intros k q Hq Hkq. apply Hown, T6; [|done]. intros ->. pose proof (owns_chain _ _ _ _ _ Hkq Hc Hch) as Hin. clear -Hin Hq. set_solver. }
  destruct (T5 r) as (y & Hy & Hy'); [apply elem_of_app; right; left| |by simplify_eq].
  intros Hin. pose proof (seg_NoDup _ _ _ _ Hch) as (_ & _ & [Hrb _]%NoDup_cons)%NoDup_app. apply elem_of_app in Hin as [Hin|Hin]; [apply (Hra r Hin); left|done].
Qed.

(** *** [jffs2_remove_node_refs_from_ino_list] *)

(** The node lies in the block at [o]. *)
Definition inside (R : gmap nat raw_ref) (o : Z) (q : nat) : bool := match R !! q with Some x => SECTOR_ADDR (flash_offset x) =? o | None => false end.
Abbreviation outside R o := (filter (λ q, inside R o q = false)).
Lemma inside_next_only R R' o q : next_only R R' → inside R' o q = inside R o q.
Proof. intros H. specialize (H q). unfold inside. destruct (R !! q), (R' !! q); try done. by destruct H as [-> _]. Qed.
Lemma outside_next_only R R' o (l : list nat) : next_only R R' → outside R' o l = outside R o l.
Proof. intros H. apply list_filter_iff. intros q. by rewrite (inside_next_only _ _ _ _ H). Qed.

(** A turn of the loop at a node of the chain. *)
Lemma remove_turn (s : state) fuel o r i c a q ns ic x Q :
  chained (refs s) (caches s) → caches s !! i = Some c → chain (refs s) c (a ++ q :: ns) i → refs s !! q = Some x →
  (inside (refs s) o q = true → ∀ s', s' = unlinked (slot_of i a) q (next_in_ino x) s → taken_out i (a ++ q :: ns) (a ++ ns) s s' →
     wp (if decide (q = r) then mret ic else remove_refs_loop fuel o r (slot_of i a) ic) s' Q) →
  (inside (refs s) o q = false → wp (remove_refs_loop fuel o r (slot_of i (a ++ [q])) ic) s Q) →
  wp (remove_refs_loop (S fuel) o r (slot_of i a) ic) s Q.
Proof.
  intros Hchd Hc Hch Hx Hin Hout. cbn [remove_refs_loop]. pose proof Hch as (m & Ha & -> & _)%seg_app.
  eapply wp_then; [by eapply get_slot_eq|]. eapply wp_ref; [done|].
  destruct (seg_elem _ _ _ _ q Hch) as (x' & Hx' & Hn); [apply elem_of_app; right; left|]. rewrite Hx in Hx'. injection Hx' as <-.
  rewrite decide_False by done. unfold inside in Hin, Hout. rewrite Hx in Hin, Hout. destruct (SECTOR_ADDR (flash_offset x) =? o).
  - eapply wp_then; [apply set_slot_eq|]. eapply wp_then; [reflexivity|]. apply (Hin eq_refl _ eq_refl). by apply (unlink_ok s i c).
  - rewrite slot_of_snoc in Hout. by apply Hout.
Qed.
(** From the head of the chain to [r]. *)
Lemma remove_second (s : state) fuel o r i c (a p ns : list nat) :
  chained (refs s) (caches s) → caches s !! i = Some c → chain (refs s) c (a ++ p ++ r :: ns) i → inside (refs s) o r = true →
  (length p < fuel)%nat →
  wp (remove_refs_loop fuel o r (slot_of i a) (Some i)) s (λ ic s',
    ic = Some i ∧ taken_out i (a ++ p ++ r :: ns) (a ++ outside (refs s) o p ++ ns) s s').
Proof.
  revert s c a p. induction fuel as [|fuel IH]; intros s c a p Hchd Hc Hch Hr Hf; [lia|].
  pose proof (seg_NoDup _ _ _ _ Hch) as Hd. destruct p as [|q p]; cbn [app] in *.
  - destruct (seg_elem _ _ _ _ r Hch) as (x & Hx & _); [apply elem_of_app; right; left|].
    eapply remove_turn; [done..| |by rewrite Hr]. intros _ s' _ Ht. rewrite decide_True by done. by apply wp_ret.
  - destruct (seg_elem _ _ _ _ q Hch) as (x & Hx & _); [apply elem_of_app; right; left|].
    assert (q ≠ r) as Hqr. { intros ->. apply NoDup_app in Hd as (_ & _ & [Hr' _]%NoDup_cons). apply Hr', elem_of_app. right. left. }
    eapply remove_turn; [done..| |]; intros Hin.
    + intros s' Hs' Ht. rewrite decide_False by done. destruct (to_chain _ _ _ _ _ Ht) as (_ & c' & _ & Hc' & _ & _ & Hch').
      eapply wp_mono; [|eapply (IH s' c' a p (to_chained _ _ _ _ _ Ht) Hc' Hch'); [by rewrite (inside_next_only _ _ _ _ (to_next_only _ _ _ _ _ Ht))|cbn in Hf; lia]].
      intros ic s2 [-> H2]. split; [done|]. rewrite (outside_next_only _ _ _ _ (to_next_only _ _ _ _ _ Ht)) in H2.
      rewrite filter_cons, decide_False by (by rewrite Hin). eapply taken_out_trans; [exact Ht|exact H2|..].
      * intros k. repeat rewrite ?elem_of_app, ?elem_of_cons. tauto.
      * intros k. rewrite !elem_of_app, elem_of_cons, list_elem_of_filter. tauto.
    + rewrite filter_cons, decide_True by done. rewrite (cons_middle q a), (app_assoc a [q]) in Hch. eapply wp_mono; [|apply (IH s c (a ++ [q]) p); [done|done|by rewrite <-app_assoc in *|done|cbn in Hf; lia]].
      intros ic s2 [-> H2]. split; [done|]. by rewrite <-!app_assoc in H2.
Qed.
(** From [r] to the end, and then from the head: the nodes outside of the block are left. *)
Lemma remove_first (s : state) fuel o r i c ic (a0 a1 ns : list nat) :
  chained (refs s) (caches s) → caches s !! i = Some c → chain (refs s) c ((a0 ++ r :: a1) ++ ns) i → inside (refs s) o r = true →
  (length ns + length a0 + 2 <= fuel)%nat →
  wp (remove_refs_loop fuel o r (slot_of i (a0 ++ r :: a1)) ic) s (λ ic' s',
    ic' = Some i ∧ taken_out i ((a0 ++ r :: a1) ++ ns) (outside (refs s) o a0 ++ a1 ++ outside (refs s) o ns) s s').
Proof.
  revert s fuel c a1. induction ns as [|q ns IH]; intros s fuel c a1 Hchd Hc Hch Hr Hf; (destruct fuel as [|fuel]; [cbn in Hf; lia|]).
  - cbn [remove_refs_loop]. pose proof Hch as (m & Ha & Hm)%seg_app. cbn in Hm. subst m. eapply wp_then; [by eapply get_slot_eq|].
    change (NodesOf i) with (slot_of i []). rewrite app_nil_r, <-(app_nil_l (a0 ++ _)) in Hch. eapply wp_mono; [|eapply (remove_second s fuel o r i c [] a0 a1); [done|done|exact Hch|done|cbn in Hf; lia]].
    intros ic' s' [-> Ht]. split; [done|]. cbn [app] in Ht. by rewrite !app_nil_r.
  - pose proof (seg_NoDup _ _ _ _ Hch) as Hd. destruct (seg_elem _ _ _ _ q Hch) as (x & Hx & _); [apply elem_of_app; right; left|].
    assert (q ≠ r) as Hqr. { intros ->. apply NoDup_app in Hd as (_ & Hd & _). apply (Hd r); [apply elem_of_app; right; left|left]. }
    eapply remove_turn; [done..| |]; intros Hin; rewrite filter_cons.
    + intros s' Hs' Ht. rewrite decide_False by done. destruct (to_chain _ _ _ _ _ Ht) as (_ & c' & _ & Hc' & _ & _ & Hch').
      eapply wp_mono; [|eapply (IH s' fuel c' a1 (to_chained _ _ _ _ _ Ht) Hc' Hch'); [by rewrite (inside_next_only _ _ _ _ (to_next_only _ _ _ _ _ Ht))|cbn in Hf; lia]].
      intros ic' s2 [-> H2]. split; [done|]. rewrite !(outside_next_only _ _ _ _ (to_next_only _ _ _ _ _ Ht)) in H2. rewrite decide_False by (by rewrite Hin).
      eapply taken_out_trans; [exact Ht|exact H2|..]; intros k; repeat rewrite ?elem_of_app, ?elem_of_cons, ?list_elem_of_filter; tauto.
    + rewrite decide_True by done. rewrite (cons_middle q), app_assoc, <-(app_assoc a0), <-app_comm_cons in Hch. rewrite <-(app_assoc a0), <-app_comm_cons.
      eapply wp_mono; [|apply (IH s fuel c (a1 ++ [q])); [done|done|exact Hch|done|cbn in Hf; lia]].
      intros ic' s2 [-> H2]. split; [done|]. rewrite <-!app_assoc, <-!app_comm_cons, <-!app_assoc in *. exact H2.
Qed.
Lemma remove_node_refs_ok (s : state) r b j x :
  chained (refs s) (caches s) → refs s !! r = Some x → next_in_ino x ≠ Null → blocks s !! b = Some j → SECTOR_ADDR (flash_offset x) = offset j →
  wp (jffs2_remove_node_refs_from_ino_list r b) s (λ _ s', ∃ R C i c ns, s' = on_refs (λ _, R) (on_caches (λ _, C) s) ∧ chained R C ∧
    next_only (refs s) R ∧ R !! r = Some (with_next Null x) ∧ caches s !! i = Some c ∧ chain (refs s) c ns i ∧ r ∈ ns ∧
    let rest := outside (refs s) (offset j) ns in
    (if forgotten c rest then C !! i = None else ∃ c', C !! i = Some c' ∧ chain R c' rest i ∧ nlink c' = nlink c ∧ Space.state c' = Space.state c) ∧
    (∀ k, k ≠ i → C !! k = caches s !! k) ∧
    ∀ k q, inside (refs s) (offset j) q = false → owns s k q → owns s' k q).
Proof.
  intros Hchd Hx Hn Hb Hs. unfold jffs2_remove_node_refs_from_ino_list. eapply wp_block; [done|]. apply wp_sb_gets. cbv beta. set (fuel := S _).
  destruct (proj2 Hchd r x Hx Hn) as (i & c & ns & Hc & Hch & Hr). pose proof Hr as (a0 & ns' & ->)%list_elem_of_split.
  pose proof (chain_length _ _ _ _ Hch) as Hlen. rewrite length_app in Hlen. cbn [length] in Hlen. rewrite <-(slot_of_snoc i a0 r).
  assert (inside (refs s) (offset j) r = true) as Hin by (unfold inside; rewrite Hx; by apply Z.eqb_eq).
  assert (outside (refs s) (offset j) (a0 ++ r :: ns') = outside (refs s) (offset j) a0 ++ outside (refs s) (offset j) ns') as Hout.
  { rewrite filter_app, filter_cons, decide_False; [done|by rewrite Hin]. }
  pose proof Hch as Hch1. rewrite (cons_middle r), app_assoc in Hch1.
  apply wp_bind. eapply wp_mono; [|eapply (remove_first s fuel (offset j) r i c None a0 [] ns' Hchd Hc Hch1 Hin); lia].
  intros ic s1 [-> Ht]. rewrite <-app_assoc in Ht. cbn [app] in Ht. destruct Ht as [T1 T2 (c0 & c1 & Hc0 & Hc1 & Hsi & _ & Hch2) T4 T5 T6 (R & C & Hs1)]. rewrite Hc in Hc0. injection Hc0 as <-.
  eapply wp_mono; [|by eapply drop_unused_ok]. intros [] s2 (C' & -> & HC' & Hcase & Hoth & Hown). exists R, C', i, c, (a0 ++ r :: ns').
  rewrite Hs1 in *. cbv zeta. rewrite Hout. split_and!; [by destruct s|done|done| |done|done|done| | |].
  3: { intros k Hk. rewrite Hoth by done. cbn [caches on_refs on_caches]. exact (T4 k Hk). }
  3: { intros k q Hq Hkq. apply Hown, T6; [|done]. intros ->. pose proof (owns_chain _ _ _ _ _ Hkq Hc Hch) as Hqn.
       rewrite elem_of_app, !list_elem_of_filter. apply elem_of_app in Hqn as [?|[->|?]%elem_of_cons]; [by left|congruence|by right]. }
  - destruct (T5 r Hr) as (y & Hy & Hy'); [|by simplify_eq]. pose proof (seg_NoDup _ _ _ _ Hch) as (_ & Hra & [Hrb _]%NoDup_cons)%NoDup_app.
    rewrite elem_of_app, !list_elem_of_filter. intros [[_ ?]|[_ ?]]; [by eapply Hra; [|left]|done].
  - rewrite (forgotten_same _ _ _ Hsi) in Hcase. destruct (forgotten c _); [done|]. destruct Hcase as (c' & Hc' & Hno & Hnl & Hst). destruct Hsi as (Hnl1 & Hst1 & _).
    exists c'. split_and!; [done|unfold chain in *; by rewrite Hno|congruence..].
Qed.
End Unlinking.

(** ** Merging neighbours *)

Section Merging.
Import Space.
Context {F : Type} `{!Mtd F} `{!Eraser F} `{!Erasable F} {Geo : Geometry} {Lawful_geo : Geometric}.
Abbreviation state := (sb (F := F)).
Abbreviation P := (SM state).

Lemma next_phys_split r (l : list nat) n : next_phys r l = Some n → ∃ l1 l2, l = l1 ++ r :: n :: l2.
Proof.
  induction l as [|x l IH]; [done|]. cbn. case_decide as Hx; subst.
  - destruct l as [|y l]; [done|]. intros [= ->]. by exists [], l.
  - intros (l1 & l2 & ->)%IH. by exists (x :: l1), l2.
Qed.
Lemma prev_phys_split r (l : list nat) p : prev_phys r l = Some p → ∃ l1 l2, l = l1 ++ p :: r :: l2.
Proof.
  induction l as [|x l IH]; [done|]. destruct l as [|y l]; [done|]. cbn [prev_phys]. case_decide as Hy; subst.
  - intros [= ->]. by exists [], l.
  - intros (l1 & l2 & Hl)%IH. exists (x :: l1), l2. by rewrite Hl.
Qed.
Lemma prev_phys_some r (l : list nat) : r ∈ l → head l ≠ Some r → ∃ p, prev_phys r l = Some p.
Proof.
  induction l as [|x l IH]; [by intros ?%elem_of_nil|]. intros [->|Hr]%elem_of_cons Hh; [done|]. destruct l as [|y l]; [by apply elem_of_nil in Hr|].
  cbn [prev_phys]. case_decide; [by exists x|]. apply IH; [done|]. by intros [= ->].
Qed.
Lemma filter_ne_middle l1 l2 (n : nat) : NoDup (l1 ++ n :: l2) → filter (λ x, x ≠ n) (l1 ++ n :: l2) = l1 ++ l2.
Proof.
  intros (_ & H1 & [H2 _]%NoDup_cons)%NoDup_app. rewrite filter_app, filter_cons, decide_False by (by intros ?).
  rewrite !filter_ne_id; [done|done|]. intros Hn. apply (H1 n Hn). left.
Qed.

(** A block whose node [n] is part of the node [p] in front of it. *)
Definition absorbed (p : nat) (px : raw_ref) (n : nat) (nx : raw_ref) (R : gmap nat raw_ref) : gmap nat raw_ref :=
  delete n (<[p := add_totlen (totlen nx) px]> R).
Lemma absorbed_ok R b j j' l1 p n l2 px nx :
  jeb_ok R b j → (Z.of_nat b + 1) * sector_size < 2 ^ 32 → phys j = l1 ++ p :: n :: l2 → R !! p = Some px → R !! n = Some nx →
  class_of px = Dirty → class_of nx = Dirty →
  offset j' = offset j → size j' = size j → phys j' = l1 ++ p :: l2 → jeb_ok (absorbed p px n nx R) b j'.
Proof.
  intros Hj Hb Hph Hp Hn Hcp Hcn Ho Hz Hph'. pose proof (spans_NoDup _ _ _ _ (ok_spans _ _ _ Hj)) as Hd. rewrite Hph in Hd.
  assert (p ≠ n ∧ p ∉ l1 ∧ n ∉ l1 ∧ p ∉ l2 ∧ n ∉ l2) as (Hpn & Hp1 & Hn1 & Hp2 & Hn2).
  { clear -Hd. apply NoDup_app in Hd as (_ & Hd & [[Hpn Hpl]%not_elem_of_cons [Hnl _]%NoDup_cons]%NoDup_cons).
    split_and!; try done; intros Hin; apply (Hd _ Hin); [left|right; left]. }
  assert (∀ l : list nat, p ∉ l → n ∉ l → ∀ q, q ∈ l → absorbed p px n nx R !! q = R !! q) as Hsame.
  { intros l Hpl Hnl q Hq. unfold absorbed. by rewrite lookup_delete_ne, lookup_insert_ne by (by intros ->). }
  assert (absorbed p px n nx R !! p = Some (add_totlen (totlen nx) px)) as Hp' by (unfold absorbed; by rewrite lookup_delete_ne, lookup_insert_eq).
  assert (∀ k, k ≠ Dirty → live (absorbed p px n nx R) k (l1 ++ p :: l2) = live R k (phys j)) as Hlive.
  { intros k Hk. rewrite Hph, !live_app, (live_cons _ _ _ _ _ Hp'), !(live_cons _ _ _ _ _ Hp), (live_cons _ _ _ _ _ Hn).
    change (class_of (add_totlen (totlen nx) px)) with (class_of px). rewrite Hcp, Hcn, !decide_False by done.
    assert (∀ l : list nat, p ∉ l → n ∉ l → live (absorbed p px n nx R) k l = live R k l) as Hl; [|rewrite !Hl; [lia|done..]].
    intros l Hpl Hnl. unfold live. f_equal. apply list_fmap_ext. intros i q Hq%list_elem_of_lookup_2. by rewrite (Hsame l Hpl Hnl q Hq). }
  pose proof (ok_spans _ _ _ Hj) as Hs. pose proof (ok_offset _ _ _ Hj) as Hof. pose proof (ok_sizes _ _ _ Hj Free) as Hfr. cbn in Hfr.
  rewrite Hph in Hs. apply spans_app in Hs as (m & Hs1 & x & Hx & Hok & Ht & Hlo & y & Hy & Hoky & Hty & Hlo2 & Hs2).
  simplify_eq. pose proof (spans_le _ _ _ _ Hs2). pose proof (spans_le _ _ _ _ Hs1). pose proof sector_pos.
  split; rewrite ?Hz, ?Hph', ?Ho; [done|apply Hj|apply Hj| |rewrite Hlive by done; apply Hj|rewrite Hlive by done; apply Hj].
  apply spans_app. exists m. split; [eapply spans_same; [exact (proj1 (same_except _ _ _ (Hsame l1 Hp1 Hn1)))|done]|].
  exists (add_totlen (totlen nx) px). change (ref_offset (add_totlen (totlen nx) px)) with (ref_offset px).
  assert (0 <= totlen px + totlen nx < 2 ^ 32) as Hlen by nia. assert (ref_ok (add_totlen (totlen nx) px)) as Hok'.
  { destruct Hok as [? Hm1], Hoky as [_ Hm2]. split; [done|]. cbn [totlen add_totlen]. by rewrite u32_small, Z.add_mod, Hm1, Hm2 by done. }
  cbn [totlen add_totlen]. rewrite u32_small by done. split_and!; [done|done|lia|done|].
  eapply spans_same; [exact (proj1 (same_except _ _ _ (Hsame l2 Hp2 Hn2)))|]. eapply spans_weaken; [| |exact Hs2]; lia.
Qed.
Lemma absorbed_chained R C p px n nx : R !! p = Some px → R !! n = Some nx → next_in_ino nx = Null → chained R C → chained (absorbed p px n nx R) C.
Proof.
  intros Hp Hn Hnx [H1 H2].
  assert (∀ i c ns, chain R c ns i → chain (absorbed p px n nx R) c ns i) as Hseg.
  { intros i c ns Hc. eapply seg_frame; [|exact Hc]. intros q y Hq Hy. assert (q ≠ n) as Hqn.
    { intros ->. destruct (seg_elem _ _ _ _ _ Hc Hq) as (z & Hz & Hzn). by simplify_eq. }
    unfold absorbed. rewrite lookup_delete_ne by done. destruct (decide (q = p)) as [->|Hqp]; [|exists y; by rewrite lookup_insert_ne].
    exists (add_totlen (totlen nx) px). rewrite lookup_insert_eq. by simplify_eq. }
  split.
  - intros i c Hc. destruct (H1 i c Hc) as [ns Hns]. exists ns. by apply Hseg.
  - unfold absorbed. intros q y [Hqn Hy]%lookup_delete_Some Hyn. assert (∃ z, R !! q = Some z ∧ next_in_ino z ≠ Null) as (z & Hz & Hzn).
    { apply lookup_insert_Some in Hy as [[-> <-]|[_ Hy]]; [by exists px|by exists y]. }
    destruct (H2 q z Hz Hzn) as (i & c & ns & ? & ? & ?). exists i, c, ns. split_and!; try done. by apply Hseg.
Qed.
Lemma absorbed_joining R p px n nx : R !! p = Some px → no_joining R (absorbed p px n nx R).
Proof.
  unfold absorbed. intros Hp q y [Hqn Hy]%lookup_delete_Some Hyn. apply lookup_insert_Some in Hy as [[-> <-]|[_ Hy]]; [by exists px|by exists y].
Qed.
(** What marking a node does not change. *)
Record steady (s s' : state) : Prop := Steady {
  st_next : nextblock s' = nextblock s; st_flags : flags s' = flags s; st_readonly : readonly s' = readonly s;
  st_misfortunes : (misfortunes (env s') <= misfortunes (env s))%nat;
  st_blocks : ∀ b j, blocks s !! b = Some j → ∃ j', blocks s' !! b = Some j' ∧ offset j' = offset j ∧ free_size (size j') = free_size (size j) }.
Lemma steady_refl (s : state) : steady s s.
Proof. split; try done. intros b j Hj. by exists j. Qed.
Lemma steady_trans (s s1 s2 : state) : steady s s1 → steady s1 s2 → steady s s2.
Proof.
  intros [N1 F1 R1 M1 B1] [N2 F2 R2 M2 B2]. split; [congruence..|lia|]. intros b j (j1 & H1 & ? & ?)%B1. destruct (B2 b j1 H1) as (j2 & ? & ? & ?).
  exists j2. split_and!; [done|congruence..].
Qed.
Lemma kept_steady (s s' : state) : kept s s' → steady s s'.
Proof. intros []. split; try done. intros b j Hj. exists j. by split_and!; [congruence|..]. Qed.
Lemma steady_insert (s s' : state) b j j' : blocks s !! b = Some j → blocks s' = <[b := j']> (blocks s) → offset j' = offset j →
  free_size (size j') = free_size (size j) → nextblock s' = nextblock s → flags s' = flags s → readonly s' = readonly s → env s' = env s → steady s s'.
Proof.
  intros Hb Hbl Ho Hf Hn Hfl Hro He. split; try done; [by rewrite He|]. intros b' i Hi. rewrite Hbl. destruct (decide (b' = b)) as [->|Hne].
  - exists j'. rewrite list_lookup_insert_eq by (by eapply lookup_lt_Some). by simplify_eq.
  - exists i. by rewrite list_lookup_insert_ne.
Qed.

(** What marking the node [r] of the block [b] does to other blocks, to nodes that are not obsolete, and to what the collector
    relies on. *)
Record marks (b r : nat) (s s' : state) : Prop := Marks {
  mk_others : ∀ b', b' ≠ b → blocks s' !! b' = blocks s !! b';
  mk_nodes : ∀ q x, q ≠ r → refs s !! q = Some x → ref_obsolete x = false → same_node s s' q;
  mk_gc : gcblock s' = gcblock s ∨ gcblock s = Some b ∧ gcblock s' = None;
  mk_checked : checked s → checked s';
  mk_collectable : collectable s → collectable s';
  mk_flash : ∀ b', b' ≠ b → b' ∉ lists s erasing_list → preserved b' s s';
  mk_erasing : ∀ y, y ∈ lists s' erasing_list → y ∈ lists s erasing_list }.
Lemma marks_refl b r (s : state) : marks b r s s.
Proof. split; try done; [intros; by apply same_node_eq|by left|intros; by apply preserved_flash]. Qed.
Lemma marks_trans b r (s s1 s2 : state) : marks b r s s1 → marks b r s1 s2 → marks b r s s2.
Proof.
  intros [O1 N1 G1 C1 L1 F1 E1] [O2 N2 G2 C2 L2 F2 E2]. split; try auto.
  - intros b' Hb. by rewrite O2, O1.
  - intros q x Hq Hx Ho. pose proof (N1 q x Hq Hx Ho) as Hs. eapply same_node_trans; [exact Hs|]. destruct (proj1 Hs x Hx) as (x1 & Hx1 & Hf & _).
    apply (N2 q x1 Hq Hx1). unfold ref_obsolete in *. by rewrite Hf.
  - destruct G1 as [G1|[G1 G1']], G2 as [G2|[G2 G2']]; [left|right|right|]; try congruence; split; congruence.
  - intros b' Hb He. eapply preserved_trans; [by apply F1|]. apply F2; auto.
Qed.
(** The lists and the environment change. *)
Lemma marks_moved b r j (s s' : state) : kept s s' → moved b s s' → blocks s !! b = Some j → phys j ≠ [] → marks b r s s'.
Proof.
  intros [Hb Hr Hc _ _ Hn Hfl He _] [Hg Hl] Hj Hph. split; [by rewrite Hb|intros; by apply same_node_eq|done| | |by auto|done].
  - intros Hck b' i. rewrite Hb. apply Hck.
  - intros [L N G]. split; rewrite Hb.
    + intros n y i Hny Hy Hi. destruct (Hl n y Hny Hy) as [->|Hy']; [by simplify_eq|by eapply L].
    + rewrite Hn. done.
    + intros y i Hy Hi. rewrite Hr. destruct Hg as [Hg|[_ Hg]]; [apply (G y); [congruence|done]|congruence].
Qed.
Lemma quiet_moved b (s s' : state) : quiet s s' → moved b s s'.
Proof. intros Hq. split; [left; apply Hq|]. intros n y Hn. rewrite (q_lists _ _ Hq); [by right|]. clear -Hn. set_solver. Qed.
(** The nodes and the caches change, the blocks do not. *)
Lemma marks_nodes b r (s s' : state) : blocks s' = blocks s → lists s' = lists s → nextblock s' = nextblock s → gcblock s' = gcblock s →
  (∀ q x, q ≠ r → refs s !! q = Some x → ref_obsolete x = false → same_node s s' q) → (∀ q, dead (refs s) q → dead (refs s') q) →
  (∀ b', b' ≠ b → preserved b' s s') → marks b r s s'.
Proof.
  intros Hb Hl Hn Hg Hq Hd Hfl. split; [by rewrite Hb|done|by left|intros Hck b' i; rewrite Hb; apply Hck| |by auto|by rewrite Hl].
  intros [L N G]. split; rewrite ?Hb, ?Hl, ?Hn, ?Hg; [done|done|]. intros y i Hy Hi. destruct (G y i Hy Hi) as (l1 & g & l2 & ? & ? & ?). exists l1, g, l2.
  split_and!; auto.
Qed.
Lemma dead_next_only R R' q : next_only R R' → dead R q → dead R' q.
Proof. intros Hno Hd x' Hx'. destruct (next_only_back _ _ _ _ Hno Hx') as (x & Hx & Hf & _). specialize (Hd x Hx). unfold ref_obsolete in *. by rewrite Hf. Qed.
(** The sizes of the block change, and the node is obsolete. *)
Lemma marks_marked b j r x h (s s' : state) : inv h s → inv h s' → blocks s !! b = Some j → refs s !! r = Some x → ref_ok x → marked b j r x s s' → marks b r s s'.
Proof.
  intros Hi Hi' Hj Hx Hok (Hsl & Hsr & Hrf & j' & Hbl & Ho & Hph & Hg & Hfu & Hfr & Hun). destruct Hsl as [Hl Hn Hgc _ _ _ _]. destruct (obsolete_class x Hok) as (_ & _ & _ & Hobs).
  assert (∀ b' i, blocks s' !! b' = Some i → b' = b ∧ i = j' ∨ b' ≠ b ∧ blocks s !! b' = Some i) as Hlook.
  { intros b' i. rewrite Hbl. intros [(-> & <- & _)|[]]%list_lookup_insert_Some; auto. }
  split; [| | | | |intros b' _ _; apply preserved_flash, Hsr|by rewrite Hl].
  - intros b' Hb. by rewrite Hbl, list_lookup_insert_ne.
  - intros q y Hq Hy _. split.
    + intros z Hz. exists z. by rewrite Hrf, lookup_insert_ne.
    + intros i (c & ns & Hc & Hns & Hin). exists c, ns. rewrite (sr_caches _ _ Hsr). split_and!; [done| |done]. rewrite Hrf. eapply seg_frame; [|exact Hns].
      intros p z _ Hz. destruct (decide (p = r)) as [->|Hp]; [|exists z; by rewrite lookup_insert_ne]. exists (with_flags REF_OBSOLETE x). rewrite lookup_insert_eq. by simplify_eq.
  - by left.
  - intros Hck b' i Hbi. pose proof (ok_sizes _ _ _ (inv_blocks _ _ Hi' _ _ Hbi) Unchecked) as Hnn. cbn in Hnn.
    apply Hlook in Hbi as [[-> ->]|[_ Hbi]]; [|by eapply Hck]. pose proof (Hck b j Hj). lia.
  - intros [L N G]. split; rewrite ?Hl, ?Hn, ?Hgc.
    + intros n y i Hny Hy [[-> ->]|[_ Hbi]]%Hlook; [rewrite Hph|]; by eapply L.
    + intros y i Hy [[-> ->]|[_ Hbi]]%Hlook; [rewrite Hph, Hfr|]; by eapply N.
    + assert (∀ q, dead (refs s) q → dead (refs s') q) as Hd.
      { intros q Hq y. rewrite Hrf. destruct (decide (q = r)) as [->|Hqr]; [rewrite lookup_insert_eq; by intros [= <-]|rewrite lookup_insert_ne by done; apply Hq]. }
      intros y i Hy Hbi%Hlook. assert (∃ i0, blocks s !! y = Some i0 ∧ phys i = phys i0 ∧ gc_node i = gc_node i0) as (i0 & Hi0 & Hp & Hgn)
        by (destruct Hbi as [[-> ->]|[_ Hbi]]; [by exists j|by exists i]).
      destruct (G y i0 Hy Hi0) as (l1 & g & l2 & ? & ? & ?). exists l1, g, l2. rewrite Hp, Hgn. split_and!; auto.
Qed.

Lemma NoDup_split_eq {A} (l1 l2 l1' l2' : list A) x : NoDup (l1 ++ x :: l2) → l1 ++ x :: l2 = l1' ++ x :: l2' → l1 = l1' ∧ l2 = l2'.
Proof.
  revert l1'. induction l1 as [|y l1 IH]; intros [|y' l1'] Hd Heq; cbn in *.
  - by injection Heq as ->.
  - injection Heq as -> ->. apply NoDup_cons in Hd as [Hd _]. destruct Hd. apply elem_of_app. right. left.
  - injection Heq as -> <-. apply NoDup_cons in Hd as [Hd _]. destruct Hd. apply elem_of_app. right. left.
  - injection Heq as -> Heq. apply NoDup_cons in Hd as [_ Hd]. by destruct (IH l1' Hd Heq) as [-> ->].
Qed.
Lemma absorbed_dead R p px n nx q : R !! p = Some px → dead R q → dead (absorbed p px n nx R) q.
Proof.
  unfold absorbed. intros Hp Hd y [Hqn Hy]%lookup_delete_Some. apply lookup_insert_Some in Hy as [[<- <-]|[_ Hy]]; [exact (Hd px Hp)|by apply Hd].
Qed.
(** The collector goes on at the node that took the other. *)
Lemma absorbed_gc_ready R j j' l1 p n l2 px nx : NoDup (phys j) → phys j = l1 ++ p :: n :: l2 → phys j' = l1 ++ p :: l2 →
  gc_node j' = (if decide (gc_node j = Some n) then Some p else gc_node j) → R !! p = Some px → ref_obsolete px = true →
  gc_ready R j → gc_ready (absorbed p px n nx R) j'.
Proof.
  intros Hd Hph Hph' Hg Hp Hpo (a & g & c & Hac & Hgn & Ha). assert (∀ q, q ∈ a → dead (absorbed p px n nx R) q) as Ha' by (intros q Hq; by apply absorbed_dead, Ha).
  assert (dead (absorbed p px n nx R) p) as Hdp by (apply absorbed_dead; [done|]; intros x Hx; by simplify_eq).
  assert (g ∈ l1 ++ p :: n :: l2) as Hin by (rewrite <-Hph, Hac; apply elem_of_app; right; left). pose proof Hd as Hd2. rewrite Hph in Hd2.
  rewrite Hgn in Hg. destruct (decide (g = n)) as [->|Hgn'].
  - rewrite decide_True in Hg by done. exists l1, p, l2. split_and!; [done|done|]. intros q Hq. apply Ha'.
    rewrite Hph, (cons_middle p), app_assoc in Hac. rewrite (cons_middle p), app_assoc in Hd2. destruct (NoDup_split_eq _ _ _ _ _ Hd2 Hac) as [<- _]. apply elem_of_app. by left.
  - rewrite decide_False in Hg by congruence. rewrite Hph in Hac. rewrite !elem_of_app, !elem_of_cons in Hin. destruct Hin as [Hin|[->|[->|Hin]]]; [| |done|].
    + apply list_elem_of_split in Hin as (d & e & ->). rewrite <-app_assoc in Hac, Hd2. destruct (NoDup_split_eq _ _ _ _ _ Hd2 Hac) as [<- _].
      exists d, g, (e ++ p :: l2). rewrite Hph', <-app_assoc. by split_and!.
    + destruct (NoDup_split_eq _ _ _ _ _ Hd2 Hac) as [<- _]. exists l1, p, l2. by split_and!.
    + apply list_elem_of_split in Hin as (d & e & ->). rewrite (app_comm_cons d), (app_comm_cons (n :: d)), app_assoc in Hac, Hd2. 
      destruct (NoDup_split_eq _ _ _ _ _ Hd2 Hac) as [<- _]. exists (l1 ++ p :: d), g, e. rewrite Hph', <-app_assoc. split_and!; [done|done|].
      intros q. rewrite elem_of_app, elem_of_cons. intros [Hq|[->|Hq]]; [|done|]; apply Ha'; rewrite elem_of_app, !elem_of_cons; tauto.
Qed.
Lemma dirty_obsolete x : class_of x = Dirty ↔ ref_obsolete x = true.
Proof.
  unfold class_of. rewrite ref_obsolete_flags. destruct (Z.eqb_spec (ref_flags x) REF_UNCHECKED) as [He|He].
  - rewrite He. done.
  - by destruct (ref_flags x =? REF_OBSOLETE).
Qed.
Lemma marks_absorbed b r j j' l1 p n l2 px nx (s s' : state) :
  blocks s !! b = Some j → NoDup (phys j) → blocks s' = <[b := j']> (blocks s) → phys j = l1 ++ p :: n :: l2 → phys j' = l1 ++ p :: l2 →
  refs s !! p = Some px → refs s !! n = Some nx → ref_obsolete px = true → ref_obsolete nx = true → next_in_ino nx = Null →
  size j' = size j → gc_node j' = (if decide (gc_node j = Some n) then Some p else gc_node j) →
  refs s' = absorbed p px n nx (refs s) → caches s' = caches s → lists s' = lists s → nextblock s' = nextblock s → gcblock s' = gcblock s → flash s' = flash s → marks b r s s'.
Proof.
  intros Hj Hd Hbl Hph Hph' Hp Hn Hpo Hno Hnn Hz Hg Hr Hc Hl Hnx Hgb Hfl. assert (∀ b' i, blocks s' !! b' = Some i → b' = b ∧ i = j' ∨ b' ≠ b ∧ blocks s !! b' = Some i) as Hlook.
  { intros b' i. rewrite Hbl. intros [(-> & <- & _)|[]]%list_lookup_insert_Some; auto. }
  split; [| | | | |intros b' _ _; by apply preserved_flash|by rewrite Hl].
  - intros b' Hb. by rewrite Hbl, list_lookup_insert_ne.
  - intros q y Hq Hy Hyo. split.
    + intros z Hz'. rewrite Hy in Hz'. injection Hz' as <-. exists y. rewrite Hr. unfold absorbed. rewrite lookup_delete_ne, lookup_insert_ne by congruence. done.
    + intros i (c & ns & Hci & Hns & Hin). exists c, ns. rewrite Hc, Hr. split_and!; [done| |done]. eapply seg_frame; [|exact Hns]. intros k z Hk Hzk. unfold absorbed.
      rewrite lookup_delete_ne by (intros <-; destruct (seg_elem _ _ _ _ _ Hns Hk) as (w & Hw & Hwn); simplify_eq).
      destruct (decide (k = p)) as [->|Hkp]; [exists (add_totlen (totlen nx) px); rewrite lookup_insert_eq; by simplify_eq|exists z; by rewrite lookup_insert_ne].
  - by left.
  - intros Hck. apply (checked_insert s s' b j' Hbl); [|done]. rewrite Hz. by eapply Hck.
  - intros [L N G]. split; rewrite ?Hl, ?Hnx, ?Hgb.
    + intros m y i Hm Hy [[-> ->]|[_ Hi]]%Hlook; [rewrite Hph'; by destruct l1|by eapply L].
    + intros y i Hy [[-> ->]|[_ Hi]]%Hlook; [rewrite Hph'; left; by destruct l1|by eapply N].
    + intros y i Hy [[-> ->]|[_ Hi]]%Hlook; rewrite Hr; [by eapply (absorbed_gc_ready _ j), G|].
      destruct (G y i Hy Hi) as (d & g & e & ? & ? & Hdd). exists d, g, e. split_and!; [done|done|]. intros q Hq. by apply absorbed_dead, Hdd.
Qed.
Lemma absorb_ok h (s : state) b j l1 p n l2 px nx :
  inv h s → blocks s !! b = Some j → phys j = l1 ++ p :: n :: l2 → refs s !! p = Some px → refs s !! n = Some nx →
  class_of px = Dirty → class_of nx = Dirty → next_in_ino nx = Null →
  wp (absorb b p n) s (λ _ s', inv h s' ∧ steady s s' ∧ (∀ r, marks b r s s') ∧ ∃ j', blocks s' = <[b := j']> (blocks s) ∧ phys j' = l1 ++ p :: l2 ∧
    refs s' = absorbed p px n nx (refs s)).
Proof.
  intros Hi Hb Hph Hp Hn Hcp Hcn Hnx. pose proof (inv_blocks _ _ Hi _ _ Hb) as Hj. pose proof (spans_NoDup _ _ _ _ (ok_spans _ _ _ Hj)) as Hd.
  unfold absorb. eapply wp_ref; [done|]. eapply wp_then; [reflexivity|]. eapply wp_then; [reflexivity|]. eapply wp_then; [reflexivity|].
  set (j1 := on_phys (filter (λ x, x ≠ n)) j). set (j2 := if decide (gc_node j1 = Some n) then with_gc_node (Some p) j1 else j1).
  set (s' := on_refs (λ R, absorbed p px n nx R) (on_blocks (λ l, <[b := j2]> l) s)).
  assert (jffs2_free_raw_node_ref n (on_blocks (alter (λ j, if decide (gc_node j = Some n) then with_gc_node (Some p) j else j) b)
    (on_blocks (alter (on_phys (filter (λ x, x ≠ n))) b) (on_refs (alter (add_totlen (totlen nx)) p) s))) = Some (tt, s')) as Heq.
  { assert (p ≠ n) as Hpn by (intros ->; rewrite Hph in Hd; apply NoDup_app in Hd as (_ & _ & [Hd _]%NoDup_cons); apply Hd; left).
    unfold jffs2_free_raw_node_ref. change (refs (on_blocks _ _)) with (alter (add_totlen (totlen nx)) p (refs s)). rewrite lookup_alter_ne, Hn by done.
    unfold s', on_refs, on_blocks. cbn. do 3 f_equal.
    - rewrite (alter_is_insert _ _ _ _ Hb). rewrite (alter_is_insert _ _ b j1) by (apply list_lookup_insert_eq; by eapply lookup_lt_Some). by rewrite list_insert_insert_eq.
    - unfold absorbed. f_equal. apply map_eq. intros q. destruct (decide (q = p)) as [->|Hq]; [by rewrite lookup_alter_eq, lookup_insert_eq, Hp|by rewrite lookup_alter_ne, lookup_insert_ne]. }
  eapply wp_eq; [exact Heq|]. assert (offset j2 = offset j ∧ size j2 = size j ∧ phys j2 = l1 ++ p :: l2) as (Ho2 & Hz2 & Hph2).
  { unfold j2. case_decide; cbn; (split_and!; [done|done|]); rewrite Hph; rewrite Hph, (cons_middle p l1), app_assoc in Hd;
      rewrite (cons_middle p l1), app_assoc, filter_ne_middle by done; by rewrite <-app_assoc. }
  assert (accounted 0 s') as Hacc.
  { destruct (inv_accounted _ _ Hi) as [Hbk Hbal]. split; [|done]. intros k. cbn [total s' blocks on_refs on_blocks]. rewrite (column_insert k s b _ j Hb), Hz2, (Hbk k). f_equal. lia. }
  pose proof (sector_small _ _ _ _ (inv_placed _ _ Hi) Hb) as Hsm.
  split_and!; [|eapply (steady_insert s s' b j j2); try done; by rewrite Hz2|intros r; eapply (marks_absorbed b r j j2 l1 p n l2 px nx); try done;
    [by apply dirty_obsolete|by apply dirty_obsolete|unfold j2; change (gc_node j1) with (gc_node j); by case_decide]|exists j2; by split_and!].
  eapply (inv_patch h s s' b j j2 Hi); try done.
  - eapply absorbed_ok; try done. lia.
  - by apply absorbed_joining.
  - intros b' i Hne Hb'. assert (∀ q, q ∈ phys j → q ∉ phys i) as Hdis.
    { intros q Hq Hq'. apply Hne. symmetry. by eapply phys_disjoint. }
    apply jeb_ok_delete; [apply Hdis; rewrite Hph; apply elem_of_app; right; right; left|].
    apply jeb_ok_insert; [apply Hdis; rewrite Hph; apply elem_of_app; right; left|exact (inv_blocks _ _ Hi _ _ Hb')].
  - intros m Hm Hsh. apply (shape_no_joining (refs s)); [by apply absorbed_joining|]. destruct (inv_shaped _ _ Hi) as (Hl & _). 
    assert (full j ∨ emptied j) as [Hf|[_ He]]; [destruct m; cbn in Hsh; tauto| |rewrite He in Hph; by destruct l1].
    destruct m; cbn in *; unfold full, emptied in *; rewrite ?Hz2; try done.
    + destruct Hsh as [_ He]. rewrite He in Hph. by destruct l1.
    + destruct Hsh as [_ He]. rewrite He in Hph. by destruct l1.
    + destruct Hsh as (? & ? & ? & Hnull). split_and!; try done. intros q y Hq. apply Hnull. rewrite Hph. rewrite Hph2 in Hq.
      clear -Hq. rewrite elem_of_app, !elem_of_cons in *. tauto.
    + destruct Hsh as [_ He]. rewrite He in Hph. by destruct l1.
  - intros [_ He]. rewrite He in Hph. by destruct l1.
  - unfold full. by rewrite Hz2.
  - apply absorbed_chained; try done. apply Hi.
  - apply (unspoilt_insert h s s' b j j2); try done. by rewrite Hz2.
Qed.
(** [r] is there no more, or it is obsolete. *)
Definition gone (r : nat) (s : state) : Prop := ∀ x, refs s !! r = Some x → ref_obsolete x = true.
Lemma merge_next_ok h (s : state) b j r x :
  inv h s → blocks s !! b = Some j → r ∈ phys j → refs s !! r = Some x → class_of x = Dirty →
  wp (merge_next b r) s (λ _ s', inv h s' ∧ steady s s' ∧ marks b r s s' ∧ ∃ j' x', blocks s' !! b = Some j' ∧ r ∈ phys j' ∧ refs s' !! r = Some x' ∧ class_of x' = Dirty).
Proof.
  intros Hi Hb Hr Hx Hc. unfold merge_next. eapply wp_block; [done|].
  assert (inv h s ∧ steady s s ∧ marks b r s s ∧ ∃ j' x', blocks s !! b = Some j' ∧ r ∈ phys j' ∧ refs s !! r = Some x' ∧ class_of x' = Dirty) as Hid
    by (split_and!; [done|apply steady_refl|apply marks_refl|by exists j, x]).
  destruct (next_phys r (phys j)) as [n|] eqn:Hn; [|by apply wp_ret]. apply next_phys_split in Hn as (l1 & l2 & Hph).
  destruct (spans_elem _ _ _ _ n (ok_spans _ _ _ (inv_blocks _ _ Hi _ _ Hb))) as (y & Hy & _); [rewrite Hph; apply elem_of_app; right; right; left|].
  eapply wp_ref; [done|]. destruct (ref_obsolete y && _) eqn:Hd; [|by apply wp_ret]. clear Hid.
  apply andb_true_iff in Hd as [Ho%dirty_obsolete Hnull%bool_decide_eq_true].
  assert (r ≠ n) as Hrn.
  { intros ->. pose proof (spans_NoDup _ _ _ _ (ok_spans _ _ _ (inv_blocks _ _ Hi _ _ Hb))) as Hd. rewrite Hph in Hd. apply NoDup_app in Hd as (_ & _ & [Hd _]%NoDup_cons). apply Hd. left. }
  eapply wp_mono; [|by eapply absorb_ok]. intros [] s' (Hi' & Hst & Hmk & j' & Hbl & Hph' & Hrf). split_and!; [done|done|apply Hmk|].
  exists j', (add_totlen (totlen y) x). split_and!; [rewrite Hbl; apply list_lookup_insert_eq; by eapply lookup_lt_Some|rewrite Hph'; apply elem_of_app; right; left| |done].
  rewrite Hrf. unfold absorbed. by rewrite lookup_delete_ne, lookup_insert_eq.
Qed.
Lemma merge_prev_ok h (s : state) b j r x :
  inv h s → blocks s !! b = Some j → r ∈ phys j → refs s !! r = Some x → class_of x = Dirty →
  wp (merge_prev b r) s (λ _ s', inv h s' ∧ steady s s' ∧ marks b r s s' ∧ gone r s').
Proof.
  intros Hi Hb Hr Hx Hc. unfold merge_prev. eapply wp_block; [done|].
  assert (inv h s ∧ steady s s ∧ marks b r s s ∧ gone r s) as Hid by (split_and!; [done|apply steady_refl|apply marks_refl|intros y Hy; simplify_eq; by apply dirty_obsolete]).
  case_decide as Hh; [by apply wp_ret|]. destruct (prev_phys_some r (phys j) Hr Hh) as [p Hp]. rewrite Hp. apply prev_phys_split in Hp as (l1 & l2 & Hph).
  destruct (spans_elem _ _ _ _ p (ok_spans _ _ _ (inv_blocks _ _ Hi _ _ Hb))) as (y & Hy & _); [rewrite Hph; apply elem_of_app; right; left|].
  eapply wp_ref; [done|]. eapply wp_ref; [done|]. destruct (ref_obsolete y && _) eqn:Hd; [|by apply wp_ret].
  apply andb_true_iff in Hd as [Ho%dirty_obsolete Hnull%bool_decide_eq_true].
  eapply wp_mono; [|by eapply absorb_ok]. intros [] s' (Hi' & Hst & Hmk & j' & Hbl & Hph' & Hrf). split_and!; [done|done|apply Hmk|].
  intros z Hz. rewrite Hrf in Hz. unfold absorbed in Hz. by rewrite lookup_delete_eq in Hz.
Qed.
Lemma touched_refl (f : F) o n : touched f f o n.
Proof. intros o' b'. done. Qed.
Lemma obliterate_eq (s : state) b r x : refs s !! r = Some x → flash_offset x / sector_size = Z.of_nat b →
  ∃ go f, obliterate b r s = Some (go, on_flash (λ _, f) s) ∧ touched (flash s) f (ref_offset x) sizeof_unknown_node.
Proof.
  intros Hx Hb. assert (s = on_flash (λ _, flash s) s) as Hid by (by destruct s).
  assert (∃ go f, Some (false, s) = Some (go, on_flash (λ _, f) s) ∧ touched (flash s) f (ref_offset x) sizeof_unknown_node) as Hsame
    by (exists false, (flash s); split; [by rewrite <-Hid|apply touched_refl]).
  unfold obliterate, raw, jffs2_flash_read, gets, mbind, SM_bind. rewrite Hx.
  destruct (mtd_read (flash s) _ _) as [ret n]. destruct (truthy ret); [exact Hsame|].
  destruct (negb _); [exact Hsame|]. rewrite (ref_totlen_eq _ _ _ _ Hx Hb). cbv zeta.
  destruct (negb _); [exact Hsame|]. destruct (negb _); [exact Hsame|].
  unfold jffs2_flash_write. destruct (mtd_write (flash s) _ _) as [[ret' retlen] f] eqn:Hw.
  assert (touched (flash s) f (ref_offset x) sizeof_unknown_node) as Ht by (intros o' b' Hs Ho; by eapply law_elsewhere).
  by destruct (truthy ret'); eexists _, f.
Qed.
Lemma inv_next_only h (s : state) R C : inv h s → next_only (refs s) R → chained R C → inv h (on_refs (λ _, R) (on_caches (λ _, C) s)).
Proof.
  intros Hi Hno Hch. destruct Hi as [Hbk Hbal Hp Hs Hct Hj _ Hun]. split; try done.
  - destruct Hs as (Hl & Hh & Ho). split_and!; try done. intros n b j Hn Hb. apply (shape_no_joining (refs s)); [by apply next_only_joining|by eapply Hl].
  - by apply (counted_same h s).
  - intros b j Hb. eapply next_only_jeb; [exact Hno|by apply Hj].
Qed.
(** On the flash, off the chain, and together with its neighbours. *)
Lemma obliterated_ok h (s : state) b j r x :
  inv h s → blocks s !! b = Some j → r ∈ phys j → refs s !! r = Some x → class_of x = Dirty →
  wp (go_on ← obliterate b r; if go_on : bool then leave_inode r;; merge_next b r;; merge_prev b r else mret tt) s
    (λ _ s', inv h s' ∧ steady s s' ∧ marks b r s s' ∧ gone r s').
Proof.
  intros Hi Hb Hr Hx Hc. pose proof (block_bounds _ _ _ _ (inv_placed _ _ Hi) Hb) as Hbb.
  destruct (in_block _ _ _ _ (inv_blocks _ _ Hi _ _ Hb) Hbb Hr) as (y & Hy & _ & Hlen & Hlo & Hhi & Hdiv & _). rewrite Hx in Hy. injection Hy as <-.
  destruct (obliterate_eq s b r x Hx Hdiv) as (go & f & Hgo & Htch). eapply wp_then; [exact Hgo|]. clear Hgo.
  pose proof (ok_offset _ _ _ (inv_blocks _ _ Hi _ _ Hb)) as Hoff. pose proof (ok_sizes _ _ _ (inv_blocks _ _ Hi _ _ Hb) Free) as Hfree. cbn in Hfree.
  unfold sizeof_unknown_node in Htch. set (s0 := on_flash (λ _, f) s).
  assert (inv h s0) as Hi0.
  { apply (inv_touched h s b j (ref_offset x) 12); try done; [lia|]. intros Hcl. destruct (inv_shaped _ _ Hi) as (Hl & _).
    destruct (Hl _ _ _ Hcl Hb) as [_ He]. rewrite He in Hr. by apply elem_of_nil in Hr. }
  assert (∀ b', b' ≠ b → preserved b' s s0) as Hpre by (intros b' Hne; apply (preserved_touched b b' s s0 (ref_offset x) 12 Htch Hne); lia).
  assert (steady s s0) as Hst0 by (split; try done; intros b' i Hb'; by exists i).
  assert (marks b r s s0) as Hmk0 by (apply marks_nodes; try done; intros; by apply same_node_eq).
  destruct go; [|apply wp_ret; split_and!; [done|done|done|intros z Hz; cbn in Hz; simplify_eq; by apply dirty_obsolete]].
  apply wp_bind. eapply wp_mono; [|apply (leave_inode_ok s0 r x); [apply Hi0|done]]. intros [] s1 (R & C & -> & Hch & Hno & Hx1 & Hown1).
  set (s1 := on_refs _ _). assert (inv h s1) as Hi1 by (by apply (inv_next_only h s0)).
  assert (steady s0 s1) as Hst1 by (split; try done; intros b' i Hb'; by exists i).
  assert (marks b r s0 s1) as Hmk1.
  { apply marks_nodes; try done; [|intros q; by apply dead_next_only|intros b' _; by apply preserved_flash]. intros q y Hq Hy _. split; [|intros k; by apply Hown1].
    intros z Hz. destruct (next_only_lookup _ _ _ _ Hno Hz) as (z' & ? & ? & ? & _). by exists z'. }
  apply wp_bind. eapply wp_mono; [|by apply (merge_next_ok h s1 b j r (with_next Null x))]. intros [] s2 (Hi2 & Hst2 & Hmk2 & j2 & x2 & Hb2 & Hr2 & Hx2 & Hc2).
  eapply wp_mono; [|by eapply merge_prev_ok]. intros [] s3 (Hi3 & Hst3 & Hmk3 & Hg). split_and!; [done| | |done].
  - eapply steady_trans, steady_trans, steady_trans; [exact Hst0|exact Hst1|exact Hst2|exact Hst3].
  - eapply marks_trans, marks_trans, marks_trans; [exact Hmk0|exact Hmk1|exact Hmk2|exact Hmk3].
Qed.
(** [jffs2_mark_node_obsolete], for every node of a block that is not on [free_list]. *)
Lemma mark_node_obsolete_ok h (s : state) b j r x :
  inv h s → blocks s !! b = Some j → r ∈ phys j → refs s !! r = Some x → b ∉ lists s free_list →
  wp (jffs2_mark_node_obsolete (Some r)) s (λ _ s', inv h s' ∧ steady s s' ∧ marks b r s s' ∧ gone r s').
Proof.
  intros Hi Hb Hr Hx Hfree. unfold jffs2_mark_node_obsolete. eapply wp_ref; [done|]. destruct (ref_obsolete x) eqn:Hobs.
  { apply wp_ret. split_and!; [done|apply steady_refl|apply marks_refl|]. intros y Hy. by simplify_eq. }
  pose proof (inv_blocks _ _ Hi _ _ Hb) as Hj. pose proof (block_bounds _ _ _ _ (inv_placed _ _ Hi) Hb) as Hbb.
  destruct (in_block _ _ _ _ Hj Hbb Hr) as (y & Hy & Hok & _ & _ & _ & Hdiv & _). rewrite Hx in Hy. injection Hy as <-.
  destruct (live_block _ _ _ _ _ _ Hi Hb Hr Hx Hobs Hfree) as [_ Huse]. rewrite Hdiv. cbv zeta.
  rewrite (proj2 (Z.leb_gt nr_blocks _)) by (pose proof (lookup_lt_Some _ _ _ Hb); destruct (inv_placed _ _ Hi); lia). rewrite Nat2Z.id.
  apply wp_bind. eapply wp_mono; [|by eapply account_obsolete_ok]. intros added s1 (Hi1 & Hmd). pose proof (marks_marked _ _ _ _ _ _ _ Hi Hi1 Hb Hx Hok Hmd) as Hmk1.
  destruct Hmd as (Hsl & Hsr & Hrf & j1 & Hbl & Ho1 & Hph1 & Hgc1 & Hf1 & Hfr1 & _).
  assert (blocks s1 !! b = Some j1) as Hb1 by (rewrite Hbl; apply list_lookup_insert_eq; by eapply lookup_lt_Some).
  assert (steady s s1) as Hst1. { destruct Hsl, Hsr. by eapply steady_insert. }
  assert (refs s1 !! r = Some (with_flags REF_OBSOLETE x)) as Hx1 by (by rewrite Hrf, lookup_insert_eq).
  destruct (obsolete_class x Hok) as (Hok1 & _ & Hc1 & Hobs1).
  eapply wp_then; [apply (acct_checks_eq b j1 h); [apply Hi1|done|by apply (inv_blocks _ _ Hi1)|done|apply Hi1]|]. apply wp_sb_gets. cbn [id].
  assert (phys j1 ≠ []) as Hne by (intros He; rewrite Hph1 in He; rewrite He in Hr; by apply elem_of_nil in Hr).
  assert (∀ s2, inv h s2 → kept s1 s2 → marks b r s1 s2 → inv h s2 ∧ steady s s2 ∧ marks b r s s2 ∧ gone r s2) as Hend.
  { intros s2 Hi2 Hk Hmk. split_and!; [done|eapply steady_trans, kept_steady; done|by eapply marks_trans|]. intros z. rewrite (kp_refs _ _ Hk), Hx1. intros [= <-]. done. }
  destruct (truthy _).
  { eapply wp_mono; [|by apply spin_unlock_ok]. intros [] s2 [Hi2 Hq]. apply Hend; [done|apply Hq|]. by eapply marks_moved, Hne; [apply Hq|apply quiet_moved|]. }
  assert (in_use b s1) as Huse1. { destruct Hsl as [Hl Hn Hg _ _ _ _]. unfold in_use. by rewrite Hl, Hn, Hg. }
  apply wp_bind. eapply wp_mono; [|by eapply refile_ok]. intros [] s2 (Hi2 & Hk2 & Hmv2).
  apply wp_bind. eapply wp_mono; [|by apply spin_unlock_ok]. intros [] s3 [Hi3 Hq3].
  assert (marks b r s1 s3) as Hmk3.
  { eapply marks_trans; [by eapply marks_moved|]. eapply marks_moved; [apply Hq3|by apply quiet_moved| |exact Hne]. by rewrite (kp_blocks _ _ Hk2). }
  pose proof (kept_trans _ _ _ Hk2 (q_kept _ _ Hq3)) as Hk3. clear Hi2 Hk2 Hq3 Hmv2 s2.
  destruct (_ || _); [by apply wp_ret, Hend|]. destruct (Hend s3 Hi3 Hk3 Hmk3) as (_ & Hst3 & Hmk & _). clear Hend Hi1 Huse1.
  eapply wp_mono; [|apply (obliterated_ok h s3 b j1 r (with_flags REF_OBSOLETE x)); [done|by rewrite (kp_blocks _ _ Hk3)|by rewrite Hph1|by rewrite (kp_refs _ _ Hk3)|done]].
  intros [] s4 (Hi4 & Hst4 & Hmk4 & Hg). split_and!; [done|by eapply steady_trans|by eapply marks_trans|done].
Qed.
End Merging.
