(* ===== verification/Jffs2Erase.v ===== *)
(** * Jffs2Erase: erasing blocks (fs/jffs2/erase.c)

    A block of [erase_pending_list] loses its nodes, is erased, checked and given a clean marker; whatever
    fails on the way, the books stay right and the block is in one place.  [jffs2_erase_pending_blocks]
    returns: what goes wrong is finite. *)

From S2P Require Import Prelude Jffs2Frag Jffs2Compr Jffs2Node Jffs2File Jffs2Write Crc32 Jffs2Space Jffs2Books Jffs2Account Jffs2Obsolete.

Section Emptying.
Import Space.
Context {F : Type} `{!Mtd F} `{!Eraser F} `{!Erasable F} {Geo : Geometry} {Lawful_geo : Geometric}.
Abbreviation state := (sb (F := F)).
Abbreviation P := (SM state).

Lemma sector_addr x b : 0 <= x < 2 ^ 32 → x / sector_size = Z.of_nat b → SECTOR_ADDR x = Z.of_nat b * sector_size.
Proof.
  intros Hx <-. unfold SECTOR_ADDR. destruct geo_sector as (k & Hk & ->). rewrite <-Z.shiftr_div_pow2, <-Z.shiftl_mul_pow2 by lia.
  replace (2 ^ k - 1) with (Z.ones k) by (rewrite Z.ones_equiv; lia). apply Z.bits_inj'. intros i Hi. rewrite Z.land_spec.
  destruct (Z.lt_ge_cases i k) as [Hik|Hik].
  - rewrite Z.shiftl_spec_low by lia. destruct (Z.lt_ge_cases i 32) as [H32|H32]; [|by rewrite (testbit_above x 32 i) by lia].
    rewrite testbit_u32, Z.lnot_spec, Z.testbit_ones_nonneg by lia. rewrite (proj2 (Z.ltb_lt i k)) by lia. by rewrite andb_false_r.
  - rewrite Z.shiftl_spec, Z.shiftr_spec by lia. replace (i - k + k) with i by lia. destruct (Z.lt_ge_cases i 32) as [H32|H32]; [|by rewrite (testbit_above x 32 i) by lia].
    rewrite testbit_u32, Z.lnot_spec, Z.testbit_ones_nonneg by lia. rewrite (proj2 (Z.ltb_ge i k)) by lia. by rewrite andb_true_r.
Qed.

(** The books while block [b] is being emptied: on no list, counted among those that are erased. *)
Record emptying (b : nat) (h : list nat) (s : state) : Prop := Emptying {
  em_accounted : accounted 0 s; em_placed : placed (b :: h) s; em_shaped : shaped h s; em_counted : counted (b :: h) s;
  em_blocks : ∀ b' j, blocks s !! b' = Some j → jeb_ok (refs s) b' j; em_chained : chained (refs s) (caches s); em_unspoilt : unspoilt s }.
Definition zero : sizes := Sizes 0 0 0 0 0.
Lemma emptying_inv b h (s : state) : emptying b h s → (∀ j, blocks s !! b = Some j → emptied j) → inv (b :: h) s.
Proof. intros [Ha Hp Hs Hc Hj Hch Hun] He. split; try done; [apply Ha|by apply accounted_balance|by apply shaped_hand]. Qed.

(** One node less on the list of the block. *)
Lemma emptying_tail b h (s : state) o r l g : emptying b h s → blocks s !! b = Some (Block o zero (r :: l) g) →
  emptying b h (on_blocks (alter (on_phys (λ _, l)) b) s).
Proof.
  intros [Ha Hp Hs Hc Hj Hch Hun] Hb. set (s' := on_blocks _ _). assert (blocks s' = <[b := Block o zero l g]> (blocks s)) as Hbl by exact (alter_is_insert _ _ _ _ Hb).
  assert (length (blocks s') = length (blocks s)) as Hlen by (by rewrite Hbl, length_insert).
  assert (∀ b' i, blocks s' !! b' = Some i → (b' = b ∧ i = Block o zero l g) ∨ (b' ≠ b ∧ blocks s !! b' = Some i)) as Hlook.
  { intros b' i. rewrite Hbl. intros [(-> & <- & _)|[]]%list_lookup_insert_Some; auto. }
  pose proof (open_alone (b :: h) s) as Hopen. pose proof (Hj _ _ Hb) as Hjb. split; [| | | | |done|].
  6: { intros b' i [[-> ->]|[Hne Hi]]%Hlook; [exact (Hun _ _ Hb)|exact (Hun _ _ Hi)]. }
  - destruct Ha as [Hbk Hbal]. split; [|done]. intros k. rewrite Hbl. change (total s') with (total s). rewrite (column_insert k s b _ _ Hb), (Hbk k). f_equal. cbn [size]. lia.
  - by apply (placed_same _ s).
  - destruct Hs as (Hl & Hh & Ho). split_and!.
    + intros n b' i Hn [[-> ->]|[Hne Hi]]%Hlook; [|by eapply Hl]. destruct (listed_alone _ _ _ _ Hp Hn) as [Hnb _]. destruct Hnb. left.
    + intros b' i Hn [[-> ->]|[Hne Hi]]%Hlook; [|by eapply Hh]. pose proof (placed_NoDup _ _ Hp) as Hd. apply NoDup_cons in Hd as [Hd _].
      destruct Hd. apply elem_of_app. by left.
    + intros b' i Hn [[-> ->]|[Hne Hi]]%Hlook; [|by eapply Ho]. destruct (Hopen b Hp Hn) as [Hnb _]. destruct Hnb. left.
  - by apply (counted_same _ s).
  - intros b' i [[-> ->]|[Hne Hi]]%Hlook; [|by apply Hj]. change (refs s') with (refs s). destruct Hjb as [H1 H2 Hal H3 H4 H5]. cbn [offset size phys] in *.
    destruct H3 as (x & Hx & Hok & Ht & Hlo & Hsp). pose proof (live_nonneg _ Used _ _ _ Hsp). pose proof (live_nonneg _ Unchecked _ _ _ Hsp).
    rewrite (live_cons _ _ _ _ _ Hx) in H4. rewrite (live_cons _ _ _ _ _ Hx) in H5. unfold zero in *. cbn [size phys used_size unchecked_size] in H4, H5. split; cbn [offset size phys used_size unchecked_size free_size]; [done|done|done|eapply spans_weaken; [| |exact Hsp]; [lia|apply Z.le_refl]|..]; repeat case_decide; lia.
Qed.
Lemma emptying_next_only b h (s : state) R C : emptying b h s → next_only (refs s) R → chained R C → emptying b h (on_refs (λ _, R) (on_caches (λ _, C) s)).
Proof.
  intros [Ha Hp (Hl & Hh & Ho) Hc Hj _ Hun] Hno Hch. split; try done.
  - split_and!; try done. intros n b' j Hn Hb. apply (shape_no_joining (refs s)); [by apply next_only_joining|by eapply Hl].
  - by apply (counted_same _ s).
  - intros b' j Hb. eapply next_only_jeb; [exact Hno|by apply Hj].
Qed.
Lemma emptying_delete b h (s : state) r x : emptying b h s → refs s !! r = Some x → next_in_ino x = Null →
  (∀ b' j, blocks s !! b' = Some j → r ∉ phys j) → emptying b h (on_refs (delete r) s).
Proof.
  intros [Ha Hp (Hl & Hh & Ho) Hc Hj [H1 H2] Hun] Hx Hnx Hr. split; try done.
  - split_and!; try done. intros n b' j Hn Hb. apply (shape_no_joining (refs s)); [|by eapply Hl].
    intros q y Hy Hyn. cbn in Hy. apply lookup_delete_Some in Hy as [_ Hy]. by exists y.
  - by apply (counted_same _ s).
  - intros b' j Hb. apply jeb_ok_delete; [by eapply Hr|by apply Hj].
  - assert (∀ l ns i, seg (refs s) l ns (ToCache i) → seg (delete r (refs s)) l ns (ToCache i)) as Hseg.
    { intros l ns i Hs. eapply seg_frame; [|exact Hs]. intros q y Hq Hy. exists y. split; [|done]. apply lookup_delete_Some. split; [|done]. intros <-.
      destruct (seg_elem _ _ _ _ _ Hs Hq) as (z & Hz & Hzn). by simplify_eq. }
    split.
    + intros i c Hci. destruct (H1 i c Hci) as [ns Hns]. exists ns. by apply Hseg.
    + intros q y Hy Hyn. cbn in Hy. apply lookup_delete_Some in Hy as [_ Hy]. destruct (H2 q y Hy Hyn) as (i & c & ns & ? & Hch & ?). exists i, c, ns. split_and!; try done. by apply Hseg.
Qed.

(** What freeing the nodes of a block leaves as it was. *)
Definition purged (b : nat) (s s' : state) : Prop :=
  (∃ B R C, s' = on_blocks (λ _, B) (on_refs (λ _, R) (on_caches (λ _, C) s))) ∧ (∀ b', b' ≠ b → blocks s' !! b' = blocks s !! b') ∧
  ∀ b' i q, b' ≠ b → blocks s !! b' = Some i → q ∈ phys i → same_node s s' q.
Lemma purged_trans b (s s1 s2 : state) : purged b s s1 → purged b s1 s2 → purged b s s2.
Proof.
  intros ((B & R & C & ->) & H1 & N1) ((B' & R' & C' & ->) & H2 & N2). split_and!; [by exists B', R', C'| |].
  - intros b' Hb. by rewrite H2, H1.
  - intros b' i q Hb Hi Hq. eapply same_node_trans; [by eapply N1|]. eapply N2; [done| |done]. by rewrite H1.
Qed.
Lemma purged_same b (s s' : state) : (∃ B, s' = on_blocks (λ _, B) s) → (∀ b', b' ≠ b → blocks s' !! b' = blocks s !! b') → purged b s s'.
Proof.
  intros [B ->] Hb. split_and!; [|done|intros; by apply same_node_eq]. exists B, (refs s), (caches s). by destruct s.
Qed.
Lemma purged_refl b (s : state) : purged b s s.
Proof. apply purged_same; [|done]. exists (blocks s). by destruct s. Qed.
Lemma purged_delete b (s : state) r x : refs s !! r = Some x → next_in_ino x = Null → (∀ b' i, b' ≠ b → blocks s !! b' = Some i → r ∉ phys i) →
  purged b s (on_refs (delete r) s).
Proof.
  intros Hx Hn Hr. split_and!; [exists (blocks s), (delete r (refs s)), (caches s); by destruct s|done|]. intros b' i q Hb Hi Hq.
  assert (q ≠ r) as Hqr by (intros ->; by eapply Hr). split.
  - intros y Hy. exists y. cbn [refs on_refs]. by rewrite lookup_delete_ne.
  - intros k (c & ns & Hc & Hns & Hin). exists c, ns. split_and!; [done| |done]. eapply seg_frame; [|exact Hns]. intros p y Hp Hy. exists y. split; [|done].
    cbn [refs on_refs]. rewrite lookup_delete_ne; [done|]. intros ->. destruct (seg_elem _ _ _ _ _ Hns Hp) as (z & Hz & Hzn). by simplify_eq.
Qed.
Lemma free_refs_ok b h o g l (s : state) : emptying b h s → blocks s !! b = Some (Block o zero l g) →
  wp (free_refs b l) s (λ _ s', emptying b h s' ∧ blocks s' !! b = Some (Block o zero [] g) ∧ purged b s s').
Proof.
  revert s. induction l as [|r l IH]; intros s Hem Hb; cbn [free_refs].
  { apply wp_ret. split_and!; [done|done|apply purged_refl]. }
  pose proof (em_placed _ _ _ Hem) as Hp. pose proof (block_bounds _ _ _ _ Hp Hb) as Hbb. pose proof (em_blocks _ _ _ Hem _ _ Hb) as Hj.
  destruct (in_block _ _ _ r Hj Hbb) as (x & Hx & Hok & _ & _ & _ & Hdiv & _); [left|].
  assert (∀ b' i, b' ≠ b → blocks s !! b' = Some i → r ∉ phys i) as Hother.
  { intros b' i Hne Hi Hr. pose proof (block_bounds _ _ _ _ Hp Hi) as Hib. destruct (in_block _ _ _ r (em_blocks _ _ _ Hem _ _ Hi) Hib Hr) as (y & Hy & _ & _ & _ & _ & Hd & _).
    apply Hne. simplify_eq. lia. }
  pose proof (spans_NoDup _ _ _ _ (ok_spans _ _ _ Hj)) as [Hrl _]%NoDup_cons.
  eapply wp_then; [reflexivity|]. eapply wp_ref; [done|]. pose proof (emptying_tail _ _ _ _ _ _ _ Hem Hb) as Hem1. set (s1 := on_blocks _ s) in *.
  assert (blocks s1 !! b = Some (Block o zero l g)) as Hb1 by (unfold s1; cbn; rewrite list_lookup_alter_eq, Hb; done).
  assert (purged b s s1) as Hpu1. { apply purged_same; [by eexists|]. intros b' Hne. by apply list_lookup_alter_ne. }
  assert (wp (if decide (next_in_ino x = Null) then mret tt else jffs2_remove_node_refs_from_ino_list r b) s1 (λ _ s2,
    emptying b h s2 ∧ blocks s2 = blocks s1 ∧ purged b s1 s2 ∧ refs s2 !! r = Some (with_next Null x))) as Hrem.
  { case_decide as Hn.
    - apply wp_ret. split_and!; [done|done|apply purged_refl|]. change (refs s1) with (refs s). rewrite Hx. destruct x. cbn in *. by subst.
    - eapply wp_mono; [|eapply (remove_node_refs_ok s1 r b _ x); [apply Hem1|done|done|exact Hb1|]].
      + intros [] s2 (R & C & i & c & ns & -> & Hch & Hno & Hr2 & _ & _ & _ & _ & _ & Hown). split_and!; [by apply emptying_next_only|done| |done].
        split_and!; [exists (blocks s1), R, C; by destruct s1|done|]. intros b' i' q Hne Hi' Hq.
        destruct (in_block _ _ _ q (em_blocks _ _ _ Hem1 _ _ Hi') (block_bounds _ _ _ _ (em_placed _ _ _ Hem1) Hi') Hq) as (y & Hy & Hyok & _ & _ & _ & Hyd & _).
        split; [intros z Hz; destruct (next_only_lookup _ _ _ _ Hno Hz) as (z' & ? & ? & ? & _); by exists z'|]. intros k. apply Hown. unfold inside. rewrite Hy.
        apply Z.eqb_neq. rewrite (sector_addr _ _ (proj1 Hyok) Hyd). pose proof (ok_offset _ _ _ Hj) as Hoo. cbn in Hoo |- *. rewrite Hoo. pose proof sector_pos. nia.
      + pose proof (ok_offset _ _ _ Hj) as Hoo. cbn in Hoo |- *. rewrite Hoo. by apply sector_addr; [apply Hok|]. }
  apply wp_bind. eapply wp_mono; [|exact Hrem]. intros [] s2 (Hem2 & Hbl2 & Hpu2 & Hx2). eapply wp_free; [exact Hx2|].
  set (s3 := on_refs _ _). assert (emptying b h s3) as Hem3.
  { eapply emptying_delete; [done|exact Hx2|done|]. intros b' i. rewrite Hbl2. destruct (decide (b' = b)) as [->|Hne]; [rewrite Hb1; by intros [= <-]|].
    rewrite (proj1 (proj2 Hpu1)) by done. by apply Hother. }
  eapply wp_mono; [|apply (IH s3 Hem3); cbn; by rewrite Hbl2]. intros [] s4 (Hem4 & Hb4 & Hpu4). split_and!; [done|done|].
  eapply purged_trans; [exact Hpu1|]. eapply purged_trans; [exact Hpu2|]. eapply purged_trans; [|exact Hpu4].
  eapply purged_delete; [exact Hx2|done|]. intros b' i Hne. rewrite Hbl2, (proj1 (proj2 Hpu1)) by done. by apply Hother.
Qed.
End Emptying.

Section Erasing.
Import Space.
Context {F : Type} `{!Mtd F} `{!Eraser F} `{!Erasable F} {Geo : Geometry} {Lawful_geo : Geometric}.
Abbreviation state := (sb (F := F)).
Abbreviation P := (SM state).

(** What is left to do, and what can still go wrong. *)
Definition burden (s : state) : nat :=
  3 * misfortunes (env s) + 2 * length (lists s erase_pending_list) + length (lists s erasing_list) + length (lists s erase_complete_list).
(** The blocks that are in use: open, being collected, or on one of their lists. *)
Definition still (b : nat) (s : state) : Prop := nextblock s = Some b ∨ gcblock s = Some b ∨ ∃ n, n ∈ use_lists ∧ b ∈ lists s n.
Lemma still_listed h (s : state) b b' n : placed h s → b ∈ lists s n → n ∉ use_lists → still b' s → b' ≠ b.
Proof.
  intros Hp Hb Hn Hs ->. destruct (listed_alone _ _ _ _ Hp Hb) as (_ & Hbn & Hbg). destruct Hs as [?|[?|(m & Hm & Hbm)]]; [done..|].
  by rewrite (one_list h s n m b Hp Hb Hbm) in Hn.
Qed.
Lemma still_hand h (s : state) b b' : placed (b :: h) s → still b' s → b' ≠ b.
Proof.
  intros Hp Hs ->. destruct Hs as [Ho|[Ho|(m & _ & Hbm)]].
  - destruct (open_alone _ _ b Hp (or_introl Ho)) as [Hy _]. apply Hy. left.
  - destruct (open_alone _ _ b Hp (or_intror Ho)) as [Hy _]. apply Hy. left.
  - destruct (listed_alone _ _ _ _ Hp Hbm) as [Hy _]. apply Hy. left.
Qed.
(** What the functions of erase.c leave alone. *)
Record bystander (s s' : state) : Prop := Bystander {
  by_next : nextblock s' = nextblock s; by_gc : gcblock s' = gcblock s; by_flags : flags s' = flags s; by_readonly : readonly s' = readonly s;
  by_misfortunes : (misfortunes (env s') <= misfortunes (env s))%nat;
  by_lists : ∀ n, n ∈ [clean_list; very_dirty_list; dirty_list; erasable_list; erasable_pending_wbuf_list; bad_used_list] → lists s' n = lists s n;
  by_block : ∀ b j, still b s → blocks s !! b = Some j → blocks s' !! b = Some j;
  by_nodes : ∀ b j r, still b s → blocks s !! b = Some j → r ∈ phys j → same_node s s' r;
  by_checked : checked s → checked s';
  by_flash : ∀ b, still b s → preserved b s s' }.
Lemma bystander_same (s s' : state) : nextblock s' = nextblock s → gcblock s' = gcblock s → flags s' = flags s → readonly s' = readonly s →
  (misfortunes (env s') <= misfortunes (env s))%nat →
  (∀ n, n ∈ [clean_list; very_dirty_list; dirty_list; erasable_list; erasable_pending_wbuf_list; bad_used_list] → lists s' n = lists s n) →
  blocks s' = blocks s → refs s' = refs s → caches s' = caches s → (∀ b, still b s → preserved b s s') → bystander s s'.
Proof.
  intros Hn Hg Hf Hro Hm Hl Hb Hr Hc Hfl. split; try done; [by rewrite Hb|intros; by apply same_node_eq|]. intros Hck b j. rewrite Hb. apply Hck.
Qed.
Lemma bystander_refl (s : state) : bystander s s.
Proof. apply bystander_same; try done. intros b _. by apply preserved_flash. Qed.
Lemma still_bystander (s s' : state) b : bystander s s' → still b s → still b s'.
Proof.
  intros [N1 G1 _ _ _ L1 _ _ _ _] Hs. unfold still. rewrite N1, G1. destruct Hs as [?|[?|(n & Hn & Hb)]]; [by left|by right; left|right; right].
  exists n. split; [done|]. rewrite L1; [done|]. clear -Hn. set_solver.
Qed.
Lemma bystander_trans (s s1 s2 : state) : bystander s s1 → bystander s1 s2 → bystander s s2.
Proof.
  intros H1 H2. pose proof H1 as [N1 G1 F1 R1 M1 L1 B1 W1 C1 P1]. pose proof H2 as [N2 G2 F2 R2 M2 L2 B2 W2 C2 P2]. split; [congruence..|lia| | | |auto|].
  - intros n Hn. by rewrite L2, L1.
  - intros b j Hb Hj. apply B2; [by eapply still_bystander|auto].
  - intros b j r Hb Hj Hr. eapply same_node_trans; [by eapply W1|]. eapply W2; [by eapply still_bystander|by apply B1|done].
  - intros b Hb. eapply preserved_trans; [by apply P1|]. apply P2. by eapply still_bystander.
Qed.
Lemma quiet_bystander h (s s' : state) : inv h s → quiet s s' → bystander s s'.
Proof.
  intros Hi [[Hb Hr Hc Hf Hro Hn Hfl He Hm] Hg Hfr Ht Hl Hbs]. apply bystander_same; try done.
  - intros n Hn'. apply Hl. clear -Hn'. set_solver.
  - intros b Hs. apply Hfl. intros Hin. eapply (still_listed h s b b erasing_list); [apply Hi|done|set_solver|done|done].
Qed.
Lemma quiet_burden (s s' : state) : quiet s s' → (burden s' <= burden s)%nat.
Proof.
  intros [[_ _ _ _ _ _ _ _ Hm] _ _ _ Hl Hbs]. unfold burden. unfold count in Hbs. rewrite (Hl erase_pending_list) by set_solver. lia.
Qed.

(** *** Back to the head of [erase_pending_list] *)
Lemma refile_pending_ok h (s : state) b : inv h s → b ∈ lists s erasing_list →
  wp (refile_pending b) s (λ _ s', inv h s' ∧ bystander s s' ∧ misfortunes (env s') = misfortunes (env s) ∧ burden s' = S (burden s)).
Proof.
  intros Hi Hb. destruct (place_block _ _ b (inv_placed _ _ Hi)) as [j Hj]; [apply elem_of_app; right; by eapply listed_places|].
  destruct (inv_shaped _ _ Hi) as (Hl & _). destruct (Hl _ _ _ Hb Hj) as [Hz Hph]. destruct (listed_alone _ _ _ _ (inv_placed _ _ Hi) Hb) as (Hbh & Hbn & Hbg).
  eapply wp_list_del; [done|]. eapply wp_then; [reflexivity|]. eapply wp_then; [reflexivity|]. eapply wp_then; [reflexivity|].
  set (s1 := added b erase_pending_list (without b s)).
  set (s' := on_blocks (alter (on_size (upd Dirty (λ _, sector_size))) b) (on_total (upd Dirty (add32 sector_size)) (on_erasing_size (add32 (- sector_size)) s1))).
  apply (wp_eq _ _ tt s'); [done|]. set (j' := on_size (upd Dirty (λ _, sector_size)) j).
  assert (blocks s' = <[b := j']> (blocks s)) as Hbl by exact (alter_is_insert _ _ _ _ Hj).
  assert (size j' = Sizes 0 0 sector_size 0 0) as Hz' by (unfold j'; cbn; by rewrite Hz). pose proof sector_pos as Hpos.
  assert (∀ x, count s' x = count s x - (if decide (x = erasing_list) then 1 else 0) + (if decide (x = erase_pending_list) then 1 else 0)) as Hc.
  { intros x. etransitivity; [apply (count_added (without b s))|]. rewrite (count_without h s erasing_list); [done|apply Hi|done]. }
  assert (∀ n y, y ∈ lists s' n → (y ≠ b ∧ y ∈ lists s n) ∨ (y = b ∧ n = erase_pending_list)) as Hin.
  { intros n y. cbn. case_decide; subst; rewrite ?elem_of_cons, list_elem_of_filter; tauto. }
  pose proof (inv_blocks _ _ Hi _ _ Hj) as Hjo. split_and!; [|split; try done; [| |intros; by apply same_node_eq| |]| |].
  - eapply (inv_rehome h h s s' b j j' erase_pending_list Hi Hj Hbl Hin).
    + intros y Hy. split; [by intros ->|done].
    + intros y Hy. split; [intros ->; destruct Hy as [Hy|Hy]; [exact (Hbn Hy)|exact (Hbg Hy)]|done].
    + apply (placed_eq _ s1); [done|done|done|by rewrite Hbl, length_insert|]. apply placed_added, (placed_without h _ erasing_list); [apply Hi|done].
    + destruct (inv_counted _ _ Hi) as [Cf Ce Cs Cb]. split; rewrite ?Hc; repeat case_decide; try done; cbn; unfold add32; rewrite ?Cf, ?Ce, ?Cs, ?Cb, ?u32_add_l; f_equal; ring.
    + destruct (inv_accounted _ _ Hi) as [Hbk Hbal]. split.
      * intros k. rewrite Hbl, (column_insert k s b _ j Hj), Hz', Hz. change (total s') with (upd Dirty (add32 sector_size) (total s)). rewrite get_upd. specialize (Hbk k). unfold add32.
        case_decide as Hk; [subst k|]; rewrite Hbk, ?u32_add_l; f_equal; [cbn; lia|destruct k; cbn; lia || done].
      * unfold balance in *. change (total s') with (upd Dirty (add32 sector_size) (total s)).
        change (erasing_size s') with (u32 (erasing_size s + - sector_size)). change (bad_size s') with (bad_size s). rewrite sum_upd. unfold add32.
        replace (sum (total s) + (u32 (get Dirty (total s) + sector_size) - get Dirty (total s)) + u32 (erasing_size s + - sector_size) + bad_size s)
          with (sum (total s) - get Dirty (total s) + bad_size s + u32 (get Dirty (total s) + sector_size) + u32 (erasing_size s + - sector_size)) by lia.
        rewrite u32_add_r. rewrite <-(u32_add_l (_ + u32 _)), u32_add_r, u32_add_l, <-Hbal. f_equal. lia.
    + intros q x Hx Hn. by exists x.
    + intros b' i _ Hi'. by apply (inv_blocks _ _ Hi).
    + destruct Hjo as [Ho Hs Hal Hsp Hu Hc']. split; [done|rewrite Hz'; intros []; cbn; lia|by rewrite Hz'| |by rewrite Hz' in *; rewrite Hz in Hu|by rewrite Hz' in *; rewrite Hz in Hc'].
      change (phys j') with (phys j). change (offset j') with (offset j). rewrite Hph, Hz'. cbn. lia.
    + change (full j' ∧ used_size (size j') = 0 ∧ unchecked_size (size j') = 0). unfold full, sum. rewrite Hz'. cbn. split_and!; [lia|done|done].
    + apply Hi.
    + done.
    + done.
    + done.
    + done.
  - intros n Hn. cbn. rewrite decide_False by (clear -Hn; set_solver). apply filter_ne_id. intros Hbn'. 
    rewrite (one_list h s n erasing_list b) in Hn by (done || apply Hi). clear -Hn. set_solver.
  - intros b' i Hb' Hi'. rewrite Hbl. rewrite list_lookup_insert_ne; [done|]. apply not_eq_sym. eapply still_listed; [apply Hi|exact Hb| |done]. clear. set_solver.
  - apply (checked_insert s s' b j' Hbl). by rewrite Hz'.
  - intros y _. by apply preserved_flash.
  - done.
  - unfold burden. change (env s') with (env s). pose proof (Hc erase_pending_list) as H1. pose proof (Hc erasing_list) as H2. pose proof (Hc erase_complete_list) as H3.
    unfold count in *. repeat case_decide; try done. lia.
Qed.

(** *** Starting an erase *)
Lemma env_bystander (s : state) f : (misfortunes (f (env s)) <= misfortunes (env s))%nat → bystander s (on_env f s).
Proof. intros Hm. apply bystander_same; try done. intros b _. by apply preserved_flash. Qed.
Lemma flash_bystander (s : state) f : (∀ b, still b s → preserved b s (on_flash f s)) → bystander s (on_flash f s).
Proof. by apply bystander_same. Qed.
Lemma wp_kmalloc {B} (k : bool → P B) (s : state) Q :
  (∀ (ok : bool) s', s' = on_env take_memory s → (misfortunes (env s') + (if ok then 0 else 1) <= misfortunes (env s))%nat → wp (k ok) s' Q) →
  wp (kmalloc ≫= k) s Q.
Proof.
  intros Hk. eapply wp_then; [reflexivity|]. apply (Hk _ _ eq_refl). unfold misfortunes. cbn. destruct (memory (env s)) as [|[] l]; cbn; lia.
Qed.
Lemma erase_block_ok h (s : state) b : inv h s → b ∈ lists s erasing_list →
  wp (jffs2_erase_block b) s (λ _ s', inv h s' ∧ bystander s s' ∧ (burden s' <= burden s)%nat).
Proof.
  intros Hi Hb. unfold jffs2_erase_block. apply wp_kmalloc. intros ok s1 -> Hm1. set (s1 := on_env _ s) in *.
  assert (inv h s1) as Hi1 by (by apply (inv_env h s)). assert (bystander s s1) as Hb1 by (apply env_bystander; change (take_memory (env s)) with (env s1); lia).
  assert (burden s1 + 3 * (if ok then 0 else 1) <= burden s)%nat as Hbu1 by (unfold burden in *; change (lists s1) with (lists s); lia).
  destruct ok; cbn [negb].
  2: { eapply wp_mono; [|by apply (refile_pending_ok h s1 b)]. intros [] s2 (Hi2 & Hby & Hmi & Hbu). split_and!; [done|by eapply bystander_trans|lia]. }
  apply wp_sb_gets. cbv beta.
  destruct (match erase_answers (env s1) with [] => (0, 0) | a :: _ => a end) as [ret fail] eqn:Ha. eapply wp_then; [reflexivity|].
  set (s2 := on_env take_answer s1). assert (inv h s2) as Hi2 by (by apply (inv_env h s1)).
  assert (misfortunes (env s2) + (if truthy ret then 1 else 0) <= misfortunes (env s1))%nat as Hm2.
  { unfold misfortunes. cbn. destruct (erase_answers (env s)) as [|a l] eqn:He; cbn in Ha |- *; rewrite He in Ha; [injection Ha as <- <-; cbn; lia|cbn; destruct (truthy ret); lia]. }
  assert (bystander s1 s2) as Hb2 by (apply env_bystander; change (take_answer (env s1)) with (env s2); lia).
  assert (burden s2 + 3 * (if truthy ret then 1 else 0) <= burden s1)%nat as Hbu2 by (unfold burden in *; change (lists s2) with (lists s1); lia).
  destruct (truthy ret) eqn:Hr; cbn [negb].
  - destruct (_ || _).
    + eapply wp_mono; [|by apply (refile_pending_ok h s2 b)]. intros [] s3 (Hi3 & Hby & Hmi & Hbu). split_and!; [done|eapply bystander_trans, bystander_trans; done|lia].
    + eapply wp_mono; [|by apply (erase_failed_ok h s2 b)]. intros [] s3 (Hi3 & Hq & _). pose proof (quiet_burden _ _ Hq).
      split_and!; [done|apply (bystander_trans s s1); [done|apply (bystander_trans s1 s2); [done|by apply (quiet_bystander h)]]|lia].
  - eapply wp_mono; [|by apply spin_unlock_ok]. intros [] s4 (Hi4 & Hq). pose proof (quiet_burden _ _ Hq).
    split_and!; [done|apply (bystander_trans s s1); [done|apply (bystander_trans s1 s2); [done|by apply (quiet_bystander h)]]|lia].
Qed.
Lemma counted_out h (s : state) b : inv h s → b ∈ lists s erase_pending_list → counted (b :: h) (on_erasing_size (add32 sector_size) (without b s)).
Proof.
  intros Hi Hb. destruct (inv_counted _ _ Hi) as [Cf Ce Cs Cb].
  assert (∀ x, count (on_erasing_size (add32 sector_size) (without b s)) x = count s x - (if decide (x = erase_pending_list) then 1 else 0)) as Hc.
  { intros x. exact (count_without h s erase_pending_list b x (inv_placed _ _ Hi) Hb). }
  split; rewrite ?Hc; repeat case_decide; try done; cbn [nr_free_blocks nr_erasing_blocks erasing_size bad_size on_erasing_size without on_lists length];
    unfold add32; rewrite ?Cf, ?Ce, ?Cs, ?Cb, ?u32_add_l, ?Nat2Z.inj_succ; f_equal; unfold Z.succ; ring.
Qed.
(** The sizes go to the erasing block. *)
Lemma empty_sizes_ok h (s : state) b j (Q : unit → state → Prop) (k : P unit) :
  inv h s → b ∈ lists s erase_pending_list → blocks s !! b = Some j →
  (∀ s', emptying b h s' → blocks s' = <[b := Block (offset j) zero (phys j) (gc_node j)]> (blocks s) →
     (∃ T, s' = rebooked b (Block (offset j) zero (phys j) (gc_node j)) T (on_erasing_size (add32 sector_size) (without b s))) → wp k s' Q) →
  wp (charge Wasted b (- wasted_size (size j));; charge Free b (- free_size (size j));;
      charge Used b (- used_size (size j));; charge Dirty b (- dirty_size (size j));; k) (on_erasing_size (add32 sector_size) (without b s)) Q.
Proof.
  intros Hi Hb Hj HQ. set (s1 := on_erasing_size _ _). pose proof (inv_blocks _ _ Hi _ _ Hj) as Hjo.
  destruct (inv_shaped _ _ Hi) as (Hl & Hh & Hop). destruct (Hl _ _ _ Hb Hj) as (Hf & Hu & Hun). pose proof (nonneg_get _ (ok_sizes _ _ _ Hjo)) as Hn.
  pose proof (sector_small _ _ _ _ (inv_placed _ _ Hi) Hj). assert (blocks s1 !! b = Some j) as Hj1 by done.
  assert (accounted sector_size s1) as Hacc.
  { destruct (inv_accounted _ _ Hi) as [Hbk Hbal]. split; [done|]. unfold balance in *. change (total s1) with (total s). change (bad_size s1) with (bad_size s).
    change (erasing_size s1) with (u32 (erasing_size s + sector_size)). replace (_ + u32 _ + _) with (sum (total s) + bad_size s + u32 (erasing_size s + sector_size)) by lia.
    rewrite u32_add_r. replace (_ + _ + (_ + _)) with (sum (total s) + erasing_size s + bad_size s + sector_size) by lia. by rewrite <-u32_add_l, Hbal, u32_add_l, Z.add_0_r. }
  rewrite <-(rebooked_id b j s1 Hj1) in Hacc |- *. destruct j as [o [un us d w f] ph g]. unfold full, sum in Hf. cbn in Hf, Hu, Hun, Hn. subst us un.
  cbn [size wasted_size free_size used_size dirty_size].
  eapply wp_charge; [done|exact Hacc|cbn; lia|]. intros T1 H1. eapply wp_charge; [done|exact H1|cbn; lia|]. intros T2 H2.
  eapply wp_charge; [done|exact H2|cbn; lia|]. intros T3 H3. eapply wp_charge; [done|exact H3|cbn; lia|]. intros T4 H4.
  replace (sector_size + _ + _ + _ + _) with 0 in H4 by lia.
  assert (on_size (plus Dirty (- d)) (on_size (plus Used (- 0)) (on_size (plus Free (- f)) (on_size (plus Wasted (- w)) (Block o (Sizes 0 0 d w f) ph g)))) =
    Block o zero ph g) as Hz by (unfold on_size, plus, zero; cbn; do 2 f_equal; lia).
  rewrite Hz in *. apply HQ; [|done|by exists T4]. clear HQ H1 H2 H3 Hz Hacc.
  assert (placed (b :: h) s1) as Hp1 by (apply (placed_without h s erase_pending_list b); [apply Hi|done]).
  set (s2 := rebooked _ _ _ _) in *. assert (same_lists s1 s2) as Hsl by done. assert (length (blocks s2) = length (blocks s1)) as Hlen by (by unfold s2; cbn; rewrite length_insert).
  assert (∀ b' i, blocks s2 !! b' = Some i → (b' = b ∧ i = Block o zero ph g) ∨ (b' ≠ b ∧ blocks s !! b' = Some i)) as Hlook.
  { intros b' i. intros [(Hbb & Hx & _)|[Hne Hi']]%list_lookup_insert_Some; [left; split; [exact (eq_sym Hbb)|exact (eq_sym Hx)]|right; split; [by intros ->|exact Hi']]. }
  destruct (listed_alone _ _ _ _ (inv_placed _ _ Hi) Hb) as (Hbh & Hbn & Hbg).
  split; [done|by apply (placed_same _ s1)| |by apply (counted_same _ s1), counted_out| |apply Hi|].
  - split_and!; [intros n y i Hy|intros y i Hy|intros y i Hy]; intros [[-> ->]|[Hne Hi']]%Hlook; try done.
    + by apply list_elem_of_filter in Hy as [? _].
    + apply list_elem_of_filter in Hy as [_ Hy]. by eapply Hl.
    + by eapply Hh.
    + destruct Hy as [Hy|Hy]; [by destruct (Hbn Hy)|by destruct (Hbg Hy)].
    + by eapply Hop.
  - intros b' i [[-> ->]|[Hne Hi']]%Hlook; [|by apply (inv_blocks _ _ Hi)]. destruct Hjo as [Ho Hz Hal Hsp H4' H5]. cbn in H4', H5. split; cbn; try done.
    + intros []; cbn; lia.
    + eapply spans_weaken; [apply Z.le_refl| |exact Hsp]. cbn. lia.
  - intros b' i [[-> ->]|[Hne Hi']]%Hlook.
    + split; [intros [?|[? _]%list_elem_of_filter]|intros [? _]%list_elem_of_filter]; [by destruct Hbn|done..].
    + destruct (inv_unspoilt _ _ Hi b' i Hi') as [U1 U2]. split; [|by intros [_ ?]%list_elem_of_filter; apply U2].
      intros [?|[_ ?]%list_elem_of_filter]; apply U1; [by left|by right].
Qed.
(** From the hand to a list of blocks that are being erased. *)
Definition blank_block (b : nat) (s : state) : Prop := ∀ j, blocks s !! b = Some j → blank (flash s) (offset j) (Z.to_nat sector_size).
Lemma inv_hand_add h (s : state) b n : inv (b :: h) s → n = erasing_list ∨ n = erase_complete_list → (n = erase_complete_list → blank_block b s) → inv h (added b n s).
Proof.
  intros Hi Hn Hbb. destruct (inv_counted _ _ Hi) as [Cf Ce Cs Cb]. cbn [length] in *. eapply (inv_lists (b :: h)); try done.
  - apply placed_added, Hi.
  - apply shaped_added; [apply (shaped_less (b :: h)); [apply Hi|by right]|]. intros j Hj. destruct (inv_shaped _ _ Hi) as (_ & Hh & _).
    pose proof (Hh b j ltac:(left) Hj). by destruct Hn as [-> | ->].
  - split; rewrite ?count_added; [etransitivity; [exact Cf|]|etransitivity; [exact Ce|]|etransitivity; [exact Cs|]|etransitivity; [exact Cb|]];
      destruct Hn as [-> | ->]; repeat case_decide; try done; f_equal; rewrite ?Nat2Z.inj_succ; unfold Z.succ; try ring.
  - intros y i Hy. destruct (inv_unspoilt _ _ Hi y i Hy) as [U1 U2]. split.
    + cbn. rewrite decide_False by (by destruct Hn as [-> | ->]). exact U1.
    + cbn. case_decide as Hd; [|exact U2]. intros [->|?]%elem_of_cons; [|by apply U2]. by apply Hbb.
Qed.
Lemma start_erase_ok h (s : state) b : inv h s → b ∈ lists s erase_pending_list →
  wp (start_erase b) s (λ _ s', inv h s' ∧ bystander s s' ∧ (burden s' < burden s)%nat).
Proof.
  intros Hi Hb. destruct (place_block _ _ b (inv_placed _ _ Hi)) as [j Hj]; [apply elem_of_app; right; by eapply listed_places|].
  destruct (listed_alone _ _ _ _ (inv_placed _ _ Hi) Hb) as (Hbh & Hbn & Hbg).
  unfold start_erase. eapply wp_list_del; [done|]. eapply wp_then; [reflexivity|]. eapply wp_block; [exact Hj|].
  apply (empty_sizes_ok h s b j _ _ Hi Hb Hj). intros s1 Hem Hbl (T & Hs1). set (j1 := Block (offset j) zero (phys j) (gc_node j)) in *.
  assert (blocks s1 !! b = Some j1) as Hj1 by (rewrite Hbl; apply list_lookup_insert_eq; by eapply lookup_lt_Some).
  apply wp_bind. unfold jffs2_free_all_node_refs. eapply wp_block; [exact Hj1|]. eapply wp_mono; [|by apply free_refs_ok].
  intros [] s2 (Hem2 & Hj2 & (B & R & C & Hs2) & Hoth & Hnodes).
  assert (inv (b :: h) s2) as Hi2 by (apply emptying_inv; [done|]; intros i; rewrite Hj2; by intros [= <-]).
  eapply wp_list_add. pose proof (inv_hand_add h s2 b erasing_list Hi2 (or_introl eq_refl) ltac:(done)) as Hi3. set (s3 := added b erasing_list s2) in *.
  assert (∀ n, lists s3 n = if decide (n = erasing_list) then b :: filter (λ x, x ≠ b) (lists s n) else filter (λ x, x ≠ b) (lists s n)) as Hls
    by (intros n; unfold s3; subst s2 s1; done).
  assert (env s3 = env s) as He by (unfold s3; by subst s2 s1).
  assert (bystander s s3) as Hb3.
  { assert (∀ b', still b' s → b' ≠ b) as Hst by (intros b'; eapply still_listed; [apply Hi|exact Hb|clear; set_solver]).
    split; try (unfold s3; subst s2 s1; done).
    - intros n Hn. rewrite Hls, decide_False by (clear -Hn; set_solver). apply filter_ne_id. intros Hbn'.
      rewrite (one_list h s n erase_pending_list b) in Hn by (done || apply Hi). clear -Hn. set_solver.
    - intros b' i Hb'%Hst Hi'. change (blocks s3) with (blocks s2). rewrite Hoth, Hbl by done. by rewrite list_lookup_insert_ne.
    - intros b' i q Hb'%Hst Hi' Hq. apply (same_node_trans s s1 s3); [apply same_node_eq; by rewrite Hs1|]. apply (Hnodes b' i q Hb'); [|done]. rewrite Hbl. by rewrite list_lookup_insert_ne.
    - intros Hck b' i. change (blocks s3) with (blocks s2). destruct (decide (b' = b)) as [->|Hne]; [rewrite Hj2; by intros [= <-]|].
      rewrite Hoth, Hbl, list_lookup_insert_ne by done. apply Hck.
    - intros b' _. apply preserved_flash. unfold s3. by subst s2 s1. }
  assert (S (burden s3) <= burden s)%nat as Hbu.
  { unfold burden. rewrite He, !Hls. pose proof (count_without h s _ b erase_pending_list (inv_placed _ _ Hi) Hb) as H1.
    pose proof (count_without h s _ b erasing_list (inv_placed _ _ Hi) Hb) as H2. pose proof (count_without h s _ b erase_complete_list (inv_placed _ _ Hi) Hb) as H3.
    unfold count in *. cbn [lists without on_lists] in *. repeat case_decide; try done. cbn [length]. lia. }
  eapply wp_mono; [|apply (erase_block_ok h s3 b Hi3); rewrite Hls, decide_True by done; left].
  intros [] s4 (Hi4 & Hb4 & Hbu4). split_and!; [done|by eapply bystander_trans|lia].
Qed.

(** *** Looking at the erased block *)
Lemma check_pages_eq fuel ofs last ret bad (s : state) : (Z.to_nat (last - ofs) < fuel)%nat →
  ∃ code bad', check_pages fuel ofs last ret bad s = Some ((code, bad'), s) ∧ (code = 0 ∨ ∃ o n, code = (mtd_read (flash s) o n).1).
Proof.
  revert ofs ret bad. induction fuel as [|fuel IH]; intros ofs ret bad Hf; [lia|]. cbn [check_pages].
  destruct (Z.ltb_spec ofs last) as [Hlt|Hge]; cbn [negb]; [|exists 0, bad; split; [done|by left]].
  unfold jffs2_flash_read, gets, mbind, SM_bind. cbv zeta. set (n := Z.min PAGE_SIZE (last - ofs)). destruct (mtd_read (flash s) ofs n) as [r buf] eqn:Hr.
  assert (∀ b : Z, ∃ code bad' : Z, (mret (r, b) : P (Z * Z)) s = Some ((code, bad'), s) ∧ (code = 0 ∨ ∃ o n, code = (mtd_read (flash s) o n).1)) as Hend.
  { intros b. exists r, b. split; [done|]. right. exists ofs, n. by rewrite Hr. }
  destruct (truthy r); [apply Hend|]. destruct (negb _); [apply Hend|]. destruct (words _ _ _); [apply Hend|].
  apply IH. unfold n, PAGE_SIZE. lia.
Qed.
(** The driver does not answer -EAGAIN to a read. *)
Definition prompt : Prop := ∀ (f : F) o n, (mtd_read f o n).1 ≠ - EAGAIN.
Lemma block_check_ok h (s : state) b j (Q : Z * Z → state → Prop) :
  placed h s → blocks s !! b = Some j → offset j = Z.of_nat b * sector_size →
  (∀ (code bad : Z) s', s' = on_env take_memory s → (misfortunes (env s') + (if (code =? - EAGAIN)%Z then 1 else 0) <= misfortunes (env s))%nat →
     Q (code, bad) s') → prompt →
  wp (jffs2_block_check_erase b) s Q.
Proof.
  intros Hp Hj Ho HQ Hpr. unfold jffs2_block_check_erase. apply wp_kmalloc. intros ok s1 Hs1 Hm. destruct ok; cbn [negb].
  - assert (blocks s1 !! b = Some j) as Hj1 by (by rewrite Hs1). eapply wp_block; [exact Hj1|]. pose proof (sector_small _ _ _ _ Hp Hj). pose proof sector_pos.
    destruct (check_pages_eq (S (Z.to_nat sector_size)) (offset j) (u32 (offset j + sector_size)) (- EIO) 0 s1) as (code & bad & Hc & Hcode).
    { rewrite u32_small by lia. lia. }
    eapply wp_eq; [exact Hc|]. apply HQ; [done|]. destruct (Z.eqb_spec code (- EAGAIN)) as [He|]; [|lia]. destruct Hcode as [->|(o & n & ->)]; [done|]. by destruct (Hpr (flash s1) o n).
  - apply wp_ret, HQ; [done|]. rewrite Z.eqb_refl. lia.
Qed.

(** *** The ways out of [jffs2_mark_erased_block] *)
Lemma bystander_hand h (s : state) b n : inv (b :: h) s → n ∈ [erasing_list; erase_complete_list] → bystander s (added b n s).
Proof.
  intros Hi Hn. apply bystander_same; try done; [|intros y _; by apply preserved_flash]. intros m Hm. cbn. rewrite decide_False; [done|]. clear -Hn Hm. set_solver.
Qed.
Lemma refile_complete_ok h (s : state) b : inv (b :: h) s → blank_block b s →
  wp (refile_complete b) s (λ _ s', inv h s' ∧ bystander s s' ∧ burden s' = S (burden s)).
Proof.
  intros Hi Hbb. apply (wp_eq _ _ tt (added b erase_complete_list s)); [done|]. split_and!; [apply inv_hand_add; auto|by eapply bystander_hand; [|set_solver]|].
  unfold burden, added. cbn [lists env on_lists]. repeat case_decide; try done; cbn [length]; lia.
Qed.
Lemma file_bad_ok h (s : state) b : inv (b :: h) s →
  wp (file_bad b) s (λ _ s', inv h s' ∧ bystander s s' ∧ (burden s' <= burden s)%nat).
Proof.
  intros Hi. eapply wp_list_add. set (s1 := added b erasing_list s). assert (inv h s1) as Hi1 by (by apply inv_hand_add; [|left|]).
  assert (burden s1 = S (burden s)) as Hbu by (unfold burden, s1, added; cbn [lists env on_lists]; repeat case_decide; try done; cbn [length]; lia).
  eapply wp_mono; [|apply (erase_failed_ok h s1 b Hi1); left]. intros [] s2 (Hi2 & Hq & Hless).
  split_and!; [done|apply (bystander_trans s s1); [apply (bystander_hand h s b erasing_list Hi); set_solver|by apply (quiet_bystander h)]|].
  pose proof (kp_misfortunes _ _ (q_kept _ _ Hq)). pose proof (q_lists _ _ Hq erase_pending_list ltac:(set_solver)) as Hp.
  unfold burden, count in *. rewrite Hp. lia.
Qed.
(** A free block with its clean marker, if there are markers. *)
Definition marker (b : nat) (l : list nat) (R : gmap nat raw_ref) : Prop :=
  cleanmarker_size = 0 ∧ l = [] ∨
  0 < cleanmarker_size ∧ ∃ r, l = [r] ∧ R !! r = Some (Ref (Z.of_nat b * sector_size ||| REF_NORMAL) cleanmarker_size Null).
Definition fresh_block (j : eraseblock) (l : list nat) : eraseblock :=
  Block (offset j) (Sizes 0 cleanmarker_size 0 0 (sector_size - cleanmarker_size)) l (gc_node j).
Lemma fresh_block_ok h (s : state) b j l : placed h s → blocks s !! b = Some j → jeb_ok (refs s) b j → marker b l (refs s) →
  jeb_ok (refs s) b (fresh_block j l) ∧ shape (refs s) free_list (fresh_block j l).
Proof.
  intros Hp Hj Hjo Hl. pose proof (sector_small _ _ _ _ Hp Hj) as Hsm. pose proof sector_pos. pose proof geo_marker as Hcm. pose proof (ok_offset _ _ _ Hjo) as Ho.
  split; [split; cbn [offset size phys free_size used_size unchecked_size fresh_block]; [done|intros []; cbn; lia|by rewrite Zminus_mod, sector_aligned, geo_aligned|..]|split_and!; [unfold full, sum; cbn; lia|done|done|]].
  4: { intros r x Hr Hx. destruct Hl as [[_ ->]|(_ & q & -> & Hq)]; [by apply elem_of_nil in Hr|]. apply list_elem_of_singleton in Hr as ->. by simplify_eq. }
  all: destruct Hl as [[Hz ->]|(Hz & q & -> & Hq)]; [try done; cbn [spans]; lia|].
  all: destruct (made_ref (Z.of_nat b * sector_size) REF_NORMAL cleanmarker_size Null) as (Hok & Hof & Hfl); [done|lia|pose proof sector_pos; lia|rewrite Z.mul_mod, sector_aligned, Z.mul_0_r by lia; done|exact geo_aligned|].
  all: assert (class_of (Ref (Z.of_nat b * sector_size ||| REF_NORMAL) cleanmarker_size Null) = Used) as Hcl by (unfold class_of; by rewrite ref_obsolete_flags, Hfl).
  - cbn [spans]. eexists. split_and!; [exact Hq|done|cbn; lia|rewrite Hof; lia|rewrite Hof; cbn; lia].
  - rewrite (live_cons _ _ _ _ _ Hq), Hcl, decide_True by done. change (live (refs s) Used []) with 0. cbn [totlen]. lia.
  - rewrite (live_cons _ _ _ _ _ Hq), Hcl, decide_False by done. done.
Qed.
(** The books with the new block, before it is on [free_list]. *)
Definition refilled (b : nat) (j : eraseblock) (l : list nat) (s : state) : state :=
  on_total (λ t, upd Used (add32 cleanmarker_size) (upd Free (add32 (sector_size - cleanmarker_size)) t))
    (on_erasing_size (add32 (- sector_size)) (on_blocks (λ bl, <[b := fresh_block j l]> bl) s)).
Lemma refilled_accounted h (s : state) b j l : inv h s → blocks s !! b = Some j → emptied j → accounted 0 (refilled b j l s).
Proof.
  intros Hi Hj [Hz _]. destruct (inv_accounted _ _ Hi) as [Hbk Hbal]. split.
  - intros k. change (blocks (refilled b j l s)) with (<[b := fresh_block j l]> (blocks s)). rewrite (column_insert k s b _ j Hj), Hz. specialize (Hbk k).
    change (total (refilled b j l s)) with (upd Used (add32 cleanmarker_size) (upd Free (add32 (sector_size - cleanmarker_size)) (total s))).
    rewrite !get_upd. unfold add32. destruct k; repeat case_decide; try done; cbn [get size fresh_block] in *; rewrite Hbk, ?u32_add_l; f_equal; cbn; lia.
  - unfold balance in *. change (total (refilled b j l s)) with (upd Used (add32 cleanmarker_size) (upd Free (add32 (sector_size - cleanmarker_size)) (total s))).
    change (erasing_size (refilled b j l s)) with (u32 (erasing_size s + - sector_size)). change (bad_size (refilled b j l s)) with (bad_size s).
    rewrite !sum_upd, !(get_upd_ne Used Free) by done. unfold add32. set (f := get Free (total s)). set (u := get Used (total s)).
    replace (_ + bad_size s) with (sum (total s) - f - u + bad_size s + u32 (f + (sector_size - cleanmarker_size)) + u32 (u + cleanmarker_size) + u32 (erasing_size s + - sector_size)) by lia.
    rewrite u32_add_r, <-(u32_add_l (_ + u32 (u + _))), u32_add_r, u32_add_l.
    replace (_ + _ + (erasing_size s + - sector_size)) with (sum (total s) - f - u + bad_size s + (u + cleanmarker_size) + (erasing_size s + - sector_size) + u32 (f + (sector_size - cleanmarker_size))) by lia.
    rewrite u32_add_r, <-Hbal. f_equal. lia.
Qed.
Lemma refilled_free h (s : state) b j l : inv (b :: h) s → blocks s !! b = Some j → marker b l (refs s) → writable_tail (flash s) (fresh_block j l) →
  let s' := on_nr_free_blocks (add32 1) (on_nr_erasing_blocks (add32 (-1)) (added_tail b free_list (refilled b j l s))) in
  inv h s' ∧ bystander s s' ∧ burden s' = burden s.
Proof.
  intros Hi Hj Hl Hw s'. pose proof (inv_placed _ _ Hi) as Hp. pose proof (placed_NoDup _ _ Hp) as [Hbn _]%NoDup_cons. rewrite elem_of_app in Hbn.
  destruct (inv_shaped _ _ Hi) as (_ & Hh & _). destruct (fresh_block_ok _ s b j l Hp Hj (inv_blocks _ _ Hi _ _ Hj) Hl) as [Hjo Hsh].
  assert (blocks s' = <[b := fresh_block j l]> (blocks s)) as Hbl by done.
  split_and!; [|split; try done; [| |intros; by apply same_node_eq| |]|].
  - eapply (inv_rehome (b :: h) h s s' b j (fresh_block j l) free_list Hi Hj Hbl).
    + intros n y. cbn. case_decide as Hn; [subst n; rewrite elem_of_app, list_elem_of_singleton|]; [intros [Hy| ->]; [|by right]|intros Hy]; left; (split; [|done]); intros ->;
        apply Hbn; right; by eapply listed_places.
    + intros y Hy. split; [|by right]. intros ->. apply Hbn. by left.
    + intros y Hy. split; [|done]. intros ->. apply (open_alone _ _ _ Hp) in Hy as [Hy _]. apply Hy. left.
    + apply (placed_added_tail h (refilled b j l s)). apply (placed_eq _ s); [done..| |done]. unfold refilled. cbn. by rewrite length_insert.
    + destruct (inv_counted _ _ Hi) as [Cf Ce Cs Cb]. cbn [length] in *. assert (∀ x, count s' x = count s x + (if decide (x = free_list) then 1 else 0)) as Hc
        by (intros x; exact (count_added_tail (refilled b j l s) free_list b x)).
      split; rewrite ?Hc; repeat case_decide; try done; cbn; unfold add32; rewrite ?Cf, ?Ce, ?Cs, ?Cb, ?u32_add_l; f_equal; rewrite ?Nat2Z.inj_succ; unfold Z.succ; ring.
    + exact (refilled_accounted _ s b j l Hi Hj (Hh b j ltac:(left) Hj)).
    + intros q x Hx Hn. by exists x.
    + intros b' i _ Hi'. by apply (inv_blocks _ _ Hi).
    + exact Hjo.
    + exact Hsh.
    + apply Hi.
    + done.
    + done.
    + done.
    + done.
  - intros n Hn. cbn. rewrite decide_False; [done|]. clear -Hn. set_solver.
  - intros b' i Hb' Hi'. rewrite Hbl. rewrite list_lookup_insert_ne; [done|]. apply not_eq_sym. by eapply still_hand.
  - by apply (checked_insert s s' b (fresh_block j l) Hbl).
  - intros y _. by apply preserved_flash.
  - done.
Qed.
Lemma file_free_ok h (s : state) b l free : inv (b :: h) s → free = sector_size - cleanmarker_size → marker b l (refs s) →
  (∀ j, blocks s !! b = Some j → writable_tail (flash s) (fresh_block j l)) →
  wp (file_free b l free cleanmarker_size) s (λ _ s', inv h s' ∧ bystander s s' ∧ (burden s' <= burden s)%nat).
Proof.
  intros Hi -> Hl Hw. destruct (place_block _ _ b (inv_placed _ _ Hi)) as [j Hj]; [left|].
  destruct (inv_shaped _ _ Hi) as (_ & Hh & _). pose proof (Hh b j ltac:(left) Hj) as [Hz Hph].
  destruct (fresh_block_ok _ s b j l (inv_placed _ _ Hi) Hj (inv_blocks _ _ Hi _ _ Hj) Hl) as [Hjo [Hfull _]].
  unfold file_free. do 8 (eapply wp_then; [reflexivity|]). cbv beta.
  match goal with |- wp _ ?s1 _ => assert (s1 = refilled b j l s) as -> end.
  { apply sb_ext; try reflexivity. cbn [blocks on_blocks on_total on_erasing_size refilled]. rewrite !list_alter_alter_eq, (alter_is_insert _ _ _ _ Hj).
    f_equal. unfold fresh_block, on_size, on_phys. cbn. by rewrite Hz. }
  assert (placed (b :: h) (refilled b j l s)) as Hp1 by (apply (placed_eq _ s); [done..| |apply Hi]; unfold refilled; cbn; by rewrite length_insert).
  eapply wp_then; [apply (acct_checks_eq b (fresh_block j l) (b :: h)); [done|apply list_lookup_insert_eq; by eapply lookup_lt_Some|done|done|]|].
  { apply accounted_balance. exact (refilled_accounted _ s b j l Hi Hj (conj Hz Hph)). }
  do 3 (eapply wp_then; [reflexivity|]). destruct (refilled_free h s b j l Hi Hj Hl (Hw j Hj)) as (Hi1 & Hb1 & Hbu1).
  eapply wp_mono; [|exact (spin_unlock_ok h _ Hi1)]. intros [] s2 [Hi2 Hq]. pose proof (quiet_burden _ _ Hq).
  split_and!; [done|eapply bystander_trans; [exact Hb1|by apply (quiet_bystander h)]|lia].
Qed.
(** A reference that no block and no inode has. *)
Definition unused (r : nat) (s : state) : Prop :=
  (∀ b j, blocks s !! b = Some j → r ∉ phys j) ∧ ∀ x, refs s !! r = Some x → next_in_ino x = Null.
Lemma unused_chain r (s : state) l ns i R' : unused r s → (∀ q, q ≠ r → R' !! q = refs s !! q) → seg (refs s) l ns (ToCache i) → seg R' l ns (ToCache i).
Proof.
  intros [_ Hr] HR Hs. eapply seg_frame; [|exact Hs]. intros q y Hq Hy. exists y. split; [|done]. rewrite HR; [done|]. intros ->.
  destruct (seg_elem _ _ _ _ _ Hs Hq) as (z & Hz & Hzn). by destruct (Hzn (Hr z Hz)).
Qed.
Lemma inv_unused h (s : state) r R' : inv h s → unused r s → (∀ q, q ≠ r → R' !! q = refs s !! q) → (∀ x, R' !! r = Some x → next_in_ino x = Null) →
  inv h (on_refs (λ _, R') s).
Proof.
  intros Hi Hun HR Hr. destruct Hi as [Hbk Hbal Hp (Hl & Hh & Ho) Hct Hj [H1 H2] Huns].
  assert (no_joining (refs s) R') as Hno.
  { intros q y Hy Hyn. destruct (decide (q = r)) as [->|Hq]; [by destruct (Hyn (Hr y Hy))|]. rewrite HR in Hy by done. by exists y. }
  split; try done.
  - split_and!; try done. intros n b j Hn Hb. eapply shape_no_joining; [exact Hno|by eapply Hl].
  - by apply (counted_same h s).
  - intros b j Hb. destruct (same_except (refs s) R' (phys j)) as [? ?]; [|apply (jeb_ok_agree (refs s)); [done..|by apply Hj]]. intros q Hq. apply HR. intros ->.
    by apply (proj1 Hun b j Hb).
  - split.
    + intros i c Hc. destruct (H1 i c Hc) as [ns Hn]. exists ns. by eapply unused_chain.
    + intros q y Hy Hyn. destruct (decide (q = r)) as [->|Hq]; [by destruct (Hyn (Hr y Hy))|]. cbn in Hy. rewrite HR in Hy by done.
      destruct (H2 q y Hy Hyn) as (i & c & ns & ? & ? & ?). exists i, c, ns. split_and!; [done|by eapply unused_chain|done].
Qed.
Lemma fresh_ref_unused h (s : state) : inv h s → let r := fresh (elements (dom (refs s))) in refs s !! r = None ∧ unused r s.
Proof.
  intros Hi r. assert (refs s !! r = None) as Hn.
  { apply not_elem_of_dom. pose proof (infinite_is_fresh (elements (dom (refs s)))) as Hf. by rewrite elem_of_elements in Hf. }
  split; [done|]. split; [|intros x Hx; congruence]. intros b j Hb Hr.
  destruct (spans_elem _ _ _ _ _ (ok_spans _ _ _ (inv_blocks _ _ Hi _ _ Hb)) Hr) as (x & Hx & _). congruence.
Qed.
Lemma unused_bystander (s : state) r R' f : unused r s → (∀ q, q ≠ r → R' !! q = refs s !! q) → (∀ b, still b s → preserved b s (on_flash (λ _, f) s)) →
  bystander s (on_flash (λ _, f) (on_refs (λ _, R') s)).
Proof.
  intros Hun HR Hf. split; try done. intros b j q _ Hj Hq. assert (q ≠ r) as Hqr by (intros ->; by eapply (proj1 Hun)). split.
  - intros x Hx. exists x. cbn. by rewrite HR.
  - intros i (c & ns & Hc & Hns & Hin). exists c, ns. split_and!; [done| |done]. by eapply unused_chain.
Qed.
(** What the driver may do in a write of several parts: it touches no more than their room; nothing written is
    nothing changed; all of it written, to blank flash, is stored. *)
Record written (f f' : F) (o : Z) (b : list Z) (ret retlen : Z) : Prop := Written {
  wr_touched : touched f f' o (Z.of_nat (length b)); wr_least : 0 <= retlen;
  wr_none : retlen = 0 → ∀ o' l, stored f o' l → stored f' o' l;
  wr_all : ret = 0 → retlen = Z.of_nat (length b) → blank f o (length b) → stored f' o b }.
Lemma fake_writev_written (f : F) vecs o k : 0 <= k →
  let '(ret, retlen, f') := Node.mtd_fake_writev f vecs o k in written f f' o (concat vecs) ret (retlen - k).
Proof.
  revert f o k. induction vecs as [|v vecs IH]; intros f o k Hk; cbn [Node.mtd_fake_writev concat].
  { split; [by intros o' l Hs _|lia|done|]. intros _ _ _ ofs n got i x _ _ Hi. by rewrite lookup_nil in Hi. }
  destruct (Z.eqb_spec (Z.of_nat (length v)) 0) as [Hv|Hv]; [destruct v; [by apply IH|done]|].
  destruct (mtd_write f o v) as [[ret n] f1] eqn:Hw. cbv zeta. pose proof (law_retlen _ _ _ _ _ _ Hw) as Hn.
  assert (touched f f1 o (Z.of_nat (length v))) as Ht1 by (intros o' l Hs Ho; by eapply law_elsewhere).
  assert (touched f f1 o (Z.of_nat (length (v ++ concat vecs)))) as Ht by (eapply touched_more; [exact Ht1|rewrite length_app; lia]).
  assert (∀ o' l, n = 0 → stored f o' l → stored f1 o' l) as Hnone by (intros o' l -> Hs; by eapply law_unwritten).
  destruct (truthy ret || negb (n =? Z.of_nat (length v))) eqn:Hbad.
  - split; [done|lia|intros Hz o' l; apply Hnone; lia|]. intros -> Hlen. exfalso. rewrite length_app in Hlen. cbn in Hbad.
    apply negb_true_iff, Z.eqb_neq in Hbad. lia.
  - apply orb_false_iff in Hbad as [Hret Hfull%negb_false_iff%Z.eqb_eq]. assert (ret = 0) as -> by (unfold truthy in Hret; lia). subst n.
    specialize (IH f1 (o + Z.of_nat (length v)) (k + Z.of_nat (length v)) ltac:(lia)).
    destruct (Node.mtd_fake_writev f1 vecs _ _) as [[ret2 n2] f2]. destruct IH as [Ht2 Hl2 _ Hall2]. split.
    + rewrite length_app, Nat2Z.inj_add. eapply touched_trans; [lia|lia|done|done].
    + lia.
    + lia.
    + intros -> Hlen Hb. unfold blank in Hb. rewrite length_app, replicate_add, stored_app, length_replicate in Hb. destruct Hb as [Hb1 Hb2].
      rewrite length_app in Hlen. apply stored_app. split.
      * apply Ht2; [by eapply law_program|]. lia.
      * apply Hall2; [done|lia|]. apply Ht1; [done|]. lia.
Qed.
Lemma fake_writev_eq (s : state) v o : ∃ ret retlen f, jffs2_flash_direct_writev v o s = Some ((ret, retlen), on_flash (λ _, f) s) ∧
  written (flash s) f o (concat v) ret retlen.
Proof.
  unfold jffs2_flash_direct_writev. pose proof (fake_writev_written (flash s) v o 0 ltac:(done)) as Hw. destruct (Node.mtd_fake_writev _ _ _ _) as [[ret retlen] f].
  exists ret, retlen, f. split; [done|]. by rewrite Z.sub_0_r in Hw.
Qed.
(** A write to the block in hand. *)
Lemma inv_hand_write h (s : state) b j n f : inv (b :: h) s → blocks s !! b = Some j → touched (flash s) f (offset j) n → 0 <= n <= sector_size →
  inv (b :: h) (on_flash (λ _, f) s) ∧ ∀ y, y ≠ b → preserved y s (on_flash (λ _, f) s).
Proof.
  intros Hi Hb Ht Hn. pose proof (ok_offset _ _ _ (inv_blocks _ _ Hi _ _ Hb)) as Ho. pose proof (inv_shaped _ _ Hi) as (_ & Hh & _).
  destruct (Hh b j ltac:(left) Hb) as [Hz _]. split.
  - apply (inv_touched (b :: h) s b j (offset j) n f Hi Hb Ht); [lia|lia|rewrite Hz; cbn; lia|]. intros Hc.
    destruct (listed_alone _ _ _ _ (inv_placed _ _ Hi) Hc) as [Hnb _]. apply Hnb. left.
  - intros y Hy. apply (preserved_touched b y s (on_flash (λ _, f) s) (offset j) n); [done|done|lia|lia].
Qed.
Lemma length_clean_marker : length clean_marker = 12%nat.
Proof. unfold clean_marker, Layout.pack, header_widths. cbn [zip_with concat app]. rewrite !length_app. cbn. done. Qed.
Lemma blank_tail (f : F) j l : blank f (offset j) (Z.to_nat sector_size) → 0 <= cleanmarker_size <= sector_size → writable_tail f (fresh_block j l).
Proof.
  intros Hb Hc. unfold writable_tail, fresh_block. cbn [offset size free_size]. unfold blank in *.
  replace (Z.to_nat sector_size) with (Z.to_nat cleanmarker_size + Z.to_nat (sector_size - cleanmarker_size))%nat in Hb by lia.
  rewrite replicate_add, stored_app, length_replicate in Hb. destruct Hb as [_ Hb]. by replace (_ - (sector_size - cleanmarker_size)) with (offset j + Z.of_nat (Z.to_nat cleanmarker_size)) by lia.
Qed.
(** The marker is written, and the block is free, or bad. *)
Lemma write_marker_ok h (s : state) b j r : inv (b :: h) s → blank_block b s → blocks s !! b = Some j → unused r s → cleanmarker_size ≠ 0 →
  wp (j ← block b;
      '(ret, retlen) ← jffs2_flash_direct_writev [clean_marker] (offset j);
      if truthy ret || negb (retlen =? sizeof_unknown_node) then jffs2_free_raw_node_ref r;; file_bad b
      else
        on_raw r (λ _, Ref (offset j ||| REF_NORMAL) cleanmarker_size Null);;
        file_free b [r] (u32 (sector_size - cleanmarker_size)) cleanmarker_size) (on_refs <[r := Ref 0 0 Null]> s)
    (λ _ s', inv h s' ∧ bystander s s' ∧ (burden s' <= burden s)%nat).
Proof.
  intros Hi Hbb Hj Hun Hcm. assert (12 <= cleanmarker_size <= sector_size) as Hcs by (destruct geo_marker; lia).
  eapply wp_block; [exact Hj|]. set (s1 := on_refs _ s). destruct (fake_writev_eq s1 [clean_marker] (offset j)) as (ret & retlen & f & Hw & Hwr).
  eapply wp_then; [exact Hw|]. cbv beta iota. pose proof sector_pos. pose proof (sector_small _ _ _ _ (inv_placed _ _ Hi) Hj).
  pose proof (ok_offset _ _ _ (inv_blocks _ _ Hi _ _ Hj)) as Ho. pose proof (wr_touched _ _ _ _ _ _ Hwr) as Ht. change (flash s1) with (flash s) in Ht.
  cbn [concat] in Ht. rewrite app_nil_r, length_clean_marker in Ht. change (Z.of_nat 12) with 12 in Ht.
  destruct (inv_hand_write h s b j 12 f Hi Hj Ht ltac:(lia)) as [Hif Hpf]. assert (∀ y, still y s → preserved y s (on_flash (λ _, f) s)) as Hst.
  { intros y Hy. apply Hpf. eapply still_hand; [apply Hi|done]. }
  destruct (_ || _).
  - apply (wp_free r (Ref 0 0 Null)); [apply lookup_insert_eq|]. set (s2 := on_refs (delete r) _). assert (inv (b :: h) s2) as Hi2.
    { apply (inv_unused _ (on_flash (λ _, f) s) r (delete r (<[r := Ref 0 0 Null]> (refs s)))); [done|done| |].
      - intros q Hq. cbn. by rewrite lookup_delete_ne, lookup_insert_ne.
      - intros x. by rewrite lookup_delete_eq. }
    eapply wp_mono; [|by apply file_bad_ok]. intros [] s3 (? & ? & ?). split_and!; [done|apply (bystander_trans s s2); [|done]|done].
    change (bystander s (on_flash (λ _, f) (on_refs (λ _, delete r (<[r := Ref 0 0 Null]> (refs s))) s))). apply (unused_bystander s r); [done| |done]. intros q Hq. by rewrite lookup_delete_ne, lookup_insert_ne.
  - eapply wp_then; [reflexivity|]. set (s2 := on_refs (alter _ r) _). assert (refs s2 !! r = Some (Ref (offset j ||| REF_NORMAL) cleanmarker_size Null)) as Hr2.
    { cbn. by rewrite lookup_alter_eq, lookup_insert_eq. }
    assert (inv (b :: h) s2) as Hi2.
    { apply (inv_unused _ (on_flash (λ _, f) s) r (refs s2)); [done|done| |].
      - intros q Hq. cbn. by rewrite lookup_alter_ne, lookup_insert_ne.
      - intros x. rewrite Hr2. by intros [= <-]. }
    rewrite u32_small by lia. eapply wp_mono; [|apply file_free_ok; [exact Hi2|done|right; split; [lia|]; exists r; split; [done|]; by rewrite <-Ho|]].
    + intros [] s3 (? & ? & ?). split_and!; [done|apply (bystander_trans s s2); [|done]|done].
      change (bystander s (on_flash (λ _, f) (on_refs (λ _, refs s2) s))). apply (unused_bystander s r); [done| |done]. intros q Hq. cbn. by rewrite lookup_alter_ne, lookup_insert_ne.
    + intros i Hi'. assert (i = j) as -> by (change (blocks s2) with (blocks s) in Hi'; congruence).
      apply Ht; [by apply blank_tail; [apply Hbb|lia]|]. right. cbn [offset size free_size fresh_block]. lia.
Qed.
(** [jffs2_mark_erased_block], for the block in hand. *)
Lemma mark_erased_ok h (s : state) b : inv (b :: h) s → blank_block b s → prompt →
  wp (jffs2_mark_erased_block b) s (λ _ s', inv h s' ∧ bystander s s' ∧ (burden s' <= burden s)%nat).
Proof.
  intros Hi Hbb Hpr. destruct (place_block _ _ b (inv_placed _ _ Hi)) as [j Hj]; [left|]. pose proof (inv_blocks _ _ Hi _ _ Hj) as Hjo.
  unfold jffs2_mark_erased_block. apply wp_bind. eapply (block_check_ok _ _ _ _ _ (inv_placed _ _ Hi) Hj (ok_offset _ _ _ Hjo)); [|done].
  intros code bad s1 Hs1 Hm1. cbv beta. assert (inv (b :: h) s1) as Hi1 by (rewrite Hs1; by apply (inv_env _ s)).
  assert (bystander s s1) as Hb1 by (rewrite Hs1 in *; apply env_bystander; change (take_memory (env s)) with (env (on_env take_memory s)); lia).
  assert (burden s1 + 3 * (if (code =? - EAGAIN)%Z then 1 else 0) <= burden s)%nat as Hbu1 by (rewrite Hs1 in *; unfold burden in *; cbn [lists on_env]; lia).
  assert (blocks s1 !! b = Some j) as Hj1 by (by rewrite Hs1). assert (blank_block b s1) as Hbb1 by (rewrite Hs1; exact Hbb). clear Hs1 Hm1.
  assert (∀ m : P unit, wp m s1 (λ _ s', inv h s' ∧ bystander s1 s' ∧ (burden s' <= burden s)%nat) →
    wp m s1 (λ _ s', inv h s' ∧ bystander s s' ∧ (burden s' <= burden s)%nat)) as Hfrom.
  { intros m Hm. eapply wp_mono; [|exact Hm]. intros [] s' (? & ? & ?). split_and!; [done|by eapply bystander_trans|done]. }
  apply Hfrom. clear Hfrom. destruct (code =? - EAGAIN).
  { eapply wp_mono; [|by apply refile_complete_ok]. intros [] s2 (? & ? & Hbu). split_and!; [done|done|lia]. }
  assert (burden s1 <= burden s)%nat as Hbu by lia. clear Hbu1. destruct (code =? - EIO).
  { eapply wp_mono; [|by apply file_bad_ok]. intros [] s2 (? & ? & ?). split_and!; [done|done|lia]. }
  destruct (Z.eqb_spec cleanmarker_size 0) as [Hcm|Hcm].
  { replace (file_free b [] sector_size 0) with (file_free (F := F) b [] sector_size cleanmarker_size) by (by rewrite Hcm). eapply wp_mono; [|apply file_free_ok; [done|lia|by left|intros i Hi'; apply blank_tail; [by apply Hbb1|pose proof sector_pos; lia]]]. intros [] s2 (? & ? & ?). split_and!; [done|done|lia]. }
  unfold jffs2_alloc_raw_node_ref. apply wp_bind, wp_kmalloc. intros ok s2 Hs2 Hm2.
  assert (inv (b :: h) s2) as Hi2 by (rewrite Hs2; by apply (inv_env _ s1)).
  assert (bystander s1 s2) as Hb2 by (rewrite Hs2 in *; apply env_bystander; change (take_memory (env s1)) with (env (on_env take_memory s1)); lia).
  assert (burden s2 + 3 * (if ok then 0 else 1) <= burden s1)%nat as Hbu2 by (rewrite Hs2 in *; unfold burden in *; cbn [lists on_env]; lia).
  assert (blocks s2 !! b = Some j) as Hj2 by (by rewrite Hs2). assert (blank_block b s2) as Hbb2 by (rewrite Hs2; exact Hbb1). clear Hs2 Hm2. destruct ok.
  2: { apply wp_ret. eapply wp_mono; [|by apply refile_complete_ok]. intros [] s3 (? & ? & ?). split_and!; [done|by eapply bystander_trans|lia]. }
  apply wp_sb_gets. cbv beta. eapply wp_then; [reflexivity|]. apply wp_ret. set (r := fresh _). destruct (fresh_ref_unused _ s2 Hi2) as [Hr Hun]. fold r in Hr, Hun.
  eapply wp_mono; [|by apply (write_marker_ok h s2 b j r)]. intros [] s3 (? & ? & ?). split_and!; [done|by eapply bystander_trans|lia].
Qed.

(** *** [jffs2_erase_pending_blocks] *)

(** From [erase_complete_list] to the hand. *)
Lemma inv_take_complete h (s : state) b : inv h s → b ∈ lists s erase_complete_list → inv (b :: h) (without b s) ∧ blank_block b (without b s).
Proof.
  intros Hi Hb. split; [|intros j Hj; by apply (inv_unspoilt _ _ Hi b j Hj)]. destruct (inv_shaped _ _ Hi) as (Hl & _). destruct (inv_counted _ _ Hi) as [Cf Ce Cs Cb].
  assert (∀ x, count (without b s) x = count s x - (if decide (x = erase_complete_list) then 1 else 0)) as Hc by (intros x; by apply (count_without h); [apply Hi|]).
  eapply (inv_lists h); try done.
  - apply (placed_without h s erase_complete_list); [apply Hi|done].
  - apply shaped_hand; [apply shaped_without, Hi|]. intros j Hj. exact (Hl _ _ _ Hb Hj).
  - split; rewrite ?Hc; [etransitivity; [exact Cf|]|etransitivity; [exact Ce|]|etransitivity; [exact Cs|]|etransitivity; [exact Cb|]];
      repeat case_decide; try done; f_equal; cbn [length]; rewrite ?Nat2Z.inj_succ; unfold Z.succ; ring.
  - apply (unspoilt_same h s); try done; [intros y [?|[_ ?]%list_elem_of_filter]; [by left|by right]|by intros y [_ ?]%list_elem_of_filter].
Qed.
(** Anything to do: the turn makes the burden less. *)
Definition busy (s : state) : Prop := lists s erase_complete_list ≠ [] ∨ lists s erase_pending_list ≠ [].
Lemma erase_loop_ok h fuel count (s : state) : inv h s → prompt → (burden s < fuel)%nat →
  wp (erase_loop fuel count) s (λ _ s', inv h s' ∧ bystander s s' ∧ (burden s' <= burden s)%nat ∧ (busy s → (burden s' < burden s)%nat) ∧
    (count <= 0 → lists s' erase_pending_list = [])).
Proof.
  revert count s. induction fuel as [|fuel IH]; intros count s Hi Hpr Hf; [lia|]. cbn [erase_loop]. apply wp_sb_gets. cbn [id].
  assert (∀ count' s1, (count <= 0 → count' <= 0) → inv h s1 → bystander s s1 → (burden s1 < burden s)%nat → wp (erase_loop fuel count') s1 (λ _ s',
    inv h s' ∧ bystander s s' ∧ (burden s' <= burden s)%nat ∧ (busy s → (burden s' < burden s)%nat) ∧ (count <= 0 → lists s' erase_pending_list = []))) as Hgo.
  { intros count' s1 Hct Hi1 Hb1 Hbu. eapply wp_mono; [|apply IH; [done|done|lia]]. intros [] s2 (? & ? & ? & _ & ?). split_and!; [done|by eapply bystander_trans|lia|lia|auto]. }
  destruct (lists s erase_complete_list) as [|b l] eqn:Hc; [destruct (lists s erase_pending_list) as [|b l] eqn:Hp|].
  - eapply wp_mono; [|by apply spin_unlock_ok]. intros [] s1 [Hi1 Hq]. pose proof (quiet_burden _ _ Hq). split_and!; [done|by apply (quiet_bystander h)|done|unfold busy; rewrite Hc, Hp; tauto|].
    intros _. by rewrite (q_lists _ _ Hq) by set_solver.
  - apply wp_bind. eapply wp_mono; [|apply (start_erase_ok h s b Hi); rewrite Hp; left]. intros [] s1 (Hi1 & Hb1 & Hbu). by apply (Hgo count).
  - assert (b ∈ lists s erase_complete_list) as Hb by (rewrite Hc; left). eapply wp_list_del; [exact Hb|].
    destruct (inv_take_complete h s b Hi Hb) as [Hi1 Hbb1]. set (s1 := without b s) in *.
    assert (burden s = S (burden s1)) as Hbu1.
    { pose proof (count_without h s _ b erase_pending_list (inv_placed _ _ Hi) Hb) as H1. pose proof (count_without h s _ b erasing_list (inv_placed _ _ Hi) Hb) as H2.
      pose proof (count_without h s _ b erase_complete_list (inv_placed _ _ Hi) Hb) as H3. fold s1 in H1, H2, H3. repeat case_decide; try done.
      unfold Jffs2Books.count in *. unfold burden. change (env s1) with (env s). lia. }
    assert (bystander s s1) as Hb1.
    { apply bystander_same; try done; [|intros y _; by apply preserved_flash]. intros n Hn. apply filter_ne_id. intros Hbn. rewrite (one_list h s n erase_complete_list b) in Hn by (done || apply Hi). clear -Hn. set_solver. }
    apply wp_bind. eapply wp_mono; [|by apply spin_unlock_ok]. intros [] s2 [Hi2 Hq2]. pose proof (quiet_burden _ _ Hq2).
    assert (blank_block b s2) as Hbb2.
    { pose proof (q_kept _ _ Hq2) as Hk2. intros j Hj. rewrite (kp_blocks _ _ Hk2) in Hj. pose proof (ok_offset _ _ _ (inv_blocks _ _ Hi1 _ _ Hj)).
      apply (preserved_blank b s1 s2); [apply (kp_flash _ _ Hk2)|done|by apply Hbb1]. intros He. destruct (listed_alone _ _ _ _ (inv_placed _ _ Hi1) He) as [Hy _]. apply Hy. left. }
    apply wp_bind. eapply wp_mono; [|by apply mark_erased_ok]. intros [] s3 (Hi3 & Hb3 & Hbu3).
    assert (bystander s s3) as Hb03 by (eapply bystander_trans; [exact Hb1|eapply bystander_trans; [by apply (quiet_bystander (b :: h))|done]]).
    destruct (Z.eqb_spec (count - 1) 0); [|apply Hgo; [lia|done|done|lia]]. apply wp_ret. split_and!; [done|done|lia|lia|lia].
Qed.
Lemma erase_pending_blocks_ok h count (s : state) : inv h s → prompt →
  wp (jffs2_erase_pending_blocks count) s (λ _ s', inv h s' ∧ bystander s s' ∧ (burden s' <= burden s)%nat ∧ (busy s → (burden s' < burden s)%nat) ∧
    (count <= 0 → lists s' erase_pending_list = [])).
Proof. intros Hi Hpr. unfold jffs2_erase_pending_blocks, erase_fuel. apply wp_sb_gets. apply erase_loop_ok; [done|done|unfold burden; lia]. Qed.
End Erasing.
