(* ===== verification/Jffs2Reserve.v ===== *)
(** * Jffs2Reserve: room for a node (fs/jffs2/nodemgmt.c)

    [jffs2_do_reserve_space] and [jffs2_reserve_space_gc] answer room at the end of the open block, or say
    that there is none; [jffs2_add_physical_node_ref] enters what was written there. *)

From S2P Require Import Prelude Jffs2Frag Jffs2Compr Jffs2Node Jffs2File Jffs2Write Crc32 Jffs2Space Jffs2Books Jffs2Account Jffs2Obsolete Jffs2Erase.

Section Reserving.
Import Space.
Context {F : Type} `{!Mtd F} `{!Eraser F} `{!Erasable F} {Geo : Geometry} {Lawful_geo : Geometric}.
Abbreviation state := (sb (F := F)).
Abbreviation P := (SM state).

(** ** What a reservation leaves to the collector *)

(** The block that is collected stays what it was, with what is stored in it, and its nodes stay whose they were. *)
Record undisturbed (s s' : state) : Prop := Undisturbed {
  un_gc : gcblock s' = gcblock s;
  un_block : ∀ b j, gcblock s = Some b → blocks s !! b = Some j → blocks s' !! b = Some j;
  un_nodes : ∀ b j q x, gcblock s = Some b → blocks s !! b = Some j → q ∈ phys j → refs s !! q = Some x → ref_obsolete x = false → same_node s s' q;
  un_checked : checked s → checked s';
  un_collectable : collectable s → collectable s';
  un_flash : ∀ b, gcblock s = Some b → preserved b s s' }.
Lemma undisturbed_trans (s s1 s2 : state) : undisturbed s s1 → undisturbed s1 s2 → undisturbed s s2.
Proof.
  intros [G1 B1 N1 C1 L1 P1] [G2 B2 N2 C2 L2 P2]. split; [congruence| | |auto..|].
  - intros b j Hg Hb. apply B2; [congruence|by apply B1].
  - intros b j q x Hg Hb Hq Hx Ho. pose proof (N1 b j q x Hg Hb Hq Hx Ho) as Hs. eapply same_node_trans; [exact Hs|]. destruct (proj1 Hs x Hx) as (x1 & Hx1 & Hf & _).
    apply (N2 b j q x1); [congruence|by apply B1|done|done|]. unfold ref_obsolete in *. by rewrite Hf.
  - intros b Hg. eapply preserved_trans; [by apply P1|]. apply P2. congruence.
Qed.
Lemma node_of_block h (s : state) b j q : inv h s → blocks s !! b = Some j → q ∈ phys j → ∃ x, refs s !! q = Some x.
Proof. intros Hi Hb Hq. destruct (spans_elem _ _ _ _ _ (ok_spans _ _ _ (inv_blocks _ _ Hi _ _ Hb)) Hq) as (x & Hx & _). by exists x. Qed.
Lemma dead_same (s s' : state) q x : refs s !! q = Some x → same_node s s' q → dead (refs s) q → dead (refs s') q.
Proof. intros Hx [Hs _] Hd y Hy. destruct (Hs x Hx) as (z & Hz & Hf & _). simplify_eq. specialize (Hd x Hx). unfold ref_obsolete in *. by rewrite Hf. Qed.
(** Only the block [b] changes, which is not the one that is collected. *)
Lemma undisturbed_but h (s s' : state) b : inv h s → gcblock s' = gcblock s → gcblock s ≠ Some b →
  (∀ b', b' ≠ b → blocks s' !! b' = blocks s !! b') →
  (∀ b' j q, b' ≠ b → blocks s !! b' = Some j → q ∈ phys j → same_node s s' q) →
  (checked s → ∀ j, blocks s' !! b = Some j → unchecked_size (size j) = 0) →
  (∀ n y, n ∈ use_lists → y ∈ lists s' n → y ≠ b → y ∈ lists s n) →
  (∀ y, nextblock s' = Some y → y ≠ b → nextblock s = Some y) →
  (collectable s → ∀ j, blocks s' !! b = Some j → (∀ n, n ∈ use_lists → b ∈ lists s' n → phys j ≠ []) ∧
     (nextblock s' = Some b → phys j ≠ [] ∨ free_size (size j) = sector_size)) → (∀ y, gcblock s = Some y → preserved y s s') → undisturbed s s'.
Proof.
  intros Hi Hg Hgb Hbl Hq Hc Hl Hn Hco Hfl. split; [done| | | | |done].
  - intros b' j Hb' Hj. rewrite Hbl; [done|]. by intros ->.
  - intros b' j q x Hb' Hj Hqj _ _. apply (Hq b' j); [by intros ->|done|done].
  - intros Hck b' j Hj. destruct (decide (b' = b)) as [->|Hne]; [by eapply Hc|]. rewrite Hbl in Hj by done. by eapply Hck.
  - intros Hcol. pose proof (Hco Hcol) as Hb. destruct Hcol as [L N G]. split.
    + intros n y j Hnu Hy Hj. destruct (decide (y = b)) as [->|Hne]; [by eapply Hb|]. rewrite Hbl in Hj by done. eapply L; [done|by apply Hl|done].
    + intros y j Hy Hj. destruct (decide (y = b)) as [->|Hne]; [by eapply Hb|]. rewrite Hbl in Hj by done. eapply N; [by apply Hn|done].
    + rewrite Hg. intros y j Hy Hj. assert (y ≠ b) as Hne by (by intros ->). rewrite Hbl in Hj by done. destruct (G y j Hy Hj) as (l1 & g & l2 & Hp & ? & Hd).
      exists l1, g, l2. split_and!; [done|done|]. intros q Hql. assert (q ∈ phys j) as Hqj by (rewrite Hp; apply elem_of_app; by left).
      destruct (node_of_block h s y j q Hi Hj Hqj) as [x Hx]. eapply dead_same; [exact Hx|by eapply Hq|by apply Hd].
Qed.
Lemma bystander_undisturbed h (s s' : state) : inv h s → bystander s s' → undisturbed s s'.
Proof.
  intros Hi Hby. assert (∀ y j', y ∈ places s → still y s → blocks s' !! y = Some j' → blocks s !! y = Some j') as Hback.
  { intros y j' Hy Hs Hj'. destruct (place_block h s y (inv_placed _ _ Hi)) as [j Hj]; [apply elem_of_app; by right|]. pose proof (by_block _ _ Hby y j Hs Hj). by simplify_eq. }
  split; [apply Hby| | |apply Hby| |intros b Hg; apply (by_flash _ _ Hby); by right; left].
  - intros b j Hg. apply (by_block _ _ Hby). by right; left.
  - intros b j q x Hg Hj Hq _ _. eapply (by_nodes _ _ Hby); [by right; left|done|done].
  - intros [L N G]. split.
    + intros n y j Hn Hy Hj. rewrite (by_lists _ _ Hby) in Hy by (clear -Hn; set_solver). eapply L; [done|done|].
      apply Hback; [by eapply listed_places|right; right; by exists n|done].
    + rewrite (by_next _ _ Hby). intros y j Hy Hj. apply (N y j Hy), Hback; [unfold places; rewrite Hy; left|by left|done].
    + rewrite (by_gc _ _ Hby). intros y j Hy Hj'. assert (blocks s !! y = Some j) as Hj.
      { apply Hback; [unfold places; rewrite Hy, !elem_of_app; right; left; left|by right; left|done]. }
      destruct (G y j Hy Hj) as (l1 & g & l2 & Hp & ? & Hd). exists l1, g, l2. split_and!; [done|done|]. intros q Hql.
      assert (q ∈ phys j) as Hqj by (rewrite Hp; apply elem_of_app; by left). destruct (node_of_block h s y j q Hi Hj Hqj) as [x Hx].
      eapply dead_same; [exact Hx|eapply (by_nodes _ _ Hby); [by right; left|done|done]|by apply Hd].
Qed.
Lemma marks_undisturbed h (s s' : state) b j r : inv h s → blocks s !! b = Some j → r ∈ phys j → gcblock s ≠ Some b → marks b r s s' → undisturbed s s'.
Proof.
  intros Hi Hb Hr Hg Hm. split; [by destruct (mk_gc _ _ _ _ Hm) as [?|[? _]]| | |apply Hm|apply Hm|].
  - intros b' j' Hb' Hj'. rewrite (mk_others _ _ _ _ Hm); [done|]. by intros ->.
  - intros b' j' q x Hb' Hj' Hq. apply (mk_nodes _ _ _ _ Hm). intros ->. apply Hg. by rewrite (phys_disjoint h s b j b' j' r).
  - intros y Hy. apply (mk_flash _ _ _ _ Hm); [by intros ->|]. intros He. by destruct (listed_alone _ _ _ _ (inv_placed _ _ Hi) He) as (_ & _ & ?).
Qed.
Lemma quiet_undisturbed h (s s' : state) : inv h s → quiet s s' → undisturbed s s'.
Proof. intros Hi Hq. by apply (bystander_undisturbed h), (quiet_bystander h). Qed.
Lemma undisturbed_refl h (s : state) : inv h s → undisturbed s s.
Proof. intros Hi. by apply (bystander_undisturbed h), bystander_refl. Qed.
Lemma next_not_gc h (s : state) b : inv h s → nextblock s = Some b → gcblock s ≠ Some b.
Proof.
  intros Hi Hn Hg. pose proof (placed_NoDup _ _ (inv_placed _ _ Hi)) as (_ & _ & Hd)%NoDup_app. unfold places in Hd. rewrite Hn, Hg in Hd.
  cbn [option_list option_rect app] in Hd. apply NoDup_cons in Hd as [Hd _]. apply Hd. left.
Qed.

(** ** The driver calls back *)

Lemma deliver_all h l (s : state) : inv h s → lists s erasing_list = l →
  wp (deliver (map (λ b, (b, true, 0)) l)) s (λ _ s', lists s' erasing_list = [] ∧
    count s' erase_complete_list = count s erase_complete_list + Z.of_nat (length l)).
Proof.
  revert s. induction l as [|b l IH]; intros s Hi Hl; cbn [map deliver]; [apply wp_ret; split; [done|cbn; lia]|].
  assert (b ∈ lists s erasing_list) as Hb by (rewrite Hl; left). apply wp_sb_gets. rewrite bool_decide_eq_true_2 by done. cbn [jffs2_erase_callback].
  destruct (erase_succeeded_ok h s b Hi Hb) as (j & Hj & Hs1 & Hi1 & _). eapply wp_then; [exact Hs1|]. set (s1 := added_tail _ _ _) in *. assert (lists s1 erasing_list = l) as Hl1.
  { change (lists s1 erasing_list) with (filter (λ x, x ≠ b) (lists s erasing_list)). rewrite Hl.
    pose proof (placed_list _ _ erasing_list (inv_placed _ _ Hi)) as Hd. rewrite Hl in Hd. pose proof Hd as [Hbl _]%NoDup_cons.
    rewrite filter_cons, decide_False by (by intros ?). by apply filter_ne_id. }
  eapply wp_mono; [|apply (IH s1 Hi1 Hl1)]. intros [] s2 [He Hc]. split; [done|]. rewrite Hc. unfold s1.
  rewrite count_added_tail. change (count (without b (erased j s)) erase_complete_list) with (count (without b s) erase_complete_list).
  rewrite (count_without h s erasing_list) by (done || apply Hi). repeat case_decide; try done. cbn [length]. lia.
Qed.
(** Something is under way: with the next callbacks there is less to do, or a block is erased. *)
Lemma spin_unlock_moves h (s : state) : inv h s →
  wp spin_unlock s (λ _ s', inv h s' ∧ quiet s s' ∧ ((burden s' < burden s)%nat ∨
    lists s' erasing_list = [] ∧ count s' erase_complete_list = count s erase_complete_list + count s erasing_list)).
Proof.
  intros Hi. destruct (wp_inv _ _ _ (spin_unlock_ok h s Hi)) as ([] & s' & Hs' & Hi' & Hq). eapply wp_eq; [exact Hs'|]. split_and!; [done|done|].
  destruct (callbacks (env s)) as [|cb l] eqn:Hcb.
  - right. set (s1 := on_env take_callbacks s). assert (spin_unlock s = deliver (map (λ b, (b, true, 0)) (lists s1 erasing_list)) s1) as He.
    { unfold spin_unlock, gets, puts, mbind, SM_bind. by rewrite Hcb. }
    pose proof (deliver_all h (lists s1 erasing_list) s1 (inv_env _ _ _ Hi) eq_refl) as Hd. unfold wp in Hd. rewrite <-He, Hs' in Hd. exact Hd.
  - left. set (s1 := on_env take_callbacks s). assert (spin_unlock s = deliver cb s1) as He.
    { unfold spin_unlock, gets, puts, mbind, SM_bind. by rewrite Hcb. }
    pose proof (deliver_ok h cb s1 (inv_env _ _ _ Hi)) as Hd. unfold wp in Hd. rewrite <-He, Hs' in Hd. destruct Hd as [_ Hq1]. pose proof (quiet_burden _ _ Hq1).
    assert (burden s1 < burden s)%nat; [|lia]. unfold burden, misfortunes. cbn [lists env on_env s1 take_callbacks memory erase_answers callbacks]. rewrite Hcb. cbn [tail length]. lia.
Qed.

(** ** The open block is filed *)

Abbreviation filing := [clean_list; dirty_list; very_dirty_list].
(** The open block, with other sizes, goes to a list of blocks in use. *)
Lemma close_next_ok h (s : state) b j j' T m :
  inv h s → nextblock s = Some b → blocks s !! b = Some j → m ∈ filing → accounted 0 (rebooked b j' T s) → jeb_ok (refs s) b j' → full j' →
  wp (list_add_tail b m;; set_nextblock None) (rebooked b j' T s) (λ _ s',
    s' = on_nextblock (λ _, None) (added_tail b m (rebooked b j' T s)) ∧ inv h s').
Proof.
  intros Hi Hn Hb Hm Hacc Hj' Hf. pose proof (inv_placed _ _ Hi) as Hp. eapply wp_list_add_tail.
  set (s' := on_nextblock (λ _, None) (added_tail b m (rebooked b j' T s))). apply (wp_eq _ _ tt s'); [done|]. split; [done|].
  eapply (inv_rehome h h s s' b j j' m Hi Hb eq_refl).
  - intros n y. cbn. case_decide as Hnm; [subst n; rewrite elem_of_app, list_elem_of_singleton|]; [intros [Hy| ->]; [|by right]|intros Hy]; left; (split; [|done]); intros ->;
      by destruct (listed_alone _ _ _ _ Hp Hy) as (_ & ? & _).
  - intros y Hy. split; [|done]. intros ->. by destruct (open_alone _ _ _ Hp (or_introl Hn)).
  - intros y [?|Hy]; [done|]. split; [|by right]. intros ->. pose proof (placed_NoDup _ _ Hp) as Hd. unfold places in Hd. rewrite Hn in Hd. cbn in Hy. rewrite Hy in Hd.
    apply NoDup_app in Hd as (_ & _ & Hd). cbn [option_list option_rect app] in Hd. apply NoDup_cons in Hd as [Hd _]. apply Hd. left.
  - apply (placed_added_tail h (on_nextblock (λ _, None) (rebooked b j' T s))), placed_close_next; [|done].
    apply (placed_eq _ s); [done..| |done]. unfold rebooked. cbn. by rewrite length_insert.
  - destruct (inv_counted _ _ Hi) as [Cf Ce Cs Cb]. assert (∀ x, x ∉ filing → count s' x = count s x) as Hcn.
    { intros x Hx. etransitivity; [exact (count_added_tail s m b x)|]. rewrite decide_False by (by intros ->). lia. }
    split; rewrite !Hcn by set_solver; done.
  - done.
  - intros q x Hx Hxn. by exists x.
  - intros b' i _ Hi'. by apply (inv_blocks _ _ Hi).
  - done.
  - set_unfold in Hm. by destruct Hm as [-> |[-> |[-> |[]]]].
  - apply Hi.
  - done.
  - done.
  - intros ->. set_solver.
  - intros ->. set_solver.
Qed.
(** What closing the open block leaves as it was. *)
Definition closed (s s' : state) : Prop :=
  nextblock s' = None ∧ env s' = env s ∧ gcblock s' = gcblock s ∧ ∀ n, n ∉ filing → lists s' n = lists s n.
Lemma file_nextblock_ok h (s : state) b j : inv h s → nextblock s = Some b → blocks s !! b = Some j →
  wp (file_nextblock b) s (λ _ s', inv h s' ∧ closed s s' ∧ ((collectable s → phys j ≠ []) → undisturbed s s')).
Proof.
  intros Hi Hn Hb. pose proof (inv_blocks _ _ Hi _ _ Hb) as Hj. destruct (inv_shaped _ _ Hi) as (_ & _ & Ho).
  pose proof (Ho b j (or_introl Hn) Hb) as Hfull. pose proof (nonneg_get _ (ok_sizes _ _ _ Hj)) as Hnn. pose proof (sector_small _ _ _ _ (inv_placed _ _ Hi) Hb).
  assert (∀ j' T m, m ∈ filing → accounted 0 (rebooked b j' T s) → offset j' = offset j → phys j' = phys j → nonneg (size j') → full j' →
    free_size (size j') = 0 → used_size (size j') = used_size (size j) → unchecked_size (size j') = unchecked_size (size j) →
    wp (list_add_tail b m;; set_nextblock None) (rebooked b j' T s) (λ _ s', inv h s' ∧ closed s s' ∧ ((collectable s → phys j ≠ []) → undisturbed s s'))) as Hend.
  { intros j' T m Hm Hacc Hof Hph Hz Hf Hfr Hu Hc. eapply wp_mono; [|eapply (close_next_ok h s b j j'); try done].
    - intros [] s' [-> Hi']. split_and!; [done| |].
      + split_and!; [done..|]. intros n Hn'. cbn. rewrite decide_False; [done|by intros ->].
      + intros Hne. assert (blocks (rebooked b j' T s) !! b = Some j') as Hbj by (by eapply rebooked_block). set (s' := on_nextblock _ _).
        assert (∀ i, blocks s' !! b = Some i → i = j') as Hone by (intros i Hbi; change (blocks s') with (blocks (rebooked b j' T s)) in Hbi; congruence).
        apply (undisturbed_but h s _ b); [done|done|by eapply next_not_gc| | | | |done| |intros; by apply preserved_flash].
        * intros b' Hb'. cbn. by rewrite list_lookup_insert_ne.
        * intros b' i q _ _ _. by apply same_node_eq.
        * intros Hck i ->%Hone. rewrite Hc. by eapply Hck.
        * intros n y Hn' Hy Hyb. cbn in Hy. case_decide; [|done]. by apply elem_of_app in Hy as [?| ->%list_elem_of_singleton].
        * intros Hcol i ->%Hone. rewrite Hph. split; [|done]. intros _ _ _. by apply Hne.
    - destruct Hj as [H1 H2 Ha H3 H4 H5]. split; rewrite ?Hof, ?Hph, ?Hu, ?Hc, ?Hfr; try done. eapply spans_weaken; [apply Z.le_refl| |exact H3]. lia. }
  unfold file_nextblock. eapply wp_block; [done|]. rewrite <-(rebooked_id b j s Hb) at 1. destruct j as [o [un us d w f] ph g].
  unfold full, sum in Hfull. cbn in Hfull, Hnn. cbn [size free_size].
  eapply wp_charge; [done|rewrite rebooked_id by done; by eapply inv_accounted|cbn; lia|]. intros T1 H1. eapply wp_charge; [done|exact H1|cbn; lia|]. intros T2 H2.
  eapply wp_block; [by eapply rebooked_block|]. cbv beta. set (j2 := on_size (plus Free _) _) in *.
  assert (j2 = Block o (Sizes un us d (w + f) 0) ph g) as Hj2 by (unfold j2, on_size, plus; cbn; do 2 f_equal; lia). clearbody j2. subst j2.
  replace (0 + f + - f) with 0 in H2 by lia. cbn [size wasted_size dirty_size]. destruct (ISDIRTY _).
  - apply wp_assoc. eapply wp_charge; [done|exact H2|cbn; lia|]. intros T3 H3. apply wp_assoc. eapply wp_charge; [done|exact H3|cbn; lia|]. intros T4 H4.
    apply wp_assoc. eapply wp_block; [by eapply rebooked_block|]. cbv beta. clear H1 H2 H3. set (j3 := on_size (plus Wasted _) _) in *.
    assert (j3 = Block o (Sizes un us (d + (w + f)) 0 0) ph g) as Hj3 by (unfold j3, on_size, plus; cbn; do 2 f_equal; lia). clearbody j3. subst j3.
    replace (0 + (w + f) + - (w + f)) with 0 in H4 by lia.
    apply Hend; try done; [destruct (VERYDIRTY _); set_solver|apply nonneg_intro; lia|unfold full, sum; cbn; lia].
  - apply Hend; try done; [set_solver|apply nonneg_intro; lia|unfold full, sum; cbn; lia].
Qed.

(** ** A free block is opened *)

Lemma inv_open h (s : state) b : inv h s → b ∈ lists s free_list → nextblock s = None →
  inv h (on_nr_free_blocks (add32 (-1)) (on_nextblock (λ _, Some b) (without b s))).
Proof.
  intros Hi Hb Hn. set (s' := on_nr_free_blocks _ _). destruct (inv_shaped _ _ Hi) as (Hl & Hh & Ho).
  assert (∀ x, count s' x = count s x - (if decide (x = free_list) then 1 else 0)) as Hc by (intros x; exact (count_without h s free_list b x (inv_placed _ _ Hi) Hb)).
  eapply (inv_lists h); try done.
  - apply (placed_open_next h (without b s)); [apply (placed_without h s free_list); [apply Hi|done]|done].
  - apply (shaped_open_next h (without b s)); [apply shaped_without, Hi|]. intros j Hj. by destruct (Hl _ _ _ Hb Hj).
  - destruct (inv_counted _ _ Hi) as [Cf Ce Cs Cb]. split; rewrite ?Hc; repeat case_decide; try done; cbn [nr_free_blocks nr_erasing_blocks erasing_size bad_size s'];
      [unfold s', add32; cbn; rewrite Cf, u32_add_l; f_equal; lia|etransitivity; [exact Ce|]|etransitivity; [exact Cs|]|etransitivity; [exact Cb|]]; f_equal; ring.
  - apply (unspoilt_same h s); try done; [intros y [[= <-]|[_ ?]%list_elem_of_filter]; by right|by intros y [_ ?]%list_elem_of_filter].
Qed.

(** ** The answer *)

(** [len] bytes at [ofs] are free, at the end of the open block. *)
Definition granted (s : state) (ofs len : Z) : Prop :=
  ∃ b j, nextblock s = Some b ∧ blocks s !! b = Some j ∧ len = free_size (size j) ∧ ofs + len = offset j + sector_size.
Lemma granted_steady (s s' : state) ofs len : steady s s' → granted s ofs len → granted s' ofs len.
Proof.
  intros Hst (b & j & Hn & Hb & -> & Ho). destruct (st_blocks _ _ Hst b j Hb) as (j' & Hb' & Ho' & Hf'). exists b, j'. rewrite (st_next _ _ Hst), Ho', Hf'.
  by split_and!.
Qed.
Lemma grant_ok h (s : state) b j : inv h s → nextblock s = Some b → blocks s !! b = Some j →
  wp (grant b) s (λ a s', inv h s' ∧ steady s s' ∧ undisturbed s s' ∧ a.1.1 = 0 ∧ a.2 = free_size (size j) ∧ granted s' a.1.2 a.2).
Proof.
  intros Hi Hn Hb. pose proof (inv_placed _ _ Hi) as Hp. pose proof (inv_blocks _ _ Hi _ _ Hb) as Hj. destruct (inv_shaped _ _ Hi) as (_ & _ & Ho).
  pose proof (Ho b j (or_introl Hn) Hb) as Hfull. pose proof (full_le Free _ _ _ Hj Hfull) as Hfree. pose proof (sector_small _ _ _ _ Hp Hb) as Hsm. cbn [get] in Hfree.
  unfold grant. eapply wp_block; [done|]. cbv zeta. rewrite u32_small by (rewrite (ok_offset _ _ _ Hj); lia).
  assert (granted s (offset j + (sector_size - free_size (size j))) (free_size (size j))) as Hg by (exists b, j; split_and!; [done|done|done|lia]).
  assert (∀ s', inv h s' → steady s s' → undisturbed s s' → wp (mret (0, offset j + (sector_size - free_size (size j)), free_size (size j))) s' (λ a s', inv h s' ∧ steady s s' ∧
    undisturbed s s' ∧ a.1.1 = 0 ∧ a.2 = free_size (size j) ∧ granted s' a.1.2 a.2)) as Hend.
  { intros s' Hi' Hst Hu. apply wp_ret. split_and!; [done|done|done|done|done|]. by apply (granted_steady s). }
  destruct (_ && _) eqn:Hcm; [|by apply Hend; [|apply steady_refl|apply (undisturbed_refl h)]].
  apply andb_true_iff in Hcm as [Hcm%truthy_spec Hu%Z.eqb_eq]. destruct (phys j) as [|r l] eqn:Hph.
  { exfalso. apply Hcm. rewrite <-Hu, (ok_used _ _ _ Hj), Hph. done. }
  destruct (spans_elem _ _ _ _ r (ok_spans _ _ _ Hj)) as (x & Hx & _); [rewrite Hph; left|]. apply wp_assoc. eapply wp_ref; [done|].
  case_decide; [|by apply Hend; [|apply steady_refl|apply (undisturbed_refl h)]]. apply wp_bind, wp_bind. eapply wp_mono; [|by apply spin_unlock_ok]. intros [] s1 [Hi1 Hq1].
  pose proof (q_kept _ _ Hq1) as Hk1. eapply wp_mono; [|apply (mark_node_obsolete_ok h s1 b j r x); [done|by rewrite (kp_blocks _ _ Hk1)|rewrite Hph; left|by rewrite (kp_refs _ _ Hk1)|]].
  - intros [] s2 (Hi2 & Hst2 & Hmk2 & _). apply Hend; [done|eapply steady_trans; [by apply kept_steady|done]|].
    eapply undisturbed_trans; [by apply (quiet_undisturbed h)|]. apply (marks_undisturbed h s1 s2 b j r); [done|by rewrite (kp_blocks _ _ Hk1)|rewrite Hph; left| |done].
    apply (next_not_gc h); [done|by rewrite (kp_next _ _ Hk1)].
  - intros Hf. destruct (listed_alone _ _ _ _ (inv_placed _ _ Hi1) Hf) as (_ & Hnf & _). apply Hnf. by rewrite (kp_next _ _ Hk1).
Qed.

(** ** No free block *)

Lemma counts_bound (s : state) : placed [] s →
  count s free_list + count s erase_pending_list + count s erasing_list + count s erase_complete_list + count s bad_list <= nr_blocks < 2 ^ 32.
Proof.
  intros [Hp Hl]. pose proof geo_size. rewrite geo_flash in *. pose proof geo_blocks. pose proof sector_pos. split; [|nia].
  apply Permutation_length in Hp. rewrite length_seq in Hp. unfold places, list_names in Hp. cbn in Hp. rewrite !length_app in Hp. unfold count. lia.
Qed.
Lemma none_erasing (s : state) : inv [] s → nr_erasing_blocks s = 0 →
  lists s erase_pending_list = [] ∧ lists s erasing_list = [] ∧ lists s erase_complete_list = [].
Proof.
  intros Hi. pose proof (counts_bound s (inv_placed _ _ Hi)) as Hb. rewrite (ct_erasing _ _ (inv_counted _ _ Hi)). unfold count in *. cbn [length] in *.
  rewrite u32_small by lia. intros H. destruct (lists s erase_pending_list), (lists s erasing_list), (lists s erase_complete_list); cbn [length] in *; try lia. done.
Qed.
Lemma no_pending_wbuf h (s : state) : inv h s → lists s erasable_pending_wbuf_list = [].
Proof.
  intros Hi. destruct (lists s erasable_pending_wbuf_list) as [|b l] eqn:Hl; [done|]. exfalso. assert (b ∈ lists s erasable_pending_wbuf_list) as Hb by (rewrite Hl; left).
  destruct (place_block _ _ b (inv_placed _ _ Hi)) as [j Hj]; [apply elem_of_app; right; by eapply listed_places|]. exact (proj1 (inv_shaped _ _ Hi) _ _ _ Hb Hj).
Qed.
(** What a reservation can still use up. *)
Definition supply (s : state) : nat := burden s + 3 * length (lists s erasable_list).
(** There is no block to write to, and none that an erase would give. *)
Definition exhausted (s : state) : Prop :=
  nextblock s = None ∧ ∀ n, n ∈ [free_list; erasable_list; erase_pending_list; erasing_list; erase_complete_list] → lists s n = [].
Definition same_sum (s : state) : P (Z * Z * Z) :=
  if (nr_erasing_blocks s =? 0) && bool_decide (lists s erasable_pending_wbuf_list ≠ []) then mret (- EAGAIN, 0, 0)
  else if nr_erasing_blocks s =? 0 then mret (- ENOSPC, 0, 0)
  else spin_unlock;; jffs2_erase_pending_blocks 1;; mret (- EAGAIN, 0, 0).
Lemma erase_now_ok (s : state) : inv [] s → prompt → nr_erasing_blocks s ≠ 0 →
  wp (spin_unlock;; jffs2_erase_pending_blocks 1;; mret (- EAGAIN, 0, 0)) s (λ a s', inv [] s' ∧ undisturbed s s' ∧ a.1.1 = - EAGAIN ∧ (supply s' < supply s)%nat).
Proof.
  intros Hi Hpr He. apply wp_bind. eapply wp_mono; [|by apply spin_unlock_moves]. intros [] s1 (Hi1 & Hq1 & Hmv).
  apply wp_bind. eapply wp_mono; [|by apply erase_pending_blocks_ok]. intros [] s2 (Hi2 & Hb2 & Hbu2 & Hbusy & _). apply wp_ret.
  split_and!; [done|eapply undisturbed_trans; [by apply (quiet_undisturbed [])|by apply (bystander_undisturbed [])]|done|].
  pose proof (quiet_burden _ _ Hq1). unfold supply. rewrite (by_lists _ _ Hb2 erasable_list) by set_solver. rewrite (q_lists _ _ Hq1 erasable_list) by set_solver.
  destruct Hmv as [Hless|[Hno Hco]]; [lia|]. assert (busy s1); [|specialize (Hbusy ltac:(done)); lia].
  unfold busy. destruct (lists s1 erase_complete_list) eqn:Hc1; [|by left]. right. intros Hp1. apply He.
  rewrite (q_lists _ _ Hq1 erase_pending_list) in Hp1 by set_solver. rewrite (ct_erasing _ _ (inv_counted _ _ Hi)). unfold count in *. rewrite Hc1 in Hco. rewrite Hp1. cbn [length] in *.
  rewrite u32_small; lia.
Qed.
Lemma erase_for_room_ok (s : state) : inv [] s → prompt → nextblock s = None → lists s free_list = [] →
  wp erase_for_room s (λ a s', inv [] s' ∧ undisturbed s s' ∧ (a.1.1 = - EAGAIN ∧ (supply s' < supply s)%nat ∨ a.1.1 = - ENOSPC ∧ exhausted s')).
Proof.
  intros Hi Hpr Hn Hf. unfold erase_for_room. apply wp_sb_gets. cbn [id].
  assert (∀ s1, inv [] s1 → nextblock s1 = None → lists s1 free_list = [] → (supply s1 <= supply s)%nat → (nr_erasing_blocks s1 = 0 → lists s1 erasable_list = []) →
    undisturbed s s1 → wp (s ← gets id; same_sum s) s1 (λ a s', inv [] s' ∧ undisturbed s s' ∧ (a.1.1 = - EAGAIN ∧ (supply s' < supply s)%nat ∨ a.1.1 = - ENOSPC ∧ exhausted s'))) as Hrest.
  { intros s1 Hi1 Hn1 Hf1 Hsu Her Hu. apply wp_sb_gets. unfold same_sum. cbn [id]. rewrite (bool_decide_eq_false_2 (_ ≠ [])) by (intros Hne; apply Hne; by eapply no_pending_wbuf).
    rewrite andb_false_r. destruct (Z.eqb_spec (nr_erasing_blocks s1) 0) as [He|He].
    - apply wp_ret. split_and!; [done|done|]. right. split; [done|]. destruct (none_erasing _ Hi1 He) as (? & ? & ?). split; [done|].
      intros n Hm. set_unfold in Hm. destruct Hm as [-> |[-> |[-> |[-> |[-> |[]]]]]]; try done. by apply Her.
    - eapply wp_mono; [|by apply erase_now_ok]. intros a s2 (? & ? & ? & ?). split_and!; [done|by eapply undisturbed_trans|]. left. split; [done|lia]. }
  pose proof (undisturbed_refl [] s Hi) as Hu0.
  destruct (lists s erasable_list) as [|e l] eqn:Her; [by apply Hrest|]. destruct (Z.eqb_spec (nr_erasing_blocks s) 0) as [He|He]; [|by apply Hrest].
  assert (e ∈ lists s erasable_list) as Hin by (rewrite Her; left). apply wp_assoc. eapply wp_list_del; [exact Hin|]. apply wp_assoc. eapply wp_list_add_tail.
  eapply wp_then; [reflexivity|]. cbv beta.
  set (s1 := on_nr_erasing_blocks (add32 1) (added_tail e erase_pending_list (without e s))).
  assert (inv [] s1) as Hi1.
  { apply (inv_relist [] s e erasable_list erase_pending_list 1 Hi Hin); [unfold uncounted; set_solver|by right|]. intros j Hj. exact (proj1 (inv_shaped _ _ Hi) _ _ _ Hin Hj). }
  assert (∀ x, count s1 x = count s x - (if decide (x = erasable_list) then 1 else 0) + (if decide (x = erase_pending_list) then 1 else 0)) as Hc.
  { intros x. etransitivity; [exact (count_added_tail (without e s) erase_pending_list e x)|]. by rewrite (count_without [] s erasable_list) by (done || apply Hi). }
  apply Hrest; [done|done| | | |].
  - cbn. rewrite decide_False by done. rewrite filter_ne_id; [done|]. rewrite Hf. by intros ?%elem_of_nil.
  - pose proof (Hc erasable_list) as H1. pose proof (Hc erase_pending_list) as H2. pose proof (Hc erasing_list) as H3. pose proof (Hc erase_complete_list) as H4.
    unfold supply, burden, count in *. change (env s1) with (env s). repeat case_decide; try done. lia.
  - intros H0. destruct (none_erasing _ Hi1 H0) as [Hp _]. pose proof (Hc erase_pending_list) as H2. unfold count in H2. rewrite Hp in H2. repeat case_decide; try done. cbn in H2. lia.
  - destruct (listed_alone _ _ _ _ (inv_placed _ _ Hi) Hin) as (_ & Hne & Hge). split; try done; [intros; by apply same_node_eq| |intros; by apply preserved_flash].
    intros [L N G]. split; [|done|done]. intros n b j Hnu Hb. apply (L n b j Hnu). cbn in Hb. case_decide as Hd; [subst n; clear -Hnu; set_solver|]. by apply list_elem_of_filter in Hb as [_ Hb].
Qed.

(** ** [jffs2_do_reserve_space] *)

(** Room, or work that was done for it, or none to be had. *)
Inductive reserved (minsize : Z) (s s' : state) : Z * Z * Z → Prop :=
  | Room ofs len : granted s' ofs len → (minsize <= sector_size - cleanmarker_size → minsize <= len) → reserved minsize s s' (0, ofs, len)
  | Again ofs len : (supply s' < supply s)%nat → reserved minsize s s' (- EAGAIN, ofs, len)
  | NoRoom ofs len : exhausted s' → reserved minsize s s' (- ENOSPC, ofs, len).
Lemma reserved_from minsize s s1 s' a : (supply s1 <= supply s)%nat → reserved minsize s1 s' a → reserved minsize s s' a.
Proof. intros Hs [ofs len|ofs len|ofs len]; [by constructor|constructor; lia|by constructor]. Qed.
Lemma closed_supply (s s' : state) : closed s s' → supply s' = supply s.
Proof.
  intros (_ & He & _ & Hl). unfold supply, burden. rewrite He.
  by rewrite !Hl by (intros ?; set_unfold; naive_solver).
Qed.
Lemma take_free_ok again minsize (s : state) : inv [] s → prompt → nextblock s = None →
  wp (match lists s free_list with
      | [] => erase_for_room
      | b :: _ =>
          list_del b;; set_nextblock (Some b);; puts (on_nr_free_blocks (add32 (-1)));;
          j ← block b;
          if negb (free_size (size j) =? u32 (sector_size - cleanmarker_size)) then again else grant b
      end) s (λ a s', inv [] s' ∧ reserved minsize s s' a ∧ undisturbed s s').
Proof.
  intros Hi Hpr Hn. destruct (lists s free_list) as [|b l] eqn:Hf.
  { eapply wp_mono; [|by apply erase_for_room_ok]. intros [[ret ofs] len] s' (Hi' & Hu & Ha). cbn in Ha. split_and!; [done| |done].
    destruct Ha as [[-> ?]|[-> ?]]; by constructor. }
  assert (b ∈ lists s free_list) as Hb by (rewrite Hf; left).
  destruct (place_block _ _ b (inv_placed _ _ Hi)) as [j Hj]; [apply elem_of_app; right; by eapply listed_places|].
  destruct (proj1 (inv_shaped _ _ Hi) _ _ _ Hb Hj) as (_ & Hfree & Hused & _). pose proof (inv_open [] s b Hi Hb Hn) as Hi1.
  eapply wp_list_del; [exact Hb|]. do 2 (eapply wp_then; [reflexivity|]). cbv beta. set (s1 := on_nr_free_blocks _ _) in *.
  eapply wp_block; [exact Hj|]. pose proof sector_pos. pose proof geo_marker. pose proof (sector_small _ _ _ _ (inv_placed _ _ Hi) Hj).
  rewrite Hfree, u32_small, Z.eqb_refl by lia. cbn [negb].
  eapply wp_mono; [|by apply (grant_ok [] s1 b j)]. intros [[ret ofs] len] s' (Hi' & _ & Hu & Hr & Hl & Hg). cbn in Hr, Hl, Hg. subst ret.
  split_and!; [done|constructor; [done|lia]|]. eapply undisturbed_trans; [|exact Hu]. destruct (listed_alone _ _ _ _ (inv_placed _ _ Hi) Hb) as (_ & _ & Hgb).
  apply (undisturbed_but [] s s1 b); [done|done|done|done|intros; by apply same_node_eq|by intros Hck j'; apply Hck| | | |intros; by apply preserved_flash].
  - intros n y _ [_ Hy]%list_elem_of_filter _. done.
  - intros y [= ->]. done.
  - intros _ j' Hj'. assert (j' = j) as -> by (change (blocks s1) with (blocks s) in Hj'; congruence). split; [by intros n _ [Hy _]%list_elem_of_filter|]. intros _.
    destruct (phys j) as [|r l'] eqn:Hp; [right|by left]. rewrite Hfree, <-Hused, (ok_used _ _ _ (inv_blocks _ _ Hi _ _ Hj)), Hp. unfold live. cbn. lia.
Qed.
Lemma do_reserve_space_ok minsize (s : state) : inv [] s → prompt →
  wp (jffs2_do_reserve_space minsize) s (λ a s', inv [] s' ∧ reserved minsize s s' a ∧ (minsize <= sector_size → undisturbed s s')).
Proof.
  intros Hi Hpr. unfold jffs2_do_reserve_space. apply wp_sb_gets. cbn [do_reserve_loop]. apply wp_sb_gets.
  destruct (nextblock s) as [b|] eqn:Hn.
  - destruct (place_block _ _ b (inv_placed _ _ Hi)) as [j Hj]; [cbn; unfold places; rewrite Hn; left|]. apply wp_assoc. eapply wp_block; [exact Hj|].
    destruct (Z.ltb_spec (free_size (size j)) minsize) as [Hlt|Hge].
    + apply wp_bind. eapply wp_mono; [|by apply (file_nextblock_ok [] s b j)]. intros [] s1 (Hi1 & Hcl & Hu1). apply wp_sb_gets. cbn [id]. rewrite (proj1 Hcl).
      eapply wp_mono; [|apply (take_free_ok _ minsize s1 Hi1 Hpr), (proj1 Hcl)]. intros a s' (Hi' & Ha & Hu). split_and!; [done| |].
      * eapply reserved_from; [|exact Ha]. by rewrite (closed_supply _ _ Hcl).
      * intros Hm. eapply undisturbed_trans; [|exact Hu]. apply Hu1. intros Hcol. destruct (co_next _ Hcol b j Hn Hj); [done|lia].
    + eapply wp_then; [reflexivity|]. apply wp_sb_gets. cbn [id]. rewrite Hn. eapply wp_mono; [|by apply (grant_ok [] s b j)].
      intros [[ret ofs] len] s' (Hi' & _ & Hu & Hr & Hl & Hg). cbn in Hr, Hl, Hg. subst ret. split_and!; [done|constructor; [done|lia]|done].
  - eapply wp_then; [reflexivity|]. apply wp_sb_gets. cbn [id]. rewrite Hn. eapply wp_mono; [|by apply take_free_ok]. intros a s' (? & ? & ?). by split_and!.
Qed.

(** ** [jffs2_reserve_space_gc] *)

(** The answers that are no -EAGAIN. *)
Inductive settled (minsize : Z) (s : state) : Z * Z * Z → Prop :=
  | Settled ofs len : granted s ofs len → (minsize <= sector_size - cleanmarker_size → minsize <= len) → settled minsize s (0, ofs, len)
  | Refused ofs len : exhausted s → settled minsize s (- ENOSPC, ofs, len).
Lemma exhausted_quiet h (s s' : state) : inv h s' → exhausted s → quiet s s' → exhausted s'.
Proof.
  intros Hi [Hn He] Hq. split; [by rewrite (kp_next _ _ (q_kept _ _ Hq))|]. intros n Hm. destruct (decide (n ∈ [erasing_list; erase_complete_list])) as [Hb|Hb].
  - pose proof (q_busy _ _ Hq) as Hc. unfold count in Hc. rewrite (He erasing_list), (He erase_complete_list) in Hc by set_solver. cbn [length] in Hc.
    apply nil_length_inv. set_unfold in Hb. destruct Hb as [-> |[-> |[]]]; lia.
  - rewrite (q_lists _ _ Hq); [by apply He|]. set_unfold. naive_solver.
Qed.
Lemma gc_reserve_loop_ok fuel minsize (s : state) : inv [] s → prompt → (supply s < fuel)%nat →
  wp (gc_reserve_loop fuel minsize) s (λ a s', inv [] s' ∧ settled minsize s' a ∧ (minsize <= sector_size → undisturbed s s')).
Proof.
  revert s. induction fuel as [|fuel IH]; intros s Hi Hpr Hf; [lia|]. cbn [gc_reserve_loop]. apply wp_bind.
  eapply wp_mono; [|by apply do_reserve_space_ok]. intros [[ret ofs] len] s1 (Hi1 & Ha & Hu1). cbv beta iota.
  inversion Ha as [ofs' len' Hg Hl|ofs' len' Hs|ofs' len' He]; subst; cbn [Z.eqb Z.opp EAGAIN ENOSPC Pos.eqb].
  - apply wp_bind. eapply wp_mono; [|by apply spin_unlock_ok]. intros [] s2 [Hi2 Hq]. apply wp_ret. split_and!; [done| |].
    + constructor; [|done]. eapply granted_steady; [apply kept_steady, Hq|done].
    + intros Hm. eapply undisturbed_trans; [by apply Hu1|by apply (quiet_undisturbed [])].
  - eapply wp_mono; [|apply IH; [done|done|lia]]. intros a s2 (? & ? & Hu2). split_and!; [done..|]. intros Hm. eapply undisturbed_trans; [by apply Hu1|by apply Hu2].
  - apply wp_bind. eapply wp_mono; [|by apply spin_unlock_ok]. intros [] s2 [Hi2 Hq]. apply wp_ret.
    split_and!; [done|constructor; by eapply exhausted_quiet|]. intros Hm. eapply undisturbed_trans; [by apply Hu1|by apply (quiet_undisturbed [])].
Qed.
Lemma reserve_space_gc_ok minsize (s : state) : inv [] s → prompt →
  wp (jffs2_reserve_space_gc minsize) s (λ a s', inv [] s' ∧ settled (PAD minsize) s' a ∧ (PAD minsize <= sector_size → undisturbed s s')).
Proof. intros Hi Hpr. unfold jffs2_reserve_space_gc, reserve_fuel. apply wp_sb_gets, gc_reserve_loop_ok; [done|done|]. unfold supply, burden. lia. Qed.
End Reserving.
