(* ===== verification/Jffs2Room.v ===== *)
(** * Jffs2Room: a node in the room that was reserved (fs/jffs2/nodemgmt.c, write.c)

    [jffs2_add_physical_node_ref] enters a node at the end of the open block, [store_node] is what
    [jffs2_write_dnode] does to the books around it. *)

From S2P Require Import Prelude Jffs2Frag Jffs2Compr Jffs2Node Jffs2File Jffs2Write Crc32 Jffs2Space Jffs2Books Jffs2Account Jffs2Obsolete Jffs2Erase Jffs2Reserve.

Section Room.
Import Space.
Context {F : Type} `{!Mtd F} `{!Eraser F} `{!Erasable F} {Geo : Geometry} {Lawful_geo : Geometric}.
Abbreviation state := (sb (F := F)).
Abbreviation P := (SM state).

(** ** [jffs2_add_physical_node_ref] *)

(** A node that fits the room at the end of the open block. *)
Record fits (j : eraseblock) (x : raw_ref) : Prop := Fits {
  ft_ok : ref_ok x; ft_flags : ref_flags x ≠ REF_UNCHECKED; ft_pos : 12 <= totlen x; ft_aligned : totlen x mod 4 = 0;
  ft_room : totlen x <= free_size (size j); ft_place : ref_offset x = offset j + sector_size - free_size (size j) }.
Lemma fits_block (s : state) h b j x : inv h s → blocks s !! b = Some j → fits j x → flash_offset x / sector_size = Z.of_nat b.
Proof.
  intros Hi Hb [Hok _ Ht Ha Hr Ho]. pose proof (inv_blocks _ _ Hi _ _ Hb) as Hj. pose proof sector_pos. pose proof (ok_offset _ _ _ Hj).
  pose proof (spans_le _ _ _ _ (ok_spans _ _ _ Hj)). pose proof (ok_sizes _ _ _ Hj Free) as Hf. cbn in Hf.
  destruct (ref_offset_aligned x Hok) as (_ & _ & _ & Hx & ?). assert (4 <= totlen x) by (clear -Ht Ha; Z.to_euclidean_division_equations; lia).
  symmetry. apply (Z.div_unique_pos _ _ _ (flash_offset x - offset j)); lia.
Qed.
(** What the node is charged as, and the block with it. *)
Definition charged_as (x : raw_ref) : kind := if ref_obsolete x then Dirty else Used.
Definition with_node (r : nat) (x : raw_ref) (j : eraseblock) : eraseblock :=
  on_size (plus (charged_as x) (totlen x)) (on_size (plus Free (- totlen x)) (on_phys (λ l, l ++ [r]) j)).
Lemma with_node_ok R b j r x : jeb_ok R b j → full j → fits j x → R !! r = Some x →
  jeb_ok R b (with_node r x j) ∧ full (with_node r x j).
Proof.
  intros [Ho Hz Hal Hs Hu Hc] Hfull [Hok Hfl Ht Ha Hr Hp] Hx. pose proof (nonneg_get _ Hz).
  assert (class_of x = charged_as x) as Hcl by (unfold class_of, charged_as; by rewrite (proj2 (Z.eqb_neq _ _) Hfl)).
  assert (∀ k, live R k (phys j ++ [r]) = live R k (phys j) + (if decide (charged_as x = k) then totlen x else 0)) as Hlive.
  { intros k. rewrite live_app, (live_cons _ _ _ _ _ Hx), Hcl. change (live R k []) with 0. lia. }
  assert (charged_as x = Dirty ∨ charged_as x = Used) as Hk by (unfold charged_as; destruct (ref_obsolete x); auto).
  assert (free_size (size (with_node r x j)) = free_size (size j) - totlen x) as Hfree.
  { change (get Free (plus (charged_as x) (totlen x) (plus Free (- totlen x) (size j))) = free_size (size j) - totlen x).
    rewrite !get_plus. cbn [get]. repeat case_decide; try done; [by destruct Hk; congruence|lia]. }
  split; [split|]; rewrite ?Hfree.
  - done.
  - intros k. unfold with_node. cbn [size on_size on_phys]. rewrite !get_plus. pose proof (Hz k). repeat case_decide; subst; try done; cbn [get] in *; lia.
  - clear -Hal Ha. Z.to_euclidean_division_equations; lia.
  - cbn [offset phys with_node on_size on_phys]. apply spans_app. eexists. split; [exact Hs|]. exists x. split_and!; [done..|lia|]. cbn. lia.
  - change (get Used (plus (charged_as x) (totlen x) (plus Free (- totlen x) (size j))) = live R Used (phys j ++ [r])). rewrite Hlive, !get_plus. cbn [get].
    rewrite (decide_False (P := Used = Free)) by done. rewrite Hu. repeat case_decide; try congruence; lia.
  - change (get Unchecked (plus (charged_as x) (totlen x) (plus Free (- totlen x) (size j))) = live R Unchecked (phys j ++ [r])). rewrite Hlive, !get_plus. cbn [get].
    rewrite (decide_False (P := Unchecked = Free)) by done. rewrite Hc. repeat case_decide; try (destruct Hk; congruence); lia.
  - unfold full, with_node in *. cbn [size on_size on_phys]. rewrite !sum_plus. lia.
Qed.
(** The write of the node leaves the other blocks alone, and what is behind it blank. *)
Lemma preserved_node h (s : state) b j x f y : inv h s → blocks s !! b = Some j → fits j x → touched (flash s) f (ref_offset x) (totlen x) → y ≠ b →
  preserved y s (on_flash (λ _, f) s).
Proof.
  intros Hi Hb [_ _ Hpos _ Hr Hp] Ht Hy. pose proof (inv_blocks _ _ Hi _ _ Hb) as Hj. pose proof (ok_offset _ _ _ Hj) as Ho.
  pose proof (spans_le _ _ _ _ (ok_spans _ _ _ Hj)). pose proof (ok_sizes _ _ _ Hj Free) as Hfr. cbn in Hfr.
  apply (preserved_touched b y s (on_flash (λ _, f) s) (ref_offset x) (totlen x)); [done|done|lia|lia].
Qed.
Lemma free_with_node r x j : free_size (size (with_node r x j)) = free_size (size j) - totlen x.
Proof.
  change (get Free (plus (charged_as x) (totlen x) (plus Free (- totlen x) (size j))) = free_size (size j) - totlen x). rewrite !get_plus. cbn [get].
  unfold charged_as. destruct (ref_obsolete x); repeat case_decide; try done; lia.
Qed.
Lemma unspoilt_with_node h (s : state) b j r x T f : inv h s → nextblock s = Some b → blocks s !! b = Some j → fits j x →
  touched (flash s) f (ref_offset x) (totlen x) → unspoilt (rebooked b (with_node r x j) T (on_flash (λ _, f) s)).
Proof.
  intros Hi Hn Hb Hf Ht. apply (unspoilt_mono h s); [done|]. intros y i. cbn [blocks rebooked on_total on_blocks on_flash].
  intros [(-> & <- & _)|[Hne Hi']]%list_lookup_insert_Some.
  - exists j. split_and!; [done|done| |].
    + intros _. left. destruct Hf as [_ _ Hpos _ Hr Hp]. pose proof (inv_unspoilt _ _ Hi _ _ Hb) as [Hw _]. specialize (Hw (or_introl Hn)).
      unfold writable_tail, blank in *. rewrite free_with_node. cbn [offset with_node on_size on_phys flash rebooked on_total on_blocks on_flash].
      replace (Z.to_nat (free_size (size j))) with (Z.to_nat (totlen x) + Z.to_nat (free_size (size j) - totlen x))%nat in Hw by lia.
      rewrite replicate_add, stored_app, length_replicate in Hw. destruct Hw as [_ Hw]. apply Ht; [|right; lia].
      by replace (offset j + sector_size - (free_size (size j) - totlen x)) with (offset j + sector_size - free_size (size j) + Z.of_nat (Z.to_nat (totlen x))) by lia.
    + intros Hc. by destruct (listed_alone _ _ _ _ (inv_placed _ _ Hi) Hc) as (_ & ? & _).
  - exists i. assert (preserved y s (on_flash (λ _, f) s)) as Hp by (apply (preserved_node h s b j x f y); try done; congruence). split_and!; [done|done|intros Hz; right; split_and!; [done|exact Hz|exact Hp]|intros Hz; right; split; [exact Hz|exact Hp]].
Qed.
(** The books with the node, before the block is filed. *)
Lemma inv_with_node h (s : state) b j r x T f : inv h s → nextblock s = Some b → blocks s !! b = Some j → refs s !! r = Some x → fits j x →
  touched (flash s) f (ref_offset x) (totlen x) → let s' := rebooked b (with_node r x j) T (on_flash (λ _, f) s) in accounted 0 s' → inv h s'.
Proof.
  intros Hi Hn Hb Hx Hf Ht s' Hacc. pose proof (inv_blocks _ _ Hi _ _ Hb) as Hj. pose proof (inv_placed _ _ Hi) as Hp.
  pose proof (proj2 (proj2 (inv_shaped _ _ Hi)) b j (or_introl Hn) Hb) as Hfull. destruct (with_node_ok _ _ _ r x Hj Hfull Hf Hx) as [Hj' Hfull'].
  eapply (inv_patch h s _ b j); try done.
  - intros q y ? ?. by exists y.
  - intros b' i _ Hi'. by apply (inv_blocks _ _ Hi).
  - intros n Hbn. by destruct (listed_alone _ _ _ _ Hp Hbn) as (_ & ? & _).
  - intros [He _]. unfold full in Hfull. rewrite He in Hfull. pose proof sector_pos. unfold sum in Hfull. cbn in Hfull. lia.
  - apply Hi.
  - by eapply unspoilt_with_node.
Qed.
(** The node is on the list of its block, which is open or filed. *)
Definition entered (r b : nat) (j : eraseblock) (s s' : state) : Prop :=
  refs s' = refs s ∧ caches s' = caches s ∧ ∃ j', blocks s' !! b = Some j' ∧ phys j' = phys j ++ [r] ∧ b ∉ lists s' free_list.
Lemma add_physical_node_ref_ok h (s : state) b j r x f :
  inv h s → nextblock s = Some b → blocks s !! b = Some j → refs s !! r = Some x → fits j x → touched (flash s) f (ref_offset x) (totlen x) →
  wp (jffs2_add_physical_node_ref r) (on_flash (λ _, f) s) (λ ret s', ret = 0 ∧ inv h s' ∧ entered r b j s s' ∧ undisturbed s s' ∧
    preserved b (on_flash (λ _, f) s) s').
Proof.
  intros Hi Hn Hb Hx Hf Hto. pose proof (inv_blocks _ _ Hi _ _ Hb) as Hj. pose proof (inv_placed _ _ Hi) as Hp. pose proof (fits_block s h b j x Hi Hb Hf) as Hd.
  pose proof (proj2 (proj2 (inv_shaped _ _ Hi)) b j (or_introl Hn) Hb) as Hfull. pose proof (sector_small _ _ _ _ Hp Hb) as Hsm.
  destruct (with_node_ok _ _ _ r x Hj Hfull Hf Hx) as [Hj' Hfull']. pose proof (ft_pos _ _ Hf). pose proof (ft_room _ _ Hf). pose proof (ft_place _ _ Hf) as Ho.
  pose proof (full_le Free _ _ _ Hj Hfull) as Hfr. cbn [get] in Hfr. pose proof (ok_offset _ _ _ Hj). set (s0 := on_flash (λ _, f) s).
  unfold jffs2_add_physical_node_ref. eapply wp_ref; [done|]. rewrite Hd, Nat2Z.id. cbv zeta. eapply wp_block; [done|]. eapply wp_ref_totlen; [done|done|].
  apply wp_sb_gets. change (nextblock s0) with (nextblock s). rewrite Hn, (bool_decide_eq_true_2 (Some b = Some b)), u32_small by (done || lia). rewrite Ho.
  replace (_ + (_ - _)) with (offset j + sector_size - free_size (size j)) by lia. rewrite Z.eqb_refl. cbn [negb orb]. rewrite andb_false_r.
  eapply wp_then; [reflexivity|]. cbv beta. set (j1 := on_phys (λ l, l ++ [r]) j).
  match goal with |- wp _ ?s1 _ => assert (s1 = rebooked b j1 (total s0) s0) as -> end.
  { apply sb_ext; try done. cbn. by rewrite (alter_is_insert _ _ _ _ Hb). }
  assert (accounted 0 (rebooked b j1 (total s0) s0)) as Hacc.
  { destruct (inv_accounted _ _ Hi) as [Hbk Hbal]. split; [|exact Hbal]. intros k. unfold rebooked. cbn [blocks total on_total on_blocks]. change (blocks s0) with (blocks s).
    change (total s0) with (total s). rewrite (column_insert _ _ _ _ _ Hb), (Hbk k). f_equal. cbn. lia. }
  eapply wp_charge; [done|exact Hacc|cbn; lia|]. intros T1 HT1. change (if ref_obsolete x then Dirty else Used) with (charged_as x).
  eapply wp_charge; [done|exact HT1| |].
  { change (size (on_size (plus Free (- totlen x)) j1)) with (plus Free (- totlen x) (size j)). rewrite get_plus. pose proof (full_le (charged_as x) _ _ _ Hj Hfull). rewrite decide_False by (unfold charged_as; by destruct (ref_obsolete x)).
    pose proof (get_le_sum (charged_as x) (upd Free (λ _, 0) (size j))) as Hle. rewrite sum_upd, get_upd_ne in Hle by (unfold charged_as; by destruct (ref_obsolete x)).
    unfold full in Hfull. cbn [get] in Hle. specialize (Hle ltac:(intros k; rewrite get_upd; case_decide; [done|apply Hj])). lia. }
  intros T2 HT2. replace (0 + - totlen x + totlen x) with 0 in HT2 by lia. change (on_size _ (on_size _ j1)) with (with_node r x j) in *. clear HT1 Hacc.
  eapply wp_block; [by eapply rebooked_block|]. pose proof (inv_with_node h s b j r x T2 f Hi Hn Hb Hx Hf Hto HT2) as Hi2. fold s0 in Hi2. set (s2 := rebooked b (with_node r x j) T2 s0) in *.
  assert (blocks s2 !! b = Some (with_node r x j)) as Hb2 by (by apply (rebooked_block b _ j)). assert (b ∉ lists s free_list ∧ b ∉ lists s erasing_list) as [Hnf Hne]
    by (split; intros Hbf; by destruct (listed_alone _ _ _ _ Hp Hbf) as (_ & ? & _)).
  assert (∀ s3, inv h s3 → blocks s3 = blocks s2 → refs s3 = refs s → caches s3 = caches s → flash s3 = f → b ∉ lists s3 free_list → b ∉ lists s3 erasing_list → undisturbed s s3 →
    wp (acct_checks b;; spin_unlock;; mret 0) s3 (λ ret s', ret = 0 ∧ inv h s' ∧ entered r b j s s' ∧ undisturbed s s' ∧ preserved b s0 s')) as Hend.
  { intros s3 Hi3 Hbl Hr3 Hc3 Hfl3 Hn3 He3 Hu3. eapply wp_then; [eapply (acct_checks_eq b (with_node r x j)); [apply Hi3|by rewrite Hbl|by rewrite Hr3|done|by apply inv_balance with (h := h)]|].
    apply wp_bind. eapply wp_mono; [|by apply spin_unlock_ok]. intros [] s4 [Hi4 Hq]. apply wp_ret. pose proof (q_kept _ _ Hq) as Hk.
    split_and!; [done|done| |eapply undisturbed_trans; [done|by apply (quiet_undisturbed h)]|].
    - split_and!; [by rewrite (kp_refs _ _ Hk)|by rewrite (kp_caches _ _ Hk)|]. exists (with_node r x j). split_and!; [by rewrite (kp_blocks _ _ Hk), Hbl|done|].
      rewrite (q_lists _ _ Hq) by set_solver. done.
    - eapply preserved_trans; [by apply (preserved_flash b s0 s3)|by apply (kp_flash _ _ Hk)]. }
  assert (∀ s3, blocks s3 = blocks s2 → refs s3 = refs s → caches s3 = caches s → flash s3 = f → gcblock s3 = gcblock s → (∀ n y, y ∈ lists s3 n → y ≠ b → y ∈ lists s n) →
    (∀ y, nextblock s3 = Some y → y = b) → undisturbed s s3) as Hund.
  { intros s3 Hbl Hr3 Hc3 Hfl3 Hg3 Hl3 Hn3. assert (∀ i, blocks s3 !! b = Some i → i = with_node r x j) as Hone by (intros i Hbi; rewrite Hbl in Hbi; congruence).
    apply (undisturbed_but h s s3 b); [done|done|by eapply next_not_gc|..].
    - intros b' Hb'. rewrite Hbl. cbn. by rewrite list_lookup_insert_ne.
    - intros b' i q _ _ _. by apply same_node_eq.
    - intros Hck i ->%Hone. rewrite (ok_unchecked _ _ _ Hj'). change (phys (with_node r x j)) with (phys j ++ [r]). rewrite live_app, (live_cons _ _ _ _ _ Hx), <-(ok_unchecked _ _ _ Hj), (Hck b j Hb).
      rewrite decide_False; [done|]. unfold class_of. rewrite (proj2 (Z.eqb_neq _ _) (ft_flags _ _ Hf)). by destruct (ref_obsolete x).
    - intros n y _. apply Hl3.
    - intros y ->%Hn3. done.
    - intros _ i ->%Hone. split; [intros _ _ _|intros _; left]; cbn; by destruct (phys j).
    - intros y Hy. assert (y ≠ b) as Hyb by (intros ->; by apply (next_not_gc h s b)). eapply preserved_trans; [by eapply preserved_node|]. by apply preserved_flash. }
  destruct (_ && _); [|eapply wp_then; [reflexivity|]; apply Hend; try done; apply Hund; try done; cbn; congruence].
  pose proof (close_next_ok h s2 b (with_node r x j) (with_node r x j) (total s2) clean_list) as Hclose. rewrite (rebooked_id b _ s2 Hb2) in Hclose.
  apply wp_bind. eapply wp_mono; [|apply Hclose; try done; left]. intros [] s3 [-> Hi3]. apply Hend; [done..| | |].
  - cbn. by rewrite decide_False.
  - cbn. by rewrite decide_False.
  - apply Hund; try done. intros n y Hy Hyb. cbn in Hy. case_decide; [|done]. by apply elem_of_app in Hy as [?| ->%list_elem_of_singleton].
Qed.
(** A node anywhere else is refused, and its reference freed. *)
Lemma add_wrong_place_ok h (s : state) b j r x :
  inv h s → blocks s !! b = Some j → refs s !! r = Some x → unused r s → flash_offset x / sector_size = Z.of_nat b →
  nextblock s ≠ None ∨ ref_obsolete x = false → nextblock s ≠ Some b ∨ ref_offset x ≠ offset j + sector_size - free_size (size j) →
  wp (jffs2_add_physical_node_ref r) s (λ ret s', ret = - EINVAL ∧ inv h s' ∧ s' = on_refs (delete r) s).
Proof.
  intros Hi Hb Hx Hun Hd Hopen Hwrong. unfold jffs2_add_physical_node_ref. eapply wp_ref; [done|]. rewrite Hd, Nat2Z.id. cbv zeta. eapply wp_block; [done|].
  eapply wp_ref_totlen; [done|done|]. apply wp_sb_gets. pose proof (inv_blocks _ _ Hi _ _ Hb) as Hj. pose proof (sector_small _ _ _ _ (inv_placed _ _ Hi) Hb). pose proof sector_pos.
  pose proof (ok_offset _ _ _ Hj). pose proof (spans_le _ _ _ _ (ok_spans _ _ _ Hj)). pose proof (ok_sizes _ _ _ Hj Free) as Hf. cbn in Hf.
  assert (bool_decide (nextblock s ≠ None) || negb (ref_obsolete x) = true) as -> by (apply orb_true_iff; destruct Hopen as [?| ->]; [left; by apply bool_decide_eq_true|by right]).
  assert (negb (bool_decide (nextblock s = Some b)) || negb (ref_offset x =? u32 (offset j + (sector_size - free_size (size j)))) = true) as ->.
  { rewrite u32_small by lia. apply orb_true_iff. destruct Hwrong as [Hn|Hn]; [left|right]; apply negb_true_iff; [by apply bool_decide_eq_false|apply Z.eqb_neq; lia]. }
  cbn [andb]. eapply wp_free; [exact Hx|]. apply wp_ret. split_and!; [done| |done].
  change (inv h (on_refs (λ _, delete r (refs s)) s)). apply (inv_unused _ s r); [done|done| |].
  - intros q Hq. by rewrite lookup_delete_ne.
  - intros y. by rewrite lookup_delete_eq.
Qed.

(** ** The node joins its inode *)

(** [raw->next_in_ino = ic->nodes; ic->nodes = raw] *)
Definition linked_refs (r : nat) (x : raw_ref) (c : inode_cache) (R : gmap nat raw_ref) : gmap nat raw_ref := <[r := with_next (nodes c) x]> R.
Definition linked_caches (r i : nat) (c : inode_cache) (C : gmap nat inode_cache) : gmap nat inode_cache := <[i := with_nodes (ToRef r) c]> C.
Lemma chained_linked R C r x i c : chained R C → R !! r = Some x → next_in_ino x = Null → C !! i = Some c →
  chained (linked_refs r x c R) (linked_caches r i c C).
Proof.
  intros [H1 H2] Hx Hn Hc. unfold linked_refs, linked_caches.
  assert (∀ l ns i', seg R l ns (ToCache i') → seg (<[r := with_next (nodes c) x]> R) l ns (ToCache i')) as Hseg.
  { intros l ns i' Hs. eapply seg_frame; [|exact Hs]. intros q y Hq Hy. exists y. split; [|done]. rewrite lookup_insert_ne; [done|]. intros ->.
    destruct (seg_elem _ _ _ _ _ Hs Hq) as (z & Hz & Hzn). simplify_eq. }
  destruct (H1 i c Hc) as [ns Hns]. assert (chain (<[r := with_next (nodes c) x]> R) (with_nodes (ToRef r) c) (r :: ns) i) as Hnew.
  { split; [done|]. exists (with_next (nodes c) x). rewrite lookup_insert_eq. split; [done|]. by apply Hseg. }
  split.
  - intros i' c'. destruct (decide (i' = i)) as [->|Hi]; [rewrite lookup_insert_eq; intros [= <-]; by exists (r :: ns)|].
    rewrite lookup_insert_ne by done. intros Hc'. destruct (H1 i' c' Hc') as [ns' Hns']. exists ns'. by apply Hseg.
  - intros q y Hy Hyn. assert (q = r ∨ q ≠ r ∧ R !! q = Some y) as [->|[Hq Hy']].
    { destruct (decide (q = r)) as [->|Hq]; [by left|]. rewrite lookup_insert_ne in Hy by done. auto. }
    + exists i, (with_nodes (ToRef r) c), (r :: ns). rewrite lookup_insert_eq. split_and!; [done|done|left].
    + destruct (H2 q y Hy' Hyn) as (i' & c' & ns' & Hc' & Hch & Hin). destruct (decide (i' = i)) as [->|Hi].
      * simplify_eq. destruct (seg_det _ _ _ _ _ _ Hns Hch) as [-> _]. exists i, (with_nodes (ToRef r) c), (r :: ns'). rewrite lookup_insert_eq. split_and!; [done|done|by right].
      * exists i', c', ns'. rewrite lookup_insert_ne by done. split_and!; [done|by apply Hseg|done].
Qed.
(** The node of a block in use may join. *)
Lemma inv_linked h (s : state) b j r x i c : inv h s → blocks s !! b = Some j → r ∈ phys j → b ∉ lists s free_list →
  refs s !! r = Some x → next_in_ino x = Null → caches s !! i = Some c →
  inv h (on_caches (linked_caches r i c) (on_refs (linked_refs r x c) s)).
Proof.
  intros Hi Hb Hr Hbf Hx Hn Hc. pose proof (λ b' j' q, phys_disjoint h s b j b' j' q Hi Hb) as Hdis. destruct Hi as [Hbk Hbal Hp (Hl & Hh & Ho) Hct Hj Hch Hun]. set (s' := on_caches _ _).
  split; try done.
  - split_and!; try done. intros n b' j' Hb' Hj'. pose proof (Hl n b' j' Hb' Hj') as Hs. destruct n; try done. destruct Hs as (? & ? & ? & Hnull). split_and!; try done.
    intros q y Hq Hy. cbn in Hy. unfold linked_refs in Hy. rewrite lookup_insert_ne in Hy; [by apply (Hnull q y)|]. intros <-.
    apply Hbf. by rewrite (Hdis b' j' r Hj' Hr Hq).
  - by apply (counted_same h s).
  - intros b' j' Hj'. apply (jeb_ok_agree (refs s)); [| |by apply Hj]; intros q y _ Hy; cbn; unfold linked_refs.
    all: destruct (decide (q = r)) as [->|Hq]; [rewrite lookup_insert_eq; simplify_eq; eexists; split; [done|]; by split_and?|rewrite lookup_insert_ne by done; by exists y].
  - by apply (chained_linked (refs s)).
Qed.

(** The other nodes are still whose they were. *)
Lemma linked_owns (s : state) r x i c k q : refs s !! r = Some x → next_in_ino x = Null → caches s !! i = Some c → owns s k q →
  owns (on_caches (linked_caches r i c) (on_refs (linked_refs r x c) s)) k q.
Proof.
  intros Hx Hn Hc (c' & ns & Hc' & Hns & Hq). assert (∀ l ns, seg (refs s) l ns (ToCache k) → seg (linked_refs r x c (refs s)) l ns (ToCache k)) as Hseg.
  { intros l ns' Hs. eapply seg_frame; [|exact Hs]. intros p y Hp Hy. exists y. split; [|done]. unfold linked_refs. rewrite lookup_insert_ne; [done|]. intros ->.
    destruct (seg_elem _ _ _ _ _ Hs Hp) as (z & Hz & Hzn). simplify_eq. }
  unfold owns. cbn [caches refs on_caches on_refs]. unfold linked_caches. destruct (decide (k = i)) as [->|Hk].
  - exists (with_nodes (ToRef r) c), (r :: ns). rewrite lookup_insert_eq. simplify_eq. split_and!; [done| |by right]. split; [done|].
    exists (with_next (nodes c) x). unfold linked_refs at 1. rewrite lookup_insert_eq. split; [done|]. by apply Hseg.
  - exists c', ns. rewrite lookup_insert_ne by done. split_and!; [done|by apply Hseg|done].
Qed.
Lemma linked_undisturbed h (s : state) b j r x i c : inv h s → blocks s !! b = Some j → r ∈ phys j → gcblock s ≠ Some b →
  refs s !! r = Some x → next_in_ino x = Null → caches s !! i = Some c →
  undisturbed s (on_caches (linked_caches r i c) (on_refs (linked_refs r x c) s)).
Proof.
  intros Hi Hb Hr Hg Hx Hn Hc. apply (undisturbed_but h s _ b); try done.
  - intros b' j' q Hb' Hj' Hq. split; [|intros k; by apply linked_owns]. intros y Hy. exists y. split; [|done]. cbn [refs on_caches on_refs]. unfold linked_refs.
    rewrite lookup_insert_ne; [done|]. intros <-. apply Hb'. by rewrite (phys_disjoint h s b j b' j' r).
  - intros Hck j'. apply Hck.
  - intros [L N G] j' Hj'. split; [intros n Hnu Hbn; by eapply L|intros Hnb; by eapply N].
  - intros y _. by apply preserved_flash.
Qed.

(** ** The books of a write *)

Lemma PAD_bounds n : 0 <= n → n + 3 < 2 ^ 32 → n <= PAD n < n + 4 ∧ PAD n mod 4 = 0.
Proof. intros H0 H1. unfold PAD. rewrite u32_small, land_align by lia. Z.to_euclidean_division_equations. lia. Qed.
(** A new reference of a node at the end of the open block. *)
Lemma new_ref_fits h (s : state) b j n fl l : inv h s → nextblock s = Some b → blocks s !! b = Some j →
  0 < fl < 4 → 12 <= n → n <= sector_size → PAD n <= free_size (size j) →
  fits j (Ref ((offset j + sector_size - free_size (size j)) ||| fl) (PAD n) l) ∧
  ref_flags (Ref ((offset j + sector_size - free_size (size j)) ||| fl) (PAD n) l) = fl.
Proof.
  intros Hi Hn Hb Hfl Hn0 Hns Hp. pose proof (inv_blocks _ _ Hi _ _ Hb) as Hj. pose proof (sector_small _ _ _ _ (inv_placed _ _ Hi) Hb).
  pose proof (ok_offset _ _ _ Hj). pose proof (spans_le _ _ _ _ (ok_spans _ _ _ Hj)). pose proof (ok_aligned _ _ _ Hj) as Hal. pose proof sector_aligned as Hsa.
  assert (offset j mod 4 = 0) as Hoa by (rewrite (ok_offset _ _ _ Hj), Z.mul_mod, Hsa, Z.mul_0_r by lia; done).
  assert (sector_size + 3 < 2 ^ 32) as Hs3 by (clear -H Hsa; Z.to_euclidean_division_equations; lia).
  destruct (PAD_bounds n) as [Hpn Hpa]; [lia..|].
  destruct (made_ref (offset j + sector_size - free_size (size j)) fl (PAD n) l) as (Hok & Ho & Hf); [lia|lia|lia| |done|].
  { clear -Hoa Hsa Hal. Z.to_euclidean_division_equations; lia. }
  split; [|done]. split; [done|rewrite Hf; unfold REF_UNCHECKED; lia|cbn; lia|done|done|done].
Qed.
(** The state with a reference that is nobody's yet. *)
Definition with_ref (r : nat) (x : raw_ref) (s : state) : state := on_refs <[r := x]> s.
Lemma inv_with_ref h (s : state) r x : inv h s → unused r s → next_in_ino x = Null → inv h (with_ref r x s).
Proof.
  intros Hi Hun Hx. change (inv h (on_refs (λ _, <[r := x]> (refs s)) s)). apply (inv_unused _ s r); [done|done| |].
  - intros q Hq. by rewrite lookup_insert_ne.
  - intros y. rewrite lookup_insert_eq. by intros [= <-].
Qed.
Lemma undisturbed_unused h (s : state) r R' f : inv h s → unused r s → (∀ q, q ≠ r → R' !! q = refs s !! q) →
  (∀ b, still b s → preserved b s (on_flash (λ _, f) s)) → undisturbed s (on_flash (λ _, f) (on_refs (λ _, R') s)).
Proof. intros Hi Hun HR Hf. apply (bystander_undisturbed h); [done|]. by apply (unused_bystander s r). Qed.
Lemma undisturbed_with_ref h (s : state) r x : inv h s → unused r s → undisturbed s (with_ref r x s).
Proof.
  intros Hi Hun. change (undisturbed s (on_flash (λ _, flash s) (on_refs (λ _, <[r := x]> (refs s)) s))).
  apply (undisturbed_unused h s r); [done|done| |intros; by apply preserved_flash].
  intros q Hq. by rewrite lookup_insert_ne.
Qed.
(** [n] bytes at [ofs] of the open block [b]. *)
Record open_room (s : state) (b : nat) (j : eraseblock) (ofs n : Z) : Prop := OpenRoom {
  or_next : nextblock s = Some b; or_block : blocks s !! b = Some j; or_ofs : ofs = offset j + sector_size - free_size (size j);
  or_pos : 12 <= n; or_sector : n <= sector_size; or_room : PAD n <= free_size (size j) }.
Lemma PAD_le h (s : state) b j ofs n : inv h s → open_room s b j ofs n → n <= PAD n.
Proof.
  intros Hi [_ Hb _ Hn Hs _]. pose proof (sector_small _ _ _ _ (inv_placed _ _ Hi) Hb). pose proof sector_aligned as Hsa.
  assert (sector_size + 3 < 2 ^ 32) by (clear -H Hsa; Z.to_euclidean_division_equations; lia). destruct (PAD_bounds n); lia.
Qed.
(** What is written there is in nobody's way. *)
Lemma written_still h (s : state) b j ofs n f y : inv h s → open_room s b j ofs n → touched (flash s) f ofs n → y ≠ b → preserved y s (on_flash (λ _, f) s).
Proof.
  intros Hi Hr Ht Hy. pose proof (PAD_le _ _ _ _ _ _ Hi Hr). destruct Hr as [_ Hb -> Hn0 Hns Hp]. pose proof (inv_blocks _ _ Hi _ _ Hb) as Hj. pose proof (ok_offset _ _ _ Hj) as Ho.
  pose proof (spans_le _ _ _ _ (ok_spans _ _ _ Hj)). pose proof (ok_sizes _ _ _ Hj Free) as Hfr. cbn in Hfr.
  apply (preserved_touched b y s (on_flash (λ _, f) s) (offset j + sector_size - free_size (size j)) n); [done|done|lia|lia].
Qed.
(** The room is blank. *)
Lemma room_blank h (s : state) b j ofs n : inv h s → open_room s b j ofs n → blank (flash s) ofs (Z.to_nat n).
Proof.
  intros Hi Hr. pose proof (PAD_le _ _ _ _ _ _ Hi Hr). destruct Hr as [Hn Hb -> Hn0 Hns Hp].
  apply (blank_less _ _ (Z.to_nat (free_size (size j)))); [|lia]. apply (inv_unspoilt _ _ Hi b j Hb). by left.
Qed.
(** The reference is reported as [report_failed] and [report_written] do it. *)
Lemma report_ok {B} h (s : state) b j r ofs n fl f (k : Z → P B) Q : inv h s → open_room s b j ofs n → unused r s → 0 < fl < 4 → touched (flash s) f ofs n →
  let x := Ref (ofs ||| fl) (PAD n) Null in
  (∀ s1, inv h s1 → entered r b j (with_ref r x s) s1 → undisturbed s s1 → preserved b (on_flash (λ _, f) s) s1 → refs s1 !! r = Some x → wp (k 0) s1 Q) →
  ref_flags x = fl ∧ ref_offset x = ofs ∧ wp (jffs2_add_physical_node_ref r ≫= k) (with_ref r x (on_flash (λ _, f) s)) Q.
Proof.
  intros Hi Hroom Hun Hfl Ht x Hk. pose proof (PAD_le _ _ _ _ _ _ Hi Hroom). destruct Hroom as [Hn Hb -> Hn0 Hns Hp].
  destruct (new_ref_fits h s b j n fl Null) as [Hf Hx]; try done. fold x in Hf, Hx. split_and!; [done|apply Hf|].
  apply wp_bind. change (with_ref r x (on_flash (λ _, f) s)) with (on_flash (λ _, f) (with_ref r x s)).
  eapply wp_mono; [|apply (add_physical_node_ref_ok h (with_ref r x s) b j r x); [by apply inv_with_ref|done|done|apply lookup_insert_eq|done|]].
  - intros ret s1 (-> & Hi1 & He1 & Hu1 & Hp1). apply Hk; [done|done| |exact Hp1|].
    + eapply undisturbed_trans; [by eapply undisturbed_with_ref|exact Hu1].
    + destruct He1 as (-> & _). apply lookup_insert_eq.
  - rewrite (ft_place _ _ Hf). eapply touched_more; [exact Ht|done].
Qed.
Lemma report_failed_ok h (s : state) b j r ofs n retlen f : inv h s → open_room s b j ofs n → unused r s → touched (flash s) f ofs n →
  (retlen = 0 → ∀ o l, stored (flash s) o l → stored f o l) →
  wp (report_failed r retlen) (with_ref r (Ref ofs (PAD n) Null) (on_flash (λ _, f) s)) (λ _ s', inv h s' ∧ undisturbed s s').
Proof.
  intros Hi Hroom Hun Ht Hnone. unfold report_failed. destruct (truthy retlen) eqn:Hret.
  - do 2 (eapply wp_then; [reflexivity|]). cbv beta. set (x := Ref (ofs ||| REF_OBSOLETE) (PAD n) Null).
    match goal with |- wp _ ?s1 _ => assert (s1 = with_ref r x (on_flash (λ _, f) s)) as -> end.
    { apply sb_ext; try done. unfold with_ref. cbn [refs on_refs]. rewrite !alter_insert_eq. done. }
    destruct (report_ok h s b j r ofs n REF_OBSOLETE f (λ _, jffs2_mark_node_obsolete (Some r)) (λ _ s', inv h s' ∧ undisturbed s s')) as (_ & _ & H); try done.
    intros s1 Hi1 _ Hu1 _ Hx1. unfold jffs2_mark_node_obsolete. eapply wp_ref; [exact Hx1|]. rewrite ref_obsolete_flags. fold x.
    destruct (new_ref_fits h s b j n REF_OBSOLETE Null) as [_ Hfl']; try apply Hroom; try done. rewrite <-(or_ofs _ _ _ _ _ Hroom) in Hfl'. fold x in Hfl'. rewrite Hfl'. by apply wp_ret.
  - assert (retlen = 0) as Hz by (unfold truthy in Hret; lia). specialize (Hnone Hz).
    unfold wp, jffs2_free_raw_node_ref, with_ref. cbn [refs on_refs on_flash]. rewrite lookup_insert_eq. set (R' := delete r (<[r := Ref ofs (PAD n) Null]> (refs s))).
    assert (∀ q, q ≠ r → R' !! q = refs s !! q) as HR by (intros q Hq; unfold R'; by rewrite lookup_delete_ne, lookup_insert_ne). split.
    + change (inv h (on_refs (λ _, R') (on_flash (λ _, f) s))). apply (inv_unused _ (on_flash (λ _, f) s) r); [by apply inv_unwritten|done|done|]. intros x. unfold R'. by rewrite lookup_delete_eq.
    + change (undisturbed s (on_flash (λ _, f) (on_refs (λ _, R') s))). apply (undisturbed_unused h s r R' f); [done|done|done|]. intros y _ o l _ _. apply Hnone.
Qed.
(** The node [r], of [n] bytes at [ofs] and with the flags [fl], is the first of the inode [i]. *)
Definition recorded_as (r i : nat) (ofs n fl : Z) (s : state) : Prop :=
  ∃ x c, caches s !! i = Some c ∧ nodes c = ToRef r ∧ refs s !! r = Some x ∧ ref_offset x = ofs ∧ totlen x = PAD n ∧ ref_flags x = fl.
Definition recorded (i : nat) (ofs n fl : Z) (s : state) : Prop := ∃ r, recorded_as r i ofs n fl s.
Lemma report_written_ok h (s : state) b j r ofs n i c fl f : inv h s → open_room s b j ofs n → unused r s → caches s !! i = Some c → 0 < fl < 4 →
  touched (flash s) f ofs n →
  wp (report_written r fl i) (with_ref r (Ref ofs (PAD n) Null) (on_flash (λ _, f) s)) (λ _ s', inv h s' ∧ recorded_as r i ofs n fl s' ∧ undisturbed s s' ∧
    preserved b (on_flash (λ _, f) s) s' ∧ b ∉ lists s' erasing_list).
Proof.
  intros Hi Hroom Hun Hc Hflr Ht. set (x := Ref (ofs ||| fl) (PAD n) Null). unfold report_written. eapply wp_then; [reflexivity|]. cbv beta.
  match goal with |- wp _ ?s1 _ => assert (s1 = with_ref r x (on_flash (λ _, f) s)) as -> end.
  { apply sb_ext; try done. unfold with_ref. cbn [refs on_refs]. by rewrite alter_insert_eq. }
  destruct (new_ref_fits h s b j n fl Null) as [Hfit Hfl]; try apply Hroom; try done. rewrite <-(or_ofs _ _ _ _ _ Hroom) in Hfit, Hfl. fold x in Hfit, Hfl.
  match goal with |- wp (_ ≫= ?k) _ ?Q => destruct (report_ok h s b j r ofs n fl f k Q) as (_ & _ & H); try done end.
  intros s1 Hi1 (Hr1 & Hc1 & j1 & Hb1 & Hph & Hbf) Hu1 Hp1 Hx1.
  assert (caches s1 !! i = Some c) as Hci by (by rewrite Hc1). fold x in Hx1. eapply wp_ref; [exact Hx1|]. eapply wp_cache; [exact Hci|]. do 2 (eapply wp_then; [reflexivity|]). cbv beta.
  match goal with |- wp _ ?s2 _ => assert (s2 = on_caches (linked_caches r i c) (on_refs (linked_refs r x c) s1)) as -> end.
  { apply sb_ext; try done; cbn; [by apply map_eq; intros q; unfold linked_refs; destruct (decide (q = r)) as [->|]; [rewrite lookup_alter_eq, lookup_insert_eq, Hx1|rewrite lookup_alter_ne, lookup_insert_ne]|].
    by apply map_eq; intros q; unfold linked_caches; destruct (decide (q = i)) as [->|]; [rewrite lookup_alter_eq, lookup_insert_eq, Hci|rewrite lookup_alter_ne, lookup_insert_ne]. }
  set (s2 := on_caches _ _). assert (inv h s2) as Hi2 by (by apply (inv_linked h s1 b j1); [done|done|rewrite Hph; apply elem_of_app; right; left|..]).
  assert (undisturbed s1 s2) as Hu2.
  { apply (linked_undisturbed h s1 b j1); try done; [rewrite Hph; apply elem_of_app; right; left|]. rewrite (un_gc _ _ Hu1). apply (next_not_gc h s); [done|apply Hroom]. }
  assert (b ∉ lists s2 erasing_list) as He2.
  { intros He. assert (emptied j1) as [_ He1] by exact (proj1 (inv_shaped _ _ Hi1) erasing_list b j1 He Hb1). rewrite Hph in He1. by destruct (phys j). }
  eapply wp_mono; [|by apply spin_unlock_ok]. intros [] s3 [Hi3 Hq]. pose proof (q_kept _ _ Hq) as Hk. split_and!; [done| | | |].
  - exists (with_next (nodes c) x), (with_nodes (ToRef r) c). rewrite (kp_refs _ _ Hk), (kp_caches _ _ Hk). cbn [s2 refs caches on_caches on_refs].
    unfold linked_refs, linked_caches. rewrite !lookup_insert_eq. split_and!; try done. rewrite (or_ofs _ _ _ _ _ Hroom). exact (ft_place _ _ Hfit).
  - eapply undisturbed_trans; [exact Hu1|]. eapply undisturbed_trans; [exact Hu2|by apply (quiet_undisturbed h)].
  - eapply preserved_trans; [exact Hp1|]. eapply (preserved_trans _ s1 s2); [by apply preserved_flash|by apply (kp_flash _ _ Hk)].
  - intros He%(kp_erasing _ _ Hk). done.
Qed.
(** Memory is asked for twice; nothing else changes. *)
Lemma open_room_env s b j ofs n f : open_room s b j ofs n → open_room (on_env f s) b j ofs n.
Proof. by intros []. Qed.
Lemma prepare_raw_ok {B} h (s : state) b j ofs n (k : option nat → P B) Q : inv h s → open_room s b j ofs n →
  (∀ s', inv h s' → caches s' = caches s → undisturbed s s' → wp (k None) s' Q) →
  (∀ s' r, inv h s' → open_room s' b j ofs n → caches s' = caches s → flash s' = flash s → unused r s' → undisturbed s s' →
     wp (k (Some r)) (with_ref r (Ref ofs (PAD n) Null) s') Q) →
  wp (prepare_raw ofs n ≫= k) s Q.
Proof.
  intros Hi Hroom Hno Hyes. unfold prepare_raw, jffs2_alloc_raw_node_ref. apply wp_assoc, wp_assoc, wp_kmalloc. intros ok s1 Hs1 Hm1.
  assert (undisturbed s s1) as Hu1 by (apply (bystander_undisturbed h); [done|]; rewrite Hs1; apply env_bystander; rewrite Hs1 in Hm1; cbn [env on_env] in Hm1; lia).
  assert (inv h s1) as Hi1 by (rewrite Hs1; by apply (inv_env h s)). assert (open_room s1 b j ofs n) as Hr1 by (rewrite Hs1; by apply open_room_env).
  assert (caches s1 = caches s ∧ flash s1 = flash s) as [Hc1 Hf1] by (by rewrite Hs1). clear Hs1. destruct ok; [|by apply Hno].
  apply wp_assoc, wp_sb_gets. cbv beta. eapply wp_then; [reflexivity|]. cbv beta. set (r := fresh _). destruct (fresh_ref_unused h s1 Hi1) as [Hr Hun]. fold r in Hr, Hun.
  change (wp ((ok ← kmalloc; if negb ok then jffs2_free_raw_node_ref r;; mret None else on_raw r (λ x, Ref ofs (PAD n) (next_in_ino x));; mret (Some r)) ≫= k)
    (with_ref r (Ref 0 0 Null) s1) Q).
  apply wp_assoc, wp_kmalloc. intros ok s2 -> Hm2. set (s3 := on_env take_memory s1).
  assert (undisturbed s s3) as Hu3 by (eapply undisturbed_trans; [exact Hu1|]; apply (bystander_undisturbed h); [done|]; apply env_bystander; unfold with_ref in Hm2; cbn [env on_env on_refs] in Hm2; lia).
  assert (inv h s3) as Hi3 by (by apply (inv_env h s1)). assert (open_room s3 b j ofs n) as Hr3 by (by apply open_room_env). destruct ok; cbn [negb].
  - eapply wp_then; [reflexivity|]. cbv beta. match goal with |- wp _ ?s4 _ => assert (s4 = with_ref r (Ref ofs (PAD n) Null) s3) as -> end.
    { apply sb_ext; try done. unfold with_ref. cbn [refs on_refs on_env]. by rewrite alter_insert_eq. }
    by apply Hyes.
  - apply wp_assoc. eapply wp_free; [apply lookup_insert_eq|]. match goal with |- wp _ ?s4 _ => assert (s4 = s3) as -> end.
    { apply sb_ext; try done. unfold with_ref. cbn [refs on_refs on_env]. by apply delete_insert_id. }
    by apply Hno.
Qed.
(** The check of debug.c finds the room blank. *)
Lemma prewrite_check_ok {B} h (s : state) b j ofs n (k : unit → P B) Q : inv h s → open_room s b j ofs n →
  wp (k tt) (on_env take_memory s) Q → wp (jffs2_dbg_prewrite_paranoia_check ofs n ≫= k) s Q.
Proof.
  intros Hi Hroom Hk. unfold jffs2_dbg_prewrite_paranoia_check. apply wp_assoc, wp_kmalloc. intros ok s1 -> _. destruct ok; cbn [negb]; [|exact Hk].
  apply wp_assoc, wp_sb_gets. change (flash (on_env take_memory s)) with (flash s). pose proof (room_blank _ _ _ _ _ _ Hi Hroom) as Hb. destruct (mtd_read (flash s) ofs n) as [ret buf] eqn:Hr.
  destruct (truthy ret) eqn:Hret; [exact Hk|]. cbn [orb]. destruct (Z.eqb_spec (Z.of_nat (length buf)) n) as [Hlen|]; cbn [negb]; [|exact Hk].
  assert (ret = 0) as -> by (unfold truthy in Hret; lia). destruct (existsb _ buf) eqn:He; [exfalso|exact Hk].
  apply existsb_exists in He as (v & (m & Hm)%list_elem_of_In%list_elem_of_lookup & Hv). pose proof (lookup_lt_Some _ _ _ Hm) as Hml.
  specialize (Hb ofs n buf m 255 Hr Hlen). rewrite lookup_replicate_2 in Hb by lia. specialize (Hb eq_refl ltac:(lia)).
  replace (Z.to_nat (ofs + Z.of_nat m - ofs)) with m in Hb by lia. rewrite Hm in Hb. injection Hb as ->. done.
Qed.
Lemma store_node_ok h (s : state) b j ofs i c fl vecs :
  let n := Z.of_nat (length (concat vecs)) in
  inv h s → open_room s b j ofs n → header_good (concat vecs) = true → caches s !! i = Some c → 0 < fl < 4 →
  wp (store_node i fl vecs ofs) s (λ ret s', inv h s' ∧ undisturbed s s' ∧ (ret = 0 → recorded i ofs n fl s' ∧ stored (flash s') ofs (concat vecs))).
Proof.
  intros n Hi0 Hroom0 Hhdr Hc0 Hfl. unfold store_node. fold n. rewrite Hhdr. cbn [negb]. apply (prewrite_check_ok h s b j); [done|done|].
  set (s0 := on_env take_memory s). assert (undisturbed s s0) as Hu0.
  { apply (bystander_undisturbed h); [done|]. apply env_bystander. unfold misfortunes. cbn. destruct (memory (env s)); cbn; lia. }
  assert (inv h s0) as Hi by (by apply (inv_env h s)). assert (open_room s0 b j ofs n) as Hroom by (by apply open_room_env). assert (caches s0 !! i = Some c) as Hc by exact Hc0.
  clearbody s0. clear Hi0 Hroom0 Hc0. apply (prepare_raw_ok h s0 b j); [done|done|intros s' Hi' _ Hu; apply wp_ret; split_and!; [done|by eapply undisturbed_trans|done]|].
  intros s1 r Hi1 Hr1 Hc1 _ Hun Hu1. set (s2 := with_ref _ _ s1). destruct (fake_writev_eq s2 vecs ofs) as (ret & retlen & f & Hw & [Ht _ Hnone Hall]).
  change (flash s2) with (flash s1) in *. fold n in Ht.
  eapply wp_then; [exact Hw|]. cbv beta iota. change (on_flash (λ _, f) s2) with (with_ref r (Ref ofs (PAD n) Null) (on_flash (λ _, f) s1)). pose proof (undisturbed_trans _ _ _ Hu0 Hu1) as Hu01.
  destruct (truthy ret || negb (retlen =? n)) eqn:Hbad.
  - apply wp_bind. eapply wp_mono; [|by apply (report_failed_ok h s1 b j)]. intros [] s3 [Hi3 Hu3]. apply wp_ret. split_and!; [done|by eapply undisturbed_trans|].
    intros H0. exfalso. destruct (truthy ret) eqn:Htr; [|done]. subst. done.
  - apply orb_false_iff in Hbad as [Hret Hlen%negb_false_iff%Z.eqb_eq]. assert (ret = 0) as -> by (unfold truthy in Hret; lia).
    apply wp_bind. eapply wp_mono; [|apply (report_written_ok h s1 b j r ofs n i c fl); [done|done|done|by rewrite Hc1|done|done]].
    intros [] s3 (Hi3 & Hst & Hu3 & Hp3 & _). apply wp_ret. split_and!; [done|by eapply undisturbed_trans|]. intros _. split; [by exists r|].
    pose proof (PAD_le _ _ _ _ _ _ Hi1 Hr1). pose proof Hr1 as [_ Hb Ho _ _ Hpad]. pose proof (inv_blocks _ _ Hi1 _ _ Hb) as Hj. pose proof (ok_offset _ _ _ Hj).
    pose proof (spans_le _ _ _ _ (ok_spans _ _ _ Hj)). apply Hp3; [lia|subst n; lia|]. apply Hall; [done|done|]. pose proof (room_blank _ _ _ _ _ _ Hi1 Hr1) as Hbl. subst n. by rewrite Nat2Z.id in Hbl.
Qed.
End Room.
