(* ===== verification/Jffs2Allocator.v ===== *)
(** * Jffs2Allocator: the space of the flash under all of its users (fs/jffs2/nodemgmt.c, erase.c, write.c)

    Reservations, writes of nodes, nodes marked obsolete and erases in any order ([Users]); what the single calls
    promise; a small flash on which they run. *)

From Stdlib Require Import FunctionalExtensionality.
From S2P Require Import Prelude Jffs2Frag Jffs2Compr Jffs2Node Jffs2File Jffs2Write Jffs2Io Crc32 Jffs2Space Jffs2Books Jffs2Account Jffs2Obsolete Jffs2Erase Jffs2Reserve Jffs2Room.

(** ** The users *)

Module Users.
Import Space.
Section Calls.
Context {F : Type} `{!Mtd F} `{!Eraser F} {Geo : Geometry}.
Abbreviation state := (sb (F := F)).
Abbreviation P := (SM state).

(** A writer reserves room and stores its node there; between the two the others go on. *)
Inductive op := Reserve (minsize : Z) | Store (i : nat) (fl : Z) (vecs : list (list Z)) (ofs : Z) | Obsolete (r : nat) | Erase (count : Z).
Definition run (o : op) : P (Z * Z * Z) :=
  match o with
  | Reserve minsize => jffs2_reserve_space_gc minsize
  | Store i fl vecs ofs => ret ← store_node i fl vecs ofs; mret (ret, 0, 0)
  | Obsolete r => jffs2_mark_node_obsolete (Some r);; mret (0, 0, 0)
  | Erase count => jffs2_erase_pending_blocks count;; mret (0, 0, 0)
  end.
(** A node, which begins with a header of which the CRC is right, is stored in room that was granted, for an inode that has a
    cache; a node that is marked is on the list of a block that is in use. *)
Definition legal (o : op) (s : state) : Prop :=
  match o with
  | Store i fl vecs ofs =>
      let n := Z.of_nat (length (concat vecs)) in
      is_Some (caches s !! i) ∧ (fl = REF_PRISTINE ∨ fl = REF_NORMAL) ∧ header_good (concat vecs) = true ∧ 12 <= n ∧ ∃ len, granted s ofs len ∧ n <= len ∧ PAD n <= len
  | Obsolete r => ∃ b j, blocks s !! b = Some j ∧ r ∈ phys j ∧ b ∉ lists s free_list
  | Reserve _ | Erase _ => True
  end.
(** By operations that satisfy [A], each legal where it is called. *)
Inductive reaches (A : op → Prop) (s : state) : state → Prop :=
  | reaches_here : reaches A s s
  | reaches_next o s1 a s2 : reaches A s s1 → A o → legal o s1 → run o s1 = Some (a, s2) → reaches A s s2.
Definition any (o : op) : Prop := True.
(** The others, while a writer holds [alloc_sem]. *)
Definition others (o : op) : Prop := match o with Reserve _ | Store _ _ _ _ => False | _ => True end.
End Calls.
End Users.

Section Allocator.
Import Space Users.
Context {F : Type} `{!Mtd F} `{!Eraser F} `{!Erasable F} {Geo : Geometry} {Lawful_geo : Geometric}.
Abbreviation state := (sb (F := F)).

Lemma granted_open (s : state) h ofs len n : inv h s → granted s ofs len → 12 <= n → n <= len → PAD n <= len → ∃ b j, open_room s b j ofs n.
Proof.
  intros Hi (b & j & Hn & Hb & -> & Ho) H0 Hns Hp. exists b, j. pose proof (inv_blocks _ _ Hi _ _ Hb) as Hj.
  pose proof (full_le Free _ _ _ Hj (proj2 (proj2 (inv_shaped _ _ Hi)) b j (or_introl Hn) Hb)) as Hfr. cbn in Hfr. split; try done; lia.
Qed.
Lemma granted_bystander (s s' : state) ofs len : bystander s s' → granted s ofs len → granted s' ofs len.
Proof.
  intros Hby (b & j & Hn & Hb & -> & Ho). exists b, j. rewrite (by_next _ _ Hby). split_and!; [done|apply (by_block _ _ Hby); [by left|done]|done|done].
Qed.
(** What the collector relies on is left to it, by reservations of no more than a block. *)
Definition moderate (o : op) : Prop := match o with Reserve minsize => PAD minsize <= sector_size | _ => True end.
(** Every call that is legal returns, and keeps the books; the others keep room that was granted. *)
Lemma run_ok o (s : state) : inv [] s → prompt → legal o s →
  wp (run o) s (λ _ s', inv [] s' ∧ (others o → ∀ ofs len, granted s ofs len → granted s' ofs len) ∧
    (moderate o → (checked s → checked s') ∧ (collectable s → collectable s'))).
Proof.
  intros Hi Hpr Hl. destruct o as [minsize|i fl vecs ofs|r|count]; cbn [run others moderate].
  - eapply wp_mono; [|by apply reserve_space_gc_ok]. intros a s' (? & _ & Hu). split_and!; [done|done|]. intros Hm. by destruct (Hu Hm).
  - destruct Hl as ([c Hc] & Hfl & Hhdr & H0 & len & Hg & Hn & Hp). destruct (granted_open s [] ofs len _ Hi Hg H0 Hn Hp) as (b & j & Hroom).
    apply wp_bind. eapply wp_mono; [|eapply (store_node_ok [] s b j ofs i c); [done|done|done|done|by destruct Hfl as [-> | ->]]]. intros ret s' (? & [] & _). by apply wp_ret.
  - destruct Hl as (b & j & Hb & Hr & Hf). destruct (spans_elem _ _ _ _ _ (ok_spans _ _ _ (inv_blocks _ _ Hi _ _ Hb)) Hr) as (x & Hx & _).
    apply wp_bind. eapply wp_mono; [|by apply (mark_node_obsolete_ok [] s b j r x)]. intros [] s' (? & Hst & [] & _). apply wp_ret.
    split_and!; [done| |done]. intros _ ofs len. by apply granted_steady.
  - apply wp_bind. eapply wp_mono; [|by apply erase_pending_blocks_ok]. intros [] s' (? & Hby & _). apply wp_ret. split_and!; [done| |].
    + intros _ ofs len. by apply granted_bystander.
    + intros _. by destruct (bystander_undisturbed [] s s' Hi Hby).
Qed.
Lemma reaches_inv A (s s' : state) : inv [] s → prompt → reaches A s s' → inv [] s'.
Proof.
  intros Hi Hpr. induction 1 as [|o s1 a s2 _ IH _ Hl Hr]; [done|]. pose proof (run_ok o s1 IH Hpr Hl) as Hw. unfold wp in Hw. rewrite Hr in Hw. apply Hw.
Qed.

Lemma reaches_collectable (s s' : state) : inv [] s → prompt → reaches moderate s s' → (checked s → checked s') ∧ (collectable s → collectable s').
Proof.
  intros Hi Hpr Hr. induction Hr as [|o s1 a s2 Hr [IHc IHl] Ho Hl Hrun]; [done|]. pose proof (run_ok o s1 (reaches_inv _ _ _ Hi Hpr Hr) Hpr Hl) as Hw.
  unfold wp in Hw. rewrite Hrun in Hw. destruct Hw as (_ & _ & [Hc Hco]%(λ H, H Ho)). auto.
Qed.

(** [C11] The books of the flash are kept.  From a state whose books are in order, whatever sequence of reservations, writes of
    nodes, nodes marked obsolete and erases runs: the sizes of every block are the sums of its nodes, the sums of the
    superblock are the sums over the blocks and add up to the flash, every block is in exactly one place whose
    list it fits, the counters count, every chain of an inode ends in its cache, and where the next nodes go the
    flash is blank.  Meanwhile memory may be refused, erases be turned down or fail, and their callbacks come late, any
    finite number of times (after that there is memory and erases succeed), and writes fail as they like; of the flash it is
    taken that a write changes its range only, and nothing if it says that nothing was written, that an erase leaves ones,
    and that a read is never answered with -EAGAIN.  A legal call then returns: no BUG() of the sanity and paranoia checks,
    of the check before a write or of that of the node's header, no chain that leads nowhere. *)
Theorem books_are_kept (s s' : state) : inv [] s → prompt → reaches any s s' →
  inv [] s' ∧ ∀ o, legal o s' → ∃ a s'', run o s' = Some (a, s'').
Proof.
  intros Hi Hpr Hr. pose proof (reaches_inv any s s' Hi Hpr Hr) as Hi'. split; [done|]. intros o Hl.
  destruct (wp_inv _ _ _ (run_ok o s' Hi' Hpr Hl)) as (a & s'' & H & _). by exists a, s''.
Qed.

(** [C14] A reservation ends, and what it grants can be used.  Where memory is refused and erases fail or come late a finite
    number of times only, on a flash that is as for the books and never answers a read with -EAGAIN, [jffs2_reserve_space_gc] returns,
    however often it waits for an erase: with -ENOSPC when there is no open block, no free block, and none that an erase
    would give, or with room at the end of the open block, as long as was asked for unless that is more than an
    empty block holds.  The room stays, and stays blank, while others mark nodes obsolete and erase blocks: a node that
    fits it, of twelve bytes at least and with a header of which the CRC is right, may then be stored there with no BUG() of the checks before
    the write, and a node whose write is answered with 0 is the first in the chain of its inode, its bytes on the flash. *)
Theorem reservation_ends (s : state) minsize : inv [] s → prompt →
  ∃ ret ofs len s1, run (Reserve minsize) s = Some (ret, ofs, len, s1) ∧
    (ret = - ENOSPC ∧ exhausted s1 ∨
     ret = 0 ∧ (PAD minsize <= sector_size - cleanmarker_size → PAD minsize <= len) ∧
     ∀ s2 i fl vecs, let n := Z.of_nat (length (concat vecs)) in
       reaches others s1 s2 → is_Some (caches s2 !! i) → fl = REF_PRISTINE ∨ fl = REF_NORMAL → header_good (concat vecs) = true → 12 <= n → n <= len → PAD n <= len →
       ∃ a s3, run (Store i fl vecs ofs) s2 = Some (a, s3) ∧ (a.1.1 = 0 → recorded i ofs n fl s3 ∧ stored (flash s3) ofs (concat vecs))).
Proof.
  intros Hi Hpr. destruct (wp_inv _ _ _ (reserve_space_gc_ok minsize s Hi Hpr)) as (((ret & ofs) & len) & s1 & Hs1 & Hi1 & Ha & _).
  exists ret, ofs, len, s1. split; [exact Hs1|]. inversion Ha as [ofs' len' Hg Hle|ofs' len' He]; subst; [right|by left]. split_and!; [done|done|].
  intros s2 i fl vecs n Hr [c Hc] Hfl Hhdr H0 Hn Hp. pose proof (reaches_inv _ _ _ Hi1 Hpr Hr) as Hi2.
  assert (granted s2 ofs len) as Hg2.
  { clear Hc Hi2 Hs1. induction Hr as [|o s2 a s3 Hr IH Ho Hl Hrun]; [done|]. pose proof (run_ok o s2 (reaches_inv _ _ _ Hi1 Hpr Hr) Hpr Hl) as Hw.
    unfold wp in Hw. rewrite Hrun in Hw. by apply Hw, IH. }
  destruct (granted_open s2 [] ofs len n Hi2 Hg2 H0 Hn Hp) as (b & j & Hroom).
  destruct (wp_inv _ _ _ (store_node_ok [] s2 b j ofs i c fl vecs Hi2 Hroom Hhdr Hc ltac:(by destruct Hfl as [-> | ->]))) as (r & s3 & Hs3 & _ & _ & Hst).
  exists (r, 0, 0), s3. split; [|done]. cbn [run]. unfold mbind, SM_bind. by rewrite Hs3.
Qed.

(** [C15] A write of the superblock leaves no block to erase.  Where memory is refused and erases fail or come late a finite number
    of times only, and no read is answered with -EAGAIN: [jffs2_erase_pending_blocks] returns, and with a count of zero
    nothing is left on [erase_pending_list]; the blocks in use (the open one, the one that is collected, those on
    the lists of blocks with nodes) stay where they are, with their nodes and with the bytes that are stored in them;
    and with any count, if there was something to do, a block has got on or one of the failures in store is past. *)
Theorem pending_blocks_are_erased (s : state) count : inv [] s → prompt →
  ∃ s', jffs2_erase_pending_blocks count s = Some (tt, s') ∧ inv [] s' ∧ (count <= 0 → lists s' erase_pending_list = []) ∧
    (busy s → (burden s' < burden s)%nat) ∧ nextblock s' = nextblock s ∧ gcblock s' = gcblock s ∧
    (∀ n, n ∈ [clean_list; very_dirty_list; dirty_list; erasable_list; bad_used_list] → lists s' n = lists s n) ∧
    ∀ b j, still b s → blocks s !! b = Some j → blocks s' !! b = Some j ∧
      ∀ o l, offset j <= o → o + Z.of_nat (length l) <= offset j + sector_size → stored (flash s) o l → stored (flash s') o l.
Proof.
  intros Hi Hpr. destruct (wp_inv _ _ _ (erase_pending_blocks_ok [] count s Hi Hpr)) as ([] & s' & Hs & Hi' & Hby & _ & Hbu & Hp). exists s'.
  split_and!; [done|done|done|done|apply Hby|apply Hby|intros n Hn; apply Hby; set_solver|]. intros b j Hb Hj. split; [by apply (by_block _ _ Hby)|].
  rewrite (ok_offset _ _ _ (inv_blocks _ _ Hi _ _ Hj)). apply (by_flash _ _ Hby b Hb).
Qed.

(** [C16] What an erase takes off the chain of an inode.  Given a node of the erased block that is in the chain of
    an inode, where every chain ends in its cache: [jffs2_remove_node_refs_from_ino_list] walks from the node to
    the end of its chain, learns there which inode it is, and goes on at its head; afterwards the chain of that
    inode is what it was without the nodes of the erased block, in the old order.  When nothing is left, nobody
    links to the inode, and it is neither being read nor being cleared, its cache is gone; in every other case the
    cache is there, with its link count and its state.  The caches of the other inodes are as they were. *)
Theorem erased_nodes_leave_the_chain (s : state) r b j x :
  chained (refs s) (caches s) → refs s !! r = Some x → next_in_ino x ≠ Null → blocks s !! b = Some j → SECTOR_ADDR (flash_offset x) = offset j →
  ∃ s' i c ns, jffs2_remove_node_refs_from_ino_list r b s = Some (tt, s') ∧ chained (refs s') (caches s') ∧
    caches s !! i = Some c ∧ chain (refs s) c ns i ∧ r ∈ ns ∧
    (∀ k, k ≠ i → caches s' !! k = caches s !! k) ∧
    let rest := filter (λ q, inside (refs s) (offset j) q = false) ns in
    if forgotten c rest then caches s' !! i = None
    else ∃ c', caches s' !! i = Some c' ∧ chain (refs s') c' rest i ∧ nlink c' = nlink c ∧ Space.state c' = Space.state c.
Proof.
  intros Hch Hx Hn Hb Hs. destruct (wp_inv _ _ _ (remove_node_refs_ok s r b j x Hch Hx Hn Hb Hs)) as ([] & s' & Hs' & R & C & i & c & ns & -> & H1 & _ & _ & Hc & Hns & Hr & Hrest & Hoth & _).
  exists (on_refs (λ _, R) (on_caches (λ _, C) s)), i, c, ns. split_and!; done.
Qed.

(** [C17] The check that an erased block is blank finds every block blank.  [jffs2_block_check_erase] sets [ret] to -EIO
    and then to the result of the read, and the ways out for a short read and for a word that is not all ones
    return that: where there is memory for its buffer and the reads succeed the answer is 0, whatever the block holds. *)
Theorem check_erase_sees_nothing h (s : state) b j : inv h s → blocks s !! b = Some j → head (memory (env s)) ≠ Some false →
  (∀ o n, (mtd_read (flash s) o n).1 = 0) → ∃ bad s', jffs2_block_check_erase b s = Some (0, bad, s') ∧ blocks s' = blocks s.
Proof.
  intros Hi Hb Hm Hr. set (s1 := on_env take_memory s). pose proof (sector_small _ _ _ _ (inv_placed _ _ Hi) Hb). pose proof sector_pos. pose proof (ok_offset _ _ _ (inv_blocks _ _ Hi _ _ Hb)).
  destruct (check_pages_eq (S (Z.to_nat sector_size)) (offset j) (u32 (offset j + sector_size)) (- EIO) 0 s1) as (code & bad & Hc & Hcode); [rewrite u32_small by lia; lia|].
  assert (kmalloc s = Some (true, s1)) as Hk.
  { unfold kmalloc, gets, puts, mbind, SM_bind. by destruct (memory (env s)) as [|[] ?]. }
  assert (blocks s1 !! b = Some j) as Hb1 by exact Hb. exists bad, s1. split; [|done]. unfold jffs2_block_check_erase, block, mbind, SM_bind. rewrite Hk. cbn [negb]. rewrite Hb1, Hc. destruct Hcode as [->|(o & n & ->)]; [done|]. change (flash s1) with (flash s). by rewrite Hr.
Qed.

(** Without dirt to collect, or with too little room behind it, an allocation is refused before a pass of the collector. *)
Lemma reserve_space_refuses pass signals fuel minsize prio (s : state) :
  inv [] s → few_blocks s = true → before_pass prio s = Some false →
  ∃ s', jffs2_reserve_space pass signals (S fuel) minsize prio s = Some (- ENOSPC, 0, 0, s') ∧ inv [] s' ∧ quiet s s'.
Proof.
  intros Hi Hf Hb. destruct (wp_inv _ _ _ (spin_unlock_ok [] s Hi)) as ([] & s' & Hs & Hi' & Hq). exists s'. split_and!; [|done|done].
  unfold jffs2_reserve_space. cbn [reserve_loop]. unfold gets, mbind, SM_bind. cbn [id]. rewrite Hf, Hb, Hs. done.
Qed.
End Allocator.

(** ** A small flash *)

#[export] Instance perfect_eraser : Eraser perfect := λ f o n a, if (o <=? a) && (a <? o + n) then 255 else f a.
#[export] Instance perfect_erasable : Erasable perfect.
Proof.
  split.
  - exact perfect_lawful.
  - intros f o b ret f' o' l [= _ Hb <-] Hs. rewrite perfect_stored in *. intros i v Hv. rewrite <-(Hs i v Hv).
    destruct (Z.leb_spec o (o' + Z.of_nat i)), (Z.ltb_spec (o' + Z.of_nat i) (o + Z.of_nat (length b))); cbn [andb]; try reflexivity; lia.
  - intros f o n. apply perfect_stored. intros i v [-> Hi]%lookup_replicate. unfold mtd_erased, perfect_eraser.
    by rewrite (proj2 (Z.leb_le _ _)), (proj2 (Z.ltb_lt _ _)) by lia.
  - intros f o n o' l Hs Ho. rewrite perfect_stored in *. intros i v Hv. rewrite <-(Hs i v Hv). pose proof (lookup_lt_Some _ _ _ Hv). unfold mtd_erased, perfect_eraser.
    destruct (Z.leb_spec o (o' + Z.of_nat i)), (Z.ltb_spec (o' + Z.of_nat i) (o + n)); cbn [andb]; try reflexivity; lia.
Qed.

Section Sample.
Import Space Users.
(** Four blocks of 1024 bytes, all of them dirty and waiting to be erased; the file 1 has no nodes.  On the way there is no
    memory once, the driver is busy once, and one erase fails. *)
#[local] Instance small : Geometry := jffs2_calc_trigger_levels 1024 12 4 4096.
#[local] Instance small_geometric : Geometric.
Proof. split; [by exists 10|done..|by right|done]. Qed.
Definition used_flash : sb (F := perfect) :=
  Sb ((λ b, Block (1024 * Z.of_nat b) (Sizes 0 0 1024 0 0) [] None) <$> seq 0 4)
    (λ n, match n with erase_pending_list => [0; 1; 2; 3]%nat | _ => [] end) None None (Sizes 0 0 4096 0 0) 0 0 0 4 ∅
    {[1%nat := Cache (ToCache 1) 1 1 true]} 0 false (λ _, 7) (Env [true; false] [] [(- EAGAIN, 0)] [[]; [(1%nat, false, 0)]]).
Lemma used_block b j : blocks used_flash !! b = Some j → (b < 4)%nat ∧ j = Block (1024 * Z.of_nat b) (Sizes 0 0 1024 0 0) [] None.
Proof. unfold used_flash. cbn [blocks]. rewrite list_lookup_fmap. intros (b' & [-> ?]%lookup_seq & ->)%fmap_Some. done. Qed.
Lemma used_flash_inv : inv [] used_flash.
Proof.
  split.
  - intros []; reflexivity.
  - reflexivity.
  - split; reflexivity.
  - split_and!; [|intros b j []%elem_of_nil|intros b j [|]; done]. intros n b j Hb [_ ->]%used_block.
    destruct n; cbn [lists used_flash] in Hb; try (by apply elem_of_nil in Hb). done.
  - split; reflexivity.
  - intros b j [Hb ->]%used_block. split; [cbn; lia|intros []; cbn; lia|done|cbn; lia|done|done].
  - split.
    + intros i c Hc. cbn [caches used_flash] in Hc. apply lookup_singleton_Some in Hc as [<- <-]. by exists [].
    + intros r x Hx. done.
  - intros b j _. split; [intros [|Hb]; [done|by apply elem_of_nil in Hb]|intros Hb; by apply elem_of_nil in Hb].
Qed.
Lemma perfect_prompt : prompt (F := perfect).
Proof. intros f o n. done. Qed.
(** The state after a call. *)
Definition after (o : op) (s : sb (F := perfect)) : sb (F := perfect) := match run o s with Some (_, s') => s' | None => s end.
Definition returns (o : op) (s : sb (F := perfect)) : bool := match run o s with Some _ => true | None => false end.
Lemma after_run o s : returns o s = true → ∃ a, run o s = Some (a, after o s).
Proof. unfold returns, after. destruct (run o s) as [[a s']|]; [by exists a|done]. Qed.
Lemma answered o s v : fst <$> run o s = Some v → ∃ s', run o s = Some (v, s').
Proof. destruct (run o s) as [[a s']|]; [|done]. cbn. intros [= ->]. by exists s'. Qed.
Lemma reaches_after (A : op → Prop) s s1 o : reaches A s s1 → A o → legal o s1 → returns o s1 = true → reaches A s (after o s1).
Proof. intros Hr Ho Hl [a Ha]%after_run. by eapply reaches_next. Qed.

Definition room_at : sb (F := perfect) := after (Reserve 100) used_flash.
(** A header, as of an inode of a hundred bytes, and what may come behind it. *)
Definition some_node : list Z :=
  let h := [JFFS2_MAGIC_BITMASK; JFFS2_NODETYPE_INODE; 100] in
  Layout.pack header_widths (h ++ [Crc.crc32 0 (Layout.pack [2; 2; 4]%nat h)]) ++ replicate 88 7.
Definition node_at : sb (F := perfect) := after (Store 1 REF_NORMAL [some_node] 1036) room_at.
Lemma to_room : reaches any used_flash room_at.
Proof. apply reaches_after; [apply reaches_here|done|done|by vm_compute]. Qed.
Lemma to_node : reaches any used_flash node_at.
Proof.
  apply reaches_after; [exact to_room|done| |by vm_compute]. split_and!; [by eexists; vm_compute|by right|by vm_compute|by vm_compute|]. exists 1012. split; [|done].
  exists 1%nat. eexists. split_and!; [by vm_compute|by vm_compute|by vm_compute|by vm_compute].
Qed.
Lemma books_are_kept_witness :
  reaches any used_flash node_at ∧ inv [] node_at ∧ ∃ a s', run (Obsolete 1) node_at = Some (a, s').
Proof.
  destruct (books_are_kept used_flash node_at used_flash_inv perfect_prompt to_node) as [Hi Hp]. split_and!; [exact to_node|exact Hi|].
  apply Hp. exists 1%nat, (nth 1 (blocks node_at) (Block 0 (Sizes 0 0 0 0 0) [] None)). split_and!; [by vm_compute|..]; apply (bool_decide_unpack _); by vm_compute.
Defined.
Lemma reservation_ends_witness : ∃ ret ofs len s1, run (Reserve 100) used_flash = Some (ret, ofs, len, s1) ∧
  (ret = - ENOSPC ∧ exhausted s1 ∨ ret = 0 ∧ (PAD 100 <= 1012 → PAD 100 <= len)).
Proof.
  destruct (reservation_ends used_flash 100 used_flash_inv perfect_prompt) as (ret & ofs & len & s1 & H & [?|(? & ? & _)]); exists ret, ofs, len, s1; auto.
Defined.
Lemma pending_blocks_are_erased_witness :
  ∃ s', jffs2_erase_pending_blocks 0 used_flash = Some (tt, s') ∧ inv [] s' ∧ lists s' erase_pending_list = [].
Proof.
  destruct (pending_blocks_are_erased used_flash 0 used_flash_inv perfect_prompt) as (s' & ? & ? & H & _). exists s'. split_and!; [done|done|by apply H].
Defined.
Lemma erased_nodes_leave_the_chain_witness :
  ∃ s', jffs2_remove_node_refs_from_ino_list 1 1 node_at = Some (tt, s') ∧ chained (refs s') (caches s').
Proof.
  destruct (erased_nodes_leave_the_chain node_at 1 1 (nth 1 (blocks node_at) (Block 0 (Sizes 0 0 0 0 0) [] None)) (Ref 1039 100 (ToCache 1)))
    as (s' & i & c & ns & ? & ? & _).
  - exact (inv_chained _ _ (reaches_inv any used_flash node_at used_flash_inv perfect_prompt to_node)).
  - by vm_compute.
  - done.
  - by vm_compute.
  - by vm_compute.
  - exists s'. split; assumption.
Defined.
Lemma check_erase_sees_nothing_witness : ∃ bad s', jffs2_block_check_erase 2 used_flash = Some (0, bad, s') ∧ blocks s' = blocks used_flash.
Proof. eapply (check_erase_sees_nothing [] used_flash 2); [exact used_flash_inv|reflexivity|done|done]. Defined.

(** More is asked for than an empty block holds, and less is granted. *)
Lemma reserve_short : ∃ s', run (Reserve 1100) used_flash = Some (0, 1036, 1012, s').
Proof. apply answered. by vm_compute. Qed.
(** 64 MB in blocks of 4 KB: the comment of the function asks for 730 blocks. *)
Lemma trigger_levels_wrap : let G := jffs2_calc_trigger_levels 4096 12 16384 (16384 * 4096) in
  resv_blocks_write = 218 ∧ 2 + (16384 * 4096 / 50 + 16384 * 100 + 4095) / 4096 = 730.
Proof. done. Qed.
End Sample.

(** ** Memory that is refused *)

Section Refused.
Import Space.
(** One block, waiting for its erase, where memory is refused for the next [n] allocations: each turn of the loop of
    [jffs2_erase_pending_blocks] comes back to where it began, so that while there is no memory it goes on. *)
Definition refused (n : nat) : sb (F := perfect) :=
  Sb [Block 0 (Sizes 0 0 4096 0 0) [] None] (λ n, match n with erase_pending_list => [0%nat] | _ => [] end) None None (Sizes 0 0 4096 0 0) 0 0 0 1 ∅ ∅ 0 false
    (λ _, 7) (Env (replicate n false) [] [] []).
#[local] Instance one_block : Geometry := jffs2_calc_trigger_levels 4096 12 1 4096.
Lemma refused_turn n : start_erase 0 (refused (S n)) = Some (tt, refused n).
Proof.
  assert (∃ l, start_erase 0 (refused (S n)) = Some (tt, on_lists (λ _, l) (refused n)) ∧ ∀ m, l m = lists (refused n) m) as (l & -> & Hl).
  { eexists. split; [reflexivity|]. by intros []. }
  do 2 f_equal. apply sb_ext; try done. by apply functional_extensionality.
Qed.
Lemma erase_loop_refused fuel count : erase_loop fuel count (refused fuel) = None.
Proof.
  induction fuel as [|fuel IH]; [done|]. cbn [erase_loop]. unfold gets at 1, mbind at 1, SM_bind at 1. cbn [id lists refused]. unfold mbind, SM_bind.
  by rewrite refused_turn.
Qed.
End Refused.
