(* ===== verification/Jffs2Gc.v ===== *)
(** * Jffs2Gc: the garbage collector (fs/jffs2/gc.c)

    A pass of the collector ([jffs2_garbage_collect_pass]): while there are nodes that are not checked it checks an inode; then it picks a
    block, the first node in it that is not obsolete, and moves that node; a block that holds no valid node
    goes to be erased.  What the collector relies on, and how the other functions leave it alone. *)

From S2P Require Import Prelude Jffs2Frag Jffs2Compr Jffs2Node Jffs2File Jffs2Write Jffs2Dir Crc32 Jffs2Space Jffs2Books Jffs2Account Jffs2Obsolete Jffs2Erase Jffs2Reserve Jffs2Room Jffs2Allocator.

Module Gc.
Import Space.
Definition EBADFD := 77.
Definition INO_STATE_UNCHECKED := 0.
Definition INO_STATE_CHECKING := 1.
Definition INO_STATE_PRESENT := 2.
Definition INO_STATE_CHECKEDABSENT := 3.
Definition INO_STATE_GC := 4.
Definition with_state (v : Z) (c : inode_cache) : inode_cache := Cache (nodes c) (nlink c) v (hashed c).

Section Collector.
Context {F : Type} `{!Mtd F} `{!Eraser F} {Geo : Geometry}.
Abbreviation state := (sb (F := F)).
Abbreviation P := (SM state).

(** ** [jffs2_find_gc_block] *)

(** The list to take a block from; [n] is [jiffies % 128]. *)
Definition nonempty (s : state) (l : list_name) : bool := bool_decide (lists s l ≠ []).
Definition gc_list (n : Z) (s : state) : option list_name :=
  if nonempty s bad_used_list && (resv_blocks_gcbad <? nr_free_blocks s) then Some bad_used_list
  else if (n <? 50) && nonempty s erasable_list then Some erasable_list
  else if (n <? 110) && nonempty s very_dirty_list then Some very_dirty_list
  else if (n <? 126) && nonempty s dirty_list then Some dirty_list
  else if nonempty s clean_list then Some clean_list
  else if nonempty s dirty_list then Some dirty_list
  else if nonempty s very_dirty_list then Some very_dirty_list
  else if nonempty s erasable_list then Some erasable_list
  else None.
(** Blocks that wait for a write buffer are never written without one: the function would go round for ever. *)
Definition jffs2_find_gc_block : P (option nat) :=
  n ← get_jiffies; s ← gets id;
  match gc_list (n mod 128) s with
  | None => if nonempty s erasable_pending_wbuf_list then fault else mret None
  | Some l =>
      match lists s l with
      | [] => fault
      | b :: _ =>
          list_del b;; set_gcblock (Some b);;
          j ← block b;
          on_block b (with_gc_node (head (phys j)));;
          match head (phys j) with
          | None => fault
          | Some _ =>
              let w := wasted_size (size j) in
              (if truthy w then charge_block Dirty b w;; charge_total Wasted (- w);; charge_total Dirty w;; set_size Wasted b 0 else mret tt);;
              mret (Some b)
          end
      end
  end.

(** ** [jffs2_garbage_collect_pristine] *)

(** The checks of the node that was read; [beyond] is what lies in memory behind the buffer. *)
Definition crcs_good (beyond buf : list Z) : bool :=
  let node := buf ++ beyond in
  let f i := nth i (Layout.unpack header_widths node) 0 in
  (f 3%nat =? Layout.header_crc node) &&
  (if f 1%nat =? JFFS2_NODETYPE_INODE then
     let ri := Layout.inode_of_bytes node in
     (Layout.node_crc ri =? Layout.inode_crc node) &&
     (negb (truthy (Layout.dsize ri)) ||
      (Layout.data_crc ri =? Crc.crc32 0 (take (Z.to_nat (Layout.csize ri)) (drop (Z.to_nat Layout.sizeof_raw_inode) node))))
   else if f 1%nat =? JFFS2_NODETYPE_DIRENT then
     let rd := Dirent.dirent_of_bytes node in
     (Dirent.node_crc rd =? Dirent.dirent_crc node) &&
     (negb (truthy (Dirent.nsize rd)) ||
      (Dirent.name_crc rd =? Crc.crc32 0 (take (Z.to_nat (Dirent.nsize rd)) (drop (Z.to_nat Dirent.sizeof_raw_dirent) node))))
   else false).
(** [jffs2_dbg_acct_sanity_check] and [jffs2_dbg_acct_paranoia_check], which take the lock. *)
Definition locked_checks (b : nat) : P unit :=
  jffs2_dbg_acct_sanity_check_nolock b;; spin_unlock;; jffs2_dbg_acct_paranoia_check_nolock b;; spin_unlock.
(** From the label [retry] on (lines 591 to 657); [tries] counts what [retried] leaves.  The reference that is freed again
    at the end is the one that was freed, or entered, above, or the null pointer. *)
Fixpoint copy_node (tries : nat) (i r nraw : nat) (phys_ofs rawlen : Z) (node : list Z) : P Z :=
  on_raw nraw (λ x, Ref phys_ofs rawlen (next_in_ino x));;
  '(ret, retlen) ← jffs2_flash_write phys_ofs node;
  if truthy ret || negb (retlen =? rawlen) then
    report_failed nraw retlen;;
    match tries with
    | O => jffs2_free_raw_node_ref nraw;; mret (if truthy ret then ret else - EIO)
    | S tries =>
        nraw ← jffs2_alloc_raw_node_ref;
        match nraw with
        | None => fault
        | Some nraw =>
            let b := Z.to_nat (phys_ofs / sector_size) in
            locked_checks b;;
            '(ret, phys_ofs, _) ← jffs2_reserve_space_gc rawlen;
            if truthy ret then jffs2_free_raw_node_ref nraw;; jffs2_free_raw_node_ref nraw;; mret ret
            else locked_checks b;; copy_node tries i r nraw phys_ofs rawlen node
        end
    end
  else report_written nraw REF_PRISTINE i;; jffs2_mark_node_obsolete (Some r);; mret 0.
Definition jffs2_garbage_collect_pristine (beyond : list Z) (i r : nat) : P Z :=
  g ← gets gcblock;
  match g with
  | None => fault
  | Some b =>
      rawlen ← ref_totlen b r;
      '(ret, phys_ofs, alloclen) ← jffs2_reserve_space_gc (Z.min (Layout.sizeof_raw_inode + JFFS2_MIN_DATA_LEN) rawlen);
      if truthy ret then mret ret
      else if alloclen <? rawlen then mret (- EBADFD)
      else
        ok ← kmalloc;
        if negb ok then mret (- ENOMEM)
        else
          x ← raw r;
          '(ret, buf) ← jffs2_flash_read (ref_offset x) rawlen;
          if truthy ret then mret ret
          else if negb (Z.of_nat (length buf) =? rawlen) then mret (- EIO)
          else if negb (crcs_good beyond buf) then mret (- EBADFD)
          else
            nraw ← jffs2_alloc_raw_node_ref;
            match nraw with None => mret (- ENOMEM) | Some nraw => copy_node 1 i r nraw phys_ofs rawlen buf end
  end.

(** ** [jffs2_garbage_collect_pass] *)

(** [*raw], while it is obsolete, becomes [raw->next_phys]; [l] is the list behind it. *)
Fixpoint skip_obsolete (r : nat) (l : list nat) : P nat :=
  x ← raw r;
  if ref_obsolete x then match l with [] => fault | r :: l => skip_obsolete r l end else mret r.
Fixpoint behind (r : nat) (l : list nat) : option (list nat) :=
  match l with [] => None | x :: l => if decide (x = r) then Some l else behind r l end.
(** From [eraseit] on. *)
Definition eraseit (ret : Z) : P Z :=
  g ← gets gcblock;
  (match g with
   | None => mret tt
   | Some b =>
       j ← block b;
       if used_size (size j) =? 0 then list_add_tail b erase_pending_list;; set_gcblock None;; puts (on_nr_erasing_blocks (add32 1)) else mret tt
   end);;
  spin_unlock;; mret ret.
(** The node [r] of the block [b] belongs to the inode [i] (lines 264 to 380).  [live] is what happens when the inode is fetched:
    [jffs2_gc_fetch_inode] and [jffs2_garbage_collect_live]; an inode that is being read is waited for. *)
Definition set_state (i : nat) (v : Z) : P unit := cache i;; puts (on_caches (alter (with_state v) i)).
Definition move_node (live : nat → nat → nat → P Z) (beyond : list Z) (b i r : nat) : P Z :=
  c ← cache i; x ← raw r;
  let fetch := ret ← live b i r; eraseit ret in
  if bool_decide (Space.state c ∈ [INO_STATE_UNCHECKED; INO_STATE_CHECKING; INO_STATE_GC]) then fault
  else if Space.state c =? INO_STATE_READING then mret 0
  else if (Space.state c =? INO_STATE_CHECKEDABSENT) && (ref_flags x =? REF_PRISTINE) then
    set_state i INO_STATE_GC;;
    ret ← jffs2_garbage_collect_pristine beyond i r;
    set_state i INO_STATE_CHECKEDABSENT;;
    if ret =? - EBADFD then fetch else eraseit ret
  else fetch.
(** The block to collect (lines 209 to 219). *)
Definition choose_block : P (option nat) := g ← gets gcblock; match g with Some b => mret (Some b) | None => jffs2_find_gc_block end.
Definition collect (live : nat → nat → nat → P Z) (beyond : list Z) : P Z :=
  jeb ← choose_block;
  match jeb with
  | None => spin_unlock;; mret (- EIO)
  | Some b =>
      j ← block b;
      if used_size (size j) =? 0 then eraseit 0
      else
        match gc_node j with
        | None => fault
        | Some g =>
            match behind g (phys j) with
            | None => fault
            | Some l =>
                r ← skip_obsolete g l;
                on_block b (with_gc_node (Some r));;
                x ← raw r;
                if decide (next_in_ino x = Null) then spin_unlock;; jffs2_mark_node_obsolete (Some r);; eraseit 0
                else
                  fuel ← chain_fuel; i ← raw_ref_to_ic fuel r;
                  spin_unlock;; move_node live beyond b i r
            end
        end
  end.
(** The loop that comes first, while there are nodes that are not checked (lines 132 to 206); an inode is its number here.  [crccheck] is
    [jffs2_do_crccheck_inode].  The answer is what the function returns, if it does, and [c->checked_ino]. *)
Fixpoint check_loop (crccheck : nat → P Z) (fuel : nat) (highest_ino checked_ino : Z) : P (option Z * Z) :=
  match fuel with
  | O => fault
  | S fuel =>
      s ← gets id;
      if unchecked_size (total s) =? 0 then mret (None, checked_ino)
      else if highest_ino <? checked_ino then fault
      else
        let i := Z.to_nat checked_ino in
        let next := check_loop crccheck fuel highest_ino (checked_ino + 1) in
        match caches s !! i with
        | None => next
        | Some c =>
            if negb (hashed c) || (nlink c =? 0) then next
            else if bool_decide (Space.state c ∈ [INO_STATE_CHECKEDABSENT; INO_STATE_PRESENT]) then next
            else if Space.state c =? INO_STATE_READING then mret (Some 0, checked_ino + 1)
            else if Space.state c =? INO_STATE_UNCHECKED then
              set_state i INO_STATE_CHECKING;; ret ← crccheck i; set_state i INO_STATE_CHECKEDABSENT;; mret (Some ret, checked_ino + 1)
            else fault
        end
  end.
Definition jffs2_garbage_collect_pass (crccheck : nat → P Z) (live : nat → nat → nat → P Z) (beyond : list Z) (highest_ino checked_ino : Z) : P (Z * Z) :=
  '(ret, checked_ino) ← check_loop crccheck (S (S (Z.to_nat (highest_ino - checked_ino)))) highest_ino checked_ino;
  match ret with
  | Some ret => mret (ret, checked_ino)
  | None => ret ← collect live beyond; mret (ret, checked_ino)
  end.
End Collector.
End Gc.

Section Choosing.
Import Space Gc.
Context {F : Type} `{!Mtd F} `{!Eraser F} `{!Erasable F} {Geo : Geometry} {Lawful_geo : Geometric}.
Abbreviation state := (sb (F := F)).
Abbreviation P := (SM state).

(** ** No node is unchecked *)

Lemma block_sized (s : state) b j k : inv [] s → blocks s !! b = Some j → 0 <= get k (size j) <= sector_size.
Proof.
  intros Hi Hb. pose proof (inv_blocks _ _ Hi _ _ Hb) as Hj. destruct (inv_shaped _ _ Hi) as (Hl & _ & Ho). pose proof sector_pos.
  assert (full j ∨ emptied j) as [Hf|[He _]]; [|by eapply full_le|rewrite He; destruct k; cbn; lia].
  destruct (block_place _ _ _ _ (inv_placed _ _ Hi) Hb) as [[]%elem_of_nil|[?|[?|(n & Hn)]]]; [left; by eauto..|].
  pose proof (Hl _ _ _ Hn Hb) as Hs. destruct n; cbn in Hs; tauto.
Qed.
Lemma column_small k (s : state) : inv [] s → 0 <= column k (blocks s) < 2 ^ 32.
Proof.
  intros Hi. assert (Forall (λ x, 0 <= x <= sector_size) ((λ j, get k (size j)) <$> blocks s)) as Hf.
  { apply Forall_fmap, Forall_forall. intros j (b & Hb)%list_elem_of_lookup. by apply (block_sized s b j k). }
  apply zsum_bound in Hf. rewrite length_fmap in Hf. destruct (inv_placed _ _ Hi) as [_ Hl]. rewrite Hl, <-geo_flash in Hf. pose proof geo_size. unfold column. lia.
Qed.
Lemma unchecked_free (s : state) : inv [] s → unchecked_size (total s) = 0 ↔ checked s.
Proof.
  intros Hi. pose proof (inv_books _ _ Hi Unchecked) as Hb. rewrite u32_small in Hb by (by apply column_small). cbn [get] in Hb. rewrite Hb. split.
  - intros H0 b j Hj. pose proof (block_sized s b j Unchecked Hi Hj) as Hr. cbn [get] in Hr.
    assert (0 <= column Unchecked (blocks s) - unchecked_size (size j)); [|lia]. apply zsum_In.
    + apply Forall_fmap, Forall_forall. intros i (b' & Hb')%list_elem_of_lookup. by apply (block_sized s b' i Unchecked).
    + apply list_elem_of_fmap. exists j. split; [done|by eapply list_elem_of_lookup_2].
  - intros Hc. unfold column. assert ((λ j, get Unchecked (size j)) <$> blocks s = (λ _, 0) <$> blocks s) as ->.
    { apply list_fmap_ext. intros b j Hj. by apply (Hc b j). }
    clear. induction (blocks s) as [|j l IH]; [done|]. rewrite fmap_cons, zsum_cons, IH. done.
Qed.

(** The inode that is checked is the first from [checked_ino] on that is unchecked, if none in front of it is in another state. *)
Definition passed_over (s : state) (k : nat) : Prop :=
  ∀ c, caches s !! k = Some c → hashed c = false ∨ nlink c = 0 ∨ Space.state c = INO_STATE_CHECKEDABSENT ∨ Space.state c = INO_STATE_PRESENT.
Lemma check_finds_inode crccheck fuel highest checked (s : state) k c : unchecked_size (total s) ≠ 0 → 0 <= checked <= Z.of_nat k → Z.of_nat k <= highest →
  (∀ k', checked <= Z.of_nat k' < Z.of_nat k → passed_over s k') → caches s !! k = Some c → hashed c = true → nlink c ≠ 0 → Space.state c = INO_STATE_UNCHECKED →
  (Z.to_nat (Z.of_nat k - checked) < fuel)%nat →
  check_loop crccheck fuel highest checked s =
    (set_state k INO_STATE_CHECKING;; ret ← crccheck k; set_state k INO_STATE_CHECKEDABSENT;; mret (Some ret, Z.of_nat k + 1)) s.
Proof.
  intros Hu Hck Hh Hover Hc Hha Hnl Hst. revert checked Hck Hover. induction fuel as [|fuel IH]; intros checked Hck Hover Hf; [lia|]. cbn [check_loop].
  unfold gets at 1, mbind at 1, SM_bind at 1. cbn [id]. rewrite (proj2 (Z.eqb_neq _ _) Hu), (proj2 (Z.ltb_ge _ _)) by lia. cbv zeta.
  destruct (Z.eq_dec checked (Z.of_nat k)) as [->|Hne].
  - rewrite Nat2Z.id, Hc, Hha, (proj2 (Z.eqb_neq _ _) Hnl), Hst. done.
  - assert (check_loop crccheck fuel highest (checked + 1) s = (set_state k INO_STATE_CHECKING;; ret ← crccheck k; set_state k INO_STATE_CHECKEDABSENT;; mret (Some ret, Z.of_nat k + 1)) s) as Hnext.
    { apply IH; [lia|intros k' Hk'; apply Hover; lia|lia]. }
    destruct (caches s !! Z.to_nat checked) as [c'|] eqn:Hc'; [|exact Hnext]. destruct (Hover (Z.to_nat checked) ltac:(lia) c' Hc') as [->|[->|Hs]]; [exact Hnext|by rewrite orb_true_r|].
    destruct (_ || _); [exact Hnext|]. rewrite bool_decide_eq_true_2; [exact Hnext|]. destruct Hs as [-> | ->]; set_solver.
Qed.
(** With nothing unchecked the loop is not entered. *)
Lemma check_done crccheck fuel highest checked (s : state) : unchecked_size (total s) = 0 → check_loop crccheck (S fuel) highest checked s = Some ((None, checked), s).
Proof. intros Hu. cbn [check_loop]. unfold gets, mbind, SM_bind. cbn [id]. by rewrite Hu. Qed.

(** ** The next node *)

Lemma behind_eq r (l1 l2 : list nat) : NoDup (l1 ++ r :: l2) → behind r (l1 ++ r :: l2) = Some l2.
Proof.
  induction l1 as [|x l1 IH]; cbn; [by rewrite decide_True|]. intros [Hx Hd]%NoDup_cons. rewrite decide_False; [by apply IH|].
  intros ->. apply Hx, elem_of_app. right. left.
Qed.
(** Some node of the list is not obsolete, and the first such one is found. *)
Lemma skip_obsolete_eq (s : state) r l : (∀ q, q ∈ r :: l → ∃ x, refs s !! q = Some x) → (∃ q x, q ∈ r :: l ∧ refs s !! q = Some x ∧ ref_obsolete x = false) →
  ∃ a q c x, r :: l = a ++ q :: c ∧ (∀ p, p ∈ a → dead (refs s) p) ∧ refs s !! q = Some x ∧ ref_obsolete x = false ∧ skip_obsolete r l s = Some (q, s).
Proof.
  revert r. induction l as [|r' l IH]; intros r Hin (q & y & Hq & Hy & Hyo); (destruct (Hin r) as [x Hx]; [left|]); destruct (ref_obsolete x) eqn:Hxo.
  - apply list_elem_of_singleton in Hq as ->. congruence.
  - exists [], r, [], x. split_and!; [done|by intros p ?%elem_of_nil|done|done|]. cbn. unfold raw, mbind, SM_bind. by rewrite Hx, Hxo.
  - apply elem_of_cons in Hq as [->|Hq]; [congruence|]. destruct (IH r') as (a & p & c & z & Heq & Ha & Hz & Hzo & Hs); [intros; apply Hin; by right|by exists q, y|].
    exists (r :: a), p, c, z. split_and!; [by rewrite Heq| |done|done|].
    + intros k [->|Hk]%elem_of_cons; [intros w Hw; congruence|by apply Ha].
    + cbn [skip_obsolete]. unfold raw, mbind, SM_bind. by rewrite Hx, Hxo.
  - exists [], r, (r' :: l), x. split_and!; [done|by intros p ?%elem_of_nil|done|done|]. cbn [skip_obsolete]. unfold raw, mbind, SM_bind. by rewrite Hx, Hxo.
Qed.
Lemma live_node R l : live R Used l ≠ 0 → ∃ r x, r ∈ l ∧ R !! r = Some x ∧ ref_obsolete x = false.
Proof.
  induction l as [|r l IH]; [done|]. unfold live. rewrite fmap_cons, zsum_cons. change (zsum (_ <$> l)) with (live R Used l). intros Hl.
  assert (∀ n, n + live R Used l ≠ 0 → n = 0 → ∃ r' x, r' ∈ r :: l ∧ R !! r' = Some x ∧ ref_obsolete x = false) as Hrest.
  { intros n Hn ->. destruct IH as (q & x & Hq & ?); [exact Hn|]. exists q, x. split; [by right|done]. }
  destruct (R !! r) as [x|] eqn:Hx; [|by eapply Hrest]. case_decide as Hc; [|by eapply Hrest].
  exists r, x. split_and!; [left|done|]. unfold class_of in Hc. destruct (ref_flags x =? REF_UNCHECKED); [done|]. by destruct (ref_obsolete x).
Qed.

(** ** The block *)

Lemma use_uncounted n : n ∈ use_lists → uncounted n.
Proof. done. Qed.
Lemma gc_list_some n (s : state) l : gc_list n s = Some l → lists s l ≠ [] ∧ l ∈ use_lists.
Proof.
  unfold gc_list, nonempty. intros H.
  repeat match type of H with
         | (if ?c then Some _ else _) = _ =>
             destruct c eqn:Hc;
               [injection H as <-; split; [|set_solver];
                first [by apply bool_decide_eq_true in Hc | apply andb_true_iff in Hc as [Hc1 Hc2]; first [by apply bool_decide_eq_true in Hc1 | by apply bool_decide_eq_true in Hc2]]
               |clear Hc]
         end. done.
Qed.
(** A block is taken from its list to be collected. *)
Lemma inv_collect h (s : state) b n : inv h s → n ∈ use_lists → b ∈ lists s n → gcblock s = None → inv h (on_gcblock (λ _, Some b) (without b s)).
Proof.
  intros Hi Hn Hb Hg. set (s' := on_gcblock _ _). pose proof (inv_placed _ _ Hi) as Hp. destruct (inv_shaped _ _ Hi) as (Hl & Hh & Ho).
  assert (∀ x, count s' x = count s x - (if decide (x = n) then 1 else 0)) as Hc by (intros x; exact (count_without h s n b x Hp Hb)).
  eapply (inv_lists h); try done.
  - destruct (placed_without h s n b Hp Hb) as [Hp1 Hl1]. split; [|exact Hl1]. change (blocks s') with (blocks (without b s)). rewrite <-Hp1. unfold places.
    cbn [lists nextblock gcblock on_gcblock s' without on_lists]. rewrite Hg. cbn [option_list option_rect]. solve_Permutation.
  - split_and!; [|done|].
    + intros m x j [_ Hx]%list_elem_of_filter. by apply Hl.
    + cbn. intros x j [Hx|[= <-]] Hj; [by eapply Ho; [left|]|]. pose proof (Hl n b j Hb Hj) as Hs. clear -Hn Hs. destruct n; cbn in Hs; try tauto; set_solver.
  - assert (∀ x, x ∈ [free_list; erase_pending_list; erasing_list; erase_complete_list; bad_list] → count s' x = count s x) as Hc'.
    { intros x Hx. rewrite Hc, decide_False; [lia|]. intros ->. clear -Hn Hx. set_solver. }
    destruct (inv_counted _ _ Hi) as [Cf Ce Cs Cb]. split; rewrite !Hc' by set_solver; done.
  - apply (unspoilt_same h s); try done; [intros y [?|[_ ?]%list_elem_of_filter]; [by left|by right]|by intros y [_ ?]%list_elem_of_filter].
Qed.
(** The block that is collected gets other sizes of the same sum, or another [gc_node]. *)
Lemma inv_regc h (s : state) b j j' T : inv h s → gcblock s = Some b → blocks s !! b = Some j → accounted 0 (rebooked b j' T s) →
  offset j' = offset j → phys j' = phys j → nonneg (size j') → sum (size j') = sum (size j) → free_size (size j') = free_size (size j) →
  used_size (size j') = used_size (size j) → unchecked_size (size j') = unchecked_size (size j) → inv h (rebooked b j' T s).
Proof.
  intros Hi Hg Hb Hacc Ho Hph Hz Hs Hf Hu Hc. pose proof (inv_blocks _ _ Hi _ _ Hb) as Hj. pose proof (inv_placed _ _ Hi) as Hp.
  pose proof (proj2 (proj2 (inv_shaped _ _ Hi)) b j (or_intror Hg) Hb) as Hfull. eapply (inv_patch h s _ b j); try done.
  - destruct Hj. split; rewrite ?Ho, ?Hph, ?Hf, ?Hu, ?Hc; done.
  - intros q y Hy Hyn. by exists y.
  - intros b' i _ Hi'. by apply (inv_blocks _ _ Hi).
  - intros n Hbn. by destruct (listed_alone _ _ _ _ Hp Hbn) as (_ & _ & ?).
  - intros [He _]. unfold full in Hfull. rewrite He in Hfull. pose proof sector_pos. unfold sum in Hfull. cbn in Hfull. lia.
  - unfold full. by rewrite Hs.
  - apply Hi.
  - by apply (unspoilt_insert h s _ b j j').
Qed.
Lemma accounted_charges (s : state) b j k k' n : blocks s !! b = Some j → accounted 0 s → 0 <= get k (size j) + n < 2 ^ 32 →
  k ≠ k' → 0 <= get k' (size j) - n < 2 ^ 32 → ∃ T, accounted 0 (rebooked b (on_size (plus k' (- n)) (on_size (plus k n) j)) T s).
Proof.
  intros Hb Hacc Hn Hk Hn'. assert (wp (charge k b n;; charge k' b (- n);; mret tt) (rebooked b j (total s) s) (λ _ s', ∃ T, s' =
    rebooked b (on_size (plus k' (- n)) (on_size (plus k n) j)) T s ∧ accounted 0 s')) as Hw.
  { eapply wp_charge; [done|by rewrite rebooked_id|done|]. intros T1 HT1. eapply wp_charge; [done|exact HT1| |].
    - change (size (on_size (plus k n) j)) with (plus k n (size j)). rewrite get_plus, decide_False by done. lia.
    - intros T2 HT2. apply wp_ret. exists T2. split; [done|]. by replace 0 with (0 + n + - n) by lia. }
  destruct (wp_inv _ _ _ Hw) as (_ & s' & _ & T & -> & HT). by exists T.
Qed.
Lemma books_total (s s' : state) : books s → books s' → blocks s' = blocks s → total s' = total s.
Proof. intros H H' Hb. apply sizes_eq. intros k. by rewrite (H k), (H' k), Hb. Qed.
(** Wasted bytes become dirty ones (lines 106 to 112). *)
Lemma unwaste_eq (s : state) b j : inv [] s → gcblock s = Some b → blocks s !! b = Some j →
  let w := wasted_size (size j) in
  ∃ j' T, (if truthy w then charge_block Dirty b w;; charge_total Wasted (- w);; charge_total Dirty w;; set_size Wasted b 0 else mret tt) s =
    Some (tt, rebooked b j' T s) ∧ inv [] (rebooked b j' T s) ∧ phys j' = phys j ∧ gc_node j' = gc_node j ∧ unchecked_size (size j') = unchecked_size (size j).
Proof.
  intros Hi Hg Hb w. pose proof (inv_blocks _ _ Hi _ _ Hb) as Hj. pose proof (proj2 (proj2 (inv_shaped _ _ Hi)) b j (or_intror Hg) Hb) as Hfull.
  pose proof (nonneg_get _ (ok_sizes _ _ _ Hj)) as Hnn. pose proof (sector_small _ _ _ _ (inv_placed _ _ Hi) Hb) as Hsm. pose proof (ok_sizes _ _ _ Hj) as Hz.
  destruct (truthy w); [|exists j, (total s); by rewrite rebooked_id]. unfold full, sum in Hfull.
  destruct (accounted_charges s b j Dirty Wasted w Hb) as [T HT]; [by apply (inv_accounted [])|cbn; lia|done|cbn; lia|].
  set (j' := on_size _ (on_size _ j)) in *. exists j', (upd Dirty (add32 w) (upd Wasted (add32 (- w)) (total s))).
  assert (j' = on_size (λ z, upd Wasted (λ _, 0) (upd Dirty (add32 w) z)) j) as Hj'.
  { unfold j', on_size, plus, add32. f_equal. subst w. destruct (size j) as [un us d wt f]. cbn in *. rewrite u32_small by lia. f_equal. lia. }
  assert (books (rebooked b j' (upd Dirty (add32 w) (upd Wasted (add32 (- w)) (total s))) s)) as Hbk.
  { intros k. cbn [total blocks rebooked on_total on_blocks]. rewrite (column_insert _ _ _ _ _ Hb), !get_upd. pose proof (inv_books _ _ Hi k) as Hk. unfold j'. cbn [size on_size]. rewrite !get_plus. unfold add32.
    repeat case_decide; subst; try done; rewrite Hk, ?u32_add_l; f_equal; lia. }
  pose proof (books_total _ _ (proj1 HT) Hbk eq_refl) as HTe. cbn [total rebooked on_total] in HTe. rewrite <-HTe in HT. split_and!.
  - unfold charge_block, charge_total, set_size, on_block, puts, mbind, SM_bind. do 2 f_equal. apply sb_ext; try done. cbn [blocks on_blocks on_total rebooked].
    rewrite (alter_is_insert _ (blocks s) b j Hb). rewrite (alter_is_insert _ _ b (on_size (upd Dirty (add32 w)) j)) by (apply list_lookup_insert_eq; by eapply lookup_lt_Some).
    by rewrite list_insert_insert_eq, Hj'.
  - eapply inv_regc; try done; rewrite Hj'; cbn [size on_size]; subst w; destruct (size j) as [un us d wt f]; cbn in *; unfold add32, sum; cbn; rewrite ?u32_small by lia; try done; [|lia].
    apply nonneg_intro; lia.
  - done.
  - done.
  - unfold j'. cbn [size on_size]. by destruct (size j).
Qed.

(** What the collector needs, and keeps. *)
Record sound (s : state) : Prop := Sound { so_inv : inv [] s; so_collectable : collectable s; so_checked : checked s }.
Lemma sound_undisturbed (s s' : state) : sound s → inv [] s' → undisturbed s s' → sound s'.
Proof. intros [_ Hc Hk] Hi [_ _ _ Hk' Hc']. by split; [|apply Hc'|apply Hk']. Qed.
Lemma sound_quiet (s s' : state) : sound s → inv [] s' → quiet s s' → sound s'.
Proof. intros Hs Hi Hq. eapply sound_undisturbed; [done..|]. apply (quiet_undisturbed []); [apply Hs|done]. Qed.
Lemma find_gc_block_ok (s : state) : sound s → gcblock s = None →
  wp jffs2_find_gc_block s (λ p s', sound s' ∧ refs s' = refs s ∧ caches s' = caches s ∧ match p with Some b => gcblock s' = Some b | None => True end).
Proof.
  intros [Hi Hco Hck] Hg. unfold jffs2_find_gc_block. apply wp_jiffies. intros n. set (s0 := on_env take_jiffies s).
  assert (inv [] s0) as Hi0 by (by apply inv_env). assert (collectable s0) as Hco0 by (destruct Hco as [L N G]; split; [exact L|exact N|exact G]). assert (checked s0) as Hck0 by exact Hck.
  apply wp_sb_gets. cbn [id]. destruct (gc_list _ s0) as [l|] eqn:Hl.
  2: { unfold nonempty. rewrite (no_pending_wbuf [] s0 Hi0), bool_decide_eq_false_2 by (intros Hne; by apply Hne). by apply wp_ret. }
  apply gc_list_some in Hl as [Hne Hlu]. destruct (lists s0 l) as [|b bs] eqn:Hlb; [done|]. assert (b ∈ lists s0 l) as Hb by (rewrite Hlb; left). clear Hne Hlb.
  destruct (place_block _ _ b (inv_placed _ _ Hi0)) as [j Hj]; [apply elem_of_app; right; by eapply listed_places|].
  pose proof (co_lists _ Hco0 l b j Hlu Hb Hj) as Hph. destruct (listed_alone _ _ _ _ (inv_placed _ _ Hi0) Hb) as (_ & Hnb & _).
  pose proof (inv_collect [] s0 b l Hi0 Hlu Hb Hg) as Hi1. eapply wp_list_del; [exact Hb|]. eapply wp_then; [reflexivity|]. cbv beta.
  set (s1 := on_gcblock (λ _, Some b) (without b s0)) in *. change (set_gcblock (Some b) (without b s0)) with (Some (tt, s1)).
  eapply wp_block; [exact Hj|]. eapply wp_then; [reflexivity|]. cbv beta. destruct (phys j) as [|r ph] eqn:Hpj; [done|]. cbn [head]. clear Hph. cbv zeta.
  set (j1 := with_gc_node (Some r) j). match goal with |- wp _ ?s2 _ => assert (s2 = rebooked b j1 (total s1) s1) as -> end.
  { apply sb_ext; try done. cbn [blocks on_blocks rebooked on_total]. by rewrite (alter_is_insert _ _ b j Hj). }
  set (s2 := rebooked b j1 (total s1) s1). assert (inv [] s2) as Hi2.
  { eapply inv_regc; try done; [|apply (inv_blocks _ _ Hi1 _ _ Hj)]. pose proof (inv_accounted _ _ Hi1) as [Hbk Hbal]. split; [|exact Hbal]. intros k.
    cbn [total blocks s2 rebooked on_total on_blocks]. rewrite (column_insert k s1 b j1 j Hj), (Hbk k). f_equal. cbn [size j1 with_gc_node]. lia. }
  assert (blocks s2 !! b = Some j1) as Hj1 by (by eapply rebooked_block).
  destruct (unwaste_eq s2 b j1 Hi2 eq_refl Hj1) as (j2 & T & Hw & Hi3 & Hph2 & Hgn2 & Hun2). change (wasted_size (size j)) with (wasted_size (size j1)).
  eapply wp_then; [exact Hw|]. apply wp_ret. set (s3 := rebooked b j2 T s2). assert (∀ y i, blocks s3 !! y = Some i → y = b ∧ i = j2 ∨ y ≠ b ∧ blocks s !! y = Some i) as Hlook.
  { intros y i. cbn [blocks s3 s2 rebooked on_total on_blocks]. rewrite list_insert_insert_eq. intros [(-> & <- & _)|[]]%list_lookup_insert_Some; auto. }
  split_and!; [|done|done|done]. split; [done| |].
  - split.
    + intros m y i Hm [Hyb Hy]%list_elem_of_filter [[-> ->]|[_ Hyi]]%Hlook; [done|by eapply (co_lists _ Hco)].
    + intros y i Hy [[-> ->]|[_ Hyi]]%Hlook; [by destruct Hnb|by eapply (co_next _ Hco)].
    + intros y i [= <-] [[_ ->]|[Hne _]]%Hlook; [|done]. exists [], r, ph. rewrite Hph2, Hgn2. split_and!; [done|done|by intros q ?%elem_of_nil].
  - intros y i [[-> ->]|[_ Hyi]]%Hlook; [|by eapply Hck]. rewrite Hun2. exact (Hck b j Hj).
Qed.
Lemma choose_block_ok (s : state) : sound s →
  wp choose_block s (λ p s', sound s' ∧ refs s' = refs s ∧ caches s' = caches s ∧ match p with Some b => gcblock s' = Some b | None => True end).
Proof. intros Hs. unfold choose_block. apply wp_sb_gets. destruct (gcblock s) as [b|] eqn:Hg; [by apply wp_ret|by apply find_gc_block_ok]. Qed.

(** ** The end of a pass *)

Lemma eraseit_ok (s : state) ret : sound s → wp (eraseit ret) s (λ a s', a = ret ∧ sound s' ∧ refs s' = refs s ∧ caches s' = caches s).
Proof.
  intros [Hi Hco Hck]. unfold eraseit. apply wp_sb_gets.
  assert (∀ s1, sound s1 → refs s1 = refs s → caches s1 = caches s → wp (spin_unlock;; mret ret) s1 (λ a s', a = ret ∧ sound s' ∧ refs s' = refs s ∧ caches s' = caches s)) as Hend.
  { intros s1 Hs1 Hr1 Hc1. apply wp_bind. eapply wp_mono; [|by apply spin_unlock_ok, Hs1]. intros [] s2 [Hi2 Hq]. apply wp_ret. pose proof (q_kept _ _ Hq) as Hk.
    split_and!; [done|by eapply sound_quiet|by rewrite (kp_refs _ _ Hk)|by rewrite (kp_caches _ _ Hk)]. }
  destruct (gcblock s) as [b|] eqn:Hg; [|by apply Hend].
  destruct (place_block _ _ b (inv_placed _ _ Hi)) as [j Hj]; [cbn; unfold places; rewrite Hg, !elem_of_app; right; left; left|]. apply wp_assoc. eapply wp_block; [exact Hj|].
  destruct (Z.eqb_spec (used_size (size j)) 0) as [Hu|Hu]; [|by apply Hend]. apply wp_assoc. eapply wp_list_add_tail. apply wp_assoc. do 2 (eapply wp_then; [reflexivity|]). cbv beta.
  set (s1 := on_nr_erasing_blocks (add32 1) _). apply Hend; [|done|done]. split.
  - apply (inv_close_gc [] s b erase_pending_list 1 Hi Hg); [by right|]. intros j' Hj'. simplify_eq. split_and!; [|done|by apply (Hck b)].
    exact (proj2 (proj2 (inv_shaped _ _ Hi)) b j (or_intror Hg) Hj).
  - destruct Hco as [L N G]. split; [|exact N|done]. intros n y i Hn Hy. apply (L n y i Hn). cbn in Hy. rewrite decide_False in Hy; [done|]. intros ->. clear -Hn. set_solver.
  - exact Hck.
Qed.
End Choosing.
