(* ===== verification/Jffs2States.v ===== *)
(** * Jffs2States: the states of the inodes (fs/jffs2/nodemgmt.c, erase.c, write.c, gc.c)

    The functions that reserve, write, mark and erase make no inode cache and change the state of none: what is
    in [ic->state] is the affair of those that read an inode, and of the collector.  So the states in which the
    collector must not find an inode do not come from the others. *)

From S2P Require Import Prelude Jffs2Frag Jffs2Compr Jffs2Node Jffs2File Jffs2Write Jffs2Dir Crc32 Jffs2Space Jffs2Books Jffs2Account Jffs2Allocator Jffs2Gc.

Section States.
Import Space Users Gc.
Context {F : Type} `{!Mtd F} `{!Eraser F} {Geo : Geometry}.
Abbreviation state := (sb (F := F)).
Abbreviation P := (SM state).

(** Every cache was there, in the same state. *)
Definition same_states (s s' : state) : Prop := ∀ i c', caches s' !! i = Some c' → ∃ c, caches s !! i = Some c ∧ Space.state c' = Space.state c.
(** A program that, if it returns, leaves the states as they were. *)
Definition steadfast {A} (m : P A) : Prop := ∀ s a s', m s = Some (a, s') → same_states s s'.

Lemma same_states_eq (s s' : state) : caches s' = caches s → same_states s s'.
Proof. intros He i c. rewrite He. by exists c. Qed.
Lemma same_states_trans (s s1 s2 : state) : same_states s s1 → same_states s1 s2 → same_states s s2.
Proof. intros H1 H2 i c2 Hc2. destruct (H2 i c2 Hc2) as (c1 & Hc1 & ->). by apply H1. Qed.
Lemma steadfast_bind {A B} (m : P A) (k : A → P B) : steadfast m → (∀ a, steadfast (k a)) → steadfast (m ≫= k).
Proof.
  intros Hm Hk s b s2. unfold mbind, SM_bind. destruct (m s) as [[a s1]|] eqn:He; [|done]. intros H. eapply same_states_trans; [by eapply Hm|by eapply Hk].
Qed.
Lemma steadfast_read {A} (m : P A) : (∀ s a s', m s = Some (a, s') → caches s' = caches s) → steadfast m.
Proof. intros Hm s a s' He. by eapply same_states_eq, Hm. Qed.
Lemma steadfast_ret {A} (a : A) : steadfast (mret a).
Proof. apply steadfast_read. by intros s a' s' [= _ <-]. Qed.
Lemma steadfast_fault {A} : steadfast (fault : P A).
Proof. done. Qed.
Lemma steadfast_gets {A} (f : state → A) : steadfast (gets f).
Proof. apply steadfast_read. by intros s a' s' [= _ <-]. Qed.
Lemma steadfast_puts f : (∀ s, caches (f s) = caches s) → steadfast (puts f).
Proof. intros Hf. apply steadfast_read. intros s a s' [= _ <-]. apply Hf. Qed.
(** A cache may change, but for its state, and go. *)
Lemma steadfast_alter f i : (∀ c, Space.state (f c) = Space.state c) → steadfast (puts (on_caches (alter f i))).
Proof.
  intros Hf s a s' [= _ <-] k c'. cbn [caches on_caches]. destruct (decide (k = i)) as [->|Hk]; [|rewrite lookup_alter_ne by done; by exists c'].
  rewrite lookup_alter_eq. intros (c & -> & ->)%fmap_Some. exists c. by rewrite Hf.
Qed.
Lemma steadfast_delete i : steadfast (puts (on_caches (delete i))).
Proof. intros s a s' [= _ <-] k c'. cbn [caches on_caches]. intros [_ ->]%lookup_delete_Some. by exists c'. Qed.
Lemma steadfast_block b : steadfast (block b).
Proof. apply steadfast_read. intros s a s'. unfold block. destruct (_ !! _); [by intros [= _ <-]|done]. Qed.
Lemma steadfast_raw r : steadfast (raw r).
Proof. apply steadfast_read. intros s a s'. unfold raw. destruct (_ !! _); [by intros [= _ <-]|done]. Qed.
Lemma steadfast_cache i : steadfast (cache i).
Proof. apply steadfast_read. intros s a s'. unfold cache. destruct (_ !! _); [by intros [= _ <-]|done]. Qed.
Lemma steadfast_list_del b : steadfast (list_del b).
Proof. apply steadfast_read. intros s a s'. unfold list_del. destruct (existsb _ _); [by intros [= _ <-]|done]. Qed.
Lemma steadfast_free r : steadfast (jffs2_free_raw_node_ref r).
Proof. apply steadfast_read. intros s a s'. unfold jffs2_free_raw_node_ref. destruct (_ !! _); [by intros [= _ <-]|done]. Qed.
Lemma steadfast_write ofs b : steadfast (jffs2_flash_write ofs b).
Proof. apply steadfast_read. intros s a s'. unfold jffs2_flash_write. destruct (mtd_write _ _ _) as [[ret n] f]. by intros [= _ <-]. Qed.
Lemma steadfast_writev v ofs : steadfast (jffs2_flash_direct_writev v ofs).
Proof. apply steadfast_read. intros s a s'. unfold jffs2_flash_direct_writev. destruct (Node.mtd_fake_writev _ _ _ _) as [[ret n] f]. by intros [= _ <-]. Qed.
End States.

Create HintDb steadfast.
#[export] Hint Resolve steadfast_ret steadfast_fault steadfast_gets steadfast_delete steadfast_block steadfast_raw steadfast_cache steadfast_list_del
  steadfast_free steadfast_write steadfast_writev : steadfast.
(** Through a program: its steps are known, or the hypothesis of an induction, or made of others. *)
Ltac steadfast :=
  repeat first
    [ progress intros
    | solve [auto with steadfast nocore]
    | match goal with
      | |- steadfast (_ ≫= _) => apply steadfast_bind
      | |- steadfast (Space.puts (Space.on_caches (alter _ _))) => apply steadfast_alter; done
      | |- steadfast (Space.puts _) => apply steadfast_puts; done
      | |- steadfast (if ?c then _ else _) => destruct c
      | |- steadfast (match ?c with _ => _ end) => destruct c
      | |- steadfast ((match ?c with _ => _ end) _) => destruct c
      end
    | progress cbv beta zeta ].

Section Functions.
Import Space Users Gc.
Context {F : Type} `{!Mtd F} `{!Eraser F} {Geo : Geometry}.
Abbreviation state := (sb (F := F)).
Abbreviation P := (SM state).

Lemma on_block_states b f : steadfast (F := F) (on_block b f).
Proof. unfold on_block. steadfast. Qed.
Lemma on_raw_states r f : steadfast (F := F) (on_raw r f).
Proof. unfold on_raw. steadfast. Qed.
Lemma list_add_states b n : steadfast (F := F) (list_add b n).
Proof. unfold list_add. steadfast. Qed.
Lemma list_add_tail_states b n : steadfast (F := F) (list_add_tail b n).
Proof. unfold list_add_tail. steadfast. Qed.
Lemma charge_total_states k n : steadfast (F := F) (charge_total k n).
Proof. unfold charge_total. steadfast. Qed.
Lemma set_nextblock_states p : steadfast (F := F) (set_nextblock p).
Proof. unfold set_nextblock. steadfast. Qed.
Lemma set_gcblock_states p : steadfast (F := F) (set_gcblock p).
Proof. unfold set_gcblock. steadfast. Qed.
#[local] Hint Resolve on_block_states on_raw_states list_add_states list_add_tail_states charge_total_states set_nextblock_states set_gcblock_states : steadfast.
Lemma charge_states k b n : steadfast (F := F) (charge k b n).
Proof. unfold charge, charge_block. steadfast. Qed.
Lemma set_size_states k b n : steadfast (F := F) (set_size k b n).
Proof. unfold set_size. steadfast. Qed.
Lemma on_list_states b n : steadfast (F := F) (on_list b n).
Proof. unfold on_list. steadfast. Qed.
Lemma kmalloc_states : steadfast (F := F) kmalloc.
Proof. unfold kmalloc. steadfast. Qed.
Lemma get_jiffies_states : steadfast (F := F) get_jiffies.
Proof. unfold get_jiffies. steadfast. Qed.
Lemma flash_read_states o n : steadfast (F := F) (jffs2_flash_read o n).
Proof. unfold jffs2_flash_read. steadfast. Qed.
Lemma chain_fuel_states : steadfast (F := F) chain_fuel.
Proof. unfold chain_fuel. steadfast. Qed.
#[local] Hint Resolve charge_states set_size_states on_list_states kmalloc_states get_jiffies_states flash_read_states chain_fuel_states : steadfast.
Lemma alloc_ref_states : steadfast (F := F) jffs2_alloc_raw_node_ref.
Proof. unfold jffs2_alloc_raw_node_ref. steadfast. Qed.
Lemma ref_totlen_states b r : steadfast (F := F) (ref_totlen b r).
Proof. unfold ref_totlen. steadfast. Qed.
Lemma sanity_states b : steadfast (F := F) (jffs2_dbg_acct_sanity_check_nolock b).
Proof. unfold jffs2_dbg_acct_sanity_check_nolock. steadfast. Qed.
#[local] Hint Resolve alloc_ref_states ref_totlen_states sanity_states : steadfast.
Lemma tally_states b o l u c : steadfast (F := F) (tally b o l u c).
Proof. revert u c. induction l; cbn [tally]; steadfast. Qed.
#[local] Hint Resolve tally_states : steadfast.
Lemma paranoia_states b : steadfast (F := F) (jffs2_dbg_acct_paranoia_check_nolock b).
Proof. unfold jffs2_dbg_acct_paranoia_check_nolock. steadfast. Qed.
#[local] Hint Resolve paranoia_states : steadfast.
Lemma acct_checks_states b : steadfast (F := F) (acct_checks b).
Proof. unfold acct_checks. steadfast. Qed.
Lemma get_slot_states p : steadfast (F := F) (get_slot p).
Proof. unfold get_slot. steadfast. Qed.
Lemma set_slot_states p l : steadfast (F := F) (set_slot p l).
Proof. unfold set_slot. steadfast. Qed.
Lemma raw_ref_to_ic_states fuel r : steadfast (F := F) (raw_ref_to_ic fuel r).
Proof. revert r. induction fuel; cbn [raw_ref_to_ic]; steadfast. Qed.
#[local] Hint Resolve acct_checks_states get_slot_states set_slot_states raw_ref_to_ic_states : steadfast.
Lemma find_slot_states fuel p r : steadfast (F := F) (find_slot fuel p r).
Proof. revert p. induction fuel; cbn [find_slot]; steadfast. Qed.
Lemma drop_unused_states i : steadfast (F := F) (drop_unused_cache i).
Proof. unfold drop_unused_cache, jffs2_del_ino_cache. steadfast. Qed.
Lemma account_states b r : steadfast (F := F) (account_obsolete b r).
Proof. unfold account_obsolete. steadfast. Qed.
Lemma refile_states b n : steadfast (F := F) (refile b n).
Proof. unfold refile. steadfast. Qed.
Lemma obliterate_states b r : steadfast (F := F) (obliterate b r).
Proof. unfold obliterate. steadfast. Qed.
#[local] Hint Resolve find_slot_states drop_unused_states account_states refile_states obliterate_states : steadfast.
Lemma leave_states r : steadfast (F := F) (leave_inode r).
Proof. unfold leave_inode. steadfast. Qed.
Lemma absorb_states b p n : steadfast (F := F) (absorb b p n).
Proof. unfold absorb. steadfast. Qed.
#[local] Hint Resolve leave_states absorb_states : steadfast.
Lemma merge_next_states b r : steadfast (F := F) (merge_next b r).
Proof. unfold merge_next. steadfast. Qed.
Lemma merge_prev_states b r : steadfast (F := F) (merge_prev b r).
Proof. unfold merge_prev. steadfast. Qed.
Lemma deliver_states l : steadfast (F := F) (deliver l).
Proof. induction l as [|[[b fin] a] l IH]; cbn [deliver]; unfold jffs2_erase_callback, jffs2_erase_succeeded, jffs2_erase_failed, erase_done; steadfast. Qed.
#[local] Hint Resolve merge_next_states merge_prev_states deliver_states : steadfast.
Lemma spin_unlock_states : steadfast (F := F) spin_unlock.
Proof. unfold spin_unlock. steadfast. Qed.
#[local] Hint Resolve spin_unlock_states : steadfast.
Lemma mark_states r : steadfast (F := F) (jffs2_mark_node_obsolete r).
Proof. unfold jffs2_mark_node_obsolete. steadfast. Qed.
Lemma erase_block_states b : steadfast (F := F) (jffs2_erase_block b).
Proof. unfold jffs2_erase_block, refile_pending, jffs2_erase_failed. steadfast. Qed.
Lemma remove_loop_states fuel o r p ic : steadfast (F := F) (remove_refs_loop fuel o r p ic).
Proof. revert p ic. induction fuel; cbn [remove_refs_loop]; steadfast. Qed.
#[local] Hint Resolve mark_states erase_block_states remove_loop_states : steadfast.
Lemma free_refs_states b l : steadfast (F := F) (free_refs b l).
Proof. induction l; cbn [free_refs]; unfold jffs2_remove_node_refs_from_ino_list; steadfast. Qed.
Lemma check_pages_states fuel o l ret bad : steadfast (F := F) (check_pages fuel o l ret bad).
Proof. revert o ret bad. induction fuel; cbn [check_pages]; steadfast. Qed.
Lemma file_free_states b l f u : steadfast (F := F) (file_free b l f u).
Proof. unfold file_free. steadfast. Qed.
#[local] Hint Resolve free_refs_states check_pages_states file_free_states : steadfast.
Lemma mark_erased_states b : steadfast (F := F) (jffs2_mark_erased_block b).
Proof. unfold jffs2_mark_erased_block, jffs2_block_check_erase, refile_complete, file_bad, jffs2_erase_failed. steadfast. Qed.
Lemma start_erase_states b : steadfast (F := F) (start_erase b).
Proof. unfold start_erase, jffs2_free_all_node_refs. steadfast. Qed.
#[local] Hint Resolve mark_erased_states start_erase_states : steadfast.
Lemma erase_loop_states fuel count : steadfast (F := F) (erase_loop fuel count).
Proof. revert count. induction fuel; cbn [erase_loop]; steadfast. Qed.
#[local] Hint Resolve erase_loop_states : steadfast.
Lemma erase_pending_states count : steadfast (F := F) (jffs2_erase_pending_blocks count).
Proof. unfold jffs2_erase_pending_blocks, erase_fuel. steadfast. Qed.
#[local] Hint Resolve erase_pending_states : steadfast.
Lemma file_nextblock_states b : steadfast (F := F) (file_nextblock b).
Proof. unfold file_nextblock. steadfast. Qed.
Lemma erase_for_room_states : steadfast (F := F) erase_for_room.
Proof. unfold erase_for_room. steadfast. Qed.
Lemma grant_states b : steadfast (F := F) (grant b).
Proof. unfold grant. steadfast. Qed.
#[local] Hint Resolve file_nextblock_states erase_for_room_states grant_states : steadfast.
Lemma do_reserve_states fuel n : steadfast (F := F) (do_reserve_loop fuel n).
Proof. induction fuel; cbn [do_reserve_loop]; steadfast. Qed.
#[local] Hint Resolve do_reserve_states : steadfast.
Lemma gc_reserve_states fuel n : steadfast (F := F) (gc_reserve_loop fuel n).
Proof. induction fuel; cbn [gc_reserve_loop]; unfold jffs2_do_reserve_space; steadfast. Qed.
#[local] Hint Resolve gc_reserve_states : steadfast.
Lemma reserve_gc_states n : steadfast (F := F) (jffs2_reserve_space_gc n).
Proof. unfold jffs2_reserve_space_gc, reserve_fuel. steadfast. Qed.
Lemma add_physical_states r : steadfast (F := F) (jffs2_add_physical_node_ref r).
Proof. unfold jffs2_add_physical_node_ref. steadfast. Qed.
#[local] Hint Resolve reserve_gc_states add_physical_states : steadfast.
Lemma report_failed_states r n : steadfast (F := F) (report_failed r n).
Proof. unfold report_failed. steadfast. Qed.
Lemma report_written_states r fl i : steadfast (F := F) (report_written r fl i).
Proof. unfold report_written. steadfast. Qed.
#[local] Hint Resolve report_failed_states report_written_states : steadfast.
Lemma store_node_states i fl v o : steadfast (F := F) (store_node i fl v o).
Proof. unfold store_node, jffs2_dbg_prewrite_paranoia_check, prepare_raw. steadfast. Qed.
#[local] Hint Resolve store_node_states : steadfast.
Lemma run_states o : steadfast (F := F) (run o).
Proof. destruct o; cbn [run]; steadfast. Qed.
Lemma reaches_states A (s s' : state) : reaches A s s' → same_states s s'.
Proof. induction 1 as [|o s1 a s2 _ IH _ _ Hr]; [by apply same_states_eq|]. eapply same_states_trans; [exact IH|by eapply run_states]. Qed.
Lemma copy_node_states tries i r n o len l : steadfast (F := F) (copy_node tries i r n o len l).
Proof. revert n o. induction tries; cbn [copy_node]; unfold locked_checks; steadfast. Qed.
#[local] Hint Resolve copy_node_states : steadfast.
Lemma pristine_states beyond i r : steadfast (F := F) (jffs2_garbage_collect_pristine beyond i r).
Proof. unfold jffs2_garbage_collect_pristine. steadfast. Qed.
Lemma eraseit_states ret : steadfast (F := F) (eraseit ret).
Proof. unfold eraseit. steadfast. Qed.
Lemma choose_block_states : steadfast (F := F) choose_block.
Proof. unfold choose_block, jffs2_find_gc_block, charge_block. steadfast. Qed.
End Functions.
