(* ===== verification/Jffs2Collect.v ===== *)
(** * Jffs2Collect: a pass of the collector (fs/jffs2/gc.c)

    A pristine node is copied and its old place becomes obsolete, or nothing happens to it; a pass keeps the books and
    what the next pass relies on; and what a write that fails leads to. *)

From S2P Require Import Prelude Jffs2Frag Jffs2Compr Jffs2Node Jffs2File Jffs2Write Jffs2Io Jffs2Dir Crc32 Jffs2Space Jffs2Books Jffs2Account Jffs2Obsolete Jffs2Erase Jffs2Reserve Jffs2Room Jffs2Allocator Jffs2Gc Jffs2States.

Section Copying.
Import Space Users Gc.
Context {F : Type} `{!Mtd F} `{!Eraser F} `{!Erasable F} {Geo : Geometry} {Lawful_geo : Geometric}.
Abbreviation state := (sb (F := F)).
Abbreviation P := (SM state).

(** ** The node that is moved *)

(** The node [r] of the block that is collected is not obsolete and belongs to the inode [i]. *)
Record target (s : state) (b i r : nat) (x : raw_ref) : Prop := Target {
  tg_gc : gcblock s = Some b; tg_block : ∃ j, blocks s !! b = Some j ∧ r ∈ phys j; tg_ref : refs s !! r = Some x;
  tg_live : ref_obsolete x = false; tg_owns : owns s i r }.
Lemma target_undisturbed (s s' : state) b i r x : target s b i r x → undisturbed s s' →
  ∃ x', target s' b i r x' ∧ flash_offset x' = flash_offset x ∧ totlen x' = totlen x.
Proof.
  intros [Hg (j & Hj & Hr) Hx Hl Ho] Hu. destruct (un_nodes _ _ Hu b j r x Hg Hj Hr Hx Hl) as [Hs Hk]. destruct (Hs x Hx) as (x' & Hx' & Hf & Ht).
  exists x'. split_and!; [|done|done]. split; [by rewrite (un_gc _ _ Hu)|exists j; split; [by apply (un_block _ _ Hu)|done]|done| |by apply Hk].
  unfold ref_obsolete in *. by rewrite Hf.
Qed.
Lemma target_length (s : state) b i r x : inv [] s → target s b i r x → 12 <= totlen x <= sector_size ∧ totlen x mod 4 = 0 ∧ flash_offset x / sector_size = Z.of_nat b ∧
  Z.of_nat b * sector_size <= ref_offset x ∧ ref_offset x + totlen x <= Z.of_nat b * sector_size + sector_size.
Proof.
  intros Hi [Hg (j & Hj & Hr) Hx _ _]. destruct (in_block _ _ _ _ (inv_blocks _ _ Hi _ _ Hj) (block_bounds _ _ _ _ (inv_placed _ _ Hi) Hj) Hr) as (y & Hy & Hok & Ht & Hlo & Hhi & Hd & _).
  simplify_eq. pose proof (ok_sizes _ _ _ (inv_blocks _ _ Hi _ _ Hj) Free) as Hf. cbn in Hf. pose proof (ok_offset _ _ _ (inv_blocks _ _ Hi _ _ Hj)).
  split_and!; [done|lia|apply Hok|done|lia|lia].
Qed.
Lemma PAD_aligned n : 0 <= n → n + 3 < 2 ^ 32 → n mod 4 = 0 → PAD n = n.
Proof. intros H0 H1 Hm. destruct (PAD_bounds n H0 H1). Z.to_euclidean_division_equations. lia. Qed.
Lemma sector_pad : sector_size + 3 < 2 ^ 32 ∨ nr_blocks = 0.
Proof.
  pose proof geo_size as Hs. rewrite geo_flash in Hs. pose proof geo_blocks. pose proof sector_pos. pose proof sector_aligned as Ha.
  destruct (Z.eq_dec nr_blocks 0) as [|Hn]; [by right|left]. assert (sector_size < 2 ^ 32) as Hlt by nia. clear -Hlt Ha. Z.to_euclidean_division_equations; lia.
Qed.
Lemma sector_pad_block (s : state) h b j : placed h s → blocks s !! b = Some j → sector_size + 3 < 2 ^ 32.
Proof. intros [_ Hl] Hb%lookup_lt_Some. destruct sector_pad; [done|lia]. Qed.

(** A node of [n] bytes at [ofs], pristine, belongs to the inode [i]. *)
Definition moved_to (i : nat) (ofs n : Z) (s : state) : Prop :=
  ∃ q y, owns s i q ∧ refs s !! q = Some y ∧ ref_offset y = ofs ∧ totlen y = n ∧ ref_flags y = REF_PRISTINE.
Lemma recorded_owns h (s : state) q i ofs n fl : inv h s → recorded_as q i ofs n fl s → owns s i q.
Proof.
  intros Hi (x & c & Hc & Hn & _). destruct (proj1 (inv_chained _ _ Hi) i c Hc) as [ns Hns]. exists c, ns. split_and!; [done|done|].
  unfold chain in Hns. rewrite Hn in Hns. destruct ns as [|p ns]; [done|]. destruct Hns as [[= ->] _]. left.
Qed.

(** ** The copy *)

(** On a flash whose writes to blank places succeed. *)
Lemma copy_node_written tries (s : state) i r q ofs node f : let n := Z.of_nat (length node) in mtd_write (flash s) ofs node = (0, n, f) →
  copy_node tries i r q ofs n node (with_ref q (Ref 0 0 Null) s) =
    (report_written q REF_PRISTINE i;; jffs2_mark_node_obsolete (Some r);; mret 0) (with_ref q (Ref ofs n Null) (on_flash (λ _, f) s)).
Proof.
  intros n Hwf.
  assert (on_raw q (λ x, Ref ofs n (next_in_ino x)) (with_ref q (Ref 0 0 Null) s) = Some (tt, with_ref q (Ref ofs n Null) s)) as Hr.
  { unfold on_raw, puts. do 2 f_equal. apply sb_ext; try done. unfold with_ref. cbn [refs on_refs]. by rewrite alter_insert_eq. }
  assert (jffs2_flash_write ofs node (with_ref q (Ref ofs n Null) s) = Some ((0, n), with_ref q (Ref ofs n Null) (on_flash (λ _, f) s))) as Hw.
  { unfold jffs2_flash_write. change (flash (with_ref _ _ s)) with (flash s). by rewrite Hwf. }
  destruct tries; cbn [copy_node]; unfold mbind at 1, SM_bind at 1; rewrite Hr; unfold mbind at 1, SM_bind at 1; rewrite Hw; by rewrite Z.eqb_refl.
Qed.
Lemma copy_node_ok tries (s : state) b i r x q ofs node nb nj :
  let n := Z.of_nat (length node) in
  sound s → durable (F := F) → target s b i r x → open_room s nb nj ofs n → unused q s → n mod 4 = 0 →
  wp (copy_node tries i r q ofs n node) (with_ref q (Ref 0 0 Null) s) (λ ret s', ret = 0 ∧ sound s' ∧ gone r s' ∧ moved_to i ofs n s' ∧ stored (flash s') ofs node).
Proof.
  intros n Hs Hdu Ht Hroom Hun Hn4. pose proof (so_inv _ Hs) as Hi. pose proof Hroom as [Hnext Hnb Hofs Hn12 Hnsec Hnpad]. pose proof (sector_pad_block _ _ _ _ (inv_placed _ _ Hi) Hnb) as Hsp.
  assert (PAD n = n) as Hpad by (apply PAD_aligned; lia || done). pose proof (room_blank _ _ _ _ _ _ Hi Hroom) as Hbl. assert (Z.to_nat n = length node) as Hnl by (subst n; lia). rewrite Hnl in Hbl. clear Hnl.
  destruct (Hdu (flash s) ofs node Hbl) as [f Hw]. assert (touched (flash s) f ofs n) as Hto by (intros o' l Hs' Ho; by eapply law_elsewhere).
  pose proof (law_program _ _ _ _ Hw Hbl) as Hnode.
  pose proof (copy_node_written tries s i r q ofs node f Hw) as Hcopy. fold n in Hcopy. unfold wp. rewrite Hcopy. clear Hcopy. set (s1 := on_flash (λ _, f) s).
  destruct (tg_owns _ _ _ _ _ Ht) as (c & ns & Hc & _). cut (wp (report_written q REF_PRISTINE i;; jffs2_mark_node_obsolete (Some r);; mret 0)
    (with_ref q (Ref ofs (PAD n) Null) s1) (λ ret s', ret = 0 ∧ sound s' ∧ gone r s' ∧ moved_to i ofs n s' ∧ stored (flash s') ofs node)); [by rewrite Hpad|]. apply wp_bind.
  eapply wp_mono; [|by apply (report_written_ok [] s nb nj q ofs n i c REF_PRISTINE f)].
  intros [] s2 (Hi2 & Hst & Hu & Hp2 & He2).
  destruct (target_undisturbed _ _ _ _ _ _ Ht Hu) as (x2 & [Hg2 (j2 & Hj2 & Hr2) Hx2 Hl2 Ho2] & _).
  apply wp_bind. eapply wp_mono; [|apply (mark_node_obsolete_ok [] s2 b j2 r x2); [done..|apply (open_alone _ _ _ (inv_placed _ _ Hi2)); by right]].
  intros [] s3 (Hi3 & _ & Hmk & Hgone). apply wp_ret. pose proof (sound_undisturbed _ _ Hs Hi2 Hu) as [_ Hco2 Hck2].
  split_and!; [done|by split; [|apply (mk_collectable _ _ _ _ Hmk)|apply (mk_checked _ _ _ _ Hmk)]|done| |].
  - pose proof (recorded_owns _ _ _ _ _ _ _ Hi2 Hst) as Hown. destruct Hst as (y & c2 & _ & _ & Hy & Hyo & Hyt & Hyf).
    assert (q ≠ r) as Hqr by (intros ->; destruct Ht as [_ (j & Hj & Hr) _ _ _]; by apply (proj1 Hun b j Hj)).
    destruct (mk_nodes _ _ _ _ Hmk q y Hqr Hy) as [Hsame Hown3]; [rewrite ref_obsolete_flags, Hyf; done|].
    destruct (Hsame y Hy) as (y3 & Hy3 & Hf3 & Ht3). exists q, y3. unfold ref_offset, ref_flags in *. rewrite Hf3, Ht3, Hyt. split_and!; try done; by apply Hown3.
  - assert (nb ≠ b) as Hnbb by (intros ->; by apply (next_not_gc [] s b Hi Hnext), Ht). pose proof (inv_blocks _ _ Hi _ _ Hnb) as Hnj. pose proof (ok_offset _ _ _ Hnj).
    pose proof (spans_le _ _ _ _ (ok_spans _ _ _ Hnj)). assert (Z.of_nat nb * sector_size <= ofs ∧ ofs + Z.of_nat (length node) <= Z.of_nat nb * sector_size + sector_size) as [? ?] by (fold n; lia).
    apply (mk_flash _ _ _ _ Hmk nb); [done|done|lia|lia|]. by apply Hp2.
Qed.

(** ** [jffs2_garbage_collect_pristine] *)

Lemma wp_new_ref {B} (k : option nat → P B) (s : state) Q : inv [] s → undisturbed s (on_env take_memory s) ∧ inv [] (on_env take_memory s) ∧
  (wp (k None) (on_env take_memory s) Q → (∀ q, unused q (on_env take_memory s) → wp (k (Some q)) (with_ref q (Ref 0 0 Null) (on_env take_memory s)) Q) →
   wp (jffs2_alloc_raw_node_ref ≫= k) s Q).
Proof.
  intros Hi. set (s1 := on_env take_memory s). assert (inv [] s1) as Hi1 by (by apply (inv_env [] s)). split_and!; [|done|].
  - apply (bystander_undisturbed []), env_bystander; [done|]. unfold misfortunes. cbn. destruct (memory (env s)); cbn; lia.
  - intros Hno Hyes. unfold jffs2_alloc_raw_node_ref. apply wp_assoc, wp_kmalloc. intros ok s2 -> _. destruct ok; [|exact Hno].
    apply wp_assoc, wp_sb_gets. cbv beta. eapply wp_then; [reflexivity|]. cbv beta. apply Hyes. by apply fresh_ref_unused with (h := []).
Qed.
(** The room that is asked for first: that of a small node, or of this one. *)
Lemma first_request n : 12 <= n <= sector_size → n + 3 < 2 ^ 32 → n mod 4 = 0 →
  PAD (Z.min (Layout.sizeof_raw_inode + JFFS2_MIN_DATA_LEN) n) <= sector_size.
Proof.
  intros Hn Hs Hm. unfold Layout.sizeof_raw_inode, JFFS2_MIN_DATA_LEN. destruct (Z.min_spec (68 + 128) n) as [[? ->]|[? ->]]; [|rewrite PAD_aligned; lia].
  change (PAD (68 + 128)) with 196. lia.
Qed.
(** What is read is what is stored. *)
Lemma read_stored (f : F) o n (bytes buf : list Z) : stored f o bytes → Z.of_nat (length bytes) = n → mtd_read f o n = (0, buf) → Z.of_nat (length buf) = n → buf = bytes.
Proof.
  intros Hs Hb Hr Hn. apply (list_eq_same_length _ _ (length bytes)); [done|lia|]. intros i v w Hi Hv Hw.
  specialize (Hs o n buf i w Hr Hn Hw ltac:(lia)). replace (Z.to_nat (o + Z.of_nat i - o)) with i in Hs by lia. congruence.
Qed.
(** The node is moved, with its bytes, or it is where it was. *)
Definition moves (s : state) (i r : nat) (x : raw_ref) (ret : Z) (s' : state) : Prop :=
  ret = 0 ∧ gone r s' ∧ (∃ ofs, moved_to i ofs (totlen x) s' ∧
    ∀ bytes, Z.of_nat (length bytes) = totlen x → stored (flash s) (ref_offset x) bytes → stored (flash s') ofs bytes) ∨
  ret ≠ 0 ∧ undisturbed s s'.
Lemma pristine_ok beyond (s : state) b i r x : sound s → prompt → durable (F := F) → target s b i r x →
  wp (jffs2_garbage_collect_pristine beyond i r) s (λ ret s', sound s' ∧ moves s i r x ret s').
Proof.
  intros Hs Hpr Hdu Ht. pose proof (so_inv _ Hs) as Hi. destruct (target_length _ _ _ _ _ Hi Ht) as (Hn & Hn4 & Hd & Hlo & Hhi).
  pose proof Ht as [Hg (j & Hj & Hr) Hx Hl Ho]. pose proof (sector_pad_block _ _ _ _ (inv_placed _ _ Hi) Hj) as Hsp.
  unfold jffs2_garbage_collect_pristine. apply wp_sb_gets. rewrite Hg. eapply wp_ref_totlen; [exact Hx|exact Hd|].
  apply wp_bind. eapply wp_mono; [|by apply reserve_space_gc_ok]. intros [[ret ofs] len] s1 (Hi1 & Ha & Hu1). cbv beta iota.
  specialize (Hu1 ltac:(apply first_request; [done|lia|done])). pose proof (sound_undisturbed _ _ Hs Hi1 Hu1) as Hs1.
  assert (∀ (ret : Z) s', ret ≠ 0 → sound s' → undisturbed s s' → wp (mret ret) s' (λ ret s', sound s' ∧ moves s i r x ret s')) as Hend
    by (intros; apply wp_ret; split; [done|by right]).
  inversion Ha as [ofs' len' Hgr _|ofs' len' _]; subst; [|by apply Hend]. cbn [truthy Z.eqb negb].
  destruct (Z.ltb_spec len (totlen x)) as [Hlt|Hge]; [by apply Hend|].
  apply wp_kmalloc. intros ok s2 Hs2e _. assert (inv [] s2) as Hi2 by (rewrite Hs2e; by apply inv_env).
  assert (undisturbed s s2) as Hu2. { eapply undisturbed_trans; [exact Hu1|]. rewrite Hs2e. by destruct (wp_new_ref (λ _, mret tt) s1 (λ _ _, True) Hi1). }
  pose proof (sound_undisturbed _ _ Hs Hi2 Hu2) as Hs2. assert (granted s2 ofs len) as Hgr2 by (rewrite Hs2e; exact Hgr). clear Hs2e Hgr Ha.
  destruct ok; cbn [negb]; [|by apply Hend]. destruct (target_undisturbed _ _ _ _ _ _ Ht Hu2) as (x2 & Ht2 & Hf2 & Hl2). eapply wp_ref; [exact (tg_ref _ _ _ _ _ Ht2)|].
  apply wp_sb_gets. destruct (mtd_read (flash s2) (ref_offset x2) (totlen x)) as [ret buf] eqn:Hread. destruct (truthy ret) eqn:Hret; [by apply Hend; [apply truthy_spec|..]|].
  assert (ret = 0) as -> by (unfold truthy in Hret; lia). destruct (Z.eqb_spec (Z.of_nat (length buf)) (totlen x)) as [Hlen|]; cbn [negb]; [|by apply Hend].
  assert (∀ bytes, Z.of_nat (length bytes) = totlen x → stored (flash s) (ref_offset x) bytes → buf = bytes) as Hbytes.
  { intros bytes Hb Hsb. apply (read_stored (flash s2) (ref_offset x2) (totlen x)); [|done..]. unfold ref_offset at 1. rewrite Hf2. apply (un_flash _ _ Hu2 b Hg); [done|by rewrite Hb|done]. }
  clear Hread Hret. destruct (crcs_good beyond buf); cbn [negb]; [|by apply Hend].
  destruct (wp_new_ref (λ nraw, match nraw with None => mret (- ENOMEM) | Some nraw => copy_node 1 i r nraw ofs (totlen x) buf end) s2
    (λ ret s', sound s' ∧ moves s i r x ret s') Hi2) as (Hu3 & Hi3 & Hal).
  pose proof (undisturbed_trans _ _ _ Hu2 Hu3) as Hu. pose proof (sound_undisturbed _ _ Hs Hi3 Hu) as Hs3. apply Hal; [by apply Hend|]. intros q Hq.
  destruct (target_undisturbed _ _ _ _ _ _ Ht Hu) as (x3 & Ht3 & _). assert (granted (on_env take_memory s2) ofs len) as Hgr3 by exact Hgr2.
  assert (PAD (totlen x) <= len) as Hpad by (rewrite PAD_aligned; lia).
  destruct (granted_open _ [] ofs len (totlen x) Hi3 Hgr3) as (nb & nj & Hroom); [lia..|done|]. rewrite <-Hlen in Hroom, Hn4 |- *.
  eapply wp_mono; [|by eapply copy_node_ok]. intros a s4 (-> & Hs4 & Hgo & Hmv & Hst). split; [done|]. left. rewrite Hlen in Hmv. split_and!; [done|done|].
  exists ofs. split; [done|]. intros bytes Hb Hsb. by rewrite <-(Hbytes bytes Hb Hsb).
Qed.
End Copying.

Section Passing.
Import Space Users Gc.
Context {F : Type} `{!Mtd F} `{!Eraser F} `{!Erasable F} {Geo : Geometry} {Lawful_geo : Geometric}.
Abbreviation state := (sb (F := F)).
Abbreviation P := (SM state).

(** ** The state of an inode *)

Definition in_state (i : nat) (v : Z) (s : state) : state := on_caches (alter (with_state v) i) s.
Lemma in_state_lookup i v (s : state) k : caches (in_state i v s) !! k = (if decide (k = i) then with_state v else id) <$> caches s !! k.
Proof. unfold in_state. cbn. destruct (decide (k = i)) as [->|Hk]; [by rewrite lookup_alter_eq|]. rewrite lookup_alter_ne by done. by destruct (caches s !! k). Qed.
Lemma in_state_cache i v (s : state) k c : caches (in_state i v s) !! k = Some c → ∃ c', caches s !! k = Some c' ∧ nodes c = nodes c'.
Proof. rewrite in_state_lookup. intros (c' & Hc' & ->)%fmap_Some. exists c'. split; [done|]. by case_decide. Qed.
Lemma in_state_owns i v (s : state) k q : owns s k q → owns (in_state i v s) k q.
Proof.
  intros (c & ns & Hc & Hns & Hq). exists ((if decide (k = i) then with_state v else id) c), ns. rewrite in_state_lookup, Hc. split_and!; [done| |done].
  unfold chain in *. destruct (decide (k = i)); exact Hns.
Qed.
Lemma in_state_chained i v (s : state) : chained (refs s) (caches s) → chained (refs s) (caches (in_state i v s)).
Proof.
  intros [H1 H2]. split.
  - intros k c (c' & Hc' & Hn)%in_state_cache. destruct (H1 k c' Hc') as [ns Hns]. exists ns. unfold chain. by rewrite Hn.
  - intros q y Hy Hyn. destruct (H2 q y Hy Hyn) as (k & c & ns & Hc & Hns & Hq). assert (owns s k q) as Ho by (by exists c, ns).
    apply (in_state_owns i v) in Ho as (c' & ns' & ? & ? & ?). by exists k, c', ns'.
Qed.
Lemma inv_in_state h i v (s : state) : inv h s → inv h (in_state i v s).
Proof. intros Hi. pose proof (in_state_chained i v s (inv_chained _ _ Hi)). destruct Hi. split; try done. by apply (counted_same h s). Qed.
Lemma undisturbed_in_state i v (s : state) : undisturbed s (in_state i v s).
Proof.
  split; try done.
  - intros b j q x _ _ _ Hx _. split; [intros y Hy; by exists y|intros k; by apply in_state_owns].
  - intros [L N G]. split; [exact L|exact N|exact G].
  - intros b _. by apply preserved_flash.
Qed.
Lemma wp_set_state {B} i v (k : unit → P B) (s : state) Q : is_Some (caches s !! i) → wp (k tt) (in_state i v s) Q → wp (set_state i v ≫= k) s Q.
Proof. intros [c Hc] Hk. unfold set_state. apply wp_assoc. eapply wp_cache; [exact Hc|]. exact Hk. Qed.
Lemma owns_cache (s : state) i q : owns s i q → is_Some (caches s !! i).
Proof. intros (c & _ & -> & _). done. Qed.

(** ** The node that comes next *)

(** No inode is being checked or moved: the checks are done, and the pass has [alloc_sem]. *)
Abbreviation unready := [INO_STATE_UNCHECKED; INO_STATE_CHECKING; INO_STATE_GC].
Definition idle (s : state) : Prop := ∀ i c, caches s !! i = Some c → Space.state c ∉ unready.
Lemma idle_states (s s' : state) : idle s → same_states s s' → idle s'.
Proof. intros Hid Hs i c' Hc'. destruct (Hs i c' Hc') as (c & Hc & ->). by apply (Hid i). Qed.
Lemma idle_in_state i v (s : state) : v ∉ unready → (∀ k c, k ≠ i → caches s !! k = Some c → Space.state c ∉ unready) → idle (in_state i v s).
Proof. intros Hv Hid k c. rewrite in_state_lookup. intros (c' & Hc' & ->)%fmap_Some. case_decide; [done|]. by apply (Hid k). Qed.
Record ready (s : state) : Prop := Ready { re_sound : sound s; re_idle : idle s }.
(** The result of a wp, with the states of the inodes. *)
Lemma wp_steadfast {A} (m : P A) (s : state) (Q : A → state → Prop) : steadfast m → idle s → wp m s Q → wp m s (λ a s', Q a s' ∧ idle s').
Proof. intros Hm Hid Hw. destruct (wp_inv _ _ _ Hw) as (a & s' & He & HQ). eapply wp_eq; [exact He|]. split; [done|]. eapply idle_states; [done|by eapply Hm]. Qed.

(** The part of a pass that comes to [jffs2_garbage_collect_live] is a parameter [live].  A program of which it is one ends in a good
    state whatever [live] is, or it comes, in a good state, to a node that it hands over: then it is [live], on the node of the
    inode that it belongs to in the block that is collected, and the end of the pass. *)
Definition hands {A} (m : (nat → nat → nat → P Z) → P A) (k : Z → P A) (s : state) : Prop :=
  (∃ a s', (∀ live, m live s = Some (a, s')) ∧ ready s') ∨
  (∃ b i r x s', ready s' ∧ target s' b i r x ∧ ∀ live, m live s = (live b i r ≫= k) s').
Lemma then_run {A B} (m : P A) (k : A → P B) s a s' : m s = Some (a, s') → (m ≫= k) s = k a s'.
Proof. unfold mbind, SM_bind. by intros ->. Qed.
Lemma run_cache i c (s : state) : caches s !! i = Some c → cache i s = Some (c, s).
Proof. unfold cache. by intros ->. Qed.
Lemma run_raw r x (s : state) : refs s !! r = Some x → raw r s = Some (x, s).
Proof. unfold raw. by intros ->. Qed.
Lemma run_set_state i v c (s : state) : caches s !! i = Some c → set_state i v s = Some (tt, in_state i v s).
Proof. intros Hc. unfold set_state. by rewrite (then_run _ _ _ _ _ (run_cache i c s Hc)). Qed.
Lemma hands_done {A} (m : P A) k (s : state) : wp m s (λ _ s', ready s') → hands (λ _, m) k s.
Proof. intros Hw. destruct (wp_inv _ _ _ Hw) as (a & s' & He & Hr). left. by exists a, s'. Qed.
Lemma hands_bind {A B} (m : P A) (f : A → (nat → nat → nat → P Z) → P B) k (s : state) :
  wp m s (λ a s', hands (f a) k s') → hands (λ live, m ≫= λ a, f a live) k s.
Proof.
  intros Hw. destruct (wp_inv _ _ _ Hw) as (a & s1 & He & [(b & s' & Hf & Hr)|(b & i & r & x & s' & Hr & Ht & Hf)]).
  - left. exists b, s'. split; [|done]. intros live. by rewrite (then_run _ _ _ _ _ He).
  - right. exists b, i, r, x, s'. split_and!; [done|done|]. intros live. by rewrite (then_run _ _ _ _ _ He).
Qed.
Lemma hands_eq {A} (m m' : (nat → nat → nat → P Z) → P A) k s s' : (∀ live, m live s = m' live s') → hands m' k s' → hands m k s.
Proof. intros He [(a & s1 & Hm & Hr)|(b & i & r & x & s1 & Hr & Ht & Hm)]; [left; exists a, s1|right; exists b, i, r, x, s1]; split_and!; try done; intros live; by rewrite He. Qed.
Lemma hands_live b i r x (s : state) : ready s → target s b i r x → hands (λ live, ret ← live b i r; eraseit ret) eraseit s.
Proof. intros Hr Ht. right. by exists b, i, r, x, s. Qed.
Lemma eraseit_ready ret (s : state) : ready s → wp (eraseit ret) s (λ a s', a = ret ∧ ready s').
Proof.
  intros [Hs Hid]. eapply wp_mono; [|apply wp_steadfast; [apply eraseit_states|exact Hid|by apply eraseit_ok]]. by intros a s' ((-> & ? & _) & ?).
Qed.
Lemma ready_quiet (s s' : state) : ready s → inv [] s' → quiet s s' → ready s'.
Proof. intros [Hs Hid] Hi Hq. split; [by eapply sound_quiet|]. eapply idle_states; [exact Hid|]. apply same_states_eq, (kp_caches _ _ (q_kept _ _ Hq)). Qed.

Lemma move_node_ok beyond b i r x (s : state) : prompt → durable (F := F) → ready s → target s b i r x → hands (λ live, move_node live beyond b i r) eraseit s.
Proof.
  intros Hpr Hdu [Hs Hid] Ht. destruct (owns_cache _ _ _ (tg_owns _ _ _ _ _ Ht)) as [c Hc].
  apply (hands_eq _ (λ live, let fetch := ret ← live b i r; eraseit ret in
    if bool_decide (Space.state c ∈ unready) then fault
    else if Space.state c =? INO_STATE_READING then mret 0
    else if (Space.state c =? INO_STATE_CHECKEDABSENT) && (ref_flags x =? REF_PRISTINE) then
      set_state i INO_STATE_GC;; ret ← jffs2_garbage_collect_pristine beyond i r; set_state i INO_STATE_CHECKEDABSENT;;
      if ret =? - EBADFD then fetch else eraseit ret
    else fetch) _ _ s).
  { intros live. unfold move_node. by rewrite (then_run _ _ _ _ _ (run_cache _ _ _ Hc)), (then_run _ _ _ _ _ (run_raw _ _ _ (tg_ref _ _ _ _ _ Ht))). }
  cbv zeta. rewrite bool_decide_eq_false_2 by (by apply (Hid i)). destruct (_ =? INO_STATE_READING); [by apply hands_done, wp_ret|].
  destruct (_ && _); [|by eapply hands_live]. set (s1 := in_state i INO_STATE_GC s).
  apply (hands_eq _ (λ live, ret ← jffs2_garbage_collect_pristine beyond i r; set_state i INO_STATE_CHECKEDABSENT;;
      if ret =? - EBADFD then (ret ← live b i r; eraseit ret) else eraseit ret) _ _ s1).
  { intros live. by rewrite (then_run _ _ _ _ _ (run_set_state i INO_STATE_GC c s Hc)). }
  pose proof (undisturbed_in_state i INO_STATE_GC s) as Hu1. assert (sound s1) as Hs1 by (eapply sound_undisturbed; [exact Hs|apply inv_in_state, Hs|exact Hu1]).
  destruct (target_undisturbed _ _ _ _ _ _ Ht Hu1) as (x1 & Ht1 & _). apply (hands_bind (jffs2_garbage_collect_pristine beyond i r)).
  destruct (wp_inv _ _ _ (pristine_ok beyond s1 b i r x1 Hs1 Hpr Hdu Ht1)) as (ret & s2 & He2 & Hs2 & Hcase). pose proof (pristine_states _ _ _ _ _ _ He2) as Hst.
  eapply wp_eq; [exact He2|]. assert (is_Some (caches s2 !! i)) as [c2 Hc2].
  { destruct Hcase as [(_ & _ & ofs & (q & y & Ho & _) & _)|[_ Hu]]; [by eapply owns_cache|]. destruct (target_undisturbed _ _ _ _ _ _ Ht1 Hu) as (x2 & Ht2 & _). eapply owns_cache, Ht2. }
  set (s3 := in_state i INO_STATE_CHECKEDABSENT s2). pose proof (run_set_state i INO_STATE_CHECKEDABSENT c2 s2 Hc2) as Hset. fold s3 in Hset.
  pose proof (undisturbed_in_state i INO_STATE_CHECKEDABSENT s2) as Hu3. assert (ready s3) as Hr3.
  { split; [eapply sound_undisturbed; [exact Hs2|apply inv_in_state, Hs2|exact Hu3]|]. apply idle_in_state; [set_solver|]. intros k ck Hk Hck.
    destruct (Hst k ck Hck) as (c1 & Hc1 & ->). unfold s1 in Hc1. rewrite in_state_lookup in Hc1. rewrite decide_False in Hc1 by done. apply fmap_Some in Hc1 as (c0 & Hc0 & ->). by apply (Hid k). }
  apply (hands_eq _ (λ live, if ret =? - EBADFD then (ret ← live b i r; eraseit ret) else eraseit ret) _ _ s3).
  { intros live. by rewrite (then_run _ _ _ _ _ Hset). }
  destruct (Z.eqb_spec ret (- EBADFD)) as [Her|_]; [|apply hands_done; eapply wp_mono; [|by apply eraseit_ready]; by intros ? s' (_ & ?)].
  destruct Hcase as [(-> & _)|[_ Hu]]; [done|]. destruct (target_undisturbed _ _ _ _ _ _ Ht1 (undisturbed_trans _ _ _ Hu Hu3)) as (x3 & Ht3 & _). by eapply hands_live.
Qed.
(** The collector goes on at the node it found. *)
Lemma found_node_ok (s : state) b j r a c : sound s → gcblock s = Some b → blocks s !! b = Some j → phys j = a ++ r :: c → (∀ q, q ∈ a → dead (refs s) q) →
  ∃ s', on_block b (with_gc_node (Some r)) s = Some (tt, s') ∧ sound s' ∧ refs s' = refs s ∧ caches s' = caches s ∧ gcblock s' = Some b ∧
    blocks s' !! b = Some (with_gc_node (Some r) j).
Proof.
  intros [Hi Hco Hck] Hg Hj Hph Ha. set (s' := rebooked b (with_gc_node (Some r) j) (total s) s). exists s'.
  assert (blocks s' !! b = Some (with_gc_node (Some r) j)) as Hb by (by eapply rebooked_block). split_and!; try done.
  - unfold on_block, puts. do 2 f_equal. apply sb_ext; try done. cbn. by rewrite (alter_is_insert _ _ _ _ Hj).
  - assert (∀ y i, blocks s' !! y = Some i → y = b ∧ i = with_gc_node (Some r) j ∨ y ≠ b ∧ blocks s !! y = Some i) as Hlook.
    { intros y i. cbn [blocks s' rebooked on_total on_blocks]. intros [(-> & <- & _)|[]]%list_lookup_insert_Some; auto. }
    split.
    + eapply inv_regc; try done; [|apply (inv_blocks _ _ Hi _ _ Hj)]. pose proof (inv_accounted _ _ Hi) as [Hbk Hbal]. split; [|exact Hbal]. intros k.
      cbn [total blocks s' rebooked on_total on_blocks]. rewrite (column_insert k s b _ j Hj), (Hbk k). f_equal. cbn [size with_gc_node]. lia.
    + destruct Hco as [L N G]. split.
      * intros m y i Hm Hy [[-> ->]|[_ Hyi]]%Hlook; [exact (L m b j Hm Hy Hj)|by eapply L].
      * intros y i Hy [[-> ->]|[_ Hyi]]%Hlook; [exact (N b j Hy Hj)|by eapply N].
      * intros y i Hy [[-> ->]|[Hne Hyi]]%Hlook; [exists a, r, c; by split_and!|by eapply G].
    + intros y i [[-> ->]|[_ Hyi]]%Hlook; [exact (Hck b j Hj)|by eapply Hck].
Qed.
(** The node of an inode is found from the place in the block. *)
Lemma found_ready (s s' : state) : ready s → sound s' → caches s' = caches s → ready s'.
Proof. intros [_ Hid] Hs Hc. split; [done|]. eapply idle_states; [exact Hid|by apply same_states_eq]. Qed.
(** The end of a pass over a node that belongs to no inode. *)
Lemma stray_ok (s : state) b j r x : ready s → gcblock s = Some b → blocks s !! b = Some j → r ∈ phys j → refs s !! r = Some x →
  wp (spin_unlock;; jffs2_mark_node_obsolete (Some r);; eraseit 0) s (λ _ s', ready s').
Proof.
  intros Hr Hg Hj Hin Hx. pose proof (so_inv _ (re_sound _ Hr)) as Hi. apply wp_bind. eapply wp_mono; [|by apply spin_unlock_ok]. intros [] s3 [Hi3 Hq3].
  pose proof (q_kept _ _ Hq3) as Hk3. pose proof (ready_quiet _ _ Hr Hi3 Hq3) as [Hs3 Hid3].
  apply wp_bind. eapply wp_mono; [|apply wp_steadfast; [apply mark_states|exact Hid3|eapply (mark_node_obsolete_ok [] s3 b j r x); [done|by rewrite (kp_blocks _ _ Hk3)|done|by rewrite (kp_refs _ _ Hk3)|]]].
  - intros [] s4 ((Hi4 & _ & Hmk & _) & Hid4). eapply wp_mono; [|apply eraseit_ready; split; [split; [done|apply (mk_collectable _ _ _ _ Hmk), Hs3|apply (mk_checked _ _ _ _ Hmk), Hs3]|done]].
    by intros ? s' (_ & ?).
  - apply (open_alone _ _ _ (inv_placed _ _ Hi3)). right. by rewrite (q_gc _ _ Hq3).
Qed.
(** From the node that was found on. *)
Lemma found_ok beyond (s : state) b j r x : prompt → durable (F := F) → ready s → gcblock s = Some b → blocks s !! b = Some j → r ∈ phys j → refs s !! r = Some x → ref_obsolete x = false →
  hands (λ live, if decide (next_in_ino x = Null) then spin_unlock;; jffs2_mark_node_obsolete (Some r);; eraseit 0
    else fuel ← chain_fuel; i ← raw_ref_to_ic fuel r; spin_unlock;; move_node live beyond b i r) eraseit s.
Proof.
  intros Hpr Hdu Hr Hg Hj Hin Hx Hxo. destruct (decide (next_in_ino x = Null)) as [Hn|Hn]; [by apply hands_done, (stray_ok s b j r x)|].
  pose proof (so_inv _ (re_sound _ Hr)) as Hi. destruct (proj2 (inv_chained _ _ Hi) r x Hx Hn) as (i & ci & ns & Hci & Hns & Hrn). pose proof (chain_length _ _ _ _ Hns) as Hlen.
  pose proof Hrn as (n1 & n2 & ->)%list_elem_of_split. assert (seg (refs s) (next_in_ino x) n2 (ToCache i)) as Hseg.
  { unfold chain in Hns. apply seg_app in Hns as (m & _ & _ & y & Hy & Hy2). by simplify_eq. }
  apply (hands_bind chain_fuel). eapply wp_eq; [reflexivity|]. apply (hands_bind (raw_ref_to_ic _ r)). eapply wp_eq; [apply (raw_ref_to_ic_eq s _ r x n2 i Hx Hseg)|].
  { rewrite length_app in Hlen. cbn [length] in Hlen. lia. }
  apply (hands_bind spin_unlock (λ _ live, move_node live beyond b i r)). eapply wp_mono; [|by apply spin_unlock_ok]. intros [] s3 [Hi3 Hq3]. pose proof (q_kept _ _ Hq3) as Hk3.
  eapply (move_node_ok beyond b i r x); [done|done|by eapply ready_quiet|].
  split; [by rewrite (q_gc _ _ Hq3)|exists j; by rewrite (kp_blocks _ _ Hk3)|by rewrite (kp_refs _ _ Hk3)|done|].
  exists ci, (n1 ++ r :: n2). by rewrite (kp_caches _ _ Hk3), (kp_refs _ _ Hk3).
Qed.
Lemma collect_ok beyond (s : state) : prompt → durable (F := F) → ready s → hands (λ live, collect live beyond) eraseit s.
Proof.
  intros Hpr Hdu Hr. apply (hands_bind choose_block). eapply wp_mono; [|by apply choose_block_ok, Hr]. intros [b|] s1 (Hs1 & Hr1 & Hc1 & Hg1).
  2: { apply hands_done, wp_bind. eapply wp_mono; [|by apply spin_unlock_ok, Hs1]. intros [] s2 [Hi2 Hq]. apply wp_ret. eapply ready_quiet; [by apply (found_ready s)|done|done]. }
  pose proof (so_inv _ Hs1) as Hi1. destruct (place_block _ _ b (inv_placed _ _ Hi1)) as [j Hj]; [cbn; unfold places; rewrite Hg1, !elem_of_app; right; left; left|].
  pose proof (found_ready _ _ Hr Hs1 Hc1) as Hrd1. apply (hands_bind (block b)). apply (wp_eq _ _ j s1); [unfold block; by rewrite Hj|].
  destruct (Z.eqb_spec (used_size (size j)) 0) as [Hu|Hu]; [apply hands_done; eapply wp_mono; [|by apply eraseit_ready]; by intros ? s' (_ & ?)|].
  destruct (co_gc _ (so_collectable _ Hs1) b j Hg1 Hj) as (l1 & g & l2 & Hph & -> & Hd).
  pose proof (inv_blocks _ _ Hi1 _ _ Hj) as Hjo. pose proof (spans_NoDup _ _ _ _ (ok_spans _ _ _ Hjo)) as Hnd. rewrite Hph in Hnd. rewrite Hph, (behind_eq _ _ _ Hnd).
  destruct (skip_obsolete_eq s1 g l2) as (a & r & c & x & Heq & Ha & Hx & Hxo & Hskip).
  { intros q Hq. eapply node_of_block; [exact Hi1|exact Hj|]. rewrite Hph. apply elem_of_app. by right. }
  { rewrite (ok_used _ _ _ Hjo) in Hu. destruct (live_node _ _ Hu) as (q & y & Hq & Hy & Hyo). exists q, y. split_and!; [|done|done]. rewrite Hph in Hq.
    apply elem_of_app in Hq as [Hq|Hq]; [|done]. specialize (Hd q Hq y Hy). congruence. }
  apply (hands_bind (skip_obsolete g l2)). eapply wp_eq; [exact Hskip|]. assert (phys j = (l1 ++ a) ++ r :: c) as Hphr by (by rewrite Hph, Heq, app_assoc).
  destruct (found_node_ok s1 b j r (l1 ++ a) c Hs1 Hg1 Hj Hphr) as (s2 & Hfn & Hs2 & Hr2 & Hc2 & Hg2 & Hj2); [intros q [?|?]%elem_of_app; auto|].
  apply (hands_bind (on_block b (with_gc_node (Some r))) (λ _ live, x ← raw r; _)). eapply wp_eq; [exact Hfn|]. assert (refs s2 !! r = Some x) as Hx2 by (by rewrite Hr2).
  apply (hands_bind (raw r)). apply (wp_eq _ _ x s2); [unfold raw; by rewrite Hx2|].
  apply (found_ok beyond s2 b (with_gc_node (Some r) j) r x); try done; [by apply (found_ready s1)|]. cbn. rewrite Hphr. apply elem_of_app. right. left.
Qed.

(** ** Pass after pass *)

Lemma pass_ok crccheck beyond hi ino (s : state) : prompt → durable (F := F) → ready s →
  hands (λ live, jffs2_garbage_collect_pass crccheck live beyond hi ino) (λ ret, ret ← eraseit ret; mret (ret, ino)) s.
Proof.
  intros Hpr Hdu Hr. assert (∀ live, jffs2_garbage_collect_pass crccheck live beyond hi ino s = (ret ← collect live beyond; mret (ret, ino)) s) as He.
  { intros live. unfold jffs2_garbage_collect_pass. erewrite then_run; [|apply check_done, unchecked_free; apply Hr]. done. }
  destruct (collect_ok beyond s Hpr Hdu Hr) as [(a & s' & Hc & Hr')|(b & i & r & x & s' & Hr' & Ht & Hc)]; [left; exists (a, ino), s'|right; exists b, i, r, x, s'].
  - split; [|done]. intros live. by rewrite He, (then_run _ _ _ _ _ (Hc live)).
  - split_and!; [done|done|]. intros live. rewrite He. unfold mbind at 1, SM_bind at 1. rewrite Hc. unfold mbind, SM_bind. by destruct (live b i r s') as [[ret s2]|].
Qed.
(** Passes that hand no node over, and between them the calls of the writers, and inodes that are read, present, or go. *)
Inductive turns (pass : P (Z * Z)) (s : state) : state → Prop :=
  | turns_here : turns pass s s
  | turns_calls s1 s2 : turns pass s s1 → reaches moderate s1 s2 → turns pass s s2
  | turns_state s1 i v s2 : turns pass s s1 → v ∉ unready → set_state i v s1 = Some (tt, s2) → turns pass s s2
  | turns_pass s1 a s2 : turns pass s s1 → pass s1 = Some (a, s2) → turns pass s s2.
Lemma turns_ready crccheck beyond hi ino (s s' : state) : prompt → durable (F := F) → ready s →
  turns (jffs2_garbage_collect_pass crccheck (λ _ _ _, fault) beyond hi ino) s s' → ready s'.
Proof.
  intros Hpr Hdu Hr. induction 1 as [|s1 s2 _ [[Hi Hco Hck] Hid] Hre|s1 i v s2 _ [Hs Hid] Hv Hset|s1 a s2 _ IH Hp]; [done| | |].
  - destruct (reaches_collectable s1 s2 Hi Hpr Hre) as [? ?]. split; [split; [by eapply reaches_inv|auto..]|]. eapply idle_states; [exact Hid|by eapply reaches_states].
  - unfold set_state, cache, puts, mbind, SM_bind in Hset. destruct (caches s1 !! i) as [c|]; [|done]. injection Hset as <-. fold (in_state i v s1).
    split; [eapply sound_undisturbed; [exact Hs|apply inv_in_state, Hs|apply undisturbed_in_state]|]. apply idle_in_state; [done|]. intros k ck _. apply Hid.
  - destruct (pass_ok crccheck beyond hi ino s1 Hpr Hdu IH) as [(b & s' & He & Hr')|(b & i & r & x & s' & _ & _ & He)]; rewrite He in Hp; [by injection Hp as _ <-|done].
Qed.

(** [C12] The collector keeps the books and comes to no BUG() on the way to a node.  From a state whose books are in order, in which every
    block in use has nodes, none of them is unchecked and no inode is unchecked, being checked or being moved, there follow
    in any order: passes of [jffs2_garbage_collect_pass] that collect without [jffs2_garbage_collect_live], calls of
    the writers (no reservation of more than a block), and inodes that are read, present, cleared or absent again.  Then the books are in order again, the
    collector still finds what it relies on (a first node in every block it may take, the place in the block it had got to
    with nothing but obsolete nodes in front of it), and no inode is in a state that cannot be.  The next pass does
    not run over the end of a list of nodes and finds the inode of the node: either it returns, and all this is so afterwards, or
    it comes to [jffs2_garbage_collect_live] in such a state, with a node of the collected block that is not obsolete and the
    inode whose chain it is in; what that branch does is not modelled, and the theorem says nothing of it.  It is taken that
    writes to blank flash succeed (C18 is what happens where they do not), that no read is answered with -EAGAIN, and that memory is refused and
    erases fail or come late a finite number of times only. *)
Theorem collection_keeps_books crccheck beyond hi ino (s s' : state) : prompt → durable (F := F) →
  inv [] s → collectable s → unchecked_size (total s) = 0 → idle s →
  turns (jffs2_garbage_collect_pass crccheck (λ _ _ _, fault) beyond hi ino) s s' →
  let fine s := inv [] s ∧ collectable s ∧ unchecked_size (total s) = 0 ∧ idle s in
  fine s' ∧
  ((∃ a s1, fine s1 ∧ ∀ live, jffs2_garbage_collect_pass crccheck live beyond hi ino s' = Some (a, s1)) ∨
   (∃ b i r x s1, fine s1 ∧ target s1 b i r x ∧
      ∀ live, jffs2_garbage_collect_pass crccheck live beyond hi ino s' = (ret ← live b i r; ret ← eraseit ret; mret (ret, ino)) s1)).
Proof.
  intros Hpr Hdu Hi Hco Hu Hid Ht fine. assert (ready s) as Hr by (split; [split; [done|done|by apply unchecked_free]|done]).
  assert (∀ s, ready s → fine s) as Hfine by (intros s0 [[Hi0 Hco0 Hck0] Hid0]; split_and!; [done|done|by apply unchecked_free|done]).
  pose proof (turns_ready crccheck beyond hi ino s s' Hpr Hdu Hr Ht) as Hr'. split; [by apply Hfine|].
  destruct (pass_ok crccheck beyond hi ino s' Hpr Hdu Hr') as [(a & s1 & He & Hr1)|(b & i & r & x & s1 & Hr1 & Ht1 & He)].
  - left. exists a, s1. split; [by apply Hfine|done].
  - right. exists b, i, r, x, s1. split_and!; [by apply Hfine|done|done].
Qed.

(** [C13] A pristine node moves whole or not at all.  On a flash whose writes to blank places succeed (C18 is what happens where they do not),
    where no read is answered with -EAGAIN, and memory is refused and erases fail or come late a finite number of times
    only: [jffs2_garbage_collect_pristine] returns 0 with a pristine node of the same length at the place that was reserved,
    which belongs to the inode and whose bytes on the flash are those that the old one had, and the old node obsolete; or it
    returns an error (no room, no memory, a read that fails or comes short, a CRC that is wrong) and the node is where it
    was, with its bytes, and belongs to its inode. *)
Theorem node_moves_whole beyond (s : state) b i r x bytes : sound s → prompt → durable (F := F) → target s b i r x →
  Z.of_nat (length bytes) = totlen x → stored (flash s) (ref_offset x) bytes →
  ∃ ret s', jffs2_garbage_collect_pristine beyond i r s = Some (ret, s') ∧ inv [] s' ∧
    (ret = 0 ∧ gone r s' ∧ (∃ ofs, moved_to i ofs (totlen x) s' ∧ stored (flash s') ofs bytes) ∨
     ret ≠ 0 ∧ (∃ x', target s' b i r x' ∧ flash_offset x' = flash_offset x ∧ totlen x' = totlen x) ∧ stored (flash s') (ref_offset x) bytes).
Proof.
  intros Hs Hpr Hdu Ht Hlen Hst. destruct (wp_inv _ _ _ (pristine_ok beyond s b i r x Hs Hpr Hdu Ht)) as (ret & s' & H & [Hi' _ _] & Hc). exists ret, s'.
  split_and!; [done|done|]. destruct Hc as [(-> & ? & ofs & ? & Hb)|[Hr Hu]]; [left; split_and!; [done|done|]; exists ofs; split; [done|by apply Hb]|right].
  split_and!; [done|by apply (target_undisturbed s)|]. destruct (target_length _ _ _ _ _ (so_inv _ Hs) Ht) as (_ & _ & _ & ? & ?).
  apply (un_flash _ _ Hu b (tg_gc _ _ _ _ _ Ht)); [done|by rewrite Hlen|done].
Qed.

(** Writes fail, with nothing written. *)
Definition refusing : Prop := ∀ (f : F) o l, ∃ ret, ret ≠ 0 ∧ mtd_write f o l = (ret, 0, f).
(** [C18] The copy whose write fails is freed twice.  Where the flash takes nothing of a write, the copy frees its reference as
    unused, and then frees it again at the end; with memory for another reference it tries once more, and frees
    that one twice, whether there is no room for it or its write fails too; without, it frees the null
    pointer.  None of the ways returns. *)
Theorem failed_copy_frees_twice tries i r q ofs n node (s : state) : refusing → copy_node tries i r q ofs n node s = None.
Proof.
  intros Href. revert q ofs s. induction tries as [|tries IH]; intros q ofs s; cbn [copy_node]; unfold on_raw, puts, mbind, SM_bind, jffs2_flash_write.
  all: destruct (Href (flash (on_refs (alter (λ x, Ref ofs n (next_in_ino x)) q) s)) ofs node) as (ret & Hr%truthy_spec & ->); rewrite Hr; cbn [orb].
  all: unfold report_failed; cbn [truthy Z.eqb negb]; unfold jffs2_free_raw_node_ref at 1; destruct (refs _ !! q); [|done].
  - unfold jffs2_free_raw_node_ref. cbn [refs on_refs on_flash]. by rewrite lookup_delete_eq.
  - destruct (jffs2_alloc_raw_node_ref _) as [[[p|] s1]|]; [|done..]. destruct (locked_checks _ s1) as [[[] s2]|]; [|done].
    destruct (jffs2_reserve_space_gc n s2) as [[[[ret2 ofs2] len] s3]|]; [|done]. destruct (truthy ret2).
    + unfold jffs2_free_raw_node_ref at 1. destruct (refs s3 !! p); [|done]. unfold jffs2_free_raw_node_ref. cbn [refs on_refs]. by rewrite lookup_delete_eq.
    + destruct (locked_checks _ s3) as [[[] s4]|]; [|done]. apply IH.
Qed.
End Passing.

(** ** A small flash with a node to move *)

Section Sample.
Import Space Users Gc.
#[local] Instance small' : Geometry := jffs2_calc_trigger_levels 1024 12 4 4096.
#[local] Instance small_geometric' : Geometric.
Proof. split; [by exists 10|done..|by right|done]. Qed.
(** Block 0 is collected: behind its one node it is dirty.  The others are free, with their markers. *)
Definition node_bytes : list Z :=
  let r h n := Layout.RawInode JFFS2_MAGIC_BITMASK JFFS2_NODETYPE_INODE 68 h 1 1 0 0 0 0 0 0 0 0 0 0 0 0 0 0 n in
  let h := Layout.header_crc (Layout.inode_bytes (r 0 0)) in
  Layout.inode_bytes (r h (Layout.inode_crc (Layout.inode_bytes (r h 0)))).
Lemma length_node_bytes : length node_bytes = 68%nat.
Proof. by vm_compute. Qed.
Definition half_full {F} (f : F) : sb (F := F) :=
  Sb [Block 0 (Sizes 0 68 956 0 0) [1%nat] (Some 1%nat); Block 1024 (Sizes 0 12 0 0 1012) [2%nat] None;
      Block 2048 (Sizes 0 12 0 0 1012) [3%nat] None; Block 3072 (Sizes 0 12 0 0 1012) [4%nat] None]
    (λ n, match n with free_list => [1; 2; 3]%nat | _ => [] end) None (Some 0%nat) (Sizes 0 104 956 0 3036) 0 0 3 0
    {[1%nat := Ref 2 68 (ToCache 1); 2%nat := Ref 1027 12 Null; 3%nat := Ref 2051 12 Null; 4%nat := Ref 3075 12 Null]}
    {[1%nat := Cache (ToRef 1) 1 INO_STATE_CHECKEDABSENT true]} 0 false f (Env [] [] [] []).
Definition old_flash : sb (F := perfect) := half_full (λ a, nth (Z.to_nat a) node_bytes 255).
Lemma old_refs r x : refs old_flash !! r = Some x → r = 1%nat ∧ x = Ref 2 68 (ToCache 1) ∨ (r = 2%nat ∧ x = Ref 1027 12 Null ∨ r = 3%nat ∧ x = Ref 2051 12 Null ∨ r = 4%nat ∧ x = Ref 3075 12 Null).
Proof.
  cbn [refs old_flash half_full]. intros [[<- <-]|[_ [[<- <-]|[_ [[<- <-]|[_ [<- <-]%lookup_singleton_Some]]%lookup_insert_Some]]%lookup_insert_Some]]%lookup_insert_Some; auto 6.
Qed.
Lemma old_block b j : blocks old_flash !! b = Some j → b = 0%nat ∧ j = Block 0 (Sizes 0 68 956 0 0) [1%nat] (Some 1%nat) ∨
  ∃ k, (k < 3)%nat ∧ b = S k ∧ j = Block (1024 * Z.of_nat (S k)) (Sizes 0 12 0 0 1012) [S (S k)] None ∧ refs old_flash !! (S (S k)) = Some (Ref (1024 * Z.of_nat (S k) + 3) 12 Null).
Proof. cbn [blocks old_flash half_full]. destruct b as [|[|[|[|b]]]]; cbn; intros [= <-]; [by left|right..]; [exists 0%nat|exists 1%nat|exists 2%nat]; split_and!; try done; lia. Qed.
Lemma old_flash_inv : inv [] old_flash.
Proof.
  split.
  - intros []; reflexivity.
  - reflexivity.
  - split; [|reflexivity]. change (([0; 1; 2; 3]%nat : list nat) ≡ₚ [0; 1; 2; 3]%nat). done.
  - split_and!; [|intros b j []%elem_of_nil|].
    + intros n b j Hb Hj. destruct n; cbn [lists old_flash half_full] in Hb; try (by apply elem_of_nil in Hb).
      apply old_block in Hj as [[-> _]|(k & _ & -> & -> & Hr)]; [by set_solver|]. split_and!; [done..|]. intros r x ->%list_elem_of_singleton Hx. by simplify_eq.
    + intros b j [|[= <-]] [[_ ->]|(k & _ & ? & _)]%old_block; done.
  - split; reflexivity.
  - intros b j [[-> ->]|(k & Hk & -> & -> & Hr)]%old_block; split.
    + done.
    + intros []; cbn; lia.
    + done.
    + exists (Ref 2 68 (ToCache 1)). split_and!; done.
    + reflexivity.
    + reflexivity.
    + cbn [offset]. change sector_size with 1024. lia.
    + intros []; cbn; lia.
    + done.
    + destruct k as [|[|[|k]]]; [..|lia]; eexists; (split_and!; [reflexivity|done|done|done|done]).
    + destruct k as [|[|[|k]]]; [..|lia]; reflexivity.
    + destruct k as [|[|[|k]]]; [..|lia]; reflexivity.
  - split.
    + intros i c Hc. cbn [caches old_flash half_full] in Hc. apply lookup_singleton_Some in Hc as [<- <-]. exists [1%nat]. split; [done|]. by exists (Ref 2 68 (ToCache 1)).
    + intros r x [[-> ->]|[[_ ->]|[[_ ->]|[_ ->]]]]%old_refs Hn; try done. exists 1%nat, (Cache (ToRef 1) 1 INO_STATE_CHECKEDABSENT true), [1%nat].
      split_and!; [done|split; [done|by exists (Ref 2 68 (ToCache 1))]|left].
  - intros b j Hj. split; [intros [|Hb]; [done|]|intros Hb; by apply elem_of_nil in Hb].
    apply old_block in Hj as [[-> _]|(k & Hk & -> & -> & _)]; [clear -Hb; set_solver|]. apply perfect_stored. intros i v [-> Hi]%lookup_replicate.
    apply nth_overflow. rewrite length_node_bytes. cbn [offset size free_size]. change sector_size with 1024. lia.
Qed.
Lemma old_flash_collectable : collectable old_flash.
Proof.
  split.
  - intros n b j Hn Hb _. destruct n; cbn [lists old_flash half_full] in Hb; try (by apply elem_of_nil in Hb). clear -Hn. set_solver.
  - done.
  - intros b j [= <-] [[_ ->]|(k & _ & ? & _)]%old_block; [|done]. exists [], 1%nat, []. split_and!; [done|done|by intros q ?%elem_of_nil].
Qed.
Lemma old_flash_sound : sound old_flash.
Proof. split; [exact old_flash_inv|exact old_flash_collectable|by apply (unchecked_free _ old_flash_inv)]. Qed.
Lemma perfect_prompt' : prompt (F := perfect).
Proof. intros f o n. done. Qed.
Definition pass : SM (sb (F := perfect)) (Z * Z) := jffs2_garbage_collect_pass (λ _, fault) (λ _ _ _, fault) [] 1 2.
Definition passed : sb (F := perfect) := match pass old_flash with Some (_, s') => s' | None => old_flash end.
Lemma pass_returns : ∃ a, pass old_flash = Some (a, passed).
Proof. unfold passed. assert (bool_decide (is_Some (pass old_flash)) = true) as [[a s'] ->]%bool_decide_eq_true by (by vm_compute). by exists a. Qed.
Lemma old_flash_idle : idle old_flash.
Proof. intros i c Hc. cbn [caches old_flash half_full] in Hc. apply lookup_singleton_Some in Hc as [<- <-]. by apply (bool_decide_unpack _). Qed.
Lemma passed_turns : turns pass old_flash passed.
Proof. destruct pass_returns as [a Ha]. eapply turns_pass; [apply turns_here|exact Ha]. Qed.
Lemma collection_keeps_books_witness : turns pass old_flash passed ∧ inv [] passed ∧ collectable passed ∧ idle passed.
Proof.
  destruct (collection_keeps_books (λ _, fault) [] 1 2 old_flash passed perfect_prompt' perfect_durable old_flash_inv old_flash_collectable eq_refl old_flash_idle passed_turns)
    as ((H1 & H2 & _ & H3) & _). split_and!; [exact passed_turns|exact H1|exact H2|exact H3].
Defined.
(** The node is in block 1 now, and block 0 waits for its erase. *)
Lemma pass_moves : gcblock passed = None ∧ lists passed erase_pending_list = [0%nat] ∧ nextblock passed = Some 1%nat ∧ refs passed !! 1%nat = Some (Ref 1 68 Null) ∧
  caches passed !! 1%nat = Some (Cache (ToRef 5) 1 INO_STATE_CHECKEDABSENT true) ∧ refs passed !! 5%nat = Some (Ref 1038 68 (ToCache 1)).
Proof. by vm_compute. Qed.
Lemma old_target : target old_flash 0 1 1 (Ref 2 68 (ToCache 1)).
Proof.
  split; [done|by eexists; split; [reflexivity|left]|done|done|]. exists (Cache (ToRef 1) 1 INO_STATE_CHECKEDABSENT true), [1%nat].
  split_and!; [done|split; [done|by exists (Ref 2 68 (ToCache 1))]|left].
Qed.
Lemma old_node : stored (flash old_flash) 0 node_bytes.
Proof. apply perfect_stored. intros i v Hv. cbn [flash old_flash half_full]. rewrite Z.add_0_l, Nat2Z.id. by apply nth_lookup_Some. Qed.
Lemma node_moves_whole_witness : ∃ ret s', jffs2_garbage_collect_pristine [] 1 1 old_flash = Some (ret, s') ∧ inv [] s'.
Proof.
  destruct (node_moves_whole [] old_flash 0 1 1 (Ref 2 68 (ToCache 1)) node_bytes old_flash_sound perfect_prompt' perfect_durable old_target) as (ret & s' & H & Hi & _).
  - by rewrite length_node_bytes.
  - exact old_node.
  - exists ret, s'. split; assumption.
Defined.

(** The same flash, but nothing can be written to it. *)
Inductive sealed := Sealed (f : perfect).
#[local] Instance sealed_mtd : Mtd sealed := {
  mtd_read '(Sealed f) o n := mtd_read f o n;
  mtd_write f o b := (- EIO, 0, f) }.
#[local] Instance sealed_eraser : Eraser sealed := λ f o n, f.
Lemma sealed_refusing : refusing (F := sealed).
Proof. intros f o l. by exists (- EIO). Qed.
Definition sealed_flash : sb (F := sealed) := half_full (Sealed (λ a, nth (Z.to_nat a) node_bytes 255)).
Lemma failed_copy_frees_twice_witness :
  copy_node 1 1 1 2 1036 68 node_bytes sealed_flash = None ∧ jffs2_garbage_collect_pristine [] 1 1 sealed_flash = None.
Proof. split; [exact (failed_copy_frees_twice 1 1 1 2 1036 68 node_bytes sealed_flash sealed_refusing)|by vm_compute]. Defined.
End Sample.
